(* ===== verification/_CoqProject ===== *)
-Q . S2P
Prelude.v
GoStrings.v
GoFloat.v
ObjectId.v
KeyLock.v
ShardLock.v
Persistence.v
Object.v
ReliableCalls.v
AccessControl.v
ClusterConfig.v
Node.v
StopLock.v
Gate.v
ClientPush.v
GateStream.v
ConsensusState.v
ConsensusPlan.v
EtcdStore.v
ConsensusStore.v
ConsensusSettle.v
ConsensusProtocol.v
ConsensusWatch.v
Cluster.v
NodeConnections.v
CallContext.v
Server.v
SingleActivation.v
GateServer.v
Backoff.v
TaskPool.v
WorkerPool.v
EtcdManager.v
ClientLib.v
InspectorGraph.v
InspectorService.v
InspectorManager.v
InspectServer.v
GateHTTP.v
GateEvents.v
Api.v
GateSession.v
Startup.v
ConfigGen.v
PgAdmin.v
InspectHTTP.v
Lifecycle.v
GateLifecycle.v
Bomberman.v
Matchmaking.v
TicTacToe.v
Samples.v
