(* ===== verification/Prelude.v ===== *)
(** * Verification of goverse, a distributed object runtime

    goverse (src/, in Go) runs a cluster of nodes that host objects, and gates through which clients call
    them.  An object lives on the node that owns its shard; ownership is agreed on through etcd, objects
    and reliable calls are stored in PostgreSQL.

    ** The parts and how they interact

    A client calls a gate server (gate/gateserver), which checks the access rules and asks the cluster
    object (cluster) to route the call: the object's id names its shard (cluster/sharding, util/objectid)
    and the consensus manager (cluster/consensusmanager) says which node serves the shard.  The owner's
    server (server) checks that it is the owner and the rules again, and its node (node) activates the
    object under a per-object lock (util/keylock), restoring it from the store (object/persistence.go,
    util/postgres), and invokes the method (object).  A reliable call is first stored and then executed by
    the object's processing loop.  A node pushes messages to clients through the channel of their gate
    (cluster, gate).  In the background a management tick elects a leader, which plans the target node of
    every shard, and every node claims and releases shards with compare-and-swap writes to etcd.  The keys
    that announce nodes and gates live as long as the shared lease of the etcd manager
    (cluster/etcdmanager).  Nodes and gates report to the inspector (node/inspectormanager) over the
    task pool (util/taskpool); the inspector (cmd/inspector) keeps a graph of them, streams its changes to
    browsers and can move and pin shards.  Go programs use the client library (client/goverseclient).
    A process starts from flags or a configuration file (node/serverconfig, cmd/gate/gateconfig, config),
    runs until it is told to stop, saves its objects and gives up its lease (server, cluster).  The samples
    (samples/) are games and small services whose objects run on all this.

    ** The files

    - Prelude.v (this file): results and errors of Go functions, faults of calls to a store, tactics,
      hint database, shared lemmas on lists, maps and integers.
    - GoStrings.v, GoFloat.v: the parts of Go's strings, strconv, hash/fnv and float64 the code uses.
    - ObjectId.v: modules Sharding (cluster/sharding), Parser (util/objectid), UniqueIds (util/uniqueid).
    - KeyLock.v (util/keylock): [KeyLock] is the heap and map of entries, the three critical sections of a
      call are the steps of [step]; the abstract lock table is [spec_step].
    - ShardLock.v (cluster/shardlock): the locks an acquisition asks for, in its order, and concurrent callers of it on
      locks that, like Go's, let no reader in behind a waiting writer.
    - Persistence.v (object/persistence.go, util/postgres/persistence.go): the class
      [PersistenceProvider] with its laws [PersistenceLaws], and the module Postgres that discharges them.
    - Object.v (object/object.go, util/protohelper): [BaseObject], [InvokeMethod], the processing loop and
      its atomic pieces; user code is a [Class], the protobuf runtime a [Runtime].
    - ReliableCalls.v: the loops, callers, saves, crashes and reactivations of one object as a step relation.
    - AccessControl.v: modules Access (config/access_control.go) and Conf (config/config.go).
      ClusterConfig.v: module ClusterConf (cluster/config.go).
    - Node.v (node/node.go): module Nodes, one definition per method of [Node]; a call holds the shared lock of its
      object, so that others, and calls of the same object, go on while its method runs ([during]).  StopLock.v: the locks that calls,
      evictions, the periodic saving and [Stop] of a node take, as a step relation.
    - Gate.v (gate/gate.go, gate/clientproxy.go): module Gates, the client proxies and node registrations on
      heaps, the goroutines of a gate as a step relation.
    - ClientPush.v: module Pushes, the gate channels of a node (cluster/cluster.go).  GateStream.v: the
      [RegisterGate] handlers of a node server (server/server.go) that carry a channel to its gate, as a step
      relation with the operations on the channels, and what the gate does with the messages.
    - ConsensusState.v, ConsensusPlan.v, ConsensusStore.v (cluster/consensusmanager): the state with its
      watch handlers and routing, the planning of shard updates, and the writes to etcd; EtcdStore.v is
      the interface of etcd, with its laws, and an in-memory instance.
    - ConsensusProtocol.v: the managers of several nodes around one etcd as a step relation.
      ConsensusWatch.v: the watch goroutine of a manager, its reconnections and reloads, on the history of the key space.
      ConsensusSettle.v: all operations of managers that are in sync, in any order, on a cluster whose members do not
      change; a reallocation finds no shard that has been unclaimed for the whole timeout.
    - Cluster.v (cluster/cluster.go): module Clusters, the routing of operations, the management tick and the
      auto-loaded objects.  NodeConnections.v (cluster/nodeconnections): the table of connections, which
      refines what Cluster.v relies on.
    - SingleActivation.v: the protocol of ConsensusProtocol.v together with the nodes of Node.v: requests that
      are admitted by the routing and run later, releases that count the objects first, under the
      assumptions on timing of [timing], each of which is shown to be needed.
    - CallContext.v (util/callcontext), Server.v (server/server.go), GateServer.v
      (gate/gateserver/gateserver.go): what a call carries, and the RPC handlers of nodes and gates.
      GateHTTP.v (gate/gateserver/http_handler.go): the REST handlers of a gate.  GateEvents.v: its routes,
      JSON answers and the stream of server-sent events, down to the text and what a browser reads.  GateSession.v: the
      [Register] streams of clients next to the calls and [Stop], which share a mutex, as a step relation.
      Api.v (goverseapi, util/errors, client): the interface for programs and the classification of timeouts.
    - Backoff.v, TaskPool.v, WorkerPool.v (util/backoff, util/taskpool, util/workerpool): the delays of
      retries, and the two pools with their channels and goroutines as step relations.
    - EtcdManager.v (cluster/etcdmanager): the class [LeaseOps] of a lease service with its laws, and the
      manager with its lease loop, whose program counter is [phase]; [exec] runs one step of a goroutine.
    - ClientLib.v (client/goverseclient): module Client, the methods and the goroutines that connect and receive.
    - InspectorGraph.v, InspectorService.v, InspectServer.v (cmd/inspector): the graph with the events
      of each change, the gRPC handlers with the call metrics, the HTTP requests that change shards and the
      event stream with its bounded channels.  InspectorManager.v (node/inspectormanager): the reporting
      side, composed with the task pool and the service.
    - Startup.v: the construction of processes.  Modules PgConf (util/postgres), Startup ([NewServer] of
      server/server.go, [NewGateServer] of gate/gateserver, the constructors of cluster/cluster.go; what they open and
      close is a list of effects), NodeLoader and GateLoader (node/serverconfig, cmd/gate/gateconfig), ClusterInfo
      (cluster/clusterinfo.go).  ConfigGen.v (cmd/configgen): the file the generator writes, and a reader of it.
      PgAdmin.v (cmd/pgadmin, [InitSchema] of util/postgres): the statements of the schema on a catalog, and the commands.
      InspectHTTP.v (cmd/inspector): the inspector as a process, its reading endpoints and the handler of its stream.
    - Lifecycle.v: [Server.Run] with [Cluster.Start] and [Cluster.Stop], whose program counter is [phase], next
      to the RPC handlers, the lease loop and the gate channels of Node.v, EtcdManager.v and ClientPush.v, the processing
      loops of reliable calls, also those that outlive [Node.Stop], and other writers of the database; a revocation of
      the lease may fail.
      GateLifecycle.v: the same for a gate process ([GateServer.Start] and [Stop], cmd/gate/main.go), around the
      gate of Gate.v; [as_life] maps its phases to those of Lifecycle.v, whose lemmas on the etcd manager it uses.
    - Bomberman.v, Matchmaking.v (samples/bomberman), TicTacToe.v (samples/tictactoe), Samples.v (samples/wallet,
      samples/counter, samples/chat): the objects of the samples.

    ** What the theorems show

    - Shard ownership (ConsensusProtocol, ConsensusWatch, ConsensusStore, ConsensusPlan, ConsensusState): every
      applied write builds on the record it replaces and changes the owner only by a claim of the target or
      a release of the owner; caches of a shard never run ahead of its key in etcd; elections have one winner; plans are correct,
      balanced and within their batch size, rebalancing comes to rest; a manager that has caught up with
      its watch has the state of etcd, however often it lost the watch, and it can always catch up; puts
      commute, records survive their encoding; eviction agrees with routing.  When the members of a cluster no
      longer change, then after a reassignment every round of a release and a claim by every node, in which no
      rebalancing moves a shard, leaves each shard with its live target, and only finitely many rounds are disturbed.
    - Single activation (SingleActivation): an object is live on at most one node, in every interleaving of requests,
      releases, claims and evictions in which requests and counts are fresh and only dead nodes are taken for
      dead; without each of the three an execution with two live copies.
    - Reliable calls (ReliableCalls, Node, Cluster): at most once in every calm run with failures and
      crashes, exactly once without failures; waiters are answered once; a retry returns the stored
      outcome and carries the same call id.  The window in which this fails is a theorem too.
    - Objects on a node (Node): the invariant of the object table, what a call, a deletion, an eviction
      with its reactivation elsewhere, and a shutdown do.
    - Locks (KeyLock, ShardLock, StopLock): mutual exclusion per key in spite of entries that come and go,
      refinement of the abstract table, no deadlock of the shard locks with writer preference, whose callers all
      return; a node whose methods call no object of the same node
      can always finish its [Stop], and with a nested call it may never.
    - Messages to clients (Gate, ClientPush, GateStream): one registration per node, no panic on gate channels,
      one envelope per gate with exactly its clients, broadcasts reach everyone with room; a stream sends what
      was put on its channel, in order and without gaps, and a push reaches the channel of every named client.
      A browser reads from the event stream exactly the events that were taken in time (GateEvents).
    - Access and identity (AccessControl, GateServer): the checks decide by the first matching rule and the documented
      matrix, valid configurations are exactly characterised, a client's [CallObject] is executed at level ALLOW only
      (the documents say EXTERNAL too), and the caller's identity arrives at the object; over HTTP a call is sent only when rules and event handler
      accept it; the table of identities is that of the connected clients.  [Stop] waits for them all.
    - Leases (EtcdManager): registered keys are in the store with the current lease whenever the loop is
      settled, a manager that has stopped leaves no key, a lost lease is replaced and all keys put again.
    - Pools (TaskPool, WorkerPool): jobs of a key run one at a time in the order of their acceptance, and
      a batch on a pool that is not stopped returns with every result.
    - Client library (ClientLib): the fields of a client agree with each other in every reachable state.
    - Inspector (InspectorService, InspectorManager, InspectServer): an observer that replays the events
      has the inspector's graph; once the queued reports have run the inspector shows an object exactly as the node
      tracks it, when no other node reports it and no refresh is cut by a report; a shard move changes the target of that shard and nothing else; a stream client
      without drops ends with the graph.
    - Processes (Startup, Lifecycle): a valid configuration file starts every node and gate it names, and they agree
      on the shards and the routing; a constructor that fails leaves nothing open; a node that shuts down saves
      all its objects before its key leaves etcd, and another node restores them as they were, unless a late
      processing loop has written one since; a process that has returned runs no lease loop, has closed its database and
      contexts, and has left no key unless the revocation of its lease failed; so does a gate process, whose servers
      are down.  A generated configuration starts the cluster it describes, on one machine exactly when
      no two ports agree; the database tool makes a database that a node accepts, loses no row by [init], and
      judges by the schema [public].
    - Samples: the invariant of a Bomberman match over all runs and its end in time, results recorded once,
      what the matchmaking does with its players; tic-tac-toe by its rules and through restarts; the balance
      of a wallet under reliable calls is the sum of the applied amounts.
    - Identifiers (ObjectId): generated identifiers parse and route as promised.

    ** Conventions, bounds and fuel

    An error is [Err]; a panic (a nil map, a closed channel, an index out of range) is [None] or an [Err]
    of a panic type.  [time.Now] is an argument in nanoseconds, random choices and map iteration orders are
    arguments.  What other goroutines do while an operation waits is a function argument, or the operation
    is cut into the steps of a relation.  A call to a store can fail before or after it took effect
    ([fault]).  Integers are [Z], with the wrap-around written out where the code can reach it (the FNV hash
    at 32 bits, int64 parsing).  The processing loop takes fuel; two iterations are enough without failures,
    which is part of the theorem on it.  The rebalancing loop takes as fuel the batch size it counts, and
    repeated rebalancing the initial sum of squared loads, which every batch lowers.  A batch on a worker pool
    ends because every step lowers a weight; a lost lease is restored by an explicit sequence of inputs.
    The chain of explosions in a Bomberman tick takes one unit of fuel more than there are bombs, since every
    pass but the last removes one; that a tick returns is part of the theorem on it.

    ** What is not modelled

    Logging, metrics and profiling; sockets and dialling.  YAML, protobuf and SQL text: the YAML library and the
    protobuf runtime are arguments, a SQL statement is what it does to tables or to the catalog; JSON only as far as
    the event stream and the answers of the gate need it, and for valid UTF-8 only.  The clean-up of paths by
    the HTTP multiplexer.  In ConsensusProtocol.v a manager loads the state of etcd in one step, while
    ConsensusWatch.v splits loads from changes.  The demo of the inspector, which generates data for show; the examples, the drivers of the samples and the helpers of tests; getters that
    only return a field. *)

From stdpp Require Export base gmap strings list fin_maps sets sorting relations.
From Stdlib Require Export ZArith Lia.

(** ** Go results

    A Go function that returns [(A, error)] is a function into [result E A]: [Ok a] is
    [(a, nil)], [Err e] is a non-nil error. *)

Inductive result (E A : Type) : Type :=
| Ok (a : A)
| Err (e : E).
Arguments Ok {E A} _.
Arguments Err {E A} _.

Declare Scope go_scope.
Delimit Scope go_scope with go.

(** [x <-? m ;; k] is Go's [x, err := m; if err != nil { return err }; k]. *)
Notation "x <-? m ;; k" :=
  (match m with Ok x => k | Err e => Err e end)
  (at level 100, m at next level, right associativity) : go_scope.

(** [guard! b else e ;; k] is Go's [if !b { return e }; k]. *)
Notation "'guard!' b 'else' e ;; k" :=
  (if b then k else Err e)
  (at level 100, b at level 99, e at level 99, right associativity) : go_scope.

Definition is_ok {E A} (r : result E A) : bool :=
  match r with Ok _ => true | Err _ => false end.

#[global] Instance result_eq_dec {E A} `{EqDecision E, EqDecision A} :
  EqDecision (result E A).
Proof. solve_decision. Defined.

(** ** Calls to an external store that may fail *)

(** What the network and the deadline do to a call: nothing, or an error that the client sees
    before or after the store has applied the operation. *)
Inductive fault : Type :=
| NoFault
| FailBefore (msg : string)
| FailAfter (msg : string).

#[global] Instance fault_eq_dec : EqDecision fault.
Proof. solve_decision. Defined.

(** ** Machine integers

    A Go integer of width [w] is a [Z] in the type's range; conversions and arithmetic that may
    leave the range wrap around two's complement. *)

Definition wrapu (w z : Z) : Z := (z mod 2 ^ w)%Z.
Definition wraps (w z : Z) : Z := ((z + 2 ^ (w - 1)) mod 2 ^ w - 2 ^ (w - 1))%Z.
Definition uint32 (z : Z) : Z := wrapu 32 z.
Definition uint64 (z : Z) : Z := wrapu 64 z.
Definition int32 (z : Z) : Z := wraps 32 z.
Definition int64 (z : Z) : Z := wraps 64 z.
Definition in_int64 (z : Z) : Prop := (- 2 ^ 63 <= z < 2 ^ 63)%Z.
Definition in_int64b (z : Z) : bool := ((- 2 ^ 63 <=? z) && (z <? 2 ^ 63))%Z.

(** ** The development's tactics *)

(** Case analysis on the scrutinee of a [match] or [if] of the goal or of a hypothesis, keeping
    its equation. *)
Ltac cases :=
  match goal with
  | |- context [match ?x with _ => _ end] => let H := fresh "E" in destruct x eqn:H
  | H : context [match ?x with _ => _ end] |- _ => let H' := fresh "E" in destruct x eqn:H'
  end.

(** Turn boolean hypotheses into propositions. *)
Ltac breflect :=
  repeat match goal with
  | H : (_ && _) = true |- _ => apply andb_prop in H as [??]
  | H : (_ || _) = false |- _ => apply orb_false_elim in H as [??]
  | H : negb _ = true |- _ => apply negb_true_iff in H
  | H : negb _ = false |- _ => apply negb_false_iff in H
  | H : bool_decide _ = true |- _ => apply bool_decide_eq_true in H
  | H : bool_decide _ = false |- _ => apply bool_decide_eq_false in H
  | H : (_ =? _)%Z = true |- _ => apply Z.eqb_eq in H
  | H : (_ =? _)%Z = false |- _ => apply Z.eqb_neq in H
  | H : (_ <? _)%Z = true |- _ => apply Z.ltb_lt in H
  | H : (_ <? _)%Z = false |- _ => apply Z.ltb_ge in H
  | H : (_ <=? _)%Z = true |- _ => apply Z.leb_le in H
  | H : (_ <=? _)%Z = false |- _ => apply Z.leb_gt in H
  end.

Create HintDb goverse.

(** ** Generic lemmas *)

Lemma wrapu_range w z : (0 <= w)%Z -> (0 <= wrapu w z < 2 ^ w)%Z.
Proof. intros Hw. apply Z.mod_pos_bound. lia. Qed.

Lemma wraps_id w z : (0 < w)%Z -> (- 2 ^ (w - 1) <= z < 2 ^ (w - 1))%Z -> wraps w z = z.
Proof.
  intros Hw Hz. unfold wraps. rewrite Z.mod_small; [lia|].
  replace (2 ^ w)%Z with (2 ^ (w - 1) + 2 ^ (w - 1))%Z; [lia|].
  replace w with (Z.succ (w - 1)) at 3 by lia. rewrite Z.pow_succ_r; lia.
Qed.

Lemma wraps_range w z : (0 < w)%Z -> (- 2 ^ (w - 1) <= wraps w z < 2 ^ (w - 1))%Z.
Proof.
  intros Hw. unfold wraps.
  pose proof (Z.mod_pos_bound (z + 2 ^ (w - 1)) (2 ^ w) ltac:(lia)).
  replace (2 ^ w)%Z with (2 ^ (w - 1) + 2 ^ (w - 1))%Z in *; [lia|].
  replace w with (Z.succ (w - 1)) at 3 by lia. rewrite Z.pow_succ_r; lia.
Qed.

Lemma int64_id z : in_int64 z -> int64 z = z.
Proof. intros. by apply wraps_id. Qed.

Lemma in_int64b_spec z : in_int64b z = true <-> in_int64 z.
Proof. unfold in_int64b, in_int64. rewrite andb_true_iff, Z.leb_le, Z.ltb_lt. done. Qed.

#[export] Hint Resolve wrapu_range wraps_range int64_id : goverse.

(** ** Counting the entries of a map *)

Section mcount.
Context {K : Type} `{Countable K} {A : Type}.

(** How many entries of [m] satisfy the boolean [P]. *)
Definition mcount (P : A -> bool) (m : gmap K A) : nat :=
  size (filter (fun kv => P kv.2 = true) m).

Lemma mcount_empty P : mcount P ∅ = 0%nat.
Proof. unfold mcount. by rewrite map_filter_empty, map_size_empty. Qed.

Lemma mcount_insert_new P m i x :
  m !! i = None -> mcount P (<[i:=x]> m) = ((if P x then 1 else 0) + mcount P m)%nat.
Proof.
  intros Hi. unfold mcount. destruct (P x) eqn:E.
  - rewrite map_filter_insert_True by done. rewrite map_size_insert_None; [done|].
    apply map_lookup_filter_None. by left.
  - rewrite map_filter_insert_False by (simpl; congruence).
    by rewrite delete_id.
Qed.

Lemma mcount_delete P m i x :
  m !! i = Some x -> mcount P m = ((if P x then 1 else 0) + mcount P (delete i m))%nat.
Proof.
  intros Hi. rewrite <-(mcount_insert_new P (delete i m) i x) by apply lookup_delete_eq.
  by rewrite insert_delete_id.
Qed.

Lemma mcount_insert_old P m i x y :
  m !! i = Some x ->
  (mcount P (<[i:=y]> m) + (if P x then 1 else 0) = mcount P m + (if P y then 1 else 0))%nat.
Proof.
  intros Hi. rewrite (mcount_delete P m i x Hi), <-insert_delete_eq.
  rewrite mcount_insert_new by apply lookup_delete_eq. lia.
Qed.

Lemma mcount_pos P m i x : m !! i = Some x -> P x = true -> (0 < mcount P m)%nat.
Proof. intros Hi HP. rewrite (mcount_delete P m i x Hi), HP. lia. Qed.

Lemma mcount_pos_inv P m : (0 < mcount P m)%nat -> exists i x, m !! i = Some x /\ P x = true.
Proof.
  intros Hpos. destruct (map_choose (filter (fun kv => P kv.2 = true) m)) as (i & x & Hx).
  - intros He. unfold mcount in Hpos. rewrite He, map_size_empty in Hpos. lia.
  - apply map_lookup_filter_Some in Hx as [??]. eauto.
Qed.

Lemma mcount_zero P m : (forall i x, m !! i = Some x -> P x = false) -> mcount P m = 0%nat.
Proof.
  intros HP. unfold mcount. apply map_size_empty_iff, map_empty. intros i.
  apply map_lookup_filter_None. destruct (m !! i) as [x|] eqn:E; [|by left].
  right. intros y Hy. simpl. rewrite (HP i y) by congruence. done.
Qed.

Lemma mcount_two P m i j x y :
  i <> j -> m !! i = Some x -> m !! j = Some y -> P x = true -> P y = true ->
  (2 <= mcount P m)%nat.
Proof.
  intros Hij Hi Hj Hx Hy. rewrite (mcount_delete P m i x Hi), Hx.
  assert (0 < mcount P (delete i m))%nat; [|lia].
  apply (mcount_pos P _ j y); [by rewrite lookup_delete_ne|done].
Qed.

Lemma mcount_ext P Q m :
  (forall i x, m !! i = Some x -> P x = Q x) -> mcount P m = mcount Q m.
Proof.
  intros HPQ. unfold mcount. f_equal. apply map_filter_ext. intros i x Hx. simpl.
  by rewrite (HPQ i x Hx).
Qed.

End mcount.

(** A non-empty finite map has an entry on which a measure is maximal. *)
Lemma map_argmax {K} `{Countable K} {A} (f : A -> Z) (m : gmap K A) :
  m <> ∅ -> exists i x, m !! i = Some x /\ forall j y, m !! j = Some y -> (f y <= f x)%Z.
Proof.
  induction m as [|k v m Hk IH] using map_ind; [done|]. intros _.
  destruct (decide (m = ∅)) as [->|Hne].
  - exists k, v. rewrite lookup_insert_eq. split; [done|].
    intros j y. rewrite lookup_insert. case_decide; [by intros [= ->]|by rewrite lookup_empty].
  - destruct (IH Hne) as (i & x & Hi & Hmax). destruct (decide (f x <= f v)%Z).
    + exists k, v. rewrite lookup_insert_eq. split; [done|].
      intros j y. rewrite lookup_insert. case_decide; [by intros [= ->]|].
      intros Hj%Hmax. lia.
    + exists i, x. split; [rewrite lookup_insert_ne; congruence|].
      intros j y. rewrite lookup_insert. case_decide; [intros [= <-]; lia|apply Hmax].
Qed.
