(* ===== verification/GoStrings.v ===== *)
(** * Go's strings, strconv and hash/fnv functions the program uses

    A Go string is a sequence of bytes: a [String.string], one [ascii] per byte.  The functions
    here model the parts of the standard library the modelled code calls ([strings.HasPrefix],
    [strings.Index] and [strings.SplitN] with a one-byte separator, [strings.Split],
    [strings.TrimSpace], [strings.ToUpper] seen through a comparison with an ASCII keyword,
    [strconv.Atoi], [strconv.Itoa], [fnv.New32a]), with the lemmas the components share. *)

From S2P Require Import Prelude.
From Stdlib Require Import DecimalString DecimalFacts DecimalZ.
From Stdlib Require Export Ascii.

#[local] Open Scope string_scope.
#[global] Arguments String.append !_ _ /.

(** ** Prefixes, separators, slices *)

Fixpoint TrimPrefix_opt (p s : string) : option string :=
  match p, s with
  | EmptyString, _ => Some s
  | String c p', String d s' => if bool_decide (c = d) then TrimPrefix_opt p' s' else None
  | String _ _, EmptyString => None
  end.

Definition HasPrefix (s p : string) : bool := bool_decide (is_Some (TrimPrefix_opt p s)).

Definition TrimPrefix (s p : string) : string := default s (TrimPrefix_opt p s).

(** [strings.Cut] at the first occurrence of a byte. *)
Fixpoint Cut (c : ascii) (s : string) : option (string * string) :=
  match s with
  | EmptyString => None
  | String d s' =>
      if bool_decide (d = c) then Some (EmptyString, s')
      else match Cut c s' with
           | Some (a, b) => Some (String d a, b)
           | None => None
           end
  end.

(** [strings.Index(s, c)]: the index of the first [c], -1 when there is none. *)
Fixpoint Index (s : string) (c : ascii) : Z :=
  match s with
  | EmptyString => -1
  | String d s' =>
      if bool_decide (d = c) then 0
      else let i := Index s' c in if (i <? 0)%Z then -1 else (i + 1)%Z
  end.

Definition Contains (s : string) (c : ascii) : bool := (0 <=? Index s c)%Z.

(** [s[a:b]] for [0 <= a <= b <= len(s)]. *)
Definition slice (s : string) (a b : Z) : string :=
  String.substring (Z.to_nat a) (Z.to_nat (b - a)) s.

Definition len (s : string) : Z := Z.of_nat (String.length s).

(** [strings.SplitN(s, c, 2)] *)
Definition SplitN2 (s : string) (c : ascii) : list string :=
  match Cut c s with Some (a, b) => [a; b] | None => [s] end.

(** [strings.Split(s, c)] *)
Fixpoint Split (s : string) (c : ascii) : list string :=
  match s with
  | EmptyString => [EmptyString]
  | String d s' =>
      if bool_decide (d = c) then EmptyString :: Split s' c
      else match Split s' c with
           | a :: l => String d a :: l
           | [] => [String d EmptyString]
           end
  end.

(** ** White space

    The UTF-8 encodings of the runes [unicode.IsSpace] accepts. *)
Definition bytes_of (l : list N) : string := String.string_of_list_ascii (ascii_of_N <$> l).
Definition space_seqs : list string :=
  bytes_of <$> [[9]; [10]; [11]; [12]; [13]; [32]; [194; 133]; [194; 160]; [225; 154; 128];
     [226; 128; 128]; [226; 128; 129]; [226; 128; 130]; [226; 128; 131]; [226; 128; 132];
     [226; 128; 133]; [226; 128; 134]; [226; 128; 135]; [226; 128; 136]; [226; 128; 137];
     [226; 128; 138]; [226; 128; 168]; [226; 128; 169]; [226; 128; 175]; [226; 129; 159];
     [227; 128; 128]]%N.

Definition string_rev (s : string) : string :=
  String.string_of_list_ascii (rev (String.list_ascii_of_string s)).

(** Strip one white-space rune, given its encodings, from the front. *)
Fixpoint strip_one (seqs : list string) (s : string) : option string :=
  match seqs with
  | [] => None
  | q :: seqs' => match TrimPrefix_opt q s with Some r => Some r | None => strip_one seqs' s end
  end.

Fixpoint strip_all (fuel : nat) (seqs : list string) (s : string) : string :=
  match fuel with
  | O => s
  | S f => match strip_one seqs s with Some r => strip_all f seqs r | None => s end
  end.

Definition TrimLeft (s : string) : string := strip_all (String.length s) space_seqs s.
Definition TrimRight (s : string) : string :=
  string_rev (strip_all (String.length s) (string_rev <$> space_seqs) (string_rev s)).
Definition TrimSpace (s : string) : string := TrimRight (TrimLeft s).

(** A string with no white space at either end. *)
Definition trimmed (s : string) : bool :=
  bool_decide (strip_one space_seqs s = None) &&
  bool_decide (strip_one (string_rev <$> space_seqs) (string_rev s) = None).

(** ** Upper case

    [strings.ToUpper] as a comparison with an ASCII keyword sees it: ASCII letters, and the two
    non-ASCII runes whose upper case is an ASCII letter (U+0131, U+017F); every other non-ASCII
    rune maps to a non-ASCII rune, so the result differs from the keyword either way. *)
Definition upper_byte (c : ascii) : ascii :=
  let n := N_of_ascii c in
  if ((97 <=? n) && (n <=? 122))%N then ascii_of_N (n - 32) else c.

Fixpoint ToUpper (s : string) : string :=
  match s with
  | EmptyString => EmptyString
  | String c s' =>
      match s' with
      | String d s'' =>
          if bool_decide (N_of_ascii c = 196%N /\ N_of_ascii d = 177%N)
          then String "I" (ToUpper s'')
          else if bool_decide (N_of_ascii c = 197%N /\ N_of_ascii d = 191%N)
          then String "S" (ToUpper s'')
          else String (upper_byte c) (ToUpper s')
      | EmptyString => String (upper_byte c) EmptyString
      end
  end.

(** ** Decimal numbers *)

Definition parse_uint (s : string) : option Z :=
  match NilZero.uint_of_string s with Some d => Some (Z.of_uint d) | None => None end.

(** [strconv.Atoi]: an optional sign and decimal digits, in the range of [int]. *)
Definition Atoi (s : string) : option Z :=
  let v := match s with
           | String "-" r => Z.opp <$> parse_uint r
           | String "+" r => parse_uint r
           | _ => parse_uint s
           end in
  match v with
  | Some z => if in_int64b z then Some z else None
  | None => None
  end.

(** [strconv.Itoa], the [%d] of [fmt] *)
Definition Itoa (z : Z) : string := NilZero.string_of_int (Z.to_int z).

(** ** 32-bit FNV-1a *)

Definition fnv_offset32 : Z := 2166136261.
Definition fnv_prime32 : Z := 16777619.

Fixpoint fnv_sum32a (h : Z) (s : string) : Z :=
  match s with
  | EmptyString => h
  | String c s' =>
      fnv_sum32a (uint32 (Z.lxor h (Z.of_N (N_of_ascii c)) * fnv_prime32)) s'
  end.

Definition fnv32a (s : string) : Z := fnv_sum32a fnv_offset32 s.

(** ** Lemmas *)

Definition no_byte (c : ascii) (s : string) : bool := negb (Contains s c).

Lemma app_nil_r_string (s : string) : s +:+ EmptyString = s.
Proof. induction s; simpl; congruence. Qed.

Lemma app_assoc_string (a b c : string) : (a +:+ b) +:+ c = a +:+ (b +:+ c).
Proof. induction a; simpl; congruence. Qed.

Lemma length_app_string (a b : string) :
  String.length (a +:+ b) = (String.length a + String.length b)%nat.
Proof. induction a; simpl; congruence. Qed.

Lemma TrimPrefix_opt_Some p s t : TrimPrefix_opt p s = Some t <-> s = p +:+ t.
Proof.
  revert s. induction p as [|c p IH]; intros s; simpl; [split; congruence|].
  destruct s as [|d s]; [done|].
  case_bool_decide; subst; [rewrite IH|]; split; intros; simplify_eq; done.
Qed.

Lemma HasPrefix_app p t : HasPrefix (p +:+ t) p = true.
Proof. apply bool_decide_eq_true. exists t. by apply TrimPrefix_opt_Some. Qed.

Lemma HasPrefix_true s p : HasPrefix s p = true <-> exists t, s = p +:+ t.
Proof.
  unfold HasPrefix. rewrite bool_decide_eq_true. unfold is_Some.
  by setoid_rewrite TrimPrefix_opt_Some.
Qed.

Lemma TrimPrefix_app p t : TrimPrefix (p +:+ t) p = t.
Proof. unfold TrimPrefix. by rewrite (proj2 (TrimPrefix_opt_Some p (p +:+ t) t) eq_refl). Qed.

Lemma Index_lower s c : (-1 <= Index s c)%Z.
Proof. induction s as [|d s IH]; simpl; [lia|]. case_bool_decide; [lia|]. destruct (_ <? _)%Z; lia. Qed.

Lemma Cut_Some c s a b : Cut c s = Some (a, b) <-> s = a +:+ String c b /\ Contains a c = false.
Proof.
  revert a. induction s as [|d s IH]; intros a; simpl.
  { split; [done|]. by intros [H _]; destruct a. }
  case_bool_decide as Hd; subst.
  - split; [naive_solver|]. intros [H Ha]. destruct a as [|e a]; simplify_eq/=; [done|].
    unfold Contains in Ha. simpl in Ha. by rewrite bool_decide_true in Ha.
  - unfold Contains in *. destruct (Cut c s) as [[a' b']|] eqn:E.
    + split.
      * intros [= <- <-]. destruct (proj1 (IH a') eq_refl) as [-> Ha']. split; [done|].
        simpl. rewrite bool_decide_false by done.
        pose proof (Index_lower a' c). destruct (Index a' c <? 0)%Z eqn:?; lia.
      * intros [Hs Ha]. destruct a as [|e a]; simplify_eq/=.
        rewrite bool_decide_false in Ha by done.
        assert (Some (a', b') = Some (a, b)) as [= -> ->]; [|done].
        apply IH. split; [done|]. destruct (Index a c <? 0)%Z eqn:?; lia.
    + split; [done|]. intros [Hs Ha]. destruct a as [|e a]; simplify_eq/=.
      rewrite bool_decide_false in Ha by done.
      assert (None = Some (a, b)); [|done]. apply IH. split; [done|].
      destruct (Index a c <? 0)%Z eqn:?; lia.
Qed.

Lemma Cut_None c s : Cut c s = None <-> Contains s c = false.
Proof.
  unfold Contains. induction s as [|d s IH]; simpl; [naive_solver|].
  case_bool_decide; subst; [naive_solver lia|].
  destruct (Cut c s) as [[a b]|]; destruct (Index s c <? 0)%Z eqn:?;
    pose proof (Index_lower s c); naive_solver lia.
Qed.

Lemma Cut_app c a b : Contains a c = false -> Cut c (a +:+ String c b) = Some (a, b).
Proof. intros. by apply Cut_Some. Qed.

Lemma Cut_Index c s a b : Cut c s = Some (a, b) -> Index s c = len a.
Proof.
  revert a. induction s as [|d s IH]; intros a; simpl; [done|].
  case_bool_decide; [intros [= <- <-]; done|].
  destruct (Cut c s) as [[a' b']|] eqn:E; [|done]. intros [= <- <-].
  rewrite (IH a' eq_refl). unfold len in *. simpl. destruct (_ <? 0)%Z eqn:?; lia.
Qed.

Lemma substring_app_l (a b : string) : String.substring 0 (String.length a) (a +:+ b) = a.
Proof. induction a; simpl; [by destruct b|congruence]. Qed.

Lemma substring_app_skip (p a : string) n :
  String.substring (String.length p) n (p +:+ a) = String.substring 0 n a.
Proof. induction p; simpl; done. Qed.

Lemma slice_app (p a b : string) : slice (p +:+ (a +:+ b)) (len p) (len (p +:+ a)) = a.
Proof.
  unfold slice, len. rewrite !Nat2Z.id.
  rewrite length_app_string, Nat2Z.inj_add, Z.add_simpl_l, Nat2Z.id.
  rewrite substring_app_skip. apply substring_app_l.
Qed.

Lemma Contains_app a b c : Contains (a +:+ b) c = Contains a c || Contains b c.
Proof.
  unfold Contains. induction a as [|d a IH]; simpl; [done|].
  case_bool_decide; [done|].
  pose proof (Index_lower a c). pose proof (Index_lower (a +:+ b) c).
  destruct (Index (a +:+ b) c <? 0)%Z eqn:?, (Index a c <? 0)%Z eqn:?; simpl; lia.
Qed.

Lemma Contains_cons d s c : Contains (String d s) c = bool_decide (d = c) || Contains s c.
Proof.
  unfold Contains. simpl. case_bool_decide; [done|].
  pose proof (Index_lower s c). destruct (Index s c <? 0)%Z eqn:?; simpl; lia.
Qed.

Lemma Split_no_sep s c : Contains s c = false -> Split s c = [s].
Proof.
  induction s as [|d s IH]; simpl; [done|]. rewrite Contains_cons.
  case_bool_decide; [done|]. simpl. intros H'. by rewrite IH.
Qed.

Lemma Split_app a b c :
  Contains a c = false -> Split (a +:+ String c b) c = a :: Split b c.
Proof.
  induction a as [|d a IH]; simpl; [by rewrite bool_decide_true|].
  rewrite Contains_cons. case_bool_decide; [done|]. simpl. intros Ha. by rewrite IH.
Qed.

Lemma strip_all_trimmed n seqs s : strip_one seqs s = None -> strip_all n seqs s = s.
Proof. destruct n; simpl; [done|]. by intros ->. Qed.

Lemma string_rev_involutive s : string_rev (string_rev s) = s.
Proof.
  unfold string_rev. rewrite String.list_ascii_of_string_of_list_ascii, rev_involutive.
  apply String.string_of_list_ascii_of_string.
Qed.

Lemma TrimSpace_trimmed s : trimmed s = true -> TrimSpace s = s.
Proof.
  unfold trimmed, TrimSpace, TrimRight, TrimLeft. intros. breflect.
  by rewrite (strip_all_trimmed _ _ s), strip_all_trimmed, string_rev_involutive.
Qed.

(** [Atoi] reads back what [Itoa] prints. *)
Lemma to_uint_nonnil n : N.to_uint n <> Decimal.Nil.
Proof.
  destruct n as [|p]; [done|]. simpl. intros H.
  pose proof (DecimalPos.Unsigned.of_to p) as Hp. by rewrite H in Hp.
Qed.

Lemma parse_uint_string_of_uint n :
  parse_uint (NilZero.string_of_uint (N.to_uint n)) = Some (Z.of_N n).
Proof.
  unfold parse_uint. rewrite NilZero.usu by apply to_uint_nonnil.
  f_equal. unfold Z.of_uint. f_equal. apply DecimalN.Unsigned.of_to.
Qed.

(** The first byte of a printed number is a digit. *)
Definition is_digit (c : ascii) : bool :=
  ((48 <=? N_of_ascii c) && (N_of_ascii c <=? 57))%N.

Fixpoint all_bytes (P : ascii -> bool) (s : string) : bool :=
  match s with EmptyString => true | String c s' => P c && all_bytes P s' end.

Lemma all_bytes_app P a b : all_bytes P (a +:+ b) = all_bytes P a && all_bytes P b.
Proof. induction a; simpl; [done|]. by rewrite <-andb_assoc, IHa. Qed.

Lemma all_bytes_not_Contains P s c :
  all_bytes P s = true -> P c = false -> Contains s c = false.
Proof.
  intros Hs Hc. induction s as [|d s IH]; [done|]. simpl in Hs. breflect.
  rewrite Contains_cons, IH by done. case_bool_decide; [congruence|done].
Qed.

Lemma string_of_uint_digits d : all_bytes is_digit (NilEmpty.string_of_uint d) = true.
Proof. by induction d. Qed.

Lemma string_of_uint_head d :
  d <> Decimal.Nil -> exists c s, NilZero.string_of_uint d = String c s /\ is_digit c = true.
Proof. destruct d; simpl; intros; try done; eauto. Qed.

Lemma Itoa_nonneg n : Itoa (Z.of_N n) = NilZero.string_of_uint (N.to_uint n).
Proof. by destruct n. Qed.

Lemma Itoa_neg p : Itoa (Z.neg p) = String "-" (NilZero.string_of_uint (N.to_uint (N.pos p))).
Proof. done. Qed.

Theorem Atoi_Itoa z : in_int64 z -> Atoi (Itoa z) = Some z.
Proof.
  intros Hz. unfold Atoi. destruct z as [|p|p]; [done|..].
  - change (Z.pos p) with (Z.of_N (N.pos p)) in *. rewrite Itoa_nonneg.
    pose proof (parse_uint_string_of_uint (N.pos p)) as Hp.
    destruct (string_of_uint_head _ (to_uint_nonnil (N.pos p))) as (c & s & Hs & Hc).
    rewrite Hs in *.
    assert (c <> "-" /\ c <> "+")%char as [??] by (split; intros ->; done).
    assert (match c with "-" => Z.opp <$> parse_uint s | "+" => parse_uint s
            | _ => parse_uint (String c s) end%char = parse_uint (String c s)) as ->.
    { repeat case_match; done. }
    rewrite Hp. by rewrite (proj2 (in_int64b_spec _) Hz).
  - rewrite Itoa_neg, parse_uint_string_of_uint. simpl.
    change (- Z.pos p)%Z with (Z.neg p). by rewrite (proj2 (in_int64b_spec _) Hz).
Qed.

Lemma Itoa_inj a b : in_int64 a -> in_int64 b -> Itoa a = Itoa b -> a = b.
Proof. intros Ha Hb E. apply Atoi_Itoa in Ha, Hb. rewrite E in Ha. congruence. Qed.

Lemma Itoa_no_byte z c : is_digit c = false -> c <> "-"%char -> Contains (Itoa z) c = false.
Proof.
  intros Hd Hm. assert (forall d, Contains (NilZero.string_of_uint d) c = false) as Hu.
  { intros d. apply (all_bytes_not_Contains is_digit); [|done].
    destruct d; try done; apply (string_of_uint_digits _). }
  destruct z as [|p|p]; [apply (Hu (Decimal.D0 Decimal.Nil))|apply Hu|].
  rewrite Itoa_neg, Contains_cons, Hu. by rewrite bool_decide_false by congruence.
Qed.

Lemma Itoa_no_slash z : Contains (Itoa z) "/" = false.
Proof. by apply Itoa_no_byte. Qed.

Lemma Itoa_nonempty z : (0 < len (Itoa z))%Z.
Proof.
  unfold len. destruct z as [|p|p]; [done| |rewrite Itoa_neg; simpl; lia].
  change (Z.pos p) with (Z.of_N (N.pos p)). rewrite Itoa_nonneg.
  destruct (string_of_uint_head _ (to_uint_nonnil (N.pos p))) as (c & s & -> & _). simpl. lia.
Qed.

Lemma fnv_sum32a_range s h : (0 <= h < 2 ^ 32)%Z -> (0 <= fnv_sum32a h s < 2 ^ 32)%Z.
Proof.
  revert h. induction s as [|c s IH]; simpl; intros h Hh; [done|].
  apply IH. by apply wrapu_range.
Qed.

Lemma fnv32a_range s : (0 <= fnv32a s < 2 ^ 32)%Z.
Proof. by apply fnv_sum32a_range. Qed.

#[export] Hint Resolve HasPrefix_app Itoa_no_slash Itoa_nonempty fnv32a_range : goverse.
