(* ===== verification/GoFloat.v ===== *)
(** * IEEE 754 binary64 arithmetic

    Go's [float64] through the executable specification of the Standard Library ([SpecFloat],
    precision 53, maximal exponent 1024, rounding to nearest even).  Used by the rebalancing
    threshold, the retry backoff and the averages of the inspector. *)

From S2P Require Import Prelude.
From Stdlib Require Import SpecFloat.

Module Float64.

Abbreviation float64 := spec_float.

Definition prec : Z := 53.
Definition emax : Z := 1024.

(** [float64(z)] for an integer [z] *)
Definition of_int (z : Z) : float64 := binary_normalize prec emax z 0 false.

Definition fmul : float64 -> float64 -> float64 := SFmul prec emax.
Definition fdiv : float64 -> float64 -> float64 := SFdiv prec emax.

(** [x <= y] (false when either is a NaN) *)
Definition fleb (x y : float64) : bool :=
  match SFcompare x y with Some Lt | Some Eq => true | _ => false end.

(** The constant [0.2] *)
Definition f0_2 : float64 := S754_finite false 7205759403792794 (-55).
Definition f0 : float64 := S754_zero false.

(** Conversion to an integer type truncates toward zero; on a value out of the range of [int64]
    (and on NaN) Go leaves the result to the implementation, here the amd64 value. *)
Definition to_int64 (x : float64) : Z :=
  match x with
  | S754_zero _ => 0
  | S754_finite s m e =>
      let v := (if (0 <=? e)%Z then Z.pos m * 2 ^ e else Z.pos m / 2 ^ (- e))%Z in
      let z := if s then (- v)%Z else v in
      if in_int64b z then z else (- 2 ^ 63)%Z
  | _ => (- 2 ^ 63)%Z
  end.

End Float64.

(** The literal is the correctly rounded quotient of 1 by 5. *)
Example f0_2_is_one_fifth : Float64.f0_2 = Float64.fdiv (Float64.of_int 1) (Float64.of_int 5).
Proof. reflexivity. Qed.
