(* ===== verification/ObjectId.v ===== *)
(** * Object identifiers: sharding, parsing, generation

    [Module Sharding] models cluster/sharding/sharding.go, [Module Parser] models
    util/objectid/parser.go, [Module UniqueIds] models util/uniqueid/uniqueid.go.  The theorems
    relate the three: every identifier the generators build parses to the routing format they
    promise, and the shard the parser reads is the shard the router uses. *)

From S2P Require Import Prelude GoStrings.

Module Sharding.

Definition NumShards : Z := 8192.

(** The [int(hashValue) % numShards] of the fall-through path: Go's remainder. *)
Definition hashShard (objectID : string) (numShards : Z) : Z :=
  Z.rem (fnv32a objectID) numShards.

(** [GetShardID] *)
Definition GetShardID (objectID : string) (numShards : Z) : Z :=
  if HasPrefix objectID "shard#" then
    let slashIdx := Index objectID "/" in
    if (6 <? slashIdx)%Z then
      match Atoi (slice objectID 6 slashIdx) with
      | Some shardID =>
          if ((0 <=? shardID) && (shardID <? numShards))%Z then shardID
          else hashShard objectID numShards
      | None => hashShard objectID numShards
      end
    else hashShard objectID numShards
  else hashShard objectID numShards.

End Sharding.
Import Sharding.

Module Parser.

Inductive ObjectIDType : Type := TypeRegular | TypeFixedShard | TypeFixedNode.

#[global] Instance ObjectIDType_eq_dec : EqDecision ObjectIDType.
Proof. solve_decision. Defined.

Record ParsedObjectID : Type := mkParsed {
  Type_ : ObjectIDType;
  FullID : string;
  ShardID : Z;
  NodeAddress : string;
  ObjectPart : string
}.

#[global] Instance ParsedObjectID_eq_dec : EqDecision ParsedObjectID.
Proof. solve_decision. Defined.

(** The errors of [ParseObjectID] and [ValidateObjectID], one per [fmt.Errorf]. *)
Inductive parse_error : Type :=
| ErrEmptyID
| ErrMalformedSeparator (id : string)
| ErrShardNeedsNumber (id : string)
| ErrShardInvalidNumber (id got : string)
| ErrEmptyNodeAddress (id : string)
| ErrShardPrefixNeedsSlash (id : string)
| ErrShardOutOfRange (id : string) (shardID numShards : Z).

#[global] Instance parse_error_eq_dec : EqDecision parse_error.
Proof. solve_decision. Defined.

(** [ParseObjectID] *)
Definition ParseObjectID (objectID : string) : result parse_error ParsedObjectID :=
  if bool_decide (objectID = "") then Err ErrEmptyID
  else if Contains objectID "/" then
    match SplitN2 objectID "/" with
    | prefix :: objectPart :: _ =>
        if HasPrefix prefix "shard#" then
          if (len prefix <=? len "shard#")%Z then Err (ErrShardNeedsNumber objectID)
          else
            let shardIDStr := slice prefix (len "shard#") (len prefix) in
            match Atoi shardIDStr with
            | None => Err (ErrShardInvalidNumber objectID shardIDStr)
            | Some shardID => Ok (mkParsed TypeFixedShard objectID shardID "" objectPart)
            end
        else if bool_decide (prefix = "") then Err (ErrEmptyNodeAddress objectID)
        else Ok (mkParsed TypeFixedNode objectID 0 prefix objectPart)
    | _ => Err (ErrMalformedSeparator objectID)
    end
  else if HasPrefix objectID "shard#" then Err (ErrShardPrefixNeedsSlash objectID)
  else Ok (mkParsed TypeRegular objectID 0 "" objectID).

(** [ValidateObjectID] *)
Definition ValidateObjectID (objectID : string) (numShards : Z)
    : result parse_error ParsedObjectID :=
  match ParseObjectID objectID with
  | Err e => Err e
  | Ok parsed =>
      if bool_decide (Type_ parsed = TypeFixedShard) &&
         ((ShardID parsed <? 0) || (numShards <=? ShardID parsed))%Z
      then Err (ErrShardOutOfRange objectID (ShardID parsed) numShards)
      else Ok parsed
  end.

Definition IsFixedShardFormat (p : ParsedObjectID) : bool := bool_decide (Type_ p = TypeFixedShard).
Definition IsFixedNodeFormat (p : ParsedObjectID) : bool := bool_decide (Type_ p = TypeFixedNode).
Definition IsRegularFormat (p : ParsedObjectID) : bool := bool_decide (Type_ p = TypeRegular).

End Parser.
Import Parser.

Module UniqueIds.

(** The [base64.URLEncoding] alphabet of RFC 4648. *)
Definition base64url : string :=
  "ABCDEFGHIJKLMNOPQRSTUVWXYZabcdefghijklmnopqrstuvwxyz0123456789-_".

Definition b64char (n : Z) : ascii :=
  default "A"%char (String.get (Z.to_nat n) base64url).

(** What a [base64.NewEncoder] stream has written before it is closed: the full three-byte groups;
    the trailing one or two bytes stay in its buffer. *)
Fixpoint b64stream (bs : list Z) : string :=
  match bs with
  | a :: b :: c :: rest =>
      String (b64char (Z.shiftr a 2))
     (String (b64char (Z.lor (Z.shiftl (Z.land a 3) 4) (Z.shiftr b 4)))
     (String (b64char (Z.lor (Z.shiftl (Z.land b 15) 2) (Z.shiftr c 6)))
     (String (b64char (Z.land c 63)) (b64stream rest))))
  | _ => EmptyString
  end.

(** [binary.BigEndian.PutUint64] *)
Definition be64 (v : Z) : list Z :=
  (fun k => Z.land (Z.shiftr v k) 255) <$> [56; 48; 40; 32; 24; 16; 8; 0]%Z.

(** [UniqueId]: [ts] is [time.Now().UnixMicro()], [rnd] the eight bytes of [rand.Read].  The
    encoder is closed by a deferred call, after the returned string has been read. *)
Definition UniqueId (ts : Z) (rnd : list Z) : string :=
  b64stream (be64 (uint64 ts) ++ take 8 rnd).

Definition CreateObjectID (ts : Z) (rnd : list Z) : string := UniqueId ts rnd.

Inductive panic : Type :=
| PanicShardOutOfRange (shardID numShards : Z)
| PanicEmptyNodeAddress.

(** [CreateObjectIDOnShard]: a panic is an [Err]. *)
Definition CreateObjectIDOnShard (ts : Z) (rnd : list Z) (shardID numShards : Z)
    : result panic string :=
  if ((shardID <? 0) || (numShards <=? shardID))%Z
  then Err (PanicShardOutOfRange shardID numShards)
  else Ok ("shard#" +:+ Itoa shardID +:+ "/" +:+ UniqueId ts rnd).

(** [CreateObjectIDOnNode] *)
Definition CreateObjectIDOnNode (ts : Z) (rnd : list Z) (nodeAddress : string)
    : result panic string :=
  if bool_decide (nodeAddress = "") then Err PanicEmptyNodeAddress
  else Ok (nodeAddress +:+ "/" +:+ UniqueId ts rnd).

End UniqueIds.
Import UniqueIds.

(** ** Lemmas *)

Lemma hashShard_range id n : (0 < n)%Z -> (0 <= hashShard id n < n)%Z.
Proof.
  intros Hn. unfold hashShard. pose proof (fnv32a_range id). apply Z.rem_bound_pos; lia.
Qed.

Lemma GetShardID_range id n : (0 < n)%Z -> (0 <= GetShardID id n < n)%Z.
Proof.
  intros Hn. pose proof (hashShard_range id n Hn) as Hh. unfold GetShardID.
  repeat case_match; breflect; lia.
Qed.

(** The slice between the fixed-shard prefix and the first slash. *)
Lemma shard_slice a b :
  slice (("shard#" +:+ a) +:+ String "/" b) 6 (len ("shard#" +:+ a)) = a.
Proof. rewrite app_assoc_string. apply (slice_app "shard#"). Qed.

Lemma slice_suffix p a : slice (p +:+ a) (len p) (len (p +:+ a)) = a.
Proof. pose proof (slice_app p a "") as H. by rewrite app_nil_r_string in H. Qed.

Lemma len_app a b : len (a +:+ b) = (len a + len b)%Z.
Proof. unfold len. rewrite length_app_string. lia. Qed.

Lemma len_nonneg a : (0 <= len a)%Z.
Proof. unfold len. lia. Qed.

(** What [GetShardID] computes on an identifier with a fixed-shard prefix before the slash. *)
Lemma GetShardID_fixed a b n :
  Contains a "/" = false ->
  GetShardID (("shard#" +:+ a) +:+ String "/" b) n =
    match Atoi a with
    | Some s => if ((0 <=? s) && (s <? n))%Z then s
                else hashShard (("shard#" +:+ a) +:+ String "/" b) n
    | None => hashShard (("shard#" +:+ a) +:+ String "/" b) n
    end.
Proof.
  intros Ha. unfold GetShardID.
  assert (Cut "/" (("shard#" +:+ a) +:+ String "/" b) = Some ("shard#" +:+ a, b)) as HC.
  { apply Cut_app. by rewrite Contains_app. }
  rewrite (Cut_Index _ _ _ _ HC), shard_slice.
  replace (HasPrefix _ _) with true by (rewrite app_assoc_string; symmetry; apply HasPrefix_app).
  rewrite len_app. destruct (6 <? _)%Z eqn:E; [done|].
  assert (a = "") as ->; [|done].
  destruct a; [done|]. unfold len in E. cbn [String.length] in E. apply Z.ltb_ge in E. lia.
Qed.

(** [ParseObjectID] on an identifier with a slash. *)
Lemma ParseObjectID_slash p o :
  Contains p "/" = false ->
  ParseObjectID (p +:+ String "/" o) =
    if HasPrefix p "shard#" then
      if (len p <=? 6)%Z then Err (ErrShardNeedsNumber (p +:+ String "/" o))
      else match Atoi (slice p 6 (len p)) with
           | None => Err (ErrShardInvalidNumber (p +:+ String "/" o) (slice p 6 (len p)))
           | Some s => Ok (mkParsed TypeFixedShard (p +:+ String "/" o) s "" o)
           end
    else if bool_decide (p = "") then Err (ErrEmptyNodeAddress (p +:+ String "/" o))
    else Ok (mkParsed TypeFixedNode (p +:+ String "/" o) 0 p o).
Proof.
  intros Hp. unfold ParseObjectID, SplitN2. rewrite Cut_app by done.
  rewrite bool_decide_false by (by destruct p).
  rewrite Contains_app, Contains_cons. by rewrite orb_true_r.
Qed.

(** An identifier with a slash, cut at the first one. *)
Lemma Contains_cut s c : Contains s c = true -> exists a b,
  s = a +:+ String c b /\ Contains a c = false.
Proof.
  intros H. destruct (Cut c s) as [[a b]|] eqn:E; [apply Cut_Some in E; eauto|].
  apply Cut_None in E. congruence.
Qed.

Lemma b64char_ok n : b64char n <> "/"%char /\ b64char n <> "#"%char.
Proof.
  assert (forall s k c, String.get k s = Some c -> Contains s c = true) as Hget.
  { induction s as [|d s IH]; intros k c; [done|]. rewrite Contains_cons.
    destruct k; simpl; [intros [= ->]; by rewrite bool_decide_true|].
    intros Hk%IH. rewrite Hk. apply orb_true_r. }
  unfold b64char. destruct (String.get _ _) eqn:E; [|done]. apply Hget in E. simpl.
  split; intros ->; done.
Qed.

Lemma list_ind3 {A} (P : list A -> Prop) :
  P [] -> (forall a, P [a]) -> (forall a b, P [a; b]) ->
  (forall a b c l, P l -> P (a :: b :: c :: l)) -> forall l, P l.
Proof.
  intros H0 H1 H2 H3. assert (forall l, P l /\ (forall a, P (a :: l)) /\ (forall a b, P (a :: b :: l))) as H.
  { induction l as [|x l (IH1 & IH2 & IH3)]; [done|]. split_and!; auto. }
  apply H.
Qed.

Lemma b64stream_ok bs c : c = "/"%char \/ c = "#"%char -> Contains (b64stream bs) c = false.
Proof.
  intros Hc. induction bs as [| | |x y z l IH] using list_ind3; [done..|].
  cbn [b64stream]. rewrite !Contains_cons, IH, orb_false_r.
  by rewrite !bool_decide_false by (destruct Hc as [-> | ->]; apply b64char_ok).
Qed.

Lemma UniqueId_no_slash ts rnd : Contains (UniqueId ts rnd) "/" = false.
Proof. apply b64stream_ok. auto. Qed.
Lemma UniqueId_no_hash ts rnd : Contains (UniqueId ts rnd) "#" = false.
Proof. apply b64stream_ok. auto. Qed.

#[export] Hint Resolve hashShard_range UniqueId_no_slash UniqueId_no_hash : goverse.

(** A validated fixed-shard identifier: it has a slash, and both readings of its shard agree. *)
Lemma Validate_fixed_shard id n p :
  ValidateObjectID id n = Ok p -> IsFixedShardFormat p = true ->
  Contains id "/" = true /\ GetShardID id n = ShardID p /\ (0 <= ShardID p < n)%Z.
Proof.
  unfold ValidateObjectID, IsFixedShardFormat. intros HV HF. breflect.
  destruct (ParseObjectID id) as [q|] eqn:Hq; [|done].
  case_match eqn:Hr; [done|]. simplify_eq.
  rewrite bool_decide_true in Hr by done. simpl in Hr. apply orb_false_elim in Hr as [??]. breflect.
  destruct (Contains id "/") eqn:Hs.
  2:{ unfold ParseObjectID in Hq. rewrite Hs in Hq. repeat case_match; simplify_eq/=. }
  destruct (Contains_cut _ _ Hs) as (a & b & -> & Ha). rewrite ParseObjectID_slash in Hq by done.
  destruct (HasPrefix a "shard#") eqn:Hp; [|case_bool_decide; by simplify_eq/=].
  apply HasPrefix_true in Hp as [num ->].
  pose proof (slice_suffix "shard#" num) as Hsl. change (len "shard#") with 6%Z in Hsl.
  rewrite Hsl in Hq. destruct (_ <=? 6)%Z; [done|].
  destruct (Atoi num) as [s|] eqn:E; [|done].
  rewrite Contains_app in Ha. apply orb_false_elim in Ha as [_ Ha].
  rewrite GetShardID_fixed, E by done. simplify_eq/=. split_and!; [done| |lia..].
  replace ((0 <=? s) && (s <? n))%Z with true; [done|].
  symmetry. apply andb_true_iff. split; [apply Z.leb_le|apply Z.ltb_lt]; lia.
Qed.

(** ** Properties *)

(** For every identifier and every positive shard count, [GetShardID] returns a shard number in
    [0, numShards): a malformed or out-of-range fixed-shard prefix falls back to the hash, never to
    an out-of-range shard. *)
Theorem GetShardID_in_range id n : (0 < n)%Z -> (0 <= GetShardID id n < n)%Z.
Proof. apply GetShardID_range. Qed.

Lemma GetShardID_in_range_witness :
  (0 <= GetShardID "shard#99999999999999999999/x" 8192 < 8192)%Z.
Proof. apply GetShardID_in_range. reflexivity. Defined.

(** A successful parse decomposes the identifier without losing or inventing a byte: a regular
    identifier is its own object part and has no slash, a fixed-node identifier is node address,
    slash, object part, and a fixed-shard identifier is ["shard#"], a numeral of its shard, slash,
    object part. *)
Theorem ParseObjectID_decomposes id p :
  ParseObjectID id = Ok p ->
  FullID p = id /\
  match Type_ p with
  | TypeRegular => ObjectPart p = id /\ Contains id "/" = false /\ HasPrefix id "shard#" = false
  | TypeFixedNode => id = NodeAddress p +:+ "/" +:+ ObjectPart p /\ NodeAddress p <> ""
      /\ Contains (NodeAddress p) "/" = false /\ HasPrefix (NodeAddress p) "shard#" = false
  | TypeFixedShard => exists num, id = "shard#" +:+ num +:+ "/" +:+ ObjectPart p
      /\ Atoi num = Some (ShardID p)
  end.
Proof.
  destruct (Contains id "/") eqn:Hs.
  - destruct (Contains_cut _ _ Hs) as (a & b & -> & Ha). rewrite ParseObjectID_slash by done.
    destruct (HasPrefix a "shard#") eqn:Hp.
    + apply HasPrefix_true in Hp as [num ->]. pose proof (slice_suffix "shard#" num) as Hsl.
      change (len "shard#") with 6%Z in Hsl. rewrite Hsl.
      destruct (_ <=? _)%Z; [done|]. destruct (Atoi num) eqn:E; [|done]. intros [= <-].
      split; [done|]. exists num. by rewrite app_assoc_string.
    + case_bool_decide; [done|]. by intros [= <-].
  - unfold ParseObjectID. rewrite Hs. case_bool_decide; [done|].
    destruct (HasPrefix id "shard#") eqn:Hp; [done|]. by intros [= <-].
Qed.

Lemma ParseObjectID_decomposes_witness :
  exists num, "shard#-3/a/b" = "shard#" +:+ num +:+ "/" +:+ "a/b" /\ Atoi num = Some (-3)%Z.
Proof.
  exact (proj2 (ParseObjectID_decomposes "shard#-3/a/b"
    (mkParsed TypeFixedShard "shard#-3/a/b" (-3) "" "a/b") eq_refl)).
Defined.

(** The two readings of a fixed-shard identifier agree: whenever [ValidateObjectID] accepts an
    identifier as fixed-shard, the router's [GetShardID] sends it to the shard the validator
    reports, so a validated identifier is never re-routed by its hash. *)
Theorem Validate_GetShardID_agree id n p :
  ValidateObjectID id n = Ok p -> IsFixedShardFormat p = true ->
  GetShardID id n = ShardID p /\ (0 <= ShardID p < n)%Z.
Proof. intros HV HF. by destruct (Validate_fixed_shard id n p HV HF) as (_ & ? & ?). Qed.

Lemma Validate_GetShardID_agree_witness :
  GetShardID "shard#+7/x" 64 = 7%Z /\ (0 <= 7 < 64)%Z.
Proof.
  exact (Validate_GetShardID_agree "shard#+7/x" 64
    (mkParsed TypeFixedShard "shard#+7/x" 7 "" "x") eq_refl eq_refl).
Defined.

(** Identifiers made by [CreateObjectIDOnShard] round-trip: they validate as fixed-shard
    identifiers of the requested shard with the unique part as object part, and are routed to that
    shard.  The call panics exactly when the shard is out of range. *)
Theorem CreateObjectIDOnShard_roundtrip ts rnd s n :
  (n <= 2 ^ 63)%Z ->
  match CreateObjectIDOnShard ts rnd s n with
  | Ok id => (0 <= s < n)%Z /\ GetShardID id n = s /\
      ValidateObjectID id n = Ok (mkParsed TypeFixedShard id s "" (UniqueId ts rnd))
  | Err _ => ~ (0 <= s < n)%Z
  end.
Proof.
  intros Hn. unfold CreateObjectIDOnShard.
  destruct (s <? 0)%Z eqn:H1; cbn [orb]; [breflect; lia|]. destruct (n <=? s)%Z eqn:H2; [breflect; lia|]. breflect.
  assert (0 <= s < n)%Z as Hs by lia. split; [done|]. apply and_comm.
  assert (Atoi (Itoa s) = Some s) as HA by (apply Atoi_Itoa; unfold in_int64; lia).
  rewrite <-app_assoc_string. change ("/" +:+ UniqueId ts rnd) with (String "/" (UniqueId ts rnd)).
  split.
  - unfold ValidateObjectID. rewrite ParseObjectID_slash by (rewrite Contains_app, Itoa_no_slash; done).
    rewrite HasPrefix_app. pose proof (slice_suffix "shard#" (Itoa s)) as Hsl.
    change (len "shard#") with 6%Z in Hsl. rewrite Hsl, HA.
    pose proof (Itoa_nonempty s). rewrite len_app. change (len "shard#") with 6%Z.
    destruct (_ <=? 6)%Z eqn:E; [apply Z.leb_le in E; lia|]. simpl.
    destruct (s <? 0)%Z eqn:?, (n <=? s)%Z eqn:?; breflect; try lia. done.
  - rewrite GetShardID_fixed, HA by apply Itoa_no_slash.
    destruct (0 <=? s)%Z eqn:?, (s <? n)%Z eqn:?; breflect; try lia. done.
Qed.

Lemma CreateObjectIDOnShard_roundtrip_witness :
  exists id, CreateObjectIDOnShard 1700000000000000 [1;2;3;4;5;6;7;8]%Z 5 8192 = Ok id /\ GetShardID id 8192 = 5%Z.
Proof.
  pose proof (CreateObjectIDOnShard_roundtrip 1700000000000000 [1;2;3;4;5;6;7;8]%Z 5 8192 ltac:(lia)) as H.
  eexists. split; [reflexivity|exact (proj1 (proj2 H))].
Defined.

(** Identifiers made by [CreateObjectIDOnNode] and [CreateObjectID] are routed as promised: for
    a node address that is non-empty, has no slash and does not start with ["shard#"], the first
    parses as fixed-node with that address; a bare unique identifier parses as regular whenever it
    is non-empty, because the base64-URL alphabet has neither the slash nor the hash sign. *)
Theorem CreateObjectIDOnNode_roundtrip ts rnd addr :
  addr <> "" -> Contains addr "/" = false -> HasPrefix addr "shard#" = false ->
  (exists id, CreateObjectIDOnNode ts rnd addr = Ok id /\
     ParseObjectID id = Ok (mkParsed TypeFixedNode id 0 addr (UniqueId ts rnd))) /\
  ParseObjectID (CreateObjectID ts rnd) =
    Ok (mkParsed TypeRegular (CreateObjectID ts rnd) 0 "" (CreateObjectID ts rnd)).
Proof.
  intros Hne Hsl Hpre. split.
  - unfold CreateObjectIDOnNode. rewrite bool_decide_false by done. eexists. split; [done|].
    change ("/" +:+ UniqueId ts rnd) with (String "/" (UniqueId ts rnd)).
    rewrite ParseObjectID_slash, Hpre by done. by rewrite bool_decide_false.
  - unfold CreateObjectID, ParseObjectID. rewrite UniqueId_no_slash.
    rewrite bool_decide_false by done.
    destruct (HasPrefix (UniqueId _ _) _) eqn:E; [|done]. apply HasPrefix_true in E as [t Ht].
    pose proof (UniqueId_no_hash ts rnd) as Hh. rewrite Ht, Contains_app in Hh. done.
Qed.

Lemma CreateObjectIDOnNode_roundtrip_witness :
  (exists id, CreateObjectIDOnNode 7 [] "localhost:47000" = Ok id /\
     ParseObjectID id = Ok (mkParsed TypeFixedNode id 0 "localhost:47000" (UniqueId 7 []))) /\
  ParseObjectID (CreateObjectID 7 []) =
    Ok (mkParsed TypeRegular (CreateObjectID 7 []) 0 "" (CreateObjectID 7 [])).
Proof. apply CreateObjectIDOnNode_roundtrip; [discriminate|reflexivity|reflexivity]. Defined.

(** [UniqueId] returns twenty characters and none of them depends on the last random byte: the
    base64 stream encoder still buffers the sixteenth byte when the string is read, because its
    [Close] is deferred until after the return value is computed. *)
Theorem UniqueId_drops_last_byte ts r1 r2 r3 r4 r5 r6 r7 x y :
  UniqueId ts [r1; r2; r3; r4; r5; r6; r7; x] = UniqueId ts [r1; r2; r3; r4; r5; r6; r7; y] /\
  String.length (UniqueId ts [r1; r2; r3; r4; r5; r6; r7; x]) = 20%nat.
Proof. done. Qed.
