(* ===== verification/KeyLock.v ===== *)
(** * Per-key read/write locks (util/keylock/keylock.go)

    A [KeyLock] maps keys to reference-counted [RWMutex] entries created on demand and deleted with
    their last reference.  Each critical section of [kl.mu] is one atomic operation on the shared
    store; a call of [Lock] or [RLock] goes through three of them (register, acquire the entry's
    mutex, and, in the returned unlock function, release the mutex, then [release]).  The steps of
    concurrent calls interleave freely.  The entries live in a heap, because a deleted entry may
    still be referenced and a later call may create a second entry for the same key: that the two
    never coexist with a holder each is what the invariant shows. *)

From S2P Require Import Prelude GoStrings.

Module KeyLocks.

Inductive Mode : Type := Exclusive | Shared.

#[global] Instance Mode_eq_dec : EqDecision Mode.
Proof. solve_decision. Defined.

(** [sync.RWMutex]: the number of readers inside and whether a writer is inside.  That a waiting writer keeps new
    readers out removes schedules; the safety shown here holds without it.  Progress needs it: ShardLock.v, which
    is about progress, has the waiting writers and readers. *)
Record RWMutex : Type := mkRW { readers : Z; writer : bool }.

Record keyLockEntry : Type := mkEntry { mu : RWMutex; refCount : Z }.

(** The shared store: [kl.locks], whose values are pointers, and the heap of entries. *)
Record KeyLock : Type := mkKL {
  locks : gmap string nat;
  heap : gmap nat keyLockEntry;
  nextPtr : nat
}.

Definition NewKeyLock : KeyLock := mkKL ∅ ∅ 0.

Definition set_heap (kl : KeyLock) (p : nat) (e : keyLockEntry) : KeyLock :=
  mkKL (locks kl) (<[p := e]> (heap kl)) (nextPtr kl).

(** The critical section that opens [Lock] and [RLock]: find or create the entry, count the
    reference, return the pointer. *)
Definition enter (kl : KeyLock) (key : string) : KeyLock * nat :=
  match locks kl !! key with
  | Some p =>
      match heap kl !! p with
      | Some e => (set_heap kl p (mkEntry (mu e) (refCount e + 1)), p)
      | None => (kl, p)
      end
  | None =>
      let p := nextPtr kl in
      (mkKL (<[key := p]> (locks kl)) (<[p := mkEntry (mkRW 0 false) 1]> (heap kl)) (S p), p)
  end.

(** [entry.mu.Lock()] and [entry.mu.RLock()]: [None] while the call must wait. *)
Definition mutex_acquire (m : Mode) (rw : RWMutex) : option RWMutex :=
  match m with
  | Exclusive => if negb (writer rw) && (readers rw =? 0)%Z then Some (mkRW 0 true) else None
  | Shared => if writer rw then None else Some (mkRW (readers rw + 1) false)
  end.

(** [entry.mu.Unlock()] and [entry.mu.RUnlock()] *)
Definition mutex_release (m : Mode) (rw : RWMutex) : RWMutex :=
  match m with
  | Exclusive => mkRW (readers rw) false
  | Shared => mkRW (readers rw - 1) (writer rw)
  end.

(** [release]: looked up by key, not by the caller's pointer. *)
Definition release (kl : KeyLock) (key : string) : KeyLock :=
  match locks kl !! key with
  | None => kl
  | Some p =>
      match heap kl !! p with
      | None => kl
      | Some e =>
          let kl' := set_heap kl p (mkEntry (mu e) (refCount e - 1)) in
          if (refCount e - 1 =? 0)%Z
          then mkKL (delete key (locks kl')) (heap kl') (nextPtr kl') else kl'
      end
  end.

Definition Len (kl : KeyLock) : nat := size (locks kl).

(** ** Concurrent calls

    A call in progress remembers its key, its entry pointer and its mode, as the closures of the
    source do.  A finished call is removed. *)

Inductive Phase : Type := Waiting | Holding | Releasing.

#[global] Instance Phase_eq_dec : EqDecision Phase.
Proof. solve_decision. Defined.

Record Call : Type := mkCall { c_key : string; c_ptr : nat; c_mode : Mode; c_phase : Phase }.

Record World : Type := mkWorld { kl : KeyLock; calls : gmap nat Call }.

Definition set_phase (c : Call) (ph : Phase) : Call := mkCall (c_key c) (c_ptr c) (c_mode c) ph.

(** The atomic steps of [Lock]/[RLock] and of the unlock function they return. *)
Inductive step : World -> World -> Prop :=
| step_enter w i key m kl' p :
    calls w !! i = None ->
    enter (kl w) key = (kl', p) ->
    step w (mkWorld kl' (<[i := mkCall key p m Waiting]> (calls w)))
| step_acquire w i c e rw :
    calls w !! i = Some c -> c_phase c = Waiting ->
    heap (kl w) !! c_ptr c = Some e ->
    mutex_acquire (c_mode c) (mu e) = Some rw ->
    step w (mkWorld (set_heap (kl w) (c_ptr c) (mkEntry rw (refCount e)))
                    (<[i := set_phase c Holding]> (calls w)))
| step_unlock w i c e :
    calls w !! i = Some c -> c_phase c = Holding ->
    heap (kl w) !! c_ptr c = Some e ->
    step w (mkWorld (set_heap (kl w) (c_ptr c) (mkEntry (mutex_release (c_mode c) (mu e)) (refCount e)))
                    (<[i := set_phase c Releasing]> (calls w)))
| step_release w i c :
    calls w !! i = Some c -> c_phase c = Releasing ->
    step w (mkWorld (release (kl w) (c_key c)) (delete i (calls w))).

Definition initial : World := mkWorld NewKeyLock ∅.
Definition reachable (w : World) : Prop := rtc step initial w.

(** ** The invariant *)

Definition refs (p : nat) (c : Call) : bool := bool_decide (c_ptr c = p).
Definition holds (p : nat) (m : Mode) (c : Call) : bool :=
  bool_decide (c_ptr c = p) && bool_decide (c_mode c = m) && bool_decide (c_phase c = Holding).

(** What the entry behind pointer [p] must say, given the calls in progress. *)
Record entry_ok (cs : gmap nat Call) (p : nat) (e : keyLockEntry) : Prop := {
  eo_refs : refCount e = Z.of_nat (mcount (refs p) cs);
  eo_readers : readers (mu e) = Z.of_nat (mcount (holds p Shared) cs);
  eo_writers : Z.of_nat (mcount (holds p Exclusive) cs) = (if writer (mu e) then 1 else 0)%Z;
  eo_excl : writer (mu e) = true -> mcount (holds p Shared) cs = 0%nat
}.

Record inv (w : World) : Prop := {
  inv_call : forall i c, calls w !! i = Some c -> locks (kl w) !! c_key c = Some (c_ptr c);
  inv_entry : forall k p, locks (kl w) !! k = Some p ->
    exists e, heap (kl w) !! p = Some e /\ entry_ok (calls w) p e /\ (0 < refCount e)%Z;
  inv_inj : forall k1 k2 p, locks (kl w) !! k1 = Some p -> locks (kl w) !! k2 = Some p -> k1 = k2;
  inv_fresh : forall k p, locks (kl w) !! k = Some p -> (p < nextPtr (kl w))%nat
}.

End KeyLocks.
Import KeyLocks.

(** ** Preservation *)

Lemma inv_initial : inv initial.
Proof. by split; intros *; simpl; rewrite lookup_empty. Qed.

(** Counts seen through one pointer do not notice calls on another. *)
Lemma refs_other p q c : c_ptr c = q -> p <> q -> refs p c = false.
Proof. intros <- Hne. apply bool_decide_eq_false. congruence. Qed.

Lemma holds_other p q m c : c_ptr c = q -> p <> q -> holds p m c = false.
Proof. intros <- Hne. unfold holds. rewrite bool_decide_false by congruence. done. Qed.

Lemma entry_ok_insert_other cs p q e i c :
  c_ptr c = q -> p <> q -> (forall c', cs !! i = Some c' -> c_ptr c' = q) ->
  entry_ok cs p e -> entry_ok (<[i := c]> cs) p e.
Proof.
  intros Hc Hpq Hold [H1 H2 H3 H4].
  assert (forall P, (forall c', c_ptr c' = q -> P c' = false) ->
    mcount P (<[i := c]> cs) = mcount P cs) as HP.
  { intros P HP. destruct (cs !! i) as [c'|] eqn:E.
    - pose proof (mcount_insert_old P cs i c' c E) as Hm.
      rewrite (HP c Hc), (HP c' (Hold c' eq_refl)) in Hm. lia.
    - rewrite mcount_insert_new by done. by rewrite (HP c Hc). }
  split; rewrite !HP; eauto using refs_other, holds_other.
Qed.

Lemma entry_ok_delete_other cs p q e i c :
  cs !! i = Some c -> c_ptr c = q -> p <> q -> entry_ok cs p e -> entry_ok (delete i cs) p e.
Proof.
  intros Hi Hc Hpq [H1 H2 H3 H4].
  assert (forall P, P c = false -> mcount P (delete i cs) = mcount P cs) as HP.
  { intros P HPc. rewrite (mcount_delete P cs i c Hi), HPc. done. }
  split; rewrite !HP; eauto using refs_other, holds_other.
Qed.

Lemma refs_self c : refs (c_ptr c) c = true.
Proof. by apply bool_decide_eq_true. Qed.

Lemma holds_phase p m c : c_phase c <> Holding -> holds p m c = false.
Proof. intros H. unfold holds. by rewrite (bool_decide_false _ H), andb_false_r. Qed.

Lemma holds_self c m :
  c_phase c = Holding -> holds (c_ptr c) m c = bool_decide (c_mode c = m).
Proof. intros H. unfold holds. by rewrite H, !bool_decide_true, andb_true_r by done. Qed.

(** Registering one more waiting call on an existing entry. *)
Lemma entry_ok_enter cs e i c :
  cs !! i = None -> c_phase c = Waiting -> entry_ok cs (c_ptr c) e ->
  entry_ok (<[i := c]> cs) (c_ptr c) (mkEntry (mu e) (refCount e + 1)).
Proof.
  intros Hi Hph [H1 H2 H3 H4]. split; simpl; rewrite !mcount_insert_new by done;
    rewrite ?refs_self, ?holds_phase by congruence; simpl; auto; lia.
Qed.

(** The calls registered with a pointer below the allocation bound leave fresh counts at zero. *)
Lemma inv_ptr_bound w i c : inv w -> calls w !! i = Some c -> (c_ptr c < nextPtr (kl w))%nat.
Proof. intros Hw Hi. eapply inv_fresh, inv_call; eauto. Qed.

Lemma entry_ok_fresh w i c :
  inv w -> calls w !! i = None -> c_ptr c = nextPtr (kl w) -> c_phase c = Waiting ->
  entry_ok (<[i := c]> (calls w)) (nextPtr (kl w)) (mkEntry (mkRW 0 false) 1).
Proof.
  intros Hw Hi Hp Hph.
  assert (forall j c', calls w !! j = Some c' -> c_ptr c' <> nextPtr (kl w)) as Hne.
  { intros j c' Hj Heq. pose proof (inv_ptr_bound _ _ _ Hw Hj). lia. }
  assert (mcount (refs (nextPtr (kl w))) (calls w) = 0%nat) as Hr.
  { apply mcount_zero. intros j c' Hj. eapply refs_other; [done|]. by apply not_eq_sym, (Hne j). }
  assert (forall m, mcount (holds (nextPtr (kl w)) m) (calls w) = 0%nat) as Hh.
  { intros m. apply mcount_zero. intros j c' Hj. eapply holds_other; [done|].
    by apply not_eq_sym, (Hne j). }
  rewrite <-Hp in *. split; simpl; rewrite !mcount_insert_new by done;
    rewrite ?refs_self, ?holds_phase, ?Hr, ?Hh by congruence; done.
Qed.

Lemma inv_step_enter w i key m kl' p :
  inv w -> calls w !! i = None -> enter (kl w) key = (kl', p) ->
  inv (mkWorld kl' (<[i := mkCall key p m Waiting]> (calls w))).
Proof.
  intros Hw Hi. unfold enter. destruct (locks (kl w) !! key) as [q|] eqn:Hk.
  - destruct (inv_entry w Hw key q Hk) as (e & He & Hok & Hpos). rewrite He. intros [= <- <-].
    split; simpl.
    + intros j c. rewrite lookup_insert. case_decide; [by intros [= <-]|apply Hw].
    + intros k p' Hp'. destruct (decide (p' = q)) as [->|Hne].
      * eexists. rewrite lookup_insert_eq. split; [done|]. split; [|simpl; lia].
        by apply (entry_ok_enter _ e i (mkCall key q m Waiting)).
      * destruct (inv_entry w Hw k p' Hp') as (e' & He' & Hok' & ?). exists e'.
        rewrite lookup_insert_ne by done. split_and!; [done| |done].
        eapply (entry_ok_insert_other _ _ q); [done..| |done]. congruence.
    + apply Hw.
    + apply Hw.
  - intros [= <- <-]. split; simpl.
    + intros j c. rewrite lookup_insert. case_decide; [intros [= <-]; apply lookup_insert_eq|].
      intros Hj. pose proof (inv_call w Hw j c Hj). rewrite lookup_insert_ne; congruence.
    + intros k p' Hp'. rewrite lookup_insert in Hp'. case_decide as Hd.
      * simplify_eq. eexists. rewrite lookup_insert_eq. split; [done|].
        split; [|simpl; lia]. by apply (entry_ok_fresh w).
      * pose proof (inv_fresh w Hw k p' Hp').
        destruct (inv_entry w Hw k p' Hp') as (e' & He' & Hok' & ?). exists e'.
        rewrite lookup_insert_ne by lia. split_and!; [done| |done].
        eapply (entry_ok_insert_other _ _ (nextPtr (kl w))); [done|lia| |done]. congruence.
    + intros k1 k2 p' H1 H2. rewrite lookup_insert in H1, H2.
      repeat case_decide; simplify_eq; try done;
        try match goal with H : _ = Some (nextPtr _) |- _ => apply (inv_fresh w Hw) in H; lia end.
      by eapply (inv_inj w Hw).
    + intros k p' Hp'. rewrite lookup_insert in Hp'. case_decide; simplify_eq; [lia|].
      apply (inv_fresh w Hw) in Hp'. lia.
Qed.

(** The entry's mutex changes hands: a waiting call becomes a holder. *)
Lemma entry_ok_acquire cs e i c rw :
  cs !! i = Some c -> c_phase c = Waiting -> mutex_acquire (c_mode c) (mu e) = Some rw ->
  entry_ok cs (c_ptr c) e ->
  entry_ok (<[i := set_phase c Holding]> cs) (c_ptr c) (mkEntry rw (refCount e)).
Proof.
  intros Hi Hph Hacq [H1 H2 H3 H4].
  pose proof (mcount_insert_old (refs (c_ptr c)) cs i c (set_phase c Holding) Hi) as Mr.
  pose proof (mcount_insert_old (holds (c_ptr c) Shared) cs i c (set_phase c Holding) Hi) as Ms.
  pose proof (mcount_insert_old (holds (c_ptr c) Exclusive) cs i c (set_phase c Holding) Hi) as Me.
  rewrite refs_self in Mr. rewrite (refs_self (set_phase c Holding) : refs (c_ptr c) _ = true) in Mr.
  assert (forall m, holds (c_ptr c) m (set_phase c Holding) = bool_decide (c_mode c = m)) as Hs
    by (intros m; by apply (holds_self (set_phase c Holding))).
  rewrite Hs, holds_phase in Ms by congruence. rewrite Hs, holds_phase in Me by congruence.
  simpl in *. split; simpl; [lia|..]; destruct (c_mode c), (mu e) as [r w]; simpl in *;
    destruct w; simpl in *; try done; repeat case_match; simplify_eq/=; breflect; intros; lia.
Qed.

Lemma entry_ok_unlock cs e i c :
  cs !! i = Some c -> c_phase c = Holding -> entry_ok cs (c_ptr c) e ->
  entry_ok (<[i := set_phase c Releasing]> cs) (c_ptr c)
    (mkEntry (mutex_release (c_mode c) (mu e)) (refCount e)).
Proof.
  intros Hi Hph [H1 H2 H3 H4].
  pose proof (mcount_insert_old (refs (c_ptr c)) cs i c (set_phase c Releasing) Hi) as Mr.
  pose proof (mcount_insert_old (holds (c_ptr c) Shared) cs i c (set_phase c Releasing) Hi) as Ms.
  pose proof (mcount_insert_old (holds (c_ptr c) Exclusive) cs i c (set_phase c Releasing) Hi) as Me.
  rewrite refs_self in Mr. rewrite (refs_self (set_phase c Releasing) : refs (c_ptr c) _ = true) in Mr.
  rewrite (holds_phase _ _ (set_phase c Releasing)), holds_self in Ms by done.
  rewrite (holds_phase _ _ (set_phase c Releasing)), holds_self in Me by done.
  simpl in *. split; simpl; [lia|..]; destruct (c_mode c), (mu e) as [r w]; simpl in *;
    destruct w; simpl in *; intros; try done; try lia.
Qed.

(** Steps that only touch one entry and the phase of one of its calls. *)
Lemma inv_set_entry w i c e ph :
  inv w -> calls w !! i = Some c -> (0 < refCount e)%Z ->
  entry_ok (<[i := set_phase c ph]> (calls w)) (c_ptr c) e ->
  inv (mkWorld (set_heap (kl w) (c_ptr c) e) (<[i := set_phase c ph]> (calls w))).
Proof.
  intros Hw Hi Hpos Hok. split; simpl.
  - intros j c'. rewrite lookup_insert. case_decide; [intros [= <-]; exact (inv_call w Hw i c Hi)|].
    apply (inv_call w Hw).
  - intros k p Hk. rewrite lookup_insert. case_decide as Hd.
    + subst. eauto.
    + destruct (inv_entry w Hw k p Hk) as (e' & He' & Hok' & ?). exists e'. split_and!; [done| |done].
      eapply (entry_ok_insert_other _ _ (c_ptr c)); [done|congruence| |done]. congruence.
  - apply Hw.
  - apply Hw.
Qed.

Lemma inv_step_release w i c :
  inv w -> calls w !! i = Some c -> c_phase c = Releasing ->
  inv (mkWorld (release (kl w) (c_key c)) (delete i (calls w))).
Proof.
  intros Hw Hi Hph. pose proof (inv_call w Hw i c Hi) as Hk.
  destruct (inv_entry w Hw _ _ Hk) as (e & He & [H1 H2 H3 H4] & Hpos).
  unfold release. rewrite Hk, He. simpl.
  assert (entry_ok (delete i (calls w)) (c_ptr c) (mkEntry (mu e) (refCount e - 1))) as Hok.
  { pose proof (mcount_delete (refs (c_ptr c)) _ i c Hi) as Mr. rewrite refs_self in Mr.
    assert (forall m, mcount (holds (c_ptr c) m) (delete i (calls w)) =
                      mcount (holds (c_ptr c) m) (calls w)) as Mh.
    { intros m. rewrite (mcount_delete _ _ i c Hi), holds_phase by congruence. done. }
    split; simpl; rewrite ?Mh; auto. lia. }
  assert (forall k p, p <> c_ptr c -> locks (kl w) !! k = Some p -> exists e',
    <[c_ptr c := mkEntry (mu e) (refCount e - 1)]> (heap (kl w)) !! p = Some e' /\
    entry_ok (delete i (calls w)) p e' /\ (0 < refCount e')%Z) as Hother.
  { intros k p Hne Hp. destruct (inv_entry w Hw k p Hp) as (e' & He' & Hok' & ?). exists e'.
    rewrite lookup_insert_ne by done. split_and!; [done| |done].
    by eapply (entry_ok_delete_other _ _ (c_ptr c)). }
  destruct (_ =? 0)%Z eqn:Hz; breflect; split; simpl.
  - intros j c' Hj. apply lookup_delete_Some in Hj as [Hne Hj].
    pose proof (inv_call w Hw j c' Hj) as Hk'.
    rewrite lookup_delete_ne; [done|]. intros Heq.
    pose proof (mcount_two (refs (c_ptr c)) _ i j c c' Hne Hi Hj (refs_self c)) as Ht.
    rewrite Heq, Hk' in Hk. injection Hk as Hp. rewrite <-Hp in Ht. specialize (Ht (refs_self c')).
    rewrite Hp in Ht. lia.
  - intros k p Hp. apply lookup_delete_Some in Hp as [Hne Hp]. apply (Hother k p); [|done].
    intros ->. by apply Hne, (inv_inj w Hw _ _ _ Hk).
  - intros k1 k2 p Hk1 Hk2. apply lookup_delete_Some in Hk1 as [_ Hk1], Hk2 as [_ Hk2].
    by eapply (inv_inj w Hw).
  - intros k p Hp. apply lookup_delete_Some in Hp as [_ Hp]. by eapply (inv_fresh w Hw).
  - intros j c' Hj. apply lookup_delete_Some in Hj as [_ Hj]. by eapply (inv_call w Hw).
  - intros k p Hp. destruct (decide (p = c_ptr c)) as [->|Hne]; [|by apply (Hother k)].
    eexists. rewrite lookup_insert_eq. split_and!; [done|done|simpl; lia].
  - apply Hw.
  - apply Hw.
Qed.

Lemma inv_step w w' : inv w -> step w w' -> inv w'.
Proof.
  intros Hw Hs. destruct Hs as [w i key m kl' p Hi He|w i c e rw Hi Hph He Hacq|w i c e Hi Hph He|].
  - by eapply inv_step_enter.
  - destruct (inv_entry w Hw _ _ (inv_call w Hw i c Hi)) as (e' & He' & Hok & Hpos). simplify_eq.
    eapply inv_set_entry; eauto using entry_ok_acquire.
  - destruct (inv_entry w Hw _ _ (inv_call w Hw i c Hi)) as (e' & He' & Hok & Hpos). simplify_eq.
    eapply inv_set_entry; eauto using entry_ok_unlock.
  - by apply inv_step_release.
Qed.

Lemma inv_reachable w : reachable w -> inv w.
Proof.
  apply (rtc_ind_r inv); [apply inv_initial|]. intros w1 w2 _ Hs Hw1. by eapply inv_step.
Qed.

#[export] Hint Resolve inv_reachable inv_step inv_initial : goverse.

(** ** The abstract lock table

    What [KeyLock] promises: one read/write lock per key.  The abstract state is the set of locks
    held; acquiring one requires that nobody holds a conflicting lock on the same key. *)

Module LockSpec.

Abbreviation held := (gmap nat (string * Mode)).

Definition compatible (h : held) (k : string) (m : Mode) : Prop :=
  forall j m', h !! j = Some (k, m') -> m = Shared /\ m' = Shared.

Inductive spec_step : held -> held -> Prop :=
| spec_acquire h i k m : h !! i = None -> compatible h k m -> spec_step h (<[i := (k, m)]> h)
| spec_release h i km : h !! i = Some km -> spec_step h (delete i h).

(** The locks held in a concrete world: the calls between their acquire and their unlock. *)
Definition held_call (c : Call) : option (string * Mode) :=
  if bool_decide (c_phase c = Holding) then Some (c_key c, c_mode c) else None.

Definition abs (w : World) : held := omap held_call (calls w).

End LockSpec.
Import LockSpec.

Lemma lookup_abs w i : abs w !! i = calls w !! i ≫= held_call.
Proof. unfold abs. apply lookup_omap. Qed.

Lemma abs_Some w i k m : abs w !! i = Some (k, m) <->
  exists c, calls w !! i = Some c /\ c_phase c = Holding /\ c_key c = k /\ c_mode c = m.
Proof.
  rewrite lookup_abs, bind_Some. unfold held_call. split.
  - intros (c & Hc & H). case_bool_decide; simplify_eq. eauto.
  - intros (c & Hc & Hp & <- & <-). exists c. by rewrite bool_decide_true.
Qed.

(** A holder on the entry of a key, seen in the entry's counters. *)
Lemma holder_counted w j c : calls w !! j = Some c -> c_phase c = Holding ->
  (0 < mcount (holds (c_ptr c) (c_mode c)) (calls w))%nat.
Proof.
  intros Hj Hp. eapply mcount_pos; [done|]. rewrite holds_self by done. by apply bool_decide_eq_true.
Qed.

(** A mutex that can be acquired has no conflicting holder on the call's key. *)
Lemma acquire_compatible w i c e rw :
  inv w -> calls w !! i = Some c -> heap (kl w) !! c_ptr c = Some e ->
  mutex_acquire (c_mode c) (mu e) = Some rw -> compatible (abs w) (c_key c) (c_mode c).
Proof.
  intros Hw Hi He Hacq j m' Hj. apply abs_Some in Hj as (d & Hd & Hph & Hkey & <-).
  pose proof (inv_call w Hw i c Hi) as Hc. pose proof (inv_call w Hw j d Hd) as Hc'.
  rewrite Hkey, Hc in Hc'. injection Hc' as Hp.
  destruct (inv_entry w Hw _ _ Hc) as (e' & He' & [H1 H2 H3 H4] & _).
  rewrite He in He'. injection He' as <-.
  pose proof (holder_counted w j d Hd Hph) as Hn. rewrite <-Hp in Hn.
  destruct (c_mode c), (c_mode d), (mu e) as [r wr]; simpl in *; try done;
    destruct wr; simpl in *; try done; try lia.
  all: destruct (_ =? 0)%Z eqn:E; [apply Z.eqb_eq in E; lia|done].
Qed.

(** ** Properties *)

(** C12: Mutual exclusion per key, in every reachable interleaving: two distinct calls that are both
    between acquire and unlock on the same key are both read locks, although entries are deleted and
    re-created while other calls still hold pointers to them. *)
Theorem KeyLock_mutual_exclusion w i j c d :
  reachable w -> i <> j -> calls w !! i = Some c -> calls w !! j = Some d ->
  c_key c = c_key d -> c_phase c = Holding -> c_phase d = Holding ->
  c_mode c = Shared /\ c_mode d = Shared.
Proof.
  intros Hw%inv_reachable Hij Hi Hj Hk Hpi Hpj.
  pose proof (inv_call w Hw i c Hi) as Hc. pose proof (inv_call w Hw j d Hj) as Hd.
  rewrite <-Hk, Hc in Hd. injection Hd as Hp.
  destruct (inv_entry w Hw _ _ Hc) as (e & He & [H1 H2 H3 H4] & _).
  pose proof (holder_counted w i c Hi Hpi) as Ni. pose proof (holder_counted w j d Hj Hpj) as Nj.
  rewrite <-Hp in Nj.
  destruct (c_mode c) eqn:Mc, (c_mode d) eqn:Md, (writer (mu e)); try lia; try done;
    try specialize (H4 eq_refl); try lia.
  pose proof (mcount_two (holds (c_ptr c) Exclusive) _ i j c d Hij Hi Hj) as Ht.
  rewrite holds_self, Mc in Ht by done. rewrite Hp, holds_self, Md in Ht by done.
  specialize (Ht eq_refl eq_refl). rewrite <-Hp in Ht. lia.
Qed.

(** Two readers of key ["a"], built step by step. *)
Definition two_readers : World :=
  mkWorld (mkKL {["a" := 0%nat]} {[0%nat := mkEntry (mkRW 2 false) 2]} 1)
    (<[1%nat := mkCall "a" 0 Shared Holding]> {[0%nat := mkCall "a" 0 Shared Holding]}).

Lemma two_readers_reachable : reachable two_readers.
Proof.
  eapply rtc_l; [eapply (step_enter _ 0 "a" Shared); reflexivity|].
  eapply rtc_l; [eapply (step_enter _ 1 "a" Shared); reflexivity|].
  eapply rtc_l; [eapply (step_acquire _ 0); reflexivity|].
  eapply rtc_l; [eapply (step_acquire _ 1); reflexivity|].
  vm_compute. apply rtc_refl.
Qed.

Lemma KeyLock_mutual_exclusion_witness : Shared = Shared /\ Shared = Shared.
Proof.
  exact (KeyLock_mutual_exclusion two_readers 0 1
    (mkCall "a" 0 Shared Holding) (mkCall "a" 0 Shared Holding)
    two_readers_reachable ltac:(discriminate) eq_refl eq_refl eq_refl eq_refl eq_refl).
Defined.

(** No leak and no premature removal: in every reachable state the keys tracked by the manager
    are exactly the keys of calls in progress, so [Len] is zero as soon as every unlock function has
    been called. *)
Theorem KeyLock_tracks_live_calls w :
  reachable w ->
  (forall k, is_Some (locks (kl w) !! k) <-> exists i c, calls w !! i = Some c /\ c_key c = k) /\
  (calls w = ∅ -> Len (kl w) = 0%nat).
Proof.
  intros Hw%inv_reachable.
  assert (forall k, is_Some (locks (kl w) !! k) -> exists i c, calls w !! i = Some c /\ c_key c = k) as HA.
  { intros k [p Hp]. destruct (inv_entry w Hw k p Hp) as (e & _ & [H1 _ _ _] & Hpos).
    destruct (mcount_pos_inv (refs p) (calls w)) as (i & c & Hi & Hr); [lia|].
    apply bool_decide_eq_true in Hr as <-. exists i, c. split; [done|].
    by eapply (inv_inj w Hw); [apply (inv_call w Hw i c Hi)|]. }
  split.
  - intros k. split; [apply HA|]. intros (i & c & Hi & <-). rewrite (inv_call w Hw i c Hi). eauto.
  - intros He. apply map_size_empty_iff, map_empty. intros k. apply eq_None_not_Some.
    intros (i & c & Hi & _)%HA. by rewrite He in Hi.
Qed.

Lemma KeyLock_tracks_live_calls_witness :
  is_Some (locks (kl two_readers) !! "a") <->
  exists i c, calls two_readers !! i = Some c /\ c_key c = "a".
Proof. exact (proj1 (KeyLock_tracks_live_calls two_readers two_readers_reachable) "a"). Defined.

(** C23: [KeyLock] implements the abstract table of one read/write lock per key: every reachable step
    either leaves the locks held unchanged, or acquires a lock compatible with all locks held on its
    key, or releases one. *)
Theorem KeyLock_refines_LockSpec w w' :
  reachable w -> step w w' -> abs w' = abs w \/ spec_step (abs w) (abs w').
Proof.
  intros Hw%inv_reachable Hs. destruct Hs as [w i key m kl' p Hi He|w i c e rw Hi Hph He Ha|w i c e Hi Hph He|w i c Hi Hph];
    unfold abs; simpl.
  - left. rewrite omap_insert. simpl. apply delete_id. by rewrite lookup_omap, Hi.
  - right. rewrite omap_insert. simpl. constructor.
    + rewrite lookup_omap, Hi. simpl. unfold held_call. by rewrite Hph.
    + by eapply acquire_compatible.
  - right. rewrite omap_insert. simpl. econstructor. apply abs_Some. eauto.
  - left. rewrite omap_delete. apply delete_id. rewrite lookup_omap, Hi. simpl.
    unfold held_call. by rewrite Hph.
Qed.

Lemma KeyLock_refines_LockSpec_witness :
  let w' := mkWorld (set_heap (kl two_readers) 0 (mkEntry (mkRW 1 false) 2))
    (<[0%nat := mkCall "a" 0 Shared Releasing]> (calls two_readers)) in
  abs w' = abs two_readers \/ spec_step (abs two_readers) (abs w').
Proof.
  intros w'. apply KeyLock_refines_LockSpec; [apply two_readers_reachable|].
  exact (step_unlock two_readers 0 (mkCall "a" 0 Shared Holding) _ eq_refl eq_refl eq_refl).
Defined.

(** No lost wake-up: in a reachable state a waiting call whose lock is compatible with the locks
    held on its key can take its acquire step at once; nothing else can block it. *)
Theorem KeyLock_waiting_can_acquire w i c :
  reachable w -> calls w !! i = Some c -> c_phase c = Waiting ->
  compatible (abs w) (c_key c) (c_mode c) ->
  exists w', step w w' /\ abs w' !! i = Some (c_key c, c_mode c).
Proof.
  intros Hw%inv_reachable Hi Hph Hcomp.
  pose proof (inv_call w Hw i c Hi) as Hc.
  destruct (inv_entry w Hw _ _ Hc) as (e & He & [H1 H2 H3 H4] & _).
  assert (forall m, m = Exclusive \/ c_mode c = Exclusive -> mcount (holds (c_ptr c) m) (calls w) = 0%nat) as Hz.
  { intros m Hm. apply mcount_zero. intros j d Hj. apply not_true_is_false. unfold holds.
    intros Hd. breflect. subst. destruct (Hcomp j (c_mode d)) as [??]; [|destruct Hm; congruence].
    apply abs_Some. exists d. split_and!; try done.
    eapply (inv_inj w Hw); [apply (inv_call w Hw j d Hj)|congruence]. }
  assert (exists rw, mutex_acquire (c_mode c) (mu e) = Some rw) as [rw Hrw].
  { rewrite Hz in H3 by auto. destruct (c_mode c) eqn:Hm, (mu e) as [r wr]; simpl in *;
      destruct wr; simpl in *; try lia; eauto.
    rewrite Hz in H2 by auto. rewrite H2. simpl. eauto. }
  eexists. split; [by eapply step_acquire|]. apply abs_Some. simpl.
  exists (set_phase c Holding). by rewrite lookup_insert_eq.
Qed.

Definition one_waiter : World :=
  mkWorld (mkKL {["a" := 0%nat]} {[0%nat := mkEntry (mkRW 0 false) 1]} 1)
    {[0%nat := mkCall "a" 0 Exclusive Waiting]}.

Lemma KeyLock_waiting_can_acquire_witness :
  exists w', step one_waiter w' /\ abs w' !! 0%nat = Some ("a", Exclusive).
Proof.
  apply (KeyLock_waiting_can_acquire one_waiter 0 (mkCall "a" 0 Exclusive Waiting));
    [|reflexivity|reflexivity|].
  - eapply rtc_l; [eapply (step_enter _ 0 "a" Exclusive); reflexivity|]. apply rtc_refl.
  - intros j m' H. change (abs one_waiter) with (∅ : held) in H. by rewrite lookup_empty in H.
Defined.
