(* ===== verification/ShardLock.v ===== *)
(** * Shard-level locks (cluster/shardlock/shardlock.go)

    A [ShardLock] is a [KeyLock] whose keys are shard numbers in decimal.  Each acquire function is
    the sequence of [KeyLock] requests it makes.  Concurrent callers run their sequences against one Go [RWMutex] per
    key, which is the table that [KeyLock] implements (KeyLock.v), here with what its safety does not depend on and
    progress does: a writer that waits keeps new readers out, and an unlocking writer lets in the readers that wait.
    A caller is inside one acquire function at a time. *)

From S2P Require Import Prelude GoStrings ObjectId KeyLock.
Import Sharding Parser KeyLocks.

Module ShardLocks.

Definition containsSlash (s : string) : bool := Contains s "/".

(** [shardLockKey] *)
Definition shardLockKey (shardID : Z) : string := Itoa shardID.

(** One request to the key lock: the key is [shardLockKey r_shard]. *)
Record Request : Type := mkReq { r_shard : Z; r_mode : Mode }.

(** [AcquireRead]: the requests made, in order; the no-op unlock of the early return is []. *)
Definition AcquireRead (numShards : Z) (objectID : string) : list Request :=
  if containsSlash objectID then []
  else [mkReq (GetShardID objectID numShards) Shared].

(** [AcquireWrite] *)
Definition AcquireWrite (shardID : Z) : list Request := [mkReq shardID Exclusive].

(** [AcquireWriteMultiple]: a sorted copy, then one exclusive lock per element. *)
Definition AcquireWriteMultiple (shardIDs : list Z) : list Request :=
  if bool_decide (length shardIDs = 0%nat) then []
  else (fun s => mkReq s Exclusive) <$> merge_sort Z.le shardIDs.

(** ** Concurrent callers

    A caller works through its requests, then (after its critical section) releases its locks in
    the order it took them.  [waiting]: it is inside [RLock] behind a writer, or inside [Lock] with its
    announcement made (a second writer queues before that, on the mutex among the writers). *)
Record Caller : Type := mkCaller { todo : list Request; owned : list Request; waiting : bool }.

Abbreviation callers := (gmap nat Caller).

(** The lock a request is for *)
Definition lockOf (r : Request) : string := shardLockKey (r_shard r).
(** The caller has announced itself as the next writer of the lock [k], it holds it for writing, for reading *)
Definition announced (k : string) (c : Caller) : bool :=
  match todo c with r :: _ => waiting c && bool_decide (r_mode r = Exclusive) && bool_decide (lockOf r = k) | [] => false end.
Definition holds (m : Mode) (k : string) (c : Caller) : bool :=
  existsb (fun r => bool_decide (r_mode r = m) && bool_decide (lockOf r = k)) (owned c).
Definition writes (k : string) (c : Caller) : bool := announced k c || holds Exclusive k c.

Definition nobody (p : Caller -> bool) (cs : callers) : Prop := map_Forall (fun _ c => p c = false) cs.

(** [Unlock] of a writer lets all readers in that wait for it *)
Definition letIn (k : string) (c : Caller) : Caller :=
  match todo c with
  | r :: rest =>
      if waiting c && bool_decide (r_mode r = Shared) && bool_decide (lockOf r = k)
      then mkCaller rest (owned c ++ [r]) false else c
  | [] => c
  end.
Definition unlock (r : Request) (cs : callers) : callers :=
  match r_mode r with Exclusive => letIn (lockOf r) <$> cs | Shared => cs end.

Inductive lstep (cs : callers) : callers -> Prop :=
(* [RLock]: with no writer it is in, behind one it waits *)
| l_rlock t r rest h : cs !! t = Some (mkCaller (r :: rest) h false) -> r_mode r = Shared -> nobody (writes (lockOf r)) cs ->
    lstep cs (<[t := mkCaller rest (h ++ [r]) false]> cs)
| l_rwait t r rest h u c : cs !! t = Some (mkCaller (r :: rest) h false) -> r_mode r = Shared -> cs !! u = Some c -> writes (lockOf r) c = true ->
    lstep cs (<[t := mkCaller (r :: rest) h true]> cs)
(* [Lock]: it announces itself when no other writer is there, and is in when the readers are out *)
| l_announce t r rest h : cs !! t = Some (mkCaller (r :: rest) h false) -> r_mode r = Exclusive -> nobody (writes (lockOf r)) cs ->
    lstep cs (<[t := mkCaller (r :: rest) h true]> cs)
| l_lock t r rest h : cs !! t = Some (mkCaller (r :: rest) h true) -> r_mode r = Exclusive -> nobody (holds Shared (lockOf r)) cs ->
    lstep cs (<[t := mkCaller rest (h ++ [r]) false]> cs)
| l_release t r h w : cs !! t = Some (mkCaller [] (r :: h) w) -> lstep cs (unlock r (<[t := mkCaller [] h w]> cs))
| l_return t w : cs !! t = Some (mkCaller [] [] w) -> lstep cs (delete t cs).

(** A new caller enters one of the acquire functions. *)
Inductive Op : Type := OpRead (id : string) | OpWrite (s : Z) | OpWriteMultiple (l : list Z).

Definition requests (numShards : Z) (op : Op) : list Request :=
  match op with
  | OpRead id => AcquireRead numShards id
  | OpWrite s => AcquireWrite s
  | OpWriteMultiple l => AcquireWriteMultiple l
  end.

(** Shard lists come from the keys of a Go map, so they have no duplicates. *)
Definition op_ok (op : Op) : Prop :=
  match op with
  | OpRead _ => True
  | OpWrite s => in_int64 s
  | OpWriteMultiple l => NoDup l /\ Forall in_int64 l
  end.

Inductive gstep (numShards : Z) : callers -> callers -> Prop :=
| g_start cs t op : cs !! t = None -> op_ok op ->
    gstep numShards cs (<[t := mkCaller (requests numShards op) [] false]> cs)
| g_run cs cs' : lstep cs cs' -> gstep numShards cs cs'.

(** The lock order: what a caller holds and still wants is strictly ascending. *)
Definition ordered (c : Caller) : Prop :=
  StronglySorted Z.lt (r_shard <$> (owned c ++ todo c)) /\ Forall in_int64 (r_shard <$> (owned c ++ todo c)).

(** A reader that waits has a writer in front of it *)
Definition waits_well (cs : callers) : Prop := forall t r rest h, cs !! t = Some (mkCaller (r :: rest) h true) -> r_mode r = Shared ->
  exists u c, cs !! u = Some c /\ writes (lockOf r) c = true.

Record lock_inv (cs : callers) : Prop := mkLockInv {
  li_ordered : forall t c, cs !! t = Some c -> ordered c;
  li_waits : waits_well cs
}.

(** What the callers still have to do, at most *)
Definition weight (c : Caller) : nat := 3 * length (todo c) + length (owned c) + (if waiting c then 0 else 1) + 1.
Definition work (cs : callers) : nat := map_fold (fun _ c n => weight c + n) 0 cs.

End ShardLocks.
Import ShardLocks.

(** ** Lemmas *)

Lemma shardLockKey_inj a b : in_int64 a -> in_int64 b -> shardLockKey a = shardLockKey b -> a = b.
Proof.
  intros Ha Hb Heq. apply (f_equal Atoi) in Heq. unfold shardLockKey in Heq.
  rewrite !Atoi_Itoa in Heq by done. congruence.
Qed.

Lemma StronglySorted_lt_le (l : list Z) : StronglySorted Z.le l -> NoDup l -> StronglySorted Z.lt l.
Proof.
  induction 1 as [|x l Hs IH Hf]; [constructor|]. intros [Hx Hnd]%NoDup_cons. constructor; [auto|].
  apply Forall_forall. intros y Hy. rewrite Forall_forall in Hf. specialize (Hf y Hy).
  assert (x <> y) by (intros ->; done). lia.
Qed.

Lemma ordered_requests n op : (0 < n <= 2 ^ 63)%Z -> op_ok op -> ordered (mkCaller (requests n op) [] false).
Proof.
  intros Hn Hop. unfold ordered. simpl. destruct op as [id|s|l]; simpl.
  - unfold AcquireRead. destruct (containsSlash id); simpl; [repeat constructor|].
    pose proof (GetShardID_range id n). split; repeat constructor; unfold in_int64; lia.
  - split; repeat constructor; apply Hop.
  - destruct Hop as [Hnd Hin]. unfold AcquireWriteMultiple. case_bool_decide; [repeat constructor|].
    rewrite <-list_fmap_compose, list_fmap_id. split.
    + apply StronglySorted_lt_le; [apply (StronglySorted_merge_sort Z.le)|].
      by rewrite (merge_sort_Permutation Z.le).
    + by rewrite (merge_sort_Permutation Z.le).
Qed.

Lemma StronglySorted_app_split (l1 l2 : list Z) x y :
  StronglySorted Z.lt (l1 ++ l2) -> x ∈ l1 -> y ∈ l2 -> (x < y)%Z.
Proof.
  induction l1 as [|a l1 IH]; simpl; [by intros _ ?%not_elem_of_nil|].
  intros Hs%StronglySorted_inv Hx Hy. destruct Hs as [Hs Hf].
  apply elem_of_cons in Hx as [->|Hx]; [|eauto].
  rewrite Forall_forall in Hf. apply Hf. set_solver.
Qed.

(** ** The invariant *)

Lemma admit_ordered k c : ordered c -> ordered (letIn k c).
Proof. unfold letIn, ordered. destruct c as [[|r rest] h w]; [done|]. cbn. destruct (_ && _); cbn; [by rewrite <-app_assoc|done]. Qed.

Lemma admit_writes k k' c : writes k' (letIn k c) = writes k' c.
Proof.
  unfold letIn, writes, announced, holds. destruct c as [[|[s m] rest] h w]; [done|]. cbn. destruct w; [|done]. cbn.
  destruct m; [by rewrite bool_decide_eq_false_2|]. rewrite bool_decide_eq_true_2 by done. cbn.
  case_bool_decide; [|done]. cbn. rewrite existsb_app. cbn. rewrite (bool_decide_eq_false_2 (Shared = Exclusive)) by done. cbn.
  rewrite orb_false_r. by destruct rest as [|[? ?] ?].
Qed.

Lemma unlock_lookup r cs t c : unlock r cs !! t = Some c -> exists c0, cs !! t = Some c0 /\ (c = c0 \/ c = letIn (lockOf r) c0).
Proof. unfold unlock. destruct (r_mode r); [|eauto]. rewrite lookup_fmap, fmap_Some. intros (c0 & ? & ->). eauto. Qed.

Lemma unlock_writer r cs u c k : cs !! u = Some c -> writes k c = true -> exists c', unlock r cs !! u = Some c' /\ writes k c' = true.
Proof. intros Hu Hw. unfold unlock. destruct (r_mode r); [|eauto]. rewrite lookup_fmap, Hu. cbn. eexists. split; [done|]. by rewrite admit_writes. Qed.

(** A caller may be replaced by one that writes no less *)
Lemma waits_insert cs t c c' : waits_well cs -> cs !! t = Some c -> (forall k, writes k c = true -> writes k c' = true) ->
  (forall r rest h, c' = mkCaller (r :: rest) h true -> r_mode r = Shared -> exists u d, cs !! u = Some d /\ writes (lockOf r) d = true) ->
  waits_well (<[t := c']> cs).
Proof.
  intros Hw Ht Hmono Hnew v r rest h Hv Hr.
  assert (exists u d, cs !! u = Some d /\ writes (lockOf r) d = true) as (u & d & Hu & Hd).
  { apply lookup_insert_Some in Hv as [[_ ->]|[_ Hv]]; [by eapply Hnew|by eapply Hw]. }
  destruct (decide (t = u)) as [<-|Hne].
  - exists t, c'. rewrite lookup_insert_eq. split; [done|]. apply Hmono. congruence.
  - exists u, d. by rewrite lookup_insert_ne.
Qed.

(** A release takes only the lock of its request away from its caller *)
Lemma writes_release r h w k c : writes k (mkCaller [] (r :: h) w) = true -> (r_mode r = Exclusive -> lockOf r <> k) ->
  c = mkCaller [] h w -> writes k c = true.
Proof.
  intros Hw Hne ->. unfold writes, announced, holds in *. cbn in *. destruct (r_mode r) eqn:Hm; cbn in *.
  - by rewrite (bool_decide_eq_false_2 (lockOf r = k)), andb_false_r in Hw by auto.
  - by rewrite (bool_decide_eq_false_2 (Shared = Exclusive)) in Hw.
Qed.

Lemma waits_release cs t r h w : waits_well cs -> cs !! t = Some (mkCaller [] (r :: h) w) -> waits_well (unlock r (<[t := mkCaller [] h w]> cs)).
Proof.
  intros Hw Ht v q rest g Hv Hq.
  assert (cs !! v = Some (mkCaller (q :: rest) g true) /\ (r_mode r = Exclusive -> lockOf r <> lockOf q)) as [Hv' Hne].
  { unfold unlock in Hv. destruct (r_mode r) eqn:Hm.
    - rewrite lookup_fmap, fmap_Some in Hv. destruct Hv as (c & Hv & E). unfold letIn in E.
      destruct c as [[|q' rest'] g' w']; [done|]. cbn in E.
      apply lookup_insert_Some in Hv as [[_ Hv]|[_ Hv]]; [done|].
      destruct (w' && _ && _) eqn:Eb; [done|]. injection E as -> -> -> <-. split; [done|]. intros _ Hk.
      rewrite !bool_decide_eq_true_2 in Eb by done. done.
    - apply lookup_insert_Some in Hv as [[_ Hv]|[_ Hv]]; done. }
  destruct (Hw _ _ _ _ Hv' Hq) as (u & d & Hu & Hd). exists u. destruct (decide (t = u)) as [<-|Hnu].
  - assert (d = mkCaller [] (r :: h) w) as -> by congruence.
    apply (unlock_writer r _ t (mkCaller [] h w)); [by rewrite lookup_insert_eq|by eapply writes_release].
  - by apply (unlock_writer r _ u d); [rewrite lookup_insert_ne|].
Qed.

Lemma lock_inv_lstep cs cs' : lock_inv cs -> lstep cs cs' -> lock_inv cs'.
Proof.
  intros [Ho Hw] Hs. destruct Hs as [t r rest h Ht Hr Hn|t r rest h u c Ht Hr Hu Hc|t r rest h Ht Hr Hn|t r rest h Ht Hr Hn|t r h w Ht|t w Ht]; split.
  - intros v c Hv. apply lookup_insert_Some in Hv as [[_ <-]|[_ Hv]]; [|eauto]. specialize (Ho _ _ Ht). unfold ordered in *. cbn in *. by rewrite <-app_assoc.
  - eapply waits_insert; [done|exact Ht| |done]. intros k. unfold writes, announced, holds. cbn. rewrite existsb_app. intros ->. by rewrite orb_true_r.
  - intros v d Hv. apply lookup_insert_Some in Hv as [[_ <-]|[_ Hv]]; [exact (Ho _ _ Ht)|eauto].
  - eapply waits_insert; [done|exact Ht| |].
    + intros k. unfold writes, announced, holds. cbn. intros ->. by rewrite orb_true_r.
    + intros r' rest' h' [= <- <- <-] _. eauto.
  - intros v d Hv. apply lookup_insert_Some in Hv as [[_ <-]|[_ Hv]]; [exact (Ho _ _ Ht)|eauto].
  - eapply waits_insert; [done|exact Ht| |].
    + intros k. unfold writes, announced, holds. cbn. intros ->. by rewrite orb_true_r.
    + intros r' rest' h' [= <- <- <-] ?. congruence.
  - intros v c Hv. apply lookup_insert_Some in Hv as [[_ <-]|[_ Hv]]; [|eauto]. specialize (Ho _ _ Ht). unfold ordered in *. cbn in *. by rewrite <-app_assoc.
  - eapply waits_insert; [done|exact Ht| |done]. intros k. unfold writes, announced, holds. cbn. rewrite existsb_app. cbn. rewrite Hr.
    rewrite (bool_decide_eq_true_2 (Exclusive = Exclusive)) by done. cbn. intros Hk. apply orb_true_iff. right. apply orb_true_iff.
    apply orb_prop in Hk as [Hk|Hk]; [right; by rewrite Hk|by left].
  - intros v d (d0 & Hv & Hd)%unlock_lookup. assert (ordered d0) as Hod.
    { apply lookup_insert_Some in Hv as [[_ <-]|[_ Hv]]; [|eauto]. destruct (Ho _ _ Ht) as [H1 H2]. unfold ordered in *. cbn in *.
      apply StronglySorted_inv in H1 as [??]. by apply Forall_cons in H2 as [??]. }
    destruct Hd as [-> | ->]; [done|by apply admit_ordered].
  - by eapply waits_release.
  - intros v d Hv. apply lookup_delete_Some in Hv as [_ Hv]. eauto.
  - intros v r rest h Hv Hr. apply lookup_delete_Some in Hv as [_ Hv]. destruct (Hw _ _ _ _ Hv Hr) as (u & d & Hu & Hd).
    exists u, d. split; [|done]. rewrite lookup_delete_ne; [done|]. intros <-. rewrite Ht in Hu. by injection Hu as <-.
Qed.

Lemma lock_inv_reachable n cs : (0 < n <= 2 ^ 63)%Z -> rtc (gstep n) ∅ cs -> lock_inv cs.
Proof.
  intros Hn. apply (rtc_ind_r lock_inv); [split; intros t; intros; by rewrite lookup_empty in *|].
  intros c1 c2 _ Hs [Ho Hw]. destruct Hs as [c1 u op Hu Hop|c1 c2 Hl]; [|by eapply lock_inv_lstep]. split.
  - intros t c Ht. apply lookup_insert_Some in Ht as [[_ <-]|[_ Ht]]; [by apply ordered_requests|eauto].
  - intros t r rest h Ht Hr. apply lookup_insert_Some in Ht as [[_ Ht]|[_ Ht]]; [done|].
    destruct (Hw _ _ _ _ Ht Hr) as (v & d & Hv & Hd). exists v, d. split; [|done]. rewrite lookup_insert_ne; [done|congruence].
Qed.

(** ** Progress *)

Lemma work_insert t c cs : cs !! t = None -> work (<[t := c]> cs) = weight c + work cs.
Proof. intros Ht. unfold work. rewrite map_fold_insert_L; [done|intros; lia|done]. Qed.

Lemma work_delete t c cs : cs !! t = Some c -> work cs = weight c + work (delete t cs).
Proof. intros Ht. rewrite <-(insert_delete_id cs t c) at 1 by done. apply work_insert, lookup_delete_eq. Qed.

Lemma work_replace t c c' cs : cs !! t = Some c -> weight c' < weight c -> work (<[t := c']> cs) < work cs.
Proof. intros Ht Hlt. rewrite <-insert_delete_eq, work_insert by apply lookup_delete_eq. rewrite (work_delete t c cs Ht). lia. Qed.

Lemma work_unlock r cs : work (unlock r cs) <= work cs.
Proof.
  unfold unlock. destruct (r_mode r); [|done]. induction cs as [|t c cs Ht IH] using map_ind; [by rewrite fmap_empty|].
  rewrite fmap_insert, !work_insert; [|done|by rewrite lookup_fmap, Ht].
  assert (weight (letIn (lockOf r) c) <= weight c); [|lia].
  unfold letIn, weight. destruct c as [[|q rest] h w]; [done|]. cbn. destruct w; cbn; [|done]. destruct (_ && _); cbn; [|done]. rewrite length_app. cbn. lia.
Qed.

Lemma lstep_work cs cs' : lstep cs cs' -> work cs' < work cs.
Proof.
  destruct 1 as [t r rest h Ht _ _|t r rest h u c Ht _ _ _|t r rest h Ht _ _|t r rest h Ht _ _|t r h w Ht|t w Ht];
    try (eapply work_replace; [exact Ht|]; unfold weight; cbn; rewrite ?length_app; cbn; lia).
  - eapply Nat.le_lt_trans; [apply work_unlock|]. eapply work_replace; [exact Ht|]. unfold weight; cbn; lia.
  - rewrite (work_delete _ _ _ Ht). unfold weight. cbn. lia.
Qed.

(** Whoever holds a lock wants only greater ones *)
Lemma holder_wants_more cs u c m r : lock_inv cs -> in_int64 (r_shard r) -> cs !! u = Some c -> holds m (lockOf r) c = true ->
  match todo c with q :: _ => (r_shard r < r_shard q)%Z | [] => True end.
Proof.
  intros [Ho _] Hr Hu Hh. apply existsb_exists in Hh as (q & Hq & Hk). apply andb_prop in Hk as [_ Hk]. apply bool_decide_eq_true in Hk.
  apply list_elem_of_In in Hq. destruct (Ho _ _ Hu) as [Hs Hi]. rewrite !fmap_app in *.
  apply (list_elem_of_fmap_2 r_shard) in Hq. apply shardLockKey_inj in Hk; [|by eapply Forall_forall in Hi; [|apply elem_of_app; left]|done].
  destruct (todo c) as [|q' qs]; [done|]. rewrite <-Hk. eapply StronglySorted_app_split; [exact Hs|exact Hq|by left].
Qed.

(** ** Properties *)

(** C29: No deadlock.  Callers of [AcquireRead], [AcquireWrite] and [AcquireWriteMultiple] (the latter on duplicate-free
    shard lists) enter at any time, each in one of these functions at a time, on Go's read/write locks: a writer that has
    announced itself keeps new readers out, and readers that wait for a writer enter when it unlocks.  In every
    state they reach, as long as any caller is inside, some caller can take a step; and every step of a caller
    lowers [work], so that when no further caller enters all of them have returned after at most that many steps. *)
Theorem ShardLock_deadlock_free n cs :
  (0 < n <= 2 ^ 63)%Z -> rtc (gstep n) ∅ cs ->
  (cs <> ∅ -> exists cs', lstep cs cs') /\ (forall cs', lstep cs cs' -> work cs' < work cs).
Proof.
  intros Hn Hr. split; [|intros cs'; apply lstep_work]. intros Hne. pose proof (lock_inv_reachable n cs Hn Hr) as Hi.
  destruct (map_argmax (fun c => match todo c with r :: _ => r_shard r | [] => 2 ^ 63 end)%Z cs Hne)
    as (t & [td ow w] & Ht & Hmax). cbn in Hmax.
  destruct td as [|r rest]; [destruct ow; eexists; [by eapply l_return|by eapply l_release]|].
  assert (in_int64 (r_shard r)) as Hr64.
  { destruct (li_ordered _ Hi _ _ Ht) as [_ Hf]. rewrite fmap_app, Forall_app in Hf. destruct Hf as [_ Hf]. by apply Forall_cons in Hf as [? _]. }
  assert (forall m, nobody (holds m (lockOf r)) cs) as Hfree.
  { intros m u c Hu. apply not_true_iff_false. intros Hh. pose proof (holder_wants_more cs u c m r Hi Hr64 Hu Hh) as Hlt.
    specialize (Hmax _ _ Hu). destruct (todo c) as [|q qs]; [|lia]. unfold in_int64 in Hr64. lia. }
  (* an announced writer is in at once *)
  assert (forall u c, cs !! u = Some c -> writes (lockOf r) c = true -> exists cs', lstep cs cs') as Hgo.
  { intros u c Hu Hw. unfold writes in Hw. rewrite (Hfree Exclusive u c Hu), orb_false_r in Hw. destruct c as [[|q qs] h [|]]; try done.
    unfold announced in Hw. cbn in Hw. apply andb_prop in Hw as [Hm Hk]. breflect. eexists. eapply l_lock; [exact Hu|done|]. rewrite Hk. apply Hfree. }
  destruct (decide (nobody (writes (lockOf r)) cs)) as [Hnw|(u & c & Hu & Hc)%map_not_Forall]; [|by apply (Hgo u c Hu), not_false_iff_true|apply _].
  destruct (r_mode r) eqn:Hm, w; [by eexists; eapply l_lock|by eexists; eapply l_announce| |by eexists; eapply l_rlock].
  destruct (li_waits _ Hi _ _ _ _ Ht Hm) as (u & c & Hu & Hc). by eapply Hgo.
Qed.

(** Two callers that want the shards 4 and 9 for writing, and a reader of one of them *)
Lemma ShardLock_deadlock_free_witness :
  exists cs', lstep (<[1%nat := mkCaller (AcquireWriteMultiple [9; 4]%Z) [] false]>
                     {[0%nat := mkCaller (AcquireWriteMultiple [4; 9]%Z) [] false]}) cs'.
Proof.
  apply (ShardLock_deadlock_free 8192); [split; [reflexivity|discriminate]| |discriminate].
  eapply rtc_l; [apply (g_start _ _ 0 (OpWriteMultiple [4; 9]%Z)); [reflexivity|]|].
  { split; [|repeat constructor; discriminate]. apply NoDup_cons. split; [set_solver|apply NoDup_singleton]. }
  eapply rtc_l; [apply (g_start _ _ 1 (OpWriteMultiple [9; 4]%Z)); [reflexivity|]|].
  { split; [|repeat constructor; discriminate]. apply NoDup_cons. split; [set_solver|apply NoDup_singleton]. }
  apply rtc_refl.
Defined.

(** What the shard lock protects: creating an object whose identifier has no slash takes the
    read lock of exactly the shard it is routed to, so it conflicts with a writer of that shard and
    of no other.  An identifier with a slash takes no lock at all; that includes every fixed-shard
    identifier, although those do belong to a shard. *)
Theorem AcquireRead_guards_shard n id s :
  (0 < n <= 2 ^ 63)%Z -> (0 <= s < n)%Z ->
  (Contains id "/" = false ->
     AcquireRead n id = [mkReq (GetShardID id n) Shared] /\
     (shardLockKey (GetShardID id n) = shardLockKey s <-> GetShardID id n = s)) /\
  (forall p, ValidateObjectID id n = Ok p -> IsFixedShardFormat p = true ->
     AcquireRead n id = [] /\ GetShardID id n = ShardID p).
Proof.
  intros Hn Hs. split.
  - intros Hid. unfold AcquireRead, containsSlash. rewrite Hid. split; [done|].
    pose proof (GetShardID_range id n ltac:(lia)) as Hg.
    split; [apply shardLockKey_inj; unfold in_int64; lia|congruence].
  - intros p Hv Hf. destruct (Validate_fixed_shard id n p Hv Hf) as (Hc & Hg & _).
    unfold AcquireRead, containsSlash. by rewrite Hc.
Qed.

Lemma AcquireRead_guards_shard_witness :
  AcquireRead 64 "shard#5/x" = [] /\ GetShardID "shard#5/x" 64 = 5%Z.
Proof.
  exact (proj2 (AcquireRead_guards_shard 64 "shard#5/x" 5 ltac:(lia) ltac:(lia))
    (mkParsed TypeFixedShard "shard#5/x" 5 "" "x") eq_refl eq_refl).
Defined.
