(* ===== verification/Persistence.v ===== *)
(** * The persistence provider (object/persistence.go, util/postgres/persistence.go)

    [ReliableCall] and the interface [PersistenceProvider] of object/persistence.go as a class of
    operations with the laws the object and node layers rely on, the helpers [SaveObject] and
    [LoadObject], and the PostgreSQL implementation [Postgres.DB] of util/postgres, which discharges
    the laws.  A database is its two tables and its sequence; each statement of the SQL text is
    a function on the tables.  A statement may fail before or after the server applied it: the
    database carries the list of the faults of the statements to come ([NoFault] when it runs out).
    Row timestamps are not modelled. *)

From S2P Require Import Prelude GoStrings.
From stdpp Require Import sorting.

Record ReliableCall : Type := mkRC {
  Seq : Z;
  CallID : string;
  ObjectID : string;
  ObjectType : string;
  MethodName : string;
  RequestData : string;
  ResultData : option string;            (* [None] is nil, a NULL column *)
  Error : string;
  Status : string
}.

#[global] Instance ReliableCall_eq_dec : EqDecision ReliableCall.
Proof. solve_decision. Defined.

Definition set_status (rc : ReliableCall) (status : string) (resultData : option string) (errMsg : string)
    : ReliableCall :=
  mkRC (Seq rc) (CallID rc) (ObjectID rc) (ObjectType rc) (MethodName rc) (RequestData rc) resultData errMsg status.

Inductive db_error : Type :=
| ErrEmptyField (field : string)
| ErrSeqNotPositive
| ErrExec (msg : string)
| ErrNotFound
| ErrConstraint (name : string).

#[global] Instance db_error_eq_dec : EqDecision db_error.
Proof. solve_decision. Defined.

(** ** The provider interface *)

Class PersistenceProvider (P : Type) : Type := {
  pSaveObject : P -> string -> string -> option string -> Z -> P * result db_error unit;
  pLoadObject : P -> string -> P * result db_error (option (string * Z));
  pDeleteObject : P -> string -> P * result db_error unit;
  pInsertOrGetReliableCall : P -> string -> string -> string -> string -> option string ->
    P * result db_error ReliableCall;
  pUpdateReliableCallStatus : P -> Z -> string -> option string -> string -> P * result db_error unit;
  pGetPendingReliableCalls : P -> string -> Z -> P * result db_error (list ReliableCall);
  pGetReliableCallBySeq : P -> Z -> P * result db_error ReliableCall;
  (* what the provider holds: the saved objects and the call table in sequence order *)
  saved : P -> string -> option (string * Z);
  calls : P -> list ReliableCall;
  provider_ok : P -> Prop
}.

(** The calls of [cs] that [GetPendingReliableCalls] selects. *)
Definition pending_of (id : string) (next : Z) (cs : list ReliableCall) : list ReliableCall :=
  List.filter (fun rc => bool_decide (ObjectID rc = id) && (next <=? Seq rc)%Z && bool_decide (Status rc = "pending")) cs.

(** The call table with the status of one call changed. *)
Definition update_call (seq : Z) (status : string) (rd : option string) (msg : string) (cs : list ReliableCall)
    : list ReliableCall :=
  (fun rc => if (Seq rc =? seq)%Z then set_status rc status rd msg else rc) <$> cs.

Class PersistenceLaws (P : Type) `{PersistenceProvider P} : Prop := {
  (* an operation changes only what it is for, and all or nothing of it *)
  law_save : forall p id typ data next p' r, provider_ok p ->
    pSaveObject p id typ (Some data) next = (p', r) ->
    provider_ok p' /\ calls p' = calls p /\
    (forall id', id' <> id -> saved p' id' = saved p id') /\
    (saved p' id = Some (data, next) \/ (saved p' id = saved p id /\ r <> Ok tt));
  law_load : forall p id p' r, provider_ok p -> pLoadObject p id = (p', r) ->
    provider_ok p' /\ calls p' = calls p /\ (forall id', saved p' id' = saved p id') /\
    (forall x, r = Ok x -> x = saved p id);
  law_delete : forall p id p' r, provider_ok p -> pDeleteObject p id = (p', r) ->
    provider_ok p' /\ calls p' = calls p /\ (forall id', id' <> id -> saved p' id' = saved p id') /\
    (saved p' id = None \/ (saved p' id = saved p id /\ r <> Ok tt));
  law_insert : forall p rid oid otype meth req p' r, provider_ok p ->
    pInsertOrGetReliableCall p rid oid otype meth req = (p', r) ->
    provider_ok p' /\ (forall id, saved p' id = saved p id) /\
    ((calls p' = calls p /\ (forall rc, r = Ok rc -> rc ∈ calls p /\ CallID rc = rid)) \/
     (exists rc, calls p' = calls p ++ [rc] /\ CallID rc = rid /\ ObjectID rc = oid /\ ObjectType rc = otype /\
        MethodName rc = meth /\ Some (RequestData rc) = req /\ Status rc = "pending" /\
        (forall rc', rc' ∈ calls p -> (Seq rc' < Seq rc)%Z /\ CallID rc' <> rid) /\
        (forall rc', r = Ok rc' -> rc' = rc)));
  law_update : forall p seq status rd msg p' r, provider_ok p ->
    pUpdateReliableCallStatus p seq status rd msg = (p', r) ->
    provider_ok p' /\ (forall id, saved p' id = saved p id) /\
    (calls p' = update_call seq status rd msg (calls p) \/ (calls p' = calls p /\ r <> Ok tt));
  law_pending : forall p id next p' r, provider_ok p -> pGetPendingReliableCalls p id next = (p', r) ->
    provider_ok p' /\ calls p' = calls p /\ (forall id', saved p' id' = saved p id') /\
    (forall l, r = Ok l -> l = pending_of id next (calls p));
  law_by_seq : forall p seq p' r, provider_ok p -> pGetReliableCallBySeq p seq = (p', r) ->
    provider_ok p' /\ calls p' = calls p /\ (forall id, saved p' id = saved p id) /\
    (forall rc, r = Ok rc -> rc ∈ calls p /\ Seq rc = seq);
  (* the table is in sequence order and a call id names one call *)
  law_sorted : forall p, provider_ok p -> StronglySorted Z.lt (Seq <$> calls p);
  law_call_id : forall p, provider_ok p -> NoDup (CallID <$> calls p)
}.

(** ** The PostgreSQL provider *)

Module Postgres.

Record ObjectData : Type := mkRow { rowType : string; rowData : string; rowNextRcseq : Z }.

Record DB : Type := mkDB {
  tbl_objects : gmap string ObjectData;
  tbl_calls : list ReliableCall;
  seq_next : Z;                          (* the BIGSERIAL sequence of goverse_reliable_calls *)
  faults : list fault
}.

(** One statement against the server: [stmt] is what it does to the tables and what it returns. *)
Definition exec {A} (db : DB) (stmt : DB -> DB * result db_error A) : DB * result db_error A :=
  let '(f, fs) := match faults db with [] => (NoFault, []) | f :: fs => (f, fs) end in
  let db := mkDB (tbl_objects db) (tbl_calls db) (seq_next db) fs in
  match f with
  | NoFault => stmt db
  | FailBefore msg => (db, Err (ErrExec msg))
  | FailAfter msg => (fst (stmt db), Err (ErrExec msg))
  end.

Definition set_objects (db : DB) (t : gmap string ObjectData) : DB := mkDB t (tbl_calls db) (seq_next db) (faults db).
Definition set_calls (db : DB) (t : list ReliableCall) (n : Z) : DB := mkDB (tbl_objects db) t n (faults db).

(** [SaveObject]: INSERT ... ON CONFLICT (object_id) DO UPDATE *)
Definition SaveObject (db : DB) (objectID objectType : string) (data : option string) (nextRcseq : Z)
    : DB * result db_error unit :=
  if bool_decide (objectID = "") then (db, Err (ErrEmptyField "object_id"))
  else if bool_decide (objectType = "") then (db, Err (ErrEmptyField "object_type"))
  else
    let data := default "{}" data in
    exec db (fun db => (set_objects db (<[objectID := mkRow objectType data nextRcseq]> (tbl_objects db)), Ok tt)).

(** [LoadObject]: a missing row is [(nil, 0, nil)] *)
Definition LoadObject (db : DB) (objectID : string) : DB * result db_error (option (string * Z)) :=
  if bool_decide (objectID = "") then (db, Err (ErrEmptyField "object_id"))
  else exec db (fun db =>
    (db, Ok ((fun row => (rowData row, rowNextRcseq row)) <$> tbl_objects db !! objectID))).

(** [DeleteObject] *)
Definition DeleteObject (db : DB) (objectID : string) : DB * result db_error unit :=
  if bool_decide (objectID = "") then (db, Err (ErrEmptyField "object_id"))
  else exec db (fun db =>
    match tbl_objects db !! objectID with
    | None => (db, Err ErrNotFound)
    | Some _ => (set_objects db (delete objectID (tbl_objects db)), Ok tt)
    end).

(** [ObjectExists] *)
Definition ObjectExists (db : DB) (objectID : string) : DB * result db_error bool :=
  if bool_decide (objectID = "") then (db, Err (ErrEmptyField "object_id"))
  else exec db (fun db => (db, Ok (bool_decide (is_Some (tbl_objects db !! objectID))))).

(** [InsertOrGetReliableCall]: the sequence advances also when the call id exists; a nil request
    violates the NOT NULL constraint of request_data, after the sequence has advanced *)
Definition InsertOrGetReliableCall (db : DB) (requestID objectID objectType methodName : string)
    (requestData : option string) : DB * result db_error ReliableCall :=
  if bool_decide (requestID = "") then (db, Err (ErrEmptyField "call_id"))
  else if bool_decide (objectID = "") then (db, Err (ErrEmptyField "object_id"))
  else if bool_decide (objectType = "") then (db, Err (ErrEmptyField "object_type"))
  else if bool_decide (methodName = "") then (db, Err (ErrEmptyField "method_name"))
  else exec db (fun db =>
    let seq := seq_next db in
    match requestData with
    | None => (set_calls db (tbl_calls db) (seq + 1)%Z, Err (ErrConstraint "request_data"))
    | Some req =>
        match List.find (fun rc => bool_decide (CallID rc = requestID)) (tbl_calls db) with
        | Some rc => (set_calls db (tbl_calls db) (seq + 1)%Z, Ok rc)
        | None =>
            let rc := mkRC seq requestID objectID objectType methodName req None "" "pending" in
            (set_calls db (tbl_calls db ++ [rc]) (seq + 1)%Z, Ok rc)
        end
    end).

Definition valid_status (status : string) : bool :=
  bool_decide (status = "pending") || bool_decide (status = "success") ||
  bool_decide (status = "failed") || bool_decide (status = "skipped").

(** [UpdateReliableCallStatus], with the CHECK constraints of the table *)
Definition UpdateReliableCallStatus (db : DB) (id : Z) (status : string) (resultData : option string)
    (errorMessage : string) : DB * result db_error unit :=
  if (id <=? 0)%Z then (db, Err ErrSeqNotPositive)
  else if bool_decide (status = "") then (db, Err (ErrEmptyField "status"))
  else exec db (fun db =>
    if negb (existsb (fun rc => (Seq rc =? id)%Z) (tbl_calls db)) then (db, Err ErrNotFound)
    else if negb (valid_status status) then (db, Err (ErrConstraint "status"))
    else if bool_decide (status = "success") && bool_decide (resultData = None)
    then (db, Err (ErrConstraint "valid_success_state"))
    else (set_calls db (update_call id status resultData errorMessage (tbl_calls db)) (seq_next db), Ok tt)).

Definition seq_le (a b : ReliableCall) : Prop := (Seq a <= Seq b)%Z.
#[global] Instance seq_le_dec a b : Decision (seq_le a b).
Proof. unfold seq_le. apply _. Defined.

(** [GetPendingReliableCalls]: WHERE object_id, seq >= nextRcseq, pending, ORDER BY seq *)
Definition GetPendingReliableCalls (db : DB) (objectID : string) (nextRcseq : Z)
    : DB * result db_error (list ReliableCall) :=
  if bool_decide (objectID = "") then (db, Err (ErrEmptyField "object_id"))
  else exec db (fun db => (db, Ok (merge_sort seq_le (pending_of objectID nextRcseq (tbl_calls db))))).

(** [GetReliableCall] *)
Definition GetReliableCall (db : DB) (requestID : string) : DB * result db_error ReliableCall :=
  if bool_decide (requestID = "") then (db, Err (ErrEmptyField "call_id"))
  else exec db (fun db =>
    (db, match List.find (fun rc => bool_decide (CallID rc = requestID)) (tbl_calls db) with
         | Some rc => Ok rc | None => Err ErrNotFound end)).

(** [GetReliableCallBySeq] *)
Definition GetReliableCallBySeq (db : DB) (seq : Z) : DB * result db_error ReliableCall :=
  if (seq <=? 0)%Z then (db, Err ErrSeqNotPositive)
  else exec db (fun db =>
    (db, match List.find (fun rc => (Seq rc =? seq)%Z) (tbl_calls db) with
         | Some rc => Ok rc | None => Err ErrNotFound end)).

(** The tables the schema and the sequence allow. *)
Definition db_ok (db : DB) : Prop :=
  StronglySorted Z.lt (Seq <$> tbl_calls db) /\ NoDup (CallID <$> tbl_calls db) /\
  (forall rc, rc ∈ tbl_calls db -> (0 < Seq rc < seq_next db)%Z) /\ (0 < seq_next db)%Z.

End Postgres.
Import Postgres.

#[global] Instance DB_provider : PersistenceProvider DB := {|
  pSaveObject := SaveObject;
  pLoadObject := LoadObject;
  pDeleteObject := DeleteObject;
  pInsertOrGetReliableCall := InsertOrGetReliableCall;
  pUpdateReliableCallStatus := UpdateReliableCallStatus;
  pGetPendingReliableCalls := GetPendingReliableCalls;
  pGetReliableCallBySeq := GetReliableCallBySeq;
  saved db id := (fun row => (rowData row, rowNextRcseq row)) <$> tbl_objects db !! id;
  calls := tbl_calls;
  provider_ok := db_ok
|}.

(** ** Lemmas *)

(** A statement ran, its result seen or lost, or did not run. *)
Lemma exec_cases {A} (db db' : DB) (stmt : DB -> DB * result db_error A) r :
  exec db stmt = (db', r) ->
  exists fs, let db0 := mkDB (tbl_objects db) (tbl_calls db) (seq_next db) fs in
    stmt db0 = (db', r) \/ (db' = fst (stmt db0) /\ exists m, r = Err (ErrExec m)) \/
    (db' = db0 /\ exists m, r = Err (ErrExec m)).
Proof.
  unfold exec. intros He. destruct (faults db) as [|f fs]; [by exists []; left|]. exists fs.
  destruct f; simpl in *; simplify_eq; eauto 10.
Qed.

Lemma update_call_seqs seq st rd msg cs : Seq <$> update_call seq st rd msg cs = Seq <$> cs.
Proof. unfold update_call. rewrite <-list_fmap_compose. apply list_fmap_ext. intros ? rc ?. simpl. by case_match. Qed.

Lemma update_call_ids seq st rd msg cs : CallID <$> update_call seq st rd msg cs = CallID <$> cs.
Proof. unfold update_call. rewrite <-list_fmap_compose. apply list_fmap_ext. intros ? rc ?. simpl. by case_match. Qed.

Lemma db_ok_calls db db' :
  db_ok db -> tbl_calls db' = tbl_calls db -> (seq_next db <= seq_next db')%Z -> db_ok db'.
Proof.
  intros (H1 & H2 & H3 & H4) Hc Hs. unfold db_ok. rewrite Hc. split_and!; try done; [|lia].
  intros rc Hrc. specialize (H3 rc Hrc). lia.
Qed.

#[global] Instance seq_le_trans : Transitive seq_le.
Proof. intros a b c. unfold seq_le. lia. Qed.
#[global] Instance seq_le_total : Total seq_le.
Proof. intros a b. unfold seq_le. lia. Qed.

(** A sorted table holds a sequence number once. *)
Lemma seq_unique cs x y :
  StronglySorted Z.lt (Seq <$> cs) -> x ∈ cs -> y ∈ cs -> Seq x = Seq y -> x = y.
Proof.
  induction cs as [|c cs IH]; [set_solver|]. intros Hs Hx Hy Heq. cbn [fmap list_fmap] in Hs.
  apply StronglySorted_inv in Hs as [Hs HF]. rewrite Forall_forall in HF.
  assert (forall z, z ∈ cs -> (Seq c < Seq z)%Z) as Hlt by (intros z Hz; apply HF, list_elem_of_fmap; eauto).
  apply elem_of_cons in Hx as [->|Hx], Hy as [->|Hy]; [done| | |by apply IH].
  - specialize (Hlt y Hy). lia.
  - specialize (Hlt x Hx). lia.
Qed.

Lemma seq_sorted_filter f cs : StronglySorted Z.lt (Seq <$> cs) -> StronglySorted seq_le (List.filter f cs).
Proof.
  induction cs as [|c cs IH]; cbn [fmap list_fmap List.filter]; intros Hs; [constructor|].
  apply StronglySorted_inv in Hs as [Hs HF]. destruct (f c); [|by apply IH].
  constructor; [by apply IH|]. rewrite Forall_forall in HF. apply Forall_forall. intros x Hx.
  apply list_elem_of_In, filter_In in Hx as [Hx%list_elem_of_In _]. unfold seq_le.
  specialize (HF (Seq x)). rewrite list_elem_of_fmap in HF. specialize (HF ltac:(eauto)). lia.
Qed.

Lemma elem_of_pending rc id next cs :
  rc ∈ pending_of id next cs <-> rc ∈ cs /\ ObjectID rc = id /\ (next <= Seq rc)%Z /\ Status rc = "pending".
Proof.
  unfold pending_of. rewrite !list_elem_of_In, filter_In, !andb_true_iff, !bool_decide_eq_true, Z.leb_le. naive_solver.
Qed.

Lemma pending_sorted db id next :
  db_ok db -> merge_sort seq_le (pending_of id next (tbl_calls db)) = pending_of id next (tbl_calls db).
Proof.
  intros (Hs & _). apply (StronglySorted_unique_strong seq_le).
  - intros x y Hx Hy. rewrite merge_sort_Permutation in Hx. apply elem_of_pending in Hx as [Hx _], Hy as [Hy _].
    unfold seq_le. intros. eapply seq_unique; [exact Hs|exact Hx|exact Hy|lia].
  - apply StronglySorted_merge_sort; apply _.
  - by apply seq_sorted_filter.
  - apply merge_sort_Permutation.
Qed.

Lemma find_elem {A} (f : A -> bool) l x : List.find f l = Some x -> x ∈ l /\ f x = true.
Proof. intros [H1 H2]%find_some. by rewrite list_elem_of_In. Qed.

Lemma StronglySorted_snoc (l : list Z) x :
  StronglySorted Z.lt l -> (forall y, y ∈ l -> (y < x)%Z) -> StronglySorted Z.lt (l ++ [x]).
Proof.
  induction l as [|y l IH]; simpl; intros Hs Hx; [by repeat constructor|].
  apply StronglySorted_inv in Hs as [Hs HF]. constructor.
  - apply IH; [done|]. intros z Hz. apply Hx. by right.
  - apply Forall_app. split; [done|]. constructor; [|done]. apply Hx. by left.
Qed.

Lemma insert_ok db rid oid otype meth req db' r :
  db_ok db -> InsertOrGetReliableCall db rid oid otype meth req = (db', r) ->
  db_ok db' /\ tbl_objects db' = tbl_objects db /\
    ((tbl_calls db' = tbl_calls db /\ (forall rc, r = Ok rc -> rc ∈ tbl_calls db /\ CallID rc = rid)) \/
     (exists rc, tbl_calls db' = tbl_calls db ++ [rc] /\ CallID rc = rid /\ ObjectID rc = oid /\ ObjectType rc = otype /\
        MethodName rc = meth /\ Some (RequestData rc) = req /\ Status rc = "pending" /\
        (forall rc', rc' ∈ tbl_calls db -> (Seq rc' < Seq rc)%Z /\ CallID rc' <> rid) /\
        (forall rc', r = Ok rc' -> rc' = rc))).
Proof.
  intros Hok. unfold InsertOrGetReliableCall.
  do 4 (case_bool_decide; [intros [= <- <-]; split_and!; try done; by left|]).
  intros (fs & He)%exec_cases. cbv zeta in He. simpl in He.
  assert (db_ok (mkDB (tbl_objects db) (tbl_calls db) (seq_next db) fs)) as Hok0
    by (eapply db_ok_calls; [exact Hok|done|simpl; lia]).
  destruct req as [req|].
  2: { destruct He as [He|[[-> [m ->]]|[-> [m ->]]]]; simplify_eq; simpl; (split; [|split; [done|by left]]);
       try done; (eapply db_ok_calls; [exact Hok|done|simpl; lia]). }
  destruct (List.find _ (tbl_calls db)) as [old|] eqn:Hf.
  - apply find_elem in Hf as [Hin Hid]. breflect.
    destruct He as [He|[[-> [m ->]]|[-> [m ->]]]]; simplify_eq; simpl;
      (split; [|split; [done|left; split; [done|by intros; simplify_eq]]]);
      try done; (eapply db_ok_calls; [exact Hok|done|simpl; lia]).
  - pose proof (find_none _ _ Hf) as Hnone.
    assert (forall rc', rc' ∈ tbl_calls db -> (Seq rc' < seq_next db)%Z /\ CallID rc' <> rid) as Hnew.
    { intros rc' Hrc'. destruct Hok as (_ & _ & Hr & _). split; [specialize (Hr rc' Hrc'); lia|].
      apply list_elem_of_In, Hnone in Hrc'. by breflect. }
    assert (db_ok (set_calls (mkDB (tbl_objects db) (tbl_calls db) (seq_next db) fs)
      (tbl_calls db ++ [mkRC (seq_next db) rid oid otype meth req None "" "pending"]) (seq_next db + 1))) as Hok1.
    { destruct Hok as (Ho1 & Ho2 & Ho3 & Ho4). unfold db_ok. simpl. rewrite !fmap_app. simpl. split_and!.
      - apply StronglySorted_snoc; [done|]. intros y (rc' & -> & Hrc')%list_elem_of_fmap. by apply Hnew.
      - apply NoDup_app. split_and!; [done| |apply NoDup_singleton].
        intros y (rc' & -> & Hrc')%list_elem_of_fmap Hy%list_elem_of_singleton. by destruct (Hnew rc' Hrc').
      - intros rc [Hrc | ->%list_elem_of_singleton]%elem_of_app; simpl; [specialize (Ho3 rc Hrc)|]; lia.
      - lia. }
    destruct He as [He|[[-> [m ->]]|[-> [m ->]]]]; simplify_eq; simpl.
    + split_and!; try done. right. eexists. split; [done|]. simpl. split_and!; try done. by intros; simplify_eq.
    + split_and!; try done. right. eexists. split; [done|]. simpl. split_and!; done.
    + split_and!; try done. by left.
Qed.

#[global] Instance DB_laws : PersistenceLaws DB.
Proof.
  split; simpl.
  - intros db id typ data next db' r Hok. unfold SaveObject.
    do 2 (case_bool_decide; [intros [= <- <-]; split_and!; try done; by right|]).
    intros (fs & He)%exec_cases. simpl in He.
    assert (forall t, db_ok (mkDB t (tbl_calls db) (seq_next db) fs)) as Hok0
      by (intros; eapply db_ok_calls; [exact Hok|done|simpl; lia]).
    destruct He as [He|[[-> [m ->]]|[-> [m ->]]]]; simplify_eq; simpl; (split; [apply Hok0|]);
      (split; [done|]); (split; [by intros; rewrite ?lookup_insert_ne|]); rewrite ?lookup_insert_eq; simpl; eauto.
  - intros db id db' r Hok. unfold LoadObject.
    case_bool_decide; [intros [= <- <-]; split_and!; try done|].
    intros (fs & He)%exec_cases. simpl in He.
    assert (db_ok (mkDB (tbl_objects db) (tbl_calls db) (seq_next db) fs)) as Hok0
      by (eapply db_ok_calls; [exact Hok|done|simpl; lia]).
    destruct He as [He|[[-> [m ->]]|[-> [m ->]]]]; simplify_eq; simpl; split_and!; try done; by intros; simplify_eq.
  - intros db id db' r Hok. unfold DeleteObject.
    case_bool_decide; [intros [= <- <-]; split_and!; try done; by right|].
    intros (fs & He)%exec_cases. simpl in He.
    assert (forall t, db_ok (mkDB t (tbl_calls db) (seq_next db) fs)) as Hok0
      by (intros; eapply db_ok_calls; [exact Hok|done|simpl; lia]).
    destruct (tbl_objects db !! id) as [row|] eqn:Hl;
    destruct He as [He|[[-> [m ->]]|[-> [m ->]]]]; simplify_eq; simpl; (split; [apply Hok0|]);
      (split; [done|]); (split; [by intros; rewrite ?lookup_delete_ne|]); rewrite ?lookup_delete_eq, ?Hl; simpl; eauto.
  - intros db rid oid otype meth req db' r Hok Hi.
    destruct (insert_ok db rid oid otype meth req db' r Hok Hi) as (H1 & H2 & H3). rewrite H2. auto.
  - intros db seq status rd msg db' r Hok. unfold UpdateReliableCallStatus.
    do 2 (case_match; [intros [= <- <-]; split_and!; try done; by right|]).
    intros (fs & He)%exec_cases. simpl in He.
    assert (db_ok (mkDB (tbl_objects db) (tbl_calls db) (seq_next db) fs)) as Hok0
      by (eapply db_ok_calls; [exact Hok|done|simpl; lia]).
    assert (db_ok (set_calls (mkDB (tbl_objects db) (tbl_calls db) (seq_next db) fs)
      (update_call seq status rd msg (tbl_calls db)) (seq_next db))) as Hok1.
    { destruct Hok as (Ho1 & Ho2 & Ho3 & Ho4). unfold db_ok. simpl. rewrite update_call_seqs, update_call_ids.
      split_and!; try done. intros rc Hrc.
      assert (Seq rc ∈ Seq <$> tbl_calls db) as Hs
        by (rewrite <-(update_call_seqs seq status rd msg); apply list_elem_of_fmap; eauto).
      apply list_elem_of_fmap in Hs as (rc' & -> & Hrc'). by apply Ho3. }
    repeat case_match; destruct He as [He|[[-> [m ->]]|[-> [m ->]]]]; simplify_eq; simpl;
      (split; [done|]); (split; [done|]); eauto.
  - intros db id next db' r Hok. unfold GetPendingReliableCalls.
    case_bool_decide; [intros [= <- <-]; split_and!; try done|].
    intros (fs & He)%exec_cases. simpl in He.
    assert (db_ok (mkDB (tbl_objects db) (tbl_calls db) (seq_next db) fs)) as Hok0
      by (eapply db_ok_calls; [exact Hok|done|simpl; lia]).
    destruct He as [He|[[-> [m ->]]|[-> [m ->]]]]; simplify_eq; simpl; split_and!; try done; intros; simplify_eq.
    by apply pending_sorted.
  - intros db seq db' r Hok. unfold GetReliableCallBySeq.
    case_match; [intros [= <- <-]; split_and!; try done|].
    intros (fs & He)%exec_cases. simpl in He.
    assert (db_ok (mkDB (tbl_objects db) (tbl_calls db) (seq_next db) fs)) as Hok0
      by (eapply db_ok_calls; [exact Hok|done|simpl; lia]).
    destruct He as [He|[[-> [m ->]]|[-> [m ->]]]]; simplify_eq; simpl; split_and!; try done;
      intros rc Hrc; case_match; simplify_eq;
      match goal with H : List.find _ _ = Some _ |- _ => apply find_elem in H as [? ?] end; by breflect.
  - by intros db (? & _).
  - by intros db (_ & ? & _).
Qed.
