(* ===== verification/Object.v ===== *)
(** * Objects and their reliable calls (object/object.go, object/persistence.go, util/protohelper)

    [Module Proto] is util/protohelper over the protobuf runtime, [Module Objects] the [BaseObject]:
    method invocation, the waiters for reliable calls, the processing loop and saving.  User code (the
    methods of an object, its [ToData] and [FromData]) and the protobuf runtime are arguments: a
    [Class] and a [Runtime].  Every function that runs under one of the object's mutexes is atomic; the
    loop is cut into such functions, and its interleavings are in ReliableCalls.v.  A channel is
    a number; sending on it and closing it are the events a function returns. *)

From S2P Require Import Prelude GoStrings Persistence.

(** ** util/protohelper *)

Module Proto.

(** The protobuf runtime: [anypb.New], [UnmarshalNew], and the wire format of an Any *)
Record Runtime (Any Msg : Type) : Type := mkRuntime {
  anyNew : Msg -> result string Any;
  unmarshalNew : Any -> result string Msg;
  marshalAny : Any -> result string string;
  unmarshalAny : string -> result string Any;
  msgType : Msg -> string
}.
Arguments anyNew {Any Msg} _ _.
Arguments unmarshalNew {Any Msg} _ _.
Arguments marshalAny {Any Msg} _ _.
Arguments unmarshalAny {Any Msg} _ _.
Arguments msgType {Any Msg} _ _.

Section Helpers.
Context {Any Msg : Type} (rt : Runtime Any Msg).
Open Scope go_scope.

(** [None] is a nil message, a nil Any or nil bytes *)
Definition MsgToAny (msg : option Msg) : result string (option Any) :=
  match msg with None => Ok None | Some m => a <-? anyNew rt m ;; Ok (Some a) end.

Definition AnyToMsg (anyMsg : option Any) : result string (option Msg) :=
  match anyMsg with None => Ok None | Some a => m <-? unmarshalNew rt a ;; Ok (Some m) end.

Definition BytesToAny (data : option string) : result string (option Any) :=
  if bool_decide (default "" data = "") then Ok None
  else a <-? unmarshalAny rt (default "" data) ;; Ok (Some a).

Definition AnyToBytes (anyMsg : option Any) : result string (option string) :=
  match anyMsg with None => Ok None | Some a => b <-? marshalAny rt a ;; Ok (Some b) end.

Definition MsgToBytes (msg : option Msg) : result string (option string) :=
  a <-? MsgToAny msg ;; AnyToBytes a.

Definition BytesToMsg (data : option string) : result string (option Msg) :=
  a <-? BytesToAny data ;; AnyToMsg a.

End Helpers.
End Proto.
Import Proto.

Module Objects.

(** ** User code *)

(** A method of an object type as reflection sees it, and what it does *)
Record Method (St Msg : Type) : Type := mkMethod {
  numIn : nat;
  in0Context : bool;                     (* In(0) implements context.Context *)
  in1Proto : bool;                       (* In(1) is a concrete proto message pointer *)
  numOut : nat;
  out0Proto : bool;
  out1Error : bool;
  reqType : string;                      (* the message type of In(1) *)
  body : St -> Msg -> St * result string Msg
}.
Arguments numIn {St Msg} _.
Arguments in0Context {St Msg} _.
Arguments in1Proto {St Msg} _.
Arguments numOut {St Msg} _.
Arguments out0Proto {St Msg} _.
Arguments out1Error {St Msg} _.
Arguments reqType {St Msg} _.
Arguments body {St Msg} _ _ _.

Inductive data_error : Type :=
| ErrNotPersistent
| ErrData (msg : string)
| ErrMarshal (msg : string)
| ErrSave (e : db_error).

#[global] Instance data_error_eq_dec : EqDecision data_error.
Proof. solve_decision. Defined.

(** An object type: its methods, its persistent form and the value [reflect.New] makes *)
Record Class (St Msg Data : Type) : Type := mkClass {
  className : string;
  methods : string -> option (Method St Msg);
  zeroSt : St;
  toData : St -> result data_error Data;
  fromData : option Data -> St -> result string St;
  marshal : Data -> result string string;       (* protojson *)
  unmarshal : string -> result string Data
}.
Arguments className {St Msg Data} _.
Arguments methods {St Msg Data} _ _.
Arguments zeroSt {St Msg Data} _.
Arguments toData {St Msg Data} _ _.
Arguments fromData {St Msg Data} _ _ _.
Arguments marshal {St Msg Data} _ _.
Arguments unmarshal {St Msg Data} _ _.

(** The defaults of [BaseObject.ToData] and [BaseObject.FromData] *)
Definition BaseToData {St Data : Type} (st : St) : result data_error Data := Err ErrNotPersistent.
Definition BaseFromData {St Data : Type} (data : option Data) (st : St) : result string St := Ok st.

(** ** BaseObject *)

(** A waiter: the sequence number and the channel *)
Definition seqWaiter : Type := Z * nat.

Record BaseObject (St : Type) : Type := mkObj {
  id : string;
  objType : string;
  st : St;
  nextRcseq : Z;
  processingCalls : bool;
  seqWaiters : list seqWaiter;
  ctxDone : bool                          (* the lifetime context is cancelled *)
}.
Arguments id {St} _.
Arguments objType {St} _.
Arguments st {St} _.
Arguments nextRcseq {St} _.
Arguments processingCalls {St} _.
Arguments seqWaiters {St} _.
Arguments ctxDone {St} _.
Arguments mkObj {St} _ _ _ _ _ _ _.

Inductive chan_event : Type :=
| Sent (ch : nat) (call : ReliableCall)
| Closed (ch : nat).

Section Ops.
Context {St Msg Data Any P : Type} `{PersistenceProvider P}.
Context (rt : Runtime Any Msg) (cls : Class St Msg Data).

Definition set_st (o : BaseObject St) (s : St) : BaseObject St :=
  mkObj (id o) (objType o) s (nextRcseq o) (processingCalls o) (seqWaiters o) (ctxDone o).
Definition set_waiters (o : BaseObject St) (b : bool) (ws : list seqWaiter) : BaseObject St :=
  mkObj (id o) (objType o) (st o) (nextRcseq o) b ws (ctxDone o).

(** [SetNextRcseq] *)
Definition SetNextRcseq (o : BaseObject St) (rcseq : Z) : BaseObject St :=
  mkObj (id o) (objType o) (st o) rcseq (processingCalls o) (seqWaiters o) (ctxDone o).

(** [OnInit]; [fresh] is the generated identifier for an empty one *)
Definition OnInit (objId fresh : string) : BaseObject St :=
  mkObj (if bool_decide (objId = "") then fresh else objId) (className cls) (zeroSt cls) 0 false [] false.

(** [Destroy] *)
Definition Destroy (o : BaseObject St) : BaseObject St :=
  mkObj (id o) (objType o) (st o) (nextRcseq o) (processingCalls o) (seqWaiters o) true.

Inductive invoke_error : Type :=
| ErrMethodNotFound (method : string)
| ErrNumIn (n : nat)
| ErrArgTypes
| ErrNumOut (n : nat)
| ErrReturnTypes
| ErrReqType (expected : string) (got : option string)
| ErrMethod (msg : string).

(** [InvokeMethod]: the new object state and the response *)
Definition InvokeMethod (s : St) (method : string) (request : option Msg) : St * result invoke_error Msg :=
  match methods cls method with
  | None => (s, Err (ErrMethodNotFound method))
  | Some m =>
      if negb (numIn m =? 2)%nat then (s, Err (ErrNumIn (numIn m)))
      else if negb (in0Context m) || negb (in1Proto m) then (s, Err ErrArgTypes)
      else if negb (numOut m =? 2)%nat then (s, Err (ErrNumOut (numOut m)))
      else if negb (out0Proto m) || negb (out1Error m) then (s, Err ErrReturnTypes)
      else match request with
      | None => (s, Err (ErrReqType (reqType m) None))
      | Some req =>
          if bool_decide (msgType rt req <> reqType m)
          then (s, Err (ErrReqType (reqType m) (Some (msgType rt req))))
          else
            let '(s', r) := body m s req in
            (s', match r with Ok resp => Ok resp | Err e => Err (ErrMethod e) end)
      end
  end.

Definition invoke_msg (e : invoke_error) : string :=
  match e with
  | ErrMethodNotFound m => "method not found in class: " +:+ m
  | ErrNumIn _ => "invalid number of arguments"
  | ErrArgTypes => "invalid argument types"
  | ErrNumOut _ => "invalid number of return values"
  | ErrReturnTypes => "invalid return types"
  | ErrReqType _ _ => "request type mismatch"
  | ErrMethod m => m
  end.

(** ** Waiters *)

(** The bubbling loop of [insertWaiterSorted], on the reversed slice *)
Fixpoint bubble (w : seqWaiter) (rev_ws : list seqWaiter) : list seqWaiter :=
  match rev_ws with
  | [] => [w]
  | x :: rest => if (w.1 <? x.1)%Z then x :: bubble w rest else w :: rev_ws
  end.

(** [insertWaiterSorted] *)
Definition insertWaiterSorted (ws : list seqWaiter) (seq : Z) (ch : nat) : list seqWaiter :=
  rev (bubble (seq, ch) (rev ws)).

(** The popping loop of [notifyWaiters]: the channels to close, to notify, and the waiters left *)
Fixpoint popWaiters (seq : Z) (ws : list seqWaiter) : list nat * list nat * list seqWaiter :=
  match ws with
  | [] => ([], [], [])
  | w :: rest =>
      if (w.1 <=? seq)%Z then
        let '(toClose, toNotify, left_) := popWaiters seq rest in
        if (w.1 =? seq)%Z then (toClose, w.2 :: toNotify, left_) else (w.2 :: toClose, toNotify, left_)
      else ([], [], ws)
  end.

(** [notifyWaiters] *)
Definition notifyWaiters (o : BaseObject St) (seq : Z) (call : option ReliableCall)
    : BaseObject St * list chan_event :=
  let '(toClose, toNotify, left_) := popWaiters seq (seqWaiters o) in
  (set_waiters o (processingCalls o) left_,
   (Closed <$> toClose) ++
   mjoin ((fun ch => match call with Some c => [Sent ch c; Closed ch] | None => [Closed ch] end) <$> toNotify)).

(** [ProcessPendingReliableCalls] up to starting the loop: the object, the channel's events and
    whether the caller starts [runProcessingLoop] *)
Definition ProcessPendingReliableCalls (o : BaseObject St) (seq : Z) (ch : nat)
    : BaseObject St * list chan_event * bool :=
  if (seq <? nextRcseq o)%Z then (o, [Closed ch], false)
  else (set_waiters o true (insertWaiterSorted (seqWaiters o) seq ch), [], negb (processingCalls o)).

(** [EnsureProcessingLoopRunning]: whether the caller starts the loop *)
Definition EnsureProcessingLoopRunning (o : BaseObject St) : BaseObject St * bool :=
  if processingCalls o then (o, false) else (set_waiters o true (seqWaiters o), true).

(** [tryExitIfNoWaiters] *)
Definition tryExitIfNoWaiters (o : BaseObject St) : BaseObject St * bool :=
  match seqWaiters o with [] => (set_waiters o false [], true) | _ => (o, false) end.

(** [cleanupProcessingLoop] *)
Definition cleanupProcessingLoop (o : BaseObject St) : BaseObject St * list chan_event :=
  (set_waiters o false [], (fun w => Closed w.2) <$> seqWaiters o).

(** ** Saving and processing *)

(** [saveLocked] *)
Definition saveLocked (p : P) (o : BaseObject St) : P * result data_error unit :=
  match toData cls (st o) with
  | Err e => (p, Err e)
  | Ok data =>
      match marshal cls data with
      | Err m => (p, Err (ErrMarshal m))
      | Ok jsonData =>
          let '(p', r) := pSaveObject p (id o) (objType o) (Some jsonData) (nextRcseq o) in
          (p', match r with Ok _ => Ok tt | Err e => Err (ErrSave e) end)
      end
  end.

(** [Save] *)
Definition Save (p : P) (o : BaseObject St) : P * result data_error unit := saveLocked p o.

(** [ToDataWithSeq] *)
Definition ToDataWithSeq (o : BaseObject St) : result data_error (Data * Z) :=
  match toData cls (st o) with Err e => Err e | Ok d => Ok (d, nextRcseq o) end.

(** The closure [finalize] of [processReliableCall] *)
Definition finalize (p : P) (o : BaseObject St) (call : ReliableCall) (status : string)
    (resultData : option string) (errMsg : string) : P * BaseObject St * ReliableCall :=
  let o' := SetNextRcseq o (int64 (Seq call + 1)) in
  let '(p1, _) := saveLocked p o' in
  let '(p2, _) := pUpdateReliableCallStatus p1 (Seq call) status resultData errMsg in
  (p2, o', set_status call status resultData errMsg).

(** [processReliableCall] *)
Definition processReliableCall (p : P) (o : BaseObject St) (call : ReliableCall)
    : P * BaseObject St * ReliableCall :=
  match BytesToMsg rt (Some (RequestData call)) with
  | Err e => finalize p o call "skipped" None e
  | Ok requestMsg =>
      let '(s', r) := InvokeMethod (st o) (MethodName call) requestMsg in
      let o' := set_st o s' in
      match r with
      | Err e => finalize p o' call "failed" None (invoke_msg e)
      | Ok result =>
          let resultData := match MsgToBytes rt (Some result) with Ok b => b | Err _ => None end in
          finalize p o' call "success" resultData ""
      end
  end.

(** The inner loop of [runProcessingLoop] over the fetched calls; the boolean is whether the loop was
    left by the shutdown check *)
Fixpoint processCalls (p : P) (o : BaseObject St) (cs : list ReliableCall) (evs : list chan_event)
    : P * BaseObject St * list chan_event * bool :=
  match cs with
  | [] => (p, o, evs, false)
  | call :: rest =>
      if ctxDone o then (p, o, evs, true)
      else
        let '(p1, o1, call') := processReliableCall p o call in
        let '(o2, e) := notifyWaiters o1 (Seq call) (Some call') in
        processCalls p1 o2 rest (evs ++ e)
  end.

(** [runProcessingLoop] when nothing else touches the object; [None] when the fuel runs out *)
Fixpoint runProcessingLoop (fuel : nat) (p : P) (o : BaseObject St) (evs : list chan_event)
    : option (P * BaseObject St * list chan_event) :=
  let finish (p : P) (o : BaseObject St) (evs : list chan_event) :=
    let '(o', e) := cleanupProcessingLoop o in Some (p, o', evs ++ e) in
  match fuel with
  | O => None
  | S fuel' =>
      if ctxDone o then finish p o evs
      else
        let '(o1, e1) := notifyWaiters o (int64 (nextRcseq o - 1)) None in
        let '(p1, r) := pGetPendingReliableCalls p (id o1) (nextRcseq o1) in
        match r with
        | Ok ((_ :: _) as pendingCalls) =>
            let '(p2, o2, evs2, stopped) := processCalls p1 o1 pendingCalls (evs ++ e1) in
            if stopped then finish p2 o2 evs2 else runProcessingLoop fuel' p2 o2 evs2
        | _ =>                             (* an error with the context done was excluded above *)
            let '(o2, exit) := tryExitIfNoWaiters o1 in
            if exit then finish p1 o2 (evs ++ e1) else runProcessingLoop fuel' p1 o2 (evs ++ e1)
        end
  end.

(** [LoadObject] of object/persistence.go: the message, its nextRcseq; [Err None] is ErrObjectNotFound *)
Definition LoadObject (p : P) (objectID : string) : P * result (option string) (Data * Z) :=
  let '(p', r) := pLoadObject p objectID in
  (p', match r with
       | Err _ => Err (Some "failed to load object data")
       | Ok None => Err None
       | Ok (Some (jsonData, nextRcseq)) =>
           match unmarshal cls jsonData with
           | Err m => Err (Some m)
           | Ok d => Ok (d, nextRcseq)
           end
       end).

(** The data part of [createObject] (node/node.go): initialise, load and restore; [Err] is an error
    creation returns.  [hasProvider] is whether a persistence provider is configured. *)
Definition restoreObject (hasProvider : bool) (p : P) (objId : string)
    : P * result string (BaseObject St) :=
  let obj := OnInit objId "" in
  let restore (p : P) (obj : BaseObject St) (data : option Data) :=
    match fromData cls data (st obj) with
    | Err m => (p, Err m)
    | Ok s => (p, Ok (set_st obj s))
    end in
  if hasProvider then
    match toData cls (st obj) with
    | Ok _ =>
        let '(p', r) := LoadObject p objId in
        match r with
        | Ok (d, n) => restore p' (SetNextRcseq obj n) (Some d)
        | Err None => restore p' (SetNextRcseq obj 0) None
        | Err (Some m) => (p', Err m)
        end
    | Err ErrNotPersistent => restore p (SetNextRcseq obj 0) None
    | Err _ => restore p obj None
    end
  else restore p obj None.

End Ops.
End Objects.
Import Objects.

(** ** Lemmas: waiters *)

Definition waiter_le (a b : seqWaiter) : Prop := (a.1 <= b.1)%Z.

Definition sorted_waiters (ws : list seqWaiter) : Prop := StronglySorted waiter_le ws.

Lemma bubble_split w rws :
  exists l1 l2, rws = l1 ++ l2 /\ bubble w rws = l1 ++ w :: l2 /\
    Forall (fun x => (w.1 < x.1)%Z) l1 /\ match l2 with [] => True | x :: _ => (x.1 <= w.1)%Z end.
Proof.
  induction rws as [|x rws (l1 & l2 & -> & Hb & HF & Hh)]; simpl; [by exists [], []|].
  destruct (w.1 <? x.1)%Z eqn:E; breflect.
  - exists (x :: l1), l2. rewrite Hb. split_and!; try done. by constructor.
  - exists [], (x :: l1 ++ l2). split_and!; try done.
Qed.

(** Inserting puts the waiter before the strictly larger ones and after all others. *)
Lemma insertWaiterSorted_split ws seq ch :
  sorted_waiters ws ->
  exists l1 l2, ws = l1 ++ l2 /\ insertWaiterSorted ws seq ch = l1 ++ (seq, ch) :: l2 /\
    Forall (fun x => (x.1 <= seq)%Z) l1 /\ Forall (fun x => (seq < x.1)%Z) l2.
Proof.
  intros Hs. unfold insertWaiterSorted.
  destruct (bubble_split (seq, ch) (rev ws)) as (l1 & l2 & Hr & -> & HF & Hh).
  exists (rev l2), (rev l1). assert (ws = rev l2 ++ rev l1) as Heq by (by rewrite <-rev_app_distr, <-Hr, rev_involutive).
  split; [done|]. split; [by rewrite rev_app_distr; simpl; rewrite <-app_assoc|].
  split; [|by apply Forall_rev].
  destruct l2 as [|x l2]; [constructor|]. simpl in *. rewrite Heq in Hs. unfold sorted_waiters in Hs.
  rewrite <-app_assoc in Hs. simpl in Hs.
  clear -Hs Hh. apply Forall_app. split; [|by repeat constructor].
  apply Forall_forall. intros y Hy. apply list_elem_of_split in Hy as (a & b & Hy). rewrite Hy in Hs.
  rewrite <-app_assoc in Hs. simpl in Hs. clear Hy. induction a as [|z a IH]; simpl in Hs.
  - apply StronglySorted_inv in Hs as [_ HF]. rewrite Forall_forall in HF.
    specialize (HF x). unfold waiter_le in HF. specialize (HF ltac:(set_solver)). lia.
  - apply StronglySorted_inv in Hs as [Hs _]. auto.
Qed.

Lemma sorted_waiters_app l1 l2 :
  sorted_waiters (l1 ++ l2) <-> sorted_waiters l1 /\ sorted_waiters l2 /\
    (forall x y, x ∈ l1 -> y ∈ l2 -> waiter_le x y).
Proof.
  unfold sorted_waiters. induction l1 as [|x l1 IH]; simpl.
  { split; [intros; split_and!; try done; [constructor|set_solver]|naive_solver]. }
  split.
  - intros [Hs HF]%StronglySorted_inv. apply IH in Hs as (H1 & H2 & H3). apply Forall_app in HF as [HF1 HF2].
    split_and!; [by constructor|done|]. rewrite Forall_forall in HF2.
    intros a b [->|Ha]%elem_of_cons Hb; [by apply HF2|by apply H3].
  - intros ([Hs HF]%StronglySorted_inv & H2 & H3). constructor.
    + apply IH. split_and!; try done. intros a b Ha Hb. apply H3; [by right|done].
    + apply Forall_app. split; [done|]. apply Forall_forall. intros b Hb. apply H3; [by left|done].
Qed.

Lemma insertWaiterSorted_sorted ws seq ch :
  sorted_waiters ws -> sorted_waiters (insertWaiterSorted ws seq ch) /\ insertWaiterSorted ws seq ch ≡ₚ (seq, ch) :: ws.
Proof.
  intros Hs. destruct (insertWaiterSorted_split ws seq ch Hs) as (l1 & l2 & -> & -> & HF1 & HF2).
  split; [|by rewrite Permutation_middle].
  apply sorted_waiters_app in Hs as (H1 & H2 & H3). rewrite Forall_forall in HF1. rewrite Forall_forall in HF2.
  apply sorted_waiters_app. split_and!; [done| |].
  - constructor; [done|]. apply Forall_forall. intros x Hx. unfold waiter_le. simpl. specialize (HF2 x Hx). simpl in HF2. lia.
  - intros x y Hx [->|Hy]%elem_of_cons; [by apply HF1|by apply H3].
Qed.

(** On sorted waiters, popping is filtering. *)
Lemma popWaiters_spec seq ws toClose toNotify left_ :
  sorted_waiters ws -> popWaiters seq ws = (toClose, toNotify, left_) ->
  toClose = snd <$> filter (fun w => w.1 < seq)%Z ws /\
  toNotify = snd <$> filter (fun w => w.1 = seq) ws /\
  left_ = filter (fun w => seq < w.1)%Z ws.
Proof.
  revert toClose toNotify left_. induction ws as [|w ws IH]; simpl; intros c n l Hs Hp; [by simplify_eq|].
  apply StronglySorted_inv in Hs as [Hs HF].
  destruct (w.1 <=? seq)%Z eqn:E; breflect.
  - destruct (popWaiters seq ws) as [[c' n'] l'] eqn:Hp'. destruct (IH c' n' l' Hs eq_refl) as (Hc & Hn & Hl).
    rewrite !filter_cons. rewrite (decide_False (P := (seq < w.1)%Z)) by lia.
    destruct (w.1 =? seq)%Z eqn:E2; breflect; simplify_eq.
    + rewrite (decide_False (P := (w.1 < w.1)%Z)), (decide_True (P := w.1 = w.1)) by (lia || done). done.
    + rewrite (decide_True (P := (w.1 < seq)%Z)), (decide_False (P := w.1 = seq)) by lia. done.
  - simplify_eq. rewrite Forall_forall in HF.
    assert (forall x, x ∈ w :: ws -> (seq < x.1)%Z) as Hall.
    { intros x [->|Hx]%elem_of_cons; [done|]. specialize (HF x Hx). unfold waiter_le in HF. lia. }
    clear IH Hs HF E. generalize dependent (w :: ws). intros l Hall.
    induction l as [|x l IH]; [done|]. pose proof (Hall x ltac:(by left)).
    destruct IH as (H1 & H2 & H3); [intros; apply Hall; by right|].
    rewrite !filter_cons. rewrite (decide_False (P := (x.1 < seq)%Z)), (decide_False (P := x.1 = seq)),
      (decide_True (P := (seq < x.1)%Z)) by lia. split_and!; [done|done|]. f_equal. exact H3.
Qed.
