(* ===== verification/ReliableCalls.v ===== *)
(** * Reliable calls of one object: interleavings, crashes and database failures

    A transition system of one object, its processing goroutines, its waiters and the persistence
    provider.  The steps are the atomic pieces of Object.v: inserting a call, registering a waiter,
    the pieces of [runProcessingLoop], saving, a crash that loses the object and its goroutines, and
    the activation that restores it.  Database operations fail as the provider says, in any step.

    A goroutine that has decided to exit still has to run its deferred [cleanupProcessingLoop]; a run is
    [calm] when no call arrives in that window. *)

From S2P Require Import Prelude GoStrings Persistence Object.
Import Proto Objects.

(** Where a goroutine running [runProcessingLoop] is *)
Inductive phase : Type :=
| Top                                              (* at the shutdown check of an iteration *)
| Fetch                                            (* about to fetch pending calls *)
| Run (l : list ReliableCall)                      (* in the inner loop, [l] left *)
| Notify (c : ReliableCall) (l : list ReliableCall) (* [c] processed, about to notify *)
| Exit                                             (* about to call tryExitIfNoWaiters *)
| Cleanup.                                         (* returned, deferred cleanup to run *)

Section System.
Context {St Msg Data Any P : Type} `{PersistenceLaws P}.
Context (rt : Runtime Any Msg) (cls : Class St Msg Data) (oid : string).

Record world : Type := mkW {
  wp : P;
  wobj : option (BaseObject St);
  loops : list phase;
  chans : list chan_event
}.

(** The channel is new. *)
Definition fresh (w : world) (o : BaseObject St) (ch : nat) : Prop :=
  Closed ch ∉ chans w /\ ch ∉ (snd <$> seqWaiters o).

(** The sequence has not reached the last 64-bit value. *)
Definition seqs_ok (p : P) : Prop := forall rc, rc ∈ calls p -> (0 <= Seq rc < 2 ^ 63 - 1)%Z.

(** Where a goroutine goes with what it fetched *)
Definition after_fetch (o : BaseObject St) (r : result db_error (list ReliableCall)) : phase :=
  match r with
  | Err _ => if ctxDone o then Cleanup else Exit
  | Ok [] => Exit
  | Ok l => Run l
  end.

Inductive step (calm : bool) (w : world) : world -> Prop :=
| S_insert rid obj typ meth req p' r :
    pInsertOrGetReliableCall (wp w) rid obj typ meth req = (p', r) -> seqs_ok p' ->
    step calm w (mkW p' (wobj w) (loops w) (chans w))
| S_call o seq ch o' evs start :
    wobj w = Some o -> fresh w o ch -> (calm = true -> Cleanup ∉ loops w) ->
    ProcessPendingReliableCalls o seq ch = (o', evs, start) ->
    step calm w (mkW (wp w) (Some o') (if start then Top :: loops w else loops w) (chans w ++ evs))
| S_ensure o o' start :
    wobj w = Some o -> (calm = true -> Cleanup ∉ loops w) -> EnsureProcessingLoopRunning o = (o', start) ->
    step calm w (mkW (wp w) (Some o') (if start then Top :: loops w else loops w) (chans w))
| S_top o o' evs l1 l2 :
    wobj w = Some o -> loops w = l1 ++ Top :: l2 -> ctxDone o = false ->
    notifyWaiters o (int64 (nextRcseq o - 1)) None = (o', evs) ->
    step calm w (mkW (wp w) (Some o') (l1 ++ Fetch :: l2) (chans w ++ evs))
| S_shutdown o l1 ph l2 :
    wobj w = Some o -> loops w = l1 ++ ph :: l2 -> ctxDone o = true ->
    match ph with Top | Run (_ :: _) => True | _ => False end ->
    step calm w (mkW (wp w) (Some o) (l1 ++ Cleanup :: l2) (chans w))
| S_fetch o p' r l1 l2 :
    wobj w = Some o -> loops w = l1 ++ Fetch :: l2 ->
    pGetPendingReliableCalls (wp w) (id o) (nextRcseq o) = (p', r) ->
    step calm w (mkW p' (Some o)
      (l1 ++ after_fetch o r :: l2) (chans w))
| S_process o c rest p' o' c' l1 l2 :
    wobj w = Some o -> loops w = l1 ++ Run (c :: rest) :: l2 -> ctxDone o = false ->
    processReliableCall rt cls (wp w) o c = (p', o', c') ->
    step calm w (mkW p' (Some o') (l1 ++ Notify c' rest :: l2) (chans w))
| S_notify o o' evs c rest l1 l2 :
    wobj w = Some o -> loops w = l1 ++ Notify c rest :: l2 ->
    notifyWaiters o (Seq c) (Some c) = (o', evs) ->
    step calm w (mkW (wp w) (Some o') (l1 ++ Run rest :: l2) (chans w ++ evs))
| S_again l1 l2 :
    loops w = l1 ++ Run [] :: l2 -> step calm w (mkW (wp w) (wobj w) (l1 ++ Top :: l2) (chans w))
| S_exit o o' b l1 l2 :
    wobj w = Some o -> loops w = l1 ++ Exit :: l2 -> tryExitIfNoWaiters o = (o', b) ->
    step calm w (mkW (wp w) (Some o') (l1 ++ (if b then Cleanup else Top) :: l2) (chans w))
| S_cleanup o o' evs l1 l2 :
    wobj w = Some o -> loops w = l1 ++ Cleanup :: l2 -> cleanupProcessingLoop o = (o', evs) ->
    step calm w (mkW (wp w) (Some o') (l1 ++ l2) (chans w ++ evs))
| S_save o p' r :
    wobj w = Some o -> Save cls (wp w) o = (p', r) -> step calm w (mkW p' (Some o) (loops w) (chans w))
| S_destroy o :
    wobj w = Some o -> step calm w (mkW (wp w) (Some (Destroy o)) (loops w) (chans w))
| S_crash : step calm w (mkW (wp w) None [] (chans w))
| S_activate p' o :
    wobj w = None -> restoreObject cls true (wp w) oid = (p', Ok o) ->
    step calm w (mkW p' (Some o) [] (chans w)).

Definition init (w : world) : Prop :=
  provider_ok (wp w) /\ seqs_ok (wp w) /\ saved (wp w) oid = None /\ oid <> "" /\
  wobj w = None /\ loops w = [] /\ chans w = [].

Definition reachable (calm : bool) (w : world) : Prop := exists w0, init w0 /\ rtc (step calm) w0 w.

(** ** What a reliable call does to the object's state *)

(** A call as the object executes it: sequence number, method, request *)
Definition call_key (c : ReliableCall) : Z * string * string := (Seq c, MethodName c, RequestData c).

Definition effect (s : St) (k : Z * string * string) : St :=
  match BytesToMsg rt (Some k.2) with
  | Err _ => s
  | Ok req => fst (InvokeMethod rt cls s k.1.2 req)
  end.

Definition run (s0 : St) (ks : list (Z * string * string)) : St := fold_left effect ks s0.

(** The calls [ks], each once, in sequence order, all below [next], all in the table. *)
Definition once (p : P) (next : Z) (ks : list (Z * string * string)) : Prop :=
  StronglySorted Z.lt ((fun k => k.1.1) <$> ks) /\ (forall k, k ∈ ks -> (k.1.1 < next)%Z) /\
  (forall k, k ∈ ks -> k ∈ call_key <$> calls p).

(** ** Lemmas *)

Lemma once_mono p p' next next' ks :
  (forall k, k ∈ call_key <$> calls p -> k ∈ call_key <$> calls p') -> (next <= next')%Z ->
  once p next ks -> once p' next' ks.
Proof. intros Hk Hn (H1 & H2 & H3). split_and!; [done| |auto]. intros k Hin. specialize (H2 k Hin). lia. Qed.

Lemma once_snoc p next next' ks c :
  once p next ks -> (next <= Seq c)%Z -> (Seq c < next')%Z -> call_key c ∈ call_key <$> calls p ->
  once p next' (ks ++ [call_key c]).
Proof.
  intros (H1 & H2 & H3) Hn Hn' Hc. split_and!.
  - rewrite fmap_app. apply StronglySorted_snoc; [done|].
    intros y (k & -> & Hk)%list_elem_of_fmap. specialize (H2 k Hk). simpl. lia.
  - intros k [Hk | ->%list_elem_of_singleton]%elem_of_app; [specialize (H2 k Hk); lia|simpl; lia].
  - intros k [Hk | ->%list_elem_of_singleton]%elem_of_app; auto.
Qed.

Lemma run_snoc s0 ks k : run s0 (ks ++ [k]) = effect (run s0 ks) k.
Proof. unfold run. by rewrite fold_left_app. Qed.

Lemma update_call_keys seq st rd msg cs : call_key <$> update_call seq st rd msg cs = call_key <$> cs.
Proof. unfold update_call. rewrite <-list_fmap_compose. apply list_fmap_ext. intros ? rc ?. simpl. by case_match. Qed.

(** What one processed call does to the object and to the provider. *)
Lemma process_spec p o c p' o' c' :
  provider_ok p -> processReliableCall rt cls p o c = (p', o', c') ->
  o' = SetNextRcseq (set_st o (effect (st o) (call_key c))) (int64 (Seq c + 1)) /\ Seq c' = Seq c /\
  provider_ok p' /\ call_key <$> calls p' = call_key <$> calls p /\ (Seq <$> calls p' = Seq <$> calls p) /\
  (saved p' (id o) = saved p (id o) \/
   exists d j, toData cls (st o') = Ok d /\ marshal cls d = Ok j /\ saved p' (id o) = Some (j, nextRcseq o')).
Proof.
  intros Hok.
  assert (forall o0 status rd msg, finalize cls p o0 c status rd msg = (p', o', c') ->
    id o0 = id o -> o' = SetNextRcseq o0 (int64 (Seq c + 1)) /\ Seq c' = Seq c /\
    provider_ok p' /\ call_key <$> calls p' = call_key <$> calls p /\ (Seq <$> calls p' = Seq <$> calls p) /\
    (saved p' (id o) = saved p (id o) \/
     exists d j, toData cls (st o') = Ok d /\ marshal cls d = Ok j /\ saved p' (id o) = Some (j, nextRcseq o'))) as Hfin.
  { intros o0 status rd msg Hf Hid. unfold finalize in Hf.
    destruct (saveLocked cls p _) as [p1 r1] eqn:Hs. destruct (pUpdateReliableCallStatus p1 _ _ _ _) as [p2 r2] eqn:Hu.
    simplify_eq. split; [done|]. split; [done|].
    assert (provider_ok p1 /\ calls p1 = calls p /\ (saved p1 (id o) = saved p (id o) \/
       exists d j, toData cls (st o0) = Ok d /\ marshal cls d = Ok j /\
         saved p1 (id o) = Some (j, int64 (Seq c + 1)))) as (Hok1 & Hc1 & Hs1).
    { unfold saveLocked in Hs. simpl in Hs. destruct (toData cls (st o0)) as [d|] eqn:Ed; [|simplify_eq; auto].
      destruct (marshal cls d) as [j|] eqn:Ej; [|simplify_eq; auto].
      destruct (pSaveObject p _ _ _ _) as [p1' r1'] eqn:Hsv. simplify_eq.
      destruct (law_save _ _ _ _ _ _ _ Hok Hsv) as (? & ? & _ & Hcase). rewrite Hid in Hcase.
      destruct Hcase as [Hcase|[Hcase _]]; eauto 10. }
    destruct (law_update _ _ _ _ _ _ _ Hok1 Hu) as (Hok2 & Hs2 & Hcase). rewrite Hs2.
    split; [done|]. rewrite <-Hc1. split_and!; [| |done].
    - destruct Hcase as [->|[-> _]]; [apply update_call_keys|done].
    - destruct Hcase as [->|[-> _]]; [apply update_call_seqs|done]. }
  unfold processReliableCall, effect. simpl. intros Hp.
  destruct (BytesToMsg rt (Some (RequestData c))) as [req|e] eqn:Hb.
  - destruct (InvokeMethod rt cls (st o) (MethodName c) req) as [s' r]. simpl.
    destruct r; by eapply Hfin in Hp.
  - eapply Hfin in Hp; [|done]. by destruct o.
Qed.

(** ** The invariant of calm runs *)

Context (s0 : St).
Hypothesis fresh_state : fromData cls None (zeroSt cls) = Ok s0.
Hypothesis restore_roundtrip : forall s d j, toData cls s = Ok d -> marshal cls d = Ok j ->
  exists d', unmarshal cls j = Ok d' /\ fromData cls (Some d') (zeroSt cls) = Ok s.

(** Fetched calls: in order, not yet executed, in the table. *)
Definition work_ok (p : P) (next : Z) (l : list ReliableCall) : Prop :=
  StronglySorted Z.lt (Seq <$> l) /\
  forall c, c ∈ l -> (next <= Seq c < 2 ^ 63 - 1)%Z /\ call_key c ∈ call_key <$> calls p.

Definition phase_ok (p : P) (o : BaseObject St) (ph : phase) : Prop :=
  (ph <> Cleanup -> processingCalls o = true) /\
  match ph with Run l | Notify _ l => work_ok p (nextRcseq o) l | _ => True end.

Record cinv (w : world) : Prop := {
  cinv_ok : provider_ok (wp w);
  cinv_seqs : seqs_ok (wp w);
  cinv_saved : forall j n, saved (wp w) oid = Some (j, n) -> (0 <= n < 2 ^ 63)%Z /\
    exists ks d, once (wp w) n ks /\ toData cls (run s0 ks) = Ok d /\ marshal cls d = Ok j;
  cinv_live : forall o, wobj w = Some o -> id o = oid /\ (0 <= nextRcseq o < 2 ^ 63)%Z /\
    exists ks, once (wp w) (nextRcseq o) ks /\ st o = run s0 ks;
  cinv_loops : loops w = [] \/ exists ph o, loops w = [ph] /\ wobj w = Some o /\ phase_ok (wp w) o ph
}.

(** In a calm run a step of a loop is a step of the only loop. *)
Lemma cinv_one w l1 ph l2 o :
  cinv w -> wobj w = Some o -> loops w = l1 ++ ph :: l2 -> l1 = [] /\ l2 = [] /\ phase_ok (wp w) o ph.
Proof.
  intros Hinv Ho Hl. destruct (cinv_loops w Hinv) as [He|(ph' & o' & He & Ho' & Hph)].
  - rewrite He in Hl. by destruct l1.
  - assert (o' = o) as -> by congruence. rewrite He in Hl.
    destruct l1 as [|x l1]; simpl in Hl; [by injection Hl as -> <-|]. injection Hl as _ Hl. by destruct l1.
Qed.

(** The provider changed, the calls grew, and nothing else moved. *)
Lemma cinv_provider w p' :
  cinv w -> provider_ok p' -> seqs_ok p' -> saved p' oid = saved (wp w) oid ->
  (forall k, k ∈ call_key <$> calls (wp w) -> k ∈ call_key <$> calls p') ->
  cinv (mkW p' (wobj w) (loops w) (chans w)).
Proof.
  intros [] Hok Hseq Hs Hk. split; cbn [wp wobj loops chans]; [done|done| | |].
  - intros j n Hsv. rewrite Hs in Hsv. destruct (cinv_saved0 j n Hsv) as (? & ks & d & Ho & ? & ?).
    split; [done|]. exists ks, d. split_and!; try done. by eapply once_mono.
  - intros o Ho. destruct (cinv_live0 o Ho) as (? & ? & ks & Hon & ?). split; [done|]. split; [done|].
    exists ks. split; [|done]. by eapply once_mono.
  - destruct cinv_loops0 as [|(ph & o & Hl & Ho & Hp & Hw)]; [by left|]. right. exists ph, o.
    split; [done|]. split; [done|]. split; [done|].
    destruct ph; try done; destruct Hw as [Hw1 Hw2]; (split; [done|]); intros c' Hc'; destruct (Hw2 c' Hc'); auto.
Qed.

(** The object changed in what the invariant does not see, and the loops with it. *)
Lemma cinv_object w o o' ls ch :
  cinv w -> wobj w = Some o -> id o' = id o -> nextRcseq o' = nextRcseq o -> st o' = st o ->
  (ls = [] \/ exists ph, ls = [ph] /\ phase_ok (wp w) o' ph) ->
  cinv (mkW (wp w) (Some o') ls ch).
Proof.
  intros [] Ho Hi Hn Hs Hl. split; cbn [wp wobj loops chans]; [done|done|done| |].
  - intros o1 [= <-]. rewrite Hi, Hn, Hs. by apply cinv_live0.
  - destruct Hl as [->|(ph & -> & Hph)]; [by left|right; eauto].
Qed.

Lemma int64_seq z : (0 <= z < 2 ^ 63 - 1)%Z -> int64 (z + 1) = (z + 1)%Z.
Proof. intros. apply int64_id. unfold in_int64. lia. Qed.

Lemma notify_frame (o : BaseObject St) seq c o' evs :
  notifyWaiters o seq c = (o', evs) ->
  id o' = id o /\ nextRcseq o' = nextRcseq o /\ st o' = st o /\ processingCalls o' = processingCalls o.
Proof. unfold notifyWaiters. destruct (popWaiters _ _) as [[??]?]. by intros [= <- <-]. Qed.

Lemma work_ok_object p (o o' : BaseObject St) l : nextRcseq o' = nextRcseq o -> work_ok p (nextRcseq o) l -> work_ok p (nextRcseq o') l.
Proof. by intros ->. Qed.

(** A fetched list is work to do. *)
Lemma pending_work p i next : provider_ok p -> seqs_ok p -> work_ok p next (pending_of i next (calls p)).
Proof.
  intros Hok Hs. pose proof (law_sorted p Hok) as Hsort. split.
  - clear Hs. induction (calls p) as [|c cs IH]; [constructor|]. cbn [fmap list_fmap pending_of List.filter] in *.
    apply StronglySorted_inv in Hsort as [Hsort HF]. fold (pending_of i next cs).
    destruct (_ && _); [|by apply IH]. cbn [fmap list_fmap]. constructor; [by apply IH|].
    rewrite Forall_forall in HF. apply Forall_forall. intros z (c' & -> & Hc')%list_elem_of_fmap.
    apply elem_of_pending in Hc' as [Hc' _]. apply HF, list_elem_of_fmap. eauto.
  - intros c (Hc & _ & Hn & _)%elem_of_pending. specialize (Hs c Hc).
    split; [lia|]. apply list_elem_of_fmap. eauto.
Qed.

Lemma cinv_process w o c rest p' o' c' :
  cinv w -> wobj w = Some o -> loops w = [Run (c :: rest)] ->
  processReliableCall rt cls (wp w) o c = (p', o', c') ->
  cinv (mkW p' (Some o') [Notify c' rest] (chans w)).
Proof.
  intros Hinv Ho Hl Hp. destruct (cinv_one w [] _ [] o Hinv Ho Hl) as (_ & _ & Hpc & Hw1 & Hw2). pose proof Hinv as [].
  destruct (process_spec _ _ _ _ _ _ cinv_ok0 Hp) as (Ho' & _ & Hok' & Hk & Hsq & Hsv).
  destruct (cinv_live0 o Ho) as (Hid & Hn & ks & Hon & Hst).
  destruct (Hw2 c ltac:(by left)) as [Hc Hck]. cbn [fmap list_fmap] in Hw1.
  apply StronglySorted_inv in Hw1 as [Hw1 HF]. rewrite Forall_forall in HF.
  assert (nextRcseq o' = (Seq c + 1)%Z) as Hn' by (rewrite Ho'; simpl; apply int64_seq; lia).
  assert (st o' = run s0 (ks ++ [call_key c])) as Hst' by (rewrite Ho', run_snoc, <-Hst; done).
  assert (once p' (Seq c + 1) (ks ++ [call_key c])) as Hon'.
  { eapply (once_mono (wp w)); [by rewrite Hk|reflexivity|]. eapply once_snoc; [done|lia|lia|done]. }
  split; cbn [wp wobj loops chans]; [done| | | |].
  - intros rc Hrc. assert (Seq rc ∈ Seq <$> calls (wp w)) as Hin by (rewrite <-Hsq; apply list_elem_of_fmap; eauto).
    apply list_elem_of_fmap in Hin as (rc' & -> & Hrc'). by apply cinv_seqs0.
  - intros j n Hj. rewrite <-Hid in Hj. destruct Hsv as [Hsv|(d & j' & Hd & Hm & Hsv)]; rewrite Hsv in Hj.
    + rewrite Hid in Hj. destruct (cinv_saved0 j n Hj) as (? & ks' & d & Hon1 & ? & ?). split; [done|].
      exists ks', d. split_and!; try done. eapply once_mono; [|reflexivity|done]. by rewrite Hk.
    + injection Hj as <- <-. rewrite Hn'. split; [lia|]. exists (ks ++ [call_key c]), d. by rewrite <-Hst'.
  - intros o1 [= <-]. rewrite Hn'. split; [by rewrite Ho'|]. split; [lia|]. eauto.
  - right. eexists _, _. split; [done|]. split; [done|]. split; [by rewrite Ho'; simpl; intros _; apply Hpc|].
    split; [done|]. intros x Hx. rewrite Hn', Hk. destruct (Hw2 x ltac:(by right)) as [Hx1 Hx2].
    split; [|done]. specialize (HF (Seq x)). rewrite list_elem_of_fmap in HF. specialize (HF ltac:(eauto)). lia.
Qed.

Lemma cinv_activate w p' o :
  cinv w -> wobj w = None -> oid <> "" -> restoreObject cls true (wp w) oid = (p', Ok o) ->
  cinv (mkW p' (Some o) [] (chans w)).
Proof.
  intros Hinv Ho Hne Hr. pose proof Hinv as []. unfold restoreObject in Hr.
  assert (forall p0 n, provider_ok p0 -> calls p0 = calls (wp w) -> saved p0 oid = saved (wp w) oid ->
    (0 <= n < 2 ^ 63)%Z -> forall ks, once (wp w) n ks ->
    cinv (mkW p0 (Some (set_st (SetNextRcseq (OnInit cls oid "") n) (run s0 ks))) [] (chans w))) as Hnew.
  { intros p0 n Hok0 Hc0 Hs0 Hn ks Hon. unfold once, seqs_ok in *. split; cbn [wp wobj loops chans].
    - done.
    - unfold seqs_ok. by rewrite Hc0.
    - rewrite Hs0. intros j m Hj. destruct (cinv_saved0 j m Hj) as (? & ks' & d & ? & ? & ?).
      split; [done|]. exists ks', d. unfold once. by rewrite Hc0.
    - intros o1 [= <-]. simpl. rewrite bool_decide_false by done. split; [done|]. split; [done|].
      exists ks. unfold once. by rewrite Hc0.
    - by left. }
  assert (forall n, once (wp w) n []) as Hnil by (intros; split_and!; [constructor|set_solver|set_solver]).
  assert (forall ob : BaseObject St, (p', @Ok string _ o) = (wp w, Ok ob) -> ob = set_st (SetNextRcseq (OnInit cls oid "") 0) s0 ->
    cinv (mkW p' (Some o) [] (chans w))) as Hfresh.
  { intros ob [= -> ->] ->. apply (Hnew (wp w) 0%Z) with (ks := []); auto; lia. }
  simpl in Hr. destruct (toData cls (zeroSt cls)) as [d0|[]] eqn:Etd; [|rewrite fresh_state in Hr; symmetry in Hr; by eapply Hfresh..].
  unfold LoadObject in Hr. destruct (pLoadObject (wp w) oid) as [p1 r1] eqn:Hld.
  destruct (law_load _ _ _ _ cinv_ok0 Hld) as (Hok1 & Hc1 & Hs1 & Hv).
  destruct r1 as [[[j n]|]|e]; [| |done].
  - specialize (Hv _ eq_refl). symmetry in Hv. destruct (cinv_saved0 j n Hv) as (Hn & ks & d & Hon & Htd & Hm).
    destruct (restore_roundtrip _ _ _ Htd Hm) as (d' & Hu & Hf). rewrite Hu in Hr. simpl in Hr.
    rewrite Hf in Hr. injection Hr as <- <-. by apply (Hnew p1 n).
  - simpl in Hr. rewrite fresh_state in Hr. injection Hr as <- <-. apply (Hnew p1 0%Z) with (ks := []); auto; lia.
Qed.

Lemma cinv_step w w' : oid <> "" -> cinv w -> step true w w' -> cinv w'.
Proof.
  intros Hne Hinv Hstep. pose proof Hinv as [Hok Hseq Hsv Hlv Hlp].
  destruct Hstep as
    [rid obj typ meth req p' r Hi Hs | o seq ch o' evs start Ho Hf Hcalm Hp | o o' start Ho Hcalm Hp
    |o o' evs l1 l2 Ho Hl Hd Hn | o l1 ph l2 Ho Hl Hd Hph | o p' r l1 l2 Ho Hl Hg
    |o c rest p' o' c' l1 l2 Ho Hl Hd Hp | o o' evs c rest l1 l2 Ho Hl Hn | l1 l2 Hl | o o' b l1 l2 Ho Hl Hx
    |o o' evs l1 l2 Ho Hl Hc | o p' r Ho Hs | o Ho | | p' o Ho Hr].
  - destruct (law_insert _ _ _ _ _ _ _ _ Hok Hi) as (Hok' & Hs' & Hcase). apply cinv_provider; try done.
    intros k Hk. destruct Hcase as [[-> _]|(rc & -> & _)]; [done|]. rewrite fmap_app. set_solver.
  - assert (id o' = id o /\ nextRcseq o' = nextRcseq o /\ st o' = st o /\ (processingCalls o = true -> processingCalls o' = true) /\
      (start = true -> processingCalls o = false /\ processingCalls o' = true)) as (H1 & H2 & H3 & H4 & H5).
    { unfold ProcessPendingReliableCalls in Hp. destruct (seq <? nextRcseq o)%Z; injection Hp as <- <- <-; simpl;
      by destruct (processingCalls o). }
    apply (cinv_object w o); try done. specialize (Hcalm eq_refl).
    destruct Hlp as [Hl0|(ph & o1 & Hl0 & Ho1 & Hpc & Hw)]; rewrite Hl0 in *.
    + destruct start; [|by left]. right. exists Top. split; [done|]. split; [by intros _; apply H5|done].
    + assert (o1 = o) as -> by congruence. assert (ph <> Cleanup) as Hph by set_solver.
      destruct start; [by destruct (H5 eq_refl); rewrite Hpc in *|]. right. exists ph. split; [done|].
      split; [auto|]. destruct ph; by rewrite ?H2.
  - assert (id o' = id o /\ nextRcseq o' = nextRcseq o /\ st o' = st o /\ (processingCalls o = true -> processingCalls o' = true) /\
      (start = true -> processingCalls o = false /\ processingCalls o' = true)) as (H1 & H2 & H3 & H4 & H5).
    { unfold EnsureProcessingLoopRunning in Hp. destruct (processingCalls o) eqn:E; injection Hp as <- <-; by rewrite ?E. }
    apply (cinv_object w o); try done. specialize (Hcalm eq_refl).
    destruct Hlp as [Hl0|(ph & o1 & Hl0 & Ho1 & Hpc & Hw)]; rewrite Hl0 in *.
    + destruct start; [|by left]. right. exists Top. split; [done|]. split; [by intros _; apply H5|done].
    + assert (o1 = o) as -> by congruence. assert (ph <> Cleanup) as Hph by set_solver.
      destruct start; [by destruct (H5 eq_refl); rewrite Hpc in *|]. right. exists ph. split; [done|].
      split; [auto|]. destruct ph; by rewrite ?H2.
  - destruct (cinv_one w l1 Top l2 o Hinv Ho Hl) as (-> & -> & Hpc & _).
    destruct (notify_frame _ _ _ _ _ Hn) as (H1 & H2 & H3 & H4). apply (cinv_object w o); try done.
    right. exists Fetch. split; [done|]. split; [rewrite H4; auto|done].
  - destruct (cinv_one w l1 ph l2 o Hinv Ho Hl) as (-> & -> & _). apply (cinv_object w o); try done.
    right. by exists Cleanup.
  - destruct (cinv_one w l1 Fetch l2 o Hinv Ho Hl) as (-> & -> & Hpc & _).
    destruct (law_pending _ _ _ _ _ Hok Hg) as (Hok' & Hc' & Hs' & Hl').
    assert (cinv (mkW p' (Some o) (loops w) (chans w))) as Hi'.
    { rewrite <-Ho. apply cinv_provider; try done; [unfold seqs_ok; by rewrite Hc'|by rewrite Hc']. }
    apply (cinv_object (mkW p' (Some o) (loops w) (chans w)) o); try done. right. eexists. split; [done|].
    split; [by intros; apply Hpc|]. destruct r as [[|c0 l0]|]; [done| |by simpl; destruct (ctxDone o)]. simpl.
    rewrite (Hl' _ eq_refl), <-Hc'. apply pending_work; [done|]. unfold seqs_ok. by rewrite Hc'.
  - destruct (cinv_one w l1 _ l2 o Hinv Ho Hl) as (-> & -> & _). by eapply cinv_process.
  - destruct (cinv_one w l1 _ l2 o Hinv Ho Hl) as (-> & -> & Hpc & Hw).
    destruct (notify_frame _ _ _ _ _ Hn) as (H1 & H2 & H3 & H4). apply (cinv_object w o); try done.
    right. exists (Run rest). split; [done|]. split; [rewrite H4; auto|]. by rewrite H2.
  - destruct (wobj w) as [o|] eqn:Ho.
    + destruct (cinv_one w l1 _ l2 o Hinv Ho Hl) as (-> & -> & Hpc & _). apply (cinv_object w o); try done.
      right. exists Top. split; [done|]. split; [by intros; apply Hpc|done].
    + destruct Hlp as [Hl0|(ph & o1 & _ & Ho1 & _)]; [|congruence]. rewrite Hl0 in Hl. by destruct l1.
  - destruct (cinv_one w l1 _ l2 o Hinv Ho Hl) as (-> & -> & Hpc & _). unfold tryExitIfNoWaiters in Hx.
    destruct (seqWaiters o); injection Hx as <- <-; apply (cinv_object w o); try done; right; eexists; (split; [done|]);
      [done|]. split; [by intros; apply Hpc|done].
  - destruct (cinv_one w l1 _ l2 o Hinv Ho Hl) as (-> & -> & _). unfold cleanupProcessingLoop in Hc. injection Hc as <- <-.
    apply (cinv_object w o); try done. by left.
  - destruct (Hlv o Ho) as (Hid & Hn & ks & Hon & Hst). unfold Save, saveLocked in Hs.
    destruct (toData cls (st o)) as [d|] eqn:Ed; [|simplify_eq; rewrite <-Ho; by destruct w].
    destruct (marshal cls d) as [j|] eqn:Ej; [|simplify_eq; rewrite <-Ho; by destruct w].
    destruct (pSaveObject (wp w) _ _ _ _) as [p1 r1] eqn:Hsave. simplify_eq.
    destruct (law_save _ _ _ _ _ _ _ Hok Hsave) as (Hok' & Hc' & _ & Hcase).
    rewrite <-Ho. destruct Hcase as [Hcase|[Hcase _]].
    + split; cbn [wp wobj loops chans]; [done|unfold seqs_ok; by rewrite Hc'| | |].
      * rewrite <-Hid. rewrite Hcase. intros j' n' [= <- <-]. split; [done|]. exists ks, d. rewrite <-Hst.
        unfold once. by rewrite Hc'.
      * unfold once. rewrite Hc'. exact Hlv.
      * destruct Hlp as [|(ph & o1 & Hl0 & Ho1 & Hpc & Hw)]; [by left|]. right. exists ph, o1.
        split; [done|]. split; [done|]. split; [done|]. destruct ph; try done; unfold work_ok; by rewrite Hc'.
    + apply cinv_provider; try done; [unfold seqs_ok; by rewrite Hc'|by rewrite <-Hid|by rewrite Hc'].
  - apply (cinv_object w o); try done. destruct Hlp as [|(ph & o1 & Hl0 & Ho1 & Hpc & Hw)]; [by left|]. right.
    exists ph. split; [done|]. assert (o1 = o) as -> by congruence. split; [done|]. by destruct ph.
  - split; cbn [wp wobj loops chans]; try done. by left.
  - by eapply cinv_activate.
Qed.

Lemma reachable_cinv w : reachable true w -> cinv w.
Proof.
  intros (w0 & (Hok & Hs & Hsv & Hne & Ho & Hl & _) & Hsteps).
  assert (cinv w0) as Hinv.
  { split; [done|done| | |by left]; [intros j n|intros o]; congruence. }
  clear -Hne Hinv Hsteps H0 fresh_state restore_roundtrip. induction Hsteps as [|w1 w2 w3 Hstep _ IH]; [done|].
  by apply IH, (cinv_step w1).
Qed.

End System.

(** ** Channels are closed once *)

Section Channels.
Context {St Msg Data Any P : Type} `{PersistenceProvider P}.
Context (rt : Runtime Any Msg) (cls : Class St Msg Data) (oid : string).

Definition closed (evs : list chan_event) : list nat :=
  omap (fun e => match e with Closed ch => Some ch | Sent _ _ => None end) evs.

Definition waiting (w : world (St := St) (P := P)) : list nat :=
  match wobj w with Some o => snd <$> seqWaiters o | None => [] end.

(** The channels closed so far and those of the waiters: all different. *)
Definition chinv (w : world (St := St) (P := P)) : Prop := NoDup (closed (chans w) ++ waiting w).

Lemma closed_app a b : closed (a ++ b) = closed a ++ closed b.
Proof. apply omap_app. Qed.

Lemma elem_of_closed ch evs : ch ∈ closed evs <-> Closed ch ∈ evs.
Proof.
  unfold closed. rewrite list_elem_of_omap. split; [|by exists (Closed ch)].
  intros ([] & Hin & Heq); simplify_eq; done.
Qed.

Lemma closed_notify (f : nat -> list chan_event) l :
  (forall ch, closed (f ch) = [ch]) -> closed (mjoin (f <$> l)) = l.
Proof.
  intros Hf. induction l as [|x l IH]; [done|].
  change (mjoin (f <$> x :: l)) with (f x ++ mjoin (f <$> l)). by rewrite closed_app, Hf, IH.
Qed.

Lemma closed_Closed l : closed (Closed <$> l) = l.
Proof.
  induction l as [|x l IH]; [done|].
  change (closed (Closed <$> x :: l)) with (x :: closed (Closed <$> l)). by rewrite IH.
Qed.

Lemma popWaiters_perm seq ws c n l : popWaiters seq ws = (c, n, l) -> snd <$> ws ≡ₚ c ++ n ++ (snd <$> l).
Proof.
  revert c n l. induction ws as [|w ws IH]; simpl; intros c n l Hp; [by simplify_eq|].
  destruct (w.1 <=? seq)%Z; [|by simplify_eq].
  destruct (popWaiters seq ws) as [[c' n'] l'] eqn:E. specialize (IH c' n' l' eq_refl).
  destruct (w.1 =? seq)%Z; simplify_eq; rewrite IH; [|done]. by rewrite Permutation_middle.
Qed.

(** Notifying moves channels from waiting to closed. *)
Lemma notify_perm (o : BaseObject St) seq c o' evs :
  notifyWaiters o seq c = (o', evs) -> snd <$> seqWaiters o ≡ₚ closed evs ++ (snd <$> seqWaiters o').
Proof.
  unfold notifyWaiters. destruct (popWaiters seq (seqWaiters o)) as [[a b] l] eqn:E. intros [= <- <-]. simpl.
  rewrite (popWaiters_perm _ _ _ _ _ E), closed_app, closed_Closed, closed_notify by (intros; by destruct c).
  by rewrite <-app_assoc.
Qed.

Lemma cleanup_closes (o : BaseObject St) o' evs :
  cleanupProcessingLoop o = (o', evs) -> closed evs = snd <$> seqWaiters o /\ seqWaiters o' = [].
Proof.
  unfold cleanupProcessingLoop. intros [= <- <-]. split; [|done].
  induction (seqWaiters o) as [|x l IH]; [done|]. cbn [fmap list_fmap]. rewrite <-IH. done.
Qed.

Lemma bubble_perm w rws : bubble w rws ≡ₚ w :: rws.
Proof. induction rws as [|x rws IH]; simpl; [done|]. case_match; [|done]. rewrite IH. apply perm_swap. Qed.

Lemma insert_waiter_perm ws seq ch : insertWaiterSorted ws seq ch ≡ₚ (seq, ch) :: ws.
Proof. unfold insertWaiterSorted. by rewrite <-Permutation_rev, bubble_perm, <-Permutation_rev. Qed.

Lemma process_waiters p (o : BaseObject St) c p' o' c' :
  processReliableCall rt cls p o c = (p', o', c') -> seqWaiters o' = seqWaiters o.
Proof.
  unfold processReliableCall, finalize. intros Hp.
  repeat (case_match; simplify_eq; simpl; try done).
Qed.

Lemma chinv_step calm w w' : chinv w -> step rt cls oid calm w w' -> chinv w'.
Proof.
  unfold chinv, waiting. intros Hinv Hstep.
  destruct Hstep as
    [rid obj typ meth req p' r Hi Hs | o seq ch o' evs start Ho Hf Hcalm Hp | o o' start Ho Hcalm Hp
    |o o' evs l1 l2 Ho Hl Hd Hn | o l1 ph l2 Ho Hl Hd Hph | o p' r l1 l2 Ho Hl Hg
    |o c rest p' o' c' l1 l2 Ho Hl Hd Hp | o o' evs c rest l1 l2 Ho Hl Hn | l1 l2 Hl | o o' b l1 l2 Ho Hl Hx
    |o o' evs l1 l2 Ho Hl Hc | o p' r Ho Hs | o Ho | | p' o Ho Hr]; cbn [wobj chans]; try rewrite Ho in Hinv; try done.
  - destruct Hf as [Hf1 Hf2]. rewrite <-elem_of_closed in Hf1. unfold ProcessPendingReliableCalls in Hp. case_match; simplify_eq.
    + rewrite closed_app, <-app_assoc. simpl. rewrite <-Permutation_middle. apply NoDup_cons. split; [|done].
      rewrite elem_of_app. naive_solver.
    + rewrite app_nil_r. simpl. rewrite insert_waiter_perm. cbn [fmap list_fmap snd].
      rewrite <-Permutation_middle. apply NoDup_cons. split; [|done]. rewrite elem_of_app. naive_solver.
  - unfold EnsureProcessingLoopRunning in Hp. case_match; by simplify_eq.
  - rewrite closed_app, <-app_assoc, <-(notify_perm _ _ _ _ _ Hn). done.
  - by rewrite (process_waiters _ _ _ _ _ _ Hp).
  - rewrite closed_app, <-app_assoc, <-(notify_perm _ _ _ _ _ Hn). done.
  - unfold tryExitIfNoWaiters in Hx. destruct (seqWaiters o) eqn:E; simplify_eq; simpl; by rewrite ?E.
  - destruct (cleanup_closes _ _ _ Hc) as [He ->]. by rewrite closed_app, He, app_nil_r.
  - rewrite app_nil_r. by apply NoDup_app in Hinv as [? _].
  - assert (seqWaiters o = []) as -> by (unfold restoreObject in Hr; repeat case_match; by simplify_eq).
    done.
Qed.

End Channels.

(** ** Draining without failures, on the PostgreSQL provider *)

Section Drain.
Import Postgres.
Context {St Msg Data Any : Type} (rt : Runtime Any Msg) (cls : Class St Msg Data).
Hypothesis marshals : forall m, exists b, MsgToBytes rt (Some m) = Ok (Some b).

(** Calls without their outcome: what an update of a status leaves alone. *)
Definition done_in (db : DB) (c : ReliableCall) : Prop :=
  exists rc, rc ∈ tbl_calls db /\ Seq rc = Seq c /\ call_key rc = call_key c /\ Status rc <> "pending".

Lemma exec_no_fault {A} db (stmt : DB -> DB * result db_error A) :
  faults db = [] -> exec db stmt = stmt db.
Proof. intros Hf. unfold exec. rewrite Hf. destruct db; simpl in *; by subst. Qed.

Lemma save_no_fault db (o : BaseObject St) db' r :
  faults db = [] -> saveLocked cls db o = (db', r) ->
  faults db' = [] /\ tbl_calls db' = tbl_calls db /\ seq_next db' = seq_next db.
Proof.
  intros Hf. unfold saveLocked. destruct (toData cls (st o)) as [d|]; [|by intros [= <- <-]].
  destruct (marshal cls d) as [j|]; [|by intros [= <- <-]]. simpl. unfold SaveObject.
  do 2 (case_bool_decide; [by intros [= <- <-]|]). rewrite exec_no_fault by done. by intros [= <- <-].
Qed.

Lemma update_no_fault db seq status rd msg :
  faults db = [] -> (0 < seq)%Z -> seq ∈ Seq <$> tbl_calls db ->
  status = "success" /\ rd <> None \/ status = "failed" \/ status = "skipped" ->
  UpdateReliableCallStatus db seq status rd msg =
    (set_calls db (update_call seq status rd msg (tbl_calls db)) (seq_next db), Ok tt).
Proof.
  intros Hf Hs Hin Hst. unfold UpdateReliableCallStatus. rewrite (proj2 (Z.leb_gt _ _)) by lia.
  assert (existsb (fun rc => (Seq rc =? seq)%Z) (tbl_calls db) = true) as Hex.
  { apply existsb_exists. apply list_elem_of_fmap in Hin as (rc & -> & Hrc). exists rc.
    rewrite <-list_elem_of_In, Z.eqb_eq. done. }
  destruct Hst as [[-> Hrd]|[-> | ->]]; rewrite bool_decide_false by done; rewrite exec_no_fault, Hex by done; simpl; try done.
  by rewrite bool_decide_false.
Qed.

Lemma process_no_fault db (o : BaseObject St) c db' o' c' :
  faults db = [] -> db_ok db -> c ∈ tbl_calls db -> processReliableCall rt cls db o c = (db', o', c') ->
  faults db' = [] /\ exists status rd msg, status <> "pending" /\
    tbl_calls db' = update_call (Seq c) status rd msg (tbl_calls db).
Proof.
  intros Hf Hok Hc.
  assert (forall o0 status rd msg, status = "success" /\ rd <> None \/ status = "failed" \/ status = "skipped" ->
    finalize cls db o0 c status rd msg = (db', o', c') ->
    faults db' = [] /\ exists status rd msg, status <> "pending" /\
      tbl_calls db' = update_call (Seq c) status rd msg (tbl_calls db)) as Hfin.
  { intros o0 status rd msg Hst Hfz. unfold finalize in Hfz.
    destruct (saveLocked cls db _) as [p1 r1] eqn:Hs. destruct (save_no_fault _ _ _ _ Hf Hs) as (Hf1 & Hc1 & Hn1).
    simpl in Hfz. rewrite update_no_fault in Hfz; [|done| |rewrite Hc1; apply list_elem_of_fmap; eauto|done].
    - simplify_eq. simpl. split; [done|]. exists status, rd, msg. rewrite Hc1. split; [naive_solver|done].
    - destruct Hok as (_ & _ & Hr & _). apply (Hr c Hc). }
  unfold processReliableCall. intros Hp.
  destruct (BytesToMsg _ _) as [req|e]; [|by eapply Hfin in Hp; [|right; right]].
  destruct (InvokeMethod _ _ _ _ _) as [s' [res|e]]; [|by eapply Hfin in Hp; [|right; left]].
  destruct (marshals res) as [b Hb]. rewrite Hb in Hp. by eapply Hfin in Hp; [|left].
Qed.

Lemma update_call_elem seq status rd msg cs c :
  c ∈ cs -> (if (Seq c =? seq)%Z then set_status c status rd msg else c) ∈ update_call seq status rd msg cs.
Proof. intros Hc. unfold update_call. apply list_elem_of_fmap. eauto. Qed.

(** A finished call stays finished, and the calls to come keep their keys. *)
Lemma done_update db db' seq status rd msg c :
  status <> "pending" -> tbl_calls db' = update_call seq status rd msg (tbl_calls db) -> done_in db c -> done_in db' c.
Proof.
  intros Hst Hc (rc & Hin & Hs & Hk & Hp). exists (if (Seq rc =? seq)%Z then set_status rc status rd msg else rc).
  rewrite Hc. split; [by apply update_call_elem|]. by case_match.
Qed.

Lemma notify_left (o : BaseObject St) seq c o' evs :
  sorted_waiters (seqWaiters o) -> notifyWaiters o seq c = (o', evs) ->
  seqWaiters o' = filter (fun w : seqWaiter => seq < w.1)%Z (seqWaiters o).
Proof.
  intros Hs. unfold notifyWaiters. destruct (popWaiters seq (seqWaiters o)) as [[a b] l] eqn:E.
  destruct (popWaiters_spec _ _ _ _ _ Hs E) as (_ & _ & Hl). intros [= <- <-]. exact Hl.
Qed.

Lemma sorted_waiters_filter (f : seqWaiter -> Prop) `{!forall w, Decision (f w)} ws :
  sorted_waiters ws -> sorted_waiters (filter f ws).
Proof.
  unfold sorted_waiters. induction ws as [|w ws IH]; [done|]. intros [Hs HF]%StronglySorted_inv.
  rewrite filter_cons. case_decide; [|by apply IH]. constructor; [by apply IH|].
  rewrite Forall_forall in HF. apply Forall_forall. intros x [_ Hx]%list_elem_of_filter. by apply HF.
Qed.

Lemma last_cons_cons {A} (x y : A) l : last (x :: y :: l) = last (y :: l).
Proof. done. Qed.

(** The inner loop executes the fetched calls, each once and in order, and finishes each of them. *)
Lemma processCalls_drain l db (o : BaseObject St) evs db' o' evs' stopped :
  faults db = [] -> db_ok db -> ctxDone o = false -> seqs_ok db -> StronglySorted Z.lt (Seq <$> l) ->
  (forall c, c ∈ l -> c ∈ tbl_calls db) -> sorted_waiters (seqWaiters o) ->
  processCalls rt cls db o l evs = (db', o', evs', stopped) ->
  (stopped = false /\ faults db' = [] /\ db_ok db' /\ ctxDone o' = false /\ id o' = id o /\ seqs_ok db') /\
  call_key <$> tbl_calls db' = call_key <$> tbl_calls db /\
  st o' = run rt cls (st o) (call_key <$> l) /\
  nextRcseq o' = match last l with Some c => (Seq c + 1)%Z | None => nextRcseq o end /\
  (forall c, c ∈ l \/ done_in db c -> done_in db' c) /\
  (forall c, c ∈ tbl_calls db' -> Status c = "pending" -> c ∈ tbl_calls db) /\
  sorted_waiters (seqWaiters o') /\
  (forall w, w ∈ seqWaiters o' -> w ∈ seqWaiters o /\ forall c, c ∈ l -> (Seq c < w.1)%Z).
Proof.
  revert db o evs. induction l as [|c l IH]; intros db o evs Hf Hok Hd Hsq Hs Hin Hws Hp; cbn [processCalls] in Hp.
  { simplify_eq. split_and!; try done; set_solver. }
  rewrite Hd in Hp. destruct (processReliableCall rt cls db o c) as [[p1 o1] c1] eqn:Hpr.
  destruct (notifyWaiters o1 (Seq c) (Some c1)) as [o2 e] eqn:Hn.
  assert (c ∈ tbl_calls db) as Hc by (apply Hin; by left).
  destruct (process_spec (P := DB) (H := DB_provider) rt cls db o c p1 o1 c1 Hok Hpr) as (Ho1 & _ & Hok1 & Hk1 & Hsq1 & _).
  cbn [calls provider_ok DB_provider] in Hok1, Hk1, Hsq1.
  destruct (process_no_fault _ _ _ _ _ _ Hf Hok Hc Hpr) as (Hf1 & status & rd & msg & Hst & Hc1).
  destruct (notify_frame _ _ _ _ _ Hn) as (Hid2 & Hn2 & Hst2 & _).
  cbn [fmap list_fmap] in Hs. apply StronglySorted_inv in Hs as [Hs HF]. rewrite Forall_forall in HF.
  assert (forall x, x ∈ l -> (Seq c < Seq x)%Z) as Hlt by (intros x Hx; apply HF, list_elem_of_fmap; eauto).
  assert (forall x, x ∈ tbl_calls db -> Seq x <> Seq c -> x ∈ tbl_calls p1) as Hkeep.
  { intros x Hx Hne. rewrite Hc1. pose proof (update_call_elem (Seq c) status rd msg _ x Hx) as Hu.
    by rewrite (proj2 (Z.eqb_neq _ _) Hne) in Hu. }
  assert (seqs_ok p1) as Hsq2.
  { intros x Hx. assert (Seq x ∈ Seq <$> tbl_calls db) as Hxs by (rewrite <-Hsq1; apply list_elem_of_fmap; eauto).
    apply list_elem_of_fmap in Hxs as (y & -> & Hy). by apply Hsq. }
  assert (seqWaiters o1 = seqWaiters o) as Hw1 by (by rewrite Ho1).
  assert (seqWaiters o2 = filter (fun w : seqWaiter => Seq c < w.1)%Z (seqWaiters o)) as Hw2
    by (rewrite <-Hw1; eapply notify_left; [by rewrite Hw1|done]).
  destruct (IH p1 o2 (evs ++ e)) as ((-> & ? & ? & ? & Hid & ?) & Hk & Hst' & Hnx & Hdn & Hkp & Hws' & Hw'); try done.
  - unfold notifyWaiters in Hn. destruct (popWaiters _ _) as [[??]?]. injection Hn as <- _. by rewrite Ho1.
  - intros x Hx. apply Hkeep; [apply Hin; by right|]. specialize (Hlt x Hx). lia.
  - rewrite Hw2. by apply sorted_waiters_filter.
  - split_and!; try done.
    + rewrite Hid, Hid2, Ho1. done.
    + rewrite Hk. exact Hk1.
    + rewrite Hst', Hst2, Ho1. done.
    + rewrite Hnx. destruct l as [|x l]; [|rewrite last_cons_cons; by destruct (last (x :: l)) eqn:E; [|apply last_None in E]].
      simpl. rewrite Hn2, Ho1. simpl. apply int64_seq. by apply Hsq.
    + intros x [[->|Hx]%elem_of_cons|Hx]; apply Hdn; [|by left|].
      * right. exists (set_status c status rd msg). rewrite Hc1. split; [|done].
        pose proof (update_call_elem (Seq c) status rd msg _ c Hc) as Hu. by rewrite Z.eqb_refl in Hu.
      * right. by eapply done_update.
    + intros x Hx Hxp. apply Hkp in Hx; [|done]. rewrite Hc1 in Hx. unfold update_call in Hx.
      apply list_elem_of_fmap in Hx as (y & -> & Hy). by destruct (Seq y =? Seq c)%Z.
    + intros w Hw. destruct (Hw' w Hw) as [Hin2 Hall]. rewrite Hw2 in Hin2. apply list_elem_of_filter in Hin2 as [Hcw Hin2].
      split; [done|]. intros x [->|Hx]%elem_of_cons; [done|by apply Hall].
Qed.

Lemma pending_no_fault db i next :
  faults db = [] -> db_ok db -> i <> "" ->
  GetPendingReliableCalls db i next = (db, Ok (pending_of i next (tbl_calls db))).
Proof.
  intros Hf Hok Hi. unfold GetPendingReliableCalls. rewrite bool_decide_false, exec_no_fault by done.
  by rewrite pending_sorted.
Qed.

(** An iteration that finds nothing to do and no waiter for a call to come ends the loop. *)
Lemma loop_idle fuel db (o : BaseObject St) evs :
  faults db = [] -> db_ok db -> id o <> "" -> ctxDone o = false -> (0 <= nextRcseq o < 2 ^ 63)%Z ->
  sorted_waiters (seqWaiters o) -> (forall w, w ∈ seqWaiters o -> (w.1 < nextRcseq o)%Z) ->
  pending_of (id o) (nextRcseq o) (tbl_calls db) = [] ->
  exists o' evs', runProcessingLoop rt cls (S fuel) db o evs = Some (db, o', evs') /\
    st o' = st o /\ nextRcseq o' = nextRcseq o /\ seqWaiters o' = [] /\ processingCalls o' = false.
Proof.
  intros Hf Hok Hi Hd Hn Hs Hw Hp. cbn [runProcessingLoop]. rewrite Hd.
  rewrite int64_id by (unfold in_int64; lia).
  destruct (notifyWaiters o (nextRcseq o - 1) None) as [o1 e1] eqn:E.
  destruct (notify_frame _ _ _ _ _ E) as (Hi1 & Hn1 & Hs1 & _). pose proof (notify_left _ _ _ _ _ Hs E) as Hl.
  assert (seqWaiters o1 = []) as Hnil.
  { destruct (seqWaiters o1) as [|w ws] eqn:Ew; [done|]. exfalso.
    assert (w ∈ filter (fun w : seqWaiter => nextRcseq o - 1 < w.1)%Z (seqWaiters o)) as Hin by (rewrite <-Hl; by left).
    apply list_elem_of_filter in Hin as [H1 H2]. specialize (Hw w H2). lia. }
  rewrite Hi1, Hn1. cbn [pGetPendingReliableCalls DB_provider]. rewrite pending_no_fault, Hp by done.
  unfold tryExitIfNoWaiters, cleanupProcessingLoop. rewrite Hnil. eexists _, _. split; [reflexivity|]. by simpl.
Qed.

Lemma last_max (l : list ReliableCall) c x :
  StronglySorted Z.lt (Seq <$> l) -> last l = Some c -> x ∈ l -> (Seq x <= Seq c)%Z.
Proof.
  induction l as [|y l IH]; [done|]. intros Hs Hl Hx. cbn [fmap list_fmap] in Hs.
  apply StronglySorted_inv in Hs as [Hs HF]. destruct l as [|z l].
  { simpl in Hl. apply list_elem_of_singleton in Hx. simplify_eq. done. }
  rewrite last_cons_cons in Hl. apply elem_of_cons in Hx as [->|Hx]; [|by apply IH].
  rewrite Forall_forall in HF. assert (c ∈ z :: l) as Hc by (by apply last_Some_elem_of).
  specialize (HF (Seq c)). rewrite list_elem_of_fmap in HF. specialize (HF ltac:(eauto)). lia.
Qed.

End Drain.

(** ** Runs as command lists *)

Section Exec.
Context {St Msg Data Any P : Type} `{PersistenceProvider P}.
Context (rt : Runtime Any Msg) (cls : Class St Msg Data) (oid : string).

Inductive cmd : Type :=
| CInsert (rid obj typ meth : string) (req : option string)
| CCall (seq : Z) (ch : nat)
| CEnsure
| CLoop (i : nat)                        (* the [i]-th goroutine makes its next step *)
| CCrash
| CActivate.

Definition cleaning (w : world (St := St) (P := P)) : bool :=
  existsb (fun ph => match ph with Cleanup => true | _ => false end) (loops w).

Definition loop_cmd (w : world (St := St) (P := P)) (o : BaseObject St) (l1 : list phase) (ph : phase) (l2 : list phase) : option world :=
  match ph with
  | Top =>
      if ctxDone o then Some (mkW (wp w) (Some o) (l1 ++ Cleanup :: l2) (chans w))
      else let '(o', evs) := notifyWaiters o (int64 (nextRcseq o - 1)) None in
           Some (mkW (wp w) (Some o') (l1 ++ Fetch :: l2) (chans w ++ evs))
  | Fetch =>
      let '(p', r) := pGetPendingReliableCalls (wp w) (id o) (nextRcseq o) in
      Some (mkW p' (Some o) (l1 ++ after_fetch o r :: l2) (chans w))
  | Run [] => Some (mkW (wp w) (wobj w) (l1 ++ Top :: l2) (chans w))
  | Run (c :: rest) =>
      if ctxDone o then Some (mkW (wp w) (Some o) (l1 ++ Cleanup :: l2) (chans w))
      else let '(p', o', c') := processReliableCall rt cls (wp w) o c in
           Some (mkW p' (Some o') (l1 ++ Notify c' rest :: l2) (chans w))
  | Notify c rest =>
      let '(o', evs) := notifyWaiters o (Seq c) (Some c) in
      Some (mkW (wp w) (Some o') (l1 ++ Run rest :: l2) (chans w ++ evs))
  | Exit =>
      let '(o', b) := tryExitIfNoWaiters o in
      Some (mkW (wp w) (Some o') (l1 ++ (if b then Cleanup else Top) :: l2) (chans w))
  | Cleanup =>
      let '(o', evs) := cleanupProcessingLoop o in
      Some (mkW (wp w) (Some o') (l1 ++ l2) (chans w ++ evs))
  end.

Definition do_cmd (calm : bool) (w : world (St := St) (P := P)) (c : cmd) : option world :=
  match c, wobj w with
  | CInsert rid obj typ meth req, _ =>
      let '(p', _) := pInsertOrGetReliableCall (wp w) rid obj typ meth req in
      if forallb (fun rc => (0 <=? Seq rc)%Z && (Seq rc <? 2 ^ 63 - 1)%Z) (calls p')
      then Some (mkW p' (wobj w) (loops w) (chans w)) else None
  | CCall seq ch, Some o =>
      if calm && cleaning w then None
      else if bool_decide (ch ∈ closed (chans w)) || bool_decide (ch ∈ snd <$> seqWaiters o) then None
      else let '(o', evs, start) := ProcessPendingReliableCalls o seq ch in
           Some (mkW (wp w) (Some o') (if start then Top :: loops w else loops w) (chans w ++ evs))
  | CEnsure, Some o =>
      if calm && cleaning w then None
      else let '(o', start) := EnsureProcessingLoopRunning o in
           Some (mkW (wp w) (Some o') (if start then Top :: loops w else loops w) (chans w))
  | CLoop i, Some o =>
      match loops w !! i with
      | Some ph => loop_cmd w o (take i (loops w)) ph (drop (S i) (loops w))
      | None => None
      end
  | CCrash, _ => Some (mkW (wp w) None [] (chans w))
  | CActivate, None =>
      match restoreObject cls true (wp w) oid with
      | (p', Ok o) => Some (mkW p' (Some o) [] (chans w))
      | _ => None
      end
  | _, _ => None
  end.

Fixpoint do_cmds (calm : bool) (w : world (St := St) (P := P)) (cs : list cmd) : option world :=
  match cs with
  | [] => Some w
  | c :: rest => match do_cmd calm w c with Some w' => do_cmds calm w' rest | None => None end
  end.

Lemma cleaning_false w : cleaning w = false -> Cleanup ∉ loops w.
Proof.
  unfold cleaning. intros Hf Hin. apply list_elem_of_In in Hin.
  assert (existsb (fun ph => match ph with Cleanup => true | _ => false end) (loops w) = true); [|congruence].
  apply existsb_exists. by exists Cleanup.
Qed.

Lemma do_cmd_step calm w c w' : do_cmd calm w c = Some w' -> step rt cls oid calm w w'.
Proof.
  unfold do_cmd. destruct c as [rid obj typ meth req|seq ch| |i| |].
  - destruct (pInsertOrGetReliableCall _ _ _ _ _ _) as [p' r] eqn:E. case_match eqn:Hf; [|done]. intros [= <-].
    eapply S_insert; [exact E|]. intros rc Hrc. rewrite forallb_forall in Hf.
    apply list_elem_of_In, Hf in Hrc. breflect. lia.
  - destruct (wobj w) as [o|] eqn:Ho; [|done]. case_match eqn:Hc; [done|]. case_match eqn:Hfr; [done|].
    apply orb_false_elim in Hfr as [Hf1 Hf2]. breflect.
    destruct (ProcessPendingReliableCalls o seq ch) as [[o' evs] start] eqn:E. intros [= <-].
    eapply S_call; [done| | |exact E].
    + split; [by rewrite <-elem_of_closed|done].
    + intros ->. by apply cleaning_false.
  - destruct (wobj w) as [o|] eqn:Ho; [|done]. case_match eqn:Hc; [done|].
    destruct (EnsureProcessingLoopRunning o) as [o' start] eqn:E. intros [= <-].
    eapply S_ensure; [done| |exact E]. intros ->. by apply cleaning_false.
  - destruct (wobj w) as [o|] eqn:Ho; [|done]. destruct (loops w !! i) as [ph|] eqn:Hi; [|done].
    assert (loops w = take i (loops w) ++ ph :: drop (S i) (loops w)) as Hl by (symmetry; by apply take_drop_middle).
    unfold loop_cmd. rewrite Ho. destruct ph as [| |[|c rest]|c rest| |].
    + destruct (ctxDone o) eqn:Hd; [intros [= <-]; by eapply S_shutdown|].
      destruct (notifyWaiters _ _ _) as [o' evs] eqn:E. intros [= <-]. by eapply S_top.
    + destruct (pGetPendingReliableCalls _ _ _) as [p' r] eqn:E. intros [= <-]. by eapply S_fetch.
    + intros [= <-]. rewrite <-Ho. by eapply S_again.
    + destruct (ctxDone o) eqn:Hd; [intros [= <-]; by eapply S_shutdown|].
      destruct (processReliableCall _ _ _ _ _) as [[p' o'] c'] eqn:E. intros [= <-]. by eapply S_process.
    + destruct (notifyWaiters _ _ _) as [o' evs] eqn:E. intros [= <-]. by eapply S_notify.
    + destruct (tryExitIfNoWaiters _) as [o' b] eqn:E. intros [= <-]. by eapply S_exit.
    + destruct (cleanupProcessingLoop _) as [o' evs] eqn:E. intros [= <-]. by eapply S_cleanup.
  - intros [= <-]. apply S_crash.
  - destruct (wobj w) as [o|] eqn:Ho; [done|]. destruct (restoreObject cls true (wp w) oid) as [p' [o|]] eqn:E; [|done].
    intros [= <-]. by eapply S_activate.
Qed.

Lemma do_cmds_reachable calm w0 cs w : init oid w0 -> do_cmds calm w0 cs = Some w -> reachable rt cls oid calm w.
Proof.
  intros Hi Hd. exists w0. split; [done|]. clear Hi. revert w0 Hd. induction cs as [|c cs IH]; simpl; intros w0 Hd.
  - simplify_eq. apply rtc_refl.
  - destruct (do_cmd calm w0 c) as [w1|] eqn:E; [|done]. eapply rtc_l; [by eapply do_cmd_step|by apply IH].
Qed.

End Exec.

(** ** A counter object *)

Module Counter.
Import Postgres.

Definition rt : Runtime string string :=
  mkRuntime _ _ Ok Ok (fun a => Ok (String "#" a))
    (fun b => match b with String c r => if bool_decide (c = "#"%char) then Ok r else Err "bad wire type" | _ => Err "empty" end)
    (fun _ => "IncRequest").

Definition Inc : Method nat string := mkMethod _ _ 2 true true 2 true true "IncRequest" (fun n req => (S n, Ok req)).

Fixpoint tally (n : nat) : string := match n with O => "" | S k => String "1" (tally k) end.

Definition cls : Class nat string nat :=
  mkClass _ _ _ "Counter" (fun m => if bool_decide (m = "Inc") then Some Inc else None) 0%nat
    (fun n => Ok n) (fun d _ => Ok (default 0%nat d)) (fun n => Ok (tally n)) (fun j => Ok (String.length j)).

Lemma fresh_counter : fromData cls None (zeroSt cls) = Ok 0%nat.
Proof. reflexivity. Qed.

Lemma counter_roundtrip s d j : toData cls s = Ok d -> marshal cls d = Ok j ->
  exists d', unmarshal cls j = Ok d' /\ fromData cls (Some d') (zeroSt cls) = Ok s.
Proof.
  intros [= <-] [= <-]. eexists. split; [done|]. simpl. f_equal. clear. by induction s; simpl; f_equal.
Qed.

Lemma counter_marshals m : exists b, MsgToBytes rt (Some m) = Ok (Some b).
Proof. by eexists. Qed.

(** An empty database; [fs] are the faults of its statements. *)
Definition db0 (fs : list fault) : DB := mkDB ∅ [] 1 fs.
Definition call1 : ReliableCall := mkRC 1 "r1" "o" "Counter" "Inc" "#x" None "" "pending".
Definition obj (n : nat) (next : Z) (b : bool) (ws : list seqWaiter) : BaseObject nat := mkObj "o" "Counter" n next b ws false.

Abbreviation cworld := (world (St := nat) (P := DB)).

Lemma init_empty fs : init "o" (mkW (db0 fs) None [] [] : cworld).
Proof.
  split_and!; try done; simpl.
  - split_and!; try done; [constructor|constructor|set_solver].
  - intros rc Hrc. simpl in Hrc. set_solver.
Qed.

End Counter.

(** ** Properties *)

(** C3: a reliable call takes effect at most once.  In every run in which no call arrives between a
    processing loop's decision to exit and its cleanup, with any database failures, crashes and
    reactivations, the object's state is the initial state with a strictly increasing sequence of calls
    of the table applied to it, all below [nextRcseq]; for objects whose saved data restore their state. *)
Theorem reliable_calls_at_most_once {St Msg Data Any P : Type} `{PersistenceLaws P}
    (rt : Runtime Any Msg) (cls : Class St Msg Data) (oid : string) (s0 : St)
    (w : world (St := St) (P := P)) (o : BaseObject St) :
  fromData cls None (zeroSt cls) = Ok s0 ->
  (forall s d j, toData cls s = Ok d -> marshal cls d = Ok j ->
     exists d', unmarshal cls j = Ok d' /\ fromData cls (Some d') (zeroSt cls) = Ok s) ->
  reachable rt cls oid true w -> wobj w = Some o ->
  exists ks, once (wp w) (nextRcseq o) ks /\ st o = run rt cls s0 ks.
Proof.
  intros Hf Hr Hw Ho. apply (reachable_cinv rt cls oid s0 Hf Hr) in Hw.
  by destruct (cinv_live _ _ _ _ w Hw o Ho) as (_ & _ & ?).
Qed.

(** No channel is closed twice, and no result is lost to a closed channel, whatever the interleaving:
    the channels closed so far are pairwise different and different from those of the registered
    waiters (closing a closed channel, or sending on it, panics in Go). *)
Theorem waiter_channels_closed_once {St Msg Data Any P : Type} `{PersistenceProvider P}
    (rt : Runtime Any Msg) (cls : Class St Msg Data) (oid : string) (calm : bool) (w : world (St := St) (P := P)) :
  reachable rt cls oid calm w -> NoDup (closed (chans w) ++ waiting w).
Proof.
  intros (w0 & (_ & _ & _ & _ & Ho & _ & Hc) & Hsteps).
  assert (chinv w0) as Hinv by (unfold chinv, waiting; rewrite Ho, Hc; constructor).
  clear Ho Hc. induction Hsteps as [|w1 w2 w3 Hstep _ IH]; [done|]. apply IH. by eapply chinv_step.
Qed.

(** C4: without failures the processing loop drains the queue exactly once.  On the PostgreSQL provider
    with no statement failing, for an object whose waiters wait for pending or past calls: the loop
    returns within two iterations, having applied every pending call of the object once and in sequence
    order to its state, with each of them finished in the table, nothing left pending for the object, no
    waiter left, and the loop marked as stopped. *)
Theorem processing_drains_exactly_once {St Msg Data Any : Type} (rt : Runtime Any Msg) (cls : Class St Msg Data)
    (db : Postgres.DB) (o : BaseObject St) :
  (forall m, exists b, MsgToBytes rt (Some m) = Ok (Some b)) ->
  Postgres.faults db = [] -> Postgres.db_ok db -> seqs_ok db -> id o <> "" -> ctxDone o = false ->
  (0 <= nextRcseq o < 2 ^ 63)%Z -> sorted_waiters (seqWaiters o) ->
  let pending := pending_of (id o) (nextRcseq o) (Postgres.tbl_calls db) in
  (forall w, w ∈ seqWaiters o -> (w.1 < nextRcseq o)%Z \/ w.1 ∈ Seq <$> pending) ->
  exists db' o' evs, runProcessingLoop rt cls 2 db o [] = Some (db', o', evs) /\
    st o' = run rt cls (st o) (call_key <$> pending) /\
    (forall c, c ∈ pending -> done_in db' c) /\
    pending_of (id o) (nextRcseq o') (Postgres.tbl_calls db') = [] /\
    seqWaiters o' = [] /\ processingCalls o' = false.
Proof.
  intros Hm Hf Hok Hsq Hi Hd Hn Hs pending Hw.
  destruct (decide (pending = [])) as [Hnil|Hne].
  { destruct (loop_idle rt cls 1 db o [] Hf Hok Hi Hd Hn Hs) as (o' & evs & Hr & H1 & H2 & H3 & H4).
    - intros w Hin. destruct (Hw w Hin) as [?|Hx]; [done|]. rewrite Hnil in Hx. set_solver.
    - done.
    - exists db, o', evs. rewrite H2. fold pending. rewrite Hnil. split_and!; try done. set_solver. }
  pose proof (pending_work (P := Postgres.DB) (H := DB_provider) db (id o) (nextRcseq o) Hok Hsq) as [Hps Hpw].
  destruct (notifyWaiters o (nextRcseq o - 1) None) as [o1 e1] eqn:E.
  destruct (notify_frame _ _ _ _ _ E) as (Hi1 & Hn1 & Hs1 & _). pose proof (notify_left _ _ _ _ _ Hs E) as Hl.
  assert (ctxDone o1 = false) as Hd1.
  { unfold notifyWaiters in E. destruct (popWaiters _ _) as [[??]?]. by injection E as <- _. }
  destruct (processCalls rt cls db o1 pending ([] ++ e1)) as [[[db2 o2] evs2] stopped] eqn:Hpc.
  destruct (processCalls_drain rt cls Hm pending db o1 ([] ++ e1) db2 o2 evs2 stopped)
    as ((-> & Hf2 & Hok2 & Hd2 & Hi2 & Hsq2) & Hk & Hst & Hnx & Hdn & Hpd & Hs2 & Hw2); try done.
  { intros c Hc. by apply elem_of_pending in Hc as [? _]. }
  { rewrite Hl. by apply sorted_waiters_filter. }
  destruct (last pending) as [c|] eqn:Hlast; [|by apply last_None in Hlast].
  assert (c ∈ pending) as Hcp by (by apply last_Some_elem_of).
  assert (nextRcseq o <= Seq c < 2 ^ 63 - 1)%Z as Hcr by (by apply Hpw).
  assert (pending_of (id o) (nextRcseq o2) (Postgres.tbl_calls db2) = []) as Hempty.
  { apply elem_of_nil_inv. intros x (Hx & Hxi & Hxn & Hxp)%elem_of_pending. rewrite Hnx in Hxn.
    assert (x ∈ pending) as Hin by (apply elem_of_pending; split_and!; [by apply Hpd|done|lia|done]).
    pose proof (last_max pending c x Hps Hlast Hin). lia. }
  destruct (loop_idle rt cls 0 db2 o2 evs2) as (o3 & evs3 & Hr & H1 & H2 & H3 & H4); try done.
  { by rewrite Hi2, Hi1. }
  { rewrite Hnx. lia. }
  { intros w Hin. destruct (Hw2 w Hin) as [Hin1 Hall]. rewrite Hl in Hin1. apply list_elem_of_filter in Hin1 as [Hge Hin1].
    destruct (Hw w Hin1) as [?|(x & Hx & Hxp)%list_elem_of_fmap]; [lia|]. specialize (Hall x Hxp). lia. }
  { by rewrite Hi2, Hi1. }
  exists db2, o3, evs3. split_and!; try done.
  - cbn [runProcessingLoop]. rewrite Hd, int64_id by (unfold in_int64; lia). rewrite E.
    cbn [pGetPendingReliableCalls DB_provider]. rewrite Hi1, Hn1, pending_no_fault by done. fold pending.
    destruct pending as [|c0 l0] eqn:Ep; [done|]. rewrite Hpc. exact Hr.
  - by rewrite H1, Hst, Hs1.
  - intros x Hx. apply Hdn. by left.
  - by rewrite H2.
Qed.

Import Counter.

(** The window between a loop's decision to exit and its cleanup breaks the guarantee.  There is
    a run without any failure in which one reliable call, stored once, is executed twice: a call that
    arrives in the window starts a second loop, the first loop's cleanup then resets [processingCalls]
    under it, the next caller starts a third, and two loops fetch and execute the same pending call. *)
Theorem exit_window_executes_twice :
  exists w : cworld, reachable rt cls "o" false w /\
    Seq <$> calls (wp w) = [1%Z] /\ Status <$> calls (wp w) = ["success"] /\ (st <$> wobj w) = Some 2%nat.
Proof.
  destruct (do_cmds rt cls "o" false (mkW (db0 []) None [] [] : cworld)
    [CActivate; CEnsure; CLoop 0; CLoop 0; CLoop 0;          (* the eager drain finds nothing, decides to exit *)
     CInsert "r1" "o" "Counter" "Inc" (Some "#x"); CCall 1 0; (* a call arrives and starts a loop *)
     CLoop 1;                                                 (* the cleanup of the first loop *)
     CCall 1 1;                                               (* the caller's retry starts another *)
     CLoop 0; CLoop 0; CLoop 1; CLoop 1; CLoop 0; CLoop 1]) as [w|] eqn:E; [|by vm_compute in E].
  exists w. split; [eapply do_cmds_reachable; [apply init_empty|exact E]|].
  vm_compute in E. injection E as <-. by vm_compute.
Qed.

(** a failed save loses a finished call.  There is a calm run in which only one statement fails, the
    save of the object after its call: the call is marked as succeeded, the node crashes, and the
    reactivated object has neither the effect of the call nor the call pending. *)
Theorem save_failure_loses_effect :
  exists w o, reachable rt cls "o" true w /\ (wobj w : option (BaseObject nat)) = Some o /\ st o = 0%nat /\
    Status <$> calls (wp w) = ["success"] /\ pending_of "o" (nextRcseq o) (calls (wp w)) = [].
Proof.
  destruct (do_cmds rt cls "o" true
    (mkW (db0 [NoFault; NoFault; NoFault; FailBefore "connection lost"]) None [] [] : cworld)
    [CActivate; CInsert "r1" "o" "Counter" "Inc" (Some "#x"); CCall 1 0; CLoop 0; CLoop 0; CLoop 0;
     CCrash; CActivate]) as [w|] eqn:E; [|by vm_compute in E].
  exists w. assert (reachable rt cls "o" true w) as Hr by (eapply do_cmds_reachable; [apply init_empty|exact E]).
  vm_compute in E. injection E as <-. eexists. split; [exact Hr|]. by vm_compute.
Qed.

(** a failed status update leaves the call pending for good.  There is a calm run in which only the
    status update fails: the call's effect is saved with the object, but the call stays pending in the
    table below [nextRcseq], where no fetch finds it, and a caller that retries with the same call id
    gets its channel closed without a result. *)
Theorem status_failure_strands_call :
  exists w o, reachable rt cls "o" true w /\ (wobj w : option (BaseObject nat)) = Some o /\ st o = 1%nat /\
    Status <$> calls (wp w) = ["pending"] /\ pending_of "o" (nextRcseq o) (calls (wp w)) = [] /\
    ProcessPendingReliableCalls o 1 7 = (o, [Closed 7], false).
Proof.
  destruct (do_cmds rt cls "o" true
    (mkW (db0 [NoFault; NoFault; NoFault; NoFault; FailBefore "connection lost"]) None [] [] : cworld)
    [CActivate; CInsert "r1" "o" "Counter" "Inc" (Some "#x"); CCall 1 0; CLoop 0; CLoop 0; CLoop 0;
     CCrash; CActivate]) as [w|] eqn:E; [|by vm_compute in E].
  exists w. assert (reachable rt cls "o" true w) as Hr by (eapply do_cmds_reachable; [apply init_empty|exact E]).
  vm_compute in E. injection E as <-. eexists. split; [exact Hr|]. by vm_compute.
Qed.

Definition cmds1 : list cmd :=
  [CActivate; CInsert "r1" "o" "Counter" "Inc" (Some "#x"); CCall 1 0; CLoop 0; CLoop 0; CLoop 0; CLoop 0].
Definition world1 : cworld := default (mkW (db0 []) None [] []) (do_cmds rt cls "o" true (mkW (db0 []) None [] []) cmds1).

Lemma world1_reachable : reachable rt cls "o" true world1.
Proof. apply (do_cmds_reachable rt cls "o" true (mkW (db0 []) None [] []) cmds1); [apply init_empty|by vm_compute]. Qed.

Lemma reliable_calls_at_most_once_witness :
  exists ks, once (wp world1) 2 ks /\ 1%nat = run rt cls 0%nat ks.
Proof.
  apply (reliable_calls_at_most_once rt cls "o" 0%nat world1 (obj 1 2 true []));
    [reflexivity|apply counter_roundtrip|apply world1_reachable|by vm_compute].
Defined.

Lemma waiter_channels_closed_once_witness : NoDup (closed (chans world1) ++ waiting world1).
Proof. apply (waiter_channels_closed_once rt cls "o" true world1 world1_reachable). Defined.

Definition db1 : Postgres.DB := Postgres.mkDB ∅ [call1] 2 [].

Lemma processing_drains_exactly_once_witness :
  exists db' o' evs, runProcessingLoop rt cls 2 db1 (obj 0 0 true [(1%Z, 0%nat)]) [] = Some (db', o', evs) /\
    st o' = run rt cls 0%nat (call_key <$> [call1]).
Proof.
  destruct (processing_drains_exactly_once rt cls db1 (obj 0 0 true [(1%Z, 0%nat)])) as (db' & o' & evs & H1 & H2 & _).
  - apply counter_marshals.
  - reflexivity.
  - split_and!; simpl; try lia; [repeat constructor|apply NoDup_singleton|].
    intros rc Hrc%list_elem_of_singleton. subst. simpl. lia.
  - intros rc Hrc. apply list_elem_of_singleton in Hrc. subst. simpl. lia.
  - done.
  - reflexivity.
  - simpl. lia.
  - repeat constructor.
  - intros w Hw. right. apply list_elem_of_singleton in Hw. subst. simpl. by left.
  - exists db', o', evs. done.
Defined.
