(* ===== verification/AccessControl.v ===== *)
(** * Configuration and access control (config/access_control.go, config/config.go)

    [Module Access] is the rule matching of the access and lifecycle validators, [Module Conf] the
    configuration record and its validation.  Compiling a regular expression is an argument
    [compile]: the matcher of the anchored expression, or the error of [regexp.Compile]; the theorems
    hold for any such function.  So are the content of the file and the YAML decoder of [LoadConfig]. *)

From S2P Require Import Prelude GoStrings GoFloat.
Import Float64.

Module Access.

Inductive AccessLevel : Type := AccessReject | AccessInternal | AccessExternal | AccessAllow.

#[global] Instance AccessLevel_eq_dec : EqDecision AccessLevel.
Proof. solve_decision. Defined.

(** [AccessLevel.String] *)
Definition AccessLevel_String (a : AccessLevel) : string :=
  match a with
  | AccessReject => "REJECT"
  | AccessInternal => "INTERNAL"
  | AccessExternal => "EXTERNAL"
  | AccessAllow => "ALLOW"
  end.

(** [ParseAccessLevel] *)
Definition ParseAccessLevel (s : string) : result string AccessLevel :=
  let u := ToUpper s in
  if bool_decide (u = "REJECT") then Ok AccessReject
  else if bool_decide (u = "INTERNAL") then Ok AccessInternal
  else if bool_decide (u = "EXTERNAL") then Ok AccessExternal
  else if bool_decide (u = "ALLOW") then Ok AccessAllow
  else Err "invalid access level".

Inductive LifecycleOperation : Type := LifecycleCreate | LifecycleDelete | LifecycleAll.

#[global] Instance LifecycleOperation_eq_dec : EqDecision LifecycleOperation.
Proof. solve_decision. Defined.

(** [LifecycleOperation.String] *)
Definition LifecycleOperation_String (op : LifecycleOperation) : string :=
  match op with LifecycleCreate => "CREATE" | LifecycleDelete => "DELETE" | LifecycleAll => "ALL" end.

(** [ParseLifecycleOperation] *)
Definition ParseLifecycleOperation (s : string) : result string LifecycleOperation :=
  let u := ToUpper s in
  if bool_decide (u = "CREATE") then Ok LifecycleCreate
  else if bool_decide (u = "DELETE") then Ok LifecycleDelete
  else if bool_decide (u = "ALL") then Ok LifecycleAll
  else Err "invalid lifecycle operation".

Record AccessRule : Type := mkRule { rType : string; rID : string; rMethod : string; rAccess : string }.
Record LifecycleRule : Type := mkLRule { lType : string; lID : string; lLifecycle : string; lAccess : string }.

(** [PatternMatcher] and its three implementations *)
Inductive PatternMatcher : Type :=
| matchAllMatcher
| literalMatcher (lit : string)
| regexpMatcher (re : string -> bool).

(** [Match] *)
Definition Match (m : PatternMatcher) (s : string) : bool :=
  match m with
  | matchAllMatcher => true
  | literalMatcher lit => bool_decide (lit = s)
  | regexpMatcher re => re s
  end.

Section Rules.
Context (compile : string -> result string (string -> bool)).
Open Scope go_scope.

(** [strings.HasSuffix(pattern, "/")] *)
Definition endsWithSlash (s : string) : bool :=
  bool_decide (slice s (len s - 1) (len s) = "/").

(** [parsePattern] *)
Definition parsePattern (pattern : string) : result string PatternMatcher :=
  if HasPrefix pattern "/" && endsWithSlash pattern && (1 <? len pattern)%Z then
    let regexStr := slice pattern 1 (len pattern - 1) in
    re <-? compile ("^(?:" +:+ regexStr +:+ ")$") ;; Ok (regexpMatcher re)
  else Ok (literalMatcher pattern).

(** [parsePatternOrMatchAll] *)
Definition parsePatternOrMatchAll (pattern : string) : result string PatternMatcher :=
  if bool_decide (pattern = "") then Ok matchAllMatcher else parsePattern pattern.

Record CompiledRule : Type := mkCompiled {
  typeMatcher : PatternMatcher;
  idMatcher : PatternMatcher;
  methodMatcher : PatternMatcher;
  access : AccessLevel
}.

(** The body of the loop of [NewAccessValidator] *)
Definition compileRule (rule : AccessRule) : result string CompiledRule :=
  guard! bool_decide (rType rule <> "") else "missing type" ;;
  t <-? parsePattern (rType rule) ;;
  i <-? parsePatternOrMatchAll (rID rule) ;;
  m <-? parsePatternOrMatchAll (rMethod rule) ;;
  guard! bool_decide (rAccess rule <> "") else "missing access" ;;
  a <-? ParseAccessLevel (rAccess rule) ;;
  Ok (mkCompiled t i m a).

(** [NewAccessValidator]: the rules compiled in order, or the first error with its index *)
Fixpoint compileRules {A B} (f : A -> result string B) (i : nat) (rules : list A)
    : result (nat * string) (list B) :=
  match rules with
  | [] => Ok []
  | rule :: rest =>
      match f rule with
      | Err e => Err (i, e)
      | Ok c => cs <-? compileRules f (S i) rest ;; Ok (c :: cs)
      end
  end.

Definition NewAccessValidator (rules : list AccessRule) : result (nat * string) (list CompiledRule) :=
  compileRules compileRule 0 rules.

(** [AccessValidator.findAccess] *)
Fixpoint findAccess (rules : list CompiledRule) (objectType objectID method : string) : AccessLevel :=
  match rules with
  | [] => AccessReject
  | rule :: rest =>
      if Match (typeMatcher rule) objectType && Match (idMatcher rule) objectID && Match (methodMatcher rule) method
      then access rule
      else findAccess rest objectType objectID method
  end.

(** [CheckClientAccess] and [CheckNodeAccess]: whether the error is nil *)
Definition CheckClientAccess (rules : list CompiledRule) (objectType objectID method : string) : bool :=
  let a := findAccess rules objectType objectID method in
  bool_decide (a = AccessAllow) || bool_decide (a = AccessExternal).
Definition CheckNodeAccess (rules : list CompiledRule) (objectType objectID method : string) : bool :=
  let a := findAccess rules objectType objectID method in
  bool_decide (a = AccessAllow) || bool_decide (a = AccessInternal).

Record CompiledLifecycleRule : Type := mkCompiledL {
  ltypeMatcher : PatternMatcher;
  lidMatcher : PatternMatcher;
  lifecycle : LifecycleOperation;
  laccess : AccessLevel
}.

(** The body of the loop of [NewLifecycleValidator] *)
Definition compileLifecycleRule (rule : LifecycleRule) : result string CompiledLifecycleRule :=
  guard! bool_decide (lType rule <> "") else "missing type" ;;
  t <-? parsePattern (lType rule) ;;
  i <-? parsePatternOrMatchAll (lID rule) ;;
  guard! bool_decide (lLifecycle rule <> "") else "missing lifecycle" ;;
  op <-? ParseLifecycleOperation (lLifecycle rule) ;;
  guard! bool_decide (lAccess rule <> "") else "missing access" ;;
  a <-? ParseAccessLevel (lAccess rule) ;;
  Ok (mkCompiledL t i op a).

Definition NewLifecycleValidator (rules : list LifecycleRule)
    : result (nat * string) (list CompiledLifecycleRule) :=
  compileRules compileLifecycleRule 0 rules.

(** [LifecycleValidator.findAccess] *)
Fixpoint findLifecycleAccess (rules : list CompiledLifecycleRule) (objectType objectID : string)
    (operation : LifecycleOperation) : AccessLevel :=
  match rules with
  | [] => if bool_decide (operation = LifecycleCreate) then AccessAllow else AccessInternal
  | rule :: rest =>
      let lifecycleMatches := bool_decide (lifecycle rule = operation) || bool_decide (lifecycle rule = LifecycleAll) in
      if lifecycleMatches && Match (ltypeMatcher rule) objectType && Match (lidMatcher rule) objectID
      then laccess rule
      else findLifecycleAccess rest objectType objectID operation
  end.

Definition clientAllowed (a : AccessLevel) : bool := bool_decide (a = AccessAllow) || bool_decide (a = AccessExternal).
Definition nodeAllowed (a : AccessLevel) : bool := bool_decide (a = AccessAllow) || bool_decide (a = AccessInternal).

Definition CheckClientCreate (rules : list CompiledLifecycleRule) (typ id : string) : bool :=
  clientAllowed (findLifecycleAccess rules typ id LifecycleCreate).
Definition CheckNodeCreate (rules : list CompiledLifecycleRule) (typ id : string) : bool :=
  nodeAllowed (findLifecycleAccess rules typ id LifecycleCreate).
Definition CheckClientDelete (rules : list CompiledLifecycleRule) (typ id : string) : bool :=
  clientAllowed (findLifecycleAccess rules typ id LifecycleDelete).
Definition CheckNodeDelete (rules : list CompiledLifecycleRule) (typ id : string) : bool :=
  nodeAllowed (findLifecycleAccess rules typ id LifecycleDelete).

End Rules.
End Access.
Import Access.

(** ** The configuration record (config/config.go) *)
Module Conf.

Record AutoLoadObjectConfig : Type := mkAutoLoad {
  aType : string; aID : string; PerShard : bool; PerNode : bool }.
Record NodeConfig : Type := mkNodeConfig {
  nID : string; nGRPCAddr : string; nAdvertiseAddr : string; nHTTPAddr : string }.
Record GateConfig : Type := mkGateConfig {
  gID : string; gGRPCAddr : string; gAdvertiseAddr : string; gHTTPAddr : string; gOpsAddr : string }.
Record EtcdConfig : Type := mkEtcdConfig { Endpoints : list string; Prefix : string }.

Record PostgresConfig : Type := mkPostgresConfig {
  Host : string; Port : Z; User : string; Password : string; Database : string; SSLMode : string;
  MaxOpenConns : Z; MaxIdleConns : Z }.
Record InspectorConfig : Type := mkInspectorConfig {
  iGRPCAddr : string; iHTTPAddr : string; iAdvertiseAddr : string }.

(** The durations are in nanoseconds. *)
Record ClusterConfig : Type := mkClusterConfig {
  Shards : Z;
  Provider : string;
  Etcd : EtcdConfig;
  ImbalanceThreshold : float64;
  ClusterStateStabilityDuration : Z;
  StuckShardReallocationTimeout : Z;
  DefaultCallTimeout : Z;
  DefaultCreateTimeout : Z;
  DefaultDeleteTimeout : Z;
  AutoLoadObjects : list AutoLoadObjectConfig
}.

Record Config : Type := mkConfig {
  Version : Z;
  Cluster : ClusterConfig;
  Postgres : PostgresConfig;
  Inspector : InspectorConfig;
  Nodes : list NodeConfig;
  Gates : list GateConfig;
  AccessRules : list AccessRule;
  LifecycleRules : list LifecycleRule
}.

Open Scope go_scope.

(** The loop over [c.Nodes] of [Validate]: [nodeIDs] holds the ids seen so far. *)
Fixpoint validateNodes (nodeIDs : gset string) (nodes : list NodeConfig) : result string () :=
  match nodes with
  | [] => Ok tt
  | node :: rest =>
      guard! bool_decide (nID node <> "") else "node: id is required" ;;
      guard! bool_decide (nID node ∉ nodeIDs) else "duplicate node id" ;;
      guard! bool_decide (nGRPCAddr node <> "") else "node: grpc_addr is required" ;;
      guard! bool_decide (nAdvertiseAddr node <> "") else "node: advertise_addr is required" ;;
      validateNodes ({[nID node]} ∪ nodeIDs) rest
  end.

(** The loop over [c.Gates] *)
Fixpoint validateGates (gateIDs : gset string) (gates : list GateConfig) : result string () :=
  match gates with
  | [] => Ok tt
  | gate :: rest =>
      guard! bool_decide (gID gate <> "") else "gate: id is required" ;;
      guard! bool_decide (gID gate ∉ gateIDs) else "duplicate gate id" ;;
      guard! bool_decide (gGRPCAddr gate <> "") else "gate: grpc_addr is required" ;;
      validateGates ({[gID gate]} ∪ gateIDs) rest
  end.

(** The loop over [c.Cluster.AutoLoadObjects] *)
Fixpoint validateAutoLoad (objs : list AutoLoadObjectConfig) : result string () :=
  match objs with
  | [] => Ok tt
  | obj :: rest =>
      guard! bool_decide (aType obj <> "") else "auto_load_objects: type is required" ;;
      guard! bool_decide (aID obj <> "") else "auto_load_objects: id is required" ;;
      guard! negb (PerShard obj && PerNode obj) else "per_shard and per_node cannot both be true" ;;
      validateAutoLoad rest
  end.

(** [Validate] *)
Definition Validate (c : Config) : result string () :=
  guard! (Version c =? 1)%Z else "unsupported config version" ;;
  guard! bool_decide (Provider (Cluster c) <> "") else "cluster provider is required" ;;
  guard! bool_decide (Provider (Cluster c) = "etcd") else "unsupported cluster provider" ;;
  guard! negb (Shards (Cluster c) <=? 0)%Z else "cluster shards must be specified and positive" ;;
  guard! bool_decide (Endpoints (Etcd (Cluster c)) <> []) else "at least one etcd endpoint is required" ;;
  guard! bool_decide (Prefix (Etcd (Cluster c)) <> "") else "etcd prefix is required" ;;
  _ <-? validateNodes ∅ (Nodes c) ;;
  _ <-? validateGates ∅ (Gates c) ;;
  validateAutoLoad (AutoLoadObjects (Cluster c)).

(** [GetNodeByID], [GetGateByID] *)
Fixpoint findNode (nodes : list NodeConfig) (id : string) : result string NodeConfig :=
  match nodes with
  | [] => Err "node not found"
  | n :: rest => if bool_decide (nID n = id) then Ok n else findNode rest id
  end.
Definition GetNodeByID (c : Config) (id : string) : result string NodeConfig := findNode (Nodes c) id.

Fixpoint findGate (gates : list GateConfig) (id : string) : result string GateConfig :=
  match gates with
  | [] => Err "gate not found"
  | g :: rest => if bool_decide (gID g = id) then Ok g else findGate rest id
  end.
Definition GetGateByID (c : Config) (id : string) : result string GateConfig := findGate (Gates c) id.

(** [GetEtcdAddress] *)
Definition GetEtcdAddress (c : Config) : string :=
  match Endpoints (Etcd (Cluster c)) with e :: _ => e | [] => "" end.
Definition GetEtcdPrefix (c : Config) : string := Prefix (Etcd (Cluster c)).
Definition GetNumShards (c : Config) : Z := Shards (Cluster c).

(** The getters of durations return 0 for what is not configured. *)
Definition GetClusterStateStabilityDuration (c : Config) : Z := ClusterStateStabilityDuration (Cluster c).
Definition GetStuckShardReallocationTimeout (c : Config) : Z := StuckShardReallocationTimeout (Cluster c).
Definition GetDefaultCallTimeout (c : Config) : Z := DefaultCallTimeout (Cluster c).
Definition GetDefaultCreateTimeout (c : Config) : Z := DefaultCreateTimeout (Cluster c).
Definition GetDefaultDeleteTimeout (c : Config) : Z := DefaultDeleteTimeout (Cluster c).
Definition GetInspectorAdvertiseAddress (c : Config) : string := iAdvertiseAddr (Inspector c).
Definition GetAutoLoadObjects (c : Config) : list AutoLoadObjectConfig := AutoLoadObjects (Cluster c).

(** [LoadConfig]: the file's content and what the YAML library makes of it are arguments *)
Definition LoadConfig {bytes : Type} (ReadFile : string -> result string bytes) (Unmarshal : bytes -> result string Config)
    (path : string) : result string Config :=
  data <-? ReadFile path ;;
  cfg <-? Unmarshal data ;;
  _ <-? Validate cfg ;;
  Ok cfg.

(** [Config.NewAccessValidator], [Config.NewLifecycleValidator]: no validator ([nil]) when no rule is
    configured *)
Definition ConfigAccessValidator (compile : string -> result string (string -> bool)) (c : Config)
    : result (nat * string) (option (list CompiledRule)) :=
  match AccessRules c with
  | [] => Ok None
  | rules => v <-? NewAccessValidator compile rules ;; Ok (Some v)
  end.
Definition ConfigLifecycleValidator (compile : string -> result string (string -> bool)) (c : Config)
    : result (nat * string) (option (list CompiledLifecycleRule)) :=
  match LifecycleRules c with
  | [] => Ok None
  | rules => v <-? NewLifecycleValidator compile rules ;; Ok (Some v)
  end.

End Conf.
Import Conf.

(** ** What the rules mean

    A pattern denotes a set of strings: an omitted one everything, [/re/] the matches of [re], any
    other exactly itself. *)
Section RuleMeaning.
Context (compile : string -> result string (string -> bool)).

Definition isRegexp (p : string) : bool := HasPrefix p "/" && endsWithSlash p && (1 <? len p)%Z.

Definition denotes (p s : string) : bool :=
  if bool_decide (p = "") then true
  else if isRegexp p then
    match compile ("^(?:" +:+ slice p 1 (len p - 1) +:+ ")$") with Ok re => re s | Err _ => false end
  else bool_decide (p = s).

Definition goodPattern (p : string) : bool :=
  if isRegexp p then
    match compile ("^(?:" +:+ slice p 1 (len p - 1) +:+ ")$") with Ok _ => true | Err _ => false end
  else true.

(** A rule the validator accepts *)
Definition goodRule (r : AccessRule) : bool :=
  bool_decide (rType r <> "") && goodPattern (rType r) && goodPattern (rID r) && goodPattern (rMethod r)
  && is_ok (ParseAccessLevel (rAccess r)).

Definition goodLifecycleRule (r : LifecycleRule) : bool :=
  bool_decide (lType r <> "") && goodPattern (lType r) && goodPattern (lID r)
  && is_ok (ParseLifecycleOperation (lLifecycle r)) && is_ok (ParseAccessLevel (lAccess r)).

Definition ruleApplies (t i m : string) (r : AccessRule) : bool :=
  denotes (rType r) t && denotes (rID r) i && denotes (rMethod r) m.

(** The level of the first rule that applies; [REJECT] when none does. *)
Definition decided (rules : list AccessRule) (t i m : string) : result string AccessLevel :=
  match List.find (ruleApplies t i m) rules with
  | Some r => ParseAccessLevel (rAccess r)
  | None => Ok AccessReject
  end.

Definition lifecycleApplies (op : LifecycleOperation) (t i : string) (r : LifecycleRule) : bool :=
  match ParseLifecycleOperation (lLifecycle r) with
  | Ok o => bool_decide (o = op) || bool_decide (o = LifecycleAll)
  | Err _ => false
  end && denotes (lType r) t && denotes (lID r) i.

Definition decidedLifecycle (rules : list LifecycleRule) (op : LifecycleOperation) (t i : string)
    : result string AccessLevel :=
  match List.find (lifecycleApplies op t i) rules with
  | Some r => ParseAccessLevel (lAccess r)
  | None => Ok (if bool_decide (op = LifecycleCreate) then AccessAllow else AccessInternal)
  end.

Lemma parsePattern_spec (p : string) :
  match parsePattern compile p with
  | Ok pm => goodPattern p = true /\ (p <> "" -> forall s, Match pm s = denotes p s)
  | Err _ => goodPattern p = false
  end.
Proof.
  unfold parsePattern, goodPattern, denotes, isRegexp.
  destruct (HasPrefix p "/" && endsWithSlash p && (1 <? len p)%Z) eqn:E; cbn.
  - destruct (compile _); cbn; [|done]. split; [done|]. intros H s. by rewrite bool_decide_eq_false_2.
  - split; [done|]. intros H s. by rewrite (bool_decide_eq_false_2 (p = "")).
Qed.

Lemma parsePatternOrMatchAll_spec (p : string) :
  match parsePatternOrMatchAll compile p with
  | Ok pm => goodPattern p = true /\ forall s, Match pm s = denotes p s
  | Err _ => goodPattern p = false
  end.
Proof.
  unfold parsePatternOrMatchAll. case_bool_decide as E.
  - subst p. cbn. split; reflexivity.
  - pose proof (parsePattern_spec p) as H. destruct (parsePattern compile p); [|done].
    destruct H as [H1 H2]. split; [done|]. by apply H2.
Qed.

Lemma ParseAccessLevel_empty : is_ok (ParseAccessLevel "") = false.
Proof. reflexivity. Qed.
Lemma ParseLifecycleOperation_empty : is_ok (ParseLifecycleOperation "") = false.
Proof. reflexivity. Qed.

Ltac pattern_cases :=
  repeat match goal with
  | |- context [parsePatternOrMatchAll compile ?p] =>
      let H := fresh in pose proof (parsePatternOrMatchAll_spec p) as H;
      destruct (parsePatternOrMatchAll compile p); cbn in *; [destruct H as [-> H]|by rewrite H, ?andb_false_r]
  | |- context [parsePattern compile ?p] =>
      let H := fresh in pose proof (parsePattern_spec p) as H;
      destruct (parsePattern compile p); cbn in *; [destruct H as [-> H]|by rewrite H, ?andb_false_r]
  end.

Lemma compileRule_spec (r : AccessRule) :
  match compileRule compile r with
  | Ok c => goodRule r = true /\ ParseAccessLevel (rAccess r) = Ok (access c)
            /\ forall t i m, (Match (typeMatcher c) t && Match (idMatcher c) i && Match (methodMatcher c) m)
                             = ruleApplies t i m r
  | Err _ => goodRule r = false
  end.
Proof.
  unfold compileRule, goodRule, ruleApplies.
  destruct (bool_decide (rType r <> "")) eqn:Et; cbn; [|done]. apply bool_decide_eq_true in Et.
  pattern_cases. destruct (bool_decide (rAccess r <> "")) eqn:Ea; cbn.
  - destruct (ParseAccessLevel (rAccess r)); cbn; [|done]. repeat split; [].
    intros t i m. by rewrite H, H0, H1.
  - apply bool_decide_eq_false, dec_stable in Ea. rewrite Ea. reflexivity.
Qed.

Lemma compileLifecycleRule_spec (r : LifecycleRule) :
  match compileLifecycleRule compile r with
  | Ok c => goodLifecycleRule r = true /\ ParseAccessLevel (lAccess r) = Ok (laccess c)
            /\ forall op t i, ((bool_decide (lifecycle c = op) || bool_decide (lifecycle c = LifecycleAll))
                               && Match (ltypeMatcher c) t && Match (lidMatcher c) i)
                             = lifecycleApplies op t i r
  | Err _ => goodLifecycleRule r = false
  end.
Proof.
  unfold compileLifecycleRule, goodLifecycleRule, lifecycleApplies.
  destruct (bool_decide (lType r <> "")) eqn:Et; cbn; [|done]. apply bool_decide_eq_true in Et.
  pattern_cases. destruct (bool_decide (lLifecycle r <> "")) eqn:El; cbn.
  2: { apply bool_decide_eq_false, dec_stable in El. rewrite El. reflexivity. }
  destruct (ParseLifecycleOperation (lLifecycle r)) as [o|]; cbn; [|done].
  destruct (bool_decide (lAccess r <> "")) eqn:Ea; cbn.
  - destruct (ParseAccessLevel (lAccess r)); cbn; [|done]. repeat split; [].
    intros op t i. by rewrite H, H0.
  - apply bool_decide_eq_false, dec_stable in Ea. rewrite Ea. reflexivity.
Qed.

(** Compiling a list succeeds exactly when every rule is good, and keeps the order. *)
Lemma compileRules_spec {A B} (f : A -> result string B) (good : A -> bool) (R : A -> B -> Prop) rules :
  (forall r, match f r with Ok c => good r = true /\ R r c | Err _ => good r = false end) ->
  forall k, match compileRules f k rules with
  | Ok cs => forallb good rules = true /\ Forall2 R rules cs
  | Err _ => forallb good rules = false
  end.
Proof.
  intros Hf. induction rules as [|r rules IH]; intros k; cbn; [auto|].
  pose proof (Hf r) as Hr. destruct (f r) as [c|]; cbn; [|by rewrite Hr].
  destruct Hr as [-> Hr]. specialize (IH (S k)). destruct (compileRules f (S k) rules) as [cs|]; cbn; [|done].
  destruct IH as [-> IH]. auto.
Qed.

End RuleMeaning.

(** [NewAccessValidator] accepts a rule list exactly when every rule has a type, compilable
    patterns and a valid level; the access level it then finds for a call is the level of the first
    rule of the configured list whose patterns match the object's type, id and method, and [REJECT]
    when no rule does. *)
Lemma access_first_match_decides (compile : string -> result string (string -> bool)) (rules : list AccessRule) :
  match NewAccessValidator compile rules with
  | Ok v => forallb (goodRule compile) rules = true
            /\ forall t i m, decided compile rules t i m = Ok (findAccess v t i m)
  | Err _ => forallb (goodRule compile) rules = false
  end.
Proof.
  unfold NewAccessValidator.
  pose proof (compileRules_spec (compileRule compile) (goodRule compile) _ rules (compileRule_spec compile) 0) as H.
  destruct (compileRules _ 0 rules) as [v|]; [|exact H]. destruct H as [Hg HF]. split; [exact Hg|].
  intros t i m. unfold decided. clear Hg. induction HF as [|r c rules v [Hl Hm] HF IH]; cbn; [done|].
  rewrite Hm. destruct (ruleApplies compile t i m r); [done|exact IH].
Qed.

(** the same for lifecycle rules: the level found for a create or a delete is that of the first
    configured rule for that operation (or for [ALL]) whose patterns match; when there is none, creating
    is allowed to everyone and deleting to nodes only. *)
Lemma lifecycle_first_match_decides (compile : string -> result string (string -> bool))
    (rules : list LifecycleRule) :
  match NewLifecycleValidator compile rules with
  | Ok v => forallb (goodLifecycleRule compile) rules = true
            /\ forall op t i, decidedLifecycle compile rules op t i = Ok (findLifecycleAccess v t i op)
  | Err _ => forallb (goodLifecycleRule compile) rules = false
  end.
Proof.
  unfold NewLifecycleValidator.
  pose proof (compileRules_spec (compileLifecycleRule compile) (goodLifecycleRule compile) _ rules
                (compileLifecycleRule_spec compile) 0) as H.
  destruct (compileRules _ 0 rules) as [v|]; [|exact H]. destruct H as [Hg HF]. split; [exact Hg|].
  intros op t i. unfold decidedLifecycle. clear Hg. induction HF as [|r c rules v [Hl Hm] HF IH]; cbn; [done|].
  rewrite Hm. destruct (lifecycleApplies compile op t i r); [done|exact IH].
Qed.

(** The decision matrix of the documentation: what a level grants to clients and to nodes *)
Definition matrix (a : AccessLevel) : bool * bool :=
  match a with
  | AccessReject => (false, false)
  | AccessInternal => (false, true)
  | AccessExternal => (true, false)
  | AccessAllow => (true, true)
  end.

(** C31: the validators decide as the configured rules say.  A rule list is accepted exactly when every rule of it is
    complete: it has a type, patterns that compile, and a valid level (and lifecycle operation).  Then every check of a
    method call grants a client, and a node, what the decision matrix of the documentation grants at the level of the
    first configured rule whose patterns match the object's type, id and method, and denies both when none does.
    The checks of creations and deletions do the same with the first rule for that operation, or for [ALL], whose
    patterns match; without one everyone may create and only nodes delete.  These are the checks by themselves: the node
    applies its own to every call it receives, also to those that a gate forwards. *)
Theorem access_rules_decide (compile : string -> result string (string -> bool)) (rules : list AccessRule) (lrules : list LifecycleRule) :
  match NewAccessValidator compile rules with
  | Ok v => forallb (goodRule compile) rules = true /\ forall t i m, exists a, decided compile rules t i m = Ok a /\
      CheckClientAccess v t i m = fst (matrix a) /\ CheckNodeAccess v t i m = snd (matrix a)
  | Err _ => forallb (goodRule compile) rules = false
  end /\
  match NewLifecycleValidator compile lrules with
  | Ok v => forallb (goodLifecycleRule compile) lrules = true /\ forall t i, exists c d,
      decidedLifecycle compile lrules LifecycleCreate t i = Ok c /\ decidedLifecycle compile lrules LifecycleDelete t i = Ok d /\
      CheckClientCreate v t i = fst (matrix c) /\ CheckNodeCreate v t i = snd (matrix c) /\
      CheckClientDelete v t i = fst (matrix d) /\ CheckNodeDelete v t i = snd (matrix d)
  | Err _ => forallb (goodLifecycleRule compile) lrules = false
  end.
Proof.
  pose proof (access_first_match_decides compile rules) as H. pose proof (lifecycle_first_match_decides compile lrules) as Hl. split.
  - destruct (NewAccessValidator compile rules) as [v|]; [|done]. destruct H as [Hg H]. split; [done|]. intros t i m.
    exists (findAccess v t i m). split; [apply H|]. unfold CheckClientAccess, CheckNodeAccess. by destruct (findAccess v t i m).
  - destruct (NewLifecycleValidator compile lrules) as [v|]; [|done]. destruct Hl as [Hg Hl]. split; [done|]. intros t i.
    exists (findLifecycleAccess v t i LifecycleCreate), (findLifecycleAccess v t i LifecycleDelete). split; [apply Hl|]. split; [apply Hl|].
    unfold CheckClientCreate, CheckNodeCreate, CheckClientDelete, CheckNodeDelete.
    by destruct (findLifecycleAccess v t i LifecycleCreate), (findLifecycleAccess v t i LifecycleDelete).
Qed.

(** ** A valid configuration *)
Record valid_config (c : Config) : Prop := mkValid {
  v_version : (Version c = 1)%Z;
  v_provider : Provider (Cluster c) = "etcd";
  v_shards : (0 < Shards (Cluster c))%Z;
  v_endpoints : Endpoints (Etcd (Cluster c)) <> [];
  v_prefix : Prefix (Etcd (Cluster c)) <> "";
  v_node_ids : NoDup (nID <$> Nodes c);
  v_nodes : Forall (fun n => nID n <> "" /\ nGRPCAddr n <> "" /\ nAdvertiseAddr n <> "") (Nodes c);
  v_gate_ids : NoDup (gID <$> Gates c);
  v_gates : Forall (fun g => gID g <> "" /\ gGRPCAddr g <> "") (Gates c);
  v_autoload : Forall (fun o => aType o <> "" /\ aID o <> "" /\ ~ (PerShard o = true /\ PerNode o = true))
                 (AutoLoadObjects (Cluster c))
}.

Lemma validateNodes_spec (ids : gset string) (nodes : list NodeConfig) :
  validateNodes ids nodes = Ok tt <->
  Forall (fun n => nID n <> "" /\ nGRPCAddr n <> "" /\ nAdvertiseAddr n <> "") nodes
  /\ NoDup (nID <$> nodes) /\ Forall (fun n => nID n ∉ ids) nodes.
Proof.
  revert ids. induction nodes as [|n nodes IH]; intros ids; cbn.
  { split; [|done]. intros _. repeat constructor. }
  repeat case_bool_decide; cbn; rewrite ?Forall_cons, ?NoDup_cons; try (split; [discriminate|]; naive_solver).
  rewrite IH. rewrite list_elem_of_fmap. split.
  - intros (HF & HN & Hi). split_and!; auto.
    + intros (n' & E & Hn'). rewrite Forall_forall in Hi. specialize (Hi n' Hn'). set_solver.
    + eapply Forall_impl; [exact Hi|]. set_solver.
  - intros ((_ & HF) & (Hnot & HN) & (_ & Hi)). split_and!; auto.
    rewrite Forall_forall in Hi |- *. intros n' Hn'. specialize (Hi n' Hn').
    intros [E%elem_of_singleton|?]%elem_of_union; [|done]. apply Hnot. eauto.
Qed.

Lemma validateGates_spec (ids : gset string) (gates : list GateConfig) :
  validateGates ids gates = Ok tt <->
  Forall (fun g => gID g <> "" /\ gGRPCAddr g <> "") gates
  /\ NoDup (gID <$> gates) /\ Forall (fun g => gID g ∉ ids) gates.
Proof.
  revert ids. induction gates as [|n gates IH]; intros ids; cbn.
  { split; [|done]. intros _. repeat constructor. }
  repeat case_bool_decide; cbn; rewrite ?Forall_cons, ?NoDup_cons; try (split; [discriminate|]; naive_solver).
  rewrite IH. rewrite list_elem_of_fmap. split.
  - intros (HF & HN & Hi). split_and!; auto.
    + intros (n' & E & Hn'). rewrite Forall_forall in Hi. specialize (Hi n' Hn'). set_solver.
    + eapply Forall_impl; [exact Hi|]. set_solver.
  - intros ((_ & HF) & (Hnot & HN) & (_ & Hi)). split_and!; auto.
    rewrite Forall_forall in Hi |- *. intros n' Hn'. specialize (Hi n' Hn').
    intros [E%elem_of_singleton|?]%elem_of_union; [|done]. apply Hnot. eauto.
Qed.

Lemma validateAutoLoad_spec (objs : list AutoLoadObjectConfig) :
  validateAutoLoad objs = Ok tt <->
  Forall (fun o => aType o <> "" /\ aID o <> "" /\ ~ (PerShard o = true /\ PerNode o = true)) objs.
Proof.
  induction objs as [|o objs IH]; cbn; [by split; [constructor|]|].
  repeat case_bool_decide; cbn; rewrite ?Forall_cons; try (split; [discriminate|]; naive_solver).
  destruct (PerShard o), (PerNode o); cbn; rewrite ?IH; naive_solver.
Qed.

Lemma result_seq_ok {E A} (m : result E ()) (k : result E A) (a : A) :
  (match m with Ok _ => k | Err e => Err e end) = Ok a <-> m = Ok tt /\ k = Ok a.
Proof. destruct m as [[]|]; naive_solver. Qed.

Lemma findNode_spec (nodes : list NodeConfig) (n : NodeConfig) :
  NoDup (nID <$> nodes) -> n ∈ nodes -> findNode nodes (nID n) = Ok n.
Proof.
  induction nodes as [|x nodes IH]; cbn; rewrite ?NoDup_cons, ?elem_of_nil, ?elem_of_cons; [done|].
  rewrite list_elem_of_fmap. intros [Hx HN] [->|Hn]; case_bool_decide as E; auto; [done|].
  exfalso. apply Hx. eauto.
Qed.
Lemma findGate_spec (gates : list GateConfig) (n : GateConfig) :
  NoDup (gID <$> gates) -> n ∈ gates -> findGate gates (gID n) = Ok n.
Proof.
  induction gates as [|x gates IH]; cbn; rewrite ?NoDup_cons, ?elem_of_nil, ?elem_of_cons; [done|].
  rewrite list_elem_of_fmap. intros [Hx HN] [->|Hn]; case_bool_decide as E; auto; [done|].
  exfalso. apply Hx. eauto.
Qed.

Lemma Validate_iff (c : Config) : Validate c = Ok tt <-> valid_config c.
Proof.
  unfold Validate. split.
  - intros H. breflect.
    repeat match goal with
    | H : context [if ?b then _ else _] |- _ => destruct b eqn:?; cbn in H; [|discriminate H]
    end; breflect.
    apply result_seq_ok in H as [Hn [Hg Ha]%result_seq_ok].
    apply validateNodes_spec in Hn. apply validateGates_spec in Hg. apply validateAutoLoad_spec in Ha.
    destruct Hn as (? & ? & _), Hg as (? & ? & _).
    constructor; auto; lia.
  - intros []. repeat rewrite bool_decide_eq_true_2 by (auto; congruence). cbn.
    rewrite (proj2 (Z.eqb_eq _ _)) by done. rewrite (proj2 (Z.leb_gt _ _)) by done. cbn.
    rewrite !result_seq_ok, validateNodes_spec, validateGates_spec, validateAutoLoad_spec.
    split_and!; auto; apply Forall_forall; set_solver.
Qed.

(** C39: [Validate] accepts exactly the configurations with version 1, the etcd provider, a positive
    number of shards, an endpoint and a prefix, nodes and gates with their addresses and distinct
    non-empty ids, and complete auto-load entries; on those, [GetNodeByID] and [GetGateByID] return
    each configured node and gate under its own id. *)
Theorem Validate_exact (c : Config) :
  (Validate c = Ok tt <-> valid_config c)
  /\ (Validate c = Ok tt ->
      (forall n, n ∈ Nodes c -> GetNodeByID c (nID n) = Ok n)
      /\ (forall g, g ∈ Gates c -> GetGateByID c (gID g) = Ok g)).
Proof.
  split; [apply Validate_iff|]. intros Hv%Validate_iff. destruct Hv.
  split; intros x Hx; [by apply findNode_spec|by apply findGate_spec].
Qed.

Definition sampleConfig : Config :=
  mkConfig 1 (mkClusterConfig 8192 "etcd" (mkEtcdConfig ["localhost:2379"] "/goverse") f0 0 0 0 0 0
                [mkAutoLoad "ChatRoomMgr" "ChatRoomMgr0" false false])
    (mkPostgresConfig "" 0 "" "" "" "" 0 0) (mkInspectorConfig "" "" "")
    [mkNodeConfig "n1" ":47000" "localhost:47000" ""; mkNodeConfig "n2" ":47001" "localhost:47001" ""]
    [mkGateConfig "g1" ":48000" "" "" ""] [] [].

Lemma Validate_exact_witness :
  Validate sampleConfig = Ok tt
  /\ GetNodeByID sampleConfig "n2" = Ok (mkNodeConfig "n2" ":47001" "localhost:47001" "").
Proof.
  assert (H : Validate sampleConfig = Ok tt) by (vm_compute; reflexivity). split; [exact H|].
  apply (proj1 (proj2 (Validate_exact sampleConfig) H) (mkNodeConfig "n2" ":47001" "localhost:47001" "")).
  right. left.
Defined.
