(* ===== verification/ClusterConfig.v ===== *)
(** * The configuration of a cluster object (cluster/config.go)

    [Module ClusterConf]: the record a process hands to its cluster, with the defaults of production.
    Durations are in nanoseconds. *)

From S2P Require Import Prelude GoFloat AccessControl.
Import Float64.

Module ClusterConf.

Definition Second : Z := 1000000000.

Record Config : Type := mkConfig {
  EtcdAddress : string;
  EtcdPrefix : string;
  MinQuorum : Z;
  ClusterStateStabilityDuration : Z;
  ShardMappingCheckInterval : Z;
  NumShards : Z;
  RebalanceShardsBatchSize : Z;
  ImbalanceThreshold : float64;
  StuckShardReallocationTimeout : Z;
  AutoLoadObjects : list Conf.AutoLoadObjectConfig;
  DefaultCallTimeout : Z;
  DefaultCreateTimeout : Z;
  DefaultDeleteTimeout : Z;
  ConfigFile : option Conf.Config
}.

(** [DefaultConfig] *)
Definition DefaultConfig : Config :=
  let numShards := 8192%Z in
  mkConfig "" "" 1 (10 * Second) (5 * Second) numShards (Z.max 1 (Z.quot numShards 128)) f0_2 0 []
    (30 * Second) (30 * Second) (30 * Second) None.

End ClusterConf.
