(* ===== verification/Node.v ===== *)
(** * The node (node/node.go)

    A node is its registered object types, its map of live objects and the store it persists them in.
    The operations of [Module Nodes] are the methods of [Node].  Each runs under the locks its source
    takes: [stopMu] keeps it apart from [Stop], the per-object lock makes what it does to one object
    between taking and releasing the lock atomic.  Where the source gives up its locks inside an
    operation, or waits for one, the operation takes an argument ([wait], [await], [sleep]): whatever
    the other goroutines do to the node at that point.  User code is the [Class] of Object.v with the
    hook [onCreated]; the store is any [PersistenceProvider].  Logging, metrics and the connection to
    the inspector are not modelled; what the node reports to the inspector, the objects it destroys
    and the processing loops it starts are its [events]. *)

From S2P Require Import Prelude GoStrings ObjectId Persistence Object ReliableCalls AccessControl.
Import Proto Objects Access.

Module Nodes.

(** [goverse_pb.ReliableCallStatus] *)
Inductive ReliableCallStatus : Type := UNKNOWN | PENDING | SUCCESS | FAILED | SKIPPED.

#[global] Instance ReliableCallStatus_eq_dec : EqDecision ReliableCallStatus.
Proof. solve_decision. Defined.

(** [stringToReliableCallStatus] *)
Definition stringToReliableCallStatus (status : string) : ReliableCallStatus :=
  if bool_decide (status = "pending") then PENDING
  else if bool_decide (status = "success") then SUCCESS
  else if bool_decide (status = "failed") then FAILED
  else if bool_decide (status = "skipped") then SKIPPED
  else UNKNOWN.

Inductive node_error : Type :=
| ErrStopped
| ErrEmptyID
| ErrTypeExists (want got : string)
| ErrCreateDenied
| ErrUnknownType (typ : string)
| ErrRestore (msg : string)
| ErrAutoCreate (e : node_error)
| ErrRetry                                  (* "was not found [RETRY]" *)
| ErrTypeMismatch (want got : string)
| ErrInvoke (e : invoke_error)
| ErrEmptyParam (name : string)
| ErrNoProvider
| ErrSerialize (msg : string)
| ErrInsert (e : db_error)
| ErrDeserialize (msg : string)
| ErrReliable (status msg : string)
| ErrFetch (e : db_error)
| ErrCtxDone
| ErrStillPending
| ErrUnknownStatus (status : string)
| ErrEmptyType
| ErrDeleteType (claimed real : string)
| ErrDeleteDenied
| ErrDeletePersist (e : db_error)
| ErrSaveBeforeEvict (e : data_error)
| ErrSaveCount (n : nat).

Section Node.
Context {St Msg Data Any P : Type} `{PersistenceProvider P}.
Context (rt : Runtime Any Msg) (onCreated : Class St Msg Data -> St -> St).
Open Scope go_scope.

(** A live object: the value and the type it is an instance of *)
Record liveObject : Type := mkLive { cls_of : Class St Msg Data; base : BaseObject St }.

Inductive node_event : Type :=
| ObjectAdded (id typ : string) (shardID : Z)
| ObjectRemoved (id : string)
| Destroyed (o : BaseObject St)
| LoopStarted (id : string)
| Unregistered.                              (* the node leaves the inspector *)

Record Node : Type := mkNode {
  advertiseAddress : string;
  numShards : Z;
  objectTypes : gmap string (Class St Msg Data);
  objects : gmap string liveObject;
  hasProvider : bool;                        (* persistenceProvider != nil *)
  store : P;                                 (* the state of the provider *)
  started : bool;
  stopped : bool;
  lifecycleValidator : option (list CompiledLifecycleRule);
  events : list node_event
}.

Definition set_objects (n : Node) (objs : gmap string liveObject) : Node :=
  mkNode (advertiseAddress n) (numShards n) (objectTypes n) objs (hasProvider n) (store n) (started n) (stopped n)
    (lifecycleValidator n) (events n).
Definition set_store (n : Node) (p : P) : Node :=
  mkNode (advertiseAddress n) (numShards n) (objectTypes n) (objects n) (hasProvider n) p (started n) (stopped n)
    (lifecycleValidator n) (events n).
Definition emit (n : Node) (evs : list node_event) : Node :=
  mkNode (advertiseAddress n) (numShards n) (objectTypes n) (objects n) (hasProvider n) (store n) (started n)
    (stopped n) (lifecycleValidator n) (events n ++ evs).
Definition set_object (n : Node) (oid : string) (c : Class St Msg Data) (o : BaseObject St) : Node :=
  set_objects n (<[oid := mkLive c o]> (objects n)).

(** [NewNode]; [p] is the store a provider set later will use *)
Definition NewNode (addr : string) (shards : Z) (p : P) : Node :=
  mkNode addr shards ∅ ∅ false p false false None [].

(** [SetPersistenceProvider], [SetLifecycleValidator] *)
Definition SetPersistenceProvider (n : Node) (present : bool) : Node :=
  mkNode (advertiseAddress n) (numShards n) (objectTypes n) (objects n) present (store n) (started n) (stopped n)
    (lifecycleValidator n) (events n).
Definition SetLifecycleValidator (n : Node) (lv : option (list CompiledLifecycleRule)) : Node :=
  mkNode (advertiseAddress n) (numShards n) (objectTypes n) (objects n) (hasProvider n) (store n) (started n)
    (stopped n) lv (events n).

(** [Start]: the clock and the node's context; whether the periodic saving starts *)
Definition Start (n : Node) : Node * bool :=
  (mkNode (advertiseAddress n) (numShards n) (objectTypes n) (objects n) (hasProvider n) (store n) true (stopped n)
     (lifecycleValidator n) (events n), hasProvider n).

(** [GetShardID] *)
Definition NodeShardID (n : Node) (objectID : string) : Z := Sharding.GetShardID objectID (numShards n).

(** [RegisterObjectType]; [None] is a panic.  [isPtr] is whether it was given a pointer. *)
Definition RegisterObjectType (n : Node) (isPtr : bool) (c : Class St Msg Data) : option Node :=
  if negb isPtr then None
  else if bool_decide (is_Some (objectTypes n !! className c)) then None
  else Some (mkNode (advertiseAddress n) (numShards n) (<[className c := c]> (objectTypes n)) (objects n)
               (hasProvider n) (store n) (started n) (stopped n) (lifecycleValidator n) (events n)).

(** The check for an existing object that [createObject] makes twice *)
Definition existing (n : Node) (typ oid : string) : option (result node_error ()) :=
  match objects n !! oid with
  | None => None
  | Some o =>
      if bool_decide (objType (base o) = typ) then Some (Ok tt)
      else Some (Err (ErrTypeExists typ (objType (base o))))
  end.

(** [createObject] under the per-object lock, after the second check: build, restore, publish *)
Definition createNew (n : Node) (typ oid : string) : Node * result node_error () :=
  if match lifecycleValidator n with Some rules => negb (CheckNodeCreate rules typ oid) | None => false end
  then (n, Err ErrCreateDenied)
  else match objectTypes n !! typ with
  | None => (n, Err (ErrUnknownType typ))
  | Some c =>
      let '(p', r) := restoreObject c (hasProvider n) (store n) oid in
      let n := set_store n p' in
      match r with
      | Err m => (n, Err (ErrRestore m))
      | Ok obj =>
          let obj := set_st obj (onCreated c (st obj)) in
          let '(obj, start) := if hasProvider n then EnsureProcessingLoopRunning obj else (obj, false) in
          let n := set_object n oid c obj in
          let shardID :=
            match Parser.ParseObjectID oid with
            | Ok parsed => if Parser.IsFixedNodeFormat parsed then (-1)%Z else NodeShardID n oid
            | Err _ => NodeShardID n oid
            end in
          (emit n ((if start then [LoopStarted oid] else []) ++ [ObjectAdded oid typ shardID]), Ok tt)
      end
  end.

(** [createObject]; [wait] is what happens while it waits for the per-object lock *)
Definition createObject (wait : Node -> Node) (n : Node) (typ oid : string) : Node * result node_error () :=
  if bool_decide (oid = "") then (n, Err ErrEmptyID)
  else match existing n typ oid with
  | Some r => (n, r)
  | None =>
      let n := wait n in
      match existing n typ oid with
      | Some r => (n, r)
      | None => createNew n typ oid
      end
  end.

(** [CreateObject] *)
Definition CreateObject (wait : Node -> Node) (n : Node) (typ oid : string) : Node * result node_error string :=
  if stopped n then (n, Err ErrStopped)
  else
    let '(n, r) := createObject wait n typ oid in
    (n, match r with Ok _ => Ok oid | Err e => Err e end).

(** [CallObject]; [wait2] is what happens between the auto-creation and the lock of the call.  The lock is shared: from
    then on, and while the method runs, other methods of the object run too, the method calls other objects, and other
    goroutines go on ([during]).  What the method does to its own object is one step, at some moment of its run, on the
    state the object has then: an object guards its fields itself. *)
Definition CallObject (wait wait2 during : Node -> Node) (n : Node) (typ oid method : string) (request : option Msg)
    : Node * result node_error Msg :=
  if stopped n then (n, Err ErrStopped)
  else
    let '(n, r) := createObject wait n typ oid in
    match r with
    | Err e => (n, Err (ErrAutoCreate e))
    | Ok _ =>
        let n := wait2 n in
        match objects n !! oid with
        | None => (n, Err ErrRetry)
        | Some o =>
            if bool_decide (objType (base o) <> typ) then (n, Err (ErrTypeMismatch typ (objType (base o))))
            else
              let n := during n in
              let now := default o (objects n !! oid) in
              let '(s', r) := InvokeMethod rt (cls_of o) (st (base now)) method request in
              (match objects n !! oid with
               | Some _ => set_object n oid (cls_of o) (set_st (base now) s')
               | None => n
               end,
               match r with Ok resp => Ok resp | Err e => Err (ErrInvoke e) end)
        end
    end.

(** [InsertOrGetReliableCall] *)
Definition NodeInsertOrGetReliableCall (n : Node) (callID objectType objectID methodName : string)
    (request : option Msg) : Node * result node_error ReliableCall :=
  if negb (hasProvider n) then (n, Err ErrNoProvider)
  else match MsgToBytes rt request with
  | Err m => (n, Err (ErrSerialize m))
  | Ok requestData =>
      let '(p', r) := pInsertOrGetReliableCall (store n) callID objectID objectType methodName requestData in
      (set_store n p', match r with Ok rc => Ok rc | Err e => Err (ErrInsert e) end)
  end.

(** What a reliable call answers: the result, the status and the error *)
Definition reply : Type := option Any * ReliableCallStatus * option node_error.

(** The polling loop of [ReliableCallObject]: at most [k] more reads.  [sleep i] is what happens during
    the [i]-th pause, [None] when the caller's context ends in it. *)
Fixpoint pollCall (sleep : nat -> Node -> option Node) (k i : nat) (n : Node) (seq : Z) (last : option ReliableCall)
    : Node * result reply (option ReliableCall) :=
  match k with
  | O => (n, Ok last)
  | S k' =>
      let '(p', r) := pGetReliableCallBySeq (store n) seq in
      let n := set_store n p' in
      match r with
      | Err e => (n, Err (None, UNKNOWN, Some (ErrFetch e)))
      | Ok call =>
          if bool_decide (Status call <> "pending") then (n, Ok (Some call))
          else match sleep i n with
          | None => (n, Err (None, UNKNOWN, Some ErrCtxDone))
          | Some n' => pollCall sleep k' (S i) n' seq (Some call)
          end
      end
  end.

Definition maxRetries : nat := 50.

(** The answer for a call row at the end of [ReliableCallObject] *)
Definition answer (call : ReliableCall) : reply :=
  let status := stringToReliableCallStatus (Status call) in
  if bool_decide (Status call = "success") then
    match BytesToAny rt (ResultData call) with
    | Err m => (None, FAILED, Some (ErrDeserialize m))
    | Ok resultAny => (resultAny, status, None)
    end
  else if bool_decide (Status call = "failed") then (None, status, Some (ErrReliable "failed" (Error call)))
  else if bool_decide (Status call = "skipped") then (None, status, Some (ErrReliable "skipped" (Error call)))
  else if bool_decide (Status call = "pending") then (None, status, Some ErrStillPending)
  else (None, status, Some (ErrUnknownStatus (Status call))).

(** The answer for a call found finished, before anything is executed *)
Definition cached (rc : ReliableCall) : option reply :=
  let status := stringToReliableCallStatus (Status rc) in
  if bool_decide (Status rc = "success") then
    match BytesToAny rt (ResultData rc) with
    | Err m => Some (None, FAILED, Some (ErrDeserialize m))
    | Ok resultAny => Some (resultAny, status, None)
    end
  else if bool_decide (Status rc = "failed") || bool_decide (Status rc = "skipped")
  then Some (None, status, Some (ErrReliable (Status rc) (Error rc)))
  else None.

(** [ReliableCallObject] from the registration of the waiter on: [ch] is the new channel, [await] what
    happens until something arrives on it ([None] when it is closed) *)
Definition awaitCall (await : Node -> Node * option ReliableCall) (sleep : nat -> Node -> option Node)
    (n : Node) (oid : string) (o : liveObject) (rc : ReliableCall) (ch : nat) : Node * reply :=
  let '(b', evs, start) := ProcessPendingReliableCalls (base o) (Seq rc) ch in
  let n := emit (set_object n oid (cls_of o) b') (if start then [LoopStarted oid] else []) in
  let '(n, call) := match evs with [] => await n | _ => (n, None) end in
  match call with
  | Some call => (n, answer call)
  | None =>
      let '(n, r) := pollCall sleep maxRetries 0 n (Seq rc) None in
      match r with
      | Err rep => (n, rep)
      | Ok (Some call) => (n, answer call)
      | Ok None => (n, (None, UNKNOWN, None))    (* only for [maxRetries] = 0 *)
      end
  end.

(** [ReliableCallObject]; [wait2] and [wait3] are what happens until it has the per-object lock and the
    object's sequential write lock.  The object is a pointer: its fields are read when they are used. *)
Definition ReliableCallObject (wait wait2 wait3 : Node -> Node) (await : Node -> Node * option ReliableCall)
    (sleep : nat -> Node -> option Node) (n : Node) (callID objectType objectID methodName : string)
    (request : option Any) (ch : nat) : Node * reply :=
  let skip (n : Node) (e : node_error) := (n, (None, SKIPPED, Some e)) in
  if stopped n then skip n ErrStopped
  else if bool_decide (callID = "") then skip n (ErrEmptyParam "callID")
  else if bool_decide (objectType = "") then skip n (ErrEmptyParam "objectType")
  else if bool_decide (objectID = "") then skip n (ErrEmptyParam "objectID")
  else if bool_decide (methodName = "") then skip n (ErrEmptyParam "methodName")
  else if negb (hasProvider n) then skip n ErrNoProvider
  else
    let '(n, r) := createObject wait n objectType objectID in
    match r with
    | Err e => skip n (ErrAutoCreate e)
    | Ok _ =>
        let n := wait2 n in
        match objects n !! objectID with
        | None => skip n ErrRetry
        | Some o =>
            if bool_decide (objType (base o) <> objectType)
            then skip n (ErrTypeMismatch objectType (objType (base o)))
            else
            let n := wait3 n in
            match AnyToBytes rt request with
            | Err m => skip n (ErrSerialize m)
            | Ok requestData =>
                let '(p', ins) := pInsertOrGetReliableCall (store n) callID objectID objectType methodName requestData in
                let n := set_store n p' in
                match ins with
                | Err e => skip n (ErrInsert e)
                | Ok rc =>
                    match cached rc with
                    | Some rep => (n, rep)
                    | None => awaitCall await sleep n objectID (default o (objects n !! objectID)) rc ch
                    end
                end
            end
        end
    end.

(** [destroyObject] *)
Definition destroyObject (n : Node) (oid : string) : Node :=
  match objects n !! oid with
  | Some o =>
      emit (set_objects n (delete oid (objects n))) [Destroyed (Destroy (base o)); ObjectRemoved oid]
  | None => emit n [ObjectRemoved oid]
  end.

(** [DeleteObject]; [wait] is what happens while it waits for the per-object lock *)
Definition DeleteObject (wait : Node -> Node) (n : Node) (claimedType oid : string) : Node * result node_error () :=
  if bool_decide (claimedType = "") then (n, Err ErrEmptyType)
  else if stopped n then (n, Ok tt)
  else
    let n := wait n in
    match objects n !! oid with
    | None => (n, Ok tt)
    | Some o =>
        let typ := objType (base o) in
        if bool_decide (typ <> claimedType) then (n, Err (ErrDeleteType claimedType typ))
        else if match lifecycleValidator n with Some rules => negb (CheckNodeDelete rules typ oid) | None => false end
        then (n, Err ErrDeleteDenied)
        else if hasProvider n then
          match toData (cls_of o) (st (base o)) with
          | Ok _ =>
              let '(p', r) := pDeleteObject (store n) oid in
              let n := set_store n p' in
              match r with
              | Err e => (n, Err (ErrDeletePersist e))
              | Ok _ => (destroyObject n oid, Ok tt)
              end
          | Err _ => (destroyObject n oid, Ok tt)
          end
        else (destroyObject n oid, Ok tt)
    end.

(** [EvictObject] *)
Definition EvictObject (wait : Node -> Node) (n : Node) (oid : string) : Node * result node_error () :=
  if stopped n then (n, Ok tt)
  else
    let n := wait n in
    match objects n !! oid with
    | None => (n, Ok tt)
    | Some o =>
        if hasProvider n then
          let '(p', r) := Save (cls_of o) (store n) (base o) in
          let n := set_store n p' in
          match r with
          | Err e => if bool_decide (e = ErrNotPersistent) then (destroyObject n oid, Ok tt)
                     else (n, Err (ErrSaveBeforeEvict e))
          | Ok _ => (destroyObject n oid, Ok tt)
          end
        else (destroyObject n oid, Ok tt)
    end.

(** [NumObjects], [ListObjectIDs]; [ids] is the order of the map iteration *)
Definition NumObjects (n : Node) : nat := size (objects n).
Definition ListObjectIDs (n : Node) (ids : list string) : list string :=
  omap (fun k => (fun o => id (base o)) <$> objects n !! k) ids.

(** The loop of [saveAllObjectsLocked] over the snapshot of ids: the store and the number of errors *)
Fixpoint saveLoop (objs : gmap string liveObject) (ids : list string) (p : P) (errorCount : nat) : P * nat :=
  match ids with
  | [] => (p, errorCount)
  | oid :: rest =>
      match objs !! oid with
      | None => saveLoop objs rest p errorCount
      | Some o =>
          let '(p', r) := Save (cls_of o) p (base o) in
          match r with
          | Ok _ => saveLoop objs rest p' errorCount
          | Err e => if bool_decide (e = ErrNotPersistent) then saveLoop objs rest p' errorCount
                     else saveLoop objs rest p' (S errorCount)
          end
      end
  end.

(** [saveAllObjectsLocked] when no other goroutine changes the objects meanwhile *)
Definition saveAllObjectsLocked (n : Node) (ids : list string) : Node * result node_error () :=
  if negb (hasProvider n) then (n, Err ErrNoProvider)
  else
    let '(p', errorCount) := saveLoop (objects n) ids (store n) 0 in
    (set_store n p', if (0 <? errorCount)%nat then Err (ErrSaveCount errorCount) else Ok tt).

(** [SaveAllObjects] *)
Definition SaveAllObjects (n : Node) (ids : list string) : Node * result node_error () :=
  if stopped n then (n, Err ErrStopped) else saveAllObjectsLocked n ids.

(** One turn of [periodicPersistenceLoop] per element: a tick with the order of the map iteration, or
    [None] when the loop's context is done *)
Fixpoint periodicPersistenceLoop (n : Node) (turns : list (option (list string))) : Node :=
  match turns with
  | [] => n
  | None :: _ => n
  | Some ids :: rest => periodicPersistenceLoop (fst (SaveAllObjects n ids)) rest
  end.

(** [Stop]: raise the flag, wait for the operations in flight ([wait]), save, clear and destroy *)
Definition set_stopped (n : Node) : Node :=
  mkNode (advertiseAddress n) (numShards n) (objectTypes n) (objects n) (hasProvider n) (store n) (started n) true
    (lifecycleValidator n) (events n).

Definition Stop (wait : Node -> Node) (n : Node) (ids : Node -> list string) : Node :=
  let had := hasProvider n in
  let n := wait (set_stopped n) in
  let n := if had then fst (saveAllObjectsLocked n (ids n)) else n in
  emit (set_objects n ∅)
    (omap (fun k => (fun o => Destroyed (Destroy (base o))) <$> objects n !! k) (ids n) ++ [Unregistered]).

End Node.
End Nodes.
Import Nodes.

(** ** The node's invariant *)

Section Invariant.
Context {St Msg Data Any P : Type} `{PersistenceProvider P}.
Context (rt : Runtime Any Msg) (onCreated : Class St Msg Data -> St -> St).
Abbreviation node := (Node (St := St) (Msg := Msg) (Data := Data) (P := P)).

(** What the inspector shows for the node: the objects it was told of, with their types *)
Definition show (m : gmap string string) (e : node_event (St := St)) : gmap string string :=
  match e with
  | ObjectAdded oid typ _ => <[oid := typ]> m
  | ObjectRemoved oid => delete oid m
  | Unregistered => ∅
  | _ => m
  end.
Definition view (evs : list (node_event (St := St))) : gmap string string := fold_left show evs ∅.

Record node_inv (n : node) : Prop := mkInv {
  inv_types : forall t c, objectTypes n !! t = Some c -> className c = t;
  inv_objects : forall oid o, objects n !! oid = Some o ->
    oid <> "" /\ id (base o) = oid /\ objectTypes n !! objType (base o) = Some (cls_of o);
  inv_view : view (events n) = (fun o => objType (base o)) <$> objects n
}.

Definition keeps (f : node -> node) : Prop := forall n, node_inv n -> node_inv (f n).

Lemma view_app evs1 evs2 : view (evs1 ++ evs2) = fold_left show evs2 (view evs1).
Proof. unfold view. apply fold_left_app. Qed.

Lemma inv_set_store n p : node_inv n -> node_inv (set_store n p).
Proof. by intros []. Qed.

(** Replacing an object by one with the same id and type *)
Lemma inv_update n oid o b :
  node_inv n -> objects n !! oid = Some o -> id b = id (base o) -> objType b = objType (base o) ->
  node_inv (set_object n oid (cls_of o) b).
Proof.
  intros [Ht Ho Hv] Hl Hid Hty. split; simpl; [done| |].
  - intros k o'. rewrite lookup_insert_Some. intros [[<- <-]|[_ Hk]]; [|by apply Ho].
    destruct (Ho oid o Hl) as (? & ? & ?). simpl. split_and!; congruence.
  - rewrite Hv, fmap_insert. symmetry. apply insert_id. rewrite lookup_fmap, Hl. simpl. by rewrite Hty.
Qed.

Lemma inv_emit_quiet n evs :
  node_inv n -> (forall m, fold_left show evs m = m) -> node_inv (emit n evs).
Proof. intros [Ht Ho Hv] He. split; simpl; [done|done|]. by rewrite view_app, He, Hv. Qed.

Lemma restoreObject_spec (c : Class St Msg Data) h (p p' : P) oid obj :
  restoreObject c h p oid = (p', Ok obj) -> oid <> "" ->
  id obj = oid /\ objType obj = className c /\ seqWaiters obj = [] /\ processingCalls obj = false /\ ctxDone obj = false.
Proof.
  intros Hr Hne. unfold restoreObject, OnInit in Hr. rewrite bool_decide_eq_false_2 in Hr by done.
  repeat case_match; simplify_eq; done.
Qed.

Lemma existing_None (n : node) typ oid : existing n typ oid = None <-> objects n !! oid = None.
Proof. unfold existing. destruct (objects n !! oid); [|done]. case_bool_decide; done. Qed.

Lemma inv_createNew n typ oid :
  node_inv n -> oid <> "" -> objects n !! oid = None -> node_inv (fst (createNew onCreated n typ oid)).
Proof.
  intros Hi Hne Hno. unfold createNew. case_match; [done|].
  destruct (objectTypes n !! typ) as [c|] eqn:Hc; [|done].
  destruct (restoreObject c (hasProvider n) (store n) oid) as [p' [obj|m]] eqn:Hr; [|by apply inv_set_store].
  destruct (restoreObject_spec _ _ _ _ _ _ Hr Hne) as (Hid & Hty & _).
  pose proof (inv_types _ Hi _ _ Hc) as Hn.
  set (b := set_st obj (onCreated c (st obj))).
  assert (forall b' evs, id b' = oid -> objType b' = typ ->
    node_inv (emit (set_object (set_store n p') oid c b') ((if evs : bool then [LoopStarted oid] else []) ++
      [ObjectAdded oid typ (match Parser.ParseObjectID oid with
            | Ok parsed => if Parser.IsFixedNodeFormat parsed then (-1)%Z else NodeShardID (set_object (set_store n p') oid c b') oid
            | Err _ => NodeShardID (set_object (set_store n p') oid c b') oid end)]))) as Hgoal.
  { intros b' evs Hid' Hty'. destruct Hi as [Ht Ho Hv]. split; simpl; [done| |].
    - intros k o. rewrite lookup_insert_Some. intros [[<- <-]|[_ Hk]]; [|by apply Ho]. simpl. by rewrite Hty'.
    - rewrite view_app, Hv, fmap_insert. simpl. rewrite Hty'. by destruct evs. }
  simpl. destruct (hasProvider n).
  - unfold EnsureProcessingLoopRunning. destruct (processingCalls b); simpl;
      apply (Hgoal _ true) || apply (Hgoal _ false); simpl; congruence.
  - simpl. apply (Hgoal b false); simpl; congruence.
Qed.

Lemma inv_createObject wait n typ oid :
  keeps wait -> node_inv n -> node_inv (fst (createObject onCreated wait n typ oid)).
Proof.
  intros Hw Hi. unfold createObject. case_bool_decide; [done|]. destruct (existing n typ oid); [done|].
  destruct (existing (wait n) typ oid) eqn:E; [by apply Hw|].
  apply existing_None in E. apply inv_createNew; auto.
Qed.

Lemma inv_destroy n oid : node_inv n -> node_inv (destroyObject n oid).
Proof.
  intros Hi. unfold destroyObject. destruct (objects n !! oid) as [o|] eqn:E; destruct Hi as [Ht Ho Hv]; split; simpl; try done.
  - intros k o'. rewrite lookup_delete_Some. intros [_ Hk]. by apply Ho.
  - by rewrite view_app, Hv, fmap_delete.
  - rewrite view_app, Hv. simpl. rewrite delete_id; [done|]. by rewrite lookup_fmap, E.
Qed.

(** ** Runs of a node *)

(** A call of one of the node's operations with what the others do at its interference points *)
Inductive op : Type :=
| OpRegister (isPtr : bool) (c : Class St Msg Data)
| OpCreate (wait : node -> node) (typ oid : string)
| OpCall (wait wait2 during : node -> node) (typ oid method : string) (request : option Msg)
| OpReliable (wait wait2 wait3 : node -> node) (await : node -> node * option ReliableCall)
    (sleep : nat -> node -> option node) (callID typ oid method : string) (request : option Any) (ch : nat)
| OpDelete (wait : node -> node) (typ oid : string)
| OpEvict (wait : node -> node) (oid : string)
| OpSaveAll (ids : list string)
| OpStop (wait : node -> node) (ids : node -> list string).

Definition run_op (n : node) (o : op) : node :=
  match o with
  | OpRegister isPtr c => default n (RegisterObjectType n isPtr c)
  | OpCreate w t i => fst (CreateObject onCreated w n t i)
  | OpCall w w2 dur t i m r => fst (CallObject rt onCreated w w2 dur n t i m r)
  | OpReliable w w2 w3 aw sl c t i m r ch => fst (ReliableCallObject rt onCreated w w2 w3 aw sl n c t i m r ch)
  | OpDelete w t i => fst (DeleteObject w n t i)
  | OpEvict w i => fst (EvictObject w n i)
  | OpSaveAll ids => fst (SaveAllObjects n ids)
  | OpStop w ids => Stop w n ids
  end.

(** The others keep the invariant at every interference point, and the object whose shared lock the
    operation holds. *)
Definition retains (w : node -> node) (oid : string) : Prop :=
  forall n o, objects n !! oid = Some o -> exists b, objects (w n) !! oid = Some (mkLive (cls_of o) b).

Definition fair (o : op) : Prop :=
  match o with
  | OpRegister _ _ | OpSaveAll _ => True
  | OpCreate w _ _ | OpDelete w _ _ | OpEvict w _ | OpStop w _ => keeps w
  | OpCall w w2 dur _ i _ _ => keeps w /\ keeps w2 /\ keeps dur /\ retains dur i
  | OpReliable w w2 w3 aw sl _ _ i _ _ _ =>
      keeps w /\ keeps w2 /\ keeps w3 /\ (forall n, is_Some (objects n !! i) -> is_Some (objects (w3 n) !! i)) /\ (forall n, node_inv n -> node_inv (fst (aw n)))
      /\ (forall i n n', node_inv n -> sl i n = Some n' -> node_inv n')
  end.

Lemma inv_poll sl k i n seq last :
  (forall i n n', node_inv n -> sl i n = Some n' -> node_inv n') ->
  node_inv n -> node_inv (fst (pollCall (Any := Any) sl k i n seq last)).
Proof.
  intros Hs. revert i n last. induction k as [|k IH]; intros i n l Hi; simpl; [done|].
  destruct (pGetReliableCallBySeq (store n) seq) as [p' [c|e]]; simpl; [|by apply inv_set_store].
  case_bool_decide; simpl; [by apply inv_set_store|].
  destruct (sl i (set_store n p')) as [n'|] eqn:E; simpl; [|by apply inv_set_store].
  apply IH. eapply Hs; [|exact E]. by apply inv_set_store.
Qed.

Lemma inv_await aw sl n oid o rc ch :
  (forall n, node_inv n -> node_inv (fst (aw n))) ->
  (forall i n n', node_inv n -> sl i n = Some n' -> node_inv n') ->
  node_inv n -> objects n !! oid = Some o -> node_inv (fst (awaitCall rt aw sl n oid o rc ch)).
Proof.
  intros Ha Hs Hi Ho. unfold awaitCall.
  destruct (ProcessPendingReliableCalls (base o) (Seq rc) ch) as [[b' evs] start] eqn:Ep.
  assert (id b' = id (base o) /\ objType b' = objType (base o)) as [Hid Hty].
  { unfold ProcessPendingReliableCalls in Ep. case_match; by simplify_eq. }
  set (n1 := emit (set_object n oid (cls_of o) b') (if start then [LoopStarted oid] else [])).
  assert (node_inv n1) as Hn1 by (apply inv_emit_quiet; [by apply inv_update|by destruct start]).
  assert (node_inv (fst (match evs with [] => aw n1 | _ => (n1, None) end))) as Hn2 by (destruct evs; simpl; auto).
  clearbody n1. destruct (match evs with [] => aw n1 | _ => (n1, None) end) as [n2 [call|]]; cbn [fst] in Hn2; [done|].
  pose proof (inv_poll sl maxRetries 0 n2 (Seq rc) None Hs Hn2) as Hp.
  destruct (pollCall sl maxRetries 0 n2 (Seq rc) None) as [n3 [[call|]|rep]]; exact Hp.
Qed.

Lemma inv_reliable w w2 w3 aw sl n c t i m r ch :
  fair (OpReliable w w2 w3 aw sl c t i m r ch) -> node_inv n ->
  node_inv (fst (ReliableCallObject rt onCreated w w2 w3 aw sl n c t i m r ch)).
Proof.
  intros (Hw & Hw2 & Hw3 & Hk & Ha & Hs) Hi. unfold ReliableCallObject. repeat (case_match; [done|]).
  pose proof (inv_createObject w n t i Hw Hi) as Hc.
  destruct (createObject onCreated w n t i) as [n1 [[]|e]]; simpl in Hc |- *; [|done].
  apply Hw2 in Hc. destruct (objects (w2 n1) !! i) as [o|] eqn:Ho; simpl; [|done].
  destruct (bool_decide (objType (base o) <> t)); simpl; [done|]. pose proof (Hw3 _ Hc) as Hinv3.
  destruct (AnyToBytes rt r) as [rd|e]; simpl; [|done].
  destruct (pInsertOrGetReliableCall _ _ _ _ _ _) as [p' [rc|e]]; simpl; [|by apply inv_set_store].
  destruct (cached rt rc); simpl; [by apply inv_set_store|].
  destruct (Hk (w2 n1)) as [o' Ho']; [by rewrite Ho|]. rewrite Ho'. simpl.
  apply inv_await; auto. by apply inv_set_store.
Qed.

Lemma inv_run_op n o : fair o -> node_inv n -> node_inv (run_op n o).
Proof.
  destruct o; simpl; intros Hf Hi.
  - unfold RegisterObjectType. destruct isPtr; simpl; [|done]. case_bool_decide as Hn; simpl; [done|].
    destruct Hi as [Ht Ho Hv]. split; simpl; [| |done].
    + intros t c'. rewrite lookup_insert_Some. intros [[<- <-]|[_ Hc]]; auto.
    + intros k o Hk. destruct (Ho k o Hk) as (? & ? & Hc). split_and!; auto.
      rewrite lookup_insert_ne; [done|]. intros E. apply Hn. rewrite E, Hc. by eexists.
  - unfold CreateObject. destruct (stopped n); [done|].
    pose proof (inv_createObject wait n typ oid Hf Hi). by destruct (createObject _ _ _ _ _).
  - unfold CallObject. destruct (stopped n); [done|]. destruct Hf as (Hw & Hw2 & Hd & Hret).
    pose proof (inv_createObject wait n typ oid Hw Hi) as Hc.
    destruct (createObject onCreated wait n typ oid) as [n1 [[]|e]]; simpl in Hc |- *; [|done].
    apply Hw2 in Hc. destruct (objects (wait2 n1) !! oid) as [o|] eqn:Ho; simpl; [|done].
    case_bool_decide; simpl; [done|]. destruct (Hret _ _ Ho) as [b Hb]. rewrite Hb. simpl.
    destruct (InvokeMethod _ _ _ _ _) as [s' r]. simpl. apply (inv_update (during (wait2 n1)) oid (mkLive (cls_of o) b)); auto.
  - by apply inv_reliable.
  - unfold DeleteObject. case_bool_decide; [done|]. destruct (stopped n); [done|]. apply Hf in Hi.
    destruct (objects (wait n) !! oid) as [o|]; simpl; [|done].
    repeat (case_match; simpl; try done); auto using inv_set_store, inv_destroy.
  - unfold EvictObject. destruct (stopped n); [done|]. apply Hf in Hi.
    destruct (objects (wait n) !! oid) as [o|]; simpl; [|done].
    destruct (hasProvider _); simpl; [|by apply inv_destroy].
    destruct (Save _ _ _) as [p' [[]|e]]; simpl; [by apply inv_destroy, inv_set_store|].
    case_bool_decide; simpl; [by apply inv_destroy, inv_set_store|by apply inv_set_store].
  - unfold SaveAllObjects, saveAllObjectsLocked. repeat (case_match; simpl; try done). by apply inv_set_store.
  - unfold Stop. assert (node_inv (set_stopped n)) as Hs by (by destruct Hi). apply Hf in Hs.
    set (n1 := if hasProvider n then _ else _).
    assert (node_inv n1) as [Ht Ho Hv].
    { unfold n1, saveAllObjectsLocked. repeat (case_match; simpl; try done). by apply inv_set_store. }
    clearbody n1. split; simpl; [done| |by rewrite app_assoc, view_app, fmap_empty].
    intros k o. by rewrite lookup_empty.
Qed.

End Invariant.

(** ** Lemmas on single operations *)

Section Ops.
Context {St Msg Data Any P : Type} `{PersistenceLaws P}.
Context (rt : Runtime Any Msg) (onCreated : Class St Msg Data -> St -> St).
Abbreviation node := (Node (St := St) (Msg := Msg) (Data := Data) (P := P)).

(** What [createNew] does to the objects: nothing on an error, one new object of the type otherwise *)
Lemma createNew_spec (n n' : node) typ oid r :
  node_inv n -> oid <> "" -> createNew onCreated n typ oid = (n', r) ->
  match r with
  | Ok _ => exists c o, objectTypes n !! typ = Some c /\ cls_of o = c /\ objType (base o) = typ /\
      objects n' = <[oid := o]> (objects n)
  | Err _ => objects n' = objects n
  end /\ objectTypes n' = objectTypes n /\ stopped n' = stopped n.
Proof.
  intros Hi Hne Hr. unfold createNew in Hr. case_match; [by simplify_eq|].
  destruct (objectTypes n !! typ) as [c|] eqn:Hc; [|by simplify_eq].
  destruct (restoreObject c (hasProvider n) (store n) oid) as [p' [obj|m]] eqn:Hrs; [|by simplify_eq].
  destruct (restoreObject_spec _ _ _ _ _ _ Hrs Hne) as (Hid & Hty & _).
  pose proof (inv_types _ Hi _ _ Hc) as Hn. simpl in Hr.
  destruct (hasProvider n); [unfold EnsureProcessingLoopRunning in Hr; simpl in Hr; destruct (processingCalls obj)|];
    simplify_eq; simpl; (split; [|done]); do 2 eexists; (split; [reflexivity|]); (split; [|split; [|reflexivity]]); simpl; congruence.
Qed.

Lemma createObject_spec (wait : node -> node) (n n' : node) typ oid r :
  keeps wait -> node_inv n -> createObject onCreated wait n typ oid = (n', r) ->
  exists n0, (n0 = n \/ n0 = wait n) /\ objectTypes n' = objectTypes n0 /\ stopped n' = stopped n0 /\
    match r with
    | Ok _ => exists o, objects n' !! oid = Some o /\ objType (base o) = typ /\
        (forall k, k <> oid -> objects n' !! k = objects n0 !! k) /\
        (is_Some (objects n0 !! oid) -> n' = n0)
    | Err _ => objects n' = objects n0
    end.
Proof.
  intros Hw Hi Hr. unfold createObject in Hr. case_bool_decide as Hne; [exists n; simplify_eq; eauto|].
  assert (forall n0 r0, existing n0 typ oid = Some r0 -> r0 = r -> n0 = n' ->
    (n0 = n \/ n0 = wait n) -> exists n0, (n0 = n \/ n0 = wait n) /\ objectTypes n' = objectTypes n0 /\ stopped n' = stopped n0 /\
    match r with
    | Ok _ => exists o, objects n' !! oid = Some o /\ objType (base o) = typ /\
        (forall k, k <> oid -> objects n' !! k = objects n0 !! k) /\ (is_Some (objects n0 !! oid) -> n' = n0)
    | Err _ => objects n' = objects n0
    end) as Hex.
  { intros n0 r0 He -> -> Hn. exists n'. unfold existing in He.
    destruct (objects n' !! oid) as [o|] eqn:Ho; [|done]. split; [done|]. do 2 (split; [done|]).
    case_bool_decide; simplify_eq; [|done]. by exists o. }
  destruct (existing n typ oid) as [r0|] eqn:E1; [injection Hr as <- <-; eauto|].
  destruct (existing (wait n) typ oid) as [r0|] eqn:E2; [injection Hr as <- <-; eauto|]. clear Hex.
  exists (wait n). apply existing_None in E2.
  destruct (createNew_spec _ _ _ _ _ (Hw n Hi) Hne Hr) as (Hcase & ? & ?). split_and!; auto.
  destruct r as [|e]; [|done]. destruct Hcase as (c & o & _ & _ & Hty & Hobj). exists o. rewrite Hobj, lookup_insert_eq, E2.
  split_and!; auto; [intros k Hk; by rewrite lookup_insert_ne|by intros []].
Qed.

Lemma createObject_existing wait (n : node) typ oid o :
  oid <> "" -> objects n !! oid = Some o ->
  createObject onCreated wait n typ oid =
    (n, if bool_decide (objType (base o) = typ) then Ok tt else Err (ErrTypeExists typ (objType (base o)))).
Proof.
  intros Hne Ho. unfold createObject, existing. rewrite bool_decide_eq_false_2, Ho by done. by case_bool_decide.
Qed.

(** A successful save leaves the object's data and sequence number in the store. *)
Lemma Save_spec (c : Class St Msg Data) (p p' : P) (b : BaseObject St) r :
  provider_ok p -> Save c p b = (p', r) ->
  provider_ok p' /\ calls p' = calls p /\ (forall k, k <> id b -> saved p' k = saved p k) /\
  match r with
  | Ok _ => exists d j, toData c (st b) = Ok d /\ marshal c d = Ok j /\ saved p' (id b) = Some (j, nextRcseq b)
  | Err ErrNotPersistent => toData c (st b) = Err ErrNotPersistent /\ p' = p
  | Err _ => True
  end.
Proof.
  intros Hok. unfold Save, saveLocked. destruct (toData c (st b)) as [d|e] eqn:Hd.
  2: { intros [= <- <-]. split_and!; auto. by destruct e. }
  destruct (marshal c d) as [j|m] eqn:Hj; [|intros [= <- <-]; by split_and!].
  destruct (pSaveObject p (id b) (objType b) (Some j) (nextRcseq b)) as [p1 r1] eqn:E. intros [= <- <-].
  destruct (law_save _ _ _ _ _ _ _ Hok E) as (? & ? & ? & Hs). split_and!; auto.
  destruct r1 as [[]|]; [|done]. exists d, j. destruct Hs as [?|[_ []]]; auto.
Qed.

Lemma destroyObject_objects (n : node) oid : objects (destroyObject n oid) = delete oid (objects n) /\
  store (destroyObject n oid) = store n.
Proof.
  unfold destroyObject. destruct (objects n !! oid) eqn:E; [done|]. by rewrite delete_id.
Qed.

(** The class restores the states it saves. *)
Definition restores (c : Class St Msg Data) : Prop :=
  forall s d j, toData c s = Ok d -> marshal c d = Ok j ->
    exists d', unmarshal c j = Ok d' /\ fromData c (Some d') (zeroSt c) = Ok s.

Lemma restoreObject_saved (c : Class St Msg Data) (p p' : P) oid s d j nx :
  provider_ok p -> restores c -> oid <> "" -> (exists d0, toData c (zeroSt c) = Ok d0) ->
  toData c s = Ok d -> marshal c d = Ok j -> saved p oid = Some (j, nx) ->
  (exists x, pLoadObject p oid = (p', Ok x)) ->
  restoreObject c true p oid = (p', Ok (set_st (SetNextRcseq (OnInit c oid "") nx) s)).
Proof.
  intros Hok Hrs Hne [d0 Hz] Hd Hj Hs [x Hl].
  destruct (law_load _ _ _ _ Hok Hl) as (_ & _ & _ & Hx). specialize (Hx x eq_refl). rewrite Hs in Hx. subst x.
  unfold restoreObject. simpl. rewrite Hz. unfold Objects.LoadObject. rewrite Hl.
  destruct (Hrs s d j Hd Hj) as (d' & -> & Hf). simpl. by rewrite Hf.
Qed.

(** Activating a saved object on a node that shares the store *)
(** The lifecycle rules of the node allow the creation *)
Definition may_create (n : node) (typ oid : string) : bool :=
  match lifecycleValidator n with Some rules => CheckNodeCreate rules typ oid | None => true end.

(** Activating an object whose last state is in the store: [wait m] is the node when it has the lock of the object *)
Lemma CreateObject_restores (o : liveObject (St := St) (Msg := Msg) (Data := Data)) (wait : node -> node) (m : node) oid d j p'' x :
  let m1 := wait m in
  provider_ok (store m1) -> restores (cls_of o) -> oid <> "" -> is_ok (toData (cls_of o) (zeroSt (cls_of o))) = true ->
  toData (cls_of o) (st (base o)) = Ok d -> marshal (cls_of o) d = Ok j -> saved (store m1) oid = Some (j, nextRcseq (base o)) ->
  stopped m = false -> objects m !! oid = None -> hasProvider m1 = true -> may_create m1 (objType (base o)) oid = true ->
  objectTypes m1 !! objType (base o) = Some (cls_of o) -> objects m1 !! oid = None -> pLoadObject (store m1) oid = (p'', Ok x) ->
  exists m' b, CreateObject onCreated wait m (objType (base o)) oid = (m', Ok oid) /\
    objects m' !! oid = Some (mkLive (cls_of o) b) /\ st b = onCreated (cls_of o) (st (base o)) /\ nextRcseq b = nextRcseq (base o).
Proof.
  intros m1 Hok Hrs Hne Hz Hd Hj Hsv Hsm Hom0 Hpm Hlm Hcm Hom Hl.
  assert (exists d0, toData (cls_of o) (zeroSt (cls_of o)) = Ok d0) as Hz'
    by (destruct (toData (cls_of o) (zeroSt _)); [eauto|done]).
  pose proof (restoreObject_saved (cls_of o) (store m1) p'' oid _ d j _ Hok Hrs Hne Hz' Hd Hj Hsv (ex_intro _ x Hl)) as Hre.
  unfold CreateObject. rewrite Hsm. unfold createObject, existing. rewrite bool_decide_eq_false_2, Hom0 by done. fold m1. rewrite Hom.
  unfold createNew, may_create in *. destruct (lifecycleValidator m1); rewrite ?Hlm, Hcm, Hpm, Hre; cbn; rewrite Hpm; cbn;
    (eexists _, _; split; [reflexivity|]; cbn; rewrite lookup_insert_eq; by split_and!).
Qed.

(** Saving a list of distinct objects *)
Lemma saveLoop_spec (objs : gmap string (liveObject (St := St) (Msg := Msg) (Data := Data))) ids (p p' : P) k k' :
  (forall oid o, objs !! oid = Some o -> id (base o) = oid) -> NoDup ids -> provider_ok p ->
  saveLoop objs ids p k = (p', k') ->
  (k <= k')%nat /\ provider_ok p' /\ calls p' = calls p /\
  (forall oid, oid ∉ ids -> saved p' oid = saved p oid) /\
  (k' = k -> forall oid o d j, oid ∈ ids -> objs !! oid = Some o -> toData (cls_of o) (st (base o)) = Ok d ->
     marshal (cls_of o) d = Ok j -> saved p' oid = Some (j, nextRcseq (base o))).
Proof.
  intros Hid. revert p k. induction ids as [|x ids IH]; intros p k HN Hok Hl; cbn in Hl.
  { simplify_eq. split_and!; auto. intros _ ? ? ? ? Hin. by apply elem_of_nil in Hin. }
  apply NoDup_cons in HN as [Hx HN]. destruct (objs !! x) as [o|] eqn:Ho.
  2: { destruct (IH p k HN Hok Hl) as (? & ? & ? & Hfr & Hsv). split_and!; auto.
       - intros oid Hn. apply Hfr. by intros ?; apply Hn; right.
       - intros E oid o d j [->|Hin]%elem_of_cons Ho'; [congruence|]. eauto. }
  destruct (Save (cls_of o) p (base o)) as [p1 r] eqn:Es.
  destruct (Save_spec _ _ _ _ _ Hok Es) as (Hok1 & Hc1 & Hfr1 & Hr). rewrite (Hid x o Ho) in Hfr1, Hr.
  assert (exists k1, (k <= k1)%nat /\ saveLoop objs ids p1 k1 = (p', k') /\ (k1 = k -> forall d j,
    toData (cls_of o) (st (base o)) = Ok d -> marshal (cls_of o) d = Ok j -> saved p1 x = Some (j, nextRcseq (base o))))
    as (k1 & Hk & Hl1 & Hs1).
  { destruct r as [[]|e].
    - exists k. split_and!; auto. intros _ d j Hd Hj. destruct Hr as (d' & j' & Hd' & Hj' & Hs). congruence.
    - case_bool_decide as He; [subst e|]; eexists; (split; [|split; [exact Hl|]]); try lia.
      intros _ d j Hd. destruct Hr; congruence. }
  destruct (IH p1 k1 HN Hok1 Hl1) as (? & ? & ? & Hfr & Hsv). split_and!; [lia|auto|congruence| |].
  - intros oid Hn. rewrite Hfr, Hfr1; auto; intros ?; apply Hn; subst; [by left|by right].
  - intros E oid o' d j [->|Hin]%elem_of_cons Ho' Hd Hj; [|by eapply Hsv; eauto; lia].
    rewrite Ho in Ho'. injection Ho' as <-. rewrite Hfr by done. apply (Hs1 ltac:(lia) d j Hd Hj).
Qed.

End Ops.

(** ** Properties *)

(** C16: in every sequence of operations on a node, with any interference at their interference
    points that itself keeps it, the invariant holds: every live object is filed under its own non-empty
    id and is an instance of the type registered under its type name, a type is registered under its own
    name, and the objects shown by the inspector are exactly the live ones with their types. *)
Theorem node_invariant {St Msg Data Any P : Type} `{PersistenceProvider P} (rt : Runtime Any Msg)
    (onCreated : Class St Msg Data -> St -> St) (addr : string) (shards : Z) (p : P) (ops : list op) :
  Forall fair ops -> node_inv (fold_left (run_op rt onCreated) ops (NewNode addr shards p)).
Proof.
  assert (node_inv (NewNode addr shards p : Node (St := St) (Msg := Msg) (Data := Data) (P := P))) as Hi.
  { split; simpl; [intros t c; by rewrite lookup_empty|intros k o; by rewrite lookup_empty|by rewrite fmap_empty]. }
  revert Hi. generalize (NewNode addr shards p : Node (St := St) (Msg := Msg) (Data := Data) (P := P)).
  intros n Hi HF. revert n Hi. induction HF as [|o ops Ho HF IH]; intros n Hi; [done|]. simpl. apply IH.
  by apply inv_run_op.
Qed.

(** creating is idempotent and never changes an object's type.  When [CreateObject] succeeds, the
    object exists with the requested type and no other object changed; creating it again changes
    nothing, and creating it with another type fails.  When it fails, no object changed at all. *)
Theorem CreateObject_idempotent {St Msg Data P : Type} `{PersistenceProvider P}
    (onCreated : Class St Msg Data -> St -> St) (wait : Node -> Node) (n n' : Node (P := P)) (typ oid : string)
    (r : result node_error string) :
  keeps wait -> node_inv n -> CreateObject onCreated wait n typ oid = (n', r) ->
  exists n0, (n0 = n \/ n0 = wait n) /\
  match r with
  | Ok i => i = oid /\ (exists o, objects n' !! oid = Some o /\ objType (base o) = typ) /\
      (forall k, k <> oid -> objects n' !! k = objects n0 !! k) /\
      (forall w, createObject onCreated w n' typ oid = (n', Ok tt)) /\
      (forall w typ', typ' <> typ -> createObject onCreated w n' typ' oid = (n', Err (ErrTypeExists typ' typ)))
  | Err _ => objects n' = objects n0
  end.
Proof.
  intros Hw Hi Hr. unfold CreateObject in Hr. destruct (stopped n); [exists n; simplify_eq; eauto|].
  destruct (createObject onCreated wait n typ oid) as [n1 r1] eqn:E. injection Hr as <- <-.
  pose proof (inv_createObject onCreated wait n typ oid Hw Hi) as Hi1. rewrite E in Hi1. simpl in Hi1.
  destruct (createObject_spec (P := P) onCreated wait n n1 typ oid r1 Hw Hi E) as (n0 & Hn0 & _ & _ & Hr).
  exists n0. split; [done|]. destruct r1 as [[]|e]; [|done].
  destruct Hr as (o & Ho & Hty & Hk & _). destruct (inv_objects _ Hi1 _ _ Ho) as (Hne & _).
  split_and!; eauto; intros; rewrite (createObject_existing (P := P) _ _ _ _ _ o); auto; rewrite Hty.
  - by rewrite bool_decide_eq_true_2.
  - by rewrite bool_decide_eq_false_2.
Qed.


(** [DeleteObject] deletes only what the caller named truthfully and may delete, and then completely.
    Let [n0] be the node once the object's lock is held.  On success a live object is gone from memory
    and, when it is persistent, from the store, and no other object is touched; it had the claimed type
    and the lifecycle rules allow the deletion.  On an error the objects in memory are unchanged, and the
    store too unless it was the store that failed.  Calls of the reliable-call table are never touched. *)
Theorem DeleteObject_safe {St Msg Data P : Type} `{PersistenceLaws P} (wait : Node -> Node)
    (n n' : Node (St := St) (Msg := Msg) (Data := Data) (P := P)) (typ oid : string) (r : result node_error ()) (o : liveObject) :
  let n0 := wait n in
  typ <> "" -> stopped n = false -> provider_ok (store n0) -> objects n0 !! oid = Some o ->
  DeleteObject wait n typ oid = (n', r) ->
  calls (store n') = calls (store n0) /\ (forall k, k <> oid -> saved (store n') k = saved (store n0) k) /\
  match r with
  | Ok _ => objType (base o) = typ /\
      (forall rules, lifecycleValidator n0 = Some rules -> CheckNodeDelete rules typ oid = true) /\
      objects n' = delete oid (objects n0) /\
      (hasProvider n0 = true -> forall d, toData (cls_of o) (st (base o)) = Ok d -> saved (store n') oid = None)
  | Err e => objects n' = objects n0 /\ (store n' = store n0 \/ exists x, e = ErrDeletePersist x)
  end.
Proof.
  intros n0 Hne Hst Hok Ho Hr. unfold DeleteObject in Hr. rewrite bool_decide_eq_false_2, Hst in Hr by done.
  fold n0 in Hr. rewrite Ho in Hr. case_bool_decide as Hty; [simplify_eq; by eauto 6|].
  destruct (match lifecycleValidator n0 with Some rules => _ | None => false end) eqn:Hlv; [simplify_eq; by eauto 6|].
  assert (forall rules, lifecycleValidator n0 = Some rules -> CheckNodeDelete rules typ oid = true) as Hrules.
  { intros rules E. rewrite E, Hty in Hlv. by apply negb_false_iff. }
  pose proof (destroyObject_objects n0 oid) as [Hd1 Hd2].
  destruct (hasProvider n0) eqn:Hp; [|simplify_eq; rewrite Hd1, Hd2; by split_and!].
  destruct (toData (cls_of o) (st (base o))) as [d|e] eqn:Hd; [|simplify_eq; rewrite Hd1, Hd2; by split_and!].
  destruct (pDeleteObject (store n0) oid) as [p' rd] eqn:Ed.
  destruct (law_delete _ _ _ _ Hok Ed) as (_ & Hc & Hk & Hs).
  destruct rd as [[]|e]; simplify_eq; [|simpl; split_and!; eauto].
  pose proof (destroyObject_objects (set_store n0 p') oid) as [He1 He2]. simpl in He1, He2. rewrite He1, He2.
  split_and!; auto. intros _ _ _. destruct Hs as [?|[_ []]]; auto.
Qed.

(** C7: a migration keeps the object's state.  Let [EvictObject] run on a live object of a persistent class (one whose
    [FromData] reads back every state that its [ToData] and the codec write), with anything happening until it
    has the object's lock.  When it fails, the object stays live with its state.  When it succeeds, the object is gone
    from the old owner, and whenever a node that has the class registered, whose lifecycle rules allow the
    creation, and whose store still holds for the object what the eviction left, activates it, again with anything
    happening until it has the lock, and the load does not fail, then it has the object with the next sequence number
    the object had and with the very state it had, on which the class's [OnCreated] has then run. *)
Theorem evict_reactivate_preserves_state {St Msg Data P : Type} `{PersistenceLaws P}
    (onCreated : Class St Msg Data -> St -> St) (wait : Node -> Node) (n n' : Node (St := St) (Msg := Msg) (Data := Data) (P := P)) (oid : string)
    (o : liveObject) (d : Data) (r : result node_error ()) :
  let n0 := wait n in
  stopped n = false -> node_inv n0 -> provider_ok (store n0) -> hasProvider n0 = true -> objects n0 !! oid = Some o ->
  toData (cls_of o) (st (base o)) = Ok d -> restores (cls_of o) -> is_ok (toData (cls_of o) (zeroSt (cls_of o))) = true ->
  EvictObject wait n oid = (n', r) ->
  match r with
  | Err _ => objects n' = objects n0
  | Ok _ => objects n' = delete oid (objects n0) /\ provider_ok (store n') /\
      forall (wait' : Node -> Node) (m : Node (St := St) (Msg := Msg) (Data := Data) (P := P)) p'' x, let m1 := wait' m in
        provider_ok (store m1) -> saved (store m1) oid = saved (store n') oid ->
        stopped m = false -> objects m !! oid = None -> hasProvider m1 = true -> may_create m1 (objType (base o)) oid = true ->
        objectTypes m1 !! objType (base o) = Some (cls_of o) -> objects m1 !! oid = None ->
        pLoadObject (store m1) oid = (p'', Ok x) ->
        exists m' b, CreateObject onCreated wait' m (objType (base o)) oid = (m', Ok oid) /\
          objects m' !! oid = Some (mkLive (cls_of o) b) /\ st b = onCreated (cls_of o) (st (base o)) /\ nextRcseq b = nextRcseq (base o)
  end.
Proof.
  intros n0 Hst Hi Hok Hp Ho Hd Hrs Hz Hr. unfold EvictObject in Hr. rewrite Hst in Hr. fold n0 in Hr. rewrite Ho, Hp in Hr.
  destruct (Save (cls_of o) (store n0) (base o)) as [p' rs] eqn:Es.
  destruct (Save_spec _ _ _ _ _ Hok Es) as (Hok' & _ & _ & Hs).
  destruct (inv_objects _ Hi _ _ Ho) as (Hne & Hid & Hc).
  destruct rs as [[]|e].
  2: { case_bool_decide as He; [subst e; destruct Hs; congruence|by simplify_eq]. }
  destruct Hs as (d' & j & Hd' & Hj & Hsv). rewrite Hd in Hd'. injection Hd' as <-. rewrite Hid in Hsv.
  pose proof (destroyObject_objects (set_store n0 p') oid) as [He1 He2]. simpl in He1, He2.
  injection Hr as <- <-. split; [done|]. rewrite He2. split; [done|]. intros wait' m p'' x m1 Hokm Hsvm. rewrite Hsv in Hsvm. intros.
  by eapply (CreateObject_restores onCreated o wait' m oid d j p'' x).
Qed.

(** [Stop] leaves nothing behind.  After it the node is stopped with no object in memory, every
    operation is refused, and when every save succeeded ([saveAllObjectsLocked] returns no error), each
    persistent object that was live is in the store with its last state and sequence number. *)
Theorem Stop_saves_all {St Msg Data P : Type} `{PersistenceLaws P} (wait : Node -> Node)
    (n : Node (St := St) (Msg := Msg) (Data := Data) (P := P)) (ids : Node -> list string) :
  let n0 := wait (set_stopped n) in
  node_inv n0 -> stopped n0 = true -> provider_ok (store n0) -> hasProvider n = true -> hasProvider n0 = true ->
  ids n0 ≡ₚ (map_to_list (objects n0)).*1 ->
  let n' := Stop wait n ids in
  objects n' = ∅ /\ stopped n' = true /\
  (forall onCreated w typ oid, CreateObject onCreated w n' typ oid = (n', Err ErrStopped)) /\ provider_ok (store n') /\
  (snd (saveAllObjectsLocked n0 (ids n0)) = Ok tt -> forall oid o d j, objects n0 !! oid = Some o ->
     toData (cls_of o) (st (base o)) = Ok d -> marshal (cls_of o) d = Ok j ->
     saved (store n') oid = Some (j, nextRcseq (base o))).
Proof.
  intros n0 Hi Hst Hok Hp Hp0 Hids n'. unfold n', Stop. fold n0. rewrite Hp. unfold saveAllObjectsLocked. rewrite Hp0. simpl.
  destruct (saveLoop (objects n0) (ids n0) (store n0) 0) as [p' k] eqn:El. simpl.
  assert (NoDup (ids n0)) as HN by (rewrite Hids; apply NoDup_fst_map_to_list).
  destruct (saveLoop_spec (objects n0) (ids n0) (store n0) p' 0 k) as (_ & Hok' & _ & _ & Hs); auto.
  { intros oid o Ho. by destruct (inv_objects _ Hi _ _ Ho) as (_ & ? & _). }
  split_and!; [done|done|by intros; unfold CreateObject; simpl; rewrite Hst|done|].
  destruct k; [|done]. intros _ oid o d j Ho Hd Hj. eapply Hs; eauto.
  rewrite Hids. apply list_elem_of_fmap. exists (oid, o). split; [done|]. by apply elem_of_map_to_list.
Qed.

Lemma find_call_unique (cs : list ReliableCall) (rc rc' : ReliableCall) :
  NoDup (CallID <$> cs) -> rc ∈ cs -> rc' ∈ cs -> CallID rc = CallID rc' -> rc = rc'.
Proof.
  induction cs as [|c cs IH]; intros HN H1 H2 E; [by apply elem_of_nil in H1|].
  cbn in HN. apply NoDup_cons in HN as [Hc HN]. rewrite list_elem_of_fmap in Hc.
  apply elem_of_cons in H1 as [->|H1], H2 as [->|H2]; [done| | |by apply IH]; exfalso; apply Hc; eauto.
Qed.

(** The answer to a finished call is the same whether it is found finished or was waited for. *)
Lemma cached_answer {Any Msg : Type} (rt : Runtime Any Msg) (rc : ReliableCall) :
  Status rc = "success" \/ Status rc = "failed" \/ Status rc = "skipped" -> cached rt rc = Some (answer rt rc).
Proof. unfold cached, answer. intros [->|[->| ->]]; simpl; [by destruct (BytesToAny _ _)|done|done]. Qed.

(** C28: a retry of a finished reliable call returns its stored outcome and executes nothing.  A request with a call id,
    type, id and method, on a running node with a provider, reaches the object of the requested type (live, or
    activated now), with anything happening at its waits; let [n3] be the node when it has the object's lock and its
    sequential write lock, and let the call table then hold a finished call under the call id.  If the request can be
    serialised and the insertion does not fail, the answer is that of the stored row (also when the retry names another
    method or request), and the node is [n3] with an unchanged call table: no object changes, no processing loop
    starts.  If one of the two fails, the answer is SKIPPED with that error, and the node is [n3] but for the store. *)
Theorem reliable_retry_returns_stored {St Msg Data Any P : Type} `{PersistenceLaws P} (rt : Runtime Any Msg)
    (onCreated : Class St Msg Data -> St -> St) (wait wait2 wait3 : Node -> Node)
    (await : Node -> Node * option ReliableCall) (sleep : nat -> Node -> option Node) (n n1 : Node (P := P))
    (callID typ oid method : string) (request : option Any) (ch : nat) (o : liveObject) (rc : ReliableCall) :
  let n3 := wait3 (wait2 n1) in
  let result := ReliableCallObject rt onCreated wait wait2 wait3 await sleep n callID typ oid method request ch in
  stopped n = false -> hasProvider n = true -> callID <> "" -> typ <> "" -> oid <> "" -> method <> "" ->
  createObject onCreated wait n typ oid = (n1, Ok tt) -> objects (wait2 n1) !! oid = Some o -> objType (base o) = typ ->
  provider_ok (store n3) -> rc ∈ calls (store n3) -> CallID rc = callID ->
  Status rc = "success" \/ Status rc = "failed" \/ Status rc = "skipped" ->
  match AnyToBytes rt request with
  | Err m => result = (n3, (None, SKIPPED, Some (ErrSerialize m)))
  | Ok data => forall p' ins, pInsertOrGetReliableCall (store n3) callID oid typ method data = (p', ins) ->
      match ins with
      | Err e => result = (set_store n3 p', (None, SKIPPED, Some (ErrInsert e)))
      | Ok _ => result = (set_store n3 p', answer rt rc) /\ calls p' = calls (store n3)
      end
  end.
Proof.
  intros n3 result Hst Hp Hc Ht Hi Hm Hcr Ho Hty Hok Hin Hid Hs.
  assert (result = match AnyToBytes rt request with
    | Err m => (n3, (None, SKIPPED, Some (ErrSerialize m)))
    | Ok data => let '(p', ins) := pInsertOrGetReliableCall (store n3) callID oid typ method data in
        match ins with
        | Err e => (set_store n3 p', (None, SKIPPED, Some (ErrInsert e)))
        | Ok got => match cached rt got with
            | Some rep => (set_store n3 p', rep)
            | None => awaitCall rt await sleep (set_store n3 p') oid (default o (objects n3 !! oid)) got ch end
        end end) as ->.
  { unfold result, ReliableCallObject. rewrite Hst, Hp, Hcr. rewrite !bool_decide_eq_false_2 by done. simpl.
    rewrite Ho. rewrite bool_decide_eq_false_2 by (intros Hn; by apply Hn). done. }
  destruct (AnyToBytes rt request) as [data|m]; [|done]. intros p' ins Hins. rewrite Hins.
  destruct ins as [got|e]; [|done].
  destruct (law_insert _ _ _ _ _ _ _ _ Hok Hins) as (_ & _ & [[Hcs Hgot]|(rc' & _ & _ & _ & _ & _ & _ & _ & Hnew & _)]).
  2: { by destruct (Hnew rc Hin) as [_ []]. }
  destruct (Hgot got eq_refl) as [Hg1 Hg2].
  assert (got = rc) as -> by (eapply find_call_unique; [by apply law_call_id|done|done|congruence]).
  by rewrite cached_answer.
Qed.

(** ** Witnesses: a counter node on an empty database *)

Import Postgres.

Abbreviation cnode := (Node (St := nat) (Msg := string) (Data := nat) (P := DB)).

Definition keep (_ : Class nat string nat) (s : nat) : nat := s.
Definition idle (n : cnode) : cnode := n.
Lemma keeps_idle : keeps idle.
Proof. by intros n. Qed.

Lemma retains_idle oid : retains idle oid.
Proof. intros n [c b] Ho. by exists b. Qed.

(** A node with the counter type registered and a store *)
Definition node0 (db : DB) : cnode :=
  SetPersistenceProvider (default (NewNode "n1" 8192 db) (RegisterObjectType (NewNode "n1" 8192 db) true Counter.cls)) true.

(** The node after creating [c1] and calling [Inc] on it *)
Definition node1 (db : DB) : cnode :=
  fst (CallObject Counter.rt keep idle idle idle (node0 db) "Counter" "c1" "Inc" (Some "x")).

Lemma node0_inv db : node_inv (node0 db).
Proof.
  apply (inv_run_op Counter.rt keep (SetPersistenceProvider (NewNode "n1" 8192 db) true) (OpRegister true Counter.cls)); [done|].
  split; simpl; [intros t c; by rewrite lookup_empty|intros k o; by rewrite lookup_empty|by rewrite fmap_empty].
Qed.

Lemma node1_inv db : node_inv (node1 db).
Proof.
  apply (inv_run_op Counter.rt keep (node0 db) (OpCall idle idle idle "Counter" "c1" "Inc" (Some "x"))); [split_and!; try apply keeps_idle; exact (retains_idle _)|apply node0_inv].
Qed.

Lemma db0_ok fs : db_ok (Counter.db0 fs).
Proof. split_and!; try done; [constructor|constructor|]. intros rc Hrc. by apply elem_of_nil in Hrc. Qed.

Lemma node_invariant_witness :
  node_inv (fold_left (run_op Counter.rt keep)
    [OpRegister true Counter.cls; OpCall idle idle idle "Counter" "c1" "Inc" (Some "x"); OpEvict idle "c1"]
    (NewNode "n1" 8192 (Counter.db0 []))).
Proof. apply node_invariant.
  constructor; [exact I|]. constructor; [split_and!; try exact keeps_idle; exact (retains_idle _)|]. constructor; [exact keeps_idle|constructor].
Defined.

Lemma CreateObject_idempotent_witness :
  let n' := fst (CreateObject keep idle (node0 (Counter.db0 [])) "Counter" "c1") in
  createObject keep idle n' "Counter" "c1" = (n', Ok tt).
Proof.
  destruct (CreateObject_idempotent keep idle (node0 (Counter.db0 []))
    (fst (CreateObject keep idle (node0 (Counter.db0 [])) "Counter" "c1")) "Counter" "c1" (Ok "c1"))
    as (n0 & _ & _ & _ & _ & Hc & _); [exact keeps_idle|apply node0_inv|vm_compute; reflexivity|].
  apply Hc.
Defined.




(** The node after saving [c1] *)
Definition node2 : cnode := fst (SaveAllObjects (node1 (Counter.db0 [])) ["c1"]).

Definition liveC1 : liveObject := mkLive Counter.cls (mkObj "c1" "Counter" 1%nat 0 true [] false).

Lemma DeleteObject_safe_witness :
  saved (store (fst (Nodes.DeleteObject idle node2 "Counter" "c1"))) "c1" = None.
Proof.
  assert (db_ok (store node2)) as Hok.
  { eapply (db_ok_calls (Counter.db0 [])); [apply db0_ok|by vm_compute|by vm_compute]. }
  destruct (DeleteObject_safe idle node2 (fst (Nodes.DeleteObject idle node2 "Counter" "c1")) "Counter" "c1" (Ok tt) liveC1)
    as (_ & _ & _ & _ & _ & Hs); [done|by vm_compute|exact Hok|by vm_compute|by vm_compute|].
  apply (Hs ltac:(by vm_compute) 1%nat ltac:(by vm_compute)).
Defined.

Lemma counter_restores : restores Counter.cls.
Proof. exact Counter.counter_roundtrip. Qed.

(** The new owner: the same store after the eviction *)
Definition evicted : cnode := fst (EvictObject idle (node1 (Counter.db0 [])) "c1").

Lemma evict_reactivate_preserves_state_witness :
  exists m' b, CreateObject keep idle (node0 (store evicted)) "Counter" "c1" = (m', Ok "c1") /\
    objects m' !! "c1" = Some (mkLive Counter.cls b) /\ st b = 1%nat /\ nextRcseq b = 0%Z.
Proof.
  destruct (evict_reactivate_preserves_state keep idle (node1 (Counter.db0 [])) evicted "c1" liveC1 1%nat (Ok tt))
    as (_ & Hok & Hm); [by vm_compute|apply node1_inv|exact (db0_ok [])|by vm_compute|by vm_compute|by vm_compute|
    exact counter_restores|by vm_compute|by vm_compute|].
  apply (Hm idle (node0 (store evicted)) (store evicted) (Some ("1", 0%Z))); by vm_compute.
Defined.

Lemma Stop_saves_all_witness :
  saved (store (Stop idle (node1 (Counter.db0 [])) (fun _ => ["c1"]))) "c1" = Some ("1", 0%Z).
Proof.
  assert (node_inv (idle (set_stopped (node1 (Counter.db0 []))))) as Hi by (by destruct (node1_inv (Counter.db0 []))).
  assert (["c1"] ≡ₚ (map_to_list (objects (idle (set_stopped (node1 (Counter.db0 [])))))).*1) as Hids by (by vm_compute).
  destruct (Stop_saves_all idle (node1 (Counter.db0 [])) (fun _ => ["c1"]) Hi) as (_ & _ & _ & _ & Hs);
    [by vm_compute|exact (db0_ok [])|by vm_compute|by vm_compute|exact Hids|].
  apply (Hs ltac:(by vm_compute) "c1" liveC1 1%nat "1"); by vm_compute.
Defined.

Definition doneCall : ReliableCall := mkRC 1 "r1" "c1" "Counter" "Inc" "#x" (Some "#x") "" "success".
Definition dbDone : DB := mkDB ∅ [doneCall] 2 [].

Lemma dbDone_ok : db_ok dbDone.
Proof.
  split_and!; simpl; [by repeat constructor|apply NoDup_singleton| |done].
  intros rc Hrc%list_elem_of_singleton. subst rc. by split.
Qed.

Lemma reliable_retry_returns_stored_witness :
  snd (ReliableCallObject Counter.rt keep idle idle idle (fun n => (n, None)) (fun _ n => Some n)
    (node1 dbDone) "r1" "Counter" "c1" "Inc" (Some "x") 7) = (Some "x", SUCCESS, None).
Proof.
  pose proof (reliable_retry_returns_stored Counter.rt keep idle idle idle (fun n => (n, None)) (fun _ n => Some n)
    (node1 dbDone) (node1 dbDone) "r1" "Counter" "c1" "Inc" (Some "x") 7 liveC1 doneCall) as Hr.
  cbv zeta in Hr. specialize (Hr ltac:(by vm_compute) ltac:(by vm_compute) ltac:(done) ltac:(done) ltac:(done) ltac:(done)
    ltac:(by vm_compute) ltac:(by vm_compute) ltac:(by vm_compute) dbDone_ok ltac:(by left) ltac:(done) ltac:(by left)).
  destruct (Hr (mkDB ∅ [doneCall] 3 []) (Ok doneCall) ltac:(by vm_compute)) as [Hres _].
  rewrite Hres. by vm_compute.
Defined.

(** ** Where the code departs from its comments *)

(** deleting a persistent object that was never saved fails.  The object is live, its type is claimed
    correctly, nothing denies the deletion and no statement fails, but the store has no row for it yet
    (rows appear at the first periodic save), the store's deletion reports that as an error, and
    [DeleteObject] returns it with the object still live. *)
Theorem delete_unsaved_object_fails :
  exists n' : cnode, Nodes.DeleteObject idle (node1 (Counter.db0 [])) "Counter" "c1"
      = (n', Err (ErrDeletePersist ErrNotFound)) /\ objects n' !! "c1" = Some liveC1.
Proof. eexists. split; vm_compute; reflexivity. Qed.

(** deleting an object that is not in memory succeeds and deletes nothing: after an eviction,
    [DeleteObject] on the same node returns no error, and the next activation brings the object back with
    the state it had. *)
Theorem delete_inactive_object_keeps_state :
  exists n1 n2 b, Nodes.DeleteObject idle evicted "Counter" "c1" = (n1, Ok tt) /\
    CreateObject keep idle n1 "Counter" "c1" = (n2, Ok "c1") /\
    objects n2 !! "c1" = Some (mkLive Counter.cls b) /\ st b = 1%nat.
Proof. eexists _, _, _. split; [|split; [|split]]; vm_compute; reflexivity. Qed.

(** a call answered SKIPPED may still be executed.  When the reply to the insertion of the call is
    lost after the store applied it, [ReliableCallObject] answers that the method was never executed, while
    the row is pending, and the processing loop the activation started executes it. *)
Theorem skipped_call_executes :
  exists n' o db' o' evs,
    ReliableCallObject Counter.rt keep idle idle idle (fun n => (n, None)) (fun _ n => Some n)
      (node0 (Counter.db0 [NoFault; FailAfter "connection reset"])) "r1" "Counter" "c1" "Inc" (Some "x") 7
      = (n', (None, SKIPPED, Some (ErrInsert (ErrExec "connection reset")))) /\
    objects n' !! "c1" = Some (mkLive Counter.cls o) /\ processingCalls o = true /\ st o = 0%nat /\
    runProcessingLoop Counter.rt Counter.cls 2 (store n') o [] = Some (db', o', evs) /\
    st o' = 1%nat /\ Status <$> tbl_calls db' = ["success"].
Proof. eexists _, _, _, _, _. repeat (split; [vm_compute; reflexivity|]). vm_compute; reflexivity. Qed.
