(* ===== verification/StopLock.v ===== *)
(** * The lock that [Node.Stop] and all operations share (node/node.go)

    [Module StopLocks]: calls, evictions, the periodic saving and [Stop] of a node as goroutines that take [stopMu] and the
    per-key lock of an object, both Go [RWMutex]es: a writer that waits keeps new readers out.  A call of a method can
    call an object of the same node from inside the method, since [Cluster.CallObject] calls the local node
    directly: it then takes both locks again, while the outer call holds them.  What operations do to objects
    is in Node.v, where they hold the locks in one piece; here an operation is its acquisitions and releases.  The
    objects exist, so that a call takes the per-key lock once.  [nesting] is whether methods call other
    objects, [lockFirst] whether [Stop] takes the lock before it waits for the periodic saving. *)

From S2P Require Import Prelude.

Module StopLocks.

(** Where the goroutine of a call is: in user code, or before the [stopMu.RLock], the check of [stopped] and the
    per-key [RLock] of a call of the object [id] *)
Inductive cphase : Type := InCode | WantStop (id : string) | Checking (id : string) | WantKey (id : string).

(** A goroutine with the objects whose methods it is in, the innermost first; each of these calls holds [stopMu] and
    the lock of its object *)
Record thread : Type := mkThread { inside : list string; phase : cphase }.

(** A goroutine that evicts (or deletes) an object *)
Inductive ephase : Type := EWantStop | EChecking | EWantKey | EHolds | EDone.

(** [periodicPersistenceLoop]: in its select, before the [RLock] of [SaveAllObjects], saving, ended *)
Inductive lphase : Type := LSelect | LWantStop | LSaving | LEnded.

(** [Stop]: before its call; the flag is set and the contexts are cancelled; it waits for the loop; it waits
    in [Lock]; it has the lock; it has returned *)
Inductive sphase : Type := NotStopping | AwaitLoop | Locking | Locked | Returned.
#[global] Instance sphase_eq_dec : EqDecision sphase.
Proof. solve_decision. Defined.

Record world : Type := mkWorld {
  calls : list thread;
  evictions : list (string * ephase);
  loop : lphase;
  stop : sphase;
  stopped : bool
}.

Definition holdsStop (t : thread) : bool :=
  negb (bool_decide (inside t = [])) || match phase t with Checking _ | WantKey _ => true | _ => false end.
Definition evictHoldsStop (e : string * ephase) : bool := match e.2 with EChecking | EWantKey | EHolds => true | _ => false end.

(** [stopMu.RLock] succeeds: no writer has the lock or waits for it *)
Definition readable (w : world) : bool := match stop w with Locking | Locked => false | _ => true end.
(** [stopMu.Lock] succeeds: no reader has the lock *)
Definition writable (w : world) : bool :=
  forallb (fun t => negb (holdsStop t)) (calls w) && forallb (fun e => negb (evictHoldsStop e)) (evictions w) &&
  match loop w with LSaving => false | _ => true end.

(** The same for the lock of an object *)
Definition keyReadable (w : world) (id : string) : bool :=
  forallb (fun e => negb (bool_decide (e.1 = id) && match e.2 with EWantKey | EHolds => true | _ => false end)) (evictions w).
Definition keyWritable (w : world) (id : string) : bool :=
  forallb (fun t => negb (bool_decide (id ∈ inside t))) (calls w) &&
  forallb (fun e => negb (bool_decide (e.1 = id) && match e.2 with EHolds => true | _ => false end)) (evictions w).

Definition set_call (w : world) (i : nat) (t : thread) : world := mkWorld (<[i := t]> (calls w)) (evictions w) (loop w) (stop w) (stopped w).
Definition set_eviction (w : world) (i : nat) (e : string * ephase) : world := mkWorld (calls w) (<[i := e]> (evictions w)) (loop w) (stop w) (stopped w).
Definition set_loop (w : world) (l : lphase) : world := mkWorld (calls w) (evictions w) l (stop w) (stopped w).
Definition set_stop (w : world) (s : sphase) : world := mkWorld (calls w) (evictions w) (loop w) s (stopped w).

Section Steps.
Context (nesting lockFirst : bool).

Inductive step (w : world) : world -> Prop :=
(* a request arrives *)
| S_arrive id : step w (mkWorld (calls w ++ [mkThread [] (WantStop id)]) (evictions w) (loop w) (stop w) (stopped w))
| S_evict id : step w (mkWorld (calls w) (evictions w ++ [(id, EWantStop)]) (loop w) (stop w) (stopped w))
(* [CallObject] *)
| S_nested i l id : nesting = true -> calls w !! i = Some (mkThread l InCode) -> l <> [] -> step w (set_call w i (mkThread l (WantStop id)))
| S_rlock i l id : calls w !! i = Some (mkThread l (WantStop id)) -> readable w = true -> step w (set_call w i (mkThread l (Checking id)))
| S_refused i l id : calls w !! i = Some (mkThread l (Checking id)) -> stopped w = true -> step w (set_call w i (mkThread l InCode))
| S_passed i l id : calls w !! i = Some (mkThread l (Checking id)) -> stopped w = false -> step w (set_call w i (mkThread l (WantKey id)))
| S_key i l id : calls w !! i = Some (mkThread l (WantKey id)) -> keyReadable w id = true -> step w (set_call w i (mkThread (id :: l) InCode))
| S_return i l id : calls w !! i = Some (mkThread (id :: l) InCode) -> step w (set_call w i (mkThread l InCode))
(* [EvictObject], [DeleteObject] *)
| S_erlock i id : evictions w !! i = Some (id, EWantStop) -> readable w = true -> step w (set_eviction w i (id, EChecking))
| S_erefused i id : evictions w !! i = Some (id, EChecking) -> stopped w = true -> step w (set_eviction w i (id, EDone))
| S_epassed i id : evictions w !! i = Some (id, EChecking) -> stopped w = false -> step w (set_eviction w i (id, EWantKey))
| S_ekey i id : evictions w !! i = Some (id, EWantKey) -> keyWritable w id = true -> step w (set_eviction w i (id, EHolds))
| S_edone i id : evictions w !! i = Some (id, EHolds) -> step w (set_eviction w i (id, EDone))
(* [periodicPersistenceLoop]: its context is cancelled with the flag *)
| S_tick : loop w = LSelect -> step w (set_loop w LWantStop)
| S_lend : loop w = LSelect -> stopped w = true -> step w (set_loop w LEnded)
| S_lrlock : loop w = LWantStop -> readable w = true -> step w (set_loop w LSaving)
| S_lsaved : loop w = LSaving -> step w (set_loop w LSelect)
(* [Stop] *)
| S_stop : stop w = NotStopping -> step w (mkWorld (calls w) (evictions w) (loop w) (if lockFirst then Locking else AwaitLoop) true)
| S_await : stop w = AwaitLoop -> loop w = LEnded -> step w (set_stop w Locking)
| S_lock : stop w = Locking -> writable w = true -> step w (set_stop w Locked)
| S_returned : stop w = Locked -> (lockFirst = true -> loop w = LEnded) -> step w (set_stop w Returned).

Definition initial (periodic : bool) : world := mkWorld [] [] (if periodic then LSelect else LEnded) NotStopping false.
Definition reachable (periodic : bool) (w : world) : Prop := rtc step (initial periodic) w.

End Steps.
(** ** A nested call and [Stop] *)

(** The goroutine is inside a method and wants [stopMu] again *)
Definition blocked_in_method (w : world) : Prop := stop w = Locking /\ exists i l id, calls w !! i = Some (mkThread l (WantStop id)) /\ l <> [].
(** The goroutine is inside a method of the object and wants its lock again, an eviction waits for that lock *)
Definition blocked_on_self (id : string) (w : world) : Prop :=
  stop w <> Locked /\ stop w <> Returned /\ exists i l j, calls w !! i = Some (mkThread l (WantKey id)) /\ id ∈ l /\ evictions w !! j = Some (id, EWantKey).

Lemma holdsStop_not_writable w i t : calls w !! i = Some t -> holdsStop t = true -> writable w = false.
Proof.
  intros H Ht. unfold writable. enough (forallb (fun t => negb (holdsStop t)) (calls w) = false) as -> by done.
  apply not_true_iff_false. rewrite forallb_forall. intros Hall. specialize (Hall t).
  rewrite Ht in Hall. discriminate Hall. apply list_elem_of_In. by eapply list_elem_of_lookup_2.
Qed.

Lemma lookup_app_old {A} (l : list A) x i y : l !! i = Some y -> (l ++ [x]) !! i = Some y.
Proof. intros H. rewrite lookup_app_l; [done|by eapply lookup_lt_Some]. Qed.

Ltac keep H := first [exact H | apply lookup_app_old, H].

(** A step of another goroutine than the [i]-th *)
Ltac other_goroutine :=
  match goal with |- <[?k := _]> _ !! ?i = _ => destruct (decide (k = i)) as [->|]; [congruence|by rewrite list_lookup_insert_ne] end.

Lemma blocked_in_method_step n b w w' : blocked_in_method w -> step n b w w' -> blocked_in_method w'.
Proof.
  intros [Hs (i & l & id & Hi & Hl)] Hstep.
  assert (Hr : readable w = false) by (unfold readable; by rewrite Hs).
  assert (Hw : writable w = false).
  { eapply holdsStop_not_writable; [exact Hi|]. unfold holdsStop; simpl. by rewrite bool_decide_eq_false_2. }
  destruct Hstep; try congruence; split; try exact Hs; try (exists i, l, id; split; [simpl; keep Hi|exact Hl]);
    (exists i, l, id; split; [|exact Hl]); simpl;
    other_goroutine.
Qed.

Lemma blocked_on_self_step id n w w' : blocked_on_self id w -> step n false w w' -> blocked_on_self id w'.
Proof.
  intros (Hs1 & Hs2 & i & l & j & Hi & Hl & Hj) Hstep.
  assert (Hr : keyReadable w id = false).
  { unfold keyReadable. apply not_true_iff_false. rewrite forallb_forall. intros Hall.
    specialize (Hall (id, EWantKey)). simpl in Hall. rewrite bool_decide_eq_true_2 in Hall by done.
    discriminate Hall. apply list_elem_of_In. by eapply list_elem_of_lookup_2. }
  assert (Hk : keyWritable w id = false).
  { unfold keyWritable. apply andb_false_iff; left. apply not_true_iff_false. rewrite forallb_forall. intros Hall.
    specialize (Hall (mkThread l (WantKey id))). simpl in Hall. rewrite bool_decide_eq_true_2 in Hall by done.
    discriminate Hall. apply list_elem_of_In. by eapply list_elem_of_lookup_2. }
  assert (Hw : writable w = false).
  { eapply holdsStop_not_writable; [exact Hi|]. unfold holdsStop; simpl. apply orb_true_r. }
  destruct Hstep; try congruence;
    (split; [simpl; congruence|split; [simpl; congruence|]]);
    exists i, l, j; (split; [|split; [exact Hl|]]); simpl; try keep Hi; try keep Hj; other_goroutine.
Qed.

Lemma stays {n b} (P : world -> Prop) : (forall w w', P w -> step n b w w' -> P w') -> forall w w', rtc (step n b) w w' -> P w -> P w'.
Proof. intros H w w' Hr. induction Hr; eauto. Qed.

(** Walks a concrete run *)
Tactic Notation "run" tactic3(c) := eapply rtc_l; [c|simpl].

(** A call from inside a method waits for the [Stop] that waits for the method: with an object [a] whose method
    calls an object [b], a node reaches a world from which [Stop] never gets its lock, whatever happens next. *)
Theorem nested_call_blocks_stop (a b : string) : exists w, reachable true false false w /\ stop w = Locking /\
  forall w', rtc (step true false) w w' -> stop w' = Locking.
Proof.
  exists (mkWorld [mkThread [a] (WantStop b)] [] LEnded Locking true). split; [|split; [done|]].
  - unfold reachable, initial.
    run (apply (S_arrive _ _ _ a)). run (by apply (S_rlock _ _ _ 0 [] a)). run (by apply (S_passed _ _ _ 0 [] a)).
    run (by apply (S_key _ _ _ 0 [] a)). run (by apply (S_nested _ _ _ 0 [a] b)). run (by apply S_stop).
    run (by apply S_await). apply rtc_refl.
  - intros w' Hr. eapply (stays blocked_in_method (blocked_in_method_step _ _)) in Hr; [apply Hr|].
    split; [done|]. by exists 0, [a], b.
Qed.

(** A method that calls its own object while the object is evicted: neither goes on, and [Stop] never returns. *)
Theorem self_call_blocks_eviction (a : string) : exists w, reachable true false false w /\ evictions w = [(a, EWantKey)] /\
  forall w', rtc (step true false) w w' -> (exists j, evictions w' !! j = Some (a, EWantKey)) /\ stop w' <> Locked /\ stop w' <> Returned.
Proof.
  exists (mkWorld [mkThread [a] (WantKey a)] [(a, EWantKey)] LEnded NotStopping false). split; [|split; [done|]].
  - unfold reachable, initial.
    run (apply (S_arrive _ _ _ a)). run (by apply (S_rlock _ _ _ 0 [] a)). run (by apply (S_passed _ _ _ 0 [] a)).
    run (by apply (S_key _ _ _ 0 [] a)). run (by apply (S_nested _ _ _ 0 [a] a)). run (by apply (S_rlock _ _ _ 0 [a] a)).
    run (by apply (S_passed _ _ _ 0 [a] a)). run (apply (S_evict _ _ _ a)). run (by apply (S_erlock _ _ _ 0 a)).
    run (by apply (S_epassed _ _ _ 0 a)). apply rtc_refl.
  - intros w' Hr.
    eapply (stays (blocked_on_self a) (blocked_on_self_step a _)) in Hr.
    + destruct Hr as (H1 & H2 & i & l & j & _ & _ & Hj). eauto.
    + split; [done|split; [done|]]. exists 0, [a], 0. split; [done|split; [by left|done]].
Qed.

(** ** [Stop] before it waits for the periodic saving *)

Definition loop_locked_out (w : world) : Prop := loop w = LWantStop /\ (stop w = Locking \/ stop w = Locked).

Lemma loop_locked_out_step n w w' : loop_locked_out w -> step n true w w' -> loop_locked_out w'.
Proof.
  intros [Hl Hs] Hstep. assert (Hr : readable w = false) by (unfold readable; by destruct Hs as [-> | ->]).
  destruct Hstep; try congruence; try (split; [exact Hl|exact Hs]); try (destruct Hs; congruence).
  - split; [exact Hl|]. by right.
  - assert (loop w = LEnded) by auto. congruence.
Qed.

(** What the comment in [Stop] warns of: a [Stop] that takes the lock before it waits for the periodic saving can
    wait forever. *)
Theorem lock_first_deadlocks : exists w, reachable false true true w /\ loop w = LWantStop /\
  forall w', rtc (step false true) w w' -> loop w' = LWantStop /\ stop w' <> Returned.
Proof.
  exists (mkWorld [] [] LWantStop Locking true). split; [|split; [done|]].
  - unfold reachable, initial. run (by apply S_tick). run (by apply S_stop). apply rtc_refl.
  - intros w' Hr. eapply (stays loop_locked_out (loop_locked_out_step _)) in Hr; [|split; [done|by left]].
    destruct Hr as [? [H|H]]; rewrite H; done.
Qed.

(** ** [Stop] of a node whose methods call no object of the node *)

(** Outside a method a goroutine is in no object, inside it wants no lock; [Stop] underway has set the flag and waited
    for the loop *)
Record flat (w : world) : Prop := mkFlat {
  flat_calls : Forall (fun t => phase t = InCode \/ inside t = []) (calls w);
  flat_stopped : stop w <> NotStopping -> stopped w = true;
  flat_loop : stop w = Locking \/ stop w = Locked \/ stop w = Returned -> loop w = LEnded
}.

Lemma flat_step w w' : flat w -> step false false w w' -> flat w'.
Proof.
  intros [Hc Hs Hl] Hstep.
  assert (Hat : forall i t, calls w !! i = Some t -> phase t = InCode \/ inside t = []) by (intros; by eapply Forall_lookup_1 in Hc).
  constructor.
  - destruct Hstep; try congruence; simpl; try exact Hc.
    { apply Forall_app_2; [done|]. constructor; [by right|constructor]. }
    all: apply Forall_insert; [assumption|]; match goal with H : calls _ !! _ = Some _ |- _ => destruct (Hat _ _ H) end; simpl in *; auto; congruence.
  - destruct Hstep; simpl; try exact Hs; intros _; try reflexivity; apply Hs; congruence.
  - destruct Hstep; simpl; try exact Hl; intros Hx; try (specialize (Hl Hx); congruence); try (apply Hl; auto; fail); try assumption.
    destruct Hx as [?|[?|?]]; done.
Qed.

Lemma flat_initial b : flat (initial b).
Proof. constructor; simpl; [constructor|done|intros [?|[?|?]]; done]. Qed.

Lemma reachable_flat b w : reachable false false b w -> flat w.
Proof. intros H. eapply stays; [exact flat_step|exact H|apply flat_initial]. Qed.

(** What the goroutines that hold a lock still have to do *)
Definition call_work (t : thread) : nat := length (inside t) + match phase t with Checking _ | WantKey _ => 2 | _ => 0 end.
Definition eviction_work (e : string * ephase) : nat := match e.2 with EWantKey => 2 | EChecking | EHolds => 1 | _ => 0 end.
Definition work (w : world) : nat := sum_list_with call_work (calls w) + sum_list_with eviction_work (evictions w).

Lemma sum_insert_lt {A} (f : A -> nat) l i x y : l !! i = Some x -> f y < f x -> sum_list_with f (<[i := y]> l) < sum_list_with f l.
Proof. revert i. induction l as [|z l IH]; intros [|i] H Hlt; simplify_eq/=; [lia|]. specialize (IH i H Hlt). lia. Qed.

Lemma work_call w i t t' : calls w !! i = Some t -> call_work t' < call_work t -> work (set_call w i t') < work w.
Proof. intros H Hlt. unfold work; simpl. pose proof (sum_insert_lt _ _ _ _ _ H Hlt). lia. Qed.
Lemma work_eviction w i e e' : evictions w !! i = Some e -> eviction_work e' < eviction_work e -> work (set_eviction w i e') < work w.
Proof. intros H Hlt. unfold work; simpl. pose proof (sum_insert_lt _ _ _ _ _ H Hlt). lia. Qed.

Lemma some_false {A} (p : A -> bool) l : forallb p l = false -> exists i x, l !! i = Some x /\ p x = false.
Proof.
  induction l as [|x l IH]; simpl; [done|]. destruct (p x) eqn:E; simpl; intros H.
  - destruct (IH H) as (i & y & ? & ?). by exists (S i), y.
  - by exists 0, x.
Qed.

(** A step of a goroutine that holds a lock towards its release *)
Definition drains (w w' : world) : Prop := step false false w w' /\ stop w' = stop w /\ work w' < work w.

Ltac drain_call c := eexists; split; [c|split; [done|eapply work_call; [eassumption|unfold call_work; simpl; lia]]].
Ltac drain_eviction c := eexists; split; [c|split; [done|eapply work_eviction; [eassumption|unfold eviction_work; simpl; lia]]].

(** With a goroutine in a method, or in an eviction that holds the lock of its object, that goroutine goes on *)
Lemma inside_drains w i id l ph : flat w -> calls w !! i = Some (mkThread (id :: l) ph) -> exists w', drains w w'.
Proof.
  intros [Hc _ _] Hi. destruct (Forall_lookup_1 _ _ _ _ Hc Hi) as [H|H]; simpl in H; [subst|done].
  drain_call ltac:(by eapply S_return).
Qed.

Lemma key_eviction_drains w j id : flat w -> evictions w !! j = Some (id, EWantKey) -> exists w', drains w w'.
Proof.
  intros Hf Hj. destruct (keyWritable w id) eqn:E; [drain_eviction ltac:(by eapply S_ekey)|].
  unfold keyWritable in E. apply andb_false_iff in E as [E|E]; apply some_false in E as (i & x & Hi & Hx); apply negb_false_iff in Hx.
  - apply bool_decide_eq_true in Hx. destruct x as [[|id' l] ph]; simpl in Hx; [set_solver|]. by eapply inside_drains.
  - destruct x as [id' []]; simpl in Hx; rewrite ?andb_false_r in Hx; try discriminate Hx. drain_eviction ltac:(by eapply S_edone).
Qed.

Lemma held_drains w : flat w -> stopped w = true -> loop w = LEnded -> writable w = false -> exists w', drains w w'.
Proof.
  intros Hf Hst Hl E. unfold writable in E. rewrite Hl, andb_true_r in E.
  apply andb_false_iff in E as [E|E]; apply some_false in E as (i & x & Hi & Hx); apply negb_false_iff in Hx.
  - destruct x as [[|id l] ph]; [|by eapply inside_drains]. destruct ph as [|id|id|id]; try discriminate Hx.
    + drain_call ltac:(by eapply S_refused).
    + destruct (keyReadable w id) eqn:E; [drain_call ltac:(by eapply S_key)|].
      unfold keyReadable in E. apply some_false in E as (j & [id' ph] & Hj & Hp). apply negb_false_iff in Hp.
      destruct ph; simpl in Hp; rewrite ?andb_false_r in Hp; try discriminate Hp.
      * by eapply key_eviction_drains.
      * drain_eviction ltac:(by eapply S_edone).
  - destruct x as [id []]; try discriminate Hx.
    + drain_eviction ltac:(by eapply S_erefused).
    + by eapply key_eviction_drains.
    + drain_eviction ltac:(by eapply S_edone).
Qed.

Lemma locking_returns w : flat w -> stop w = Locking -> exists w', rtc (step false false) w w' /\ stop w' = Returned.
Proof.
  induction w as [w IH] using (well_founded_induction (well_founded_ltof _ work)). intros Hf Hs.
  destruct (writable w) eqn:E.
  - exists (set_stop (set_stop w Locked) Returned). split; [|done].
    eapply rtc_l; [by apply S_lock|]. apply rtc_once. by apply S_returned.
  - destruct (held_drains w) as (w1 & H1 & H2 & H3); [done|by apply Hf; rewrite Hs|apply Hf; by left|done|].
    destruct (IH w1 H3) as (w2 & Hr & H2'); [by eapply flat_step|congruence|]. exists w2. split; [by eapply rtc_l|done].
Qed.

(** From every world a node can reach, once [Stop] is called it can run to its end: the goroutines that hold a lock
    go on one by one, and the loop ends. *)
Theorem flat_stop_returns b w : reachable false false b w -> stop w <> NotStopping ->
  exists w', rtc (step false false) w w' /\ stop w' = Returned.
Proof.
  intros Hr Hs. apply reachable_flat in Hr as Hf.
  assert (Hawait : forall w, flat w -> stop w = AwaitLoop -> loop w = LSelect -> exists w', rtc (step false false) w w' /\ stop w' = Returned).
  { clear. intros w Hf Hs Hl. pose proof (flat_stopped w Hf ltac:(congruence)) as Hst.
    assert (H1 : step false false w (set_loop w LEnded)) by (by apply S_lend).
    assert (H2 : step false false (set_loop w LEnded) (set_stop (set_loop w LEnded) Locking)) by (by apply S_await).
    destruct (locking_returns (set_stop (set_loop w LEnded) Locking)) as (w' & ? & ?); [by do 2 (eapply flat_step; [|eassumption])|done|].
    exists w'. split; [|done]. eapply rtc_l; [exact H1|]. by eapply rtc_l. }
  destruct (stop w) eqn:E; [done| | | |].
  - destruct (loop w) eqn:El; [by apply Hawait| | |].
    + assert (H1 : step false false w (set_loop w LSaving)) by (apply S_lrlock; [done|unfold readable; by rewrite E]).
      assert (H2 : step false false (set_loop w LSaving) (set_loop w LSelect)) by (by apply (S_lsaved _ _ (set_loop w LSaving))).
      destruct (Hawait (set_loop w LSelect)) as (w' & ? & ?); [by do 2 (eapply flat_step; [|eassumption])|done|done|].
      exists w'. split; [|done]. eapply rtc_l; [exact H1|]. by eapply rtc_l.
    + assert (H2 : step false false w (set_loop w LSelect)) by (by apply S_lsaved).
      destruct (Hawait (set_loop w LSelect)) as (w' & ? & ?); [by eapply flat_step|done|done|].
      exists w'. split; [|done]. by eapply rtc_l.
    + assert (H2 : step false false w (set_stop w Locking)) by (by apply S_await).
      destruct (locking_returns (set_stop w Locking)) as (w' & ? & ?); [by eapply flat_step|done|].
      exists w'. split; [|done]. by eapply rtc_l.
  - by apply locking_returns.
  - exists (set_stop w Returned). split; [apply rtc_once; by apply S_returned|done].
  - by exists w.
Qed.

End StopLocks.
Import StopLocks.
