(* ===== verification/Gate.v ===== *)
(** * The gate (gate/gate.go, gate/clientproxy.go)

    A gate keeps a proxy per connected client and a registration per node it listens to.  Both are
    pointers in the source and outlive their entry in the maps: a proxy found by [GetClient] is pushed to
    after the lock of the client map is released, a registration's goroutine compares itself with the
    entry of its node.  So the model has a heap of each and maps from names to heap cells.  A step is
    what one goroutine does under one lock, [handleGateMessage] and [registerWithNode] being cut at the
    places where the source holds none.  A panic (a send on a closed channel) is the value [None].
    Logging, metrics and the inspector are not modelled. *)

From S2P Require Import Prelude GoStrings ObjectId.

Module Gates.

Section Gate.
Context {Any : Type}.

(** [ClientProxy]: the buffered channel holds at most ten messages *)
Record ClientProxy : Type := mkProxy { cid : string; messageChan : list Any; closed : bool }.

Definition chanCap : nat := 10.

(** [NewClientProxy] *)
Definition NewClientProxy (clientID : string) : ClientProxy := mkProxy clientID [] false.

(** [Close] *)
Definition Close (cp : ClientProxy) : ClientProxy :=
  if closed cp then cp else mkProxy (cid cp) (messageChan cp) true.

(** [PushMessageAny]: a send that never blocks; [None] when the channel is closed *)
Definition PushMessageAny (cp : ClientProxy) (msg : Any) : option ClientProxy :=
  if closed cp then None
  else if (length (messageChan cp) <? chanCap)%nat
  then Some (mkProxy (cid cp) (messageChan cp ++ [msg]) (closed cp))
  else Some cp.

(** [nodeReg]: whether its context is cancelled, and its stream with whether the stream is still alive *)
Record nodeReg : Type := mkReg { cancelled : bool; stream : option bool }.

Record Gate : Type := mkGate {
  advertiseAddress : string;
  clients : gmap string nat;
  proxies : gmap nat ClientProxy;             (* the heap of proxies *)
  nodeRegs : gmap string nat;
  regs : gmap nat nodeReg                     (* the heap of registrations *)
}.

Definition set_clients (g : Gate) (cs : gmap string nat) (ps : gmap nat ClientProxy) : Gate :=
  mkGate (advertiseAddress g) cs ps (nodeRegs g) (regs g).
Definition set_regs (g : Gate) (ns : gmap string nat) (rs : gmap nat nodeReg) : Gate :=
  mkGate (advertiseAddress g) (clients g) (proxies g) ns rs.

Record GateConfig : Type := mkGateConfig { cAdvertiseAddress : string; cEtcdAddress : string; cEtcdPrefix : string }.

(** [validateGateConfig]; [None] is a nil configuration *)
Definition validateGateConfig (config : option GateConfig) : result string GateConfig :=
  match config with
  | None => Err "config cannot be nil"
  | Some c =>
      if bool_decide (cAdvertiseAddress c = "") then Err "AdvertiseAddress cannot be empty"
      else if bool_decide (cEtcdAddress c = "") then Err "EtcdAddress cannot be empty"
      else Ok (if bool_decide (cEtcdPrefix c = "")
               then mkGateConfig (cAdvertiseAddress c) (cEtcdAddress c) "/goverse" else c)
  end.

(** [NewGate] *)
Definition NewGate (config : option GateConfig) : result string Gate :=
  match validateGateConfig config with
  | Err e => Err e
  | Ok c => Ok (mkGate (cAdvertiseAddress c) ∅ ∅ ∅ ∅)
  end.

(** [Register]: [uid] is the generated unique id, [p] the cell of the new proxy *)
Definition Register (g : Gate) (uid : string) (p : nat) : Gate * string :=
  let clientID := advertiseAddress g +:+ "/" +:+ uid in
  (set_clients g (<[clientID := p]> (clients g)) (<[p := NewClientProxy clientID]> (proxies g)), clientID).

(** [Unregister] *)
Definition Unregister (g : Gate) (clientID : string) : Gate :=
  match clients g !! clientID with
  | Some p => set_clients g (delete clientID (clients g)) (alter Close p (proxies g))
  | None => g
  end.

(** [GetClient] *)
Definition GetClient (g : Gate) (clientID : string) : option nat := clients g !! clientID.

(** The loop of [cleanupClientProxies] over the clients' proxies *)
Definition closeAll (ps : list nat) (heap : gmap nat ClientProxy) : gmap nat ClientProxy :=
  foldr (alter Close) heap ps.

(** [cleanupClientProxies] *)
Definition cleanupClientProxies (g : Gate) : Gate :=
  set_clients g ∅ (closeAll (map_to_list (clients g)).*2 (proxies g)).

Definition cancel (r : nodeReg) : nodeReg := mkReg true (stream r).

(** Calling [cancel] of each registration of a list *)
Definition cancelAll (rs : list nat) (heap : gmap nat nodeReg) : gmap nat nodeReg := foldr (alter cancel) heap rs.

(** [cancelAllNodeRegistrations] *)
Definition cancelAllNodeRegistrations (g : Gate) : Gate :=
  set_regs g ∅ (cancelAll (map_to_list (nodeRegs g)).*2 (regs g)).

(** [Stop] *)
Definition Stop (g : Gate) : Gate := cancelAllNodeRegistrations (cleanupClientProxies g).

(** Pushing a message through a pointer *)
Definition push (g : Gate) (p : nat) (msg : Any) : option Gate :=
  match proxies g !! p with
  | None => Some g
  | Some cp =>
      match PushMessageAny cp msg with
      | Some cp' => Some (set_clients g (clients g) (<[p := cp']> (proxies g)))
      | None => None
      end
  end.

(** The loop of [broadcastToAllClients] over the cells of the clients, in the order of the map iteration *)
Fixpoint pushAll (g : Gate) (ps : list nat) (msg : Any) : option Gate :=
  match ps with
  | [] => Some g
  | p :: rest => match push g p msg with Some g' => pushAll g' rest msg | None => None end
  end.

(** [broadcastToAllClients]: the client map is locked during the whole loop *)
Definition broadcastToAllClients (g : Gate) (order : list nat) (message : option Any) : option Gate :=
  match message with None => Some g | Some msg => pushAll g order msg end.

(** ** Registrations with nodes *)

(** The first part of [RegisterWithNodes]: cancel and forget the nodes that are no longer desired *)
Definition dropUndesired (g : Gate) (desired : gset string) : Gate :=
  set_regs g (filter (fun e => e.1 ∈ desired) (nodeRegs g))
    (cancelAll (map_to_list (filter (fun e => e.1 ∉ desired) (nodeRegs g))).*2 (regs g)).

(** The check of the second part: the node is registered with a stream that is alive *)
Definition isRegistered (g : Gate) (nodeAddr : string) : bool :=
  match nodeRegs g !! nodeAddr with
  | Some r => match regs g !! r with Some (mkReg _ (Some alive)) => alive | _ => false end
  | None => false
  end.

(** The rest of the second part: replace the registration of a node by a new one in cell [r] *)
Definition startRegistration (g : Gate) (nodeAddr : string) (r : nat) : Gate :=
  let heap := match nodeRegs g !! nodeAddr with Some old => alter cancel old (regs g) | None => regs g end in
  set_regs g (<[nodeAddr := r]> (nodeRegs g)) (<[r := mkReg false None]> heap).

(** [RegisterWithNodes] when nothing interferes: [conns] are the nodes and the cell of a new registration *)
Definition RegisterWithNodes (g : Gate) (conns : list (string * nat)) : Gate * list (string * nat) :=
  fold_left (fun '(g, started) '(nodeAddr, r) =>
    if isRegistered g nodeAddr then (g, started)
    else (startRegistration g nodeAddr r, started ++ [(nodeAddr, r)]))
    conns (dropUndesired g (list_to_set conns.*1), []).

(** [registerWithNode] once [RegisterGate] has returned a stream *)
Definition setStream (g : Gate) (nodeAddr : string) (r : nat) : Gate :=
  if bool_decide (nodeRegs g !! nodeAddr = Some r)
  then set_regs g (nodeRegs g) (alter (fun x => mkReg (cancelled x) (Some true)) r (regs g))
  else g.

(** The deferred cleanup of [registerWithNode] *)
Definition endRegistration (g : Gate) (nodeAddr : string) (r : nat) : Gate :=
  if bool_decide (nodeRegs g !! nodeAddr = Some r)
  then set_regs g (delete nodeAddr (nodeRegs g)) (regs g)
  else g.

(** ** The gate and its goroutines *)

Inductive GateMessage : Type :=
| RegisterGateResponse
| ClientMessage (clientIDs : list string) (msg : option Any)
| BroadcastMessage (msg : option Any).

(** Where the goroutine of a registration is *)
Inductive phase : Type :=
| Connecting
| Receiving
| Looking (ids : list string) (msg : option Any)
| Pushing (p : nat) (ids : list string) (msg : Any)
| Ending.

Record world : Type := mkWorld {
  gate : Gate;
  running : gmap nat (string * phase);        (* by the cell of the registration *)
  panicked : bool
}.

Definition on_gate (w : world) (g : Gate) : world := mkWorld g (running w) (panicked w).
Definition goto (w : world) (g : Gate) (r : nat) (n : string) (ph : phase) : world :=
  mkWorld g (<[r := (n, ph)]> (running w)) (panicked w).

Inductive step (w : world) : world -> Prop :=
| W_register uid p : proxies (gate w) !! p = None -> step w (on_gate w (fst (Register (gate w) uid p)))
| W_unregister clientID : step w (on_gate w (Unregister (gate w) clientID))
| W_stop : step w (on_gate w (Stop (gate w)))
| W_drop desired : step w (on_gate w (dropUndesired (gate w) desired))
| W_start n r : regs (gate w) !! r = None -> running w !! r = None ->
    step w (goto w (startRegistration (gate w) n r) r n Connecting)
| W_read p cp m rest : proxies (gate w) !! p = Some cp -> messageChan cp = m :: rest ->
    step w (on_gate w (set_clients (gate w) (clients (gate w))
      (<[p := mkProxy (cid cp) rest (closed cp)]> (proxies (gate w)))))
| W_stream_dies r x : regs (gate w) !! r = Some x -> stream x = Some true ->
    step w (on_gate w (set_regs (gate w) (nodeRegs (gate w)) (<[r := mkReg (cancelled x) (Some false)]> (regs (gate w)))))
| W_connect r n (ok : bool) : running w !! r = Some (n, Connecting) ->
    step w (goto w (if ok then setStream (gate w) n r else gate w) r n (if ok then Receiving else Ending))
| W_close r n : running w !! r = Some (n, Receiving) -> step w (goto w (gate w) r n Ending)
| W_response r n : running w !! r = Some (n, Receiving) -> step w (goto w (gate w) r n Receiving)
| W_client r n ids msg : running w !! r = Some (n, Receiving) -> step w (goto w (gate w) r n (Looking ids msg))
| W_broadcast r n order msg g' : running w !! r = Some (n, Receiving) ->
    order ≡ₚ (map_to_list (clients (gate w))).*2 -> broadcastToAllClients (gate w) order msg = Some g' ->
    step w (goto w g' r n Receiving)
| W_broadcast_panics r n order msg : running w !! r = Some (n, Receiving) ->
    order ≡ₚ (map_to_list (clients (gate w))).*2 -> broadcastToAllClients (gate w) order msg = None ->
    step w (mkWorld (gate w) (running w) true)
| W_look r n clientID ids msg : running w !! r = Some (n, Looking (clientID :: ids) msg) ->
    step w (goto w (gate w) r n
      match GetClient (gate w) clientID, msg with Some p, Some m => Pushing p ids m | _, _ => Looking ids msg end)
| W_looked r n msg : running w !! r = Some (n, Looking [] msg) -> step w (goto w (gate w) r n Receiving)
| W_push r n p ids msg g' : running w !! r = Some (n, Pushing p ids msg) -> push (gate w) p msg = Some g' ->
    step w (goto w g' r n (Looking ids (Some msg)))
| W_push_panics r n p ids msg : running w !! r = Some (n, Pushing p ids msg) -> push (gate w) p msg = None ->
    step w (mkWorld (gate w) (running w) true)
| W_end r n : running w !! r = Some (n, Ending) ->
    step w (mkWorld (endRegistration (gate w) n r) (delete r (running w)) (panicked w)).

Definition initial (addr : string) : world := mkWorld (mkGate addr ∅ ∅ ∅ ∅) ∅ false.
Definition reachable (addr : string) (w : world) : Prop := rtc step (initial addr) w.

End Gate.
End Gates.
Import Gates.

(** ** Invariants *)

Section Invariants.
Context {Any : Type}.

(** Every client is filed under its own id with an open proxy; channels are within their capacity. *)
Record clients_ok (g : Gate (Any := Any)) : Prop := {
  client_open : forall c p, clients g !! c = Some p -> exists cp, proxies g !! p = Some cp /\ cid cp = c /\ closed cp = false;
  chan_bound : forall p cp, proxies g !! p = Some cp -> (length (messageChan cp) <= chanCap)%nat
}.

(** The current registration of a node is not cancelled, and the goroutine of any other one is. *)
Record regs_ok (w : world (Any := Any)) : Prop := {
  reg_current : forall n r, nodeRegs (gate w) !! n = Some r -> exists x, regs (gate w) !! r = Some x /\ cancelled x = false;
  reg_running : forall r n ph, running w !! r = Some (n, ph) -> exists x, regs (gate w) !! r = Some x /\
    (cancelled x = true \/ nodeRegs (gate w) !! n = Some r);
  reg_inj : forall n n' r, nodeRegs (gate w) !! n = Some r -> nodeRegs (gate w) !! n' = Some r -> n = n'
}.

Lemma lookup_closeAll ps (heap : gmap nat (ClientProxy (Any := Any))) p :
  closeAll ps heap !! p = (fun cp => if bool_decide (p ∈ ps) then Close cp else cp) <$> heap !! p.
Proof.
  induction ps as [|q ps IH]; simpl; [by destruct (heap !! p)|]. destruct (decide (q = p)) as [->|Hne];
    [rewrite lookup_alter_eq|rewrite lookup_alter_ne by done]; rewrite IH; destruct (heap !! p) as [cp|]; simpl; try done; f_equal.
  - rewrite (bool_decide_eq_true_2 (p ∈ p :: ps)) by (by left). case_bool_decide; [|done].
    unfold Close. by destruct (closed cp) eqn:?; simpl; [case_match|].
  - do 2 case_bool_decide; set_solver.
Qed.

Lemma lookup_cancelAll rs (heap : gmap nat nodeReg) r :
  cancelAll rs heap !! r = (fun x => if bool_decide (r ∈ rs) then cancel x else x) <$> heap !! r.
Proof.
  induction rs as [|q rs IH]; simpl; [by destruct (heap !! r)|]. destruct (decide (q = r)) as [->|Hne];
    [rewrite lookup_alter_eq|rewrite lookup_alter_ne by done]; rewrite IH; destruct (heap !! r) as [x|]; simpl; try done; f_equal.
  - rewrite (bool_decide_eq_true_2 (r ∈ r :: rs)) by (by left). by case_bool_decide.
  - do 2 case_bool_decide; set_solver.
Qed.

Lemma elem_of_values (m : gmap string nat) p : p ∈ (map_to_list m).*2 <-> exists k, m !! k = Some p.
Proof.
  rewrite list_elem_of_fmap. split.
  - intros ([k q] & -> & Hin%elem_of_map_to_list). eauto.
  - intros [k Hk]. exists (k, p). split; [done|]. by apply elem_of_map_to_list.
Qed.

Lemma push_spec (g g' : Gate (Any := Any)) p msg :
  push g p msg = Some g' -> clients g' = clients g /\ nodeRegs g' = nodeRegs g /\ regs g' = regs g /\
  (forall q, q <> p -> proxies g' !! q = proxies g !! q) /\
  proxies g' !! p = (fun cp => mkProxy (cid cp)
    (if (length (messageChan cp) <? chanCap)%nat then messageChan cp ++ [msg] else messageChan cp) (closed cp)) <$> proxies g !! p.
Proof.
  unfold push, PushMessageAny. destruct (proxies g !! p) as [[c ch b]|] eqn:E; simpl.
  - destruct b; [done|]. destruct (length ch <? chanCap)%nat; intros [= <-]; simpl;
      (split_and!; try done; [by intros; rewrite lookup_insert_ne|by rewrite lookup_insert_eq]).
  - intros [= <-]. by rewrite E.
Qed.

Lemma push_open (g : Gate (Any := Any)) p msg cp :
  proxies g !! p = Some cp -> closed cp = false -> is_Some (push g p msg).
Proof. intros E Hc. unfold push, PushMessageAny. rewrite E, Hc. destruct (_ <? _)%nat; by eexists. Qed.

Lemma clients_ok_push g g' p msg : clients_ok g -> push g p msg = Some g' -> clients_ok g'.
Proof.
  intros [Ho Hb] (Hc & _ & _ & Hq & Hp)%push_spec. split.
  - intros c q. rewrite Hc. intros Hl. destruct (Ho c q Hl) as (cp & Hcp & Hid & Hcl).
    destruct (decide (q = p)) as [->|]; [|rewrite Hq by done; eauto]. rewrite Hp, Hcp. simpl. eauto.
  - intros q cp. destruct (decide (q = p)) as [->|]; [|rewrite Hq by done; eauto].
    rewrite Hp. intros (cp0 & Hcp & ->)%fmap_Some. simpl. specialize (Hb _ _ Hcp).
    destruct (length (messageChan cp0) <? chanCap)%nat eqn:E; [|done]. apply Nat.ltb_lt in E. rewrite length_app. simpl. lia.
Qed.

Lemma pushAll_open ps : forall (g : Gate (Any := Any)) msg,
  clients_ok g -> (forall p, p ∈ ps -> exists c, clients g !! c = Some p) ->
  exists g', pushAll g ps msg = Some g' /\ clients_ok g' /\ clients g' = clients g /\ nodeRegs g' = nodeRegs g /\ regs g' = regs g.
Proof.
  induction ps as [|p ps IH]; intros g msg Hok Hps; simpl; [by exists g|].
  destruct (Hps p) as [c Hc]; [by left|]. destruct (client_open _ Hok _ _ Hc) as (cp & Hcp & _ & Hop).
  destruct (push_open g p msg cp Hcp Hop) as [g1 H1]. rewrite H1.
  pose proof (push_spec _ _ _ _ H1) as (E1 & E2 & E3 & _).
  destruct (IH g1 msg) as (g2 & H2 & Hok2 & F1 & F2 & F3); [by eapply clients_ok_push|rewrite E1; intros; apply Hps; by right|].
  exists g2. split_and!; auto; congruence.
Qed.

Lemma pushAll_proxies ps : forall (g g' : Gate (Any := Any)) msg, NoDup ps -> pushAll g ps msg = Some g' ->
  forall q, proxies g' !! q = if bool_decide (q ∈ ps) then (fun cp => mkProxy (cid cp)
      (if (length (messageChan cp) <? chanCap)%nat then messageChan cp ++ [msg] else messageChan cp) (closed cp)) <$> proxies g !! q
    else proxies g !! q.
Proof.
  induction ps as [|p ps IH]; intros g g' msg HN Hp q; simpl in Hp; [by injection Hp as <-|].
  apply NoDup_cons in HN as [Hnp HN]. destruct (push g p msg) as [g1|] eqn:H1; [|done].
  apply push_spec in H1 as (_ & _ & _ & Hq & Hpp). rewrite (IH _ _ _ HN Hp q).
  destruct (decide (q = p)) as [->|Hne].
  - rewrite (bool_decide_eq_false_2 (p ∈ ps)), bool_decide_eq_true_2 by (done || by left). exact Hpp.
  - rewrite Hq by done. do 2 case_bool_decide; set_solver.
Qed.

Lemma clients_ok_register g uid p :
  clients_ok g -> proxies g !! p = None -> clients_ok (fst (Register (Any := Any) g uid p)).
Proof.
  intros [Ho Hb] Hf. split; simpl.
  - intros c q. rewrite lookup_insert_Some. intros [[<- <-]|[_ Hc]]; [rewrite lookup_insert_eq; by eexists|].
    destruct (Ho c q Hc) as (cp & Hcp & ?). exists cp. rewrite lookup_insert_ne; [done|congruence].
  - intros q cp. rewrite lookup_insert_Some. intros [[<- <-]|[_ Hc]]; [simpl; unfold chanCap; lia|eauto].
Qed.

Lemma clients_ok_unregister g c : clients_ok g -> clients_ok (Unregister (Any := Any) g c).
Proof.
  intros [Ho Hb]. unfold Unregister. destruct (clients g !! c) as [p|] eqn:Hc; [|done]. split; simpl.
  - intros c' q. rewrite lookup_delete_Some. intros [Hne Hc']. destruct (Ho c' q Hc') as (cp & Hcp & Hid & Hop).
    destruct (Ho c p Hc) as (cp' & Hcp' & Hid' & _).
    assert (q <> p) by (intros ->; congruence). exists cp. by rewrite lookup_alter_ne.
  - intros q cp. destruct (decide (p = q)) as [<-|Hne]; [rewrite lookup_alter_eq|rewrite lookup_alter_ne by done; eauto].
    intros (cp0 & Hcp & ->)%fmap_Some. specialize (Hb _ _ Hcp). unfold Close. by destruct (closed cp0).
Qed.

Lemma clients_ok_regs g ns rs : clients_ok g -> clients_ok (set_regs (Any := Any) g ns rs).
Proof. by intros []. Qed.

Lemma clients_ok_stop g : clients_ok g -> clients_ok (Stop (Any := Any) g).
Proof.
  intros [Ho Hb]. apply clients_ok_regs. split; simpl; [intros c p; by rewrite lookup_empty|].
  intros p cp. rewrite lookup_closeAll. intros (cp0 & Hcp & ->)%fmap_Some. specialize (Hb _ _ Hcp).
  case_bool_decide; [|done]. unfold Close. by destruct (closed cp0).
Qed.

Lemma clients_ok_read g p cp m rest :
  clients_ok g -> proxies g !! p = Some cp -> messageChan cp = m :: rest ->
  clients_ok (set_clients (Any := Any) g (clients g) (<[p := mkProxy (cid cp) rest (closed cp)]> (proxies g))).
Proof.
  intros [Ho Hb] Hp Hm. split; simpl.
  - intros c q Hc. destruct (Ho c q Hc) as (cq & Hq & Hid & Hop). destruct (decide (p = q)) as [<-|].
    + rewrite lookup_insert_eq. eexists. split; [done|]. simpl. by simplify_eq.
    + rewrite lookup_insert_ne by done. eauto.
  - intros q cq. rewrite lookup_insert_Some. intros [[<- <-]|[_ Hc]]; [|eauto].
    specialize (Hb _ _ Hp). rewrite Hm in Hb. simpl in *. lia.
Qed.

Lemma clients_ok_broadcast g order msg g' :
  clients_ok g -> order ≡ₚ (map_to_list (clients g)).*2 -> broadcastToAllClients (Any := Any) g order msg = Some g' ->
  clients_ok g' /\ nodeRegs g' = nodeRegs g /\ regs g' = regs g.
Proof.
  intros Hok Hord. destruct msg as [msg|]; simpl; [|by intros [= <-]]. intros Hp.
  destruct (pushAll_open order g msg Hok) as (g2 & H2 & ? & _ & ? & ?); [|by rewrite Hp in H2; simplify_eq].
  intros p. rewrite Hord. by apply elem_of_values.
Qed.

Lemma clients_ok_step (w w' : world (Any := Any)) : clients_ok (gate w) -> step w w' -> clients_ok (gate w').
Proof.
  intros Hok Hs. destruct Hs; cbn [gate on_gate goto]; auto using clients_ok_register, clients_ok_unregister, clients_ok_stop.
  - by apply clients_ok_regs.
  - by apply clients_ok_regs.
  - by eapply clients_ok_read.
  - by apply clients_ok_regs.
  - unfold setStream. destruct ok; [|done]. by case_bool_decide; [apply clients_ok_regs|].
  - by eapply clients_ok_broadcast.
  - by eapply clients_ok_push.
  - unfold endRegistration. by case_bool_decide; [apply clients_ok_regs|].
Qed.

Lemma reachable_clients addr w : reachable (Any := Any) addr w -> clients_ok (gate w).
Proof.
  intros Hr. assert (clients_ok (gate (initial (Any := Any) addr))) as Hi.
  { split; simpl; intros ? ?; by rewrite lookup_empty. }
  unfold reachable in Hr. induction Hr as [|w1 w2 w3 Hs _ IH]; [done|]. apply IH. by eapply clients_ok_step.
Qed.

(** *** Registrations *)

Lemma regs_ok_same w g run :
  regs_ok w -> nodeRegs g = nodeRegs (gate (Any := Any) w) -> regs g = regs (gate w) ->
  (forall r n ph, run !! r = Some (n, ph) -> exists ph', running w !! r = Some (n, ph')) ->
  forall b, regs_ok (mkWorld g run b).
Proof.
  intros [Hc Hr Hi] En Er Hrun b. split; simpl; rewrite ?En, ?Er; auto.
  intros r n ph Hl. destruct (Hrun r n ph Hl) as [ph' Hl']. by eapply Hr.
Qed.

Lemma running_goto (w : world (Any := Any)) r n ph ph0 r' n' ph' :
  running w !! r = Some (n, ph0) -> <[r := (n, ph)]> (running w) !! r' = Some (n', ph') ->
  exists ph'', running w !! r' = Some (n', ph'').
Proof. intros Hl. rewrite lookup_insert_Some. intros [[<- [= <- <-]]|[_ H]]; eauto. Qed.

(** Cancelling registrations that leave the map *)
Lemma regs_ok_cancel w ns rs :
  regs_ok w -> (forall n r, ns !! n = Some r -> nodeRegs (gate (Any := Any) w) !! n = Some r) ->
  (forall r, r ∈ rs -> forall n, ns !! n <> Some r) ->
  (forall n r, nodeRegs (gate w) !! n = Some r -> ns !! n = Some r \/ r ∈ rs) ->
  forall g, nodeRegs g = ns -> regs g = cancelAll rs (regs (gate w)) ->
  regs_ok (mkWorld g (running w) (panicked w)).
Proof.
  intros [Hc Hr Hi] Hsub Hout Hall g En Er. split; simpl; rewrite ?En, ?Er; eauto.
  - intros n r Hn. destruct (Hc n r (Hsub _ _ Hn)) as (x & Hx & Hcx). rewrite lookup_cancelAll, Hx. simpl.
    eexists. split; [done|]. rewrite bool_decide_eq_false_2; [done|]. intros Hin. by eapply Hout.
  - intros r n ph Hl. destruct (Hr r n ph Hl) as (x & Hx & Hcase). rewrite lookup_cancelAll, Hx. simpl.
    eexists. split; [done|]. case_bool_decide as Hin; [by left|]. destruct Hcase as [?|Hn]; [by left|].
    right. by destruct (Hall n r Hn).
Qed.

(** Changing the stream of a registration *)
Lemma regs_ok_touch (w : world (Any := Any)) r x s :
  regs_ok w -> regs (gate w) !! r = Some x ->
  regs_ok (on_gate w (set_regs (gate w) (nodeRegs (gate w)) (<[r := mkReg (cancelled x) s]> (regs (gate w))))).
Proof.
  intros [Hc Hr Hinj] Hx. split; simpl; eauto.
  - intros k q Hk. destruct (Hc k q Hk) as (y & Hy & Hcy). destruct (decide (r = q)) as [<-|].
    + rewrite lookup_insert_eq. eexists. split; [done|]. simpl. congruence.
    + rewrite lookup_insert_ne by done. eauto.
  - intros q k ph Hk. destruct (Hr q k ph Hk) as (y & Hy & Hcase). destruct (decide (r = q)) as [<-|].
    + rewrite lookup_insert_eq. eexists. split; [done|]. simpl. destruct Hcase; [left; congruence|by right].
    + rewrite lookup_insert_ne by done. eauto.
Qed.

Lemma regs_ok_step (w w' : world (Any := Any)) : clients_ok (gate w) -> regs_ok w -> step w w' -> regs_ok w'.
Proof.
  intros Hok Hi Hs. destruct Hs; try (by eapply (regs_ok_same w); simpl; eauto using running_goto).
  - eapply (regs_ok_same w); simpl; eauto; unfold Unregister; by destruct (clients (gate w) !! clientID).
  - eapply (regs_ok_cancel w ∅ (map_to_list (nodeRegs (gate w))).*2); simpl; eauto.
    + intros n r. by rewrite lookup_empty.
    + intros n r Hn. right. apply elem_of_values. eauto.
  - eapply (regs_ok_cancel w (filter (fun e => e.1 ∈ desired) (nodeRegs (gate w))) (map_to_list (filter (fun e => e.1 ∉ desired) (nodeRegs (gate w)))).*2); simpl; eauto.
    + intros n r [? _]%map_lookup_filter_Some. done.
    + intros r (k & Hk)%elem_of_values n [Hn Hin]%map_lookup_filter_Some. apply map_lookup_filter_Some in Hk as [Hk Hnin].
      simpl in *. destruct Hi as [_ _ Hinj]. by rewrite (Hinj _ _ _ Hn Hk) in Hin.
    + intros n r Hn. destruct (decide (n ∈ desired)); [left|right; apply elem_of_values; exists n]; by apply map_lookup_filter_Some.
  - destruct Hi as [Hc Hr Hinj]. assert (forall k q, nodeRegs (gate w) !! k = Some q -> q <> r) as Hfr.
    { intros k q Hk ->. destruct (Hc k r Hk) as (x & Hx & _). congruence. }
    assert (forall q, q <> r -> regs (startRegistration (gate w) n r) !! q =
      (fun x => if bool_decide (nodeRegs (gate w) !! n = Some q) then cancel x else x) <$> regs (gate w) !! q) as Hlk.
    { intros q Hq. simpl. rewrite lookup_insert_ne by done. destruct (nodeRegs (gate w) !! n) as [old|].
      - destruct (decide (old = q)) as [->|Hne].
        + by rewrite lookup_alter_eq, bool_decide_eq_true_2.
        + rewrite lookup_alter_ne, bool_decide_eq_false_2 by congruence. by destruct (regs (gate w) !! q).
      - rewrite bool_decide_eq_false_2 by done. by destruct (regs (gate w) !! q). }
    split.
    + intros k q. simpl. rewrite lookup_insert_Some. intros [[<- <-]|[Hne Hk]]; [rewrite lookup_insert_eq; by eexists|].
      destruct (Hc k q Hk) as (x & Hx & Hcx). exists x. split; [|done].
      change (regs (startRegistration (gate w) n r) !! q = Some x). rewrite Hlk, Hx by eauto.
      rewrite bool_decide_eq_false_2; [done|]. intros E. by apply Hne, (Hinj _ _ _ E Hk).
    + intros q k ph. simpl. rewrite lookup_insert_Some. intros [[<- [= <- <-]]|[Hne Hk]].
      { rewrite !lookup_insert_eq. eauto. }
      destruct (Hr q k ph Hk) as (x & Hx & Hcase).
      change (exists x, regs (startRegistration (gate w) n r) !! q = Some x /\
        (cancelled x = true \/ <[n := r]> (nodeRegs (gate w)) !! k = Some q)). rewrite Hlk, Hx by done. simpl.
      eexists. split; [done|]. case_bool_decide as E; [by left|]. destruct Hcase as [?|Hkq]; [by left|]. right.
      rewrite lookup_insert_ne; [done|congruence].
    + intros k k' q. simpl. rewrite !lookup_insert_Some.
      intros [[<- <-]|[? Hk]] [[<- Hq]|[? Hk']]; try done; [by destruct (Hfr _ _ Hk')|by destruct (Hfr _ _ Hk)|by eapply Hinj].
  - apply (regs_ok_touch w r x); auto.
  - destruct ok; [|by eapply (regs_ok_same w); simpl; eauto using running_goto].
    unfold setStream. case_bool_decide as E; [|by eapply (regs_ok_same w); simpl; eauto using running_goto].
    destruct (reg_current _ Hi _ _ E) as (x & Hx & Hcx). pose proof (regs_ok_touch w r x (Some true) Hi Hx) as Ht.
    eapply (regs_ok_same _ _ _ Ht); simpl; [done| |eauto using running_goto].
    apply map_eq. intros q. destruct (decide (q = r)) as [->|].
    + by rewrite lookup_alter_eq, lookup_insert_eq, Hx.
    + by rewrite lookup_alter_ne, lookup_insert_ne.
  - destruct (clients_ok_broadcast _ _ _ _ Hok H0 H1) as (_ & E1 & E2). eapply (regs_ok_same w); simpl; eauto using running_goto.
  - apply push_spec in H0 as (_ & E1 & E2 & _). eapply (regs_ok_same w); simpl; eauto using running_goto.
  - destruct Hi as [Hc Hr Hinj]. unfold endRegistration. case_bool_decide as E; split; simpl; eauto.
    + intros k q [_ Hk]%lookup_delete_Some. eauto.
    + intros q k ph [Hne Hk]%lookup_delete_Some. destruct (Hr q k ph Hk) as (x & Hx & Hcase). exists x. split; [done|].
      destruct Hcase as [?|Hkq]; [by left|]. right. rewrite lookup_delete_ne; [done|congruence].
    + intros k k' q [_ Hk]%lookup_delete_Some [_ Hk']%lookup_delete_Some. eauto.
    + intros q k ph [Hne Hk]%lookup_delete_Some. eauto.
Qed.

Lemma reachable_regs addr w : reachable (Any := Any) addr w -> regs_ok w.
Proof.
  intros Hr. assert (clients_ok (gate (initial (Any := Any) addr)) /\ regs_ok (initial (Any := Any) addr)) as Hi.
  { split; split; simpl; intros *; by rewrite lookup_empty. }
  unfold reachable in Hr. induction Hr as [|w1 w2 w3 Hs _ IH]; [by destruct Hi|]. destruct Hi. apply IH.
  split; [by eapply clients_ok_step|by eapply regs_ok_step].
Qed.

End Invariants.

(** ** A client's channel *)

Section Channel.
Context {Any : Type}.

Inductive chan_op : Type := Push (m : Any) | Receive | CloseIt.

(** The proxy and what its client has received *)
Definition chan_run (s : option (ClientProxy (Any := Any) * list Any)) (o : chan_op)
    : option (ClientProxy (Any := Any) * list Any) :=
  match s with
  | None => None
  | Some (cp, got) =>
      match o with
      | Push m => (fun cp' => (cp', got)) <$> PushMessageAny cp m
      | Receive =>
          match messageChan cp with
          | [] => Some (cp, got)
          | m :: rest => Some (mkProxy (cid cp) rest (closed cp), got ++ [m])
          end
      | CloseIt => Some (Close cp, got)
      end
  end.

Definition pushed (ops : list chan_op) : list Any := omap (fun o => match o with Push m => Some m | _ => None end) ops.

Lemma chan_run_None ops : fold_left chan_run ops None = None.
Proof. by induction ops. Qed.

Lemma chan_run_fifo ops : forall cp got cp' got' sofar,
  fold_left chan_run ops (Some (cp, got)) = Some (cp', got') ->
  got ++ messageChan cp `sublist_of` sofar -> (length (messageChan cp) <= chanCap)%nat ->
  got' ++ messageChan cp' `sublist_of` sofar ++ pushed ops /\ (length (messageChan cp') <= chanCap)%nat.
Proof.
  induction ops as [|o ops IH]; intros cp got cp' got' sofar Hr Hs Hl; simpl in Hr.
  { injection Hr as <- <-. by rewrite app_nil_r. }
  destruct o as [m| |]; simpl in Hr.
  - unfold PushMessageAny in Hr. destruct (closed cp); simpl in Hr; [by rewrite chan_run_None in Hr|].
    change (pushed (Push m :: ops)) with (m :: pushed ops). rewrite cons_middle, app_assoc.
    destruct (length (messageChan cp) <? chanCap)%nat eqn:E; simpl in Hr; eapply IH; eauto; simpl.
    + rewrite app_assoc. by apply sublist_app.
    + apply Nat.ltb_lt in E. rewrite length_app. simpl. lia.
    + by apply sublist_inserts_r.
  - change (pushed (Receive :: ops)) with (pushed ops). destruct (messageChan cp) as [|m rest] eqn:E; eapply IH; eauto; simpl.
    + by rewrite E.
    + rewrite E. simpl. lia.
    + by rewrite <-app_assoc.
    + simpl in Hl. lia.
  - change (pushed (CloseIt :: ops)) with (pushed ops). eapply IH; [exact Hr| |]; unfold Close; by destruct (closed cp).
Qed.

End Channel.

(** ** Properties *)

(** A gate listens to a node at most once.  In every reachable state, of the goroutines that hold a
    registration with the same node at most one has a context that is not cancelled: registering again
    cancels the previous registration, and the late cleanup of an old one never removes the new one. *)
Theorem gate_registration_exclusive {Any : Type} (addr : string) (w : world (Any := Any)) (n : string) (r1 r2 : nat)
    (ph1 ph2 : phase) (x1 x2 : nodeReg) :
  reachable addr w -> running w !! r1 = Some (n, ph1) -> running w !! r2 = Some (n, ph2) ->
  regs (gate w) !! r1 = Some x1 -> regs (gate w) !! r2 = Some x2 -> cancelled x1 = false -> cancelled x2 = false ->
  r1 = r2.
Proof.
  intros Hr H1 H2 Hx1 Hx2 C1 C2. apply reachable_regs in Hr as [_ Hrun _].
  destruct (Hrun _ _ _ H1) as (y1 & Hy1 & D1), (Hrun _ _ _ H2) as (y2 & Hy2 & D2).
  destruct D1, D2; congruence.
Qed.

(** A broadcast reaches every connected client and never panics.  In every reachable state, for every
    order of the map iteration, [broadcastToAllClients] completes; each connected client's channel has the
    message appended, unless it holds ten messages already, and the proxies of clients that have left,
    and the set of clients, are unchanged. *)
Theorem broadcast_reaches_every_client {Any : Type} (addr : string) (w : world (Any := Any)) (order : list nat) (msg : Any) :
  reachable addr w -> order ≡ₚ (map_to_list (clients (gate w))).*2 ->
  exists g', broadcastToAllClients (gate w) order (Some msg) = Some g' /\ clients g' = clients (gate w) /\
    (forall c p cp, clients (gate w) !! c = Some p -> proxies (gate w) !! p = Some cp ->
       proxies g' !! p = Some (mkProxy c
         (if (length (messageChan cp) <? 10)%nat then messageChan cp ++ [msg] else messageChan cp) false)) /\
    (forall p, (forall c, clients (gate w) !! c <> Some p) -> proxies g' !! p = proxies (gate w) !! p).
Proof.
  intros Hr Hord. apply reachable_clients in Hr. destruct (pushAll_open order (gate w) msg Hr) as (g' & Hp & _ & Hc & _).
  { intros p. rewrite Hord. apply elem_of_values. }
  assert (NoDup order) as HN.
  { rewrite Hord. apply NoDup_fmap_2_strong; [|apply NoDup_map_to_list].
    intros [c p] [c' p'] H1%elem_of_map_to_list H2%elem_of_map_to_list E. simpl in E. subst p'.
    destruct (client_open _ Hr _ _ H1) as (cp & Hcp & Hid & _), (client_open _ Hr _ _ H2) as (cp' & Hcp' & Hid' & _). congruence. }
  exists g'. split; [done|]. split; [done|]. split.
  - intros c p cp Hcl Hcp. rewrite (pushAll_proxies _ _ _ _ HN Hp p), bool_decide_eq_true_2.
    2: { rewrite Hord. apply elem_of_values. eauto. }
    destruct (client_open _ Hr _ _ Hcl) as (cp' & Hcp' & Hid & Hop). rewrite Hcp. simpl.
    rewrite Hcp in Hcp'. injection Hcp' as <-. by rewrite Hid, Hop.
  - intros p Hno. rewrite (pushAll_proxies _ _ _ _ HN Hp p), bool_decide_eq_false_2; [done|].
    rewrite Hord, elem_of_values. intros [c Hc']. by apply (Hno c).
Qed.

(** a client receives messages in the order they were pushed and without duplicates, whatever the
    interleaving of pushes, receptions and the closing of its proxy: what it has received, followed by
    what waits in its channel, is a subsequence of what was pushed, and at most ten messages wait. *)
Theorem client_channel_in_order {Any : Type} (clientID : string) (ops : list chan_op) (cp : ClientProxy (Any := Any))
    (got : list Any) :
  fold_left chan_run ops (Some (NewClientProxy clientID, [])) = Some (cp, got) ->
  got ++ messageChan cp `sublist_of` pushed ops /\ (length (messageChan cp) <= 10)%nat.
Proof. intros Hr. apply (chan_run_fifo ops _ _ _ _ [] Hr); [done|]. simpl. unfold chanCap. lia. Qed.

(** a client that disconnects while a message for it is handled crashes the gate.  There is a run in
    which the gate looks the client up for a pushed message, the client is unregistered, which closes its
    channel, and the push then sends on the closed channel, which panics. *)
Theorem push_to_leaving_client_panics : exists w : world (Any := string), reachable "g1" w /\ panicked w = true.
Proof.
  eexists. split.
  - eapply rtc_l; [apply (W_register _ "u" 0); reflexivity|].
    eapply rtc_l; [apply (W_start _ "n1" 0); reflexivity|].
    eapply rtc_l; [apply (W_connect _ 0 "n1" true); reflexivity|].
    eapply rtc_l; [apply (W_client _ 0 "n1" ["g1/u"] (Some "hello")); reflexivity|].
    eapply rtc_l; [apply (W_look _ 0 "n1" "g1/u" [] (Some "hello")); reflexivity|].
    eapply rtc_l; [apply (W_unregister _ "g1/u")|].
    eapply rtc_l; [eapply (W_push_panics _ 0 "n1" 0 [] "hello"); vm_compute; reflexivity|]. apply rtc_refl.
  - reflexivity.
Qed.

(** ** Witnesses *)

Definition w_one : world (Any := string) :=
  goto (on_gate (initial "g1") (fst (Register (gate (initial "g1")) "u" 0)))
    (startRegistration (fst (Register (gate (initial "g1")) "u" 0)) "n1" 0) 0 "n1" Connecting.

Lemma w_one_reachable : reachable "g1" w_one.
Proof.
  eapply rtc_l; [apply (W_register _ "u" 0); reflexivity|]. eapply rtc_l; [apply (W_start _ "n1" 0); reflexivity|]. apply rtc_refl.
Qed.

Lemma gate_registration_exclusive_witness : (0 = 0)%nat.
Proof.
  apply (gate_registration_exclusive "g1" w_one "n1" 0 0 Connecting Connecting (mkReg false None) (mkReg false None));
    [exact w_one_reachable|reflexivity..].
Defined.

Lemma broadcast_reaches_every_client_witness :
  exists g', broadcastToAllClients (gate w_one) [0%nat] (Some "hi") = Some g' /\
    proxies g' !! 0%nat = Some (mkProxy "g1/u" ["hi"] false).
Proof.
  destruct (broadcast_reaches_every_client "g1" w_one [0%nat] "hi" w_one_reachable) as (g' & Hb & _ & Hp & _).
  { vm_compute. reflexivity. }
  exists g'. split; [exact Hb|]. apply (Hp "g1/u" 0%nat (NewClientProxy "g1/u")); reflexivity.
Defined.

Lemma client_channel_in_order_witness : ["a"] ++ ["b"] `sublist_of` ["a"; "b"] /\ (1 <= 10)%nat.
Proof.
  apply (client_channel_in_order "c" [Push "a"; Push "b"; Receive] (mkProxy "c" ["b"] false) ["a"]). reflexivity.
Defined.
