(* ===== verification/ClientPush.v ===== *)
(** * Pushing messages to clients (the gate channels of cluster/cluster.go)

    A node keeps a channel per gate that listens to it; [PushMessageToClients] groups the clients by the
    gate their ids name and sends one envelope per gate, [BroadcastToAllClients] sends one to every gate.
    Channels are pointers: a heap of buffers, closed or not, of capacity 1024.  All operations hold the
    lock of the channel map from the lookup to the send.  A panic (closing or sending on a closed channel)
    is [None].  Serialising the message is an argument of the pushes: the Any, or the error of [MsgToAny]. *)

From S2P Require Import Prelude GoStrings ObjectId Gate.

Module Pushes.

Section Channels.
Context {Any : Type}.

(** The envelopes a node sends to a gate *)
Inductive envelope : Type :=
| ClientMessageEnvelope (clientIds : list string) (message : Any)
| BroadcastMessageEnvelope (message : Any).

(** A channel: what is buffered, and whether it is closed *)
Record channel : Type := mkChan { buffered : list envelope; chanClosed : bool }.

Record GateChannels : Type := mkGC {
  isGate : bool;                              (* a gate cluster has no gate channels *)
  gateChannels : gmap string nat;
  chanHeap : gmap nat channel
}.

Definition chanCapacity : nat := 1024.

Definition set_chans (c : GateChannels) (m : gmap string nat) (h : gmap nat channel) : GateChannels := mkGC (isGate c) m h.

(** [close(ch)] *)
Definition closeChan (h : gmap nat channel) (ch : nat) : option (gmap nat channel) :=
  match h !! ch with
  | Some (mkChan b false) => Some (<[ch := mkChan b true]> h)
  | _ => None
  end.

(** [RegisterGateConnection]: [ch] is the new channel *)
Definition RegisterGateConnection (c : GateChannels) (gateAddr : string) (ch : nat)
    : option (GateChannels * result string nat) :=
  if isGate c then Some (c, Err "RegisterGateConnection can only be called on node clusters")
  else
    match match gateChannels c !! gateAddr with Some old => closeChan (chanHeap c) old | None => Some (chanHeap c) end with
    | None => None
    | Some h => Some (set_chans c (<[gateAddr := ch]> (gateChannels c)) (<[ch := mkChan [] false]> h), Ok ch)
    end.

(** [UnregisterGateConnection] *)
Definition UnregisterGateConnection (c : GateChannels) (gateAddr : string) (ch : nat) : option GateChannels :=
  if isGate c then Some c
  else match gateChannels c !! gateAddr with
  | Some cur =>
      if bool_decide (cur = ch) then
        match closeChan (chanHeap c) cur with
        | Some h => Some (set_chans c (delete gateAddr (gateChannels c)) h)
        | None => None
        end
      else Some c
  | None => Some c
  end.

(** The closing loop of [cleanupGateChannels], which recovers from the panic of a double close *)
Definition closeRecover (ch : nat) (h : gmap nat channel) : gmap nat channel := default h (closeChan h ch).

(** [cleanupGateChannels] *)
Definition cleanupGateChannels (c : GateChannels) : GateChannels :=
  if isGate c then c
  else set_chans c ∅ (foldr closeRecover (chanHeap c) (map_to_list (gateChannels c)).*2).

(** A send that does not block: [None] is the panic, the boolean whether it was sent *)
Definition trySend (h : gmap nat channel) (ch : nat) (e : envelope) : option (gmap nat channel * bool) :=
  match h !! ch with
  | Some (mkChan b false) =>
      if (length b <? chanCapacity)%nat then Some (<[ch := mkChan (b ++ [e]) false]> h, true) else Some (h, false)
  | _ => None
  end.

(** The gate and the rest of a client id, when it is well formed *)
Definition gateOf (clientID : string) : option string :=
  match SplitN2 clientID "/" with
  | [g; u] => if bool_decide (g = "") || bool_decide (u = "") then None else Some g
  | _ => None
  end.

(** The grouping loop of [PushMessageToClients] *)
Fixpoint groupClients (ids : list string) (byGate : gmap string (list string))
    : result string (gmap string (list string)) :=
  match ids with
  | [] => Ok byGate
  | clientID :: rest =>
      match gateOf clientID with
      | None => Err ("invalid client ID format: " +:+ clientID)
      | Some g => groupClients rest (<[g := default [] (byGate !! g) ++ [clientID]]> byGate)
      end
  end.

Inductive push_error : Type := ErrNotNode | ErrClientID (msg : string) | ErrMarshalMsg (msg : string)
| ErrNotConnected (gate : string) | ErrChanFull (gate : string) | ErrNoGates.

(** The sending loop of [PushMessageToClients], in the order of the map iteration *)
Fixpoint sendGroups (c : GateChannels) (msg : Any) (groups : list (string * list string)) (lastErr : option push_error)
    : option (GateChannels * option push_error) :=
  match groups with
  | [] => Some (c, lastErr)
  | (gateAddr, cls) :: rest =>
      match gateChannels c !! gateAddr with
      | None => sendGroups c msg rest (Some (ErrNotConnected gateAddr))
      | Some ch =>
          match trySend (chanHeap c) ch (ClientMessageEnvelope cls msg) with
          | None => None
          | Some (h, true) => sendGroups (set_chans c (gateChannels c) h) msg rest lastErr
          | Some (h, false) => sendGroups (set_chans c (gateChannels c) h) msg rest (Some (ErrChanFull gateAddr))
          end
      end
  end.

(** [PushMessageToClients]: [order] lists the groups in the order of the map iteration *)
Definition PushMessageToClients (c : GateChannels) (order : gmap string (list string) -> list (string * list string))
    (clientIDs : list string) (msg : result string Any) : option (GateChannels * option push_error) :=
  if isGate c then Some (c, Some ErrNotNode)
  else match clientIDs with
  | [] => Some (c, None)
  | _ =>
      match groupClients clientIDs ∅ with
      | Err e => Some (c, Some (ErrClientID e))
      | Ok byGate =>
          match msg with
          | Err e => Some (c, Some (ErrMarshalMsg e))
          | Ok anyMsg => sendGroups c anyMsg (order byGate) None
          end
      end
  end.

(** The loop of [BroadcastToAllClients] *)
Fixpoint sendAll (h : gmap nat channel) (msg : Any) (gates : list (string * nat)) (lastErr : option push_error)
    : option (gmap nat channel * option push_error) :=
  match gates with
  | [] => Some (h, lastErr)
  | (gateAddr, ch) :: rest =>
      match trySend h ch (BroadcastMessageEnvelope msg) with
      | None => None
      | Some (h, true) => sendAll h msg rest lastErr
      | Some (h, false) => sendAll h msg rest (Some (ErrChanFull gateAddr))
      end
  end.

(** [BroadcastToAllClients] *)
Definition NodeBroadcast (c : GateChannels) (order : list (string * nat)) (msg : result string Any)
    : option (GateChannels * option push_error) :=
  if isGate c then Some (c, Some ErrNotNode)
  else match msg with
  | Err e => Some (c, Some (ErrMarshalMsg e))
  | Ok anyMsg =>
      if bool_decide (gateChannels c = ∅) then Some (c, Some ErrNoGates)
      else match sendAll (chanHeap c) anyMsg order None with
      | None => None
      | Some (h, err) => Some (set_chans c (gateChannels c) h, err)
      end
  end.

End Channels.
End Pushes.
Import Pushes.

Section Lemmas.
Context {Any : Type}.
Abbreviation gc := (GateChannels (Any := Any)).

(** The channels in the map are open and pairwise different. *)
Record chans_ok (c : gc) : Prop := mkChansOk {
  chan_open : forall g ch, gateChannels c !! g = Some ch -> exists b, chanHeap c !! ch = Some (mkChan b false);
  chan_inj : forall g g' ch, gateChannels c !! g = Some ch -> gateChannels c !! g' = Some ch -> g = g'
}.

(** The clients of a list whose gate is [g] *)
Definition clientsOf (g : string) (ids : list string) : list string :=
  List.filter (fun i => bool_decide (gateOf i = Some g)) ids.

Lemma clientsOf_nil g ids : clientsOf g ids = [] <-> forall i, i ∈ ids -> gateOf i <> Some g.
Proof.
  unfold clientsOf. split.
  - intros E i Hi Hg. assert (i ∈ List.filter (fun i => bool_decide (gateOf i = Some g)) ids) as Hin.
    { apply list_elem_of_In, filter_In. rewrite <-list_elem_of_In. by rewrite bool_decide_eq_true_2. }
    rewrite E in Hin. by apply elem_of_nil in Hin.
  - intros Hno. apply elem_of_nil_inv. intros i Hi. apply list_elem_of_In, filter_In in Hi as [Hi Hg].
    apply bool_decide_eq_true in Hg. apply (Hno i); [by apply list_elem_of_In|done].
Qed.

Lemma groupClients_spec ids acc :
  match groupClients ids acc with
  | Ok m => (forall i, i ∈ ids -> gateOf i <> None) /\
      (forall g, m !! g = match clientsOf g ids with [] => acc !! g | l => Some (default [] (acc !! g) ++ l) end)
  | Err _ => exists i, i ∈ ids /\ gateOf i = None
  end.
Proof.
  revert acc. induction ids as [|i ids IH]; intros acc; cbn.
  { split; [intros i Hi; by apply elem_of_nil in Hi|done]. }
  destruct (gateOf i) as [g|] eqn:Hg; [|exists i; split; [by left|done]].
  specialize (IH (<[g := default [] (acc !! g) ++ [i]]> acc)).
  destruct (groupClients ids _) as [m|e]; [|destruct IH as (j & Hj & ?); exists j; split; [by right|done]].
  destruct IH as [Hv Hm]. split.
  - intros j [->|Hj]%elem_of_cons; [by rewrite Hg|by apply Hv].
  - intros g'. rewrite (Hm g'). unfold clientsOf. cbn. rewrite ?Hg. destruct (decide (g = g')) as [<-|Hne].
    + rewrite (bool_decide_eq_true_2 (Some g = Some g)) by done. rewrite lookup_insert_eq.
      destruct (List.filter _ ids); simpl; [done|]. by rewrite <-app_assoc.
    + rewrite (bool_decide_eq_false_2 (Some g = Some g')) by congruence. by rewrite lookup_insert_ne.
Qed.

(** The state of a gate's channel *)
Definition chan_of (c : gc) (g : string) : option channel := gateChannels c !! g ≫= (chanHeap c !!.).

Definition has_room (ch : channel (Any := Any)) : bool := (length (buffered ch) <? chanCapacity)%nat.

(** One send to a gate: its channel has the envelope appended, or is full; no other gate's changes. *)
Lemma trySend_spec (c : gc) g ch e :
  chans_ok c -> gateChannels c !! g = Some ch ->
  exists x h, chan_of c g = Some x /\ trySend (chanHeap c) ch e = Some (h, has_room x) /\
    chans_ok (set_chans c (gateChannels c) h) /\
    (forall g', chan_of (set_chans c (gateChannels c) h) g' =
       if bool_decide (g' = g) then Some (if has_room x then mkChan (buffered x ++ [e]) false else x) else chan_of c g').
Proof.
  intros [Ho Hi] Hg. destruct (Ho g ch Hg) as [b Hb]. exists (mkChan b false). unfold trySend, chan_of, has_room.
  rewrite Hg, Hb. simpl. destruct (length b <? chanCapacity)%nat; eexists; (split; [done|]); (split; [done|]); split.
  - split; simpl; [|done]. intros g' ch' Hg'. destruct (decide (ch = ch')) as [<-|]; [rewrite lookup_insert_eq; eauto|].
    rewrite lookup_insert_ne by done. eauto.
  - intros g'. simpl. case_bool_decide as E; [subst; rewrite Hg; simpl; by rewrite lookup_insert_eq|].
    destruct (gateChannels c !! g') as [ch'|] eqn:Hg'; simpl; [|done]. rewrite lookup_insert_ne; [done|].
    intros <-. apply E. by apply (Hi _ _ _ Hg' Hg).
  - by split.
  - intros g'. simpl. case_bool_decide as E; [subst; by rewrite Hg|done].
Qed.

Definition sent (groups : list (string * list string)) (msg : Any) (c : gc) (g : string) : option channel :=
  match chan_of c g with
  | Some x =>
      match (list_to_map groups : gmap string (list string)) !! g with
      | Some l => Some (if has_room x then mkChan (buffered x ++ [ClientMessageEnvelope l msg]) false else x)
      | None => Some x
      end
  | None => None
  end.

Definition reachable_gate (c : gc) (g : string) : bool :=
  match chan_of c g with Some x => has_room x | None => false end.

Lemma chan_of_None (c : gc) g : chans_ok c -> chan_of c g = None <-> gateChannels c !! g = None.
Proof.
  intros [Ho _]. unfold chan_of. destruct (gateChannels c !! g) as [ch|] eqn:E; simpl; [|done].
  destruct (Ho g ch E) as [b ->]. by split.
Qed.

Lemma sendGroups_spec groups : forall (c : gc) msg err,
  chans_ok c -> NoDup groups.*1 ->
  exists c' err', sendGroups c msg groups err = Some (c', err') /\ chans_ok c' /\
    gateChannels c' = gateChannels c /\ (forall g, chan_of c' g = sent groups msg c g) /\
    (err' = None <-> err = None /\ forallb (reachable_gate c) groups.*1 = true).
Proof.
  induction groups as [|[g l] groups IH]; intros c msg err Hok HN; cbn [sendGroups].
  { exists c, err. split_and!; auto; [intros g; unfold sent; cbn; by destruct (chan_of c g)|cbn; naive_solver]. }
  cbn in HN. apply NoDup_cons in HN as [Hg HN].
  assert ((list_to_map groups : gmap string (list string)) !! g = None) as Hfresh by (by apply not_elem_of_list_to_map_1).
  destruct (gateChannels c !! g) as [ch|] eqn:Hch.
  - destruct (trySend_spec c g ch (ClientMessageEnvelope l msg) Hok Hch) as (x & h & Hx & Hs & Hok1 & Hc1). rewrite Hs.
    set (c1 := set_chans c (gateChannels c) h) in *.
    assert (forall e, exists c' err', sendGroups c1 msg groups e = Some (c', err') /\ chans_ok c' /\
      gateChannels c' = gateChannels c /\ (forall g', chan_of c' g' = sent ((g, l) :: groups) msg c g') /\
      (err' = None <-> e = None /\ forallb (reachable_gate c) groups.*1 = true)) as Hgo.
    { intros e. destruct (IH c1 msg e Hok1 HN) as (c' & err' & ? & ? & ? & Hc' & He). exists c', err'. split_and!; auto.
      - intros g'. rewrite Hc'. unfold sent. rewrite Hc1. cbn. destruct (decide (g' = g)) as [->|Hne].
        + by rewrite bool_decide_eq_true_2, Hfresh, Hx, lookup_insert_eq.
        + by rewrite bool_decide_eq_false_2, lookup_insert_ne.
      - rewrite He. replace (forallb (reachable_gate c1) groups.*1) with (forallb (reachable_gate c) groups.*1); [done|].
        clear -Hc1 Hg. induction (groups.*1) as [|y ys IHy]; [done|]. cbn. rewrite not_elem_of_cons in Hg. destruct Hg as [Hne Hg].
        rewrite (IHy Hg). f_equal. unfold reachable_gate. rewrite Hc1. by rewrite bool_decide_eq_false_2. }
    assert (reachable_gate c g = has_room x) as Hrg by (unfold reachable_gate; by rewrite Hx).
    destruct (has_room x) eqn:Hroom.
    + destruct (Hgo err) as (c' & err' & ? & ? & ? & ? & He). exists c', err'. split_and!; auto. cbn. by rewrite He, Hrg.
    + destruct (Hgo (Some (ErrChanFull g))) as (c' & err' & ? & ? & ? & ? & He). exists c', err'. split_and!; auto.
      cbn. rewrite He, Hrg. cbn. naive_solver.
  - destruct (IH c msg (Some (ErrNotConnected g)) Hok HN) as (c' & err' & ? & ? & ? & Hc' & He). exists c', err'. split_and!; auto.
    + intros g'. rewrite Hc'. unfold sent. cbn. destruct (decide (g' = g)) as [->|Hne]; [|by rewrite lookup_insert_ne].
      by rewrite (proj2 (chan_of_None c g Hok) Hch).
    + rewrite He. cbn. unfold reachable_gate at 2. rewrite (proj2 (chan_of_None c g Hok) Hch). cbn. naive_solver.
Qed.

Lemma closeChan_open (h : gmap nat (channel (Any := Any))) ch b :
  h !! ch = Some (mkChan b false) -> closeChan h ch = Some (<[ch := mkChan b true]> h).
Proof. unfold closeChan. by intros ->. Qed.

Lemma sendAll_ok gates : forall (c : gc) h msg err,
  chans_ok (set_chans c (gateChannels c) h) -> (forall g ch, (g, ch) ∈ gates -> gateChannels c !! g = Some ch) ->
  exists h' err', sendAll h msg gates err = Some (h', err') /\ chans_ok (set_chans c (gateChannels c) h').
Proof.
  induction gates as [|[g ch] gates IH]; intros c h msg err Hok Hin; cbn; [by eexists _, _|].
  destruct (trySend_spec _ g ch (BroadcastMessageEnvelope msg) Hok) as (x & h1 & _ & Hs & Hok1 & _); [apply Hin; by left|].
  change (chanHeap (set_chans c (gateChannels c) h)) with h in Hs. rewrite Hs. destruct (has_room x); apply (IH c h1); try exact Hok1; intros; apply Hin; by right.
Qed.

(** ** Runs *)

Inductive gate_op : Type :=
| GRegister (gateAddr : string) (ch : nat)
| GUnregister (gateAddr : string) (ch : nat)
| GPush (order : gmap string (list string) -> list (string * list string)) (ids : list string) (msg : result string Any)
| GBroadcast (order : list (string * nat)) (msg : result string Any)
| GRead (ch : nat)                            (* the gate's stream takes an envelope *)
| GCleanup.

Definition gate_run (c : gc) (o : gate_op) : option gc :=
  match o with
  | GRegister g ch => fst <$> RegisterGateConnection c g ch
  | GUnregister g ch => UnregisterGateConnection c g ch
  | GPush order ids msg => fst <$> PushMessageToClients c order ids msg
  | GBroadcast order msg => fst <$> NodeBroadcast c order msg
  | GRead ch => Some (set_chans c (gateChannels c) (alter (fun x => mkChan (tail (buffered x)) (chanClosed x)) ch (chanHeap c)))
  | GCleanup => Some (cleanupGateChannels c)
  end.

(** A new channel is new; the orders are orders of the map iterated. *)
Definition gate_op_ok (c : gc) (o : gate_op) : Prop :=
  match o with
  | GRegister _ ch => chanHeap c !! ch = None
  | GPush order _ _ => forall m, order m ≡ₚ map_to_list m
  | GBroadcast order _ => order ≡ₚ map_to_list (gateChannels c)
  | _ => True
  end.

Inductive gate_reachable : gc -> Prop :=
| gr_init b : gate_reachable (mkGC b ∅ ∅)
| gr_step c o c' : gate_reachable c -> gate_op_ok c o -> gate_run c o = Some c' -> gate_reachable c'.

Lemma chans_ok_register (c : gc) g ch : chans_ok c -> chanHeap c !! ch = None ->
  exists c' r, RegisterGateConnection c g ch = Some (c', r) /\ chans_ok c'.
Proof.
  intros Hok Hf. unfold RegisterGateConnection. destruct (isGate c); [by eexists _, _|].
  destruct Hok as [Ho Hi].
  assert (forall k q, gateChannels c !! k = Some q -> q <> ch) as Hne.
  { intros k q Hk ->. destruct (Ho _ _ Hk). congruence. }
  assert (forall h, (forall k q, k <> g -> gateChannels c !! k = Some q -> h !! q = chanHeap c !! q) ->
    chans_ok (set_chans c (<[g := ch]> (gateChannels c)) (<[ch := mkChan [] false]> h))) as Hgo.
  { intros h Hh. split; cbn.
    - intros k q. rewrite lookup_insert_Some. intros [[<- <-]|[Hkg Hk]]; [rewrite lookup_insert_eq; by eexists|].
      rewrite lookup_insert_ne by (intros E; by apply (Hne _ _ Hk)). rewrite (Hh k q); eauto.
    - intros k k' q. rewrite !lookup_insert_Some. intros [[<- <-]|[? Hk]] [[<- E]|[? Hk']]; subst; try done;
        [by destruct (Hne _ _ Hk')|by destruct (Hne _ _ Hk)|by eapply Hi]. }
  destruct (gateChannels c !! g) as [old|] eqn:Hg; [|eexists _, _; split; [done|by apply Hgo]].
  destruct (Ho _ _ Hg) as [b Hb]. rewrite (closeChan_open _ _ _ Hb). eexists _, _. split; [done|]. apply Hgo.
  intros k q Hkg Hk. rewrite lookup_insert_ne; [done|]. intros ->. apply Hkg. by apply (Hi _ _ _ Hk Hg).
Qed.

Lemma chans_ok_unregister (c : gc) g ch : chans_ok c -> exists c', UnregisterGateConnection c g ch = Some c' /\ chans_ok c'.
Proof.
  intros Hok. unfold UnregisterGateConnection. destruct (isGate c); [by eexists|].
  destruct (gateChannels c !! g) as [cur|] eqn:Hg; [|by eexists]. case_bool_decide; [|by eexists]. subst cur.
  destruct Hok as [Ho Hi]. destruct (Ho _ _ Hg) as [b Hb]. rewrite (closeChan_open _ _ _ Hb). eexists. split; [done|]. split; cbn.
  - intros k q [Hne Hk]%lookup_delete_Some. rewrite lookup_insert_ne; [by apply (Ho k)|]. intros ->. apply Hne. by apply (Hi _ _ _ Hg Hk).
  - intros k k' q [_ Hk]%lookup_delete_Some [_ Hk']%lookup_delete_Some. by eapply Hi.
Qed.

Lemma chans_ok_run (c : gc) o : chans_ok c -> gate_op_ok c o -> exists c', gate_run c o = Some c' /\ chans_ok c'.
Proof.
  intros Hok Ho. destruct o as [g ch|g ch|order ids msg|order msg|ch|]; cbn in Ho |- *.
  - destruct (chans_ok_register c g ch Hok Ho) as (c' & r & -> & ?). by eexists.
  - by apply chans_ok_unregister.
  - unfold PushMessageToClients. destruct (isGate c); [by eexists|]. destruct ids as [|i ids]; [by eexists|].
    destruct (groupClients (i :: ids) ∅) as [m|e]; [|by eexists]. destruct msg as [msg|e]; [|by eexists].
    destruct (sendGroups_spec (order m) c msg None Hok) as (c' & err & -> & ? & _).
    { rewrite Ho. apply NoDup_fst_map_to_list. }
    by eexists.
  - unfold NodeBroadcast. destruct (isGate c); [by eexists|]. destruct msg as [msg|e]; [|by eexists].
    case_bool_decide; [by eexists|].
    destruct (sendAll_ok order c (chanHeap c) msg None) as (h & err & -> & ?); [by destruct c, Hok| |by eexists].
    intros g ch. rewrite Ho. by intros ?%elem_of_map_to_list.
  - eexists. split; [done|]. destruct Hok as [Hop Hi]. split; cbn; [|done]. intros g q Hg. destruct (Hop g q Hg) as [b Hb].
    destruct (decide (ch = q)) as [<-|]; [rewrite lookup_alter_eq, Hb; by eexists|rewrite lookup_alter_ne by done; eauto].
  - eexists. split; [done|]. unfold cleanupGateChannels. destruct (isGate c); [done|]. split; cbn; intros *; by rewrite lookup_empty.
Qed.

Lemma gate_reachable_ok (c : gc) : gate_reachable c -> chans_ok c.
Proof.
  induction 1 as [b|c o c' _ IH Ho Hr]; [split; cbn; intros *; by rewrite lookup_empty|].
  destruct (chans_ok_run c o IH Ho) as (c1 & Hr1 & ?). congruence.
Qed.

End Lemmas.

(** ** Properties *)

(** A node never panics on a gate channel.  In every state reached by registering and unregistering
    gates, pushes, broadcasts and the final cleanup, in any order and with stale unregistrations, the next
    operation completes: no channel is closed twice and none is sent to after it is closed. *)
Theorem gate_channels_never_panic {Any : Type} (c : GateChannels (Any := Any)) (o : gate_op) :
  gate_reachable c -> gate_op_ok c o -> is_Some (gate_run c o).
Proof. intros Hr Ho. apply gate_reachable_ok in Hr. destruct (chans_ok_run c o Hr Ho) as (c' & -> & _). by eexists. Qed.

(** One envelope per gate, from any state whose channels are in order *)
Lemma PushMessageToClients_spec {Any : Type} (c : GateChannels (Any := Any))
    (order : gmap string (list string) -> list (string * list string)) (ids : list string) (msg : Any) :
  chans_ok c -> isGate c = false -> (forall m, order m ≡ₚ map_to_list m) ->
  exists c' err, PushMessageToClients c order ids (Ok msg) = Some (c', err) /\
    ((exists i, i ∈ ids /\ gateOf i = None) -> c' = c /\ err <> None) /\
    ((forall i, i ∈ ids -> gateOf i <> None) ->
       (forall g, chan_of c' g = match chan_of c g, clientsOf g ids with
          | Some x, (_ :: _) as l => Some (if has_room x then mkChan (buffered x ++ [ClientMessageEnvelope l msg]) false else x)
          | ch, _ => ch
          end) /\
       (err = None <-> forall i g, i ∈ ids -> gateOf i = Some g -> exists x, chan_of c g = Some x /\ has_room x = true)).
Proof.
  intros Hr Hn Hord. unfold PushMessageToClients. rewrite Hn.
  destruct ids as [|i0 ids].
  { exists c, None. split_and!; auto; [intros (i & Hi & _); by apply elem_of_nil in Hi|].
    intros _. split; [intros g; cbn; by destruct (chan_of c g)|]. split; [|done]. intros _ i g Hi. by apply elem_of_nil in Hi. }
  pose proof (groupClients_spec (i0 :: ids) ∅) as Hg. destruct (groupClients (i0 :: ids) ∅) as [m|e].
  2: { exists c, (Some (ErrClientID e)). split_and!; auto. destruct Hg as (i & Hi & Hbad). intros Hv. by destruct (Hv i Hi). }
  destruct Hg as [Hv Hm].
  destruct (sendGroups_spec (order m) c msg None Hr) as (c' & err & -> & _ & _ & Hc & He).
  { rewrite Hord. apply NoDup_fst_map_to_list. }
  assert (forall g, (list_to_map (order m) : gmap string (list string)) !! g = m !! g) as Hlk.
  { intros g. rewrite (list_to_map_proper (order m) (map_to_list m)); [by rewrite list_to_map_to_list| |apply Hord].
    rewrite Hord. apply NoDup_fst_map_to_list. }
  exists c', err. split; [done|]. split; [intros (i & Hi & Hbad); by destruct (Hv i Hi)|]. intros _. split.
  - intros g. rewrite Hc. unfold sent. rewrite Hlk, Hm, lookup_empty. destruct (chan_of c g); [|done].
    by destruct (clientsOf g (i0 :: ids)).
  - rewrite He, forallb_forall. split.
    + intros [_ Hall] i g Hi Hg. specialize (Hall g). rewrite <-list_elem_of_In in Hall.
      assert (reachable_gate c g = true) as Hrg.
      { apply Hall. rewrite (Hord m). apply list_elem_of_fmap. destruct (m !! g) as [l|] eqn:El.
        - exists (g, l). split; [done|]. by apply elem_of_map_to_list.
        - exfalso. rewrite Hm, lookup_empty in El. destruct (clientsOf g (i0 :: ids)) eqn:Ec; [|done].
          by apply (proj1 (clientsOf_nil g (i0 :: ids)) Ec i Hi). }
      unfold reachable_gate in Hrg. destruct (chan_of c g) as [x|]; [by exists x|done].
    + intros Hall. split; [done|]. intros g. rewrite <-list_elem_of_In, (Hord m). intros ([g' l] & -> & Hl%elem_of_map_to_list)%list_elem_of_fmap.
      cbn. rewrite Hm, lookup_empty in Hl. destruct (clientsOf g' (i0 :: ids)) as [|j js] eqn:Ec; [done|].
      assert (j ∈ clientsOf g' (i0 :: ids)) as Hj by (rewrite Ec; by left). unfold clientsOf in Hj.
      apply list_elem_of_In, filter_In in Hj as [Hj1 Hj2]. apply list_elem_of_In in Hj1. apply bool_decide_eq_true in Hj2.
      destruct (Hall j g' Hj1 Hj2) as (x & Hx & Hroom). unfold reachable_gate. by rewrite Hx.
Qed.

(** [PushMessageToClients] sends each gate one envelope with exactly its own clients.  On a node, if
    some client id is malformed nothing is sent.  Otherwise every gate that is named by an id, connected and
    not full has one envelope appended to its channel, holding the ids of its clients in their order; the
    other channels are unchanged; and no error is returned exactly when every gate named got its envelope. *)
Theorem push_groups_by_gate {Any : Type} (c : GateChannels (Any := Any))
    (order : gmap string (list string) -> list (string * list string)) (ids : list string) (msg : Any) :
  gate_reachable c -> isGate c = false -> (forall m, order m ≡ₚ map_to_list m) ->
  exists c' err, PushMessageToClients c order ids (Ok msg) = Some (c', err) /\
    ((exists i, i ∈ ids /\ gateOf i = None) -> c' = c /\ err <> None) /\
    ((forall i, i ∈ ids -> gateOf i <> None) ->
       (forall g, chan_of c' g = match chan_of c g, clientsOf g ids with
          | Some x, (_ :: _) as l => Some (if has_room x then mkChan (buffered x ++ [ClientMessageEnvelope l msg]) false else x)
          | ch, _ => ch
          end) /\
       (err = None <-> forall i g, i ∈ ids -> gateOf i = Some g -> exists x, chan_of c g = Some x /\ has_room x = true)).
Proof. intros Hr. by apply PushMessageToClients_spec, gate_reachable_ok. Qed.

(** a client is reached through the gate it registered with: the id that a gate with a slash-free,
    non-empty address gives to a new client is well formed, and the node's grouping sends messages for it
    to that gate, where the id finds the client's proxy. *)
Theorem client_id_names_its_gate {Any : Type} (g : Gates.Gate (Any := Any)) (uid : string) (p : nat) :
  Contains (Gates.advertiseAddress g) "/" = false -> Gates.advertiseAddress g <> "" -> uid <> "" ->
  let '(g', clientID) := Gates.Register g uid p in
  gateOf clientID = Some (Gates.advertiseAddress g) /\ Gates.GetClient g' clientID = Some p.
Proof.
  intros Hs Ha Hu. cbn. split; [|unfold Gates.GetClient; cbn; by rewrite lookup_insert_eq].
  unfold gateOf, SplitN2. rewrite (Cut_app "/" (Gates.advertiseAddress g) uid) by done.
  by rewrite !bool_decide_eq_false_2.
Qed.

(** ** Witnesses *)

Definition one_gate : GateChannels (Any := string) := mkGC false {[ "g1:1" := 0%nat ]} {[ 0%nat := mkChan [] false ]}.

Lemma one_gate_reachable : gate_reachable one_gate.
Proof. eapply (gr_step (mkGC false ∅ ∅) (GRegister "g1:1" 0)); [apply gr_init|reflexivity|reflexivity]. Qed.

Lemma gate_channels_never_panic_witness : is_Some (gate_run one_gate (GUnregister "g1:1" 0)).
Proof. apply gate_channels_never_panic; [exact one_gate_reachable|exact I]. Defined.

Lemma push_groups_by_gate_witness :
  exists c' err, PushMessageToClients one_gate map_to_list ["g1:1/a"; "g1:1/b"] (Ok "hi") = Some (c', err) /\
    chan_of c' "g1:1" = Some (mkChan [ClientMessageEnvelope ["g1:1/a"; "g1:1/b"] "hi"] false).
Proof.
  destruct (push_groups_by_gate one_gate map_to_list ["g1:1/a"; "g1:1/b"] "hi" one_gate_reachable eq_refl
    (fun m => Permutation_refl _)) as (c' & err & Hp & _ & Hv).
  exists c', err. split; [exact Hp|]. destruct Hv as [Hc _].
  - intros i Hi. apply list_elem_of_In in Hi. destruct Hi as [<-|[<-|[]]]; discriminate.
  - rewrite Hc. vm_compute. reflexivity.
Defined.

Lemma client_id_names_its_gate_witness : gateOf "g1:1/u" = Some "g1:1".
Proof.
  apply (client_id_names_its_gate (Gates.mkGate "g1:1" ∅ ∅ ∅ ∅ : Gates.Gate (Any := string)) "u" 0); by vm_compute.
Defined.
