(* ===== verification/GateStream.v ===== *)
(** * The stream from a node to a gate (server/server.go: RegisterGate)

    [Module Streams]: a gate calls [RegisterGate] of a node, whose handler registers a channel with the
    cluster and forwards what the node puts into the channel.  A handler is a goroutine with a program
    counter; the other operations on the gate channels (pushes, broadcasts, the final cleanup, other
    handlers of the same gate) happen between its steps.  [taken] records what was received from each
    channel and [sent] what a handler handed to its stream: both are histories that no step reads.  The
    last part composes a push of a node, the stream and the gate's [handleGateMessage].  The channel only
    holds the two kinds of envelope, so that the branch of the source for others is not reachable. *)

From S2P Require Import Prelude GoStrings ObjectId Gate ClientPush.

Module Streams.
Import Pushes.

Section Handlers.
Context {Any : Type}.
Abbreviation gc := (GateChannels (Any := Any)).

(** The message a handler makes of an envelope *)
Definition toGateMessage (e : envelope (Any := Any)) : Gates.GateMessage :=
  match e with
  | ClientMessageEnvelope ids m => Gates.ClientMessage ids (Some m)
  | BroadcastMessageEnvelope m => Gates.BroadcastMessage (Some m)
  end.

(** Why a handler returned *)
Inductive outcome : Type := ErrNoGateAddr | ErrSend | ErrRegister (e : string) | StreamClosed | ChannelClosed.

(** Where a handler is: sending the response, registering, at the select, about to send a message, at the
    deferred [UnregisterGateConnection], returned *)
Inductive phase : Type :=
| Responding
| Registering
| Selecting (ch : nat)
| Sending (ch : nat) (e : envelope (Any := Any))
| Leaving (ch : nat) (o : outcome)
| Returned (o : outcome).

Record handler : Type := mkHandler { gateAddr : string; pc : phase; sent : list (Gates.GateMessage (Any := Any)) }.

Record world : Type := mkWorld {
  chans : gc;
  handlers : gmap nat handler;
  taken : gmap nat (list (envelope (Any := Any)))
}.

(** What a handler observes *)
Inductive input : Type := Send (ok : bool) | NewChan (ch : nat) | Receive | CtxDone | Defer.

Definition goto (w : world) (h : nat) (x : handler) (p : phase) : world :=
  mkWorld (chans w) (<[h := mkHandler (gateAddr x) p (sent x)]> (handlers w)) (taken w).

(** [RegisterGate] is called *)
Definition RegisterGate (w : world) (h : nat) (addr : string) : world :=
  mkWorld (chans w)
    (<[h := mkHandler addr (if bool_decide (addr = "") then Returned ErrNoGateAddr else Responding) []]> (handlers w)) (taken w).

(** [RegisterGate] from one operation to the next; [None] when the handler does not proceed with the input
    or panics *)
Definition registerGateStep (w : world) (h : nat) (x : handler) (i : input) : option world :=
  match pc x, i with
  | Responding, Send true =>
      Some (mkWorld (chans w) (<[h := mkHandler (gateAddr x) Registering (sent x ++ [Gates.RegisterGateResponse])]> (handlers w)) (taken w))
  | Responding, Send false => Some (goto w h x (Returned ErrSend))
  | Registering, NewChan ch =>
      match RegisterGateConnection (chans w) (gateAddr x) ch with
      | None => None
      | Some (c, Err e) => Some (goto (mkWorld c (handlers w) (taken w)) h x (Returned (ErrRegister e)))
      | Some (c, Ok ch) => Some (goto (mkWorld c (handlers w) (taken w)) h x (Selecting ch))
      end
  | Selecting ch, CtxDone => Some (goto w h x (Leaving ch StreamClosed))
  | Selecting ch, Receive =>
      match chanHeap (chans w) !! ch with
      | Some (mkChan (e :: rest) b) =>
          Some (goto (mkWorld (set_chans (chans w) (gateChannels (chans w)) (<[ch := mkChan rest b]> (chanHeap (chans w))))
                        (handlers w) (<[ch := default [] (taken w !! ch) ++ [e]]> (taken w))) h x (Sending ch e))
      | Some (mkChan [] true) => Some (goto w h x (Leaving ch ChannelClosed))
      | _ => None
      end
  | Sending ch e, Send true =>
      Some (mkWorld (chans w) (<[h := mkHandler (gateAddr x) (Selecting ch) (sent x ++ [toGateMessage e])]> (handlers w)) (taken w))
  | Sending ch e, Send false => Some (goto w h x (Leaving ch ErrSend))
  | Leaving ch o, Defer =>
      match UnregisterGateConnection (chans w) (gateAddr x) ch with
      | None => None
      | Some c => Some (goto (mkWorld c (handlers w) (taken w)) h x (Returned o))
      end
  | _, _ => None
  end.

(** The operations of the node that do not come from a handler *)
Definition node_op (o : gate_op (Any := Any)) : bool :=
  match o with GPush _ _ _ | GBroadcast _ _ | GCleanup => true | _ => false end.

Inductive step (w : world) : world -> Prop :=
| S_call h addr : handlers w !! h = None -> step w (RegisterGate w h addr)
| S_handler h x i w' : handlers w !! h = Some x -> (forall ch, i = NewChan ch -> chanHeap (chans w) !! ch = None) ->
    registerGateStep w h x i = Some w' -> step w w'
| S_node o c : node_op o = true -> gate_op_ok (chans w) o -> gate_run (chans w) o = Some c ->
    step w (mkWorld c (handlers w) (taken w)).

Definition initial (g : bool) : world := mkWorld (mkGC g ∅ ∅) ∅ ∅.
Definition reachable (w : world) : Prop := exists g, rtc step (initial g) w.

(** Everything a channel has accepted so far, in order *)
Definition accepted (w : world) (ch : nat) : list (envelope (Any := Any)) :=
  default [] (taken w !! ch) ++ default [] (buffered <$> chanHeap (chans w) !! ch).

(** The channel of a handler, and the envelope it has received and not sent *)
Definition chanOf (p : phase) : option nat := match p with Selecting ch | Sending ch _ | Leaving ch _ => Some ch | _ => None end.
Definition inFlight (p : phase) : list (envelope (Any := Any)) := match p with Sending _ e => [e] | _ => [] end.

(** [registerGateStep] over a list of inputs *)
Fixpoint runHandler (w : world) (h : nat) (ins : list input) : option world :=
  match ins with
  | [] => Some w
  | i :: ins => x ← handlers w !! h; w' ← registerGateStep w h x i; runHandler w' h ins
  end.

(** ** The receiving side *)

(** The loop of [handleGateMessage] over the clients of an envelope, when nothing else runs in between *)
Fixpoint pushClients (g : Gates.Gate (Any := Any)) (ids : list string) (msg : option Any) : option (Gates.Gate (Any := Any)) :=
  match ids with
  | [] => Some g
  | clientID :: rest =>
      match Gates.GetClient g clientID, msg with
      | Some p, Some m => g' ← Gates.push g p m; pushClients g' rest msg
      | _, _ => pushClients g rest msg
      end
  end.

(** [handleGateMessage]; [order] is the order of the map iteration of a broadcast *)
Definition handleGateMessage (g : Gates.Gate (Any := Any)) (order : list nat) (msg : Gates.GateMessage (Any := Any)) : option Gates.Gate :=
  match msg with
  | Gates.RegisterGateResponse => Some g
  | Gates.ClientMessage ids m => pushClients g ids m
  | Gates.BroadcastMessage m => Gates.broadcastToAllClients g order m
  end.

End Handlers.
End Streams.
Import Pushes Streams.

(** ** What the channel operations keep *)

Section Invariant.
Context {Any : Type}.
Implicit Types (w : world (Any := Any)) (x : handler (Any := Any)) (c : GateChannels (Any := Any)).

(** [c'] has every channel of [c], with more envelopes at its end *)
Definition grows c c' : Prop :=
  forall ch q, chanHeap c !! ch = Some q -> exists q' l, chanHeap c' !! ch = Some q' /\ buffered q' = buffered q ++ l /\
    (chanClosed q = true -> q' = q).

#[global] Instance grows_preorder : PreOrder (grows : relation (GateChannels (Any := Any))).
Proof.
  split.
  - intros c ch q Hq. exists q, []. by rewrite app_nil_r.
  - intros c1 c2 c3 H12 H23 ch q Hq. destruct (H12 ch q Hq) as (q2 & l2 & Hq2 & Hb2 & Hc2).
    destruct (H23 ch q2 Hq2) as (q3 & l3 & Hq3 & Hb3 & Hc3). exists q3, (l2 ++ l3). split; [done|].
    rewrite Hb3, Hb2, app_assoc. split; [done|]. intros Hc. pose proof (Hc2 Hc). subst q2. auto.
Qed.

Lemma grows_insert c m ch q q' l : chanHeap c !! ch = Some q -> buffered q' = buffered q ++ l -> chanClosed q = false ->
  grows c (set_chans c m (<[ch := q']> (chanHeap c))).
Proof.
  intros Hq Hb Hc ch' p Hp. cbn. destruct (decide (ch = ch')) as [<-|Hne].
  - simplify_eq. exists q', l. rewrite lookup_insert_eq. split_and!; [done..|]. congruence.
  - rewrite lookup_insert_ne by done. exists p, []. by rewrite app_nil_r.
Qed.

(** The heap alone decides *)
Lemma grows_heap c m h c' : chanHeap c' = h -> grows c (set_chans c m h) -> grows c c'.
Proof. intros E Hg ch q Hq. destruct (Hg ch q Hq) as (q' & l & Hq' & ?). exists q', l. cbn in Hq'. by rewrite E. Qed.

Lemma grows_same c m : grows c (set_chans c m (chanHeap c)).
Proof. intros ch q Hq. exists q, []. by rewrite app_nil_r. Qed.

Lemma grows_close c m ch h : closeChan (chanHeap c) ch = Some h -> grows c (set_chans c m h).
Proof.
  unfold closeChan. destruct (chanHeap c !! ch) as [[b []]|] eqn:E; intros; simplify_eq.
  eapply grows_insert; [done| |done]. cbn. by rewrite app_nil_r.
Qed.

Lemma grows_trySend c m ch e h b : trySend (chanHeap c) ch e = Some (h, b) -> grows c (set_chans c m h).
Proof.
  unfold trySend. destruct (chanHeap c !! ch) as [[q []]|] eqn:E; intros; try done. case_match; simplify_eq; [|apply grows_same].
  by eapply grows_insert.
Qed.

Lemma grows_sendGroups groups msg : forall c err c' err', sendGroups c msg groups err = Some (c', err') -> grows c c'.
Proof.
  induction groups as [|[g l] groups IH]; intros c err c' err' Hs; cbn in Hs; [by simplify_eq|].
  destruct (gateChannels c !! g) as [ch|]; [|by eapply IH]. destruct (trySend (chanHeap c) ch _) as [[h b]|] eqn:E; [|done].
  etransitivity; [by eapply (grows_trySend c (gateChannels c))|]. destruct b; by eapply IH.
Qed.

Lemma grows_sendAll gates msg m : forall c err h' err',
  sendAll (chanHeap c) msg gates err = Some (h', err') -> grows c (set_chans c m h').
Proof.
  induction gates as [|[g ch] gates IH]; intros c err h' err' Hs; cbn in Hs; [simplify_eq; apply grows_same|].
  destruct (trySend (chanHeap c) ch _) as [[h b]|] eqn:E; [|done].
  etransitivity; [by eapply (grows_trySend c (gateChannels c))|]. destruct b; by apply (IH (set_chans c (gateChannels c) h) _ _ _ Hs).
Qed.

Lemma grows_closeRecover m chs : forall c, grows c (set_chans c m (foldr closeRecover (chanHeap c) chs)).
Proof.
  induction chs as [|ch chs IH]; intros c; cbn; [apply grows_same|].
  etransitivity; [apply (IH c)|]. set (h0 := foldr closeRecover (chanHeap c) chs). unfold closeRecover.
  destruct (closeChan h0 ch) as [h|] eqn:E; cbn; [|reflexivity]. by eapply (grows_close (set_chans c m h0)).
Qed.

(** An operation of the node only appends to channels, or closes them *)
Lemma grows_run c o c' : node_op o = true -> gate_run c o = Some c' -> grows c c'.
Proof.
  destruct o as [| |order ids msg|order msg| |]; try done; intros _; cbn.
  - unfold PushMessageToClients. intros (r & Hr & ->)%fmap_Some. repeat case_match; simplify_eq; try done.
    destruct r. by eapply grows_sendGroups.
  - unfold NodeBroadcast. intros (r & Hr & ->)%fmap_Some. repeat case_match; simplify_eq; try done. by eapply grows_sendAll.
  - intros [= <-]. unfold cleanupGateChannels. case_match; [done|]. apply grows_closeRecover.
Qed.

Lemma grows_register c g ch c' r : chanHeap c !! ch = None -> RegisterGateConnection c g ch = Some (c', r) ->
  grows c c' /\ (forall q, r = Ok q -> q = ch /\ chanHeap c' !! ch = Some (mkChan [] false)).
Proof.
  intros Hf. unfold RegisterGateConnection. destruct (isGate c); [by intros [= <- <-]|].
  assert (forall h, grows c (set_chans c (gateChannels c) h) ->
    let c1 := set_chans c (<[g := ch]> (gateChannels c)) (<[ch := mkChan [] false]> h) in
    grows c c1 /\ (forall q, (Ok ch : result string nat) = Ok q -> q = ch /\ chanHeap c1 !! ch = Some (mkChan [] false))) as Hgo.
  { intros h Hg. cbn. split.
    - intros k q Hq. destruct (Hg k q Hq) as (q' & l & Hq' & ?). exists q', l. cbn in *. rewrite lookup_insert_ne; [done|]. congruence.
    - intros q [= <-]. by rewrite lookup_insert_eq. }
  destruct (gateChannels c !! g) as [old|]; [destruct (closeChan (chanHeap c) old) as [h|] eqn:E; [|done]|]; intros [= <- <-]; apply Hgo.
  - by eapply grows_close.
  - apply grows_same.
Qed.

Lemma grows_unregister c g ch c' : UnregisterGateConnection c g ch = Some c' -> grows c c'.
Proof. unfold UnregisterGateConnection. intros Hu. repeat case_match; simplify_eq; try done. by eapply grows_close. Qed.

(** ** The invariant of the streams *)

(** What a handler has sent, of what was taken from its channel *)
Definition sent_ok x (tk : list (envelope (Any := Any))) : Prop :=
  match pc x with
  | Responding => sent x = []
  | Registering => sent x = [Gates.RegisterGateResponse]
  | Returned _ => True
  | p => exists done rest, tk = done ++ rest /\ sent x = Gates.RegisterGateResponse :: (toGateMessage <$> done) /\
      ((forall ch o, p <> Leaving ch o) -> rest = inFlight p)
  end.

Record stream_inv w : Prop := {
  si_chans : chans_ok (chans w);
  si_taken : forall ch, chanHeap (chans w) !! ch = None -> taken w !! ch = None;
  si_chan : forall h x ch, handlers w !! h = Some x -> chanOf (pc x) = Some ch -> is_Some (chanHeap (chans w) !! ch);
  si_inj : forall h h' x x' ch, handlers w !! h = Some x -> handlers w !! h' = Some x' ->
    chanOf (pc x) = Some ch -> chanOf (pc x') = Some ch -> h = h';
  si_sent : forall h x, handlers w !! h = Some x ->
    sent_ok x (default [] (chanOf (pc x) ≫= fun ch => taken w !! ch))
}.

(** A change of the channels alone *)
Lemma stream_inv_chans w c : stream_inv w -> grows (chans w) c -> chans_ok c -> stream_inv (mkWorld c (handlers w) (taken w)).
Proof.
  intros [Hc Ht Hh Hi Hs] Hg Hok. split; cbn; auto.
  - intros ch Hn. apply Ht. destruct (chanHeap (chans w) !! ch) as [q|] eqn:E; [|done]. destruct (Hg ch q E) as (? & ? & ? & _). congruence.
  - intros h x ch Hx Hch. destruct (Hh h x ch Hx Hch) as [q Hq]. destruct (Hg ch q Hq) as (? & ? & -> & _). by eexists.
Qed.

(** A handler moves on, keeping its channel or taking one that nobody has *)
Lemma stream_inv_handler w h x p s : stream_inv w -> handlers w !! h = Some x ->
  (forall ch, chanOf p = Some ch -> is_Some (chanHeap (chans w) !! ch) /\
     (chanOf (pc x) = Some ch \/ forall h' x', handlers w !! h' = Some x' -> chanOf (pc x') <> Some ch)) ->
  sent_ok (mkHandler (gateAddr x) p s) (default [] (chanOf p ≫= fun ch => taken w !! ch)) ->
  stream_inv (mkWorld (chans w) (<[h := mkHandler (gateAddr x) p s]> (handlers w)) (taken w)).
Proof.
  intros [Hc Ht Hh Hi Hs] Hx Hp Hso. split; cbn; auto.
  - intros h' x' ch. rewrite lookup_insert_Some. intros [[<- <-]|[_ Hx']] Hch; [by destruct (Hp ch Hch)|eauto].
  - assert (forall h' x' ch, h <> h' -> handlers w !! h' = Some x' -> chanOf p = Some ch -> chanOf (pc x') = Some ch -> False) as Hno.
    { intros h' x' ch Hne Hx' Hch Hch'. destruct (Hp ch Hch) as [_ [Ho|Hn]]; [|by apply (Hn h' x')]. by apply Hne, (Hi h h' x x' ch). }
    intros h1 h2 x1 x2 ch. rewrite !lookup_insert_Some.
    intros [[<- <-]|[N1 H1]] [[<- <-]|[N2 H2]] C1 C2; cbn in *; [done|by destruct (Hno h2 x2 ch)|by destruct (Hno h1 x1 ch)|eauto].
  - intros h' x'. rewrite lookup_insert_Some. intros [[<- <-]|[_ Hx']]; [done|exact (Hs _ _ Hx')].
Qed.

Lemma stream_inv_goto w h x p : stream_inv w -> handlers w !! h = Some x -> chanOf p = chanOf (pc x) \/ chanOf p = None ->
  sent_ok (mkHandler (gateAddr x) p (sent x)) (default [] (chanOf p ≫= fun ch => taken w !! ch)) -> stream_inv (goto w h x p).
Proof.
  intros Hinv Hx Hp Hs. apply stream_inv_handler; try done. intros ch Hch. destruct Hp as [Hp|Hp]; [|congruence].
  rewrite Hp in Hch. split; [by eapply si_chan|by left].
Qed.

Lemma chans_ok_pop c ch e rest b : chans_ok c -> chanHeap c !! ch = Some (mkChan (e :: rest) b) ->
  chans_ok (set_chans c (gateChannels c) (<[ch := mkChan rest b]> (chanHeap c))).
Proof.
  intros [Ho Hi] Hc. split; cbn; [|done]. intros g k Hk. destruct (Ho g k Hk) as [q Hq].
  destruct (decide (ch = k)) as [<-|Hne]; [|rewrite lookup_insert_ne by done; eauto]. rewrite lookup_insert_eq. simplify_eq. by eexists.
Qed.

(** A handler receives an envelope *)
Lemma stream_inv_receive w h x ch e rest b : stream_inv w -> handlers w !! h = Some x -> pc x = Selecting ch ->
  chanHeap (chans w) !! ch = Some (mkChan (e :: rest) b) ->
  stream_inv (goto (mkWorld (set_chans (chans w) (gateChannels (chans w)) (<[ch := mkChan rest b]> (chanHeap (chans w))))
    (handlers w) (<[ch := default [] (taken w !! ch) ++ [e]]> (taken w))) h x (Sending ch e)).
Proof.
  intros [Hc Ht Hh Hi Hs] Hx Hp Hch. assert (chanOf (pc x) = Some ch) as Hco by (by rewrite Hp). split; cbn.
  - by eapply chans_ok_pop.
  - intros k. destruct (decide (ch = k)) as [<-|]; [by rewrite lookup_insert_eq|rewrite !lookup_insert_ne by done; auto].
  - intros h' x' k. rewrite lookup_insert_Some. destruct (decide (ch = k)) as [<-|]; [rewrite lookup_insert_eq; by eexists|].
    rewrite lookup_insert_ne by done. intros [[<- <-]|[_ Hx']] Hk; [cbn in Hk; congruence|eauto].
  - intros h1 h2 x1 x2 k. rewrite !lookup_insert_Some.
    intros [[<- <-]|[N1 H1]] [[<- <-]|[N2 H2]] C1 C2; cbn in *; simplify_eq; [done|eapply (Hi h h2 x); eauto|eapply (Hi h1 h x1); eauto|eauto].
  - intros h' x'. rewrite lookup_insert_Some. intros [[<- <-]|[Hne Hx']].
    + specialize (Hs h x Hx). unfold sent_ok in *. rewrite Hp in Hs. cbn in *. rewrite lookup_insert_eq. cbn.
      destruct Hs as (dn & rs & Htk & Hsn & Hrs). pose proof (Hrs ltac:(done)) as ->. rewrite Htk, app_nil_r.
      exists dn, [e]. split_and!; [done|done|]. done.
    + specialize (Hs h' x' Hx'). destruct (chanOf (pc x')) as [k|] eqn:Hk; cbn in *; [|done].
      rewrite lookup_insert_ne; [done|]. intros <-. apply Hne. by apply (Hi h h' x x' ch).
Qed.

Lemma stream_inv_call w h addr : stream_inv w -> handlers w !! h = None -> stream_inv (RegisterGate w h addr).
Proof.
  intros [Hc Ht Hh Hi Hs] Hf. unfold RegisterGate. set (p := if bool_decide (addr = "") then Returned ErrNoGateAddr else Responding).
  assert (chanOf (Any := Any) p = None) as Hp by (unfold p; by case_bool_decide). split; cbn; auto.
  - intros h' x' ch. rewrite lookup_insert_Some. intros [[<- <-]|[_ Hx']]; [cbn; congruence|eauto].
  - intros h1 h2 x1 x2 ch. rewrite !lookup_insert_Some. intros [[<- <-]|[N1 H1]] [[<- <-]|[N2 H2]]; cbn; try congruence. eauto.
  - intros h' x'. rewrite lookup_insert_Some. intros [[<- <-]|[_ Hx']]; [|exact (Hs _ _ Hx')]. unfold sent_ok, p. cbn. by case_bool_decide.
Qed.

Lemma stream_inv_step w w' : stream_inv w -> step w w' -> stream_inv w'.
Proof.
  intros Hinv [h addr Hf|h x i w1 Hx Hfresh Hr|o c Ho Hok Hr].
  - by apply stream_inv_call.
  - pose proof (si_sent _ Hinv _ _ Hx) as Hs. unfold sent_ok in Hs. unfold registerGateStep in Hr.
    destruct (pc x) as [| |ch|ch e|ch o|o] eqn:Hp; cbn in Hs; destruct i as [[]|n| | |]; try done.
    + injection Hr as <-. apply stream_inv_handler; try done. cbn. by rewrite Hs.
    + injection Hr as <-. apply stream_inv_goto; auto. by unfold sent_ok.
    + specialize (Hfresh _ eq_refl). destruct (RegisterGateConnection _ _ _) as [[c r]|] eqn:E; [|done].
      destruct (grows_register _ _ _ _ _ Hfresh E) as [Hg Hnew]. pose proof (chans_ok_register (chans w) (gateAddr x) n (si_chans _ Hinv) Hfresh) as (c1 & r1 & E1 & Hok1).
      rewrite E in E1. injection E1 as <- <-. pose proof (stream_inv_chans w c Hinv Hg Hok1) as Hinv1.
      destruct r as [q|e]; injection Hr as <-; [destruct (Hnew q eq_refl) as [-> Hq]|]; apply stream_inv_handler; try done; cbn.
      * intros ch [= <-]. split; [by eexists|]. right. intros h' x' Hx' Hc. destruct (si_chan _ Hinv h' x' n Hx' Hc). congruence.
      * rewrite (si_taken _ Hinv n Hfresh). cbn. exists [], []. by rewrite Hs.
    + destruct (chanHeap (chans w) !! ch) as [[[|e rest] []]|] eqn:E; simplify_eq; [|by eapply stream_inv_receive|by eapply stream_inv_receive].
      destruct Hs as (dn & rs & ? & ? & Hrs). apply stream_inv_goto; auto; [left; by rewrite Hp|]. exists dn, rs. split_and!; [done|done|].
      intros Hne. by destruct (Hne ch ChannelClosed).
    + injection Hr as <-. destruct Hs as (dn & rs & ? & ? & Hrs). apply stream_inv_goto; auto; [left; by rewrite Hp|]. exists dn, rs. split_and!; [done|done|].
      intros Hne. by destruct (Hne ch StreamClosed).
    + injection Hr as <-. destruct Hs as (dn & rs & Htk & Hsn & Hrs). pose proof (Hrs ltac:(done)) as ->.
      apply stream_inv_handler; try done; cbn.
      * intros k [= <-]. split; [eapply (si_chan _ Hinv h x ch Hx); by rewrite Hp|]. left. by rewrite Hp.
      * exists (dn ++ [e]), []. cbn. rewrite app_nil_r, Hsn, fmap_app. cbn. split_and!; [done|done|]. done.
    + injection Hr as <-. destruct Hs as (dn & rs & ? & ? & Hrs). apply stream_inv_goto; auto; [left; by rewrite Hp|]. exists dn, rs. split_and!; [done|done|].
      intros Hne. by destruct (Hne ch ErrSend).
    + destruct (UnregisterGateConnection _ _ _) as [c|] eqn:E; [|done]. injection Hr as <-.
      destruct (chans_ok_unregister (chans w) (gateAddr x) ch (si_chans _ Hinv)) as (c1 & E1 & Hok1). rewrite E in E1. injection E1 as <-.
      apply stream_inv_goto; [|done|by right|by unfold sent_ok]. apply stream_inv_chans; [done| |done]. by eapply grows_unregister.
  - apply stream_inv_chans; [done|by eapply grows_run|]. destruct (chans_ok_run (chans w) o (si_chans _ Hinv) Hok) as (c1 & E1 & ?). congruence.
Qed.

Lemma reachable_stream_inv w : reachable w -> stream_inv w.
Proof.
  intros [g Hr]. revert Hr. apply (rtc_ind_r stream_inv); [|intros; by eapply stream_inv_step].
  split; cbn; try (intros *; by rewrite lookup_empty). split; cbn; intros *; by rewrite lookup_empty.
Qed.

(** What a channel has accepted is never lost or reordered, whatever runs *)
Lemma accepted_step w w' ch : stream_inv w -> step w w' -> is_Some (chanHeap (chans w) !! ch) ->
  is_Some (chanHeap (chans w') !! ch) /\ accepted w ch `prefix_of` accepted w' ch.
Proof.
  assert (forall c hs, grows (chans w) c -> is_Some (chanHeap (chans w) !! ch) ->
    is_Some (chanHeap c !! ch) /\ accepted w ch `prefix_of` accepted (mkWorld c hs (taken w)) ch) as Hgrow.
  { intros c hs Hg [q Hq]. destruct (Hg ch q Hq) as (q' & l & Hq' & Hb & _). split; [by eexists|]. exists l.
    unfold accepted. cbn. rewrite Hq, Hq'. cbn. by rewrite Hb, app_assoc. }
  intros Hinv [h addr Hf|h x i w1 Hx Hfresh Hr|o c Ho Hok Hr] Hch; [by apply Hgrow| |apply Hgrow; [by eapply grows_run|done]].
  unfold registerGateStep in Hr. destruct (pc x), i as [[]|n| | |]; simplify_eq; try (by apply Hgrow).
  - destruct (RegisterGateConnection _ _ _) as [[c [q|e]]|] eqn:E; simplify_eq; apply Hgrow; try done;
      by destruct (grows_register _ _ _ _ _ (Hfresh _ eq_refl) E).
  - destruct (chanHeap (chans w) !! ch0) as [[[|e rest] []]|] eqn:E; simplify_eq; try (by apply Hgrow).
    all: destruct (decide (ch0 = ch)) as [->|Hne]; unfold accepted; cbn;
      [rewrite !lookup_insert_eq, E; cbn; split; [by eexists|]; by rewrite <-app_assoc|rewrite !lookup_insert_ne by done; done].
  - destruct (UnregisterGateConnection _ _ _) as [c|] eqn:E; simplify_eq. apply Hgrow; [|done]. by eapply grows_unregister.
Qed.

Lemma accepted_mono w w' ch : stream_inv w -> rtc step w w' -> is_Some (chanHeap (chans w) !! ch) -> accepted w ch `prefix_of` accepted w' ch.
Proof.
  intros Hinv Hr. revert Hinv. induction Hr as [|w1 w2 w3 Hs _ IH]; [done|]. intros Hinv Hch.
  destruct (accepted_step _ _ _ Hinv Hs Hch) as [Hch2 Hp]. etrans; [exact Hp|]. apply IH; [by eapply stream_inv_step|done].
Qed.

(** Forwarding one envelope *)
Lemma forward_run w h x ch e rest b : handlers w !! h = Some x -> pc x = Selecting ch ->
  chanHeap (chans w) !! ch = Some (mkChan (e :: rest) b) ->
  exists w', runHandler w h [Receive; Send true] = Some w' /\
    handlers w' !! h = Some (mkHandler (gateAddr x) (Selecting ch) (sent x ++ [toGateMessage e])).
Proof.
  intros Hx Hp Hch. cbn [runHandler]. rewrite Hx. cbn [mbind option_bind].
  assert (exists w1, registerGateStep w h x Receive = Some w1 /\ handlers w1 !! h = Some (mkHandler (gateAddr x) (Sending ch e) (sent x)))
    as (w1 & -> & H1) by (eexists; split; [unfold registerGateStep; by rewrite Hp, Hch|apply lookup_insert_eq]).
  cbn [mbind option_bind]. rewrite H1. eexists. split; [done|]. cbn. apply lookup_insert_eq.
Qed.

(** ** Draining a closed channel *)

Fixpoint drain (n : nat) : list input :=
  match n with O => [Receive; Defer] | S n => [Receive; Send true] ++ drain n end.

Lemma drain_run b : forall w h x ch, stream_inv w -> handlers w !! h = Some x -> pc x = Selecting ch ->
  chanHeap (chans w) !! ch = Some (mkChan b true) ->
  exists w', runHandler w h (drain (length b)) = Some w' /\ gateChannels (chans w') = gateChannels (chans w) /\
    handlers w' !! h = Some (mkHandler (gateAddr x) (Returned ChannelClosed) (sent x ++ (toGateMessage <$> b))).
Proof.
  induction b as [|e b IH]; intros w h x ch Hinv Hx Hp Hch; cbn [length drain app runHandler]; rewrite Hx; cbn [mbind option_bind].
  - assert (registerGateStep w h x Receive = Some (goto w h x (Leaving ch ChannelClosed))) as ->
      by (unfold registerGateStep; by rewrite Hp, Hch).
    cbn [mbind option_bind goto handlers]. rewrite lookup_insert_eq. cbn [mbind option_bind registerGateStep pc chans goto gateAddr].
    assert (UnregisterGateConnection (chans w) (gateAddr x) ch = Some (chans w)) as Hu.
    { unfold UnregisterGateConnection. case_match; [done|]. destruct (gateChannels (chans w) !! gateAddr x) as [cur|] eqn:E; [|done].
      rewrite bool_decide_eq_false_2; [done|]. intros ->. destruct (chan_open _ (si_chans _ Hinv) _ _ E). congruence. }
    cbn in Hu. rewrite Hu. cbn. eexists. split; [done|]. cbn. rewrite lookup_insert_eq. cbn. by rewrite app_nil_r.
  - set (w1 := goto (mkWorld (set_chans (chans w) (gateChannels (chans w)) (<[ch := mkChan b true]> (chanHeap (chans w))))
      (handlers w) (<[ch := default [] (taken w !! ch) ++ [e]]> (taken w))) h x (Sending ch e)).
    assert (registerGateStep w h x Receive = Some w1) as -> by (unfold registerGateStep; by rewrite Hp, Hch).
    cbn [mbind option_bind runHandler]. assert (handlers w1 !! h = Some (mkHandler (gateAddr x) (Sending ch e) (sent x))) as -> by apply lookup_insert_eq.
    cbn [mbind option_bind]. pose proof (stream_inv_receive w h x ch e b true Hinv Hx Hp Hch) as Hinv1. fold w1 in Hinv1.
    set (x1 := mkHandler (gateAddr x) (Sending ch e) (sent x)).
    assert (registerGateStep w1 h x1 (Send true) = Some (mkWorld (chans w1)
      (<[h := mkHandler (gateAddr x) (Selecting ch) (sent x ++ [toGateMessage e])]> (handlers w1)) (taken w1))) as -> by done.
    cbn [mbind option_bind]. set (w2 := mkWorld _ _ _).
    assert (step w1 w2) as Hs by (eapply (S_handler w1 h x1 (Send true)); [apply lookup_insert_eq|done|done]).
    destruct (IH w2 h (mkHandler (gateAddr x) (Selecting ch) (sent x ++ [toGateMessage e])) ch) as (w3 & Hr & Hg & Hh);
      [by eapply stream_inv_step|apply lookup_insert_eq|done|apply lookup_insert_eq|].
    exists w3. split; [exact Hr|]. split; [exact Hg|]. rewrite Hh. cbn. by rewrite <-app_assoc.
Qed.

End Invariant.

(** ** The gate's side *)

Section Gate.
Context {Any : Type}.
Implicit Types g : Gates.Gate (Any := Any).

(** A proxy after a push *)
Definition pushed (cp : Gates.ClientProxy (Any := Any)) (m : Any) : Gates.ClientProxy :=
  Gates.mkProxy (Gates.cid cp)
    (if (length (Gates.messageChan cp) <? Gates.chanCap)%nat then Gates.messageChan cp ++ [m] else Gates.messageChan cp) (Gates.closed cp).

Lemma pushClients_spec ids m : forall g, clients_ok g -> NoDup ids ->
  exists g', pushClients g ids (Some m) = Some g' /\ Gates.clients g' = Gates.clients g /\
    forall c p cp, Gates.clients g !! c = Some p -> Gates.proxies g !! p = Some cp ->
      Gates.proxies g' !! p = Some (if bool_decide (c ∈ ids) then pushed cp m else cp).
Proof.
  induction ids as [|i ids IH]; intros g Hok HN; cbn; [by exists g|]. apply NoDup_cons in HN as [Hi HN].
  unfold Gates.GetClient. destruct (Gates.clients g !! i) as [p|] eqn:Ei.
  - destruct (client_open g Hok _ _ Ei) as (cp & Hcp & Hid & Hcl). destruct (push_open g p m cp Hcp Hcl) as [g1 H1]. rewrite H1. cbn.
    pose proof (push_spec _ _ _ _ H1) as (Ec & _ & _ & Hoth & Hp). rewrite Hcp in Hp. cbn in Hp.
    destruct (IH g1) as (g2 & H2 & Hc2 & Hpx); [by eapply clients_ok_push|done|]. exists g2. split; [done|]. split; [congruence|].
    intros c q cq Hc Hq. destruct (decide (c = i)) as [->|Hne].
    + simplify_eq. rewrite (Hpx _ p (pushed cp m)) by (rewrite ?Ec; done). rewrite bool_decide_eq_false_2, bool_decide_eq_true_2; [done|by left|done].
    + assert (q <> p) as Hqp by (intros ->; destruct (client_open g Hok _ _ Hc) as (? & ? & ? & _); congruence).
      rewrite (Hpx c q cq); [|by rewrite Ec|by rewrite Hoth]. f_equal. do 2 case_bool_decide; set_solver.
  - destruct (IH g Hok HN) as (g2 & H2 & Hc2 & Hpx). exists g2. split; [done|]. split; [done|]. intros c q cq Hc Hq.
    rewrite (Hpx c q cq Hc Hq). f_equal. assert (c <> i) by congruence. do 2 case_bool_decide; set_solver.
Qed.

(** [handleGateMessage] is what the goroutine of a registration does with a client message, step by step *)
Lemma pushClients_steps ids msg : forall (w : Gates.world (Any := Any)) r n g',
  Gates.running w !! r = Some (n, Gates.Looking ids msg) -> pushClients (Gates.gate w) ids msg = Some g' ->
  exists w', rtc Gates.step w w' /\ Gates.gate w' = g' /\ Gates.running w' !! r = Some (n, Gates.Receiving) /\
    Gates.panicked w' = Gates.panicked w.
Proof.
  induction ids as [|i ids IH]; intros w r n g' Hr Hp; cbn in Hp.
  { injection Hp as <-. eexists. split; [apply rtc_once; by eapply Gates.W_looked|]. cbn. by rewrite lookup_insert_eq. }
  pose proof (Gates.W_look w r n i ids msg Hr) as Hl.
  destruct (Gates.GetClient (Gates.gate w) i) as [p|] eqn:Ei, msg as [m|]; cbn in *.
  - destruct (Gates.push (Gates.gate w) p m) as [g1|] eqn:E1; [|done]. cbn in Hp.
    set (w1 := Gates.goto w _ r n _) in Hl. assert (Gates.running w1 !! r = Some (n, Gates.Pushing p ids m)) as Hr1 by apply lookup_insert_eq.
    pose proof (Gates.W_push w1 r n p ids m g1 Hr1 E1) as Hps. set (w2 := Gates.goto w1 g1 r n _) in Hps.
    destruct (IH w2 r n g') as (w3 & H3 & ? & ? & ?); [apply lookup_insert_eq|done|]. exists w3. split_and!; try done.
    eapply rtc_l; [exact Hl|]. by eapply rtc_l.
  - set (w1 := Gates.goto w _ r n _) in Hl. destruct (IH w1 r n g') as (w3 & H3 & ? & ? & ?); [apply lookup_insert_eq|done|].
    exists w3. split_and!; try done. by eapply rtc_l.
  - set (w1 := Gates.goto w _ r n _) in Hl. destruct (IH w1 r n g') as (w3 & H3 & ? & ? & ?); [apply lookup_insert_eq|done|].
    exists w3. split_and!; try done. by eapply rtc_l.
  - set (w1 := Gates.goto w _ r n _) in Hl. destruct (IH w1 r n g') as (w3 & H3 & ? & ? & ?); [apply lookup_insert_eq|done|].
    exists w3. split_and!; try done. by eapply rtc_l.
Qed.

End Gate.

(** ** Properties *)

(** C24: a gate's stream carries what the node accepted for it, in order and without loss.  In every
    reachable state, a handler that has registered its channel has sent the registration response first and
    then exactly the envelopes of a prefix of what its channel accepted, in that order; while it has not
    left its loop the rest is the envelope in its hands followed by those still in the channel; and no later
    step, of this or another handler, a push, a broadcast or the cleanup, takes an accepted envelope back. *)
Theorem stream_in_order {Any : Type} (w : world (Any := Any)) (h : nat) (x : handler) (ch : nat) :
  reachable w -> handlers w !! h = Some x -> chanOf (pc x) = Some ch ->
  (exists done rest, accepted w ch = done ++ rest /\ sent x = Gates.RegisterGateResponse :: (toGateMessage <$> done) /\
     ((forall o, pc x <> Leaving ch o) -> rest = inFlight (pc x) ++ default [] (buffered <$> chanHeap (chans w) !! ch))) /\
  (forall w', rtc step w w' -> accepted w ch `prefix_of` accepted w' ch).
Proof.
  intros Hr%reachable_stream_inv Hx Hch. split.
  - pose proof (si_sent _ Hr _ _ Hx) as Hs. rewrite Hch in Hs. unfold sent_ok in Hs. cbn in Hs.
    destruct (pc x) as [| |k|k e|k o|o] eqn:Hp; try done; cbn in Hch; injection Hch as ->;
      destruct Hs as (dn & rs & Htk & Hsn & Hrs); exists dn, (rs ++ default [] (buffered <$> chanHeap (chans w) !! ch));
      unfold accepted; rewrite Htk, <-app_assoc; (split; [done|]); (split; [done|]); intros Hne; f_equal; apply Hrs; try done.
    exfalso. by destruct (Hne o).
  - intros w' Hw. apply accepted_mono; [done|done|]. by eapply si_chan.
Qed.

(** A replaced or cleaned-up stream still delivers what was accepted.  When the channel of a handler has
    been closed, by a new registration of the same gate or by the shutdown, and sending does not fail, the
    handler goes on until the channel is empty, has then sent every envelope the channel ever accepted, and
    returns; its deferred unregistration leaves the registrations of all gates as they are. *)
Theorem closed_stream_drains {Any : Type} (w : world (Any := Any)) (h : nat) (x : handler) (ch : nat) b :
  reachable w -> handlers w !! h = Some x -> pc x = Selecting ch -> chanHeap (chans w) !! ch = Some (mkChan b true) ->
  exists w', runHandler w h (drain (length b)) = Some w' /\ gateChannels (chans w') = gateChannels (chans w) /\
    handlers w' !! h = Some (mkHandler (gateAddr x) (Returned ChannelClosed)
      (Gates.RegisterGateResponse :: (toGateMessage <$> accepted w ch))).
Proof.
  intros Hr%reachable_stream_inv Hx Hp Hch. destruct (drain_run b w h x ch Hr Hx Hp Hch) as (w' & Hw & Hg & Hh).
  exists w'. split; [done|]. split; [done|]. rewrite Hh. do 2 f_equal. pose proof (si_sent _ Hr _ _ Hx) as Hs. unfold sent_ok in Hs.
  rewrite Hp in Hs. cbn in Hs. destruct Hs as (dn & rs & Htk & -> & Hrs). specialize (Hrs ltac:(done)) as ->. rewrite app_nil_r in Htk.
  unfold accepted. rewrite Htk, Hch. cbn. by rewrite fmap_app.
Qed.

(** C10: a push on a node arrives at exactly the clients it names, through the stream and the gate.  Let a
    node have an idle stream to a gate and push a message to clients with well-formed ids, no id twice, some
    of which name that gate.  The push completes; the handler's next two steps hand one message to the
    stream; the gate handles it without a panic; every client of the gate that was named has the message
    appended to its channel, unless the channel is full, and every other client's channel is unchanged. *)
Theorem push_reaches_clients {Any : Type} (w : world (Any := Any)) (h : nat) (x : handler) (ch : nat)
    (addr : string) (gw : Gates.world (Any := Any)) (order : gmap string (list string) -> list (string * list string))
    (gorder : list nat) (ids : list string) (msg : Any) :
  reachable w -> isGate (chans w) = false -> handlers w !! h = Some x -> pc x = Selecting ch ->
  gateChannels (chans w) !! gateAddr x = Some ch -> chanHeap (chans w) !! ch = Some (mkChan [] false) ->
  (forall m, order m ≡ₚ map_to_list m) -> Gates.reachable addr gw -> NoDup ids ->
  (forall i, i ∈ ids -> gateOf i <> None) -> (exists i, i ∈ ids /\ gateOf i = Some (gateAddr x)) ->
  exists c err w' m g', PushMessageToClients (chans w) order ids (Ok msg) = Some (c, err) /\
    runHandler (mkWorld c (handlers w) (taken w)) h [Receive; Send true] = Some w' /\
    handlers w' !! h = Some (mkHandler (gateAddr x) (Selecting ch) (sent x ++ [m])) /\
    handleGateMessage (Gates.gate gw) gorder m = Some g' /\
    forall c p cp, Gates.clients (Gates.gate gw) !! c = Some p -> Gates.proxies (Gates.gate gw) !! p = Some cp ->
      Gates.proxies g' !! p = Some (if bool_decide (c ∈ clientsOf (gateAddr x) ids) then pushed cp msg else cp).
Proof.
  intros Hr%reachable_stream_inv Hng Hx Hp Hg Hch Hord Hgw HN Hv (i & Hi & Hgi).
  destruct (PushMessageToClients_spec (chans w) order ids msg (si_chans _ Hr) Hng Hord) as (c & err & Hpush & _ & Hgood).
  destruct (Hgood Hv) as [Hc _]. specialize (Hc (gateAddr x)). clear Hgood.
  assert (gateChannels c = gateChannels (chans w)) as Hgc.
  { assert (gate_run (chans w) (GPush order ids (Ok msg)) = Some c) as Hrun by (cbn; by rewrite Hpush).
    clear -Hpush Hord Hr. unfold PushMessageToClients in Hpush. repeat case_match; simplify_eq; try done.
    match type of Hpush with sendGroups _ _ (order ?m) _ = _ =>
      destruct (sendGroups_spec (order m) (chans w) msg None (si_chans _ Hr)) as (c1 & e1 & E & _ & Hgc & _);
        [rewrite Hord; apply NoDup_fst_map_to_list|] end. congruence. }
  assert (clientsOf (gateAddr x) ids <> []) as Hne by (intros E; by apply (proj1 (clientsOf_nil _ _) E i)).
  unfold chan_of in Hc. rewrite Hgc, Hg in Hc. cbn in Hc. rewrite Hch in Hc.
  destruct (clientsOf (gateAddr x) ids) as [|j js] eqn:Ecl; [done|]. rewrite <-Ecl in *. clear Ecl j js.
  cbn in Hc. set (l := clientsOf (gateAddr x) ids) in *. set (e := ClientMessageEnvelope l msg) in *.
  assert (NoDup l) as HNl by (apply NoDup_ListNoDup, List.NoDup_filter, NoDup_ListNoDup, HN).
  destruct (pushClients_spec l msg (Gates.gate gw) (reachable_clients _ _ Hgw) HNl) as (g' & Hpc & _ & Hpx).
  destruct (forward_run (mkWorld c (handlers w) (taken w)) h x ch e [] false Hx Hp Hc) as (w' & Hrun & Hh).
  exists c, err, w', (toGateMessage e), g'. by split_and!.
Qed.

(** ** Witnesses *)

Definition w_call : world (Any := string) := RegisterGate (initial false) 0 "g1:1".
Definition w_up : world (Any := string) := default w_call (runHandler w_call 0 [Send true; NewChan 0]).
Definition push_hi : gate_op (Any := string) := GPush map_to_list ["g1:1/a"; "g1:1/b"] (Ok "hi").
Definition w_pushed : world (Any := string) :=
  mkWorld (default (chans w_up) (gate_run (chans w_up) push_hi)) (handlers w_up) (taken w_up).
Definition w_closing : world (Any := string) :=
  mkWorld (default (chans w_pushed) (gate_run (chans w_pushed) GCleanup)) (handlers w_pushed) (taken w_pushed).
Definition h_up : handler (Any := string) := mkHandler "g1:1" (Selecting 0) [Gates.RegisterGateResponse].

Lemma w_up_reachable : reachable w_up.
Proof.
  exists false. eapply rtc_l; [apply (S_call _ 0 "g1:1"); reflexivity|].
  eapply rtc_l; [eapply (S_handler _ 0 _ (Send true)); [reflexivity|done|reflexivity]|].
  eapply rtc_l; [eapply (S_handler _ 0 _ (NewChan 0)); [reflexivity|by intros ch [= <-]|reflexivity]|].
  apply rtc_refl.
Qed.

Lemma w_pushed_reachable : reachable w_pushed.
Proof.
  destruct w_up_reachable as [g Hr]. exists g. eapply rtc_r; [exact Hr|].
  apply (S_node w_up push_hi); [reflexivity|intros m; reflexivity|vm_compute; reflexivity].
Qed.

Lemma w_closing_reachable : reachable w_closing.
Proof.
  destruct w_pushed_reachable as [g Hr]. exists g. eapply rtc_r; [exact Hr|].
  apply (S_node w_pushed GCleanup); [reflexivity|done|vm_compute; reflexivity].
Qed.

Lemma stream_in_order_witness : exists done rest,
  accepted w_pushed 0 = done ++ rest /\ sent h_up = Gates.RegisterGateResponse :: (toGateMessage <$> done).
Proof.
  destruct (stream_in_order w_pushed 0 h_up 0 w_pushed_reachable) as [(dn & rs & H1 & H2 & _) _]; [reflexivity|reflexivity|].
  exists dn, rs. split; [exact H1|exact H2].
Defined.

Lemma closed_stream_drains_witness :
  exists w', runHandler w_closing 0 (drain 1) = Some w' /\ gateChannels (chans w') = ∅.
Proof.
  destruct (closed_stream_drains w_closing 0 h_up 0 [ClientMessageEnvelope ["g1:1/a"; "g1:1/b"] "hi"] w_closing_reachable)
    as (w' & Hr & Hg & _); [reflexivity|reflexivity|vm_compute; reflexivity|].
  exists w'. split; [exact Hr|]. rewrite Hg. vm_compute. reflexivity.
Defined.

Definition gw_one : Gates.world (Any := string) :=
  Gates.on_gate (Gates.initial "g1:1") (fst (Gates.Register (Gates.gate (Gates.initial "g1:1")) "a" 0)).

Lemma gw_one_reachable : Gates.reachable "g1:1" gw_one.
Proof. apply rtc_once, Gates.W_register. reflexivity. Qed.

Lemma push_reaches_clients_witness :
  exists g', Gates.proxies (Any := string) g' !! 0%nat = Some (Gates.mkProxy "g1:1/a" ["hi"] false).
Proof.
  destruct (push_reaches_clients w_up 0 h_up 0 "g1:1" gw_one map_to_list [] ["g1:1/a"; "g1:1/b"] "hi" w_up_reachable)
    as (c & err & w' & m & g' & _ & _ & _ & _ & Hp).
  - reflexivity.
  - reflexivity.
  - reflexivity.
  - vm_compute. reflexivity.
  - vm_compute. reflexivity.
  - intros m. reflexivity.
  - exact gw_one_reachable.
  - apply (bool_decide_unpack _). vm_compute. exact I.
  - intros i Hi. apply list_elem_of_In in Hi. destruct Hi as [<-|[<-|[]]]; discriminate.
  - exists "g1:1/a". split; [by left|reflexivity].
  - exists g'. rewrite (Hp "g1:1/a" 0%nat (Gates.mkProxy "g1:1/a" [] false)); reflexivity.
Defined.
