(* ===== verification/ConsensusState.v ===== *)
(** * The consensus manager's in-memory cluster state (cluster/consensusmanager)

    [Module Shards] is the shard data model and its etcd encoding, [Module Consensus] the manager's
    state, its configuration, the watch-event handlers, the load from etcd and the routing queries.
    Every handler runs under [cm.mu] and is one atomic function.  A function into [option] is
    partial the way Go is: [None] is a nil dereference or a write to a nil map.  [time.Now()] is an
    argument [now] in nanoseconds.  [notifyStateChanged] is visible as the boolean a handler
    returns beside the new state. *)

From S2P Require Import Prelude GoStrings GoFloat ObjectId.
Import Sharding Parser Float64.

Module Shards.

Record ShardInfo : Type := mkShard {
  TargetNode : string;
  CurrentNode : string;
  Flags : list string;
  ModRevision : Z
}.

#[global] Instance ShardInfo_eq_dec : EqDecision ShardInfo.
Proof. solve_decision. Defined.

(** The zero value a Go map lookup returns for a missing key. *)
Definition zeroShard : ShardInfo := mkShard "" "" [] 0.

Abbreviation shards := (gmap Z ShardInfo).

(** [m[id]] *)
Definition shard_at (m : shards) (id : Z) : ShardInfo := default zeroShard (m !! id).

(** [HasFlag] *)
Definition HasFlag (si : ShardInfo) (flag : string) : bool :=
  existsb (fun f => bool_decide (f = flag)) (Flags si).

(** [Clone] copies the flag slice; as a value it is the same record. *)
Definition Clone (si : ShardInfo) : ShardInfo :=
  mkShard (TargetNode si) (CurrentNode si) (Flags si) (ModRevision si).

(** [WithCurrentNode] *)
Definition WithCurrentNode (si : ShardInfo) (node : string) : ShardInfo :=
  let cloned := Clone si in
  mkShard (TargetNode cloned) node (Flags cloned) (ModRevision cloned).

(** [WithTargetNode] *)
Definition WithTargetNode (si : ShardInfo) (node : string) : ShardInfo :=
  let cloned := Clone si in
  mkShard node (CurrentNode cloned) (Flags cloned) (ModRevision cloned).

(** [IsFullyAssignedAndClaimed] *)
Definition IsFullyAssignedAndClaimed (sm : shards) (numShards : Z) : bool :=
  (Z.of_nat (size sm) =? numShards)%Z &&
  forallb (fun kv => negb (bool_decide (TargetNode kv.2 = "") || bool_decide (CurrentNode kv.2 = "")))
          (map_to_list sm).

(** [AllShardsHaveMatchingCurrentAndTarget] *)
Definition AllShardsHaveMatchingCurrentAndTarget (sm : shards) (numShards : Z) : bool :=
  IsFullyAssignedAndClaimed sm numShards &&
  forallb (fun kv => bool_decide (TargetNode kv.2 = CurrentNode kv.2)) (map_to_list sm).

(** ** The etcd encoding of a shard *)

(** The loop of [parseShardInfo] over the comma-separated parts: [n] node parts seen so far. *)
Fixpoint parseParts (parts : list string) (n : nat) (target current : string) (flags : list string)
    : string * string * list string :=
  match parts with
  | [] => (target, current, flags)
  | part :: rest =>
      let trimmed := TrimSpace part in
      if HasPrefix trimmed "f=" then
        let flagValue := TrimPrefix trimmed "f=" in
        parseParts rest n target current
          (if bool_decide (flagValue <> "") then flags ++ [flagValue] else flags)
      else match n with
           | O => parseParts rest 1 trimmed current flags
           | S O => parseParts rest 2 target trimmed flags
           | _ => parseParts rest n target current flags
           end
  end.

(** [parseShardInfo], on the value and the ModRevision of the key-value pair *)
Definition parseShardInfo (value : string) (modRevision : Z) : ShardInfo :=
  let '(targetNode, currentNode, flags) := parseParts (Split value ",") 0 "" "" [] in
  mkShard targetNode currentNode flags modRevision.

(** [formatShardInfo] *)
Fixpoint formatFlags (flags : list string) (result : string) : string :=
  match flags with
  | [] => result
  | flag :: rest =>
      let flag := TrimSpace flag in
      formatFlags rest (if bool_decide (flag <> "") then result +:+ ",f=" +:+ flag else result)
  end.

Definition formatShardInfo (info : ShardInfo) : string :=
  formatFlags (Flags info) (TargetNode info +:+ "," +:+ CurrentNode info).

End Shards.
Import Shards.

Module Consensus.

Record ClusterState : Type := mkState {
  Nodes : gset string;
  Gates : option (gset string);          (* [None] is the nil map of NewConsensusManager *)
  ShardMapping : option shards;          (* [None] is the nil pointer *)
  Leader : string;
  LeaderModRevision : Z;
  Revision : Z;
  LastChange : option Z                  (* [None] is the zero time *)
}.

Record ConsensusManager : Type := mkCM {
  etcdManager : bool;                    (* whether the pointer is set *)
  state : ClusterState;
  minQuorum : Z;
  clusterStateStabilityDuration : Z;
  localNodeAddress : string;
  numShards : Z;
  rebalanceShardsBatchSize : Z;
  imbalanceThreshold : float64;
  stuckShardTimeout : Z;
  stuckShardFirstSeen : gmap Z Z;
  watchStarted : bool;
  listeners : list nat
}.

Definition set_state (cm : ConsensusManager) (st : ClusterState) : ConsensusManager :=
  mkCM (etcdManager cm) st (minQuorum cm) (clusterStateStabilityDuration cm) (localNodeAddress cm)
    (numShards cm) (rebalanceShardsBatchSize cm) (imbalanceThreshold cm) (stuckShardTimeout cm)
    (stuckShardFirstSeen cm) (watchStarted cm) (listeners cm).

Definition set_firstSeen (cm : ConsensusManager) (fs : gmap Z Z) : ConsensusManager :=
  mkCM (etcdManager cm) (state cm) (minQuorum cm) (clusterStateStabilityDuration cm)
    (localNodeAddress cm) (numShards cm) (rebalanceShardsBatchSize cm) (imbalanceThreshold cm)
    (stuckShardTimeout cm) fs (watchStarted cm) (listeners cm).

Definition set_config (cm : ConsensusManager) (quorum batch : Z) (thr : float64) (stuck : Z)
    : ConsensusManager :=
  mkCM (etcdManager cm) (state cm) quorum (clusterStateStabilityDuration cm)
    (localNodeAddress cm) (numShards cm) batch thr stuck (stuckShardFirstSeen cm)
    (watchStarted cm) (listeners cm).

Definition set_listeners (cm : ConsensusManager) (w : bool) (ls : list nat) : ConsensusManager :=
  mkCM (etcdManager cm) (state cm) (minQuorum cm) (clusterStateStabilityDuration cm)
    (localNodeAddress cm) (numShards cm) (rebalanceShardsBatchSize cm) (imbalanceThreshold cm)
    (stuckShardTimeout cm) (stuckShardFirstSeen cm) w ls.

Definition set_Nodes (st : ClusterState) (ns : gset string) (now : Z) : ClusterState :=
  mkState ns (Gates st) (ShardMapping st) (Leader st) (LeaderModRevision st) (Revision st) (Some now).
Definition set_Gates (st : ClusterState) (gs : option (gset string)) (now : Z) : ClusterState :=
  mkState (Nodes st) gs (ShardMapping st) (Leader st) (LeaderModRevision st) (Revision st) (Some now).
Definition set_Shards (st : ClusterState) (sm : shards) : ClusterState :=
  mkState (Nodes st) (Gates st) (Some sm) (Leader st) (LeaderModRevision st) (Revision st) (LastChange st).
Definition set_Leader (st : ClusterState) (l : string) (rev : Z) (lc : option Z) : ClusterState :=
  mkState (Nodes st) (Gates st) (ShardMapping st) l rev (Revision st) lc.

(** ** Cluster-state queries *)

Definition HasNode (cs : ClusterState) (nodeAddr : string) : bool := bool_decide (nodeAddr ∈ Nodes cs).
Definition HasGate (cs : ClusterState) (gateAddr : string) : bool :=
  match Gates cs with Some g => bool_decide (gateAddr ∈ g) | None => false end.

(** [ClusterState.IsStable] *)
Definition IsStable (cs : ClusterState) (duration now : Z) : bool :=
  match LastChange cs with
  | None => false
  | Some t => if bool_decide (size (Nodes cs) = 0%nat) then false else (duration <=? now - t)%Z
  end.

(** [CloneForTesting] *)
Definition CloneForTesting (cs : ClusterState) : ClusterState :=
  mkState (Nodes cs) None (Some (default ∅ (ShardMapping cs))) "" 0 (Revision cs) (LastChange cs).

(** ** Construction and configuration *)

Definition defaultClusterStateStabilityDuration : Z := 10 * 10 ^ 9.
Definition defaultStuckShardTimeout : Z := 60 * 10 ^ 9.

(** [calculateDefaultRebalanceShardsBatchSize] *)
Definition calculateDefaultRebalanceShardsBatchSize (numShards : Z) : Z :=
  Z.max 1 (Z.quot numShards 128).

(** [NewConsensusManager] *)
Definition NewConsensusManager (etcdMgr : bool) (duration : Z) (local : string) (nShards : Z)
    : ConsensusManager :=
  let duration := if (duration <=? 0)%Z then defaultClusterStateStabilityDuration else duration in
  let nShards := if (nShards <=? 0)%Z then NumShards else nShards in
  mkCM etcdMgr (mkState ∅ None (Some ∅) "" 0 0 None) 0 duration local nShards
    (int32 (calculateDefaultRebalanceShardsBatchSize nShards)) f0_2 defaultStuckShardTimeout ∅ false [].

Definition AddListener (cm : ConsensusManager) (l : nat) : ConsensusManager :=
  set_listeners cm (watchStarted cm) (listeners cm ++ [l]).

Fixpoint remove_first (l : nat) (ls : list nat) : list nat :=
  match ls with
  | [] => []
  | x :: rest => if bool_decide (x = l) then rest else x :: remove_first l rest
  end.

(** [RemoveListener] *)
Definition RemoveListener (cm : ConsensusManager) (l : nat) : ConsensusManager :=
  set_listeners cm (watchStarted cm) (remove_first l (listeners cm)).

(** [SetMinQuorum] *)
Definition SetMinQuorum (cm : ConsensusManager) (q : Z) : ConsensusManager :=
  set_config cm q (rebalanceShardsBatchSize cm) (imbalanceThreshold cm) (stuckShardTimeout cm).

(** [SetRebalanceShardsBatchSize] *)
Definition SetRebalanceShardsBatchSize (cm : ConsensusManager) (batchSize : Z) : ConsensusManager :=
  let batchSize := if (batchSize <=? 0)%Z
                   then calculateDefaultRebalanceShardsBatchSize (numShards cm) else batchSize in
  set_config cm (minQuorum cm) (int32 batchSize) (imbalanceThreshold cm) (stuckShardTimeout cm).

(** [SetImbalanceThreshold] *)
Definition SetImbalanceThreshold (cm : ConsensusManager) (threshold : float64) : ConsensusManager :=
  let threshold := if fleb threshold f0 then f0_2 else threshold in
  set_config cm (minQuorum cm) (rebalanceShardsBatchSize cm) threshold (stuckShardTimeout cm).

(** [SetStuckShardTimeout] *)
Definition SetStuckShardTimeout (cm : ConsensusManager) (d : Z) : ConsensusManager :=
  let d := if (d <=? 0)%Z then defaultStuckShardTimeout else d in
  set_config cm (minQuorum cm) (rebalanceShardsBatchSize cm) (imbalanceThreshold cm) d.

(** [getEffectiveMinQuorum] *)
Definition getEffectiveMinQuorum (cm : ConsensusManager) : Z :=
  if (minQuorum cm <=? 0)%Z then 1 else minQuorum cm.

(** [IsReady] *)
Definition IsReady (cm : ConsensusManager) : bool :=
  if negb (etcdManager cm) then false
  else if (Revision (state cm) =? 0)%Z then false
  else if bool_decide (size (Nodes (state cm)) = 0%nat) then false
  else if (Z.of_nat (size (Nodes (state cm))) <? getEffectiveMinQuorum cm)%Z then false
  else match ShardMapping (state cm) with
       | None => false
       | Some sm => IsFullyAssignedAndClaimed sm (numShards cm)
       end.

(** [IsStateStable] *)
Definition IsStateStable (cm : ConsensusManager) (now : Z) : bool :=
  let isNode := HasNode (state cm) (localNodeAddress cm) in
  let isGate := HasGate (state cm) (localNodeAddress cm) in
  if negb isNode && negb isGate then false
  else if negb (IsStable (state cm) (clusterStateStabilityDuration cm) now) then false
  else if isNode then negb (Z.of_nat (size (Nodes (state cm))) <? getEffectiveMinQuorum cm)%Z
  else true.

(** ** Watch events *)

Inductive EventType : Type := EventTypePut | EventTypeDelete.

#[global] Instance EventType_eq_dec : EqDecision EventType.
Proof. solve_decision. Defined.

Record KeyValue : Type := mkKV { Key : string; Value : string; KvModRevision : Z }.
Record Event : Type := mkEvent { EvType : EventType; Kv : KeyValue }.

(** A handler's outcome: the new manager and whether listeners are notified. *)
Abbreviation outcome := (option (ConsensusManager * bool)).

(** [handleNodeEvent]; [rest] is the key after the nodes prefix *)
Definition handleNodeEvent (cm : ConsensusManager) (ev : Event) (rest : string) (now : Z) : outcome :=
  match EvType ev with
  | EventTypePut =>
      Some (set_state cm (set_Nodes (state cm) ({[Value (Kv ev)]} ∪ Nodes (state cm)) now), true)
  | EventTypeDelete =>
      Some (set_state cm (set_Nodes (state cm) (Nodes (state cm) ∖ {[rest]}) now), true)
  end.

(** [handleGateEvent]: writing to the nil map panics, deleting from it does not. *)
Definition handleGateEvent (cm : ConsensusManager) (ev : Event) (rest : string) (now : Z) : outcome :=
  match EvType ev with
  | EventTypePut =>
      g ← Gates (state cm);
      Some (set_state cm (set_Gates (state cm) (Some ({[Value (Kv ev)]} ∪ g)) now), true)
  | EventTypeDelete =>
      Some (set_state cm (set_Gates (state cm) ((fun g => g ∖ {[rest]}) <$> Gates (state cm)) now), true)
  end.

(** [handleShardEvent] *)
Definition handleShardEvent (cm : ConsensusManager) (ev : Event) (rest : string) : outcome :=
  match Atoi rest with
  | None => Some (cm, false)
  | Some shardID =>
      if ((shardID <? 0) || (numShards cm <=? shardID))%Z then Some (cm, false)
      else
        sm ← ShardMapping (state cm);
        match EvType ev with
        | EventTypePut =>
            let newShardInfo := parseShardInfo (Value (Kv ev)) (KvModRevision (Kv ev)) in
            if (ModRevision newShardInfo <=? ModRevision (shard_at sm shardID))%Z
            then Some (cm, false)
            else Some (set_state cm (set_Shards (state cm) (<[shardID := newShardInfo]> sm)), true)
        | EventTypeDelete =>
            if (KvModRevision (Kv ev) <=? ModRevision (shard_at sm shardID))%Z
            then Some (cm, false)
            else Some (set_state cm (set_Shards (state cm) (delete shardID sm)), true)
        end
  end.

(** [handleLeaderEvent] *)
Definition handleLeaderEvent (cm : ConsensusManager) (ev : Event) (now : Z) : outcome :=
  if (KvModRevision (Kv ev) <=? LeaderModRevision (state cm))%Z then Some (cm, false)
  else
    let st := state cm in
    match EvType ev with
    | EventTypeDelete => Some (set_state cm (set_Leader st "" 0 (Some now)), true)
    | EventTypePut =>
        Some (set_state cm (set_Leader st (Value (Kv ev)) (KvModRevision (Kv ev)) (Some now)), true)
    end.

(** [key[len(p):]] when the key is strictly longer than the prefix [p] and starts with it *)
Definition key_under (p key : string) : option string :=
  match TrimPrefix_opt p key with
  | Some rest => if bool_decide (rest = "") then None else Some rest
  | None => None
  end.

(** The dispatch of [watchPrefixOnce] on one event *)
Definition handleWatchEvent (prefix : string) (cm : ConsensusManager) (ev : Event) (now : Z) : outcome :=
  let key := Key (Kv ev) in
  if bool_decide (key = prefix +:+ "/leader") then handleLeaderEvent cm ev now
  else match key_under (prefix +:+ "/nodes/") key with
  | Some rest => handleNodeEvent cm ev rest now
  | None =>
      match key_under (prefix +:+ "/gates/") key with
      | Some rest => handleGateEvent cm ev rest now
      | None =>
          match key_under (prefix +:+ "/shard/") key with
          | Some rest => handleShardEvent cm ev rest
          | None => Some (cm, false)
          end
      end
  end.

(** The events of one watch response, in order *)
Fixpoint handleWatchEvents (prefix : string) (cm : ConsensusManager) (evs : list Event) (now : Z)
    : option ConsensusManager :=
  match evs with
  | [] => Some cm
  | ev :: rest =>
      '(cm', _) ← handleWatchEvent prefix cm ev now;
      handleWatchEvents prefix cm' rest now
  end.

(** ** Loading the state from etcd *)

(** One iteration of the loop of [loadClusterStateFromEtcd] *)
Definition loadKv (prefix : string) (nShards : Z) (st : ClusterState) (kv : KeyValue) : ClusterState :=
  if bool_decide (Key kv = prefix +:+ "/leader") then
    set_Leader st (Value kv) (KvModRevision kv) (LastChange st)
  else match TrimPrefix_opt (prefix +:+ "/nodes/") (Key kv) with
  | Some _ => mkState ({[Value kv]} ∪ Nodes st) (Gates st) (ShardMapping st) (Leader st)
                (LeaderModRevision st) (Revision st) (LastChange st)
  | None =>
      match TrimPrefix_opt (prefix +:+ "/gates/") (Key kv) with
      | Some _ => mkState (Nodes st) (Some ({[Value kv]} ∪ default ∅ (Gates st))) (ShardMapping st)
                    (Leader st) (LeaderModRevision st) (Revision st) (LastChange st)
      | None =>
          match TrimPrefix_opt (prefix +:+ "/shard/") (Key kv) with
          | Some rest =>
              match Atoi rest with
              | None => st
              | Some shardID =>
                  if ((shardID <? 0) || (nShards <=? shardID))%Z then st
                  else set_Shards st (<[shardID := parseShardInfo (Value kv) (KvModRevision kv)]>
                         (default ∅ (ShardMapping st)))
              end
          | None => st
          end
      end
  end.

(** [loadClusterStateFromEtcd] on the response of the prefix read *)
Definition loadClusterStateFromEtcd (prefix : string) (nShards : Z) (kvs : list KeyValue)
    (headerRevision now : Z) : ClusterState :=
  fold_left (loadKv prefix nShards) kvs
    (mkState ∅ (Some ∅) (Some ∅) "" 0 headerRevision (Some now)).

Inductive cm_error : Type :=
| ErrEtcdManagerNotSet
| ErrEtcdClientNotConnected
| ErrLoadFailed (msg : string)
| ErrObjectID (e : parse_error)
| ErrInvalidShard (s : Z)
| ErrMappingNotAvailable
| ErrNoNodeAssigned (s : Z)
| ErrNotClaimed (s : Z)
| ErrCurrentNotActive (node : string) (s : Z)
| ErrInMigration (s : Z) (from to : string)
| ErrNotStable
| ErrLocalNodeEmpty
| ErrSelfNotInCluster (node : string)
| ErrTxn (msg : string)
| ErrModRevisionMismatch (s expected : Z).

#[global] Instance cm_error_eq_dec : EqDecision cm_error.
Proof. solve_decision. Defined.

(** [Initialize]: [resp] is the result of the prefix read, [None] when the client is nil. *)
Definition Initialize (prefix : string) (cm : ConsensusManager)
    (resp : option (result string (list KeyValue * Z))) (now : Z) : ConsensusManager * result cm_error unit :=
  if negb (etcdManager cm) then (cm, Err ErrEtcdManagerNotSet)
  else match resp with
  | None => (cm, Err ErrEtcdClientNotConnected)
  | Some (Err e) => (cm, Err (ErrLoadFailed e))
  | Some (Ok (kvs, rev)) =>
      (set_state cm (loadClusterStateFromEtcd prefix (numShards cm) kvs rev now), Ok tt)
  end.

(** ** Routing *)

Definition GetLeaderNode (cm : ConsensusManager) : string := Leader (state cm).

(** [GetShardMapping] *)
Definition GetShardMapping (cm : ConsensusManager) : shards := default ∅ (ShardMapping (state cm)).

(** [GetNodeForShard] *)
Definition GetNodeForShard (cm : ConsensusManager) (shardID : Z) : result cm_error string :=
  if ((shardID <? 0) || (numShards cm <=? shardID))%Z then Err (ErrInvalidShard shardID)
  else match ShardMapping (state cm) with
  | None => Err ErrMappingNotAvailable
  | Some sm =>
      match sm !! shardID with
      | None => Err (ErrNoNodeAssigned shardID)
      | Some shardInfo =>
          if bool_decide (CurrentNode shardInfo = "") then Err (ErrNotClaimed shardID)
          else if negb (HasNode (state cm) (CurrentNode shardInfo))
          then Err (ErrCurrentNotActive (CurrentNode shardInfo) shardID)
          else Ok (CurrentNode shardInfo)
      end
  end.

(** [GetCurrentNodeForObject] *)
Definition GetCurrentNodeForObject (cm : ConsensusManager) (objectID : string)
    : result cm_error string :=
  match ValidateObjectID objectID (numShards cm) with
  | Err e => Err (ErrObjectID e)
  | Ok parsed =>
      if IsFixedNodeFormat parsed then Ok (NodeAddress parsed)
      else
        let shardID := GetShardID objectID (numShards cm) in
        match ShardMapping (state cm) with
        | None => Err ErrMappingNotAvailable
        | Some sm =>
            match sm !! shardID with
            | None => Err (ErrNoNodeAssigned shardID)
            | Some shardInfo =>
                if bool_decide (CurrentNode shardInfo = "") then Err (ErrNotClaimed shardID)
                else if negb (HasNode (state cm) (CurrentNode shardInfo))
                then Err (ErrCurrentNotActive (CurrentNode shardInfo) shardID)
                else if bool_decide (TargetNode shardInfo <> "") &&
                        bool_decide (TargetNode shardInfo <> CurrentNode shardInfo)
                then Err (ErrInMigration shardID (CurrentNode shardInfo) (TargetNode shardInfo))
                else Ok (CurrentNode shardInfo)
            end
        end
  end.

(** The test of [GetObjectsToEvict] on one object *)
Definition shouldEvict (cm : ConsensusManager) (sm : shards) (localAddr objectID : string) : bool :=
  if Contains objectID "/" then false
  else match sm !! GetShardID objectID (numShards cm) with
  | None => true
  | Some shardInfo =>
      bool_decide (CurrentNode shardInfo <> localAddr) || bool_decide (TargetNode shardInfo <> localAddr)
  end.

(** [GetObjectsToEvict] *)
Definition GetObjectsToEvict (cm : ConsensusManager) (localAddr : string) (objectIDs : list string)
    : list string :=
  match ShardMapping (state cm) with
  | None => []
  | Some sm =>
      if negb (HasNode (state cm) localAddr) then []
      else List.filter (shouldEvict cm sm localAddr) objectIDs
  end.

End Consensus.
Import Consensus.

(** ** Lemmas: the shard encoding *)

Lemma Split_nonnil s c : Split s c <> [].
Proof. destruct s as [|d s]; simpl; [done|]. case_bool_decide; [done|]. by destruct (Split s c). Qed.

Lemma Split_app_sep a b c : Split (a +:+ String c b) c = Split a c ++ Split b c.
Proof.
  induction a as [|d a IH]; simpl; [by rewrite bool_decide_true|].
  case_bool_decide; [by rewrite IH|]. rewrite IH.
  pose proof (Split_nonnil a c). by destruct (Split a c).
Qed.

(** A byte string without [d] that is a prefix of [a d b] is a prefix of [a]. *)
Lemma prefix_before_sep q a d b r :
  Contains q d = false -> TrimPrefix_opt q (a +:+ String d b) = Some r ->
  is_Some (TrimPrefix_opt q a).
Proof.
  revert a. induction q as [|c q IH]; intros a; [by destruct a; eauto|].
  rewrite Contains_cons. intros [Hc Hq]%orb_false_elim. breflect.
  destruct a as [|e a]; simpl.
  - by rewrite bool_decide_false.
  - case_bool_decide; [|done]. by apply IH.
Qed.

Lemma strip_one_None seqs s : strip_one seqs s = None <-> Forall (fun q => TrimPrefix_opt q s = None) seqs.
Proof.
  induction seqs as [|q seqs IH]; simpl; [split; [constructor|done]|].
  rewrite Forall_cons. destruct (TrimPrefix_opt q s); [naive_solver|]. rewrite IH. naive_solver.
Qed.

Lemma string_rev_app a b : string_rev (a +:+ b) = string_rev b +:+ string_rev a.
Proof.
  unfold string_rev.
  assert (forall x y, String.list_ascii_of_string (x +:+ y) =
    String.list_ascii_of_string x ++ String.list_ascii_of_string y) as HA.
  { induction x; intros; simpl; congruence. }
  assert (forall l k, String.string_of_list_ascii (l ++ k) =
    String.string_of_list_ascii l +:+ String.string_of_list_ascii k) as HS.
  { induction l; intros; simpl; congruence. }
  by rewrite HA, rev_app_distr, HS.
Qed.

(** Prefixing a trimmed non-empty flag with ["f="] keeps it trimmed. *)
Lemma trimmed_flag f : trimmed f = true -> trimmed ("f=" +:+ f) = true.
Proof.
  unfold trimmed. intros. breflect. apply andb_true_iff. split; apply bool_decide_eq_true; [done|].
  rewrite string_rev_app. change (string_rev "f=") with "=f".
  match goal with H : strip_one (string_rev <$> _) _ = None |- _ => rename H into Hr end.
  rewrite strip_one_None in *. rewrite Forall_forall in Hr |- *. intros q Hq. specialize (Hr q Hq).
  destruct (TrimPrefix_opt q (string_rev f +:+ "=f")) eqn:E; [|done].
  apply (prefix_before_sep q _ "=" "f") in E; [rewrite Hr in E; by destruct E|].
  revert Hq. assert (Forall (fun q => Contains q "=" = false) (string_rev <$> space_seqs)) as HF
    by (repeat constructor).
  rewrite Forall_forall in HF. apply HF.
Qed.

Definition node_ok (s : string) : bool :=
  negb (Contains s ",") && trimmed s && negb (HasPrefix s "f=").
Definition flag_ok (f : string) : bool :=
  bool_decide (f <> "") && negb (Contains f ",") && trimmed f.
Definition info_ok (si : ShardInfo) : bool :=
  node_ok (TargetNode si) && node_ok (CurrentNode si) && forallb flag_ok (Flags si).

Lemma Split_formatFlags fl r :
  forallb flag_ok fl = true ->
  Split (formatFlags fl r) "," = Split r "," ++ ((fun f => "f=" +:+ f) <$> fl).
Proof.
  revert r. induction fl as [|f fl IH]; simpl; intros r; [by rewrite app_nil_r|].
  intros [Hf Hfl]%andb_prop. unfold flag_ok in Hf. breflect.
  rewrite TrimSpace_trimmed, bool_decide_true by done. rewrite IH by done.
  change (",f=" +:+ f) with (String "," ("f=" +:+ f)). rewrite Split_app_sep.
  rewrite (Split_no_sep ("f=" +:+ f)); [by rewrite <-app_assoc|].
  by rewrite Contains_app.
Qed.

Lemma parseParts_flags fl t c acc :
  forallb flag_ok fl = true ->
  parseParts ((fun f => "f=" +:+ f) <$> fl) 2 t c acc = (t, c, acc ++ fl).
Proof.
  revert acc. induction fl as [|f fl IH]; cbn [fmap list_fmap forallb parseParts]; intros acc;
    [by rewrite app_nil_r|].
  intros [Hf Hfl]%andb_prop. unfold flag_ok in Hf. breflect.
  rewrite TrimSpace_trimmed by (by apply trimmed_flag).
  rewrite HasPrefix_app, TrimPrefix_app, bool_decide_true by done.
  rewrite IH by done. by rewrite <-app_assoc.
Qed.

Lemma parse_format_shard si rev :
  info_ok si = true ->
  parseShardInfo (formatShardInfo si) rev =
    mkShard (TargetNode si) (CurrentNode si) (Flags si) rev.
Proof.
  unfold info_ok, node_ok. intros H. apply andb_prop in H as [H Hfl]. breflect.
  unfold parseShardInfo, formatShardInfo. rewrite Split_formatFlags by done.
  change (TargetNode si +:+ "," +:+ CurrentNode si) with (TargetNode si +:+ String "," (CurrentNode si)).
  rewrite Split_app_sep, !Split_no_sep by done. cbn [app parseParts].
  rewrite (TrimSpace_trimmed (TargetNode si)), (TrimSpace_trimmed (CurrentNode si)) by assumption.
  repeat match goal with H : HasPrefix _ "f=" = false |- _ => rewrite H; clear H end.
  by rewrite parseParts_flags.
Qed.

(** ** Lemmas: well-formed states *)

(** The pointers and maps every loaded state has. *)
Definition wf_state (st : ClusterState) : Prop := is_Some (Gates st) /\ is_Some (ShardMapping st).

Lemma loadKv_wf prefix n st kv : wf_state st -> wf_state (loadKv prefix n st kv).
Proof. unfold wf_state, loadKv. intros [Hg Hs]. repeat case_match; simpl; eauto. Qed.

Lemma load_wf prefix n kvs rev now : wf_state (loadClusterStateFromEtcd prefix n kvs rev now).
Proof.
  unfold loadClusterStateFromEtcd.
  assert (wf_state (mkState ∅ (Some ∅) (Some ∅) "" 0 rev (Some now))) as H by (split; eauto).
  revert H. generalize (mkState ∅ (Some ∅) (Some ∅) "" 0 rev (Some now)).
  induction kvs as [|kv kvs IH]; simpl; intros st Hst; [done|]. by apply IH, loadKv_wf.
Qed.

Lemma handleWatchEvent_wf prefix cm ev now :
  wf_state (state cm) -> exists cm' b, handleWatchEvent prefix cm ev now = Some (cm', b) /\ wf_state (state cm').
Proof.
  intros [[g Hg] [sm Hs]].
  unfold handleWatchEvent, handleLeaderEvent, handleNodeEvent, handleGateEvent, handleShardEvent, wf_state.
  rewrite Hg, Hs. simpl. repeat case_match; simpl; eexists _, _; (split; [done|]); simpl;
    rewrite ?Hg, ?Hs; eauto.
Qed.

Lemma handleWatchEvents_wf prefix cm evs now :
  wf_state (state cm) -> exists cm', handleWatchEvents prefix cm evs now = Some cm' /\ wf_state (state cm').
Proof.
  revert cm. induction evs as [|ev evs IH]; simpl; intros cm Hwf; [eauto|].
  destruct (handleWatchEvent_wf prefix cm ev now Hwf) as (cm' & b & -> & Hwf'). simpl. by apply IH.
Qed.

(** ** Lemmas: the shard events of a watch *)

(** A put event on the key of a shard within range. *)
Definition is_shard_put (prefix : string) (nShards : Z) (ev : Event) : bool :=
  bool_decide (EvType ev = EventTypePut) &&
  negb (bool_decide (Key (Kv ev) = prefix +:+ "/leader")) &&
  match key_under (prefix +:+ "/nodes/") (Key (Kv ev)), key_under (prefix +:+ "/gates/") (Key (Kv ev)),
        key_under (prefix +:+ "/shard/") (Key (Kv ev)) with
  | None, None, Some rest =>
      match Atoi rest with Some s => ((0 <=? s) && (s <? nShards))%Z | None => false end
  | _, _, _ => false
  end.

(** The shard a key names. *)
Definition shard_of (prefix key : string) : Z :=
  default 0%Z (rest ← key_under (prefix +:+ "/shard/") key; Atoi rest).

(** What a put event does to the mapping: the newer revision wins. *)
Definition put_shard (sm : shards) (s : Z) (info : ShardInfo) : shards :=
  if (ModRevision info <=? ModRevision (shard_at sm s))%Z then sm else <[s := info]> sm.

Definition ev_info (ev : Event) : ShardInfo := parseShardInfo (Value (Kv ev)) (KvModRevision (Kv ev)).

Lemma ModRevision_parse v r : ModRevision (parseShardInfo v r) = r.
Proof. unfold parseShardInfo. by destruct (parseParts _ _ _ _ _) as [[??]?]. Qed.

Lemma handle_shard_put prefix cm sm ev now :
  is_shard_put prefix (numShards cm) ev = true -> ShardMapping (state cm) = Some sm ->
  exists b, handleWatchEvent prefix cm ev now =
    Some (set_state cm (set_Shards (state cm) (put_shard sm (shard_of prefix (Key (Kv ev))) (ev_info ev))), b).
Proof.
  unfold is_shard_put, handleWatchEvent, shard_of, put_shard, ev_info. intros H Hsm. breflect.
  rewrite bool_decide_false by done.
  destruct (key_under (prefix +:+ "/nodes/") _); [done|].
  destruct (key_under (prefix +:+ "/gates/") _); [done|].
  destruct (key_under (prefix +:+ "/shard/") _) as [rest|]; [|done]. simpl.
  unfold handleShardEvent. destruct (Atoi rest) as [s|]; [|done]. breflect.
  rewrite (proj2 (orb_false_iff _ _)) by (split; [apply Z.ltb_ge|apply Z.leb_gt]; lia).
  rewrite Hsm. simpl. match goal with H : EvType ev = _ |- _ => rewrite H end.
  case_match; eexists; [|done].
  destruct cm, state0; simpl in *; subst; done.
Qed.

Lemma shard_at_insert sm s s' info :
  shard_at (<[s:=info]> sm) s' = if decide (s = s') then info else shard_at sm s'.
Proof. unfold shard_at. rewrite lookup_insert. by case_decide. Qed.

Lemma shard_at_put sm s s' info :
  shard_at (put_shard sm s info) s' =
    if decide (s = s') then
      if (ModRevision info <=? ModRevision (shard_at sm s))%Z then shard_at sm s else info
    else shard_at sm s'.
Proof.
  unfold put_shard. destruct (_ <=? _)%Z; [by case_decide; subst|]. apply shard_at_insert.
Qed.

(** Two puts commute unless they carry the same revision for the same shard. *)
Lemma put_shard_comm sm s1 i1 s2 i2 :
  (s1 = s2 -> ModRevision i1 = ModRevision i2 -> i1 = i2) ->
  put_shard (put_shard sm s1 i1) s2 i2 = put_shard (put_shard sm s2 i2) s1 i1.
Proof.
  intros Hd. unfold put_shard at 1 3. rewrite !shard_at_put.
  destruct (decide (s1 = s2)) as [<-|Hne].
  - rewrite !decide_True by done. unfold put_shard.
    destruct (ModRevision i1 <=? ModRevision (shard_at sm s1))%Z eqn:E1;
    destruct (ModRevision i2 <=? ModRevision (shard_at sm s1))%Z eqn:E2;
      rewrite ?E1, ?E2; breflect; try done; try (case_match; breflect; [lia|done]).
    + rewrite (proj2 (Z.leb_le _ _)) by lia. done.
    + rewrite (proj2 (Z.leb_le _ _)) by lia. done.
    + destruct (ModRevision i2 <=? ModRevision i1)%Z eqn:E3;
      destruct (ModRevision i1 <=? ModRevision i2)%Z eqn:E4; breflect; try lia.
      * rewrite Hd by (done || lia). done.
      * by rewrite insert_insert_eq.
      * by rewrite insert_insert_eq.
  - rewrite (decide_False (P := s2 = s1)) by congruence. unfold put_shard.
    repeat case_match; try done. by rewrite insert_insert_ne.
Qed.

Lemma handle_puts_mapping prefix now evs cm sm :
  Forall (fun ev => is_shard_put prefix (numShards cm) ev = true) evs ->
  ShardMapping (state cm) = Some sm ->
  exists cm', handleWatchEvents prefix cm evs now = Some cm' /\
    cm' = set_state cm (set_Shards (state cm)
      (fold_left (fun sm ev => put_shard sm (shard_of prefix (Key (Kv ev))) (ev_info ev)) evs sm)).
Proof.
  revert cm sm. induction evs as [|ev evs IH]; simpl; intros cm sm HF Hsm.
  - eexists. split; [done|]. destruct cm, state0; simpl in *; subst; done.
  - apply Forall_cons in HF as [Hev HF].
    destruct (handle_shard_put prefix cm sm ev now Hev Hsm) as [b ->]. simpl.
    edestruct (IH (set_state cm (set_Shards (state cm)
      (put_shard sm (shard_of prefix (Key (Kv ev))) (ev_info ev))))) as (cm' & Hcm' & Heq); [done|done|].
    exists cm'. split; [done|]. rewrite Heq. by destruct cm, state0.
Qed.

Lemma fold_put_perm prefix evs evs' sm :
  evs ≡ₚ evs' ->
  (forall e1 e2, e1 ∈ evs -> e2 ∈ evs -> shard_of prefix (Key (Kv e1)) = shard_of prefix (Key (Kv e2)) ->
     KvModRevision (Kv e1) = KvModRevision (Kv e2) -> e1 = e2) ->
  fold_left (fun sm ev => put_shard sm (shard_of prefix (Key (Kv ev))) (ev_info ev)) evs sm =
  fold_left (fun sm ev => put_shard sm (shard_of prefix (Key (Kv ev))) (ev_info ev)) evs' sm.
Proof.
  intros HP. revert sm. induction HP as [|x l l' HP IH|x y l|l l' l'' HP1 IH1 HP2 IH2]; simpl; intros sm Hd.
  - done.
  - apply IH. intros. apply Hd; by try constructor.
  - f_equal. apply put_shard_comm. intros Hs Hr. f_equal. symmetry.
    apply Hd; [set_solver|set_solver|congruence|].
    unfold ev_info in Hr. rewrite !ModRevision_parse in Hr. congruence.
  - rewrite IH1 by done. apply IH2. intros e1 e2 H1 H2. apply Hd; by rewrite HP1.
Qed.

(** ** Lemmas: reload and replay *)

(** The put event a stored key-value pair stands for. *)
Definition put_event (kv : KeyValue) : Event := mkEvent EventTypePut kv.

(** A key is the bare prefix of a section of the key space, which [loadClusterStateFromEtcd] would
    read as an entry and the watch ignores. *)
Definition bare_prefix (prefix key : string) : bool :=
  bool_decide (key = prefix +:+ "/nodes/") || bool_decide (key = prefix +:+ "/gates/") ||
  bool_decide (key = prefix +:+ "/shard/").

(** The part of the state that is determined by the key space. *)
Definition view (st : ClusterState) : gset string * option (gset string) * option shards * string * Z :=
  (Nodes st, Gates st, ShardMapping st, Leader st, LeaderModRevision st).

Lemma TrimPrefix_opt_nil p k : TrimPrefix_opt p k = Some "" -> k = p.
Proof.
  revert k. induction p as [|c p IH]; intros [|d k]; simpl; try done.
  case_bool_decide; [|done]. intros ->%IH. congruence.
Qed.

Lemma key_under_trim p key : key <> p -> key_under p key = TrimPrefix_opt p key.
Proof.
  intros Hne. unfold key_under. destruct (TrimPrefix_opt p key) as [r|] eqn:E; [|done].
  case_bool_decide; [|done]. subst. by apply TrimPrefix_opt_nil in E.
Qed.

(** The revisioned slot a pair writes: the leader, one shard, or none. *)
Definition slot (prefix : string) (nShards : Z) (kv : KeyValue) : option (option Z) :=
  if bool_decide (Key kv = prefix +:+ "/leader") then Some None
  else match TrimPrefix_opt (prefix +:+ "/nodes/") (Key kv), TrimPrefix_opt (prefix +:+ "/gates/") (Key kv),
             TrimPrefix_opt (prefix +:+ "/shard/") (Key kv) with
  | None, None, Some rest =>
      match Atoi rest with
      | Some s => if ((s <? 0) || (nShards <=? s))%Z then None else Some (Some s)
      | None => None
      end
  | _, _, _ => None
  end.

(** The revision the state holds in a slot. *)
Definition slot_rev (st : ClusterState) (x : option Z) : Z :=
  match x with
  | None => LeaderModRevision st
  | Some s => ModRevision (shard_at (default ∅ (ShardMapping st)) s)
  end.

(** Storing a pair through the watch handler is storing it through the loader, when the pair is
    newer than what the state holds in its slot. *)
Lemma load_step prefix cm kv now :
  wf_state (state cm) -> bare_prefix prefix (Key kv) = false ->
  (forall x, slot prefix (numShards cm) kv = Some x -> (slot_rev (state cm) x < KvModRevision kv)%Z) ->
  exists cm' b, handleWatchEvent prefix cm (put_event kv) now = Some (cm', b) /\
    numShards cm' = numShards cm /\
    view (state cm') = view (loadKv prefix (numShards cm) (state cm) kv).
Proof.
  intros [[g Hg] [sm Hs]] Hb Hr. unfold bare_prefix in Hb. breflect.
  unfold slot in Hr. unfold handleWatchEvent, loadKv, view. simpl.
  rewrite !key_under_trim in * by done. case_bool_decide as Hl.
  { specialize (Hr None eq_refl). simpl in Hr.
    unfold handleLeaderEvent. simpl. rewrite (proj2 (Z.leb_gt _ _)) by done. by eexists _, _. }
  destruct (TrimPrefix_opt (prefix +:+ "/nodes/") (Key kv)); [by eexists _, _|].
  destruct (TrimPrefix_opt (prefix +:+ "/gates/") (Key kv)).
  { unfold handleGateEvent. rewrite Hg. simpl. by eexists _, _. }
  destruct (TrimPrefix_opt (prefix +:+ "/shard/") (Key kv)) as [rest|]; [|by eexists _, _].
  unfold handleShardEvent. simpl in *. destruct (Atoi rest) as [s|]; [|by eexists _, _].
  destruct (_ || _); [by eexists _, _|]. specialize (Hr _ eq_refl). simpl in Hr.
  rewrite Hs in *. simpl in *.
  rewrite ModRevision_parse, (proj2 (Z.leb_gt _ _)) by done. by eexists _, _.
Qed.

(** A pair leaves the revision of every other slot alone. *)
Lemma loadKv_slot_rev prefix n st kv y :
  slot prefix n kv <> Some y -> slot_rev (loadKv prefix n st kv) y = slot_rev st y.
Proof.
  unfold slot, loadKv. intros Hy. case_bool_decide; [by destruct y|].
  destruct (TrimPrefix_opt (prefix +:+ "/nodes/") (Key kv)); [by destruct y|].
  destruct (TrimPrefix_opt (prefix +:+ "/gates/") (Key kv)); [by destruct y|].
  destruct (TrimPrefix_opt (prefix +:+ "/shard/") (Key kv)) as [rest|]; [|done].
  destruct (Atoi rest) as [s|]; [|done]. destruct (_ || _); [done|].
  destruct y as [s'|]; [|done]. simpl. rewrite shard_at_insert.
  rewrite decide_False by congruence. done.
Qed.

Lemma view_slot_rev st st' y : view st = view st' -> slot_rev st y = slot_rev st' y.
Proof. unfold view. intros [= _ _ Hs _ Hl]. destruct y; simpl; congruence. Qed.

Lemma view_wf st st' : view st = view st' -> wf_state st -> wf_state st'.
Proof. unfold view, wf_state. intros [= _ Hg Hs _ _]. rewrite Hg, Hs. done. Qed.

Lemma loadKv_view prefix n st st' kv : view st = view st' ->
  view (loadKv prefix n st kv) = view (loadKv prefix n st' kv).
Proof.
  destruct st, st'. unfold view. simpl. intros [=]. subst. unfold loadKv.
  repeat case_match; done.
Qed.

Lemma fold_loadKv_view prefix n kvs st st' : view st = view st' ->
  view (fold_left (loadKv prefix n) kvs st) = view (fold_left (loadKv prefix n) kvs st').
Proof. revert st st'. induction kvs; simpl; intros; [done|]. by apply IHkvs, loadKv_view. Qed.

(** Replaying the pairs through the watch handler, slot by slot newer, gives the loader's view. *)
Lemma replay_load prefix now kvs cm :
  wf_state (state cm) ->
  Forall (fun kv => bare_prefix prefix (Key kv) = false) kvs ->
  NoDup (omap (slot prefix (numShards cm)) kvs) ->
  (forall kv x, kv ∈ kvs -> slot prefix (numShards cm) kv = Some x ->
     (slot_rev (state cm) x < KvModRevision kv)%Z) ->
  exists cm', handleWatchEvents prefix cm (put_event <$> kvs) now = Some cm' /\
    view (state cm') = view (fold_left (loadKv prefix (numShards cm)) kvs (state cm)).
Proof.
  revert cm. induction kvs as [|kv kvs IH]; intros cm Hwf Hb Hnd Hr; [by eexists|].
  apply Forall_cons in Hb as [Hb1 Hb].
  destruct (load_step prefix cm kv now) as (cm1 & b & Hev & Hn & Hv); [done|done| |].
  { intros x. apply Hr. set_solver. }
  assert (wf_state (state cm1)) as Hwf1 by (eapply view_wf; [symmetry; exact Hv|by apply loadKv_wf]).
  destruct (IH cm1) as (cm2 & Hevs & Hv2); [done|done| | |].
  - rewrite Hn. simpl in Hnd. destruct (slot _ _ kv); [by apply NoDup_cons in Hnd as [_ ?]|done].
  - rewrite Hn. intros kv' x Hin Hx. rewrite (view_slot_rev _ _ _ Hv), loadKv_slot_rev; [|].
    + apply Hr; [set_solver|done].
    + intros Heq. simpl in Hnd. rewrite Heq in Hnd. apply NoDup_cons in Hnd as [Hnin _].
      apply Hnin, list_elem_of_omap. eauto.
  - exists cm2. cbn [fmap list_fmap handleWatchEvents]. rewrite Hev. split; [exact Hevs|].
    rewrite Hv2, Hn. cbn [fold_left]. by apply fold_loadKv_view.
Qed.

(** A valid identifier without a slash does not name a node. *)
Lemma Validate_no_slash id n p :
  Contains id "/" = false -> ValidateObjectID id n = Ok p -> IsFixedNodeFormat p = false.
Proof.
  unfold ValidateObjectID, ParseObjectID. intros ->. repeat case_match; by intros; simplify_eq.
Qed.

(** ** Properties *)

(** A shard record written to etcd is read back unchanged: for node addresses without commas,
    outer white space or the flag marker, and non-empty trimmed flags, [parseShardInfo] inverts
    [formatShardInfo], and takes the revision of the key-value pair. *)
Theorem ShardInfo_roundtrip (si : ShardInfo) (rev : Z) :
  info_ok si = true ->
  parseShardInfo (formatShardInfo si) rev = mkShard (TargetNode si) (CurrentNode si) (Flags si) rev.
Proof. apply parse_format_shard. Qed.

Lemma ShardInfo_roundtrip_witness :
  parseShardInfo (formatShardInfo (mkShard "10.0.0.1:7000" "10.0.0.2:7000" ["pinned"; "x"] 0)) 9 =
    mkShard "10.0.0.1:7000" "10.0.0.2:7000" ["pinned"; "x"] 9.
Proof. apply (ShardInfo_roundtrip (mkShard "10.0.0.1:7000" "10.0.0.2:7000" ["pinned"; "x"] 0)). reflexivity. Defined.

(** After a successful [Initialize] no sequence of watch events makes a handler panic: every
    event list is processed to the end, and the maps the handlers write stay allocated. *)
Theorem watch_never_panics (prefix : string) (cm cm1 : ConsensusManager) resp (t0 now : Z) (evs : list Event) :
  Initialize prefix cm resp t0 = (cm1, Ok tt) ->
  exists cm2, handleWatchEvents prefix cm1 evs now = Some cm2 /\
    is_Some (Gates (state cm2)) /\ is_Some (ShardMapping (state cm2)).
Proof.
  intros HI. apply (handleWatchEvents_wf prefix cm1 evs now).
  unfold Initialize in HI. repeat case_match; simplify_eq. apply load_wf.
Qed.

Lemma watch_never_panics_witness :
  exists cm2, handleWatchEvents "/g"
    (fst (Initialize "/g" (NewConsensusManager true 0 "a:1" 8) (Some (Ok ([], 3%Z))) 5))
    [mkEvent EventTypePut (mkKV "/g/gates/c:1" "c:1" 4); mkEvent EventTypeDelete (mkKV "/g/shard/3" "" 5)] 9
    = Some cm2 /\ is_Some (Gates (state cm2)) /\ is_Some (ShardMapping (state cm2)).
Proof.
  apply (watch_never_panics "/g" (NewConsensusManager true 0 "a:1" 8) _ (Some (Ok ([], 3%Z))) 5).
  reflexivity.
Defined.

(** The shard mapping converges whatever the order in which the watch delivers shard puts: two
    permutations of the same put events (a revision names one event of a shard) end in the same
    manager state, since the newest revision of every shard wins. *)
Theorem shard_puts_converge (prefix : string) (cm : ConsensusManager) (evs evs' : list Event) (now : Z) :
  is_Some (ShardMapping (state cm)) -> evs ≡ₚ evs' ->
  Forall (fun ev => is_shard_put prefix (numShards cm) ev = true) evs ->
  (forall e1 e2, e1 ∈ evs -> e2 ∈ evs -> shard_of prefix (Key (Kv e1)) = shard_of prefix (Key (Kv e2)) ->
     KvModRevision (Kv e1) = KvModRevision (Kv e2) -> e1 = e2) ->
  handleWatchEvents prefix cm evs now = handleWatchEvents prefix cm evs' now /\
  is_Some (handleWatchEvents prefix cm evs now).
Proof.
  intros [sm Hsm] HP HF Hd.
  destruct (handle_puts_mapping prefix now evs cm sm HF Hsm) as (c1 & H1 & ->).
  destruct (handle_puts_mapping prefix now evs' cm sm) as (c2 & H2 & ->); [by rewrite <-HP|done|].
  rewrite H1, H2, (fold_put_perm prefix evs evs' sm HP Hd). eauto.
Qed.

Lemma shard_puts_converge_witness :
  let e1 := mkEvent EventTypePut (mkKV "/g/shard/1" "a:1,a:1" 5) in
  let e2 := mkEvent EventTypePut (mkKV "/g/shard/1" "b:1,a:1" 7) in
  let cm := NewConsensusManager true 0 "a:1" 8 in
  handleWatchEvents "/g" cm [e1; e2] 9 = handleWatchEvents "/g" cm [e2; e1] 9 /\
  is_Some (handleWatchEvents "/g" cm [e1; e2] 9).
Proof.
  apply shard_puts_converge.
  - eexists; reflexivity.
  - apply perm_swap.
  - repeat constructor.
  - intros e1 e2 H1 H2 _ Hr. rewrite !elem_of_cons in H1, H2.
    destruct H1 as [->|[->|H1%elem_of_nil]], H2 as [->|[->|H2%elem_of_nil]]; done || (simpl in Hr; discriminate).
Defined.

(** Reading the key space and watching it agree: loading the pairs of a prefix read gives the
    nodes, gates, shard mapping and leader that replaying the same pairs as put events onto an
    empty loaded state gives, for pairs with positive revisions, no shard spelled by two keys, and
    no key that is a bare section prefix. *)
Theorem load_equals_replay (prefix : string) (cm : ConsensusManager) (kvs : list KeyValue) (rev t0 now : Z) :
  Forall (fun kv => bare_prefix prefix (Key kv) = false /\ (0 < KvModRevision kv)%Z) kvs ->
  NoDup (omap (slot prefix (numShards cm)) kvs) ->
  exists cm', handleWatchEvents prefix
      (set_state cm (loadClusterStateFromEtcd prefix (numShards cm) [] rev t0))
      (put_event <$> kvs) now = Some cm' /\
    view (state cm') = view (loadClusterStateFromEtcd prefix (numShards cm) kvs rev t0).
Proof.
  intros HF Hnd.
  apply (replay_load prefix now kvs (set_state cm (loadClusterStateFromEtcd prefix (numShards cm) [] rev t0))).
  - apply load_wf.
  - eapply Forall_impl; [exact HF|]. by intros kv [??].
  - done.
  - intros kv x Hin _. rewrite Forall_forall in HF. destruct (HF kv Hin) as [_ ?].
    destruct x as [s|]; simpl; [|done]. unfold shard_at. by rewrite lookup_empty.
Qed.

Lemma load_equals_replay_witness :
  exists cm', handleWatchEvents "/g"
      (set_state (NewConsensusManager true 0 "a:1" 8) (loadClusterStateFromEtcd "/g" 8 [] 9 1))
      (put_event <$> [mkKV "/g/leader" "a:1" 4; mkKV "/g/nodes/a:1" "a:1" 3; mkKV "/g/shard/2" "a:1,a:1" 6])
      2 = Some cm' /\
    view (state cm') = view (loadClusterStateFromEtcd "/g" 8
      [mkKV "/g/leader" "a:1" 4; mkKV "/g/nodes/a:1" "a:1" 3; mkKV "/g/shard/2" "a:1,a:1" 6] 9 1).
Proof.
  apply (load_equals_replay "/g" (NewConsensusManager true 0 "a:1" 8)).
  - repeat constructor.
  - by apply (bool_decide_unpack _).
Defined.

(** Routing and eviction agree.  On a node that is in the cluster, an object id without a
    slash that is valid and that [GetObjectsToEvict] keeps is routed to this node by [GetCurrentNodeForObject]; and an
    object it evicts is not routed here, except when its shard has no target node yet. *)
Theorem evict_agrees_with_routing (cm : ConsensusManager) (sm : shards) (local : string)
    (ids : list string) (id : string) (p : ParsedObjectID) :
  ShardMapping (state cm) = Some sm -> HasNode (state cm) local = true -> local <> "" ->
  id ∈ ids -> ValidateObjectID id (numShards cm) = Ok p -> Contains id "/" = false ->
  (id ∉ GetObjectsToEvict cm local ids -> GetCurrentNodeForObject cm id = Ok local) /\
  (id ∈ GetObjectsToEvict cm local ids -> GetCurrentNodeForObject cm id = Ok local ->
     TargetNode (shard_at sm (GetShardID id (numShards cm))) = "").
Proof.
  intros Hsm Hn Hl Hin Hv Hc. unfold GetObjectsToEvict, GetCurrentNodeForObject. rewrite Hsm, Hn. simpl.
  rewrite !list_elem_of_In, filter_In, <-list_elem_of_In. unfold shouldEvict. rewrite Hc.
  rewrite Hv, (Validate_no_slash id (numShards cm) p) by done. unfold shard_at.
  destruct (sm !! GetShardID id (numShards cm)) as [si|] eqn:E; [|split; [naive_solver|done]].
  simpl. rewrite orb_true_iff, !bool_decide_eq_true.
  destruct (decide (CurrentNode si = local)) as [Hcur|]; [|split; [naive_solver|]].
  - rewrite Hcur, bool_decide_false, Hn by done. simpl. split.
    + intros Hk. destruct (decide (TargetNode si = local)) as [->|]; [|naive_solver].
      by rewrite (bool_decide_false (local <> local)), andb_false_r by naive_solver.
    + intros [_ [?|Ht]]; [done|]. repeat case_bool_decide; simpl; try done.
  - intros _ Hr. repeat case_match; simplify_eq.
Qed.

Lemma evict_agrees_with_routing_witness :
  let sm : shards := {[ GetShardID "obj" 8 := mkShard "a:1" "a:1" [] 3 ]} in
  let cm := set_state (NewConsensusManager true 0 "a:1" 8)
              (mkState {["a:1"]} (Some ∅) (Some sm) "" 0 5 (Some 0%Z)) in
  ("obj" ∉ GetObjectsToEvict cm "a:1" ["obj"] -> GetCurrentNodeForObject cm "obj" = Ok "a:1") /\
  ("obj" ∈ GetObjectsToEvict cm "a:1" ["obj"] -> GetCurrentNodeForObject cm "obj" = Ok "a:1" ->
     TargetNode (shard_at sm (GetShardID "obj" 8)) = "").
Proof.
  intros sm cm.
  apply (evict_agrees_with_routing cm sm "a:1" ["obj"] "obj" (mkParsed TypeRegular "obj" 0 "" "obj"));
    [reflexivity | reflexivity | discriminate | constructor | reflexivity | reflexivity].
Defined.
