(* ===== verification/ConsensusPlan.v ===== *)
(** * What the leader and the nodes decide about shards (cluster/consensusmanager)

    The planning halves of the shard operations of [ConsensusManager]: which shards get which
    target node ([calcReassignShardTargetNodes]), which stuck shards are reopened
    ([calcReallocateStuckShards]), which shards move ([RebalanceShards] up to its store call), which
    shards a node claims and releases ([ClaimShardsForNode], [calcReleaseShardsForNode]).  Each plan
    is a map of shard updates; storing it is in ConsensusStore.v.  The random shuffle and offset are
    arguments. *)

From S2P Require Import Prelude GoStrings GoFloat ObjectId ConsensusState.
From stdpp Require Import list_numbers sorting.
Import Sharding Parser Float64 Shards Consensus.

Definition string_le (a b : string) : Prop := String.leb a b = true.
#[global] Instance string_le_dec a b : Decision (string_le a b).
Proof. unfold string_le. apply _. Defined.

Module Plan.

(** [slices.Sorted(maps.Keys(cm.state.Nodes))] *)
Definition sortedNodes (st : ClusterState) : list string := merge_sort string_le (elements (Nodes st)).

(** [for shardID := 0; shardID < cm.numShards; shardID++] *)
Definition shardIDs (cm : ConsensusManager) : list Z := seqZ 0 (numShards cm).

(** ** calcReassignShardTargetNodes *)

Inductive assign_class : Type := Keep | Anchor | Assign.

#[global] Instance assign_class_eq_dec : EqDecision assign_class.
Proof. solve_decision. Defined.

(** The branch of the first loop taken for one shard *)
Definition classify (nodeSet : gset string) (info : ShardInfo) : assign_class :=
  if HasFlag info "pinned" && bool_decide (TargetNode info <> "") then Keep
  else if bool_decide (TargetNode info ∈ nodeSet) then Keep
  else if bool_decide (TargetNode info = "") && bool_decide (CurrentNode info <> "") &&
          bool_decide (CurrentNode info ∈ nodeSet) then Anchor
  else Assign.

(** The first loop: anchored updates and the shards left to assign, in shard order *)
Fixpoint splitShards (nodeSet : gset string) (current : shards) (ids : list Z) (upd : shards)
    (toAssign : list Z) : shards * list Z :=
  match ids with
  | [] => (upd, toAssign)
  | shardID :: rest =>
      let info := shard_at current shardID in
      match classify nodeSet info with
      | Keep => splitShards nodeSet current rest upd toAssign
      | Anchor => splitShards nodeSet current rest
                    (<[shardID := WithTargetNode info (CurrentNode info)]> upd) toAssign
      | Assign => splitShards nodeSet current rest upd (toAssign ++ [shardID])
      end
  end.

(** The second loop: round robin from [offset]; [i] is the loop index *)
Fixpoint placeShards (nodes : list string) (current : shards) (offset i : nat) (toAssign : list Z)
    (upd : shards) : shards :=
  match toAssign with
  | [] => upd
  | shardID :: rest =>
      let targetNode := default "" (nodes !! ((offset + i) mod length nodes)%nat) in
      placeShards nodes current offset (S i) rest
        (<[shardID := WithTargetNode (shard_at current shardID) targetNode]> upd)
  end.

(** [calcReassignShardTargetNodes]; [shuffle] is [rand.Shuffle], [offset] is [rand.IntN(len(nodes))] *)
Definition calcReassignShardTargetNodes (cm : ConsensusManager) (shuffle : list Z -> list Z)
    (offset : nat) : option shards :=
  if bool_decide (size (Nodes (state cm)) = 0%nat) then None
  else
    let nodes := sortedNodes (state cm) in
    let currentShards := default ∅ (ShardMapping (state cm)) in
    let '(upd, toAssign) := splitShards (Nodes (state cm)) currentShards (shardIDs cm) ∅ [] in
    let upd := placeShards nodes currentShards offset 0 (shuffle toAssign) upd in
    if bool_decide (upd = ∅) then None else Some upd.

(** ** calcReallocateStuckShards *)

(** The negation of the [continue] guard: allocated to a live node, unclaimed, not pinned *)
Definition isStuck (nodeSet : gset string) (info : ShardInfo) : bool :=
  negb (bool_decide (TargetNode info = "") || bool_decide (CurrentNode info <> "") ||
        negb (bool_decide (TargetNode info ∈ nodeSet)) || HasFlag info "pinned").

Record StuckScan : Type := mkScan {
  firstSeen : gmap Z Z;
  stuckUpdates : shards;
  activeStuck : gset Z
}.

(** One iteration of the loop over the shard mapping *)
Definition scanShard (nodeSet : gset string) (timeout now : Z) (sc : StuckScan)
    (entry : Z * ShardInfo) : StuckScan :=
  let '(shardID, info) := entry in
  if negb (isStuck nodeSet info) then
    mkScan (delete shardID (firstSeen sc)) (stuckUpdates sc) (activeStuck sc)
  else
    let active := {[shardID]} ∪ activeStuck sc in
    match firstSeen sc !! shardID with
    | None => mkScan (<[shardID := now]> (firstSeen sc)) (stuckUpdates sc) active
    | Some first =>
        if (now - first <? timeout)%Z then mkScan (firstSeen sc) (stuckUpdates sc) active
        else mkScan (delete shardID (firstSeen sc))
               (<[shardID := WithTargetNode info ""]> (stuckUpdates sc)) active
    end.

(** [calcReallocateStuckShards]: the manager with its tracking map updated, and the plan *)
Definition calcReallocateStuckShards (cm : ConsensusManager) (now : Z)
    : option (ConsensusManager * option shards) :=
  if bool_decide (size (Nodes (state cm)) = 0%nat) then Some (set_firstSeen cm ∅, None)
  else
    sm ← ShardMapping (state cm);
    let sc := fold_left (scanShard (Nodes (state cm)) (stuckShardTimeout cm) now) (map_to_list sm)
                (mkScan (stuckShardFirstSeen cm) ∅ ∅) in
    let pruned := filter (fun kv => kv.1 ∈ activeStuck sc) (firstSeen sc) in
    Some (set_firstSeen cm pruned,
          if bool_decide (stuckUpdates sc = ∅) then None else Some (stuckUpdates sc)).

(** ** ClaimShardsForNode and calcReleaseShardsForNode *)

(** The claim condition *)
Definition claimable (st : ClusterState) (localNode : string) (info : ShardInfo) : bool :=
  bool_decide (TargetNode info = localNode) &&
  (bool_decide (CurrentNode info = "") || negb (HasNode st (CurrentNode info))).

(** The shards [ClaimShardsForNode] collects; [None] is the dereference of a nil mapping *)
Definition shardsToClaim (cm : ConsensusManager) : option shards :=
  match ShardMapping (state cm) with
  | None => None
  | Some sm =>
      Some ((fun info => WithCurrentNode info (localNodeAddress cm)) <$>
            filter (fun kv : Z * ShardInfo => claimable (state cm) (localNodeAddress cm) kv.2 = true) sm)
  end.

(** The release condition *)
Definition releasable (localNode : string) (localObjectCount : Z) (info : ShardInfo) : bool :=
  bool_decide (CurrentNode info = localNode) && bool_decide (TargetNode info <> "") &&
  bool_decide (TargetNode info <> localNode) && (localObjectCount =? 0)%Z.

(** [calcReleaseShardsForNode] *)
Definition calcReleaseShardsForNode (cm : ConsensusManager) (localNode : string)
    (localObjectsPerShard : gmap Z Z) : option shards :=
  match ShardMapping (state cm) with
  | None => None
  | Some sm =>
      let upd := (fun info => WithCurrentNode info "") <$>
                 filter (fun kv : Z * ShardInfo => releasable localNode (default 0%Z (localObjectsPerShard !! kv.1)) kv.2 = true) sm in
      if bool_decide (upd = ∅) then None else Some upd
  end.

(** ** RebalanceShards *)

Record Rebalance : Type := mkRB {
  shardCounts : gmap string Z;
  shardsPerNode : gmap string (list Z);
  selectedShards : gset Z;
  updateShards : shards
}.

(** The counting loop; [None] when some shard has no target node *)
Fixpoint countTargets (sm : shards) (ids : list Z) (counts : gmap string Z)
    (perNode : gmap string (list Z)) : option (gmap string Z * gmap string (list Z)) :=
  match ids with
  | [] => Some (counts, perNode)
  | shardID :: rest =>
      match sm !! shardID with
      | None => None
      | Some info =>
          if bool_decide (TargetNode info = "") then None
          else match counts !! TargetNode info with
          | None => countTargets sm rest counts perNode
          | Some c =>
              countTargets sm rest (<[TargetNode info := (c + 1)%Z]> counts)
                (<[TargetNode info := default [] (perNode !! TargetNode info) ++ [shardID]]> perNode)
          end
      end
  end.

(** The max/min scan over the sorted nodes *)
Definition maxMinStep (counts : gmap string Z) (acc : string * Z * (string * Z)) (node : string)
    : string * Z * (string * Z) :=
  let '((maxNode, maxCount), (minNode, minCount)) := acc in
  let count := default 0%Z (counts !! node) in
  (if ((maxCount =? -1) || (maxCount <? count))%Z then (node, count) else (maxNode, maxCount),
   if (count <? minCount)%Z then (node, count) else (minNode, minCount)).

Definition maxMin (nodes : list string) (n : Z) (counts : gmap string Z) : string * Z * (string * Z) :=
  fold_left (maxMinStep counts) nodes (("", (-1)%Z), ("", (n + 1)%Z)).

(** The stop condition [maxCount < minCount+2 || float64(maxCount-minCount) <= threshold*ideal] *)
Definition balanced (n : Z) (numNodes : nat) (threshold : float64) (maxCount minCount : Z) : bool :=
  let idealLoad := fdiv (of_int n) (of_int (Z.of_nat numNodes)) in
  (maxCount <? minCount + 2)%Z || fleb (of_int (maxCount - minCount)) (fmul threshold idealLoad).

Fixpoint remove_shard (s : Z) (l : list Z) : list Z :=
  match l with
  | [] => []
  | x :: rest => if (x =? s)%Z then rest else x :: remove_shard s rest
  end.

(** One iteration of the batch loop; [None] is [break] *)
Definition rebalanceStep (sm : shards) (nodes : list string) (n : Z) (threshold : float64)
    (rb : Rebalance) : option Rebalance :=
  let '((maxNode, maxCount), (minNode, minCount)) := maxMin nodes n (shardCounts rb) in
  if balanced n (length nodes) threshold maxCount minCount then None
  else
    match List.find (fun s => negb (bool_decide (s ∈ selectedShards rb)) &&
                              negb (HasFlag (shard_at sm s) "pinned"))
            (default [] (shardsPerNode rb !! maxNode)) with
    | None => None
    | Some s =>
        let counts := <[maxNode := (default 0 (shardCounts rb !! maxNode) - 1)%Z]> (shardCounts rb) in
        let counts := <[minNode := (default 0 (counts !! minNode) + 1)%Z]> counts in
        let per := <[maxNode := remove_shard s (default [] (shardsPerNode rb !! maxNode))]> (shardsPerNode rb) in
        let per := <[minNode := default [] (per !! minNode) ++ [s]]> per in
        Some (mkRB counts per ({[s]} ∪ selectedShards rb)
                (<[s := WithTargetNode (shard_at sm s) minNode]> (updateShards rb)))
    end.

Fixpoint rebalanceLoop (sm : shards) (nodes : list string) (n : Z) (threshold : float64)
    (batch : nat) (rb : Rebalance) : Rebalance :=
  match batch with
  | O => rb
  | S batch' =>
      match rebalanceStep sm nodes n threshold rb with
      | None => rb
      | Some rb' => rebalanceLoop sm nodes n threshold batch' rb'
      end
  end.

(** [RebalanceShards] up to the store call: the batch of updates, [None] when there is nothing to do *)
Definition planRebalance (cm : ConsensusManager) : option shards :=
  if bool_decide (size (Nodes (state cm)) = 0%nat) then None
  else match ShardMapping (state cm) with
  | None => None
  | Some sm =>
      let nodes := sortedNodes (state cm) in
      let counts : gmap string Z := list_to_map ((fun node => (node, 0%Z)) <$> nodes) in
      let per : gmap string (list Z) := list_to_map ((fun node => (node, [])) <$> nodes) in
      match countTargets sm (shardIDs cm) counts per with
      | None => None
      | Some (counts, per) =>
          let rb := rebalanceLoop sm nodes (numShards cm) (imbalanceThreshold cm)
                      (Z.to_nat (rebalanceShardsBatchSize cm)) (mkRB counts per ∅ ∅) in
          if bool_decide (updateShards rb = ∅) then None else Some (updateShards rb)
      end
  end.

End Plan.
Import Plan.

(** ** Lemmas: reassignment *)

Lemma sortedNodes_perm st : sortedNodes st ≡ₚ elements (Nodes st).
Proof. apply merge_sort_Permutation. Qed.

Lemma elem_of_sortedNodes st n : n ∈ sortedNodes st <-> n ∈ Nodes st.
Proof. by rewrite sortedNodes_perm, elem_of_elements. Qed.

Lemma sortedNodes_NoDup st : NoDup (sortedNodes st).
Proof. rewrite sortedNodes_perm. apply NoDup_elements. Qed.

Lemma length_sortedNodes st : length (sortedNodes st) = size (Nodes st).
Proof. by rewrite sortedNodes_perm. Qed.

Definition is_Assign (nodeSet : gset string) (current : shards) (s : Z) : Prop :=
  classify nodeSet (shard_at current s) = Assign.
#[global] Instance is_Assign_dec ns cur s : Decision (is_Assign ns cur s).
Proof. unfold is_Assign. apply _. Defined.

(** What the first loop computes. *)
Lemma splitShards_spec ns cur ids upd ta upd' ta' :
  splitShards ns cur ids upd ta = (upd', ta') -> NoDup ids ->
  ta' = ta ++ filter (is_Assign ns cur) ids /\
  forall s, upd' !! s =
    if decide (s ∈ ids /\ classify ns (shard_at cur s) = Anchor)
    then Some (WithTargetNode (shard_at cur s) (CurrentNode (shard_at cur s))) else upd !! s.
Proof.
  revert upd ta. induction ids as [|x ids IH]; cbn [splitShards]; intros upd ta Heq Hnd.
  { simplify_eq. split; [by rewrite app_nil_r|]. intros s. rewrite decide_False; [done|set_solver]. }
  apply NoDup_cons in Hnd as [Hx Hnd].
  destruct (classify ns (shard_at cur x)) eqn:Hc; apply IH in Heq as [-> Hl]; try done; clear IH;
    (split; [first [rewrite filter_cons_True by done; by rewrite <-app_assoc | rewrite filter_cons_False by (unfold is_Assign; congruence); done]|]);
    intros s; rewrite Hl; clear Hl.
  - repeat case_decide; rewrite ?elem_of_cons in *; naive_solver congruence.
  - destruct (decide (s = x)) as [->|Hne].
    + rewrite decide_False by naive_solver. rewrite lookup_insert_eq, decide_True; [done|set_solver].
    + rewrite lookup_insert_ne by done. repeat case_decide; rewrite ?elem_of_cons in *; naive_solver congruence.
  - repeat case_decide; rewrite ?elem_of_cons in *; naive_solver congruence.
Qed.

(** What the second loop computes. *)
Lemma placeShards_spec nodes cur offset i ta upd s :
  NoDup ta ->
  placeShards nodes cur offset i ta upd !! s =
    match list_find (.= s) ta with
    | Some (j, _) => Some (WithTargetNode (shard_at cur s)
                       (default "" (nodes !! ((offset + (i + j)) mod length nodes)%nat)))
    | None => upd !! s
    end.
Proof.
  revert i upd. induction ta as [|x ta IH]; simpl; intros i upd Hnd; [done|].
  apply NoDup_cons in Hnd as [Hx Hnd]. rewrite IH by done. case_decide as Hxs.
  - subst x. destruct (list_find (.= s) ta) as [[j y]|] eqn:E.
    + apply list_find_Some in E as (Hj & -> & _). apply list_elem_of_lookup_2 in Hj. done.
    + by rewrite lookup_insert_eq, Nat.add_0_r.
  - destruct (list_find (.= s) ta) as [[j y]|] eqn:E; simpl.
    + do 4 f_equal. f_equal. lia.
    + by rewrite lookup_insert_ne.
Qed.

(** The number of indices below [c] that a round robin over [n] places, starting at [o], puts on
    place [k]. *)
Definition rr_count (n o k c : nat) : nat :=
  length (filter (fun j => (o + j) mod n = k)%nat (seq 0 c)).

(** The first index that lands on place [k]. *)
Definition rr_first (n o k : nat) : nat := ((k + n - o mod n) mod n)%nat.

Lemma rr_hit n o k j : (k < n)%nat -> ((o + j) mod n = k <-> j mod n = rr_first n o k)%nat.
Proof.
  intros Hk. unfold rr_first. rewrite (Nat.Div0.add_mod o j n).
  pose proof (Nat.mod_upper_bound o n ltac:(lia)). pose proof (Nat.mod_upper_bound j n ltac:(lia)).
  set (a := (o mod n)%nat) in *. set (b := (j mod n)%nat) in *.
  destruct (decide (a + b < n)%nat).
  - rewrite (Nat.mod_small (a + b)) by lia. split.
    + intros <-. replace (a + b + n - a)%nat with (b + 1 * n)%nat by lia.
      rewrite Nat.Div0.mod_add. by rewrite Nat.mod_small.
    + intros Hb. destruct (decide (a <= k)%nat).
      * replace (k + n - a)%nat with ((k - a) + 1 * n)%nat in Hb by lia.
        rewrite Nat.Div0.mod_add, Nat.mod_small in Hb by lia. lia.
      * rewrite Nat.mod_small in Hb by lia. lia.
  - replace (a + b)%nat with ((a + b - n) + 1 * n)%nat by lia.
    rewrite Nat.Div0.mod_add, (Nat.mod_small (a + b - n)) by lia. split.
    + intros <-. rewrite Nat.mod_small by lia. lia.
    + intros Hb. destruct (decide (a <= k)%nat).
      * replace (k + n - a)%nat with ((k - a) + 1 * n)%nat in Hb by lia.
        rewrite Nat.Div0.mod_add, Nat.mod_small in Hb by lia. lia.
      * rewrite Nat.mod_small in Hb by lia. lia.
Qed.

Lemma rr_count_bounds n o k c : (k < n)%nat ->
  (rr_count n o k c * n <= c + n - 1 - rr_first n o k < rr_count n o k c * n + n)%nat.
Proof.
  intros Hk. assert (rr_first n o k < n)%nat as Hd by (apply Nat.mod_upper_bound; lia).
  induction c as [|c IH]; [unfold rr_count; simpl; lia|].
  unfold rr_count in *. rewrite seq_S, filter_app, length_app, filter_cons, filter_nil. simpl.
  pose proof (Nat.div_mod_eq c n) as Hc. pose proof (Nat.mod_upper_bound c n ltac:(lia)).
  pose proof (rr_hit n o k c Hk) as Hh.
  case_decide as Hcase; simpl; set (q := (c / n)%nat) in *; set (r := (c mod n)%nat) in *;
    set (d := rr_first n o k) in *; set (m := length _) in *; clearbody m q r d.
  - apply Hh in Hcase. subst r. assert (m = q) as ->; [|lia].
    destruct (Nat.lt_trichotomy m q) as [?|[->|?]]; [|done|].
    + assert (m * n + n <= n * q)%nat by nia. lia.
    + assert (n * q + n <= m * n)%nat by nia. lia.
  - assert (r <> d) by naive_solver. rewrite Nat.add_0_r. split; [lia|].
    destruct (Nat.lt_trichotomy m q) as [?|[->|?]]; [|lia|].
    + assert (m * n + n <= n * q)%nat by nia. lia.
    + assert (n * q + n <= m * n)%nat by nia. lia.
Qed.

(** A round robin is fair: two places differ by at most one. *)
Lemma rr_fair n o k1 k2 c : (k1 < n)%nat -> (k2 < n)%nat ->
  (rr_count n o k1 c <= rr_count n o k2 c + 1)%nat.
Proof.
  intros H1 H2. pose proof (rr_count_bounds n o k1 c H1). pose proof (rr_count_bounds n o k2 c H2).
  assert (rr_first n o k2 < n)%nat by (apply Nat.mod_upper_bound; lia). nia.
Qed.

(** Counting by position. *)
Lemma filter_by_index {A} (l : list A) (P : A -> Prop) (Q : nat -> Prop)
    `{!forall x, Decision (P x)} `{!forall i, Decision (Q i)} b :
  (forall i x, l !! i = Some x -> P x <-> Q (b + i)%nat) ->
  length (filter P l) = length (filter Q (seq b (length l))).
Proof.
  revert b. induction l as [|x l IH]; intros b HPQ; [done|]. simpl. rewrite !filter_cons.
  assert (length (filter P l) = length (filter Q (seq (S b) (length l)))) as IHl.
  { apply IH. intros i y Hi. rewrite (HPQ (S i) y Hi). by rewrite Nat.add_succ_r. }
  pose proof (HPQ 0%nat x eq_refl) as Hx0. rewrite Nat.add_0_r in Hx0.
  repeat case_decide; simpl; naive_solver.
Qed.

(** ** Reassignment: the plan as a function of the shard *)

Section Reassign.
Context (cm : ConsensusManager) (shuffle : list Z -> list Z) (offset : nat).
Hypothesis shuffle_perm : forall l, shuffle l ≡ₚ l.
Hypothesis some_node : Nodes (state cm) <> ∅.

Local Abbreviation nodes := (sortedNodes (state cm)).
Local Abbreviation cur := (default ∅ (ShardMapping (state cm))).
Local Abbreviation toAssign := (filter (is_Assign (Nodes (state cm)) cur) (shardIDs cm)).
Local Abbreviation plan := (default ∅ (calcReassignShardTargetNodes cm shuffle offset)).

Lemma nodes_length_pos : (0 < length nodes)%nat.
Proof.
  rewrite length_sortedNodes. assert (size (Nodes (state cm)) <> 0)%nat; [|lia].
  by intros ?%size_empty_inv%leibniz_equiv.
Qed.

Lemma reassign_plan s :
  plan !! s =
    match list_find (.= s) (shuffle toAssign) with
    | Some (j, _) => Some (WithTargetNode (shard_at cur s)
                       (default "" (nodes !! ((offset + j) mod length nodes)%nat)))
    | None =>
        if decide (s ∈ shardIDs cm /\ classify (Nodes (state cm)) (shard_at cur s) = Anchor)
        then Some (WithTargetNode (shard_at cur s) (CurrentNode (shard_at cur s))) else None
    end.
Proof.
  unfold calcReassignShardTargetNodes. rewrite bool_decide_false by (by intros ?%size_empty_inv%leibniz_equiv).
  destruct (splitShards _ _ _ _ _) as [upd ta] eqn:E.
  apply splitShards_spec in E as [-> Hupd]; [|apply NoDup_seqZ]. cbn [app].
  set (m := placeShards _ _ _ _ _ _).
  transitivity (m !! s). { case_bool_decide as Hm; [by rewrite Hm|done]. }
  unfold m. rewrite placeShards_spec; [|rewrite shuffle_perm; apply NoDup_filter, NoDup_seqZ].
  destruct (list_find _ _) as [[j x]|]; [done|]. rewrite Hupd. by case_decide.
Qed.

Lemma rr_target_live j : default "" (nodes !! ((offset + j) mod length nodes)%nat) ∈ Nodes (state cm).
Proof.
  pose proof nodes_length_pos.
  destruct (lookup_lt_is_Some_2 nodes ((offset + j) mod length nodes)%nat) as [n Hn].
  { apply Nat.mod_upper_bound. lia. }
  rewrite Hn. simpl. apply elem_of_sortedNodes. by eapply list_elem_of_lookup_2.
Qed.

Lemma plan_assigned s : s ∈ toAssign -> exists j,
  shuffle toAssign !! j = Some s /\
  plan !! s = Some (WithTargetNode (shard_at cur s)
                      (default "" (nodes !! ((offset + j) mod length nodes)%nat))).
Proof.
  intros Hs. rewrite reassign_plan.
  destruct (list_find_elem_of (.= s) (shuffle toAssign) s) as [[j y] Hj]; [by rewrite shuffle_perm|done|].
  rewrite Hj. apply list_find_Some in Hj as (Hj & -> & _). eauto.
Qed.

Lemma plan_not_assigned s : s ∉ toAssign ->
  plan !! s =
    if decide (s ∈ shardIDs cm /\ classify (Nodes (state cm)) (shard_at cur s) = Anchor)
    then Some (WithTargetNode (shard_at cur s) (CurrentNode (shard_at cur s))) else None.
Proof.
  intros Hs. rewrite reassign_plan. destruct (list_find _ _) as [[j y]|] eqn:E; [|done].
  apply list_find_Some in E as (Hj & -> & _). apply list_elem_of_lookup_2 in Hj.
  by rewrite shuffle_perm in Hj.
Qed.

Lemma assigned_count a k :
  nodes !! k = Some a ->
  length (filter (fun s => TargetNode (shard_at plan s) = a) toAssign) =
  rr_count (length nodes) offset k (length toAssign).
Proof.
  intros Hk. unfold rr_count.
  rewrite <-(shuffle_perm toAssign) at 1. rewrite <-(Permutation_length (shuffle_perm toAssign)).
  apply filter_by_index. intros i s Hi. simpl.
  assert (s ∈ toAssign) as Hin. { rewrite <-shuffle_perm. by eapply list_elem_of_lookup_2. }
  destruct (plan_assigned s Hin) as (j & Hj & Hp).
  assert (j = i) as ->.
  { eapply NoDup_lookup; [|exact Hj|exact Hi]. rewrite shuffle_perm. apply NoDup_filter, NoDup_seqZ. }
  unfold shard_at at 1. rewrite Hp. cbn [default TargetNode WithTargetNode].
  pose proof nodes_length_pos.
  destruct (lookup_lt_is_Some_2 nodes ((offset + i) mod length nodes)%nat) as [n Hn].
  { apply Nat.mod_upper_bound. lia. }
  rewrite Hn. simpl. split; [|congruence]. intros ->.
  eapply NoDup_lookup; [apply sortedNodes_NoDup|exact Hn|exact Hk].
Qed.

End Reassign.

Lemma elem_of_shardIDs cm s : s ∈ shardIDs cm <-> (0 <= s < numShards cm)%Z.
Proof. unfold shardIDs. rewrite elem_of_seqZ. lia. Qed.

Lemma shard_at_union (u m : shards) s :
  shard_at (u ∪ m) s = match u !! s with Some i => i | None => shard_at m s end.
Proof. unfold shard_at. rewrite lookup_union. by destruct (u !! s), (m !! s). Qed.

(** What the plan does to every shard *)
Lemma reassign_plan_correct (cm : ConsensusManager) (shuffle : list Z -> list Z) (offset : nat) :
  (forall l, shuffle l ≡ₚ l) -> Nodes (state cm) <> ∅ ->
  let sm := default ∅ (ShardMapping (state cm)) in
  let plan := default ∅ (calcReassignShardTargetNodes cm shuffle offset) in
  (forall s info, plan !! s = Some info ->
     let old := shard_at sm s in
     (0 <= s < numShards cm)%Z /\ info = WithTargetNode old (TargetNode info) /\
     TargetNode info ∈ Nodes (state cm) /\ TargetNode old ∉ Nodes (state cm) /\
     (HasFlag old "pinned" = true -> TargetNode old = "") /\
     (TargetNode old = "" -> CurrentNode old <> "" -> CurrentNode old ∈ Nodes (state cm) ->
        TargetNode info = CurrentNode old)) /\
  (forall s, (0 <= s < numShards cm)%Z ->
     HasFlag (shard_at sm s) "pinned" = false \/ TargetNode (shard_at sm s) = "" ->
     TargetNode (shard_at (plan ∪ sm) s) ∈ Nodes (state cm)).
Proof.
  intros Hsh Hne sm plan. subst plan. split.
  - intros s info Hp old. destruct (decide (s ∈ filter (is_Assign (Nodes (state cm)) sm) (shardIDs cm))) as [Hin|Hnin].
    + pose proof Hin as Hin'. apply list_elem_of_filter in Hin' as [Hc Hr%elem_of_shardIDs].
      destruct (plan_assigned cm shuffle offset Hsh Hne s Hin) as (j & _ & Hp').
      rewrite Hp' in Hp. injection Hp as <-. cbn [TargetNode WithTargetNode].
      pose proof (rr_target_live cm offset Hne j).
      unfold is_Assign, classify in Hc. fold old in Hc.
      repeat case_match; simplify_eq. breflect. rewrite ?andb_false_iff, ?bool_decide_eq_false in *.
      split_and!; try done; try lia; intros;
        destruct (decide (TargetNode old = "")), (decide (CurrentNode old = "")); naive_solver congruence.
    + rewrite (plan_not_assigned cm shuffle offset Hsh Hne s Hnin) in Hp. case_decide as Hd; [|done].
      injection Hp as <-. destruct Hd as [Hr%elem_of_shardIDs Hc].
      unfold classify in Hc. repeat case_match; simplify_eq. breflect. rewrite ?andb_false_iff, ?bool_decide_eq_false in *.
      split_and!; try done; try lia; intros;
        destruct (decide (TargetNode old = "")), (decide (CurrentNode old = "")); naive_solver congruence.
  - intros s Hr Hpin. rewrite shard_at_union.
    destruct (decide (s ∈ filter (is_Assign (Nodes (state cm)) sm) (shardIDs cm))) as [Hin|Hnin].
    + destruct (plan_assigned cm shuffle offset Hsh Hne s Hin) as (j & _ & ->).
      apply (rr_target_live cm offset Hne j).
    + rewrite (plan_not_assigned cm shuffle offset Hsh Hne s Hnin).
      apply elem_of_shardIDs in Hr. rewrite list_elem_of_filter in Hnin. fold sm.
      destruct (classify (Nodes (state cm)) (shard_at sm s)) eqn:Hc.
      * rewrite decide_False by naive_solver. unfold classify in Hc.
        repeat case_match; simplify_eq; breflect; [by destruct Hpin; congruence|done].
      * rewrite decide_True by done. unfold classify in Hc. repeat case_match; simplify_eq; by breflect.
      * by destruct Hnin.
Qed.

(** C14: the reassignment plan is right for every shard.  With at least one live node, and whatever
    the shuffle and the offset: an update touches only the target node, concerns a shard in range
    whose target is not a live node and that is not pinned to one, names a live node, and keeps the
    node that already serves the shard when the shard has no target; and once the plan is applied
    every shard that is not pinned to a target has a live target. *)
Theorem reassign_correct (cm : ConsensusManager) (shuffle : list Z -> list Z) (offset : nat) :
  (forall l, shuffle l ≡ₚ l) -> Nodes (state cm) <> ∅ ->
  let sm := default ∅ (ShardMapping (state cm)) in
  let plan := default ∅ (calcReassignShardTargetNodes cm shuffle offset) in
  (forall s info, plan !! s = Some info ->
     let old := shard_at sm s in
     (0 <= s < numShards cm)%Z /\ info = WithTargetNode old (TargetNode info) /\
     TargetNode info ∈ Nodes (state cm) /\ TargetNode old ∉ Nodes (state cm) /\
     (HasFlag old "pinned" = true -> TargetNode old = "") /\
     (TargetNode old = "" -> CurrentNode old <> "" -> CurrentNode old ∈ Nodes (state cm) ->
        TargetNode info = CurrentNode old)) /\
  (forall s, (0 <= s < numShards cm)%Z ->
     HasFlag (shard_at sm s) "pinned" = false \/ TargetNode (shard_at sm s) = "" ->
     TargetNode (shard_at (plan ∪ sm) s) ∈ Nodes (state cm)).
Proof. apply reassign_plan_correct. Qed.

(** The reassignment is balanced: of the shards that are placed afresh, two live nodes receive
    numbers that differ by at most one, whatever the shuffle and the offset. *)
Theorem reassign_balanced (cm : ConsensusManager) (shuffle : list Z -> list Z) (offset : nat) (a b : string) :
  (forall l, shuffle l ≡ₚ l) -> a ∈ Nodes (state cm) -> b ∈ Nodes (state cm) ->
  let sm := default ∅ (ShardMapping (state cm)) in
  let plan := default ∅ (calcReassignShardTargetNodes cm shuffle offset) in
  let placed := filter (is_Assign (Nodes (state cm)) sm) (shardIDs cm) in
  (length (filter (fun s => TargetNode (shard_at plan s) = a) placed) <=
   length (filter (fun s => TargetNode (shard_at plan s) = b) placed) + 1)%nat.
Proof.
  intros Hsh Ha Hb sm plan placed. assert (Nodes (state cm) <> ∅) as Hne by set_solver.
  apply elem_of_sortedNodes, list_elem_of_lookup in Ha as [ka Ha].
  apply elem_of_sortedNodes, list_elem_of_lookup in Hb as [kb Hb].
  subst plan placed sm.
  rewrite (assigned_count cm shuffle offset Hsh Hne a ka Ha), (assigned_count cm shuffle offset Hsh Hne b kb Hb).
  apply rr_fair; by eapply lookup_lt_Some.
Qed.

Definition plan_example : ConsensusManager :=
  set_state (NewConsensusManager true 0 "a:1" 5)
    (mkState {["a:1"; "b:1"]} (Some ∅)
       (Some {[ 0%Z := mkShard "" "b:1" [] 3; 1%Z := mkShard "dead:1" "" [] 4;
                2%Z := mkShard "dead:1" "" ["pinned"] 5; 3%Z := mkShard "a:1" "a:1" [] 6 ]})
       "a:1" 2 9 (Some 0%Z)).

Lemma reassign_correct_witness :
  let sm := default ∅ (ShardMapping (state plan_example)) in
  let plan := default ∅ (calcReassignShardTargetNodes plan_example (@reverse Z) 1) in
  TargetNode (shard_at (plan ∪ sm) 1) ∈ Nodes (state plan_example).
Proof.
  apply (reassign_correct plan_example (@reverse Z) 1).
  - intros l. apply reverse_Permutation.
  - by apply (bool_decide_unpack _).
  - split; [lia|reflexivity].
  - left. reflexivity.
Defined.

Lemma reassign_balanced_witness :
  let sm := default ∅ (ShardMapping (state plan_example)) in
  let plan := default ∅ (calcReassignShardTargetNodes plan_example (@reverse Z) 1) in
  let placed := filter (is_Assign (Nodes (state plan_example)) sm) (shardIDs plan_example) in
  (length (filter (fun s => TargetNode (shard_at plan s) = "a:1") placed) <=
   length (filter (fun s => TargetNode (shard_at plan s) = "b:1") placed) + 1)%nat.
Proof.
  apply (reassign_balanced plan_example (@reverse Z) 1 "a:1" "b:1").
  - intros l. apply reverse_Permutation.
  - by apply (bool_decide_unpack _).
  - by apply (bool_decide_unpack _).
Defined.

(** ** Lemmas: stuck shards *)

(** The tracking entry and the update one call computes for a shard that is in the mapping, from its
    tracking entry before. *)
Definition seenNext (ns : gset string) (timeout now : Z) (info : ShardInfo) (f : option Z) : option Z :=
  if isStuck ns info then
    match f with None => Some now | Some first => if (now - first <? timeout)%Z then Some first else None end
  else None.
Definition clearNext (ns : gset string) (timeout now : Z) (info : ShardInfo) (f : option Z) : option ShardInfo :=
  if isStuck ns info then
    match f with
    | None => None
    | Some first => if (now - first <? timeout)%Z then None else Some (WithTargetNode info "")
    end
  else None.

Lemma scan_spec ns timeout now l sc s :
  NoDup l.*1 ->
  let sc' := fold_left (scanShard ns timeout now) l sc in
  match (list_to_map l : shards) !! s with
  | None => firstSeen sc' !! s = firstSeen sc !! s /\ stuckUpdates sc' !! s = stuckUpdates sc !! s /\
            (s ∈ activeStuck sc' <-> s ∈ activeStuck sc)
  | Some info =>
      firstSeen sc' !! s = seenNext ns timeout now info (firstSeen sc !! s) /\
      stuckUpdates sc' !! s =
        match clearNext ns timeout now info (firstSeen sc !! s) with Some i => Some i | None => stuckUpdates sc !! s end /\
      (s ∈ activeStuck sc' <-> isStuck ns info = true \/ s ∈ activeStuck sc)
  end.
Proof.
  revert sc. induction l as [|[x info] l IH]; intros sc Hnd; cbn [fold_left list_to_map fst snd foldr fmap list_fmap] in *.
  { by rewrite lookup_empty. }
  apply NoDup_cons in Hnd as [Hx Hnd]. specialize (IH (scanShard ns timeout now sc (x, info)) Hnd).
  cbv zeta in IH |- *. cbn [fst snd]. rewrite lookup_insert. case_decide as Hxs.
  - subst x. rewrite (not_elem_of_list_to_map_1 (M := gmap Z) l s Hx) in IH. destruct IH as (-> & -> & ->).
    unfold scanShard, seenNext, clearNext. destruct (isStuck ns info); simpl.
    + repeat case_match; simpl; rewrite ?lookup_insert_eq, ?lookup_delete_eq; set_solver.
    + rewrite lookup_delete_eq. naive_solver.
  - assert (firstSeen (scanShard ns timeout now sc (x, info)) !! s = firstSeen sc !! s /\
            stuckUpdates (scanShard ns timeout now sc (x, info)) !! s = stuckUpdates sc !! s /\
            (s ∈ activeStuck (scanShard ns timeout now sc (x, info)) <-> s ∈ activeStuck sc)) as (E1 & E2 & E3).
    { unfold scanShard. repeat case_match; simpl; rewrite ?lookup_insert_ne, ?lookup_delete_ne by done; set_solver. }
    destruct ((list_to_map l : shards) !! s); rewrite E1, E2, E3 in IH; exact IH.
Qed.

(** What one call does to the tracking map and plans, shard by shard. *)
Lemma stuck_call cm sm now :
  Nodes (state cm) <> ∅ -> ShardMapping (state cm) = Some sm ->
  exists fs plan, calcReallocateStuckShards cm now = Some (set_firstSeen cm fs, plan) /\
  (forall s, fs !! s = sm !! s ≫= fun info =>
     seenNext (Nodes (state cm)) (stuckShardTimeout cm) now info (stuckShardFirstSeen cm !! s)) /\
  (forall s, default ∅ plan !! s = sm !! s ≫= fun info =>
     clearNext (Nodes (state cm)) (stuckShardTimeout cm) now info (stuckShardFirstSeen cm !! s)).
Proof.
  intros Hne Hsm. unfold calcReallocateStuckShards.
  rewrite bool_decide_false by (by intros ?%size_empty_inv%leibniz_equiv). rewrite Hsm. simpl.
  eexists _, _. split; [done|].
  pose proof (fun s => scan_spec (Nodes (state cm)) (stuckShardTimeout cm) now (map_to_list sm)
    (mkScan (stuckShardFirstSeen cm) ∅ ∅) s (NoDup_fst_map_to_list sm)) as HS.
  simpl in HS. set (sc := fold_left _ _ _) in *. clearbody sc.
  split; intros s; specialize (HS s); rewrite list_to_map_to_list in HS.
  - rewrite map_lookup_filter. destruct (sm !! s) as [info|] eqn:Hs; simpl.
    + destruct HS as (-> & _ & Ha). unfold seenNext in *.
      destruct (isStuck _ info) eqn:Est; simpl; [|done].
      match goal with |- ?o ≫= _ = _ => destruct o as [f|]; simpl; [|done] end.
      case_guard as Hg; simpl; naive_solver.
    + destruct HS as (-> & _ & Ha). destruct (stuckShardFirstSeen cm !! s); simpl; [|done].
      case_guard; simpl; [set_solver|done].
  - transitivity (stuckUpdates sc !! s). { case_bool_decide as He; [by rewrite He|done]. }
    destruct (sm !! s) as [info|] eqn:Hs; destruct HS as (_ & -> & _); simpl; [|by rewrite lookup_empty].
    rewrite lookup_empty. by destruct (clearNext _ _ _ _ _).
Qed.

(** A leader's successive observations of the cluster: the watch has installed [st], the management
    loop runs the scan at time [t]. *)
Definition observe (cm : ConsensusManager) (obs : ClusterState * Z)
    : option (ConsensusManager * option shards) :=
  calcReallocateStuckShards (set_state cm obs.1) obs.2.

Fixpoint observe_all (cm : ConsensusManager) (obs : list (ClusterState * Z)) : option ConsensusManager :=
  match obs with
  | [] => Some cm
  | o :: rest => match observe cm o with Some (cm', _) => observe_all cm' rest | None => None end
  end.

(** The shard is allocated to a live node, unclaimed and unpinned. *)
Definition stuck_in (s : Z) (st : ClusterState) : Prop :=
  exists sm info, ShardMapping st = Some sm /\ sm !! s = Some info /\ isStuck (Nodes st) info = true.

(** [s] has been stuck in every observation since the one made at time [f]. *)
Definition stuck_since (s f : Z) (obs : list (ClusterState * Z)) : Prop :=
  exists pre st post, obs = pre ++ (st, f) :: post /\ Forall (fun o => stuck_in s o.1) ((st, f) :: post).

Lemma observe_tracks cm o cm' plan s :
  observe cm o = Some (cm', plan) ->
  stuckShardTimeout cm' = stuckShardTimeout cm /\
  (forall f, stuckShardFirstSeen cm' !! s = Some f ->
     stuck_in s o.1 /\ (f = o.2 \/ stuckShardFirstSeen cm !! s = Some f)) /\
  (forall info, default ∅ plan !! s = Some info -> exists f,
     stuck_in s o.1 /\ stuckShardFirstSeen cm !! s = Some f /\ (stuckShardTimeout cm <= o.2 - f)%Z).
Proof.
  destruct o as [st t]. unfold observe. simpl. intros Hobs.
  destruct (decide (Nodes st = ∅)) as [He|Hne].
  { unfold calcReallocateStuckShards in Hobs. simpl in Hobs.
    rewrite bool_decide_true in Hobs by (by rewrite He). simplify_eq. simpl.
    split_and!; [done|by intros f; rewrite lookup_empty|by intros i; rewrite lookup_empty]. }
  destruct (ShardMapping st) as [sm|] eqn:Hsm.
  2: { unfold calcReallocateStuckShards in Hobs. simpl in Hobs. rewrite Hsm in Hobs.
       rewrite bool_decide_false in Hobs by (by intros ?%size_empty_inv%leibniz_equiv). done. }
  destruct (stuck_call (set_state cm st) sm t Hne Hsm) as (fs & plan' & Hc & Hfs & Hpl).
  rewrite Hc in Hobs. simplify_eq. simpl in *. split; [done|]. split.
  - intros f Hf. rewrite Hfs in Hf. destruct (sm !! s) as [info|] eqn:Hs; [|done]. simpl in Hf.
    unfold seenNext in Hf. destruct (isStuck (Nodes st) info) eqn:Est; [|done].
    split; [by exists sm, info|]. repeat case_match; naive_solver.
  - intros i Hi. rewrite Hpl in Hi. destruct (sm !! s) as [info|] eqn:Hs; [|done]. simpl in Hi.
    unfold clearNext in Hi. destruct (isStuck (Nodes st) info) eqn:Est; [|done].
    destruct (stuckShardFirstSeen cm !! s) as [f|]; [|done]. case_match; [done|]. breflect.
    exists f. split; [by exists sm, info|]. done.
Qed.

Lemma stuck_since_snoc s f obs o :
  stuck_since s f obs -> stuck_in s o.1 -> stuck_since s f (obs ++ [o]).
Proof.
  intros (pre & st & post & -> & HF) Ho. exists pre, st, (post ++ [o]).
  split; [by rewrite <-app_assoc|]. rewrite app_comm_cons, Forall_app. by split; [|constructor].
Qed.

(** The tracking map is right after any sequence of observations. *)
Lemma observe_all_since s obs2 cm obs1 cm' :
  (forall f, stuckShardFirstSeen cm !! s = Some f -> stuck_since s f obs1) ->
  observe_all cm obs2 = Some cm' ->
  stuckShardTimeout cm' = stuckShardTimeout cm /\
  (forall f, stuckShardFirstSeen cm' !! s = Some f -> stuck_since s f (obs1 ++ obs2)).
Proof.
  revert cm obs1. induction obs2 as [|o obs2 IH]; simpl; intros cm obs1 Hinv Hrun.
  { simplify_eq. by rewrite app_nil_r. }
  destruct (observe cm o) as [[cm1 plan]|] eqn:Ho; [|done].
  destruct (observe_tracks cm o cm1 plan s Ho) as (Ht & Hfs & _).
  destruct (IH cm1 (obs1 ++ [o])) as [Ht' Hinv']; [|done|].
  - intros f Hf. destruct (Hfs f Hf) as [Hst [->|Hold]].
    + destruct o as [st t]. exists obs1, st, []. split; [done|]. by constructor.
    + apply stuck_since_snoc; auto.
  - rewrite <-app_assoc in Hinv'. split; [congruence|done].
Qed.

(** C30: a stuck shard is reopened only after the full timeout.  Over any sequence of observations
    by a leader that starts with nothing tracked, if the scan at time [t] clears the target of a
    shard, then there is an earlier scan at a time [f] with [t - f] at least the timeout such that
    at that scan, at every scan since, and now, the shard was allocated to a live node, unclaimed
    and not pinned. *)
Theorem stuck_shard_waited (cm cm1 cm2 : ConsensusManager) (obs : list (ClusterState * Z))
    (st : ClusterState) (t : Z) (plan : shards) (s : Z) (info : ShardInfo) :
  stuckShardFirstSeen cm = ∅ ->
  observe_all cm obs = Some cm1 -> observe cm1 (st, t) = Some (cm2, Some plan) ->
  plan !! s = Some info ->
  exists f, (stuckShardTimeout cm <= t - f)%Z /\ stuck_since s f obs /\ stuck_in s st.
Proof.
  intros He Hrun Hobs Hp.
  destruct (observe_all_since s obs cm [] cm1) as [Ht Hinv]; [by rewrite He|done|].
  destruct (observe_tracks cm1 (st, t) cm2 (Some plan) s Hobs) as (_ & _ & Hpl).
  destruct (Hpl info Hp) as (f & Hst & Hf & Htime). exists f. rewrite <-Ht. auto.
Qed.

Definition stuck_example : ClusterState :=
  mkState {["a:1"]} (Some ∅) (Some {[ 3%Z := mkShard "a:1" "" [] 7 ]}) "a:1" 2 9 (Some 0%Z).

Lemma stuck_shard_waited_witness :
  exists f, (60 * 10 ^ 9 <= 70 * 10 ^ 9 - f)%Z /\
    stuck_since 3 f [(stuck_example, 5%Z); (stuck_example, (30 * 10 ^ 9)%Z)] /\ stuck_in 3 stuck_example.
Proof.
  refine (stuck_shard_waited (NewConsensusManager true 0 "a:1" 8) _ _
    [(stuck_example, 5%Z); (stuck_example, (30 * 10 ^ 9)%Z)] stuck_example (70 * 10 ^ 9) _ 3 _ _ _ _ _);
    reflexivity.
Defined.

(** ** Lemmas: rebalancing *)

(** The shards among [ids] whose target is [node], and their number. *)
Definition targeted (m : shards) (ids : list Z) (node : string) : list Z :=
  filter (fun s => TargetNode (shard_at m s) = node) ids.
Definition load (m : shards) (ids : list Z) (node : string) : Z := Z.of_nat (length (targeted m ids node)).

(** The sum of the squared loads, the measure a migration decreases. *)
Definition energy (m : shards) (ids : list Z) (nodes : list string) : Z :=
  foldr Z.add 0%Z ((fun n => load m ids n * load m ids n)%Z <$> nodes).

Lemma shard_at_insert_eq (m : shards) s info : shard_at (<[s := info]> m) s = info.
Proof. by rewrite shard_at_insert, decide_True. Qed.

Lemma shard_at_insert_ne (m : shards) s s' info : s <> s' -> shard_at (<[s := info]> m) s' = shard_at m s'.
Proof. intros. by rewrite shard_at_insert, decide_False. Qed.

(** Moving one shard changes two loads. *)
Lemma targeted_move m ids s info :
  NoDup ids -> s ∈ ids ->
  forall n, targeted (<[s := info]> m) ids n ≡ₚ
    (if decide (TargetNode info = n) then [s] else []) ++ filter (fun x => x <> s) (targeted m ids n).
Proof.
  intros Hnd Hs n. unfold targeted. induction ids as [|x ids IH]; [set_solver|].
  apply NoDup_cons in Hnd as [Hx Hnd]. destruct (decide (x = s)) as [->|Hne].
  - clear IH. rewrite !filter_cons. rewrite shard_at_insert_eq.
    assert (filter (fun y => TargetNode (shard_at (<[s:=info]> m) y) = n) ids =
            filter (fun y => y <> s) (filter (fun y => TargetNode (shard_at m y) = n) ids)) as Hrest.
    { clear Hnd Hs. induction ids as [|y ids IH]; [done|]. apply not_elem_of_cons in Hx as [Hy Hx].
      rewrite !filter_cons, shard_at_insert_ne by congruence.
      case_decide; [|by apply IH]. rewrite filter_cons, decide_True by congruence. by rewrite IH. }
    rewrite Hrest. repeat case_decide; simpl; rewrite ?filter_cons; try rewrite decide_False by naive_solver; done.
  - assert (s ∈ ids) as Hs' by (by apply elem_of_cons in Hs as [|]). specialize (IH Hnd Hs').
    rewrite !filter_cons, shard_at_insert_ne by congruence.
    destruct (decide (TargetNode (shard_at m x) = n)); [|done].
    rewrite (filter_cons _ x), (decide_True (P := x <> s)) by done. rewrite IH.
    apply Permutation_middle.
Qed.

Lemma filter_remove_NoDup (s : Z) (l : list Z) : NoDup l -> s ∈ l -> s :: filter (fun x => x <> s) l ≡ₚ l.
Proof.
  induction l as [|x l IH]; [set_solver|]. intros [Hx Hnd]%NoDup_cons Hs.
  rewrite filter_cons. destruct (decide (x = s)) as [->|Hne].
  - rewrite decide_False by naive_solver. f_equiv.
    clear IH Hs Hnd. induction l as [|y l IH]; [done|]. apply not_elem_of_cons in Hx as [??].
    rewrite filter_cons, decide_True by congruence. by rewrite IH.
  - rewrite decide_True by done. rewrite perm_swap. f_equiv. apply IH; [done|set_solver].
Qed.

Lemma filter_remove_notin (s : Z) (l : list Z) : s ∉ l -> filter (fun x => x <> s) l = l.
Proof.
  induction l as [|x l IH]; [done|]. intros [Hx Hl]%not_elem_of_cons.
  rewrite filter_cons, decide_True by congruence. by rewrite IH.
Qed.

Lemma targeted_NoDup m ids n : NoDup ids -> NoDup (targeted m ids n).
Proof. apply NoDup_filter. Qed.

Lemma elem_of_targeted m ids n s : s ∈ targeted m ids n <-> TargetNode (shard_at m s) = n /\ s ∈ ids.
Proof. unfold targeted. by rewrite list_elem_of_filter. Qed.

(** The loads after a shard targeted at [a] is retargeted at [b]. *)
Lemma load_move m ids s info a b n :
  NoDup ids -> s ∈ ids -> TargetNode (shard_at m s) = a -> TargetNode info = b -> a <> b ->
  load (<[s := info]> m) ids n =
    (load m ids n + (if decide (b = n) then 1 else 0) - (if decide (a = n) then 1 else 0))%Z.
Proof.
  intros Hnd Hs Ha Hb Hab. unfold load. rewrite targeted_move by done. rewrite Hb, length_app.
  destruct (decide (a = n)) as [<-|Hn].
  - assert (length (s :: filter (fun x => x <> s) (targeted m ids a)) = length (targeted m ids a)) as HL.
    { apply Permutation_length, filter_remove_NoDup; [by apply targeted_NoDup|by apply elem_of_targeted]. }
    simpl in HL. rewrite !decide_False by done. simpl. lia.
  - rewrite filter_remove_notin by (rewrite elem_of_targeted; naive_solver). case_decide; simpl; lia.
Qed.

Lemma energy_perm m ids l l' : l ≡ₚ l' -> energy m ids l = energy m ids l'.
Proof. unfold energy. induction 1; cbn [fmap list_fmap foldr]; lia. Qed.

Lemma energy_ext m m' ids l : (forall n, n ∈ l -> load m ids n = load m' ids n) -> energy m ids l = energy m' ids l.
Proof.
  unfold energy. induction l as [|n l IH]; [done|]. intros Hl. cbn [fmap list_fmap foldr].
  rewrite IH by (intros; apply Hl; by right). rewrite (Hl n) by (by left). done.
Qed.

(** A migration from a node to one with at least two fewer shards decreases the energy. *)
Lemma energy_move m ids nodes s info a b :
  NoDup ids -> NoDup nodes -> s ∈ ids -> a ∈ nodes -> b ∈ nodes ->
  TargetNode (shard_at m s) = a -> TargetNode info = b -> (load m ids b + 2 <= load m ids a)%Z ->
  (energy (<[s := info]> m) ids nodes < energy m ids nodes)%Z.
Proof.
  intros Hnd Hnn Hs Ha Hb HTa HTb Hload.
  assert (a <> b) as Hab by (intros ->; lia).
  apply elem_of_Permutation in Ha as [l1 Hl1].
  rewrite Hl1 in Hb, Hnn. apply NoDup_cons in Hnn as [Ha1 Hn1].
  apply elem_of_cons in Hb as [?|Hb]; [congruence|].
  apply elem_of_Permutation in Hb as [l2 Hl2]. rewrite Hl2 in Ha1, Hn1, Hl1.
  apply NoDup_cons in Hn1 as [Hb2 Hn2]. apply not_elem_of_cons in Ha1 as [_ Ha2].
  rewrite !(energy_perm _ _ _ _ Hl1). unfold energy. cbn [fmap list_fmap foldr].
  fold (energy (<[s:=info]> m) ids l2) (energy m ids l2).
  rewrite (energy_ext (<[s:=info]> m) m ids l2).
  - rewrite !(load_move m ids s info a b) by done.
    rewrite !(decide_True (P := a = a)), !(decide_True (P := b = b)), !decide_False by congruence. lia.
  - intros n Hn. rewrite (load_move m ids s info a b) by done.
    rewrite !decide_False by (intros ->; done). lia.
Qed.

Lemma remove_shard_perm s l : s ∈ l -> s :: remove_shard s l ≡ₚ l.
Proof.
  induction l as [|x l IH]; [set_solver|]. intros Hs. simpl.
  destruct (x =? s)%Z eqn:E; breflect; [by subst|].
  rewrite perm_swap. f_equiv. apply IH. apply elem_of_cons in Hs as [->|]; done.
Qed.

Section RebalanceInv.
Context (sm : shards) (ids : list Z) (nodes : list string).
Hypothesis ids_NoDup : NoDup ids.
Hypothesis nodes_NoDup : NoDup nodes.

(** What the counting loop establishes: the counts are the loads of the mapping. *)
Lemma countTargets_spec done_ rest counts per counts' per' :
  ids = done_ ++ rest ->
  (forall n, n ∈ nodes <-> is_Some (counts !! n)) ->
  (forall n, n ∈ nodes -> counts !! n = Some (load sm done_ n) /\ per !! n = Some (targeted sm done_ n)) ->
  countTargets sm rest counts per = Some (counts', per') ->
  (forall n, n ∈ nodes -> counts' !! n = Some (load sm ids n) /\ per' !! n = Some (targeted sm ids n)) /\
  (forall s, s ∈ rest -> exists info, sm !! s = Some info /\ TargetNode info <> "").
Proof.
  revert done_ counts per. induction rest as [|s rest IH]; simpl; intros done_ counts per Hids Hdom Hinv Hc.
  { rewrite app_nil_r in Hids. simplify_eq. split; [done|set_solver]. }
  destruct (sm !! s) as [info|] eqn:Hs; [|done]. case_bool_decide as Ht; [done|].
  assert (shard_at sm s = info) as Hat by (unfold shard_at; by rewrite Hs).
  assert (forall n, targeted sm (done_ ++ [s]) n =
    targeted sm done_ n ++ (if decide (TargetNode info = n) then [s] else [])) as Htg.
  { intros n. unfold targeted. rewrite filter_app, filter_cons, filter_nil, Hat. done. }
  assert (forall n, load sm (done_ ++ [s]) n =
    (load sm done_ n + if decide (TargetNode info = n) then 1 else 0)%Z) as Hld.
  { intros n. unfold load. rewrite Htg, length_app. case_decide; simpl; lia. }
  rewrite cons_middle, app_assoc in Hids.
  destruct (counts !! TargetNode info) as [c|] eqn:Ec.
  - assert (TargetNode info ∈ nodes) as Hin by (apply Hdom; by rewrite Ec).
    destruct (Hinv _ Hin) as [Hc1 Hp1]. rewrite Ec in Hc1. injection Hc1 as ->. rewrite Hp1 in Hc. simpl in Hc.
    pose proof (fun A B => IH (done_ ++ [s]) _ _ Hids A B Hc) as IH'. destruct IH' as [H1 H2].
    + intros n. rewrite Hdom, lookup_insert. case_decide; [subst; rewrite Ec|]; naive_solver.
    + intros n Hn. destruct (Hinv n Hn) as [Hcn Hpn]. rewrite Htg, Hld, !lookup_insert.
      case_decide; [by subst|]. by rewrite Z.add_0_r, app_nil_r.
    + split; [done|]. intros x [->|Hx]%elem_of_cons; [eauto|by apply H2].
  - pose proof (fun B => IH (done_ ++ [s]) _ _ Hids Hdom B Hc) as IH'. destruct IH' as [H1 H2].
    + intros n Hn. rewrite Htg, Hld. case_decide as Heq.
      * subst n. apply Hdom in Hn as [??]. congruence.
      * rewrite Z.add_0_r, app_nil_r. by apply Hinv.
    + split; [done|]. intros x [->|Hx]%elem_of_cons; [eauto|by apply H2].
Qed.

(** The batch loop's invariant. *)
Record RBinv (rb : Rebalance) : Prop := {
  inv_counts : forall n, n ∈ nodes -> shardCounts rb !! n = Some (load (updateShards rb ∪ sm) ids n);
  inv_per : forall n, n ∈ nodes -> exists l, shardsPerNode rb !! n = Some l /\ l ≡ₚ targeted (updateShards rb ∪ sm) ids n;
  inv_sel : forall s, s ∈ selectedShards rb <-> is_Some (updateShards rb !! s);
  inv_upd : forall s info, updateShards rb !! s = Some info ->
    s ∈ ids /\ HasFlag (shard_at sm s) "pinned" = false /\ info = WithTargetNode (shard_at sm s) (TargetNode info) /\
    TargetNode info ∈ nodes /\ TargetNode (shard_at sm s) ∈ nodes
}.

(** The scan finds a node of maximal and a node of minimal count. *)
Definition scan_ok (counts : gmap string Z) (n : Z) (seen : list string) (acc : string * Z * (string * Z)) : Prop :=
  let '((maxNode, maxCount), (minNode, minCount)) := acc in
  (seen = [] /\ maxCount = (-1)%Z /\ minCount = (n + 1)%Z) \/
  (maxNode ∈ seen /\ maxCount = default 0%Z (counts !! maxNode) /\
   minNode ∈ seen /\ minCount = default 0%Z (counts !! minNode) /\
   (forall x, x ∈ seen -> (default 0 (counts !! x) <= maxCount)%Z /\ (minCount <= default 0 (counts !! x))%Z)).

Lemma maxMin_spec counts n :
  nodes <> [] -> (forall x, x ∈ nodes -> (0 <= default 0 (counts !! x) <= n)%Z) ->
  let '((maxNode, maxCount), (minNode, minCount)) := maxMin nodes n counts in
  maxNode ∈ nodes /\ maxCount = default 0%Z (counts !! maxNode) /\
  minNode ∈ nodes /\ minCount = default 0%Z (counts !! minNode) /\
  (forall x, x ∈ nodes -> (default 0 (counts !! x) <= maxCount)%Z /\ (minCount <= default 0 (counts !! x))%Z).
Proof.
  intros Hne Hb.
  assert (forall rest seen acc, nodes = seen ++ rest -> scan_ok counts n seen acc ->
    scan_ok counts n nodes (fold_left (maxMinStep counts) rest acc)) as HF.
  { induction rest as [|x rest IH]; simpl; intros seen acc Heq Hok.
    - rewrite app_nil_r in Heq. by subst.
    - apply (IH (seen ++ [x])); [by rewrite <-app_assoc|].
      assert (x ∈ nodes) as Hx by (rewrite Heq; set_solver). pose proof (Hb x Hx).
      destruct acc as [[mx mc] [mn nc]]. unfold scan_ok in Hok.
      destruct Hok as [(-> & -> & ->)|(H1 & -> & H2 & -> & H3)].
      + simpl. rewrite (proj2 (Z.ltb_lt _ _)) by lia. right. split_and!; try done; try set_solver.
      + assert (mx ∈ nodes) as Hmx by (rewrite Heq; set_solver). pose proof (Hb mx Hmx).
        unfold maxMinStep, scan_ok.
        destruct (_ || _) eqn:E1, (_ <? default 0 (counts !! mn))%Z eqn:E2; right;
        rewrite ?orb_true_iff, ?orb_false_iff, ?Z.eqb_eq, ?Z.eqb_neq, ?Z.ltb_lt, ?Z.ltb_ge in *;
        (split_and!; [set_solver|done|set_solver|done|]);
        intros y [Hy|Hy%list_elem_of_singleton]%elem_of_app; subst; try pose proof (H3 _ Hy); lia. }
  unfold maxMin. specialize (HF nodes [] (("", (-1)%Z), ("", (n + 1)%Z)) eq_refl).
  destruct (fold_left _ _ _) as [[mx mc] [mn nc]]. simpl in HF.
  destruct HF as [(-> & _)|?]; [by left|done|done].
Qed.

Lemma load_nonneg m n : (0 <= load m ids n)%Z.
Proof. unfold load. lia. Qed.

Lemma load_le m n : (load m ids n <= Z.of_nat (length ids))%Z.
Proof. unfold load, targeted. pose proof (length_filter (fun s => TargetNode (shard_at m s) = n) ids). lia. Qed.

(** One iteration keeps the invariant, adds one update and moves one shard from a node of maximal
    load to a node whose load is lower by two or more. *)
Lemma rebalanceStep_spec thr rb rb' :
  nodes <> [] -> RBinv rb ->
  rebalanceStep sm nodes (Z.of_nat (length ids)) thr rb = Some rb' ->
  exists s a b, a ∈ nodes /\ b ∈ nodes /\ s ∈ ids /\ updateShards rb !! s = None /\
    updateShards rb' = <[s := WithTargetNode (shard_at sm s) b]> (updateShards rb) /\
    TargetNode (shard_at sm s) = a /\
    (load (updateShards rb ∪ sm) ids b + 2 <= load (updateShards rb ∪ sm) ids a)%Z /\ RBinv rb'.
Proof.
  intros Hne [Hc Hp Hsel Hupd]. unfold rebalanceStep. set (m := updateShards rb ∪ sm) in *.
  assert (forall x, x ∈ nodes -> default 0%Z (shardCounts rb !! x) = load m ids x) as Hcx
    by (intros x Hx; by rewrite Hc).
  pose proof (maxMin_spec (shardCounts rb) (Z.of_nat (length ids)) Hne) as HM.
  destruct (maxMin _ _ _) as [[mx mc] [mn nc]].
  destruct HM as (Hmx & -> & Hmn & -> & _).
  { intros x Hx. rewrite Hcx by done. split; [apply load_nonneg|apply load_le]. }
  destruct (balanced _ _ _ _ _) eqn:Hbal; [done|]. unfold balanced in Hbal.
  apply orb_false_elim in Hbal as [Hbal%Z.ltb_ge _]. rewrite !Hcx in Hbal by done.
  destruct (Hp mx Hmx) as (lmx & Hlmx & Hlp). destruct (Hp mn Hmn) as (lmn & Hlmn & Hlp').
  rewrite Hlmx. simpl. destruct (List.find _ _) as [s|] eqn:Hfind; [|done].
  apply find_some in Hfind as [Hs%list_elem_of_In Hcond]. breflect.
  assert (s ∈ lmx) as Hslmx by done. rewrite Hlp in Hs. apply elem_of_targeted in Hs as [Hts Hsid].
  assert (updateShards rb !! s = None) as Hnone.
  { destruct (updateShards rb !! s) eqn:E; [|done]. exfalso.
    match goal with H : s ∉ selectedShards rb |- _ => apply H end. apply Hsel. by rewrite E. }
  assert (shard_at m s = shard_at sm s) as Hms by (unfold m; by rewrite shard_at_union, Hnone).
  rewrite Hms in Hts. assert (mx <> mn) as Hneq by (intros ->; lia).
  intros [= <-]. exists s, mx, mn. split_and!; try done. simpl.
  set (info := WithTargetNode (shard_at sm s) mn).
  assert (<[s:=info]> (updateShards rb) ∪ sm = <[s:=info]> m) as Hu by (unfold m; by rewrite insert_union_l).
  assert (forall n, load (<[s:=info]> m) ids n =
    (load m ids n + (if decide (mn = n) then 1 else 0) - (if decide (mx = n) then 1 else 0))%Z) as HL.
  { intros n. apply load_move; try done. by rewrite Hms. }
  split; simpl; rewrite ?Hu.
  - intros n Hn. rewrite HL, !lookup_insert. repeat case_decide; subst; try done; simpl.
    + rewrite Hc by done. simpl. f_equal. lia.
    + rewrite Hc by done. simpl. f_equal. lia.
    + rewrite Hc by done. f_equal. lia.
  - intros n Hn. rewrite !lookup_insert. rewrite (decide_False (P := mx = mn)) by done.
    rewrite Hlmn. simpl. destruct (decide (mn = n)) as [<-|Hmnn].
    + eexists. split; [done|]. rewrite targeted_move by done. rewrite decide_True by done.
      rewrite filter_remove_notin by (rewrite elem_of_targeted, Hms; naive_solver).
      rewrite Hlp'. by rewrite Permutation_app_comm.
    + destruct (decide (mx = n)) as [<-|Hmxn].
      * eexists. split; [done|]. rewrite targeted_move by done. rewrite decide_False by done. simpl.
        apply (Permutation_cons_inv (a := s)). rewrite remove_shard_perm by done. rewrite Hlp.
        symmetry. apply filter_remove_NoDup; [by apply targeted_NoDup|]. apply elem_of_targeted. by rewrite Hms.
      * destruct (Hp n Hn) as (l & Hl & Hlpn). exists l. split; [done|]. rewrite targeted_move by done.
        rewrite decide_False by done. rewrite filter_remove_notin by (rewrite elem_of_targeted, Hms; naive_solver).
        done.
  - intros x. rewrite elem_of_union, elem_of_singleton, Hsel, lookup_insert. case_decide; naive_solver.
  - intros x i. rewrite lookup_insert. case_decide; [|apply Hupd]. intros [= <-]. subst x.
    split_and!; try done. simpl. by rewrite Hts.
Qed.

(** Along the batch loop: the invariant stays, the batch bounds the updates, the energy only goes
    down (strictly, when something is selected), and no load leaves the initial range. *)
Lemma rebalanceLoop_spec thr batch rb :
  nodes <> [] -> RBinv rb ->
  let rb' := rebalanceLoop sm nodes (Z.of_nat (length ids)) thr batch rb in
  let m := updateShards rb ∪ sm in
  let m' := updateShards rb' ∪ sm in
  RBinv rb' /\ (size (updateShards rb') <= size (updateShards rb) + batch)%nat /\
  (updateShards rb' = updateShards rb \/ (energy m' ids nodes < energy m ids nodes)%Z) /\
  (forall lo hi, (forall x, x ∈ nodes -> (lo <= load m ids x <= hi)%Z) ->
     forall x, x ∈ nodes -> (lo <= load m' ids x <= hi)%Z).
Proof.
  intros Hne. revert rb. induction batch as [|batch IH]; intros rb Hinv; cbn [rebalanceLoop]; cbv zeta.
  { split_and!; auto; lia. }
  destruct (rebalanceStep _ _ _ _ rb) as [rb1|] eqn:Hstep; [|split_and!; auto; lia].
  destruct (rebalanceStep_spec thr rb rb1 Hne Hinv Hstep) as (s & a & b & Ha & Hb & Hs & Hn & Hu & Ht & Hld & Hinv1).
  destruct (IH rb1 Hinv1) as (Hi & Hsz & He & Hr). clear IH.
  set (info := WithTargetNode (shard_at sm s) b) in *.
  assert (updateShards rb1 ∪ sm = <[s:=info]> (updateShards rb ∪ sm)) as Hm by (by rewrite Hu, insert_union_l).
  assert (shard_at (updateShards rb ∪ sm) s = shard_at sm s) as Hms by (by rewrite shard_at_union, Hn).
  rewrite Hm in *. split_and!; [done| | |].
  - rewrite Hu, map_size_insert_None in Hsz by done. lia.
  - right. assert (energy (<[s:=info]> (updateShards rb ∪ sm)) ids nodes < energy (updateShards rb ∪ sm) ids nodes)%Z.
    { apply (energy_move _ _ _ s info a b); try done. by rewrite Hms. }
    destruct He as [He|He]; [|lia]. rewrite He, Hm. done.
  - intros lo hi Hlh. apply Hr. intros x Hx.
    rewrite (load_move _ ids s info a b x); try done; [|by rewrite Hms|intros ->; lia].
    pose proof (Hlh x Hx). pose proof (Hlh a Ha). pose proof (Hlh b Hb).
    repeat case_decide; subst; lia.
Qed.

End RebalanceInv.

Lemma planRebalance_spec cm sm upd :
  (0 <= numShards cm)%Z -> ShardMapping (state cm) = Some sm -> planRebalance cm = Some upd ->
  let ids := shardIDs cm in
  let nodes := sortedNodes (state cm) in
  exists rb, RBinv sm ids nodes rb /\ updateShards rb = upd /\ upd <> ∅ /\
    (size upd <= Z.to_nat (rebalanceShardsBatchSize cm))%nat /\
    (energy (upd ∪ sm) ids nodes < energy sm ids nodes)%Z /\
    (forall lo hi, (forall x, x ∈ nodes -> (lo <= load sm ids x <= hi)%Z) ->
       forall x, x ∈ nodes -> (lo <= load (upd ∪ sm) ids x <= hi)%Z).
Proof.
  intros Hns Hsm. unfold planRebalance. case_bool_decide as Hsz; [done|]. rewrite Hsm.
  destruct (countTargets _ _ _ _) as [[counts per]|] eqn:Hc; [|done].
  case_bool_decide as He; [done|]. intros [= Hupd]. cbv zeta.
  assert (forall A (x : A) n, (list_to_map ((fun node => (node, x)) <$> sortedNodes (state cm)) : gmap string A) !! n =
    if decide (n ∈ sortedNodes (state cm)) then Some x else None) as Hinit.
  { intros A x n. case_decide as Hn.
    - apply elem_of_list_to_map_1; [|apply list_elem_of_fmap; by exists n].
      rewrite <-list_fmap_compose. unfold compose. simpl. rewrite list_fmap_id. apply sortedNodes_NoDup.
    - apply not_elem_of_list_to_map_1. rewrite <-list_fmap_compose. unfold compose. simpl. by rewrite list_fmap_id. }
  apply (countTargets_spec sm (shardIDs cm) (sortedNodes (state cm)) (NoDup_seqZ _ _) (sortedNodes_NoDup _) []) in Hc as [Hcp _].
  2: done.
  2: { intros n. rewrite Hinit. case_decide; naive_solver. }
  2: { intros n Hn. rewrite !Hinit. by rewrite !decide_True by done. }
  assert (RBinv sm (shardIDs cm) (sortedNodes (state cm)) (mkRB counts per ∅ ∅)) as Hinv.
  { split; simpl; rewrite ?(left_id_L ∅ (∪)).
    - intros n Hn. by apply Hcp.
    - intros n Hn. eexists. split; [by apply Hcp|done].
    - intros s. rewrite lookup_empty. set_solver.
    - intros s i. by rewrite lookup_empty. }
  assert (sortedNodes (state cm) <> []) as Hne.
  { intros Hnil. apply Hsz. by rewrite <-length_sortedNodes, Hnil. }
  assert (numShards cm = Z.of_nat (length (shardIDs cm))) as Hlen
    by (unfold shardIDs; rewrite length_seqZ; lia).
  rewrite Hlen in Hupd, He.
  destruct (rebalanceLoop_spec sm (shardIDs cm) (sortedNodes (state cm)) (NoDup_seqZ _ _) (sortedNodes_NoDup _)
    (imbalanceThreshold cm) (Z.to_nat (rebalanceShardsBatchSize cm)) (mkRB counts per ∅ ∅) Hne Hinv)
    as (Hinv' & Hsize & Hen & Hrange).
  cbn [updateShards] in *. rewrite (left_id_L ∅ (∪)), map_size_empty in *. rewrite Hupd in *.
  eexists. split_and!; [exact Hinv'|done|done|lia|by destruct Hen|done].
Qed.

(** ** Properties: rebalancing, claiming and releasing *)

(** C17: the rebalance batch is safe.  It has at most the configured number of shards, and each of
    them is in range, not pinned, and moves from one live node to another by a change of its target
    only. *)
Theorem rebalance_safe (cm : ConsensusManager) (sm upd : shards) :
  (0 <= numShards cm)%Z -> ShardMapping (state cm) = Some sm -> planRebalance cm = Some upd ->
  (size upd <= Z.to_nat (rebalanceShardsBatchSize cm))%nat /\
  forall s info, upd !! s = Some info ->
    (0 <= s < numShards cm)%Z /\ HasFlag (shard_at sm s) "pinned" = false /\
    info = WithTargetNode (shard_at sm s) (TargetNode info) /\
    TargetNode info ∈ Nodes (state cm) /\ TargetNode (shard_at sm s) ∈ Nodes (state cm).
Proof.
  intros Hn Hsm Hp. destruct (planRebalance_spec cm sm upd Hn Hsm Hp) as (rb & Hinv & <- & _ & Hsz & _).
  split; [done|]. intros s info Hs.
  destruct (inv_upd _ _ _ _ Hinv s info Hs) as (Hid & Hpin & Hw & Ht & Ho).
  apply elem_of_shardIDs in Hid. by rewrite !elem_of_sortedNodes in *.
Qed.

(** Every rebalance batch makes the cluster strictly more even: with the batch applied, the sum
    of the squared per-node shard counts is strictly smaller, and no node's count leaves the range
    between the smallest and the largest count before. *)
Theorem rebalance_improves (cm : ConsensusManager) (sm upd : shards) :
  (0 <= numShards cm)%Z -> ShardMapping (state cm) = Some sm -> planRebalance cm = Some upd ->
  let ids := shardIDs cm in
  let nodes := sortedNodes (state cm) in
  (energy (upd ∪ sm) ids nodes < energy sm ids nodes)%Z /\
  (forall lo hi, (forall x, x ∈ Nodes (state cm) -> (lo <= load sm ids x <= hi)%Z) ->
     forall x, x ∈ Nodes (state cm) -> (lo <= load (upd ∪ sm) ids x <= hi)%Z).
Proof.
  intros Hn Hsm Hp. destruct (planRebalance_spec cm sm upd Hn Hsm Hp) as (rb & _ & _ & _ & _ & He & Hr).
  split; [done|]. intros lo hi Hlh x Hx%elem_of_sortedNodes. apply Hr; [|done].
  intros y Hy%elem_of_sortedNodes. by apply Hlh.
Qed.

(** The manager after a rebalance batch has been stored in full. *)
Definition apply_plan (cm : ConsensusManager) (upd : shards) : ConsensusManager :=
  set_state cm (set_Shards (state cm) (upd ∪ default ∅ (ShardMapping (state cm)))).

(** Rebalance rounds until a round has nothing to do; [None] when the fuel runs out first. *)
Fixpoint rebalanceRounds (fuel : nat) (cm : ConsensusManager) : option ConsensusManager :=
  match fuel with
  | O => None
  | S fuel' =>
      match planRebalance cm with
      | None => Some cm
      | Some upd => rebalanceRounds fuel' (apply_plan cm upd)
      end
  end.

Lemma energy_nonneg m ids nodes : (0 <= energy m ids nodes)%Z.
Proof. unfold energy. induction nodes as [|n nodes IH]; cbn [fmap list_fmap foldr]; [lia|]. nia. Qed.

(** C18: rebalancing comes to rest.  From any manager with a shard mapping, storing one batch after
    the other reaches a mapping with nothing left to move, within as many rounds as the initial sum
    of squared counts; the nodes never change on the way. *)
Theorem rebalance_terminates (cm : ConsensusManager) (sm : shards) :
  (0 <= numShards cm)%Z -> ShardMapping (state cm) = Some sm ->
  exists cm', rebalanceRounds (S (Z.to_nat (energy sm (shardIDs cm) (sortedNodes (state cm))))) cm = Some cm' /\
    planRebalance cm' = None /\ Nodes (state cm') = Nodes (state cm).
Proof.
  intros Hn Hsm. remember (Z.to_nat (energy sm (shardIDs cm) (sortedNodes (state cm)))) as k eqn:Hk.
  assert (energy sm (shardIDs cm) (sortedNodes (state cm)) <= Z.of_nat k)%Z as Hle by lia. clear Hk.
  revert cm sm Hn Hsm Hle. induction k as [|k IH]; intros cm sm Hn Hsm Hle; cbn [rebalanceRounds];
    destruct (planRebalance cm) as [upd|] eqn:Hp; try (by exists cm);
    destruct (planRebalance_spec cm sm upd Hn Hsm Hp) as (rb & _ & _ & _ & _ & He & _).
  - pose proof (energy_nonneg (upd ∪ sm) (shardIDs cm) (sortedNodes (state cm))). lia.
  - destruct (IH (apply_plan cm upd) (upd ∪ sm)) as (cm' & Hr & Hpl & Hno).
    + done.
    + unfold apply_plan. simpl. by rewrite Hsm.
    + unfold apply_plan, shardIDs, sortedNodes in *. simpl in *. lia.
    + exists cm'. split_and!; [exact Hr|done|]. rewrite Hno. done.
Qed.

Definition rebalance_example : ConsensusManager :=
  set_state (NewConsensusManager true 0 "a:1" 6)
    (mkState {["a:1"; "b:1"]} (Some ∅)
       (Some (list_to_map ((fun s => (s, mkShard "a:1" "a:1" (if (s =? 0)%Z then ["pinned"] else []) 3)) <$> seqZ 0 6)))
       "a:1" 2 9 (Some 0%Z)).

Lemma rebalance_safe_witness :
  exists upd, planRebalance rebalance_example = Some upd /\ (size upd <= 1)%nat.
Proof.
  eexists. split; [reflexivity|].
  refine (proj1 (rebalance_safe rebalance_example (default ∅ (ShardMapping (state rebalance_example))) _ _ _ _));
    [apply (bool_decide_unpack _); reflexivity | reflexivity | reflexivity].
Defined.

Lemma rebalance_improves_witness :
  exists upd, planRebalance rebalance_example = Some upd /\
    (energy (upd ∪ default ∅ (ShardMapping (state rebalance_example))) (shardIDs rebalance_example)
       (sortedNodes (state rebalance_example)) <
     energy (default ∅ (ShardMapping (state rebalance_example))) (shardIDs rebalance_example)
       (sortedNodes (state rebalance_example)))%Z.
Proof.
  eexists. split; [reflexivity|].
  refine (proj1 (rebalance_improves rebalance_example (default ∅ (ShardMapping (state rebalance_example))) _ _ _ _));
    [apply (bool_decide_unpack _); reflexivity | reflexivity | reflexivity].
Defined.

Lemma rebalance_terminates_witness :
  exists cm', rebalanceRounds 37 rebalance_example = Some cm' /\ planRebalance cm' = None /\
    Nodes (state cm') = Nodes (state rebalance_example).
Proof.
  refine (rebalance_terminates rebalance_example (default ∅ (ShardMapping (state rebalance_example))) _ _);
    [apply (bool_decide_unpack _); reflexivity | reflexivity].
Defined.
