(* ===== verification/EtcdStore.v ===== *)
(** * The etcd store as the cluster uses it

    etcd is not part of the repository: it is the class [EtcdOps] of the operations the cluster
    calls, with the documented laws the cluster relies on in [EtcdLaws], and an in-memory instance
    [EtcdMem] that satisfies them.  A transaction of the code is always the compare-and-put
    [Txn.If(ModRevision(key) = rev).Then(Put(key, value))].  A commit may also fail with an error,
    before or after etcd applied it; [commit] adds that to the ideal transaction. *)

From S2P Require Import Prelude GoStrings ConsensusState.
Import Consensus.

Class EtcdOps (S : Type) : Type := {
  etcd_ok : S -> Prop;                                   (* a store etcd can be in *)
  etcd_get : S -> string -> option (string * Z);         (* value and ModRevision of a key *)
  etcd_rev : S -> Z;                                     (* the store's revision, Header.Revision *)
  etcd_txn_put : S -> string -> Z -> string -> S * bool; (* compare ModRevision, put; Succeeded *)
  etcd_range : S -> string -> list KeyValue              (* Get with a prefix *)
}.

(** A missing key has ModRevision 0. *)
Definition mod_rev {S} `{EtcdOps S} (s : S) (key : string) : Z :=
  match etcd_get s key with Some (_, r) => r | None => 0 end.

Class EtcdLaws (S : Type) `{EtcdOps S} : Prop := {
  etcd_rev_nonneg : forall s, etcd_ok s -> (0 <= etcd_rev s)%Z;
  etcd_rev_bound : forall s key v r, etcd_ok s -> etcd_get s key = Some (v, r) -> (0 < r <= etcd_rev s)%Z;
  etcd_txn_hit : forall s key e v s' b, etcd_ok s -> mod_rev s key = e -> etcd_txn_put s key e v = (s', b) ->
    b = true /\ etcd_ok s' /\ (etcd_rev s < etcd_rev s')%Z /\ etcd_get s' key = Some (v, etcd_rev s') /\
    (forall key', key' <> key -> etcd_get s' key' = etcd_get s key');
  etcd_txn_miss : forall s key e v, mod_rev s key <> e -> etcd_txn_put s key e v = (s, false);
  etcd_range_spec : forall s p kv, etcd_ok s ->
    kv ∈ etcd_range s p <-> HasPrefix (Key kv) p = true /\ etcd_get s (Key kv) = Some (Value kv, KvModRevision kv)
}.

(** ** The in-memory store *)

Record EtcdMem : Type := mkMem { mem_kv : gmap string (string * Z); mem_rev : Z }.

#[global] Instance EtcdMem_ops : EtcdOps EtcdMem := {|
  etcd_ok s := (0 <= mem_rev s)%Z /\ forall key v r, mem_kv s !! key = Some (v, r) -> (0 < r <= mem_rev s)%Z;
  etcd_get s key := mem_kv s !! key;
  etcd_rev := mem_rev;
  etcd_txn_put s key e v :=
    if (match mem_kv s !! key with Some (_, r) => r | None => 0 end =? e)%Z
    then (mkMem (<[key := (v, mem_rev s + 1)%Z]> (mem_kv s)) (mem_rev s + 1)%Z, true)
    else (s, false);
  etcd_range s p :=
    (fun '(k, (v, r)) => mkKV k v r) <$>
      filter (fun kv => HasPrefix kv.1 p = true) (map_to_list (mem_kv s))
|}.

#[global] Instance EtcdMem_laws : EtcdLaws EtcdMem.
Proof.
  split.
  - by intros s [? _].
  - intros s key v r [_ Hb]. apply Hb.
  - intros s key e v s' b [H0 Hb] <- Ht. unfold mod_rev in Ht. simpl in Ht. rewrite Z.eqb_refl in Ht.
    simplify_eq. simpl. split_and!; try done; [| |lia| |].
    + lia.
    + intros k v' r'. rewrite lookup_insert. case_decide; [intros [= <- <-]; lia|].
      intros Hk%Hb. lia.
    + by rewrite lookup_insert_eq.
    + intros k' Hk. by rewrite lookup_insert_ne.
  - intros s key e v He. unfold mod_rev in He. simpl in *. by rewrite (proj2 (Z.eqb_neq _ _) He).
  - intros s p [k v r] _. simpl. rewrite list_elem_of_fmap. split.
    + intros ([k' [v' r']] & Heq & Hin). simplify_eq. apply list_elem_of_filter in Hin as [Hp Hin].
      by apply elem_of_map_to_list in Hin.
    + intros [Hp Hg]. exists (k, (v, r)). split; [done|].
      apply list_elem_of_filter. split; [done|]. by apply elem_of_map_to_list.
Qed.

(** ** Commits that may fail *)

Section Commit.
Context {S : Type} `{EtcdOps S}.

(** [client.Txn(ctx).If(...).Then(...).Commit()]: the store, and [Succeeded] or an error *)
Definition commit (s : S) (key : string) (expected : Z) (value : string) (f : fault)
    : S * result string bool :=
  match f with
  | NoFault => let '(s', b) := etcd_txn_put s key expected value in (s', Ok b)
  | FailBefore msg => (s, Err msg)
  | FailAfter msg => (fst (etcd_txn_put s key expected value), Err msg)
  end.

End Commit.

Section CommitLaws.
Context {S : Type} `{EtcdLaws S}.

(** A commit either leaves the store alone or is the one compare-and-put, made on a key whose
    revision was the expected one. *)
Lemma commit_cases s key e v f s' r :
  etcd_ok s -> commit s key e v f = (s', r) ->
  (s' = s /\ r <> Ok true) \/
  (mod_rev s key = e /\ etcd_ok s' /\ (etcd_rev s < etcd_rev s')%Z /\ etcd_get s' key = Some (v, etcd_rev s') /\
   (forall key', key' <> key -> etcd_get s' key' = etcd_get s key') /\ r <> Ok false).
Proof.
  intros Hok Hc. destruct (decide (mod_rev s key = e)) as [He|Hne].
  - destruct f; simpl in Hc; [| |]; destruct (etcd_txn_put s key e v) as [s1 b] eqn:Ht.
    + destruct (etcd_txn_hit s key e v s1 b Hok He Ht) as (-> & ? & ? & ? & ?). simplify_eq. right. naive_solver.
    + simplify_eq. left. naive_solver.
    + destruct (etcd_txn_hit s key e v s1 b Hok He Ht) as (-> & ? & ? & ? & ?). simplify_eq. right. naive_solver.
  - left. pose proof (etcd_txn_miss s key e v Hne) as Ht.
    destruct f; simpl in Hc; rewrite ?Ht in Hc; simplify_eq; naive_solver.
Qed.

End CommitLaws.
