(* ===== verification/ConsensusStore.v ===== *)
(** * The consensus manager's writes to etcd (cluster/consensusmanager)

    [storeShardMapping] and the operations built on it: claim, release, reassign, reallocate,
    rebalance, and the leader election [TryBecomeLeader].  The store is any instance of the etcd
    interface.  A write task is a commit followed by the update of the in-memory mapping; the tasks
    of one call run in the order the caller's map iteration and the worker pool give, an argument.
    [None] is the write to a nil shard mapping. *)

From S2P Require Import Prelude GoStrings GoFloat ObjectId ConsensusState ConsensusPlan EtcdStore.
Import Sharding Parser Float64 Shards Consensus Plan.

(** [categorizeEtcdError]; the two context errors are recognised by identity. *)
Inductive go_err : Type :=
| DeadlineExceeded
| Canceled
| OtherErr (msg : string).

Definition err_msg (e : go_err) : string :=
  match e with
  | DeadlineExceeded => "context deadline exceeded"
  | Canceled => "context canceled"
  | OtherErr m => m
  end.

Fixpoint strContains (s sub : string) : bool :=
  HasPrefix s sub || match s with String _ s' => strContains s' sub | EmptyString => false end.

Definition categorizeEtcdError (err : option go_err) : string :=
  match err with
  | None => "other"
  | Some DeadlineExceeded | Some Canceled => "timeout"
  | Some e =>
      let errMsg := err_msg e in
      if strContains errMsg "connection refused" || strContains errMsg "connection reset" ||
         strContains errMsg "broken pipe" || strContains errMsg "no such host" ||
         strContains errMsg "network is unreachable" || strContains errMsg "etcd client not connected"
      then "connection_error"
      else if strContains errMsg "deadline exceeded" || strContains errMsg "context deadline exceeded"
      then "timeout"
      else "other"
  end.

Module Store.
Section Ops.
Context {S : Type} `{EtcdOps S}.
Context (prefix : string).

Definition shardKey (id : Z) : string := prefix +:+ "/shard/" +:+ Itoa id.

(** The in-memory half of a write task: keep ModRevision in sync before the watch event arrives *)
Definition recordShard (cm : ConsensusManager) (id : Z) (info : ShardInfo) (revision : Z)
    : option ConsensusManager :=
  match ShardMapping (state cm) with
  | None => None
  | Some sm =>
      if (ModRevision (shard_at sm id) <? revision)%Z
      then Some (set_state cm (set_Shards (state cm)
             (<[id := mkShard (TargetNode info) (CurrentNode info) (Flags info) revision]> sm)))
      else Some cm
  end.

(** One write task of [storeShardMapping] *)
Definition storeTask (cm : ConsensusManager) (s : S) (id : Z) (info : ShardInfo) (f : fault)
    : option (ConsensusManager * S * option cm_error) :=
  let '(s', r) := commit s (shardKey id) (ModRevision info) (formatShardInfo info) f in
  match r with
  | Err msg => Some (cm, s', Some (ErrTxn msg))
  | Ok false => Some (cm, s', Some (ErrModRevisionMismatch id (ModRevision info)))
  | Ok true =>
      match recordShard cm id info (etcd_rev s') with
      | Some cm' => Some (cm', s', None)
      | None => None
      end
  end.

(** The tasks in order: the success count and the first error *)
Fixpoint storeTasks (cm : ConsensusManager) (s : S) (tasks : list (Z * ShardInfo * fault))
    : option (ConsensusManager * S * nat * option cm_error) :=
  match tasks with
  | [] => Some (cm, s, O, None)
  | (id, info, f) :: rest =>
      match storeTask cm s id info f with
      | None => None
      | Some (cm1, s1, err) =>
          match storeTasks cm1 s1 rest with
          | None => None
          | Some (cm2, s2, n, err') =>
              match err with
              | None => Some (cm2, s2, Datatypes.S n, err')
              | Some e => Some (cm2, s2, n, Some e)
              end
          end
      end
  end.

(** [storeShardMapping]: [connected] is whether [GetClient] is non-nil.  The results are the success
    count, the first error and whether listeners are notified. *)
Definition storeShardMapping (cm : ConsensusManager) (s : S) (connected : bool)
    (tasks : list (Z * ShardInfo * fault))
    : option (ConsensusManager * S * (nat * option cm_error * bool)) :=
  if negb (etcdManager cm) then Some (cm, s, (O, Some ErrEtcdManagerNotSet, false))
  else if negb connected then Some (cm, s, (O, Some ErrEtcdClientNotConnected, false))
  else match storeTasks cm s tasks with
  | None => None
  | Some (cm', s', n, err) => Some (cm', s', (n, err, (0 <? n)%nat))
  end.

(** A task list is an execution of an update map. *)
Definition tasks_of (upd : shards) (tasks : list (Z * ShardInfo * fault)) : Prop :=
  tasks.*1 ≡ₚ map_to_list upd.

(** The schedule of an update map: an order of its entries with the fault of each *)
Abbreviation schedule := (shards -> list (Z * ShardInfo * fault)).

(** [ClaimShardsForNode] *)
Definition ClaimShardsForNode (cm : ConsensusManager) (s : S) (connected : bool) (sched : schedule) (now : Z)
    : option (ConsensusManager * S * result cm_error unit) :=
  if negb (IsStateStable cm now) then Some (cm, s, Err ErrNotStable)
  else match shardsToClaim cm with
  | None => None
  | Some upd =>
      if bool_decide (upd = ∅) then Some (cm, s, Ok tt)
      else match storeShardMapping cm s connected (sched upd) with
      | None => None
      | Some (cm', s', (_, Some e, _)) => Some (cm', s', Err e)
      | Some (cm', s', (_, None, _)) => Some (cm', s', Ok tt)
      end
  end.

(** [ReleaseShardsForNode] *)
Definition ReleaseShardsForNode (cm : ConsensusManager) (s : S) (connected : bool) (sched : schedule) (now : Z)
    (localObjectsPerShard : gmap Z Z) : option (ConsensusManager * S * result cm_error unit) :=
  let localNode := localNodeAddress cm in
  if bool_decide (localNode = "") then Some (cm, s, Err ErrLocalNodeEmpty)
  else if negb (IsStateStable cm now) then Some (cm, s, Ok tt)
  else match calcReleaseShardsForNode cm localNode localObjectsPerShard with
  | None => Some (cm, s, Ok tt)
  | Some upd =>
      match storeShardMapping cm s connected (sched upd) with
      | None => None
      | Some (cm', s', (_, Some e, _)) => Some (cm', s', Err e)
      | Some (cm', s', (_, None, _)) => Some (cm', s', Ok tt)
      end
  end.

(** [ReassignShardTargetNodes] *)
Definition ReassignShardTargetNodes (cm : ConsensusManager) (s : S) (connected : bool) (sched : schedule)
    (shuffle : list Z -> list Z) (offset : nat) : option (ConsensusManager * S * (nat * option cm_error)) :=
  match calcReassignShardTargetNodes cm shuffle offset with
  | None => Some (cm, s, (O, None))
  | Some upd =>
      match storeShardMapping cm s connected (sched upd) with
      | None => None
      | Some (cm', s', (n, err, _)) => Some (cm', s', (n, err))
      end
  end.

(** [ReallocateStuckShards] *)
Definition ReallocateStuckShards (cm : ConsensusManager) (s : S) (connected : bool) (sched : schedule) (now : Z)
    : option (ConsensusManager * S * (nat * option cm_error)) :=
  match ShardMapping (state cm), calcReallocateStuckShards cm now with
  | Some _, Some (cm1, None) => Some (cm1, s, (O, None))
  | Some _, Some (cm1, Some upd) =>
      match storeShardMapping cm1 s connected (sched upd) with
      | None => None
      | Some (cm', s', (n, err, _)) => Some (cm', s', (n, err))
      end
  | _, _ => None
  end.

(** [RebalanceShards] *)
Definition RebalanceShards (cm : ConsensusManager) (s : S) (connected : bool) (sched : schedule)
    : option (ConsensusManager * S * result cm_error bool) :=
  match planRebalance cm with
  | None => Some (cm, s, Ok false)
  | Some upd =>
      match storeShardMapping cm s connected (sched upd) with
      | None => None
      | Some (cm', s', (_, Some e, _)) => Some (cm', s', Err e)
      | Some (cm', s', (n, None, _)) => Some (cm', s', Ok (0 <? n)%nat)
      end
  end.

(** [TryBecomeLeader]: the boolean is whether listeners are notified *)
Definition TryBecomeLeader (cm : ConsensusManager) (s : S) (connected : bool) (f : fault)
    : ConsensusManager * S * (result cm_error unit * bool) :=
  let st := state cm in
  let currentLeader := Leader st in
  let leaderModRevision := LeaderModRevision st in
  if bool_decide (currentLeader <> "") && bool_decide (currentLeader ∈ Nodes st) then (cm, s, (Ok tt, false))
  else if bool_decide (currentLeader = localNodeAddress cm) then (cm, s, (Ok tt, false))
  else if negb (bool_decide (localNodeAddress cm ∈ Nodes st))
  then (cm, s, (Err (ErrSelfNotInCluster (localNodeAddress cm)), false))
  else if negb connected then (cm, s, (Err ErrEtcdClientNotConnected, false))
  else
    let '(s', r) := commit s (prefix +:+ "/leader") leaderModRevision (localNodeAddress cm) f in
    match r with
    | Err msg => (cm, s', (Err (ErrTxn msg), false))
    | Ok false => (cm, s', (Ok tt, false))
    | Ok true =>
        let cm' := if (LeaderModRevision st <? etcd_rev s')%Z
                   then set_state cm (set_Leader st (localNodeAddress cm) (etcd_rev s') (LastChange st))
                   else cm in
        (cm', s', (Ok tt, true))
    end.

End Ops.
End Store.
Import Store.

(** ** Lemmas *)

Lemma append_cancel_l a b c : a +:+ b = a +:+ c -> b = c.
Proof. induction a; simpl; [done|]. intros [= ?]. auto. Qed.

Lemma shardKey_inj prefix a b : in_int64 a -> in_int64 b -> shardKey prefix a = shardKey prefix b -> a = b.
Proof.
  unfold shardKey. intros Ha Hb Heq. apply append_cancel_l in Heq.
  apply (append_cancel_l "/shard/") in Heq. by apply Itoa_inj.
Qed.

Lemma recordShard_spec cm sm id info r :
  ShardMapping (state cm) = Some sm ->
  exists sm', recordShard cm id info r = Some (set_state cm (set_Shards (state cm) sm')) /\
    sm' = if (ModRevision (shard_at sm id) <? r)%Z
          then <[id := mkShard (TargetNode info) (CurrentNode info) (Flags info) r]> sm else sm.
Proof.
  intros Hsm. unfold recordShard. rewrite Hsm. case_match; eexists; (split; [|done]); [done|].
  destruct cm, state0; simpl in *; by subst.
Qed.

Section StoreLaws.
Context {S : Type} `{EtcdLaws S}.
Context (prefix : string).

(** What happened to one shard: its key and its cached entry. *)
Definition shard_state (cm : ConsensusManager) (s : S) (id : Z) : option (string * Z) * ShardInfo :=
  (etcd_get s (shardKey prefix id), shard_at (default ∅ (ShardMapping (state cm))) id).

(** A task succeeds exactly when nothing fails and the revision it was planned on is current. *)
Definition will_commit (s : S) (t : Z * ShardInfo * fault) : Prop :=
  t.2 = NoFault /\ mod_rev s (shardKey prefix t.1.1) = ModRevision t.1.2.

(** One write task: exactly one of the three outcomes, and nothing else changes. *)
Lemma storeTask_spec cm s id info f sm :
  etcd_ok s -> ShardMapping (state cm) = Some sm -> in_int64 id ->
  exists cm' s' err, storeTask prefix cm s id info f = Some (cm', s', err) /\ etcd_ok s' /\
    is_Some (ShardMapping (state cm')) /\ (etcd_rev s <= etcd_rev s')%Z /\
    ((forall j, (ModRevision (shard_at sm j) <= etcd_rev s)%Z) ->
     forall j, (ModRevision (shard_at (default ∅ (ShardMapping (state cm'))) j) <= etcd_rev s')%Z) /\
    (forall id', in_int64 id' -> id' <> id -> shard_state cm' s' id' = shard_state cm s id') /\
    (err = None <-> will_commit s (id, info, f)) /\
    (mod_rev s (shardKey prefix id) <> ModRevision info -> shard_state cm' s' id = shard_state cm s id) /\
    (err = None -> (ModRevision (shard_at sm id) <= etcd_rev s)%Z ->
       shard_state cm' s' id =
         (Some (formatShardInfo info, etcd_rev s'),
          mkShard (TargetNode info) (CurrentNode info) (Flags info) (etcd_rev s')) /\ (etcd_rev s < etcd_rev s')%Z).
Proof.
  intros Hok Hsm Hid. unfold storeTask, will_commit. cbn [fst snd].
  destruct (commit s _ _ _ f) as [s' r] eqn:Hc. pose proof (commit_cases _ _ _ _ _ _ _ Hok Hc) as Hcc.
  assert (forall b, r = Ok b -> f = NoFault) as HfN by (intros b ->; destruct f; simpl in Hc; [done|done|]; by destruct (etcd_txn_put _ _ _ _)).
  destruct Hcc as [(-> & Hr)|(He & Hok' & Hrev & Hget & Hoth & Hr)].
  - assert (forall e, exists cm' s' err, Some (cm, s, Some e : option cm_error) = Some (cm', s', err) /\ etcd_ok s' /\
      is_Some (ShardMapping (state cm')) /\ (etcd_rev s <= etcd_rev s')%Z /\
      ((forall j, (ModRevision (shard_at sm j) <= etcd_rev s)%Z) ->
       forall j, (ModRevision (shard_at (default ∅ (ShardMapping (state cm'))) j) <= etcd_rev s')%Z) /\
      (forall id', in_int64 id' -> id' <> id -> shard_state cm' s' id' = shard_state cm s id') /\
      err = Some e /\ shard_state cm' s' id = shard_state cm s id) as Hnop.
    { intros e. eexists _, _, _. split_and!; try done; by rewrite Hsm. }
    assert (f = NoFault -> mod_rev s (shardKey prefix id) = ModRevision info -> False) as Hno.
    { intros -> Hm. simpl in Hc. destruct (etcd_txn_put s _ _ _) as [s1 b] eqn:Ht.
      destruct (etcd_txn_hit _ _ _ _ _ _ Hok Hm Ht) as (-> & _). simplify_eq. }
    destruct r as [[]|msg]; [done| |];
      [destruct (Hnop (ErrModRevisionMismatch id (ModRevision info))) as (c & s0 & err & ? & ? & ? & ? & ? & ? & -> & ?)
      |destruct (Hnop (ErrTxn msg)) as (c & s0 & err & ? & ? & ? & ? & ? & ? & -> & ?)];
      exists c, s0; eexists; split_and!; naive_solver.
  - destruct r as [[]|msg]; [|done|].
    + destruct (recordShard_spec cm sm id info (etcd_rev s') Hsm) as (sm' & -> & Hsm').
      eexists _, _, _. split; [done|]. unfold shard_state. simpl.
      split_and!; try done; try lia; try naive_solver.
      * intros Hcoh j. specialize (Hcoh j). rewrite Hsm'. case_match; [|lia]. rewrite shard_at_insert.
        case_decide; simpl; lia.
      * intros id' Hid' Hne. rewrite Hoth by (intros Hk; by apply shardKey_inj in Hk). rewrite Hsm. simpl. f_equal.
        rewrite Hsm'. case_match; [|done]. rewrite shard_at_insert, decide_False by done. done.
      * intros _ Hle. split; [|done]. rewrite Hget. f_equal. rewrite Hsm'.
        rewrite (proj2 (Z.ltb_lt _ _)) by lia. by rewrite shard_at_insert, decide_True.
    + eexists _, _, _. split; [done|]. split_and!; try done; try lia; try naive_solver.
      * rewrite Hsm. intros Hcoh j. specialize (Hcoh j). simpl. lia.
      * intros id' Hid' Hne. unfold shard_state. by rewrite Hoth by (intros Hk; by apply shardKey_inj in Hk).
      * split; [done|]. intros [-> _]. simpl in Hc. by destruct (etcd_txn_put _ _ _ _).
Qed.

#[global] Instance will_commit_dec s t : Decision (will_commit s t).
Proof. unfold will_commit. apply _. Defined.

Lemma shard_state_mod_rev cm cm' s s' id :
  shard_state cm' s' id = shard_state cm s id -> mod_rev s' (shardKey prefix id) = mod_rev s (shardKey prefix id).
Proof. unfold shard_state, mod_rev. intros [= Hg _]. by rewrite Hg. Qed.

(** All the tasks of one call, which concern different shards. *)
Lemma storeTasks_spec tasks cm s :
  etcd_ok s -> is_Some (ShardMapping (state cm)) ->
  NoDup (fst <$> tasks.*1) -> Forall (fun t => in_int64 t.1.1) tasks ->
  (forall id, (ModRevision (shard_at (default ∅ (ShardMapping (state cm))) id) <= etcd_rev s)%Z) ->
  exists cm' s' n err, storeTasks prefix cm s tasks = Some (cm', s', n, err) /\ etcd_ok s' /\
    (etcd_rev s <= etcd_rev s')%Z /\
    n = length (filter (will_commit s) tasks) /\ (err = None <-> n = length tasks) /\
    (forall id, in_int64 id -> id ∉ (fst <$> tasks.*1) -> shard_state cm' s' id = shard_state cm s id) /\
    (forall id info f, (id, info, f) ∈ tasks ->
       (will_commit s (id, info, f) -> exists r, (etcd_rev s < r)%Z /\ shard_state cm' s' id =
          (Some (formatShardInfo info, r), mkShard (TargetNode info) (CurrentNode info) (Flags info) r)) /\
       (mod_rev s (shardKey prefix id) <> ModRevision info -> shard_state cm' s' id = shard_state cm s id)).
Proof.
  revert cm s. induction tasks as [|[[id info] f] tasks IH]; intros cm s Hok Hsm Hnd HF Hcoh; cbn [storeTasks].
  { eexists _, _, _, _. split_and!; try done; try lia. by intros ??? ?%elem_of_nil. }
  cbn [fmap list_fmap fst snd] in Hnd. apply NoDup_cons in Hnd as [Hid Hnd]. apply Forall_cons in HF as [Hi HF].
  cbn [fst] in Hi. destruct Hsm as [sm Hsm].
  destruct (storeTask_spec cm s id info f sm Hok Hsm Hi)
    as (cm1 & s1 & err1 & -> & Hok1 & Hsm1 & Hrev1 & Hcoh1 & Hoth1 & Herr1 & Hmiss1 & Hhit1).
  rewrite Hsm in Hcoh. specialize (Hcoh1 Hcoh).
  destruct (IH cm1 s1 Hok1 Hsm1 Hnd HF Hcoh1) as (cm2 & s2 & n & err & -> & Hok2 & Hrev2 & Hn & Herr & Hoth2 & Htask2).
  assert (forall t, t ∈ tasks -> will_commit s1 t <-> will_commit s t) as Hwc.
  { intros [[j i] g] Hin. unfold will_commit. simpl. rewrite (shard_state_mod_rev cm cm1 s s1); [done|].
    apply Hoth1; [rewrite Forall_forall in HF; by apply (HF (j, i, g))|]. intros ->. apply Hid.
    apply list_elem_of_fmap. exists (id, i). split; [done|]. apply list_elem_of_fmap. by exists (id, i, g). }
  assert (filter (will_commit s1) tasks = filter (will_commit s) tasks) as Hflt.
  { clear -Hwc. induction tasks as [|t tasks IH]; [done|]. rewrite !filter_cons.
    rewrite IH by (intros; apply Hwc; by right). pose proof (Hwc t ltac:(by left)). repeat case_decide; naive_solver. }
  rewrite Hflt in Hn. rewrite filter_cons.
  exists cm2, s2.
  assert (length (filter (will_commit s) tasks) <= length tasks)%nat as Hlen by apply length_filter.
  exists (match err1 with None => Datatypes.S n | Some _ => n end), (match err1 with None => err | Some e => Some e end).
  split; [by destruct err1|]. cbn [length].
  split_and!; [done|lia| | | |].
  - destruct err1, (decide (will_commit s (id, info, f))); simpl; naive_solver.
  - destruct err1; simpl; [split; [done|lia]|]. rewrite Herr. lia.
  - intros j Hj Hnin. cbn [fmap list_fmap fst] in Hnin. apply not_elem_of_cons in Hnin as [Hne Hnin].
    rewrite Hoth2 by done. by apply Hoth1.
  - intros j i g [Heq|Hin]%elem_of_cons.
    + injection Heq as -> -> ->. rewrite Hoth2 by done. split; [|apply Hmiss1].
      intros Hw. destruct (Hhit1 (proj2 Herr1 Hw)) as [Hst Hlt]; [apply Hcoh|]. eauto.
    + destruct (Htask2 j i g Hin) as [Hh Hm]. rewrite Forall_forall in HF. pose proof (HF _ Hin) as Hj. simpl in Hj.
      assert (j <> id) as Hji.
      { intros ->. apply Hid. apply list_elem_of_fmap. exists (id, i). split; [done|].
        apply list_elem_of_fmap. by exists (id, i, g). }
      pose proof (Hoth1 j Hj Hji) as Hsame. split.
      * intros Hw%(Hwc _ Hin). destruct (Hh Hw) as (r & Hr & Hst). exists r. split; [lia|done].
      * intros Hw. rewrite Hm; [done|]. by rewrite (shard_state_mod_rev cm cm1 s s1).
Qed.

End StoreLaws.

(** ** Properties *)

(** C13: [storeShardMapping] is a compare-and-swap per shard.  With the etcd manager set and the client
    connected, on any list of write tasks for different shards, in any order and with any commit
    failing, it returns; the success count is the number of tasks that hit no fault and whose shard
    still has in etcd the revision the update was planned on; every such shard holds the new record in
    etcd and in memory at one fresh revision; a shard whose revision has moved on is not touched, in
    etcd or in memory; no other shard changes; and no error is reported only when all tasks succeeded. *)
Theorem storeShardMapping_cas {S : Type} `{EtcdLaws S} (prefix : string) (cm : ConsensusManager) (s : S)
    (tasks : list (Z * ShardInfo * fault)) :
  etcdManager cm = true -> etcd_ok s -> is_Some (ShardMapping (state cm)) ->
  NoDup (fst <$> tasks.*1) -> Forall (fun t => in_int64 t.1.1) tasks ->
  (forall id, (ModRevision (shard_at (default ∅ (ShardMapping (state cm))) id) <= etcd_rev s)%Z) ->
  exists cm' s' n err notify, storeShardMapping prefix cm s true tasks = Some (cm', s', (n, err, notify)) /\
    n = length (filter (will_commit prefix s) tasks) /\ (err = None <-> n = length tasks) /\
    (forall id, in_int64 id -> id ∉ (fst <$> tasks.*1) -> shard_state prefix cm' s' id = shard_state prefix cm s id) /\
    (forall id info f, (id, info, f) ∈ tasks ->
       (will_commit prefix s (id, info, f) -> exists r, (etcd_rev s < r)%Z /\ shard_state prefix cm' s' id =
          (Some (formatShardInfo info, r), mkShard (TargetNode info) (CurrentNode info) (Flags info) r)) /\
       (mod_rev s (shardKey prefix id) <> ModRevision info ->
          shard_state prefix cm' s' id = shard_state prefix cm s id)).
Proof.
  intros He Hok Hsm Hnd HF Hcoh. unfold storeShardMapping. rewrite He. simpl.
  destruct (storeTasks_spec prefix tasks cm s Hok Hsm Hnd HF Hcoh)
    as (cm' & s' & n & err & -> & _ & _ & Hn & Herr & Ho & Ht).
  exists cm', s', n, err, (0 <? n)%nat. auto.
Qed.

Lemma storeShardMapping_cas_witness :
  let cm := NewConsensusManager true 0 "a:1" 8 in
  let s := mkMem {[ "/g/shard/2" := ("b:1,b:1", 4%Z) ]} 4 in
  let tasks := [(1%Z, mkShard "a:1" "" [] 0, NoFault); (2%Z, mkShard "a:1" "" [] 0, NoFault)] in
  exists cm' s' n err notify, storeShardMapping "/g" cm s true tasks = Some (cm', s', (n, err, notify)) /\
    n = length (filter (will_commit "/g" s) tasks).
Proof.
  intros cm s tasks.
  destruct (storeShardMapping_cas "/g" cm s tasks) as (cm' & s' & n & err & notify & H1 & H2 & _).
  - reflexivity.
  - split; [by apply (bool_decide_unpack _)|]. intros k v r Hk.
    unfold s in Hk. simpl in Hk. apply lookup_singleton_Some in Hk as [_ [= _ <-]]. simpl. lia.
  - eexists; reflexivity.
  - by apply (bool_decide_unpack _).
  - repeat constructor; simpl; lia.
  - intros id. unfold cm, NewConsensusManager. simpl. unfold shard_at. rewrite lookup_empty. simpl. lia.
  - by exists cm', s', n, err, notify.
Defined.

(** A leader election has one winner.  Two nodes that saw the same revision of the leader key both
    try to become the leader: once the first has won (it saw no live leader, was itself in the cluster,
    and the key still had that revision), the second changes neither etcd nor its own view. *)
Theorem leader_election_exclusive {S : Type} `{EtcdLaws S} (prefix : string) (s s1 : S)
    (cm1 cm2 cm1' : ConsensusManager) (f f2 : fault) (r : result cm_error unit) :
  etcd_ok s -> LeaderModRevision (state cm1) = LeaderModRevision (state cm2) ->
  (LeaderModRevision (state cm1) <= etcd_rev s)%Z ->
  TryBecomeLeader prefix cm1 s true f = (cm1', s1, (r, true)) ->
  Leader (state cm1') = localNodeAddress cm1 /\
  etcd_get s1 (prefix +:+ "/leader") = Some (localNodeAddress cm1, LeaderModRevision (state cm1')) /\
  localNodeAddress cm1 ∈ Nodes (state cm1) /\
  (Leader (state cm1) = "" \/ Leader (state cm1) ∉ Nodes (state cm1)) /\
  exists r2, TryBecomeLeader prefix cm2 s1 true f2 = (cm2, s1, (r2, false)).
Proof.
  intros Hok Hrev Hle HT. unfold TryBecomeLeader in HT.
  destruct (bool_decide (Leader (state cm1) <> "") && bool_decide (Leader (state cm1) ∈ Nodes (state cm1))) eqn:E1; [done|].
  destruct (bool_decide (Leader (state cm1) = localNodeAddress cm1)); [done|].
  destruct (bool_decide (localNodeAddress cm1 ∈ Nodes (state cm1))) eqn:E2; [|done]. cbn [negb] in HT.
  destruct (commit s _ _ _ f) as [s' [[]|]] eqn:Hc; simplify_eq.
  destruct (commit_cases _ _ _ _ _ _ _ Hok Hc) as [[_ ?]|(Hm & Hok1 & Hlt & Hget & _)]; [done|].
  rewrite (proj2 (Z.ltb_lt _ _)) by lia. simpl. breflect.
  split_and!; try done.
  - rewrite andb_false_iff in E1. destruct E1; breflect; [left; by apply dec_stable|by right].
  - unfold TryBecomeLeader. repeat (case_match; [by eexists|]). 
    assert (mod_rev s1 (prefix +:+ "/leader") <> LeaderModRevision (state cm2)) as Hmiss
      by (unfold mod_rev; rewrite Hget; lia).
    pose proof (etcd_txn_miss _ _ _ (localNodeAddress cm2) Hmiss) as Ht.
    destruct f2; simpl; rewrite ?Ht; by eexists.
Qed.

Definition voter : ConsensusManager :=
  set_state (NewConsensusManager true 0 "a:1" 2) (mkState {["a:1"]} (Some ∅) (Some ∅) "" 0 1 (Some 0%Z)).
Definition leader_mgr : ConsensusManager := set_state voter (set_Leader (state voter) "a:1" 2 (Some 0%Z)).
Definition leader_store : EtcdMem := mkMem {[ "/g/leader" := ("a:1", 2%Z) ]} 2.

Lemma leader_election_exclusive_witness :
  exists r2, TryBecomeLeader "/g" voter leader_store true NoFault = (voter, leader_store, (r2, false)).
Proof.
  refine (proj2 (proj2 (proj2 (proj2 (leader_election_exclusive "/g" (mkMem ∅ 1) leader_store voter voter
    leader_mgr NoFault NoFault (Ok tt) _ _ _ _))))).
  - split; [done|intros k v r Hk; simpl in Hk; by rewrite lookup_empty in Hk].
  - reflexivity.
  - apply (bool_decide_unpack _). reflexivity.
  - vm_compute. reflexivity.
Defined.
