(* ===== verification/ConsensusSettle.v ===== *)
(** * A cluster settles

    The shard operations of several nodes, run one after the other without failures, each by a manager
    that has caught up with etcd (ConsensusWatch.v shows that it can) while the set of live nodes does not
    change: the leader's reassignment, reallocation of stuck shards and rebalancing, releases and claims.
    [stage] says what a shard's record still needs: a live target, a release by its owner, a claim
    by its target, or nothing.  Only a rebalancing that moves a shard raises it, and the operation of the
    responsible node lowers it; so that after a reassignment, every round of a release by every node and a claim by
    every node ends with every shard served by its target, unless a rebalancing moved a shard meanwhile; each of
    these lowers [energy], the sum of the squared loads, so that only finitely many rounds are disturbed. *)

From S2P Require Import Prelude GoStrings GoFloat ObjectId ConsensusState ConsensusPlan EtcdStore ConsensusStore.
From stdpp Require Import list_numbers.
Import Sharding Parser Float64 Shards Consensus Plan Store.

Section Stages.
Context (live : gset string).

(** What a record still needs: 3 a live target, 2 a release, 1 a claim, 0 nothing *)
Definition stage (info : ShardInfo) : nat :=
  if bool_decide (TargetNode info ∉ live) then 3
  else if bool_decide (CurrentNode info = TargetNode info) then 0
  else if bool_decide (CurrentNode info = "") || bool_decide (CurrentNode info ∉ live) then 1
  else 2.

(** [new] as etcd returns it after a write *)
Definition same_record (a b : ShardInfo) : Prop := TargetNode a = TargetNode b /\ CurrentNode a = CurrentNode b /\ Flags a = Flags b.

Lemma stage_same a b : same_record a b -> stage a = stage b.
Proof. intros (Ht & Hc & _). unfold stage. by rewrite Ht, Hc. Qed.

Lemma stage_2 a : stage a = 2%nat -> TargetNode a ∈ live /\ CurrentNode a ∈ live /\ CurrentNode a <> TargetNode a.
Proof.
  unfold stage. destruct (decide (TargetNode a ∈ live)), (decide (CurrentNode a ∈ live)); repeat case_bool_decide; cbn; naive_solver.
Qed.

Lemma stage_le_2 a : (stage a <= 2)%nat <-> TargetNode a ∈ live.
Proof.
  unfold stage. destruct (decide (TargetNode a ∈ live)); [rewrite bool_decide_eq_false_2 by auto|rewrite bool_decide_eq_true_2 by auto; split; [lia|done]].
  split; [done|]. intros _. repeat case_bool_decide; cbn; lia.
Qed.

Lemma stage_1 a : stage a = 1%nat -> TargetNode a ∈ live /\ (CurrentNode a = "" \/ CurrentNode a ∉ live).
Proof. unfold stage. destruct (decide (TargetNode a ∈ live)); repeat case_bool_decide; cbn; naive_solver. Qed.

Lemma stage_0 a : stage a = 0%nat -> TargetNode a ∈ live /\ CurrentNode a = TargetNode a.
Proof. unfold stage. destruct (decide (TargetNode a ∈ live)); repeat case_bool_decide; cbn; naive_solver. Qed.

End Stages.

Section Settle.
Context {S : Type} `{EtcdLaws S}.
Context (prefix : string) (N : Z) (live : gset string).
Context (N_range : (0 <= N < 2 ^ 63)%Z).
Abbreviation stage := (stage live).
Context (live_nonempty : live <> ∅) (live_ok : forall a, a ∈ live -> node_ok a = true /\ a <> "").

(** The record of a shard that etcd holds *)
Definition record_of (s : S) (id : Z) : ShardInfo :=
  match etcd_get s (shardKey prefix id) with Some (v, r) => parseShardInfo v r | None => zeroShard end.

(** A manager that has caught up *)
Definition in_sync (cm : ConsensusManager) (s : S) : Prop :=
  (exists sm, ShardMapping (state cm) = Some sm /\
     (forall id, (0 <= id < N)%Z -> shard_at sm id = record_of s id) /\ (forall id, is_Some (sm !! id) -> (0 <= id < N)%Z)) /\
  Nodes (state cm) = live /\ numShards cm = N /\ etcdManager cm = true.

(** A schedule of writes none of which fails *)
Definition calm_sched (sched : shards -> list (Z * ShardInfo * fault)) : Prop :=
  forall upd, tasks_of upd (sched upd) /\ forall t, t ∈ sched upd -> t.2 = NoFault.

Inductive settle_op : Type := OpReassign | OpRelease (node : string) (counts : gmap Z Z) | OpClaim (node : string) | OpRebalance | OpReallocate.

(** One operation by a manager that is in sync and sees a stable state.  A reallocation finds no shard that has been
    unclaimed for the whole timeout: the rounds of claims come faster. *)
Inductive settle_step (s : S) : settle_op -> S -> Prop :=
| ss_reassign cm shuffle offset sched cm' s' r : in_sync cm s -> (forall l, shuffle l ≡ₚ l) -> calm_sched sched ->
    ReassignShardTargetNodes prefix cm s true sched shuffle offset = Some (cm', s', r) -> settle_step s OpReassign s'
| ss_release cm node counts sched now cm' s' r : in_sync cm s -> localNodeAddress cm = node -> node ∈ live -> IsStateStable cm now = true ->
    calm_sched sched -> ReleaseShardsForNode prefix cm s true sched now counts = Some (cm', s', r) -> settle_step s (OpRelease node counts) s'
| ss_claim cm node sched now cm' s' r : in_sync cm s -> localNodeAddress cm = node -> node ∈ live -> IsStateStable cm now = true ->
    calm_sched sched -> ClaimShardsForNode prefix cm s true sched now = Some (cm', s', r) -> settle_step s (OpClaim node) s'
| ss_rebalance cm sched cm' s' r : in_sync cm s -> calm_sched sched -> RebalanceShards prefix cm s true sched = Some (cm', s', r) ->
    settle_step s OpRebalance s'
| ss_reallocate cm sched now cm' s' r : in_sync cm s -> calm_sched sched -> (forall cm1 upd, calcReallocateStuckShards cm now <> Some (cm1, Some upd)) ->
    ReallocateStuckShards prefix cm s true sched now = Some (cm', s', r) -> settle_step s OpReallocate s'.

Inductive settle_run : S -> list settle_op -> S -> Prop :=
| sr_nil s : settle_run s [] s
| sr_cons s1 o s2 l s3 : settle_step s1 o s2 -> settle_run s2 l s3 -> settle_run s1 (o :: l) s3.

(** The records of a store that managers write and can place: well formed, pinned only to live nodes *)
Definition records_ok (s : S) : Prop :=
  etcd_ok s /\ forall id, (0 <= id < N)%Z -> info_ok (record_of s id) = true /\
    (HasFlag (record_of s id) "pinned" = true -> TargetNode (record_of s id) = "" \/ TargetNode (record_of s id) ∈ live).

Lemma record_rev s id : ModRevision (record_of s id) = mod_rev s (shardKey prefix id).
Proof.
  unfold record_of, mod_rev. destruct (etcd_get _ _) as [[v r]|]; [|done]. unfold parseShardInfo. by repeat case_match.
Qed.

(** Writing a plan made in sync: every planned record is written, nothing else changes *)
Lemma store_plan cm s sched upd : in_sync cm s -> etcd_ok s -> calm_sched sched ->
  (forall id info, upd !! id = Some info -> (0 <= id < N)%Z /\ info_ok info = true /\ ModRevision info = ModRevision (record_of s id)) ->
  exists cm' s' n b, storeShardMapping prefix cm s true (sched upd) = Some (cm', s', (n, None, b)) /\ etcd_ok s' /\
    forall id, (0 <= id < N)%Z ->
      match upd !! id with Some info => same_record (record_of s' id) info | None => record_of s' id = record_of s id end.
Proof.
  intros ((sm & Hsm & Hrec & Hdom) & Hl & Hn & He) Hok Hsch Hupd. destruct (Hsch upd) as [Ht Hf].
  assert (forall id info f, (id, info, f) ∈ sched upd -> upd !! id = Some info) as Hin.
  { intros id info f Hi. apply elem_of_map_to_list. unfold tasks_of in Ht. rewrite <-Ht. apply list_elem_of_fmap. by exists (id, info, f). }
  assert (forall id, (0 <= id < N)%Z -> in_int64 id) as H64 by (unfold in_int64; lia).
  unfold storeShardMapping. rewrite He. cbn [negb].
  destruct (storeTasks_spec prefix (sched upd) cm s Hok) as (cm' & s' & n & err & -> & Hok' & _ & Hcount & Herr & Hoth & Htask).
  - by rewrite Hsm.
  - unfold tasks_of in Ht. rewrite Ht. apply NoDup_fst_map_to_list.
  - apply Forall_forall. intros [[id info] f] Hi. cbn. destruct (Hupd _ _ (Hin _ _ _ Hi)). auto.
  - intros id. rewrite Hsm. cbn. destruct (sm !! id) as [i|] eqn:E.
    + assert (0 <= id < N)%Z as Hr by (apply Hdom; by eexists). rewrite Hrec, record_rev by done. unfold mod_rev.
      destruct (etcd_get s _) as [[v r]|] eqn:Eg; [apply etcd_rev_bound in Eg; [lia|done]|by apply etcd_rev_nonneg].
    + unfold shard_at. rewrite E. cbn. by apply etcd_rev_nonneg.
  - assert (forall t, t ∈ sched upd -> will_commit prefix s t) as Hwc.
    { intros [[id info] f] Hi. split; [by apply Hf|]. cbn. destruct (Hupd _ _ (Hin _ _ _ Hi)) as (_ & _ & ->). by rewrite record_rev. }
    assert (err = None) as ->.
    { apply Herr. rewrite Hcount. f_equal. clear -Hwc. induction (sched upd) as [|t l IH]; [done|].
      rewrite filter_cons_True by (apply Hwc; by left). f_equal. apply IH. intros. apply Hwc. by right. }
    eexists cm', s', n, _. split; [done|]. split; [done|]. intros id Hid.
    destruct (upd !! id) as [info|] eqn:Eu.
    + assert (exists f, (id, info, f) ∈ sched upd) as [f Hi].
      { apply elem_of_map_to_list in Eu. unfold tasks_of in Ht. rewrite <-Ht in Eu. apply list_elem_of_fmap in Eu as ([[j i] f] & E & Hi).
        cbn in E. injection E as -> ->. by exists f. }
      destruct (proj1 (Htask id info f Hi) (Hwc _ Hi)) as (r & _ & Hst). injection Hst as Hg _. unfold record_of. rewrite Hg.
      rewrite parse_format_shard by (by destruct (Hupd _ _ Eu) as (_ & ? & _)). by split_and!.
    + assert (id ∉ (sched upd).*1.*1) as Hnin.
      { rewrite list_elem_of_fmap. intros ([j i] & -> & Hi). apply list_elem_of_fmap in Hi as ([[j' i'] f] & E & Hi). cbn in *.
        injection E as -> ->. rewrite (Hin _ _ _ Hi) in Eu. done. }
      pose proof (Hoth id (H64 _ Hid) Hnin) as Hst. injection Hst as Hg _. unfold record_of. by rewrite Hg.
Qed.

(** ** What each operation does to the records *)

Lemma cached_record cm s id : in_sync cm s -> (0 <= id < N)%Z -> shard_at (default ∅ (ShardMapping (state cm))) id = record_of s id.
Proof. intros ((sm & -> & Hrec & _) & _) Hid. by apply Hrec. Qed.

Lemma cached_lookup cm s sm id i : in_sync cm s -> ShardMapping (state cm) = Some sm -> sm !! id = Some i ->
  (0 <= id < N)%Z /\ i = record_of s id.
Proof.
  intros ((sm' & E & Hrec & Hdom) & _) Hsm Hi. simplify_eq. assert (0 <= id < N)%Z as Hid by (apply Hdom; by eexists).
  split; [done|]. rewrite <-Hrec by done. unfold shard_at. by rewrite Hi.
Qed.

(** A record that is not the absent one is cached *)
Lemma record_cached cm s sm id : in_sync cm s -> ShardMapping (state cm) = Some sm -> (0 <= id < N)%Z ->
  record_of s id <> zeroShard -> sm !! id = Some (record_of s id).
Proof.
  intros ((sm' & E & Hrec & _) & _) Hsm Hid Hz. assert (sm' = sm) as -> by congruence. specialize (Hrec id Hid). unfold shard_at in Hrec.
  destruct (sm !! id); cbn in *; congruence.
Qed.

Definition release_cond (node : string) (counts : gmap Z Z) (id : Z) (info : ShardInfo) : bool :=
  releasable node (default 0%Z (counts !! id)) info.
Definition claim_cond (node : string) (info : ShardInfo) : bool :=
  bool_decide (TargetNode info = node) && (bool_decide (CurrentNode info = "") || bool_decide (CurrentNode info ∉ live)).

Lemma same_record_refl a : same_record a a.
Proof. by split_and!. Qed.

Lemma info_ok_same a b : same_record a b -> info_ok a = info_ok b.
Proof. intros (Ht & Hc & Hf). unfold info_ok. by rewrite Ht, Hc, Hf. Qed.

Lemma info_ok_current a node : info_ok a = true -> node_ok node = true -> info_ok (WithCurrentNode a node) = true.
Proof. unfold info_ok. cbn. intros Ha Hn. rewrite Hn. apply andb_prop in Ha as [Ha ->]. by apply andb_prop in Ha as [-> _]. Qed.

Lemma info_ok_target a node : info_ok a = true -> node_ok node = true -> info_ok (WithTargetNode a node) = true.
Proof. unfold info_ok. cbn. intros Ha Hn. rewrite Hn. apply andb_prop in Ha as [Ha ->]. by apply andb_prop in Ha as [_ ->]. Qed.

(** A plan that rewrites the cached records with a property by [f] *)
Lemma filtered_plan cm s sm (P : Z -> ShardInfo -> bool) (f : ShardInfo -> ShardInfo) id :
  in_sync cm s -> ShardMapping (state cm) = Some sm -> (0 <= id < N)%Z -> P id zeroShard = false ->
  (f <$> filter (fun kv : Z * ShardInfo => P kv.1 kv.2 = true) sm) !! id =
    if P id (record_of s id) then Some (f (record_of s id)) else None.
Proof.
  intros Hs Hsm Hid Hz. rewrite lookup_fmap, map_lookup_filter. destruct (sm !! id) as [i|] eqn:E.
  - destruct (cached_lookup cm s sm id i Hs Hsm E) as [_ ->]. cbn. destruct (P id (record_of s id)) eqn:EP;
      [by rewrite option_guard_True|by rewrite option_guard_False by done].
  - destruct (decide (record_of s id = zeroShard)) as [->|Hnz]; [by rewrite Hz|]. by rewrite (record_cached cm s sm id Hs Hsm Hid Hnz) in E.
Qed.

(** ... keeps to the shards in range, and to their revisions *)
Lemma filtered_plan_ok cm s sm (P : Z -> ShardInfo -> bool) (f : ShardInfo -> ShardInfo) :
  in_sync cm s -> records_ok s -> ShardMapping (state cm) = Some sm ->
  (forall i, info_ok i = true -> info_ok (f i) = true /\ ModRevision (f i) = ModRevision i) ->
  forall id info, (f <$> filter (fun kv : Z * ShardInfo => P kv.1 kv.2 = true) sm) !! id = Some info ->
  (0 <= id < N)%Z /\ info_ok info = true /\ ModRevision info = ModRevision (record_of s id).
Proof.
  intros Hs [_ Hrec] Hsm Hf id info. rewrite lookup_fmap, fmap_Some. intros (i & Hi & ->). apply map_lookup_filter_Some in Hi as [Hi _].
  destruct (cached_lookup cm s sm id i Hs Hsm Hi) as [Hid ->]. destruct (Hrec id Hid) as [Hio _]. destruct (Hf _ Hio) as [? ?]. done.
Qed.

Lemma release_records s node counts s' : records_ok s -> settle_step s (OpRelease node counts) s' ->
  etcd_ok s' /\ forall id, (0 <= id < N)%Z ->
    same_record (record_of s' id) (if release_cond node counts id (record_of s id) then WithCurrentNode (record_of s id) "" else record_of s id).
Proof.
  intros Hrec Hs. inversion Hs as [|cm nd cts sched now cm' s1 r Hsync Hloc Hlv Hst Hsch Hr| | |]; subst. clear Hs.
  pose proof Hsync as ((sm & Hsm & _) & _). destruct (live_ok _ Hlv) as [_ Hne]. pose proof Hrec as [Hok _].
  unfold ReleaseShardsForNode in Hr. rewrite bool_decide_eq_false_2, Hst in Hr by done. cbn [negb] in Hr.
  unfold calcReleaseShardsForNode in Hr. rewrite Hsm in Hr.
  set (upd := _ <$> filter _ sm) in Hr.
  assert (forall id, (0 <= id < N)%Z -> upd !! id =
    if release_cond (localNodeAddress cm) counts id (record_of s id) then Some (WithCurrentNode (record_of s id) "") else None) as Hu.
  { intros id Hid. apply (filtered_plan cm s sm (release_cond (localNodeAddress cm) counts) (fun i => WithCurrentNode i "") id Hsync Hsm Hid).
    unfold release_cond, releasable. cbn. by rewrite bool_decide_eq_false_2. }
  destruct (store_plan cm s sched upd Hsync Hok Hsch) as (c1 & s2 & n & bb & Hst2 & Hok2 & Hrec2).
  { apply (filtered_plan_ok cm s sm (release_cond (localNodeAddress cm) counts) (fun i => WithCurrentNode i "") Hsync Hrec Hsm). intros i Hi. split; [by apply info_ok_current|done]. }
  case_bool_decide as Hemp.
  - injection Hr as <- <- _. split; [done|]. intros id Hid. specialize (Hu id Hid). rewrite Hemp, lookup_empty in Hu.
    destruct (release_cond _ _ _ _); [done|apply same_record_refl].
  - rewrite Hst2 in Hr. injection Hr as <- <- _. split; [done|]. intros id Hid. specialize (Hrec2 id Hid). rewrite (Hu id Hid) in Hrec2.
    destruct (release_cond _ _ _ _); [done|]. rewrite Hrec2. apply same_record_refl.
Qed.

Lemma claim_records s node s' : records_ok s -> settle_step s (OpClaim node) s' ->
  etcd_ok s' /\ forall id, (0 <= id < N)%Z ->
    same_record (record_of s' id) (if claim_cond node (record_of s id) then WithCurrentNode (record_of s id) node else record_of s id).
Proof.
  intros Hrec Hs. inversion Hs as [| |cm nd sched now cm' s1 r Hsync Hloc Hlv Hst Hsch Hr| |]; subst. clear Hs.
  pose proof Hsync as ((sm & Hsm & _) & Hnodes & _). destruct (live_ok _ Hlv) as [Hnok Hne]. pose proof Hrec as [Hok _].
  unfold ClaimShardsForNode in Hr. rewrite Hst in Hr. cbn [negb] in Hr. unfold shardsToClaim in Hr. rewrite Hsm in Hr.
  set (upd := _ <$> filter _ sm) in Hr.
  assert (forall info, claimable (state cm) (localNodeAddress cm) info = claim_cond (localNodeAddress cm) info) as Hcl.
  { intros info. unfold claimable, claim_cond, HasNode. rewrite Hnodes. f_equal. f_equal. symmetry. apply bool_decide_not. }
  assert (upd = (fun info => WithCurrentNode info (localNodeAddress cm)) <$>
    filter (fun kv : Z * ShardInfo => (fun _ => claim_cond (localNodeAddress cm)) kv.1 kv.2 = true) sm) as Hupd.
  { unfold upd. f_equal. apply map_filter_ext. intros i x _. cbn. by rewrite Hcl. }
  assert (forall id, (0 <= id < N)%Z -> upd !! id =
    if claim_cond (localNodeAddress cm) (record_of s id) then Some (WithCurrentNode (record_of s id) (localNodeAddress cm)) else None) as Hu.
  { intros id Hid. rewrite Hupd. apply (filtered_plan cm s sm (fun _ => claim_cond (localNodeAddress cm)) (fun i => WithCurrentNode i (localNodeAddress cm)) id Hsync Hsm Hid).
    unfold claim_cond. cbn. by rewrite bool_decide_eq_false_2. }
  destruct (store_plan cm s sched upd Hsync Hok Hsch) as (c1 & s2 & n & bb & Hst2 & Hok2 & Hrec2).
  { rewrite Hupd. apply (filtered_plan_ok cm s sm (fun _ => claim_cond (localNodeAddress cm)) (fun i => WithCurrentNode i (localNodeAddress cm)) Hsync Hrec Hsm).
    intros i Hi. split; [by apply info_ok_current|done]. }
  case_bool_decide as Hemp.
  - injection Hr as <- <- _. split; [done|]. intros id Hid. specialize (Hu id Hid). rewrite Hemp, lookup_empty in Hu.
    destruct (claim_cond _ _); [done|apply same_record_refl].
  - rewrite Hst2 in Hr. injection Hr as <- <- _. split; [done|]. intros id Hid. specialize (Hrec2 id Hid). rewrite (Hu id Hid) in Hrec2.
    destruct (claim_cond _ _); [done|]. rewrite Hrec2. apply same_record_refl.
Qed.

Lemma reassign_records s s' : records_ok s -> settle_step s OpReassign s' ->
  etcd_ok s' /\ forall id, (0 <= id < N)%Z ->
    let a := record_of s id in let b := record_of s' id in
    TargetNode b ∈ live /\ (TargetNode a ∈ live -> TargetNode b = TargetNode a) /\ CurrentNode b = CurrentNode a /\ Flags b = Flags a.
Proof.
  intros [Hok Hrec] Hs. inversion Hs as [cm shuffle offset sched cm' s1 r Hsync Hsh Hsch Hr| | | |]; subst. clear Hs.
  pose proof Hsync as ((sm & Hsm & _) & Hnodes & HN & _).
  destruct (reassign_plan_correct cm shuffle offset Hsh ltac:(by rewrite Hnodes)) as [Hplan Hall]. cbn zeta in Hplan, Hall. rewrite Hnodes, HN in *.
  unfold ReassignShardTargetNodes in Hr. set (upd := default ∅ (calcReassignShardTargetNodes cm shuffle offset)) in *.
  assert (forall id info, upd !! id = Some info -> (0 <= id < N)%Z /\ info = WithTargetNode (record_of s id) (TargetNode info) /\
    TargetNode info ∈ live /\ TargetNode (record_of s id) ∉ live) as Hp.
  { intros id info Hi. destruct (Hplan id info Hi) as (Hid & Hw & ? & ? & _). rewrite (cached_record cm s id Hsync Hid) in *. done. }
  assert (forall id, (0 <= id < N)%Z -> upd !! id = None -> TargetNode (record_of s id) ∈ live) as Hkeep.
  { intros id Hid Hn. destruct (Hrec id Hid) as [_ Hpin]. specialize (Hall id Hid). rewrite (cached_record cm s id Hsync Hid) in Hall.
    assert (shard_at (upd ∪ default ∅ (ShardMapping (state cm))) id = record_of s id) as Hu.
    { rewrite <-(cached_record cm s id Hsync Hid). unfold shard_at. by rewrite lookup_union_r. }
    rewrite Hu in Hall. destruct (HasFlag (record_of s id) "pinned"); [|by apply Hall; left]. destruct (Hpin eq_refl); [by apply Hall; right|done]. }
  assert (exists n b, storeShardMapping prefix cm s true (sched upd) = Some (cm', s', (n, None, b)) \/ (upd = ∅ /\ s' = s)) as Hcase.
  { destruct (store_plan cm s sched upd Hsync Hok Hsch) as (c1 & s2 & n & bb & Hst2 & _).
    { intros id info Hi. destruct (Hp id info Hi) as (Hid & Hw & Hlv & _). split; [done|]. rewrite Hw. split; [|done].
      apply info_ok_target; [by apply Hrec|by apply live_ok]. }
    exists n, bb. unfold upd in *. destruct (calcReassignShardTargetNodes cm shuffle offset) as [u|]; cbn in *; [|right; by simplify_eq].
    rewrite Hst2 in Hr. left. by simplify_eq. }
  destruct Hcase as (n & bb & [Hst2|[Hemp ->]]).
  - destruct (store_plan cm s sched upd Hsync Hok Hsch) as (c1 & s2 & n' & b' & Hst3 & Hok2 & Hrec2).
    { intros id info Hi. destruct (Hp id info Hi) as (Hid & Hw & Hlv & _). split; [done|]. rewrite Hw. split; [|done].
      apply info_ok_target; [by apply Hrec|by apply live_ok]. }
    rewrite Hst2 in Hst3. injection Hst3 as <- <- <- <-. split; [done|]. intros id Hid. cbn. specialize (Hrec2 id Hid).
    destruct (upd !! id) as [info|] eqn:Eu.
    + destruct Hrec2 as (-> & -> & ->). destruct (Hp id info Eu) as (_ & Hw & Hlv & Hnl). rewrite Hw. cbn. by split_and!.
    + rewrite Hrec2. by split_and!; [apply Hkeep| | |].
  - split; [done|]. intros id Hid. cbn. split_and!; try done. apply Hkeep; [done|]. by rewrite Hemp, lookup_empty.
Qed.

Lemma reallocate_idle s s' : settle_step s OpReallocate s' -> s' = s.
Proof.
  intros Hs. inversion Hs as [| | | |cm sched now cm' s1 r _ _ Hno Hr]; subst. unfold ReallocateStuckShards in Hr.
  destruct (ShardMapping (state cm)); [|done]. destruct (calcReallocateStuckShards cm now) as [[cm1 [upd|]]|]; [by destruct (Hno cm1 upd)|by simplify_eq|done].
Qed.

(** The records as a mapping *)
Definition records (s : S) : shards := list_to_map ((fun id => (id, record_of s id)) <$> seqZ 0 N).

Lemma records_at s id : (0 <= id < N)%Z -> shard_at (records s) id = record_of s id.
Proof.
  intros Hid. unfold shard_at, records. rewrite (elem_of_list_to_map_1 _ id (record_of s id)); [done| |].
  - rewrite <-list_fmap_compose. unfold compose. cbn. rewrite list_fmap_id. apply NoDup_seqZ.
  - apply list_elem_of_fmap. exists id. split; [done|]. apply elem_of_seqZ. lia.
Qed.

(** The sum of the squared loads of the live nodes *)
Definition imbalance (s : S) : Z := energy (records s) (seqZ 0 N) (elements live).

Lemma energy_targets m m' nodes : (forall id, (0 <= id < N)%Z -> TargetNode (shard_at m id) = TargetNode (shard_at m' id)) ->
  energy m (seqZ 0 N) nodes = energy m' (seqZ 0 N) nodes.
Proof.
  intros Ht. apply energy_ext. intros n _. unfold load, targeted. do 2 f_equal.
  assert (forall id, id ∈ seqZ 0 N -> (0 <= id < N)%Z) as Hin by (intros id Hid%elem_of_seqZ; lia).
  induction (seqZ 0 N) as [|id l IH]; [done|]. rewrite !filter_cons, Ht, IH; [done|intros; apply Hin; by right|apply Hin; by left].
Qed.

(** A rebalancing moves nothing, or it makes the loads more even; the targets it sets are live *)
Lemma rebalance_records s s' : records_ok s -> settle_step s OpRebalance s' ->
  s' = s \/
  (etcd_ok s' /\ (imbalance s' < imbalance s)%Z /\
   forall id, (0 <= id < N)%Z -> let a := record_of s id in let b := record_of s' id in
     same_record b a \/ (TargetNode b ∈ live /\ CurrentNode b = CurrentNode a /\ Flags b = Flags a)).
Proof.
  intros [Hok Hrec] Hs. inversion Hs as [| | |cm sched cm' s1 r Hsync Hsch Hr|]; subst. clear Hs.
  pose proof Hsync as ((sm & Hsm & Hcache & _) & Hnodes & HN & _). unfold RebalanceShards in Hr.
  destruct (planRebalance cm) as [upd|] eqn:Hp; [|left; by simplify_eq]. right.
  destruct (planRebalance_spec cm sm upd ltac:(lia) Hsm Hp) as (rb & Hinv & Hupd & _ & _ & Hen & _). cbn zeta in Hen.
  assert (forall id info, upd !! id = Some info -> (0 <= id < N)%Z /\ info = WithTargetNode (record_of s id) (TargetNode info) /\ TargetNode info ∈ live) as Hu.
  { intros id info Hi. rewrite <-Hupd in Hi. destruct (inv_upd _ _ _ _ Hinv id info Hi) as (Hid & _ & Hw & Ht & _).
    apply elem_of_shardIDs in Hid. rewrite HN in Hid. split; [done|]. rewrite (Hcache id Hid) in Hw. split; [done|]. apply elem_of_sortedNodes in Ht. by rewrite Hnodes in Ht. }
  destruct (store_plan cm s sched upd Hsync Hok Hsch) as (c1 & s2 & n & bb & Hst & Hok2 & Hrec2).
  { intros id info Hi. destruct (Hu id info Hi) as (Hid & Hw & Hl). split; [done|]. rewrite Hw. split; [|done]. apply info_ok_target; [by apply Hrec|by apply live_ok]. }
  rewrite Hst in Hr. injection Hr as <- <- _. split; [done|]. split.
  - unfold imbalance. unfold shardIDs in Hen. rewrite HN in Hen. rewrite !(energy_perm _ _ _ _ (sortedNodes_perm (state cm))), Hnodes in Hen.
    rewrite (energy_targets (records s2) (upd ∪ sm)), (energy_targets (records s) sm); [done| |].
    + intros id Hid. by rewrite records_at, Hcache.
    + intros id Hid. rewrite records_at by done. specialize (Hrec2 id Hid). unfold shard_at. destruct (upd !! id) as [info|] eqn:E.
      * rewrite (lookup_union_Some_l _ _ _ _ E). by destruct Hrec2.
      * rewrite lookup_union_r by done. rewrite Hrec2, <-Hcache by done. done.
  - intros id Hid. cbn. specialize (Hrec2 id Hid). destruct (upd !! id) as [info|] eqn:E; [|left; rewrite Hrec2; by split_and!]. right.
    destruct (Hu id info E) as (_ & Hw & Hl). destruct Hrec2 as (-> & -> & ->). rewrite Hw. by split_and!.
Qed.

(** ** Stages *)

Lemma stage_released a : TargetNode a ∈ live -> stage (WithCurrentNode a "") = 1%nat.
Proof.
  intros Ht. destruct (live_ok _ Ht) as [_ Hne]. unfold stage. cbn. rewrite bool_decide_eq_false_2 by (intros ?; done).
  by rewrite bool_decide_eq_false_2 by (intros E; by apply Hne).
Qed.

Lemma stage_claimed a : TargetNode a ∈ live -> stage (WithCurrentNode a (TargetNode a)) = 0%nat.
Proof. intros Ht. unfold stage. cbn. rewrite bool_decide_eq_false_2 by (intros ?; done). by rewrite bool_decide_eq_true_2. Qed.

(** Every shard has a live target; every shard is served by its target *)
Definition live_targets (s : S) : Prop := forall id, (0 <= id < N)%Z -> TargetNode (record_of s id) ∈ live.
Definition settled (s : S) : Prop := forall id, (0 <= id < N)%Z ->
  TargetNode (record_of s id) ∈ live /\ CurrentNode (record_of s id) = TargetNode (record_of s id).

(** Steps in which no rebalancing moves a shard *)
Definition quiet (s : S) (o : settle_op) (s' : S) : Prop := settle_step s o s' /\ (o = OpRebalance -> s' = s).

Inductive quiet_run : S -> list settle_op -> S -> Prop :=
| qr_nil s : quiet_run s [] s
| qr_cons s1 o s2 l s3 : quiet s1 o s2 -> quiet_run s2 l s3 -> quiet_run s1 (o :: l) s3.

(** Once its target is live, a record is left alone or moves on; its target stays *)
Lemma settle_progress s o s' id : records_ok s -> quiet s o s' -> (0 <= id < N)%Z -> (stage (record_of s id) <= 2)%nat ->
  TargetNode (record_of s' id) = TargetNode (record_of s id) /\
  (same_record (record_of s' id) (record_of s id) \/ (stage (record_of s' id) < stage (record_of s id))%nat).
Proof.
  intros Hrec [Hs Hq] Hid Hst. apply stage_le_2 in Hst as Ht. destruct o as [|node counts|node| |].
  - destruct (reassign_records s s' Hrec Hs) as [_ Hr]. destruct (Hr id Hid) as (_ & Htt & Hc & Hf). specialize (Htt Ht). split; [done|]. left. by split_and!.
  - destruct (release_records s node counts s' Hrec Hs) as [_ Hr]. specialize (Hr id Hid). destruct (release_cond _ _ _ _) eqn:Ec; [|split; [by destruct Hr|by left]].
    split; [by destruct Hr|]. right. rewrite (stage_same live _ _ Hr), stage_released by done. unfold release_cond, releasable in Ec.
    apply andb_prop in Ec as [Ec _]. apply andb_prop in Ec as [Ec E3]. apply andb_prop in Ec as [E1 _]. breflect.
    assert (node ∈ live) as Hlv by (by inversion Hs). destruct (live_ok _ Hlv) as [_ Hne]. rewrite <-E1 in *. unfold stage.
    rewrite !bool_decide_eq_false_2; [cbn; lia|by auto..].
  - destruct (claim_records s node s' Hrec Hs) as [_ Hr]. specialize (Hr id Hid). destruct (claim_cond _ _) eqn:Ec; [|split; [by destruct Hr|by left]].
    split; [by destruct Hr|]. right. unfold claim_cond in Ec. apply andb_prop in Ec as [E1 E2]. apply bool_decide_eq_true in E1. subst node.
    rewrite (stage_same live _ _ Hr), stage_claimed by done. unfold stage. rewrite bool_decide_eq_false_2 by (intros ?; done).
    rewrite bool_decide_eq_false_2; [rewrite E2; lia|]. intros Ecur. destruct (live_ok _ Ht) as [_ Hne]. rewrite Ecur in E2.
    apply orb_prop in E2 as [E2|E2]; apply bool_decide_eq_true in E2; done.
  - rewrite (Hq eq_refl). split; [done|left; apply same_record_refl].
  - rewrite (reallocate_idle s s' Hs). split; [done|left; apply same_record_refl].
Qed.

Lemma records_ok_step s o s' : records_ok s -> settle_step s o s' -> records_ok s'.
Proof.
  intros Hrec Hs. destruct Hrec as [Hok Hr] eqn:E. clear E. destruct o as [|node counts|node| |].
  - destruct (reassign_records s s' Hrec Hs) as [Hok' Hr']. split; [done|]. intros id Hid. destruct (Hr' id Hid) as (Hl & _ & Hc & Hf). split; [|by right].
    destruct (Hr id Hid) as [Hi _]. rewrite (info_ok_same _ (WithTargetNode (record_of s id) (TargetNode (record_of s' id)))) by done.
    apply info_ok_target; [done|by apply live_ok].
  - destruct (release_records s node counts s' Hrec Hs) as [Hok' Hr']. split; [done|]. intros id Hid. specialize (Hr' id Hid). destruct (Hr id Hid) as [Hi Hp].
    rewrite (info_ok_same _ _ Hr'). destruct Hr' as (Ht & _ & Hf). unfold HasFlag. rewrite Ht, Hf. destruct (release_cond _ _ _ _); [|done]. split; [by apply info_ok_current|done].
  - destruct (claim_records s node s' Hrec Hs) as [Hok' Hr']. split; [done|]. intros id Hid. specialize (Hr' id Hid). destruct (Hr id Hid) as [Hi Hp].
    rewrite (info_ok_same _ _ Hr'). destruct Hr' as (Ht & _ & Hf). unfold HasFlag. rewrite Ht, Hf. destruct (claim_cond _ _); [|done].
    split; [|done]. apply info_ok_current; [done|]. inversion Hs; subst. by apply live_ok.
  - destruct (rebalance_records s s' Hrec Hs) as [->|(Hok' & _ & Hr')]; [done|]. split; [done|]. intros id Hid. destruct (Hr id Hid) as [Hi Hp].
    destruct (Hr' id Hid) as [Hsame|(Hl & Hc & Hf)].
    + rewrite (info_ok_same _ _ Hsame). destruct Hsame as (Ht & _ & Hf). unfold HasFlag. by rewrite Ht, Hf.
    + split; [|by right]. rewrite (info_ok_same _ (WithTargetNode (record_of s id) (TargetNode (record_of s' id)))) by done.
      apply info_ok_target; [done|by apply live_ok].
  - by rewrite (reallocate_idle s s' Hs).
Qed.

Lemma run_records_ok s l s' : records_ok s -> settle_run s l s' -> records_ok s'.
Proof. intros Hrec Hr. revert Hrec. induction Hr; [done|]. intros Hrec. eauto using records_ok_step. Qed.

(** What holds of a record once its target is live is kept by a quiet run *)
Lemma settle_mono s l s' id : records_ok s -> quiet_run s l s' -> (0 <= id < N)%Z -> (stage (record_of s id) <= 2)%nat ->
  records_ok s' /\ TargetNode (record_of s' id) = TargetNode (record_of s id) /\ (stage (record_of s' id) <= stage (record_of s id))%nat.
Proof.
  intros Hrec Hr. revert Hrec. induction Hr as [s|s1 o s2 l s3 Hs _ IH]; intros Hrec Hid Hst; [by split_and!|].
  destruct (settle_progress s1 o s2 id Hrec Hs Hid Hst) as [Ht Hp].
  assert (stage (record_of s2 id) <= stage (record_of s1 id))%nat as Hle by (destruct Hp as [Hp|?]; [rewrite (stage_same live _ _ Hp)|]; lia).
  destruct (IH (records_ok_step _ _ _ Hrec (proj1 Hs)) Hid ltac:(lia)) as (? & ? & ?). split_and!; [done|congruence|lia].
Qed.

(** The operation that lowers a stage has run somewhere in [l] *)
Lemma settle_phase k (resp : ShardInfo -> settle_op -> Prop) id :
  (0 <= id < N)%Z -> (k <= 1)%nat ->
  (forall a b o, same_record a b -> resp a o -> resp b o) ->
  (forall s o s', records_ok s -> quiet s o s' -> stage (record_of s id) = Datatypes.S k -> resp (record_of s id) o ->
     (stage (record_of s' id) <= k)%nat) ->
  forall l s s', records_ok s -> quiet_run s l s' -> (stage (record_of s id) <= Datatypes.S k)%nat ->
  (exists o, o ∈ l /\ resp (record_of s id) o) -> (stage (record_of s' id) <= k)%nat.
Proof.
  intros Hid Hk Hext Hresp l s s' Hrec Hr. revert Hrec. induction Hr as [s|s1 o s2 l s3 Hs Hr IH]; intros Hrec Hst (o' & Ho & Hro).
  { by apply elem_of_nil in Ho. }
  pose proof (records_ok_step _ _ _ Hrec (proj1 Hs)) as Hrec2. destruct (settle_progress s1 o s2 id Hrec Hs Hid ltac:(lia)) as [_ Hp].
  assert ((stage (record_of s2 id) <= k)%nat -> (stage (record_of s3 id) <= k)%nat) as Hdone.
  { intros Hle. destruct (settle_mono s2 l s3 id Hrec2 Hr Hid ltac:(lia)) as (_ & _ & ?). lia. }
  destruct (decide (stage (record_of s1 id) <= k)%nat) as [Hle|Hgt].
  { apply Hdone. destruct Hp as [Hp|?]; [rewrite (stage_same live _ _ Hp)|]; lia. }
  apply elem_of_cons in Ho as [->|Ho]; [apply Hdone; apply (Hresp s1 o s2); auto; lia|].
  destruct Hp as [Hp|Hlt]; [|apply Hdone; lia]. apply IH; [done|rewrite (stage_same live _ _ Hp); lia|].
  exists o'. split; [done|]. eapply Hext; [|exact Hro]. destruct Hp as (? & ? & ?). by split_and!.
Qed.

Lemma settle_released s l s' id : records_ok s -> quiet_run s l s' -> (0 <= id < N)%Z -> (stage (record_of s id) <= 2)%nat ->
  (forall a, a ∈ live -> a <> TargetNode (record_of s id) -> exists counts, OpRelease a counts ∈ l /\ default 0%Z (counts !! id) = 0%Z) ->
  (stage (record_of s' id) <= 1)%nat.
Proof.
  intros Hrec Hr Hid Hst Hops. destruct (decide (stage (record_of s id) <= 1)%nat) as [Hle|Hgt].
  { destruct (settle_mono s l s' id Hrec Hr Hid Hst) as (_ & _ & ?). lia. }
  assert (stage (record_of s id) = 2%nat) as E2 by lia. destruct (stage_2 live _ E2) as (_ & Hc & Hne).
  destruct (Hops _ Hc Hne) as (counts & Ho & Hz).
  apply (settle_phase 1 (fun a o => exists cts, o = OpRelease (CurrentNode a) cts /\ default 0%Z (cts !! id) = 0%Z) id Hid ltac:(lia)) with l s; [..|eauto].
  - intros a b o (_ & Hcur & _) (cts & -> & ?). exists cts. by rewrite Hcur.
  - intros s1 o s2 Hrec1 Hs Hst1 (cts & -> & Hz1). destruct (release_records _ _ _ _ Hrec1 (proj1 Hs)) as [_ Hre]. specialize (Hre id Hid).
    destruct (stage_2 live _ Hst1) as (Ht1 & Hc1 & Hne1). destruct (live_ok _ Ht1) as [_ Hnt].
    assert (release_cond (CurrentNode (record_of s1 id)) cts id (record_of s1 id) = true) as Ec.
    { unfold release_cond, releasable. rewrite Hz1. by rewrite !bool_decide_eq_true_2 by auto. }
    rewrite Ec in Hre. by rewrite (stage_same live _ _ Hre), stage_released.
  - done.
  - done.
  - lia.
Qed.

Lemma settle_claimed s l s' id : records_ok s -> quiet_run s l s' -> (0 <= id < N)%Z -> (stage (record_of s id) <= 1)%nat ->
  (forall a, a ∈ live -> OpClaim a ∈ l) -> (stage (record_of s' id) <= 0)%nat.
Proof.
  intros Hrec Hr Hid Hst Hops. destruct (decide (stage (record_of s id) <= 0)%nat) as [Hle|Hgt].
  { destruct (settle_mono s l s' id Hrec Hr Hid ltac:(lia)) as (_ & _ & ?). lia. }
  assert (stage (record_of s id) = 1%nat) as E1 by lia. destruct (stage_1 live _ E1) as (Ht & _).
  apply (settle_phase 0 (fun a o => o = OpClaim (TargetNode a)) id Hid ltac:(lia)) with l s; [..|eauto].
  - intros a b o (Htt & _) ->. by rewrite Htt.
  - intros s1 o s2 Hrec1 Hs Hst1 ->. destruct (claim_records _ _ _ Hrec1 (proj1 Hs)) as [_ Hre]. specialize (Hre id Hid).
    destruct (stage_1 live _ Hst1) as (Ht1 & Hc1).
    assert (claim_cond (TargetNode (record_of s1 id)) (record_of s1 id) = true) as Ec.
    { unfold claim_cond. rewrite bool_decide_eq_true_2 by done. apply orb_true_iff. rewrite !bool_decide_eq_true. auto. }
    rewrite Ec in Hre. by rewrite (stage_same live _ _ Hre), stage_claimed.
  - done.
  - done.
  - lia.
Qed.

(** ** Rounds *)

(** With live targets, a step is quiet and keeps the loads, or it makes them more even *)
Lemma live_step s o s' : records_ok s -> live_targets s -> settle_step s o s' ->
  live_targets s' /\ ((quiet s o s' /\ imbalance s' = imbalance s) \/ (imbalance s' < imbalance s)%Z).
Proof.
  intros Hrec Hl Hs.
  assert (quiet s o s' -> live_targets s' /\ ((quiet s o s' /\ imbalance s' = imbalance s) \/ (imbalance s' < imbalance s)%Z)) as Hquiet.
  { intros Hq. assert (forall id, (0 <= id < N)%Z -> TargetNode (record_of s' id) = TargetNode (record_of s id)) as Ht.
    { intros id Hid. apply (settle_progress s o s' id Hrec Hq Hid). by apply stage_le_2, Hl. }
    split; [intros id Hid; rewrite Ht by done; by apply Hl|]. left. split; [done|]. apply energy_targets. intros id Hid. by rewrite !records_at, Ht. }
  destruct o; try (apply Hquiet; by split).
  destruct (rebalance_records s s' Hrec Hs) as [->|(_ & Hlt & Hr)]; [by apply Hquiet|]. split; [|by right].
  intros id Hid. destruct (Hr id Hid) as [(-> & _)|[? _]]; [by apply Hl|done].
Qed.

Lemma live_run s l s' : records_ok s -> live_targets s -> settle_run s l s' ->
  live_targets s' /\ ((quiet_run s l s' /\ imbalance s' = imbalance s) \/ (imbalance s' < imbalance s)%Z).
Proof.
  intros Hrec Hl Hr. revert Hrec Hl. induction Hr as [s|s1 o s2 l s3 Hs Hr IH]; intros Hrec Hl.
  { split; [done|]. left. split; [constructor|done]. }
  destruct (live_step _ _ _ Hrec Hl Hs) as [Hl2 H2]. destruct (IH (records_ok_step _ _ _ Hrec Hs) Hl2) as [Hl3 H3]. split; [done|].
  destruct H2 as [[Hq E2]|?], H3 as [[Hqr E3]|?]; [left; split; [by econstructor|lia]|right; lia..].
Qed.

Lemma quiet_run_of s l s' : settle_run s l s' -> OpRebalance ∉ l -> quiet_run s l s'.
Proof.
  induction 1 as [|s1 o s2 l s3 Hs _ IH]; intros Hn; [constructor|]. apply not_elem_of_cons in Hn as [Ho Hn].
  apply qr_cons with s2; [|by apply IH]. split; [done|]. intros E. by rewrite E in Ho.
Qed.

Lemma settle_assigned s l s' : records_ok s -> settle_run s l s' -> OpReassign ∈ l -> live_targets s'.
Proof.
  intros Hrec Hr. revert Hrec. induction Hr as [s|s1 o s2 l s3 Hs Hr IH]; intros Hrec Ho; [by apply elem_of_nil in Ho|].
  pose proof (records_ok_step _ _ _ Hrec Hs) as Hrec2. apply elem_of_cons in Ho as [<-|Ho]; [|by apply IH].
  apply (live_run s2 l s3); [done| |done]. intros id Hid. by destruct (proj2 (reassign_records s1 s2 Hrec Hs) id Hid).
Qed.

(** Every live node releases, with no object left in the shards that are targeted elsewhere; every live node claims *)
Definition releases (s : S) (l : list settle_op) : Prop := forall a, a ∈ live -> exists counts, OpRelease a counts ∈ l /\
  forall id, TargetNode (record_of s id) <> a -> default 0%Z (counts !! id) = 0%Z.
Definition claims (l : list settle_op) : Prop := forall a, a ∈ live -> OpClaim a ∈ l.

(** Rounds of a run: operations with a release by every node, then operations with a claim by every node; the list is
    the states at the ends of the rounds *)
Inductive rounds : S -> list S -> Prop :=
| rounds_nil s : rounds s []
| rounds_cons s l2 s2 l3 s3 ends : settle_run s l2 s2 -> settle_run s2 l3 s3 -> releases s l2 -> claims l3 -> rounds s3 ends -> rounds s (s3 :: ends).

Lemma quiet_round s l2 s2 l3 s3 : records_ok s -> live_targets s -> quiet_run s l2 s2 -> quiet_run s2 l3 s3 -> releases s l2 -> claims l3 -> settled s3.
Proof.
  intros Hrec Hl Hr2 Hr3 Hrel Hcl id Hid. assert (stage (record_of s id) <= 2)%nat as Hs by (by apply stage_le_2, Hl).
  destruct (settle_mono s l2 s2 id Hrec Hr2 Hid Hs) as (Hrec2 & _ & _).
  assert (stage (record_of s2 id) <= 1)%nat as Hs2.
  { apply (settle_released s l2 s2 id Hrec Hr2 Hid Hs). intros a Ha Hnt. destruct (Hrel a Ha) as (counts & Ho & Hz). exists counts. auto. }
  pose proof (settle_claimed s2 l3 s3 id Hrec2 Hr3 Hid Hs2 Hcl) as Hs3. apply stage_0. lia.
Qed.

Lemma imbalance_nonneg s : (0 <= imbalance s)%Z.
Proof. apply energy_nonneg. Qed.

Lemma rounds_settle s ends : rounds s ends -> records_ok s -> live_targets s -> (imbalance s < Z.of_nat (length ends))%Z -> exists s', s' ∈ ends /\ settled s'.
Proof.
  induction 1 as [s|s l2 s2 l3 s3 ends Hr2 Hr3 Hrel Hcl _ IH]; intros Hrec Hl Hlen; [pose proof (imbalance_nonneg s); cbn in Hlen; lia|].
  destruct (live_run _ _ _ Hrec Hl Hr2) as [Hl2 H2]. pose proof (run_records_ok _ _ _ Hrec Hr2) as Hrec2.
  destruct (live_run _ _ _ Hrec2 Hl2 Hr3) as [Hl3 H3]. pose proof (run_records_ok _ _ _ Hrec2 Hr3) as Hrec3.
  assert ((imbalance s3 < imbalance s)%Z -> exists s', s' ∈ s3 :: ends /\ settled s') as Hnext.
  { intros Hlt. cbn in Hlen. destruct (IH Hrec3 Hl3 ltac:(lia)) as (s' & ? & ?). exists s'. split; [by right|done]. }
  destruct H2 as [[Hq2 E2]|?], H3 as [[Hq3 E3]|?]; [|apply Hnext; lia..].
  exists s3. split; [by left|]. by apply (quiet_round s l2 s2 l3 s3).
Qed.

End Settle.

(** ** Properties *)

(** C5: a cluster whose membership is stable settles.  Take any etcd in which the shard records are well
    formed and pinned shards are pinned to live nodes, whoever owned the shards before and whichever nodes
    have died since.  Managers that are in sync with etcd run, without failures and in any order, all the shard operations:
    reassignments, releases, claims, rebalancings, and reallocations that find no shard left unclaimed for the whole timeout.
    After operations with a reassignment come rounds, each of them operations with a release by every live node that
    has no object left in the shards targeted elsewhere, then operations with a claim by every live node.  A
    round without a rebalancing ends settled: every shard has a live target, and its target is the node that owns
    it.  And whatever the rebalancings move, among more rounds than the sum of the squared loads after the
    reassignment one ends settled. *)
Theorem cluster_settles {S : Type} `{EtcdLaws S} (prefix : string) (N : Z) (live : gset string) (s0 s1 : S) (l1 : list settle_op) :
  (0 <= N < 2 ^ 63)%Z -> live <> ∅ -> (forall a, a ∈ live -> node_ok a = true /\ a <> "") -> records_ok prefix N live s0 ->
  settle_run prefix N live s0 l1 s1 -> OpReassign ∈ l1 ->
  (forall l2 s2 l3 s3, settle_run prefix N live s1 l2 s2 -> settle_run prefix N live s2 l3 s3 -> OpRebalance ∉ l2 ++ l3 ->
     releases prefix live s1 l2 -> claims live l3 -> settled prefix N live s3) /\
  (forall ends, rounds prefix N live s1 ends -> (imbalance prefix N live s1 < Z.of_nat (length ends))%Z ->
     exists s, s ∈ ends /\ settled prefix N live s).
Proof.
  intros HN Hne Hlive Hok0 Hr1 Hre. pose proof (run_records_ok prefix N live HN Hne Hlive _ _ _ Hok0 Hr1) as Hok1.
  pose proof (settle_assigned prefix N live HN Hne Hlive _ _ _ Hok0 Hr1 Hre) as Hl1. split.
  - intros l2 s2 l3 s3 H2 H3 [Hn2 Hn3]%not_elem_of_app Hrel Hcl.
    eapply (quiet_round prefix N live HN Hne Hlive s1 l2 s2 l3 s3); try done; by apply quiet_run_of.
  - intros ends Hr Hlen. by apply (rounds_settle prefix N live HN Hne Hlive s1).
Qed.

(** ** Witness *)

Definition two_live : gset string := {["a:1"; "b:1"]}.

(** A manager of [addr] that has just caught up *)
Definition sync_mgr (addr : string) (s : EtcdMem) : ConsensusManager :=
  set_state (NewConsensusManager true 1 addr 2)
    (mkState two_live (Some ∅) (Some (list_to_map ((fun id => (id, record_of "/g" s id)) <$> seqZ 0 2))) "" 0 0 (Some 0%Z)).

Lemma sync_mgr_in_sync addr s : in_sync "/g" 2 two_live (sync_mgr addr s) s.
Proof.
  assert (NoDup ((fun id => (id, record_of "/g" s id)) <$> seqZ 0 2).*1) as HN.
  { rewrite <-list_fmap_compose. cbn. apply (bool_decide_unpack _). vm_compute. exact I. }
  split; [|split_and!; reflexivity]. eexists. split; [reflexivity|]. split.
  - intros id Hid. unfold shard_at. rewrite (elem_of_list_to_map_1 _ id (record_of "/g" s id)); [done|done|].
    apply list_elem_of_fmap. exists id. split; [done|]. apply elem_of_seqZ. lia.
  - intros id [i Hi]. apply elem_of_list_to_map_2, list_elem_of_fmap in Hi as (k & E & Hk%elem_of_seqZ). injection E as -> _. lia.
Qed.

Definition calm (upd : shards) : list (Z * ShardInfo * fault) := (fun e => (e, NoFault)) <$> map_to_list upd.

Lemma calm_calm : calm_sched calm.
Proof.
  intros upd. split.
  - unfold tasks_of, calm. rewrite <-list_fmap_compose. cbn. by rewrite list_fmap_id.
  - intros t Ht. apply list_elem_of_fmap in Ht as (e & -> & _). done.
Qed.

Lemma calm_reassign s r : ReassignShardTargetNodes "/g" (sync_mgr "" s) s true calm (fun l => l) 0 = Some r ->
  settle_step "/g" 2 two_live s OpReassign r.1.2.
Proof. destruct r as [[cm s'] r]. intros E. apply (ss_reassign "/g" 2 two_live s _ (fun l => l) 0 calm cm s' r (sync_mgr_in_sync "" s) (fun l => Permutation_refl l) calm_calm E). Qed.

Lemma calm_release s a r : a ∈ two_live -> ReleaseShardsForNode "/g" (sync_mgr a s) s true calm 100 ∅ = Some r ->
  IsStateStable (sync_mgr a s) 100 = true -> settle_step "/g" 2 two_live s (OpRelease a ∅) r.1.2.
Proof. destruct r as [[cm s'] r]. intros Ha E Hst. eapply ss_release; [apply sync_mgr_in_sync|reflexivity|done|exact Hst|exact calm_calm|exact E]. Qed.

Lemma calm_claim s a r : a ∈ two_live -> ClaimShardsForNode "/g" (sync_mgr a s) s true calm 100 = Some r ->
  IsStateStable (sync_mgr a s) 100 = true -> settle_step "/g" 2 two_live s (OpClaim a) r.1.2.
Proof. destruct r as [[cm s'] r]. intros Ha E Hst. eapply ss_claim; [apply sync_mgr_in_sync|reflexivity|done|exact Hst|exact calm_calm|exact E]. Qed.

(** Shard 0 belonged to a node that died, shard 1 is to move from [a:1] to [b:1] *)
Definition unsettled : EtcdMem := mkMem {[ "/g/shard/0" := ("c:1,c:1", 2%Z); "/g/shard/1" := ("b:1,a:1", 3%Z) ]} 3.
Definition settle1 : EtcdMem := mkMem {[ "/g/shard/0" := ("a:1,c:1", 4%Z); "/g/shard/1" := ("b:1,a:1", 3%Z) ]} 4.
Definition settle2 : EtcdMem := mkMem {[ "/g/shard/0" := ("a:1,c:1", 4%Z); "/g/shard/1" := ("b:1,", 5%Z) ]} 5.
Definition settle3 : EtcdMem := mkMem {[ "/g/shard/0" := ("a:1,a:1", 6%Z); "/g/shard/1" := ("b:1,", 5%Z) ]} 6.
Definition settle4 : EtcdMem := mkMem {[ "/g/shard/0" := ("a:1,a:1", 6%Z); "/g/shard/1" := ("b:1,b:1", 7%Z) ]} 7.

(** A round of closed states *)
Ltac released a s s' := eapply (calm_release s a (_, s', _)); [set_solver|vm_compute; reflexivity|vm_compute; reflexivity].
Ltac claimed a s s' := eapply (calm_claim s a (_, s', _)); [set_solver|vm_compute; reflexivity|vm_compute; reflexivity].

Lemma two_live_cases a : a ∈ two_live -> a = "a:1" \/ a = "b:1".
Proof. set_solver. Qed.

Lemma release_round s : releases "/g" two_live s [OpRelease "a:1" ∅; OpRelease "b:1" ∅].
Proof. intros a [->| ->]%two_live_cases; exists ∅; (split; [set_solver|]); intros id _; by rewrite lookup_empty. Qed.
Lemma claim_round : claims two_live [OpClaim "a:1"; OpClaim "b:1"].
Proof. intros a [->| ->]%two_live_cases; set_solver. Qed.

Lemma release_run1 : settle_run "/g" 2 two_live settle1 [OpRelease "a:1" ∅; OpRelease "b:1" ∅] settle2.
Proof. eapply sr_cons; [released "a:1" settle1 settle2|]. eapply sr_cons; [released "b:1" settle2 settle2|apply sr_nil]. Qed.
Lemma claim_run1 : settle_run "/g" 2 two_live settle2 [OpClaim "a:1"; OpClaim "b:1"] settle4.
Proof. eapply sr_cons; [claimed "a:1" settle2 settle3|]. eapply sr_cons; [claimed "b:1" settle3 settle4|apply sr_nil]. Qed.
Lemma release_run2 : settle_run "/g" 2 two_live settle4 [OpRelease "a:1" ∅; OpRelease "b:1" ∅] settle4.
Proof. eapply sr_cons; [released "a:1" settle4 settle4|]. eapply sr_cons; [released "b:1" settle4 settle4|apply sr_nil]. Qed.
Lemma claim_run2 : settle_run "/g" 2 two_live settle4 [OpClaim "a:1"; OpClaim "b:1"] settle4.
Proof. eapply sr_cons; [claimed "a:1" settle4 settle4|]. eapply sr_cons; [claimed "b:1" settle4 settle4|apply sr_nil]. Qed.

Lemma cluster_settles_witness :
  settled "/g" 2 two_live settle4 /\ exists s, s ∈ [settle4; settle4; settle4] /\ settled "/g" 2 two_live s.
Proof.
  destruct (cluster_settles "/g" 2 two_live unsettled settle1 [OpReassign]) as [H1 H2].
  - lia.
  - by vm_compute.
  - intros a [->| ->]%two_live_cases; by split.
  - split; [split; [by vm_compute|]|].
    + intros key v r Hk. unfold unsettled in *. cbn in *. rewrite lookup_insert_Some, lookup_singleton_Some in Hk. naive_solver lia.
    + intros id Hid. assert (id = 0 \/ id = 1)%Z as [-> | ->] by lia; by vm_compute.
  - eapply sr_cons; [|apply sr_nil]. eapply (calm_reassign unsettled (_, settle1, _)). vm_compute. reflexivity.
  - by left.
  - split.
    + eapply H1; [exact release_run1|exact claim_run1|set_solver|apply release_round|exact claim_round].
    + apply H2; [|by vm_compute].
      eapply rounds_cons; [exact release_run1|exact claim_run1|apply release_round|exact claim_round|].
      eapply rounds_cons; [exact release_run2|exact claim_run2|apply release_round|exact claim_round|].
      eapply rounds_cons; [exact release_run2|exact claim_run2|apply release_round|exact claim_round|apply rounds_nil].
Defined.
