(* ===== verification/ConsensusProtocol.v ===== *)
(** * The shard ownership protocol: several nodes, one etcd

    A transition system of the consensus managers of a cluster around one etcd store.  The steps are
    the operations of ConsensusPlan.v, ConsensusStore.v and ConsensusState.v: a node plans shard
    updates from its cached mapping, commits any planned update later (its commit may fail before or
    after etcd applied it), records a successful commit in its cache later still, receives any past
    write as a watch event, in any order and any number of times, and reloads its state.  Membership,
    leadership and configuration change arbitrarily in between, and every node may act as the leader
    at any time: the safety theorems do not rely on a unique leader. *)

From S2P Require Import Prelude GoStrings GoFloat ObjectId ConsensusState ConsensusPlan EtcdStore ConsensusStore.
Import Sharding Parser Float64 Shards Consensus Plan Store.

(** ** The legal changes of a shard record *)

(** [new] is an update of [base] that [writer] may make when it sees [view] as the live nodes: a
    retargeting that leaves the owner alone, a claim by the target of a shard without a live owner, or
    a release by the owner of a shard targeted elsewhere. *)
Inductive legal (writer : string) (view : gset string) (base new : ShardInfo) : Prop :=
| legal_retarget :
    new = WithTargetNode base (TargetNode new) ->
    TargetNode new = "" \/ TargetNode new ∈ view -> legal writer view base new
| legal_claim :
    new = WithCurrentNode base writer -> TargetNode base = writer ->
    CurrentNode base = "" \/ CurrentNode base ∉ view -> legal writer view base new
| legal_release :
    new = WithCurrentNode base "" -> CurrentNode base = writer ->
    TargetNode base <> "" -> TargetNode base <> writer -> legal writer view base new.

(** The updates a manager may plan, by any of its operations *)
Inductive plans (cm : ConsensusManager) (id : Z) (new : ShardInfo) : Prop :=
| plans_claim upd : shardsToClaim cm = Some upd -> upd !! id = Some new -> plans cm id new
| plans_release upd objs : calcReleaseShardsForNode cm (localNodeAddress cm) objs = Some upd ->
    upd !! id = Some new -> plans cm id new
| plans_reassign upd shuffle offset : (forall l, shuffle l ≡ₚ l) ->
    calcReassignShardTargetNodes cm shuffle offset = Some upd -> upd !! id = Some new -> plans cm id new
| plans_stuck upd now cm' : calcReallocateStuckShards cm now = Some (cm', Some upd) ->
    upd !! id = Some new -> plans cm id new
| plans_rebalance upd : planRebalance cm = Some upd -> upd !! id = Some new -> plans cm id new.

Abbreviation cached cm := (default ∅ (ShardMapping (state cm))).

Lemma claim_legal cm upd id new :
  shardsToClaim cm = Some upd -> upd !! id = Some new ->
  legal (localNodeAddress cm) (Nodes (state cm)) (shard_at (cached cm) id) new /\ is_Some (cached cm !! id).
Proof.
  unfold shardsToClaim. destruct (ShardMapping (state cm)) as [sm|]; [|done]. intros [= <-]. simpl.
  rewrite lookup_fmap, fmap_Some. intros (info & Hf & ->).
  apply map_lookup_filter_Some in Hf as [Hl Hc]. simpl in Hc. unfold claimable, HasNode in Hc.
  apply andb_prop in Hc as [Ht Hc]. rewrite orb_true_iff, negb_true_iff, bool_decide_eq_true, bool_decide_eq_false in Hc.
  breflect. unfold shard_at. rewrite Hl. simpl. split; [by apply legal_claim|done].
Qed.

Lemma release_legal cm upd objs id new :
  calcReleaseShardsForNode cm (localNodeAddress cm) objs = Some upd -> upd !! id = Some new ->
  legal (localNodeAddress cm) (Nodes (state cm)) (shard_at (cached cm) id) new /\ is_Some (cached cm !! id).
Proof.
  unfold calcReleaseShardsForNode. destruct (ShardMapping (state cm)) as [sm|]; [|done].
  case_bool_decide; [done|]. intros [= <-]. simpl.
  rewrite lookup_fmap, fmap_Some. intros (info & Hf & ->).
  apply map_lookup_filter_Some in Hf as [Hl Hc]. simpl in Hc. unfold releasable in Hc. breflect.
  unfold shard_at. rewrite Hl. simpl. split; [by apply legal_release|done].
Qed.

Lemma reassign_legal cm upd shuffle offset id new :
  (forall l, shuffle l ≡ₚ l) -> calcReassignShardTargetNodes cm shuffle offset = Some upd -> upd !! id = Some new ->
  legal (localNodeAddress cm) (Nodes (state cm)) (shard_at (cached cm) id) new /\ (0 <= id < numShards cm)%Z.
Proof.
  intros Hsh Hp Hid.
  assert (Nodes (state cm) <> ∅) as Hne.
  { intros He. unfold calcReassignShardTargetNodes in Hp. rewrite bool_decide_true in Hp; [done|by rewrite He]. }
  pose proof (reassign_plan cm shuffle offset Hsh Hne id) as Hpl. rewrite Hp in Hpl. simpl in Hpl. rewrite Hid in Hpl.
  destruct (list_find _ _) as [[j x]|] eqn:Hf.
  - apply list_find_Some in Hf as (Hj & -> & _). apply list_elem_of_lookup_2 in Hj. rewrite Hsh in Hj.
    apply list_elem_of_filter in Hj as [_ Hr%elem_of_shardIDs]. injection Hpl as ->. split; [|done].
    apply legal_retarget; [done|]. right. apply (rr_target_live cm offset Hne).
  - case_decide as Hd; [|done]. destruct Hd as [Hr%elem_of_shardIDs Hc]. injection Hpl as ->. split; [|done].
    apply legal_retarget; [done|]. right. unfold classify in Hc. repeat case_match; simplify_eq. by breflect.
Qed.

Lemma stuck_legal cm cm' upd now id new :
  calcReallocateStuckShards cm now = Some (cm', Some upd) -> upd !! id = Some new ->
  legal (localNodeAddress cm) (Nodes (state cm)) (shard_at (cached cm) id) new /\ is_Some (cached cm !! id).
Proof.
  intros Hp Hid.
  assert (Nodes (state cm) <> ∅) as Hne.
  { intros He. unfold calcReallocateStuckShards in Hp. rewrite bool_decide_true in Hp; [done|by rewrite He]. }
  destruct (ShardMapping (state cm)) as [sm|] eqn:Hsm.
  - destruct (stuck_call cm sm now Hne Hsm) as (fs & plan & Hc & _ & Hpl). rewrite Hc in Hp. simplify_eq.
    simpl in *. rewrite Hpl in Hid. unfold shard_at. destruct (sm !! id) as [info|] eqn:Hl; [|done]. simpl in *.
    unfold clearNext in Hid. repeat case_match; simplify_eq. split; [|done]. apply legal_retarget; [done|by left].
  - unfold calcReallocateStuckShards in Hp. rewrite Hsm in Hp.
    rewrite bool_decide_false in Hp by (by intros ?%size_empty_inv%leibniz_equiv). done.
Qed.

Lemma rebalance_legal cm upd id new :
  (0 <= numShards cm)%Z -> planRebalance cm = Some upd -> upd !! id = Some new ->
  legal (localNodeAddress cm) (Nodes (state cm)) (shard_at (cached cm) id) new /\ (0 <= id < numShards cm)%Z.
Proof.
  intros Hn Hp Hid. destruct (ShardMapping (state cm)) as [sm|] eqn:Hsm.
  - destruct (planRebalance_spec cm sm upd Hn Hsm Hp) as (rb & Hinv & <- & _).
    destruct (inv_upd _ _ _ _ Hinv id new Hid) as (Hi & _ & Hw & Ht & _). simpl.
    split; [|by apply elem_of_shardIDs]. apply legal_retarget; [done|]. right. by apply elem_of_sortedNodes.
  - unfold planRebalance in Hp. rewrite Hsm in Hp. by case_match.
Qed.

(** Every plan is a legal change of the cached record, on a cached shard or one in range. *)
Lemma plans_legal cm id new :
  (0 <= numShards cm)%Z -> plans cm id new ->
  legal (localNodeAddress cm) (Nodes (state cm)) (shard_at (cached cm) id) new /\
  (is_Some (cached cm !! id) \/ (0 <= id < numShards cm)%Z).
Proof.
  intros Hn [upd H1 H2|upd objs H1 H2|upd shuffle offset Hs H1 H2|upd now cm' H1 H2|upd H1 H2].
  - destruct (claim_legal cm upd id new H1 H2); auto.
  - destruct (release_legal cm upd objs id new H1 H2); auto.
  - destruct (reassign_legal cm upd shuffle offset id new Hs H1 H2); auto.
  - destruct (stuck_legal cm cm' upd now id new H1 H2); auto.
  - destruct (rebalance_legal cm upd id new Hn H1 H2); auto.
Qed.

(** A legal change keeps the revision and the flags, and well-formed records well formed. *)
Lemma legal_keeps writer view base new :
  legal writer view base new -> ModRevision new = ModRevision base /\ Flags new = Flags base.
Proof. by intros [-> _ | -> _ _ | -> _ _ _]. Qed.

Lemma legal_info_ok writer view base new :
  legal writer view base new -> node_ok writer = true -> (forall n, n ∈ view -> node_ok n = true) ->
  info_ok base = true -> info_ok new = true.
Proof.
  intros Hl Hw Hv Hb. unfold info_ok in *. apply andb_prop in Hb as [Hb Hf]. apply andb_prop in Hb as [Ht Hc].
  destruct Hl as [Heq Htn | -> _ _ | -> _ _ _].
  - rewrite Heq. simpl. rewrite Hc, Hf, !andb_true_r.
    destruct Htn as [->|Htn]; [done|by apply Hv].
  - simpl. by rewrite Ht, Hw, Hf.
  - simpl. by rewrite Ht, Hf.
Qed.

Lemma append_assoc (a b c : string) : a +:+ b +:+ c = (a +:+ b) +:+ c.
Proof. induction a; simpl; congruence. Qed.

Lemma TrimPrefix_opt_app p a b : TrimPrefix_opt (p +:+ a) (p +:+ b) = TrimPrefix_opt a b.
Proof. induction p as [|c p IH]; simpl; [done|]. by rewrite bool_decide_true. Qed.

(** The keys of the shards are read as shard keys. *)
Lemma shardKey_rest prefix id : TrimPrefix_opt (prefix +:+ "/shard/") (shardKey prefix id) = Some (Itoa id).
Proof. unfold shardKey. rewrite TrimPrefix_opt_app. by apply TrimPrefix_opt_Some. Qed.

Lemma shardKey_under prefix id : key_under (prefix +:+ "/shard/") (shardKey prefix id) = Some (Itoa id).
Proof.
  unfold key_under. rewrite shardKey_rest. rewrite bool_decide_false; [done|].
  intros He. pose proof (Itoa_nonempty id) as Hn. by rewrite He in Hn.
Qed.

Lemma shardKey_is_put prefix n id v r :
  (0 <= id < n)%Z -> in_int64 id ->
  is_shard_put prefix n (mkEvent EventTypePut (mkKV (shardKey prefix id) v r)) = true /\
  shard_of prefix (shardKey prefix id) = id.
Proof.
  intros Hid Hi. unfold is_shard_put, shard_of. simpl. rewrite shardKey_under. simpl. rewrite Atoi_Itoa by done.
  split; [|done]. unfold key_under, shardKey. rewrite !TrimPrefix_opt_app. simpl.
  rewrite bool_decide_false; [|intros Heq%append_cancel_l; done]. simpl.
  apply andb_true_iff. split; [apply Z.leb_le|apply Z.ltb_lt]; lia.
Qed.

(** The put of a shard in range is only handled with a mapping. *)
Lemma shard_put_needs_mapping prefix cm ev now cm' b :
  is_shard_put prefix (numShards cm) ev = true -> ShardMapping (state cm) = None ->
  handleWatchEvent prefix cm ev now = Some (cm', b) -> False.
Proof.
  intros Hput Hsm He. unfold handleWatchEvent in He. unfold is_shard_put in Hput. breflect. simpl in *.
  rewrite bool_decide_false in He by done.
  destruct (key_under (prefix +:+ "/nodes/") _); [done|]. destruct (key_under (prefix +:+ "/gates/") _); [done|].
  destruct (key_under (prefix +:+ "/shard/") _); [|done]. unfold handleShardEvent in He.
  destruct (Atoi _); [|done]. breflect. rewrite Hsm in He. simpl in He.
  rewrite (proj2 (orb_false_iff _ _)) in He by (split; [apply Z.ltb_ge|apply Z.leb_gt]; lia). done.
Qed.

(** A shard record of a loaded state was read from a pair under the shard prefix. *)
Lemma load_from prefix n kvs st id info :
  default ∅ (ShardMapping (fold_left (loadKv prefix n) kvs st)) !! id = Some info ->
  default ∅ (ShardMapping st) !! id = Some info \/
  exists kv rest, kv ∈ kvs /\ TrimPrefix_opt (prefix +:+ "/shard/") (Key kv) = Some rest /\ Atoi rest = Some id /\
    info = parseShardInfo (Value kv) (KvModRevision kv).
Proof.
  revert st. induction kvs as [|kv kvs IH]; simpl; intros st Hl; [by left|].
  destruct (IH _ Hl) as [Hl'|(kv' & rest & ? & ? & ? & ?)]; [|right; exists kv', rest; set_solver].
  unfold loadKv in Hl'. repeat case_match; simpl in Hl'; try (by left).
  rewrite lookup_insert in Hl'. case_decide; [|by left]. right. eexists kv, _. simplify_eq. split_and!; try done.
  by left.
Qed.

(** ** The world *)

(** A planned update: who planned it, what it saw as live, and the cached record it starts from. *)
Record intent : Type := mkIntent {
  i_node : string; i_view : gset string; i_id : Z; i_base : ShardInfo; i_new : ShardInfo
}.

(** An update etcd has applied, at its revision. *)
Record write : Type := mkWrite { w_intent : intent; w_rev : Z }.

Definition w_id (w : write) : Z := i_id (w_intent w).
Definition w_new (w : write) : ShardInfo := i_new (w_intent w).

(** The record a write leaves: what readers of that revision see. *)
Definition value_of (w : write) : ShardInfo :=
  mkShard (TargetNode (w_new w)) (CurrentNode (w_new w)) (Flags (w_new w)) (w_rev w).

Section World.
Context {S : Type} `{EtcdLaws S}.
Context (prefix : string) (N : Z).

Record world : Type := mkWorld {
  store : S;
  mgrs : gmap string ConsensusManager;
  intents : list intent;
  hist : list write;                    (* the applied writes, newest first *)
  pend : list write                     (* commits their writers saw succeed *)
}.

Definition view_ok (view : gset string) : Prop := forall n, n ∈ view -> node_ok n = true.

(** The put event of a write *)
Definition write_event (w : write) : Event :=
  mkEvent EventTypePut (mkKV (shardKey prefix (w_id w)) (formatShardInfo (w_new w)) (w_rev w)).

(** Whether etcd applies a commit *)
Definition applies (s : S) (key : string) (expected : Z) (f : fault) : bool :=
  (mod_rev s key =? expected)%Z && match f with FailBefore _ => false | _ => true end.

Inductive wstep (w : world) : world -> Prop :=
| ws_plan n cm id new :
    mgrs w !! n = Some cm -> plans cm id new ->
    wstep w (mkWorld (store w) (mgrs w)
      (mkIntent n (Nodes (state cm)) id (shard_at (cached cm) id) new :: intents w) (hist w) (pend w))
| ws_commit i f s' r :
    i ∈ intents w ->
    commit (store w) (shardKey prefix (i_id i)) (ModRevision (i_new i)) (formatShardInfo (i_new i)) f = (s', r) ->
    wstep w (mkWorld s' (mgrs w) (intents w)
      (if applies (store w) (shardKey prefix (i_id i)) (ModRevision (i_new i)) f
       then mkWrite i (etcd_rev s') :: hist w else hist w)
      (match r with Ok true => mkWrite i (etcd_rev s') :: pend w | _ => pend w end))
| ws_record wr cm cm' :
    wr ∈ pend w -> mgrs w !! i_node (w_intent wr) = Some cm ->
    recordShard cm (w_id wr) (w_new wr) (w_rev wr) = Some cm' ->
    wstep w (mkWorld (store w) (<[i_node (w_intent wr) := cm']> (mgrs w)) (intents w) (hist w) (pend w))
| ws_watch n cm wr now cm' b :
    mgrs w !! n = Some cm -> wr ∈ hist w ->
    handleWatchEvent prefix cm (write_event wr) now = Some (cm', b) ->
    wstep w (mkWorld (store w) (<[n := cm']> (mgrs w)) (intents w) (hist w) (pend w))
| ws_load n cm now st :
    mgrs w !! n = Some cm ->
    st = loadClusterStateFromEtcd prefix N (etcd_range (store w) prefix) (etcd_rev (store w)) now ->
    view_ok (Nodes st) ->
    wstep w (mkWorld (store w) (<[n := set_state cm st]> (mgrs w)) (intents w) (hist w) (pend w))
| ws_local n cm cm' :
    mgrs w !! n = Some cm ->
    ShardMapping (state cm') = ShardMapping (state cm) -> localNodeAddress cm' = localNodeAddress cm ->
    numShards cm' = numShards cm -> view_ok (Nodes (state cm')) ->
    wstep w (mkWorld (store w) (<[n := cm']> (mgrs w)) (intents w) (hist w) (pend w)).

(** A fresh cluster: no shard key in etcd, empty caches, managers configured alike. *)
Definition init (w : world) : Prop :=
  etcd_ok (store w) /\ (0 <= N < 2 ^ 63)%Z /\
  (forall key, HasPrefix key (prefix +:+ "/shard/") = true -> etcd_get (store w) key = None) /\
  (forall n cm, mgrs w !! n = Some cm -> localNodeAddress cm = n /\ numShards cm = N /\ node_ok n = true /\
     view_ok (Nodes (state cm)) /\ cached cm = ∅) /\
  intents w = [] /\ hist w = [] /\ pend w = [].

Definition reachable (w : world) : Prop := exists w0, init w0 /\ rtc wstep w0 w.

(** The record of a shard after the writes [h], newest first: the value etcd holds. *)
Definition current (h : list write) (id : Z) : ShardInfo :=
  match list_find (fun w => w_id w = id) h with Some (_, w) => value_of w | None => zeroShard end.

(** ** The invariant *)

(** A record some write has left, or the absent record. *)
Definition known (h : list write) (id : Z) (info : ShardInfo) : Prop :=
  info = zeroShard \/ exists w, w ∈ h /\ w_id w = id /\ info = value_of w.

Record winv (w : world) : Prop := {
  winv_ok : etcd_ok (store w);
  winv_N : (0 <= N < 2 ^ 63)%Z;
  (* etcd holds, under the shard prefix, the newest write of each shard and nothing else *)
  winv_key : forall key v r, HasPrefix key (prefix +:+ "/shard/") = true -> etcd_get (store w) key = Some (v, r) ->
    exists wr, wr ∈ hist w /\ key = shardKey prefix (w_id wr) /\ v = formatShardInfo (w_new wr) /\ r = w_rev wr;
  winv_cur : forall id, (0 <= id < N)%Z ->
    mod_rev (store w) (shardKey prefix id) = ModRevision (current (hist w) id);
  winv_hist : forall wr, wr ∈ hist w -> (0 <= w_id wr < N)%Z /\ info_ok (w_new wr) = true /\
    (0 < w_rev wr <= etcd_rev (store w))%Z;
  winv_rev : forall l1 a l2 b, hist w = l1 ++ a :: l2 -> b ∈ l2 -> (w_rev b < w_rev a)%Z;
  (* every write was a legal change of the record before it *)
  winv_chain : forall l1 a l2, hist w = l1 ++ a :: l2 ->
    i_base (w_intent a) = current l2 (w_id a) /\
    legal (i_node (w_intent a)) (i_view (w_intent a)) (i_base (w_intent a)) (w_new a);
  winv_mgr : forall n cm, mgrs w !! n = Some cm ->
    localNodeAddress cm = n /\ numShards cm = N /\ node_ok n = true /\ view_ok (Nodes (state cm)) /\
    forall id info, cached cm !! id = Some info ->
      exists wr, wr ∈ hist w /\ w_id wr = id /\ info = value_of wr;
  winv_intent : forall i, i ∈ intents w -> (0 <= i_id i < N)%Z /\ known (hist w) (i_id i) (i_base i) /\
    legal (i_node i) (i_view i) (i_base i) (i_new i) /\ info_ok (i_new i) = true;
  winv_pend : forall wr, wr ∈ pend w -> wr ∈ hist w
}.

Lemma value_rev w : ModRevision (value_of w) = w_rev w.
Proof. done. Qed.

Lemma known_cons w h id info : known h id info -> known (w :: h) id info.
Proof. intros [->|(x & ? & ? & ?)]; [by left|right; exists x; set_solver]. Qed.

Lemma current_known h id : known h id (current h id).
Proof.
  unfold current. destruct (list_find _ h) as [[j x]|] eqn:E; [|by left].
  apply list_find_Some in E as (Hj & Hx & _). right. exists x. split_and!; [|done|done].
  by eapply list_elem_of_lookup_2.
Qed.

Lemma known_info_ok w id info : winv w -> known (hist w) id info -> info_ok info = true.
Proof.
  intros Hinv [->|(x & Hx & _ & ->)]; [done|]. destruct (winv_hist w Hinv x Hx) as (_ & Hok & _).
  unfold info_ok in *. done.
Qed.

(** Two known records of a shard with the same revision are the same record. *)
Lemma known_unique w id a b :
  winv w -> known (hist w) id a -> known (hist w) id b -> ModRevision a = ModRevision b -> a = b.
Proof.
  intros Hinv [->|(x & Hx & Hxi & ->)] [->|(y & Hy & Hyi & ->)]; simpl; intros Hr.
  - done.
  - destruct (winv_hist w Hinv y Hy) as (_ & _ & ?). lia.
  - destruct (winv_hist w Hinv x Hx) as (_ & _ & ?). lia.
  - assert (x = y) as ->; [|done].
    apply list_elem_of_lookup in Hx as [i Hi]. apply list_elem_of_lookup in Hy as [j Hj].
    destruct (Nat.lt_trichotomy i j) as [Hlt|[->|Hlt]]; [|congruence|]; exfalso.
    + pose proof (winv_rev w Hinv (take i (hist w)) x (drop (Datatypes.S i) (hist w)) y) as Hrev.
      rewrite take_drop_middle in Hrev by done.
      assert (w_rev y < w_rev x)%Z; [|lia]. apply Hrev; [done|].
      apply list_elem_of_lookup. exists (j - Datatypes.S i)%nat. rewrite lookup_drop.
      by replace (Datatypes.S i + (j - Datatypes.S i))%nat with j by lia.
    + pose proof (winv_rev w Hinv (take j (hist w)) y (drop (Datatypes.S j) (hist w)) x) as Hrev.
      rewrite take_drop_middle in Hrev by done.
      assert (w_rev x < w_rev y)%Z; [|lia]. apply Hrev; [done|].
      apply list_elem_of_lookup. exists (i - Datatypes.S j)%nat. rewrite lookup_drop.
      by replace (Datatypes.S j + (i - Datatypes.S j))%nat with i by lia.
Qed.

Lemma range_int64 id : (0 <= N < 2 ^ 63)%Z -> (0 <= id < N)%Z -> in_int64 id.
Proof. unfold in_int64. lia. Qed.

Lemma winv_init w : init w -> winv w.
Proof.
  intros (Hok & HN & Hkeys & Hm & Hi & Hh & Hp). split; rewrite ?Hh, ?Hi, ?Hp.
  - done.
  - done.
  - intros key v r Hpre Hg. rewrite Hkeys in Hg by done. done.
  - intros id _. unfold mod_rev. rewrite Hkeys; [done|]. unfold shardKey.
    rewrite append_assoc. apply HasPrefix_app.
  - intros wr ?%elem_of_nil. done.
  - intros [|??] a l2 b; done.
  - intros [|??] a l2; done.
  - intros n cm Hn. destruct (Hm n cm Hn) as (? & ? & ? & ? & He). split_and!; try done.
    intros id info. rewrite He. by rewrite lookup_empty.
  - intros i ?%elem_of_nil. done.
  - intros wr ?%elem_of_nil. done.
Qed.

(** Steps that only replace one manager by one whose cached records are all known. *)
Lemma winv_set_mgr w n cm cm' :
  winv w -> mgrs w !! n = Some cm ->
  localNodeAddress cm' = localNodeAddress cm -> numShards cm' = numShards cm -> view_ok (Nodes (state cm')) ->
  (forall id info, cached cm' !! id = Some info -> cached cm !! id = Some info \/
     exists wr, wr ∈ hist w /\ w_id wr = id /\ info = value_of wr) ->
  winv (mkWorld (store w) (<[n := cm']> (mgrs w)) (intents w) (hist w) (pend w)).
Proof.
  intros [] Hn Hl Hns Hv Hc. split; simpl; try done.
  intros n' c. rewrite lookup_insert. case_decide as Heq; [|by apply winv_mgr0].
  intros [= <-]. subst n'. destruct (winv_mgr0 n cm Hn) as (H1 & H2 & H3 & _ & H5).
  split_and!; try done; try congruence.
  intros id info Hi. destruct (Hc id info Hi) as [?|?]; [by apply H5|done].
Qed.

Lemma winv_plan w n cm id new :
  winv w -> mgrs w !! n = Some cm -> plans cm id new ->
  winv (mkWorld (store w) (mgrs w)
    (mkIntent n (Nodes (state cm)) id (shard_at (cached cm) id) new :: intents w) (hist w) (pend w)).
Proof.
  intros Hinv Hn Hp. pose proof Hinv as []. destruct (winv_mgr0 n cm Hn) as (Hl & HnN & Hok & Hv & Hc).
  split; simpl; try done. intros i [->|Hi]%elem_of_cons; [|by apply winv_intent0]. simpl.
  destruct (plans_legal cm id new) as [Hleg Hid]; [rewrite HnN; lia|done|]. rewrite Hl, HnN in *.
  assert (known (hist w) id (shard_at (cached cm) id)) as Hk.
  { unfold shard_at. destruct (cached cm !! id) as [info|] eqn:E; [|by left]. right. by apply Hc. }
  split_and!; try done.
  - destruct Hid as [[info Hi]|Hid]; [|lia]. destruct (Hc id info Hi) as (wr & Hwr & <- & _).
    by apply winv_hist0.
  - destruct Hid as [[info Hi]|Hid]; [|lia]. destruct (Hc id info Hi) as (wr & Hwr & <- & _).
    by apply winv_hist0.
  - eapply legal_info_ok; [exact Hleg|done|done|]. by eapply known_info_ok.
Qed.

(** A successful compare-and-swap was planned on the record etcd held. *)
Lemma commit_base w i :
  winv w -> i ∈ intents w -> mod_rev (store w) (shardKey prefix (i_id i)) = ModRevision (i_new i) ->
  i_base i = current (hist w) (i_id i).
Proof.
  intros Hinv Hi Hm. destruct (winv_intent w Hinv i Hi) as (Hr & Hk & Hleg & _).
  apply (known_unique w (i_id i)); [done|done|apply current_known|].
  destruct (legal_keeps _ _ _ _ Hleg) as [Hrev _]. rewrite <-Hrev, <-Hm. by apply (winv_cur w Hinv).
Qed.

Lemma commit_applies w i f s' r :
  winv w -> i ∈ intents w ->
  commit (store w) (shardKey prefix (i_id i)) (ModRevision (i_new i)) (formatShardInfo (i_new i)) f = (s', r) ->
  if applies (store w) (shardKey prefix (i_id i)) (ModRevision (i_new i)) f
  then mod_rev (store w) (shardKey prefix (i_id i)) = ModRevision (i_new i) /\ etcd_ok s' /\
       (etcd_rev (store w) < etcd_rev s')%Z /\
       etcd_get s' (shardKey prefix (i_id i)) = Some (formatShardInfo (i_new i), etcd_rev s') /\
       (forall k, k <> shardKey prefix (i_id i) -> etcd_get s' k = etcd_get (store w) k)
  else s' = store w /\ r <> Ok true.
Proof.
  intros Hinv Hi Hc. unfold applies. destruct (_ =? _)%Z eqn:Hm; breflect; simpl.
  - destruct f; simpl in Hc; [|by simplify_eq|]; destruct (etcd_txn_put _ _ _ _) as [s1 b] eqn:Ht;
      destruct (etcd_txn_hit _ _ _ _ _ _ (winv_ok w Hinv) Hm Ht) as (-> & ? & ? & ? & ?); by simplify_eq.
  - pose proof (etcd_txn_miss _ _ _ (formatShardInfo (i_new i)) Hm) as Ht.
    destruct f; simpl in Hc; rewrite ?Ht in Hc; by simplify_eq.
Qed.

Lemma winv_write w i s' p' :
  winv w -> i ∈ intents w -> mod_rev (store w) (shardKey prefix (i_id i)) = ModRevision (i_new i) ->
  etcd_ok s' -> (etcd_rev (store w) < etcd_rev s')%Z ->
  etcd_get s' (shardKey prefix (i_id i)) = Some (formatShardInfo (i_new i), etcd_rev s') ->
  (forall k, k <> shardKey prefix (i_id i) -> etcd_get s' k = etcd_get (store w) k) ->
  (forall x, x ∈ p' -> x = mkWrite i (etcd_rev s') \/ x ∈ pend w) ->
  winv (mkWorld s' (mgrs w) (intents w) (mkWrite i (etcd_rev s') :: hist w) p').
Proof.
  intros Hinv Hi Hm Hok' Hrev Hget Hoth Hp'. pose proof (commit_base w i Hinv Hi Hm) as Hbase.
  destruct (winv_intent w Hinv i Hi) as (Hr & _ & Hleg & Hiok). pose proof Hinv as [].
  split; simpl; try done.
  - intros key v r Hpre Hg. destruct (decide (key = shardKey prefix (i_id i))) as [->|Hne].
    + exists (mkWrite i (etcd_rev s')). rewrite Hget in Hg. simplify_eq. split_and!; try done. by left.
    + rewrite Hoth in Hg by done. destruct (winv_key0 key v r Hpre Hg) as (wr & ? & ? & ? & ?).
      exists wr. split_and!; try done. by right.
  - intros id Hid. unfold current. simpl. unfold w_id at 1. simpl. case_decide as Hd.
    + subst id. unfold mod_rev. by rewrite Hget.
    + assert (shardKey prefix id <> shardKey prefix (i_id i)) as Hk.
      { intros Hk%shardKey_inj; [congruence|by apply range_int64..]. }
      unfold mod_rev at 1. rewrite Hoth by done. fold (mod_rev (store w) (shardKey prefix id)).
      rewrite winv_cur0 by done. unfold current. by destruct (list_find _ (hist w)) as [[??]|].
  - intros wr [->|Hwr]%elem_of_cons; simpl.
    + unfold w_id, w_new. simpl. pose proof (etcd_rev_nonneg _ winv_ok0). split_and!; done || lia.
    + destruct (winv_hist0 wr Hwr) as (? & ? & ?). split_and!; try done; lia.
  - intros [|c l1] a l2 b Heq Hb; simpl in Heq; injection Heq as Ha Heq.
    + subst a l2. destruct (winv_hist0 b Hb) as (_ & _ & ?). simpl. lia.
    + by apply (winv_rev0 l1 a l2 b).
  - intros [|c l1] a l2 Heq; simpl in Heq; injection Heq as Ha Heq.
    + subst a l2. simpl. done.
    + by apply (winv_chain0 l1).
  - intros n cm Hn. destruct (winv_mgr0 n cm Hn) as (? & ? & ? & ? & Hc). split_and!; try done.
    intros id info Hid. destruct (Hc id info Hid) as (wr & ? & ? & ?). exists wr. split_and!; try done. by right.
  - intros j Hj. destruct (winv_intent0 j Hj) as (? & ? & ? & ?). split_and!; try done; try lia. by apply known_cons.
  - intros x Hx. destruct (Hp' x Hx) as [->|Hx']; [by left|right; auto].
Qed.

Lemma winv_commit w i f s' r :
  winv w -> i ∈ intents w ->
  commit (store w) (shardKey prefix (i_id i)) (ModRevision (i_new i)) (formatShardInfo (i_new i)) f = (s', r) ->
  winv (mkWorld s' (mgrs w) (intents w)
      (if applies (store w) (shardKey prefix (i_id i)) (ModRevision (i_new i)) f
       then mkWrite i (etcd_rev s') :: hist w else hist w)
      (match r with Ok true => mkWrite i (etcd_rev s') :: pend w | _ => pend w end)).
Proof.
  intros Hinv Hi Hc. pose proof (commit_applies w i f s' r Hinv Hi Hc) as Ha.
  destruct (applies _ _ _ _).
  - destruct Ha as (Hm & Hok' & Hrev & Hget & Hoth). apply winv_write; try done.
    intros x. destruct r as [[]|]; try (by right). intros [->|]%elem_of_cons; auto.
  - destruct Ha as [-> Hr]. destruct r as [[]|]; [done| |]; by destruct w.
Qed.

Lemma winv_record w wr cm cm' :
  winv w -> wr ∈ pend w -> mgrs w !! i_node (w_intent wr) = Some cm ->
  recordShard cm (w_id wr) (w_new wr) (w_rev wr) = Some cm' ->
  winv (mkWorld (store w) (<[i_node (w_intent wr) := cm']> (mgrs w)) (intents w) (hist w) (pend w)).
Proof.
  intros Hinv Hp Hm Hr. pose proof (winv_pend w Hinv wr Hp) as Hh.
  destruct (winv_mgr w Hinv _ _ Hm) as (_ & _ & _ & Hv & _).
  destruct (ShardMapping (state cm)) as [sm|] eqn:Hsm; [|unfold recordShard in Hr; by rewrite Hsm in Hr].
  destruct (recordShard_spec cm sm (w_id wr) (w_new wr) (w_rev wr) Hsm) as (sm' & Hr' & Hsm').
  rewrite Hr' in Hr. injection Hr as <-. apply (winv_set_mgr w _ cm); try done.
  intros id info. rewrite Hsm. simpl. rewrite Hsm'. case_match; [|by left].
  rewrite lookup_insert. case_decide; [|by left]. intros [= <-]. right. by exists wr.
Qed.

Lemma winv_watch w n cm wr now cm' b :
  winv w -> mgrs w !! n = Some cm -> wr ∈ hist w ->
  handleWatchEvent prefix cm (write_event wr) now = Some (cm', b) ->
  winv (mkWorld (store w) (<[n := cm']> (mgrs w)) (intents w) (hist w) (pend w)).
Proof.
  intros Hinv Hm Hh He. destruct (winv_mgr w Hinv _ _ Hm) as (_ & HN & _ & Hv & _).
  destruct (winv_hist w Hinv wr Hh) as (Hr & Hiok & _).
  assert (in_int64 (w_id wr)) as Hi by (apply range_int64; [by apply (winv_N w Hinv)|done]).
  destruct (shardKey_is_put prefix (numShards cm) (w_id wr) (formatShardInfo (w_new wr)) (w_rev wr)) as [Hput Hof];
    [lia|done|].
  destruct (ShardMapping (state cm)) as [sm|] eqn:Hsm.
  - destruct (handle_shard_put prefix cm sm (write_event wr) now Hput Hsm) as [b' He'].
    rewrite He' in He. injection He as <- _. apply (winv_set_mgr w _ cm); try done.
    intros id info. rewrite Hsm. simpl. rewrite Hof. unfold put_shard. case_match; [by left|].
    rewrite lookup_insert. case_decide; [|by left]. intros [= <-]. right. exists wr. split_and!; try done.
    unfold ev_info. simpl. by rewrite parse_format_shard.
  - exfalso. by apply (shard_put_needs_mapping prefix cm (write_event wr) now cm' b).
Qed.

Lemma winv_load w n cm now st :
  winv w -> mgrs w !! n = Some cm ->
  st = loadClusterStateFromEtcd prefix N (etcd_range (store w) prefix) (etcd_rev (store w)) now ->
  view_ok (Nodes st) ->
  winv (mkWorld (store w) (<[n := set_state cm st]> (mgrs w)) (intents w) (hist w) (pend w)).
Proof.
  intros Hinv Hm -> Hv. apply (winv_set_mgr w n cm); try done.
  intros id info Hl. right. simpl in Hl. apply load_from in Hl as [Hl|(kv & rest & Hin & Hp & Ha & ->)];
    [simpl in Hl; by rewrite lookup_empty in Hl|].
  apply (etcd_range_spec _ _ _ (winv_ok w Hinv)) in Hin as [_ Hg].
  assert (HasPrefix (Key kv) (prefix +:+ "/shard/") = true) as Hpre
    by (unfold HasPrefix; apply bool_decide_eq_true; by rewrite Hp).
  destruct (winv_key w Hinv _ _ _ Hpre Hg) as (wr & Hwr & Hk & Hval & Hr). exists wr. split; [done|].
  destruct (winv_hist w Hinv wr Hwr) as (Hid & Hiok & _).
  rewrite Hk, shardKey_rest in Hp. injection Hp as <-.
  rewrite Atoi_Itoa in Ha by (apply range_int64; [by apply (winv_N w Hinv)|done]). injection Ha as ->.
  split; [done|]. rewrite Hval, Hr. by rewrite parse_format_shard.
Qed.

Lemma hist_le_current w wr :
  winv w -> wr ∈ hist w -> (w_rev wr <= ModRevision (current (hist w) (w_id wr)))%Z.
Proof.
  intros Hinv Hwr. unfold current. destruct (list_find _ (hist w)) as [[j x]|] eqn:E.
  - apply list_find_Some in E as (Hj & Hx & Hfirst). cbn. apply list_elem_of_lookup in Hwr as [k Hk].
    destruct (Nat.lt_trichotomy k j) as [Hlt|[->|Hlt]].
    + exfalso. by apply (Hfirst k wr Hk Hlt).
    + by simplify_eq.
    + pose proof (winv_rev w Hinv (take j (hist w)) x (drop (Datatypes.S j) (hist w)) wr) as Hrev.
      rewrite take_drop_middle in Hrev by done. assert (w_rev wr < w_rev x)%Z; [|lia]. apply Hrev; [done|].
      apply list_elem_of_lookup. exists (k - Datatypes.S j)%nat. rewrite lookup_drop.
      by replace (Datatypes.S j + (k - Datatypes.S j))%nat with k by lia.
  - exfalso. apply list_find_None in E. rewrite Forall_forall in E. by apply (E wr Hwr).
Qed.

(** A write is not newer than what etcd holds for its shard *)
Lemma hist_rev_le w wr : winv w -> wr ∈ hist w -> (w_rev wr <= mod_rev (store w) (shardKey prefix (w_id wr)))%Z.
Proof. intros Hinv Hwr. destruct (winv_hist w Hinv wr Hwr) as (Hr & _ & _). rewrite (winv_cur w Hinv) by done. by apply hist_le_current. Qed.

(** Every step keeps the invariant. *)
Lemma winv_step w w' : winv w -> wstep w w' -> winv w'.
Proof.
  intros Hinv Hstep. destruct Hstep.
  - by apply winv_plan.
  - by eapply winv_commit.
  - by eapply winv_record.
  - by eapply winv_watch.
  - by eapply winv_load.
  - eapply winv_set_mgr; try done. intros id info Hl. left.
    match goal with Hs : ShardMapping (state cm') = _ |- _ => by rewrite Hs in Hl end.
Qed.

(** The invariant holds in every reachable world. *)
Lemma reachable_winv w : reachable w -> winv w.
Proof.
  intros (w0 & Hinit & Hsteps). apply winv_init in Hinit.
  induction Hsteps as [|w1 w2 w3 Hstep _ IH]; [done|]. apply IH. by eapply winv_step.
Qed.

End World.

(** ** Properties *)

(** C2: shard ownership is only ever transferred safely.  In every reachable world, for every write
    that etcd has applied, the record the writer had planned on is the record etcd held just before
    it; and if the write changes the owner, then either the writer is the target and takes a shard
    that had no owner, or an owner it did not see among the live nodes, or the writer is the owner and
    gives up a shard that is targeted at another node. *)
Theorem ownership_transfer_safe {S : Type} `{EtcdLaws S} (prefix : string) (N : Z) (w : world (S := S))
    (l1 l2 : list write) (a : write) :
  reachable prefix N w -> hist w = l1 ++ a :: l2 ->
  let writer := i_node (w_intent a) in
  let old := current l2 (w_id a) in
  i_base (w_intent a) = old /\
  (CurrentNode (w_new a) <> CurrentNode old ->
     (CurrentNode (w_new a) = writer /\ TargetNode old = writer /\
        (CurrentNode old = "" \/ CurrentNode old ∉ i_view (w_intent a))) \/
     (CurrentNode (w_new a) = "" /\ CurrentNode old = writer /\ TargetNode old <> "" /\ TargetNode old <> writer)).
Proof.
  intros Hr Hh. apply reachable_winv in Hr. destruct (winv_chain _ _ w Hr l1 a l2 Hh) as [Hb Hleg].
  cbv zeta. rewrite <-Hb. split; [done|]. intros Hne.
  destruct Hleg as [Heq _|Heq Ht Hc|Heq Hc Ht1 Ht2]; rewrite Heq in Hne |- *; simpl in *; [done|left|right]; done.
Qed.

(** C15: caches are coherent with etcd.  In every reachable world, whatever was delivered late, twice or
    out of order, the revision of a cached shard record is at most the one etcd holds for the key of that shard (so
    that a later change of the shard is never ignored as old), and when the two are equal, the record is exactly
    what parsing etcd's value gives. *)
Theorem cache_coherent {S : Type} `{EtcdLaws S} (prefix : string) (N : Z) (w : world (S := S))
    (n : string) (cm : ConsensusManager) (id : Z) (info : ShardInfo) :
  reachable prefix N w -> mgrs w !! n = Some cm -> cached cm !! id = Some info ->
  (0 < ModRevision info <= mod_rev (store w) (shardKey prefix id))%Z /\ (mod_rev (store w) (shardKey prefix id) <= etcd_rev (store w))%Z /\
  (ModRevision info = mod_rev (store w) (shardKey prefix id) ->
     exists v, etcd_get (store w) (shardKey prefix id) = Some (v, ModRevision info) /\
       parseShardInfo v (ModRevision info) = info).
Proof.
  intros Hr Hm Hl. apply reachable_winv in Hr. destruct (winv_mgr _ _ w Hr n cm Hm) as (_ & _ & _ & _ & Hc).
  destruct (Hc id info Hl) as (wr & Hwr & Hid & ->). subst id.
  destruct (winv_hist _ _ w Hr wr Hwr) as (Hrange & Hiok & Hrev). pose proof (hist_rev_le _ _ w wr Hr Hwr) as Hle.
  split; [simpl; lia|]. split.
  { unfold mod_rev. destruct (etcd_get _ _) as [[v r]|] eqn:Hg; [|lia]. eapply etcd_rev_bound; [apply (winv_ok _ _ w Hr)|done]. }
  simpl. intros Heq. clear Hle.
  unfold mod_rev in Heq. destruct (etcd_get (store w) (shardKey prefix (w_id wr))) as [[v r]|] eqn:Hg; [|lia].
  subst r. exists v. split; [done|].
  assert (HasPrefix (shardKey prefix (w_id wr)) (prefix +:+ "/shard/") = true) as Hpre
    by (unfold shardKey; rewrite append_assoc; apply HasPrefix_app).
  destruct (winv_key _ _ w Hr _ v (w_rev wr) Hpre Hg) as (wr' & Hwr' & Hk & -> & Hr').
  destruct (winv_hist _ _ w Hr wr' Hwr') as (Hrange' & Hiok' & _).
  apply shardKey_inj in Hk; [|by eapply range_int64; [apply (winv_N _ _ w Hr)|]..].
  rewrite Hr', parse_format_shard by done. symmetry.
  apply (known_unique prefix N w (w_id wr)); [done|right; by exists wr|right; exists wr'; by rewrite Hk|done].
Qed.

(** ** The operations of a manager are runs of the protocol *)

Section Operations.
Context {S : Type} `{EtcdLaws S}.
Context (prefix : string) (N : Z).
Abbreviation worldT := (world (S := S)).

(** What an operation of node [n] does to the world: the store and the manager of [n] *)
Definition after (w : worldT) (n : string) (cm : ConsensusManager) (s : S) : worldT -> Prop :=
  fun w' => rtc (wstep prefix N) w w' /\ store w' = s /\ mgrs w' = <[n := cm]> (mgrs w).

Lemma storeTask_run w n cm i f cm' s' err :
  mgrs w !! n = Some cm -> i ∈ intents w -> i_node i = n ->
  storeTask prefix cm (store w) (i_id i) (i_new i) f = Some (cm', s', err) ->
  exists w', after w n cm' s' w' /\ intents w' = intents w.
Proof.
  intros Hn Hi Hni Ht. unfold storeTask in Ht. destruct (commit (store w) _ _ _ f) as [s1 r] eqn:Hc.
  pose proof (ws_commit prefix N w i f s1 r Hi Hc) as Hs. revert Hs. set (w1 := mkWorld s1 _ _ _ _). intros Hs.
  destruct r as [[]|e].
  - destruct (recordShard cm _ _ _) as [cm1|] eqn:Hr; [|done]. injection Ht as <- <- <-.
    exists (mkWorld s1 (<[n := cm1]> (mgrs w)) (intents w) (hist w1) (pend w1)). split; [|done]. split; [|done].
    eapply rtc_l; [exact Hs|]. apply rtc_once. rewrite <-Hni.
    apply (ws_record prefix N w1 (mkWrite i (etcd_rev s1)) cm cm1); [by left|cbn; by rewrite Hni|done].
  - injection Ht as <- <- <-. exists w1. split; [|done]. split; [by apply rtc_once|]. cbn. by rewrite insert_id.
  - injection Ht as <- <- <-. exists w1. split; [|done]. split; [by apply rtc_once|]. cbn. by rewrite insert_id.
Qed.

Lemma storeTasks_run n (tasks : list (Z * ShardInfo * fault)) : forall w cm cm' s' k err,
  mgrs w !! n = Some cm ->
  (forall id info f, (id, info, f) ∈ tasks -> exists i, i ∈ intents w /\ i_node i = n /\ i_id i = id /\ i_new i = info) ->
  storeTasks prefix cm (store w) tasks = Some (cm', s', k, err) ->
  exists w', after w n cm' s' w'.
Proof.
  induction tasks as [|[[id info] f] tasks IH]; intros w cm cm' s' k err Hn Hi Ht; cbn [storeTasks] in Ht.
  { simplify_eq. exists w. split; [done|]. by rewrite insert_id. }
  destruct (storeTask prefix cm (store w) id info f) as [[[cm1 s1] e1]|] eqn:H1; [|done].
  destruct (Hi id info f) as (i & Hin & Hni & <- & <-); [by left|].
  destruct (storeTask_run w n cm i f cm1 s1 e1 Hn Hin Hni H1) as (w1 & (Hr1 & <- & Hm1) & Hi1).
  destruct (storeTasks prefix cm1 (store w1) tasks) as [[[[cm2 s2] k2] e2]|] eqn:H2; [|done].
  assert (cm2 = cm' /\ s2 = s') as [-> ->] by (destruct e1; by simplify_eq).
  destruct (IH w1 cm1 cm' s' k2 e2) as (w2 & Hr2 & Hs2 & Hm2); [by rewrite Hm1, lookup_insert_eq| |done|].
  { intros id' info' f' Hin'. rewrite Hi1. eapply Hi. by right. }
  exists w2. split; [by etrans|]. split; [done|]. by rewrite Hm2, Hm1, insert_insert_eq.
Qed.

(** Planning leaves everything but the intents *)
Lemma plan_run n cm (l : list (Z * ShardInfo)) : forall w,
  mgrs w !! n = Some cm -> (forall id new, (id, new) ∈ l -> plans cm id new) ->
  exists w', after w n cm (store w) w' /\ (forall i, i ∈ intents w -> i ∈ intents w') /\
    forall id new, (id, new) ∈ l -> exists i, i ∈ intents w' /\ i_node i = n /\ i_id i = id /\ i_new i = new.
Proof.
  induction l as [|[id new] l IH]; intros w Hn Hp.
  { exists w. split; [|by split; [|intros ?? ?%elem_of_nil]]. split; [done|]. by rewrite insert_id. }
  set (i0 := mkIntent n (Nodes (state cm)) id (shard_at (cached cm) id) new).
  set (w1 := mkWorld (store w) (mgrs w) (i0 :: intents w) (hist w) (pend w)).
  assert (wstep prefix N w w1) as Hs by (apply ws_plan; [done|apply Hp; by left]).
  destruct (IH w1 Hn) as (w' & (Hr & Hst & Hm) & Hk & Hl); [intros id' new' Hin; apply Hp; by right|].
  exists w'. split; [split; [by eapply rtc_l|done]|]. split; [intros i Hi; apply Hk; by right|].
  intros id' new' [[= -> ->]|Hin]%elem_of_cons; [|by apply Hl]. exists i0. split; [apply Hk; by left|done].
Qed.

Lemma after_refl w n cm : mgrs w !! n = Some cm -> after w n cm (store w) w.
Proof. intros Hn. split; [done|]. by rewrite insert_id. Qed.

Lemma after_trans w n cm1 s1 w1 cm2 s2 w2 : after w n cm1 s1 w1 -> after w1 n cm2 s2 w2 -> after w n cm2 s2 w2.
Proof. intros (R1 & _ & M1) (R2 & S2 & M2). split; [by etrans|]. split; [done|]. by rewrite M2, M1, insert_insert_eq. Qed.

(** A change of the manager that leaves its mapping, such as the tracking of stuck shards *)
Lemma local_run w n cm cm1 :
  mgrs w !! n = Some cm -> view_ok (Nodes (state cm)) -> state cm1 = state cm ->
  localNodeAddress cm1 = localNodeAddress cm -> numShards cm1 = numShards cm ->
  exists w', after w n cm1 (store w) w' /\ intents w' = intents w.
Proof.
  intros Hn Hv Hst Hl HN. exists (mkWorld (store w) (<[n := cm1]> (mgrs w)) (intents w) (hist w) (pend w)).
  split; [|done]. split; [|done]. apply rtc_once.
  apply (ws_local prefix N w n cm cm1); by rewrite ?Hst.
Qed.

(** Storing a plan that [cm] made, the manager being [cm1] by then *)
Lemma store_run w n cm cm1 upd tasks connected cm' s' k err notify :
  mgrs w !! n = Some cm -> view_ok (Nodes (state cm)) -> state cm1 = state cm ->
  localNodeAddress cm1 = localNodeAddress cm -> numShards cm1 = numShards cm ->
  (forall id new, upd !! id = Some new -> plans cm id new) -> tasks_of upd tasks ->
  storeShardMapping prefix cm1 (store w) connected tasks = Some (cm', s', (k, err, notify)) ->
  exists w', after w n cm' s' w'.
Proof.
  intros Hn Hv Hst Hl HN Hp Ht Hs.
  destruct (plan_run n cm (map_to_list upd) w Hn) as (w1 & A1 & _ & Hi).
  { intros id new Hin%elem_of_map_to_list. by apply Hp. }
  assert (mgrs w1 !! n = Some cm) as Hn1 by (by rewrite (proj2 (proj2 A1)), lookup_insert_eq).
  destruct (local_run w1 n cm cm1 Hn1 Hv Hst Hl HN) as (w2 & A2 & Hi2). pose proof (after_trans _ _ _ _ _ _ _ _ A1 A2) as A.
  assert (mgrs w2 !! n = Some cm1) as Hn2 by (by rewrite (proj2 (proj2 A2)), lookup_insert_eq).
  assert (store w2 = store w) as Hw by (by rewrite (proj1 (proj2 A2)), (proj1 (proj2 A1))).
  assert (cm' = cm1 /\ s' = store w \/ storeTasks prefix cm1 (store w2) tasks = Some (cm', s', k, err)) as [[-> ->]|E].
  { rewrite Hw. unfold storeShardMapping in Hs. repeat (case_match; simplify_eq); auto. }
  { exists w2. destruct A as (? & _ & ?). by split. }
  destruct (storeTasks_run n tasks w2 cm1 cm' s' k err Hn2) as (w3 & A3); [|done|].
  { intros id info f Hin. rewrite Hi2. apply Hi. rewrite <-Ht. apply list_elem_of_fmap. by exists (id, info, f). }
  exists w3. by eapply after_trans.
Qed.

(** The operations that write the shard mapping, with whatever order and faults of the writes *)
Inductive operation (cm : ConsensusManager) (s : S) (cm' : ConsensusManager) (s' : S) : Prop :=
| op_claim connected sched now r : (forall upd, tasks_of upd (sched upd)) ->
    ClaimShardsForNode prefix cm s connected sched now = Some (cm', s', r) -> operation cm s cm' s'
| op_release connected sched now objs r : (forall upd, tasks_of upd (sched upd)) ->
    ReleaseShardsForNode prefix cm s connected sched now objs = Some (cm', s', r) -> operation cm s cm' s'
| op_reassign connected sched shuffle offset r : (forall upd, tasks_of upd (sched upd)) -> (forall l, shuffle l ≡ₚ l) ->
    ReassignShardTargetNodes prefix cm s connected sched shuffle offset = Some (cm', s', r) -> operation cm s cm' s'
| op_reallocate connected sched now r : (forall upd, tasks_of upd (sched upd)) ->
    ReallocateStuckShards prefix cm s connected sched now = Some (cm', s', r) -> operation cm s cm' s'
| op_rebalance connected sched r : (forall upd, tasks_of upd (sched upd)) ->
    RebalanceShards prefix cm s connected sched = Some (cm', s', r) -> operation cm s cm' s'.

Lemma stuck_frame cm now cm1 o :
  calcReallocateStuckShards cm now = Some (cm1, o) ->
  state cm1 = state cm /\ localNodeAddress cm1 = localNodeAddress cm /\ numShards cm1 = numShards cm.
Proof.
  unfold calcReallocateStuckShards. intros Hc. case_bool_decide; [by simplify_eq|].
  destruct (ShardMapping (state cm)); [|done]. cbn in Hc. by simplify_eq.
Qed.

Lemma operation_run w n cm cm' s' :
  mgrs w !! n = Some cm -> localNodeAddress cm = n -> view_ok (Nodes (state cm)) ->
  operation cm (store w) cm' s' -> exists w', after w n cm' s' w'.
Proof.
  intros Hn Hl Hv [con sched now r Ht Ho|con sched now objs r Ht Ho|con sched sh off r Ht Hsh Ho|con sched now r Ht Ho|con sched r Ht Ho].
  - unfold ClaimShardsForNode in Ho. case_match; [simplify_eq; eauto using after_refl|].
    destruct (shardsToClaim cm) as [upd|] eqn:Hu; [|done]. case_bool_decide; [simplify_eq; eauto using after_refl|].
    destruct (storeShardMapping _ _ _ _ _) as [[[cm1 s1] [[k e] b]]|] eqn:Hs; [|done].
    destruct e; simplify_eq; eapply (store_run w _ cm cm upd); eauto using plans_claim.
  - unfold ReleaseShardsForNode in Ho. case_bool_decide; [simplify_eq; eauto using after_refl|].
    case_match; [simplify_eq; eauto using after_refl|].
    destruct (calcReleaseShardsForNode _ _ _) as [upd|] eqn:Hu; [|simplify_eq; eauto using after_refl].
    destruct (storeShardMapping _ _ _ _ _) as [[[cm1 s1] [[k e] b]]|] eqn:Hs; [|done].
    destruct e; simplify_eq; eapply (store_run w _ cm cm upd); eauto using plans_release.
  - unfold ReassignShardTargetNodes in Ho.
    destruct (calcReassignShardTargetNodes _ _ _) as [upd|] eqn:Hu; [|simplify_eq; eauto using after_refl].
    destruct (storeShardMapping _ _ _ _ _) as [[[cm1 s1] [[k e] b]]|] eqn:Hs; [|done]. simplify_eq.
    eapply (store_run w _ cm cm upd); eauto using plans_reassign.
  - unfold ReallocateStuckShards in Ho. destruct (ShardMapping (state cm)); [|done].
    destruct (calcReallocateStuckShards cm now) as [[cm1 o]|] eqn:Hu; [|done].
    destruct (stuck_frame _ _ _ _ Hu) as (H1 & H2 & H3). destruct o as [upd|].
    + destruct (storeShardMapping _ _ _ _ _) as [[[cm2 s1] [[k e] b]]|] eqn:Hs; [|done]. simplify_eq.
      eapply (store_run w _ cm cm1 upd); eauto using plans_stuck.
    + simplify_eq. destruct (local_run w _ cm cm' Hn Hv H1 H2 H3) as (w' & A & _). eauto.
  - unfold RebalanceShards in Ho. destruct (planRebalance cm) as [upd|] eqn:Hu; [|simplify_eq; eauto using after_refl].
    destruct (storeShardMapping _ _ _ _ _) as [[[cm1 s1] [[k e] b]]|] eqn:Hs; [|done].
    destruct e; simplify_eq; eapply (store_run w _ cm cm upd); eauto using plans_rebalance.
Qed.

End Operations.

(** C6: the operations of a manager stay within the protocol.  In a reachable world, when a node claims,
    releases, reassigns, reallocates or rebalances shards, with any order of its writes to etcd and any of
    them failing, the store and the manager it leaves behind are those of a reachable world, reached by
    steps of the protocol that change no other manager. *)
Theorem operations_refine_protocol {S : Type} `{EtcdLaws S} (prefix : string) (N : Z) (w : world (S := S))
    (n : string) (cm cm' : ConsensusManager) (s' : S) :
  reachable prefix N w -> mgrs w !! n = Some cm -> operation prefix cm (store w) cm' s' ->
  exists w', reachable prefix N w' /\ rtc (wstep prefix N) w w' /\ store w' = s' /\ mgrs w' = <[n := cm']> (mgrs w).
Proof.
  intros Hr Hn Ho. destruct (winv_mgr _ _ _ (reachable_winv _ _ _ Hr) n cm Hn) as (Hl & _ & _ & Hv & _).
  destruct (operation_run prefix N w n cm cm' s' Hn Hl Hv Ho) as (w' & Hs & Hst & Hm). exists w'.
  split; [|done]. destruct Hr as (w0 & Hi & Hw). exists w0. split; [done|]. by etrans.
Qed.

(** ** A run of the protocol *)

Definition ex_mgr : ConsensusManager :=
  set_state (NewConsensusManager true 0 "a:1" 2) (mkState {["a:1"]} (Some ∅) (Some ∅) "" 0 1 (Some 0%Z)).
Definition ex_intent : intent :=
  mkIntent "a:1" {["a:1"]} 0 zeroShard (WithTargetNode zeroShard "a:1").
Definition ex_w0 : world (S := EtcdMem) := mkWorld (mkMem ∅ 1) {["a:1" := ex_mgr]} [] [] [].
Definition ex_w1 : world (S := EtcdMem) := mkWorld (mkMem ∅ 1) {["a:1" := ex_mgr]} [ex_intent] [] [].
Definition ex_write : write := mkWrite ex_intent 2.
Definition ex_w2 : world (S := EtcdMem) :=
  mkWorld (mkMem {[ "/g/shard/0" := ("a:1,", 2%Z) ]} 2) {["a:1" := ex_mgr]} [ex_intent] [ex_write] [ex_write].
Definition ex_mgr3 : ConsensusManager :=
  set_state ex_mgr (set_Shards (state ex_mgr) {[ 0%Z := mkShard "a:1" "" [] 2 ]}).
Definition ex_w3 : world (S := EtcdMem) :=
  mkWorld (mkMem {[ "/g/shard/0" := ("a:1,", 2%Z) ]} 2) {["a:1" := ex_mgr3]} [ex_intent] [ex_write] [ex_write].

Lemma ex_init : init "/g" 2 ex_w0.
Proof.
  split; [split; [done|]; intros key v r Hk; simpl in Hk; by rewrite lookup_empty in Hk|].
  split; [done|]. split; [done|]. split; [|done].
  intros n cm Hn. simpl in Hn. apply lookup_singleton_Some in Hn as [<- <-]. split_and!; try done.
  intros n Hn. simpl in Hn. by apply elem_of_singleton in Hn as ->.
Qed.

Lemma ex_step1 : wstep "/g" 2 ex_w0 ex_w1.
Proof.
  eapply (ws_plan _ _ ex_w0 "a:1" ex_mgr 0); [reflexivity|].
  eapply (plans_reassign _ _ _ _ id 0); [done|reflexivity|reflexivity].
Qed.

Lemma ex_step2 : wstep "/g" 2 ex_w1 ex_w2.
Proof.
  refine (eq_rect _ (wstep "/g" 2 ex_w1)
    (ws_commit "/g" 2 ex_w1 ex_intent NoFault (store ex_w2) (Ok true) _ _) ex_w2 _);
    [by left|vm_compute; reflexivity|vm_compute; reflexivity].
Qed.

Lemma ex_step3 : wstep "/g" 2 ex_w2 ex_w3.
Proof.
  refine (eq_rect _ (wstep "/g" 2 ex_w2) (ws_record "/g" 2 ex_w2 ex_write ex_mgr ex_mgr3 _ _ _) ex_w3 _);
    [by left|vm_compute; reflexivity|vm_compute; reflexivity|vm_compute; reflexivity].
Qed.

Lemma ex_reachable : reachable "/g" 2 ex_w3.
Proof.
  exists ex_w0. split; [apply ex_init|].
  eapply rtc_l; [apply ex_step1|]. eapply rtc_l; [apply ex_step2|]. eapply rtc_l; [apply ex_step3|]. apply rtc_refl.
Qed.

Lemma ownership_transfer_safe_witness :
  i_base (w_intent ex_write) = current [] 0.
Proof. apply (ownership_transfer_safe "/g" 2 ex_w3 [] [] ex_write ex_reachable). reflexivity. Defined.

Lemma cache_coherent_witness :
  exists v, etcd_get (store ex_w3) (shardKey "/g" 0) = Some (v, 2%Z) /\
    parseShardInfo v 2 = mkShard "a:1" "" [] 2.
Proof.
  refine (proj2 (proj2 (cache_coherent "/g" 2 ex_w3 "a:1" ex_mgr3 0 (mkShard "a:1" "" [] 2) ex_reachable _ _)) _); reflexivity.
Defined.

Definition in_order (upd : shards) : list (Z * ShardInfo * fault) := (fun e => (e, NoFault)) <$> map_to_list upd.

Lemma in_order_tasks upd : tasks_of upd (in_order upd).
Proof. unfold tasks_of, in_order. rewrite <-list_fmap_compose. by rewrite list_fmap_id. Qed.

Lemma operations_refine_protocol_witness :
  exists w', reachable "/g" 2 w' /\ mem_kv (store w') !! "/g/shard/1" = Some ("a:1,", 2%Z).
Proof.
  destruct (ReassignShardTargetNodes "/g" ex_mgr (mkMem ∅ 1) true in_order (fun l => l) 0) as [[[cm' s'] r]|] eqn:E;
    [|vm_compute in E; discriminate E].
  destruct (operations_refine_protocol "/g" 2 ex_w0 "a:1" ex_mgr cm' s') as (w' & Hr & _ & Hs & _).
  - exists ex_w0. split; [exact ex_init|constructor].
  - reflexivity.
  - by apply (op_reassign "/g" ex_mgr (mkMem ∅ 1) cm' s' true in_order (fun l => l) 0 r in_order_tasks).
  - exists w'. split; [exact Hr|]. rewrite Hs. vm_compute in E. injection E as _ <- _. reflexivity.
Defined.
