(* ===== verification/ConsensusWatch.v ===== *)
(** * The watch of the consensus manager (cluster/consensusmanager)

    [Module Watch]: the goroutine [watchPrefix] of one manager with its reconnections, next to the changes of
    the key space that others make and to the manager's own writes, which it records in its state before their watch
    event arrives.  etcd is the history of the changes under the prefix: a read returns what the changes so
    far amount to, a watch from a revision delivers the changes after it in order.  A step is one watch event,
    one read, or one change. *)

From S2P Require Import Prelude GoStrings ObjectId ConsensusState ConsensusPlan EtcdStore ConsensusStore ConsensusProtocol.
Import Shards Consensus Store.

Module Watch.

(** What the changes amount to: the pair and the revision of each key *)
Abbreviation content := (gmap string (string * Z)).
Definition applyEvent (m : content) (ev : Event) : content :=
  match EvType ev with
  | EventTypePut => <[Key (Kv ev) := (Value (Kv ev), KvModRevision (Kv ev))]> m
  | EventTypeDelete => delete (Key (Kv ev)) m
  end.
Definition contents (hist : list Event) : content := fold_left applyEvent hist ∅.

(** The pairs that a read of the prefix returns *)
Definition readPrefix (hist : list Event) : list KeyValue := (fun e => mkKV e.1 e.2.1 e.2.2) <$> map_to_list (contents hist).

(** Where a watch from the revision after [revision] starts *)
Definition position (hist : list Event) (revision : Z) : nat := length (filter (fun ev => (KvModRevision (Kv ev) <= revision)%Z) hist).

Definition second : Z := 1000000000.
Definition initialBackoff : Z := second.
Definition maxBackoff : Z := 30 * second.

(** Where [watchPrefix] is: about to open a watch; receiving, with the position of the next event; waiting for the backoff
    timer; about to replace the state by a loaded one; returned *)
Inductive phase : Type := Opening | Watching (pos : nat) | BackingOff | Loaded (st : ClusterState) | Stopped.

Record world : Type := mkWorld {
  cm : ConsensusManager;
  hist : list Event;
  etcdRevision : Z;
  ph : phase;
  backoff : Z;
  panicked : bool
}.

Definition on_cm (w : world) (c : ConsensusManager) : world := mkWorld c (hist w) (etcdRevision w) (ph w) (backoff w) (panicked w).
Definition goto (w : world) (c : ConsensusManager) (p : phase) (b : Z) : world := mkWorld c (hist w) (etcdRevision w) p b (panicked w).

(** The reload of [watchPrefix] *)
Definition reload (prefix : string) (w : world) (now : Z) : ClusterState :=
  loadClusterStateFromEtcd prefix (numShards (cm w)) (readPrefix (hist w)) (etcdRevision w) now.

(** The backoff after a reload that failed *)
Definition nextBackoff (b : Z) : Z := if (maxBackoff <? b * 2)%Z then maxBackoff else (b * 2)%Z.

(** The in-memory half of [TryBecomeLeader] *)
Definition recordLeader (c : ConsensusManager) (revision : Z) : ConsensusManager :=
  if (LeaderModRevision (state c) <? revision)%Z
  then set_state c (set_Leader (state c) (localNodeAddress c) revision (LastChange (state c)))
  else c.

(** ** The keys *)

Inductive slot : Type := SLeader | SNode (a : string) | SGate (a : string) | SShard (z : Z).

Definition slot_key (prefix : string) (x : slot) : string :=
  match x with
  | SLeader => prefix +:+ "/leader"
  | SNode a => prefix +:+ "/nodes/" +:+ a
  | SGate a => prefix +:+ "/gates/" +:+ a
  | SShard z => shardKey prefix z
  end.

Definition slot_ok (n : Z) (x : slot) : Prop :=
  match x with SLeader => True | SNode a | SGate a => a <> "" | SShard z => (0 <= z < n)%Z end.

(** A key that neither the handlers nor the loader look at *)
Definition ignored (prefix : string) (n : Z) (key : string) : Prop :=
  key <> prefix +:+ "/leader" /\ TrimPrefix_opt (prefix +:+ "/nodes/") key = None /\ TrimPrefix_opt (prefix +:+ "/gates/") key = None /\
  match TrimPrefix_opt (prefix +:+ "/shard/") key with
  | None => True
  | Some rest => match Atoi rest with None => True | Some z => (z < 0 \/ n <= z)%Z end
  end.

(** The changes that goverse makes: nodes and gates are put under their address, shards under their number *)
Definition good_change (prefix : string) (n : Z) (ev : Event) : Prop :=
  ignored prefix n (Key (Kv ev)) \/
  exists x, slot_ok n x /\ Key (Kv ev) = slot_key prefix x /\
    (EvType ev = EventTypePut -> match x with SNode a | SGate a => Value (Kv ev) = a | _ => True end).

(** The put of a key at a revision is in the history, and the key is not deleted afterwards *)
Definition committed (h : list Event) (key value : string) (rev : Z) : Prop :=
  exists q, h !! q = Some (mkEvent EventTypePut (mkKV key value rev)) /\
    forall j ev, (q < j)%nat -> h !! j = Some ev -> Key (Kv ev) = key -> EvType ev = EventTypePut.

Inductive step (prefix : string) (w : world) : world -> Prop :=
(* others, or this manager, change the key space in one transaction *)
| W_change evs rev : (etcdRevision w < rev)%Z -> Forall (fun ev => good_change prefix (numShards (cm w)) ev /\ KvModRevision (Kv ev) = rev) evs ->
    NoDup ((fun ev => Key (Kv ev)) <$> evs) ->
    step prefix w (mkWorld (cm w) (hist w ++ evs) rev (ph w) (backoff w) (panicked w))
(* this manager records a write that succeeded *)
| W_record id info rev c' : (0 <= id < numShards (cm w))%Z -> info_ok info = true ->
    committed (hist w) (shardKey prefix id) (formatShardInfo info) rev ->
    recordShard (cm w) id info rev = Some c' -> step prefix w (on_cm w c')
| W_record_leader rev : committed (hist w) (prefix +:+ "/leader") (localNodeAddress (cm w)) rev ->
    step prefix w (on_cm w (recordLeader (cm w) rev))
(* watchPrefixOnce *)
| W_open : ph w = Opening -> step prefix w (goto w (cm w) (Watching (position (hist w) (Revision (state (cm w))))) (backoff w))
| W_deliver pos ev now c' b : ph w = Watching pos -> hist w !! pos = Some ev -> handleWatchEvent prefix (cm w) ev now = Some (c', b) ->
    step prefix w (goto w c' (Watching (S pos)) (backoff w))
| W_panic pos ev now : ph w = Watching pos -> hist w !! pos = Some ev -> handleWatchEvent prefix (cm w) ev now = None ->
    step prefix w (mkWorld (cm w) (hist w) (etcdRevision w) Stopped (backoff w) true)
| W_broken : (ph w = Opening \/ exists pos, ph w = Watching pos) -> step prefix w (goto w (cm w) BackingOff (backoff w))
(* the rest of the loop of watchPrefix *)
| W_reload now : ph w = BackingOff -> step prefix w (goto w (cm w) (Loaded (reload prefix w now)) (backoff w))
| W_replace st : ph w = Loaded st -> step prefix w (goto w (set_state (cm w) st) Opening initialBackoff)
| W_reload_failed : ph w = BackingOff -> step prefix w (goto w (cm w) Opening (nextBackoff (backoff w)))
| W_stop : step prefix w (goto w (cm w) Stopped (backoff w)).

(** A manager that has loaded the state from etcd, and whose watch has been started *)
Definition start (prefix : string) (c : ConsensusManager) (h : list Event) (rev now : Z) : world :=
  let w := mkWorld c h rev Opening initialBackoff false in on_cm w (set_state c (reload prefix w now)).

(** A history of etcd: revisions are positive, do not go back, and go up from one change of a key to the next *)
Definition history (prefix : string) (n : Z) (h : list Event) (rev : Z) : Prop :=
  (0 <= rev)%Z /\
  (forall i ev, h !! i = Some ev -> good_change prefix n ev /\ (0 < KvModRevision (Kv ev) <= rev)%Z) /\
  (forall i j e1 e2, (i < j)%nat -> h !! i = Some e1 -> h !! j = Some e2 ->
     (KvModRevision (Kv e1) <= KvModRevision (Kv e2))%Z /\
     (Key (Kv e1) = Key (Kv e2) -> (KvModRevision (Kv e1) < KvModRevision (Kv e2))%Z)).

End Watch.

Import Watch.

(** ** Lemmas: one slot of the state *)

(** The state has a slot as the pair [o] of its key says *)
Definition as_of (o : option (string * Z)) (st : ClusterState) (x : slot) : Prop :=
  match x with
  | SLeader => (Leader st, LeaderModRevision st) = default ("", 0%Z) o
  | SNode a => a ∈ Nodes st <-> is_Some o
  | SGate a => a ∈ default ∅ (Gates st) <-> is_Some o
  | SShard z => default ∅ (ShardMapping st) !! z = (fun p => parseShardInfo p.1 p.2) <$> o
  end.

(** The revision the state holds for a slot *)
Definition held_rev (st : ClusterState) (x : slot) : Z :=
  match x with
  | SLeader => LeaderModRevision st
  | SShard z => ModRevision (shard_at (default ∅ (ShardMapping st)) z)
  | _ => 0
  end.

Lemma as_of_rev o st x : as_of o st x -> (forall v r, o = Some (v, r) -> (0 < r)%Z) -> (held_rev st x <= default 0 (snd <$> o))%Z.
Proof.
  intros Ha Hr. destruct o as [[v r]|]; [specialize (Hr _ _ eq_refl)|clear Hr]; destruct x; cbn in *; try lia; try (injection Ha as _ ->; lia).
  - unfold shard_at. rewrite Ha. cbn. rewrite ModRevision_parse. lia.
  - unfold shard_at. rewrite Ha. cbn. lia.
Qed.

Section Keys.
Context (prefix : string) (n : Z) (Hn : in_int64 n).

Lemma slot_int64 z : (0 <= z < n)%Z -> in_int64 z.
Proof. unfold in_int64 in *. lia. Qed.

Lemma slot_key_inj x y : slot_ok n x -> slot_ok n y -> slot_key prefix x = slot_key prefix y -> x = y.
Proof.
  destruct x, y; cbn; unfold shardKey; intros Hx Hy Hk; try (by apply append_cancel_l in Hk); try done.
  - apply append_cancel_l, (append_cancel_l "/nodes/") in Hk. congruence.
  - apply append_cancel_l, (append_cancel_l "/gates/") in Hk. congruence.
  - f_equal. apply (shardKey_inj prefix); [by apply slot_int64..|exact Hk].
Qed.

Lemma slot_not_ignored x : slot_ok n x -> ~ ignored prefix n (slot_key prefix x).
Proof.
  intros Hx (H1 & H2 & H3 & H4). destruct x; cbn in *; [done| | |].
  - rewrite TrimPrefix_opt_app in H2. done.
  - rewrite TrimPrefix_opt_app in H3. done.
  - rewrite shardKey_rest, Atoi_Itoa in H4 by (by apply slot_int64). lia.
Qed.

Lemma key_under_same p a : a <> "" -> key_under (prefix +:+ p) (prefix +:+ p +:+ a) = Some a.
Proof.
  intros Ha. unfold key_under. rewrite TrimPrefix_opt_app, (proj2 (TrimPrefix_opt_Some p (p +:+ a) a) eq_refl).
  by rewrite bool_decide_false.
Qed.

(** Which handler an event goes to *)
Lemma dispatch c ev now x : slot_ok n x -> Key (Kv ev) = slot_key prefix x ->
  handleWatchEvent prefix c ev now = match x with
    | SLeader => handleLeaderEvent c ev now
    | SNode a => handleNodeEvent c ev a now
    | SGate a => handleGateEvent c ev a now
    | SShard z => handleShardEvent c ev (Itoa z)
    end.
Proof.
  intros Hx Hk. unfold handleWatchEvent. rewrite Hk. destruct x; cbn [slot_key]; [by rewrite bool_decide_true| | |].
  all: rewrite bool_decide_false by (unfold shardKey; intros Heq%append_cancel_l; done).
  - by rewrite key_under_same.
  - rewrite (key_under_same "/gates/") by done. unfold key_under. by rewrite TrimPrefix_opt_app.
  - rewrite shardKey_under. unfold key_under, shardKey. by rewrite !TrimPrefix_opt_app.
Qed.

Lemma handle_ignored c ev now : numShards c = n -> ignored prefix n (Key (Kv ev)) -> handleWatchEvent prefix c ev now = Some (c, false).
Proof.
  intros Hc (H1 & H2 & H3 & H4). unfold handleWatchEvent, key_under. rewrite bool_decide_false, H2, H3 by done.
  destruct (TrimPrefix_opt (prefix +:+ "/shard/") _) as [rest|]; [|done]. case_bool_decide; [done|].
  unfold handleShardEvent. destruct (Atoi rest) as [z|]; [|done]. rewrite Hc.
  destruct ((z <? 0) || (n <=? z))%Z eqn:E; [done|]. apply orb_false_iff in E as [?%Z.ltb_ge ?%Z.leb_gt]. lia.
Qed.

(** The mapping has only shards in range *)
Definition in_range (st : ClusterState) : Prop := forall z, is_Some (default ∅ (ShardMapping st) !! z) -> (0 <= z < n)%Z.

(** No node and no gate has an empty address *)
Definition named (st : ClusterState) : Prop := "" ∉ Nodes st /\ "" ∉ default ∅ (Gates st).

(** What a change of the state leaves alone *)
Definition keeps (c c' : ConsensusManager) : Prop :=
  numShards c' = numShards c /\ Revision (state c') = Revision (state c) /\ wf_state (state c') /\
  (in_range (state c) -> in_range (state c')) /\ (named (state c) -> named (state c')).

Definition change (ev : Event) : option (string * Z) :=
  match EvType ev with EventTypePut => Some (Value (Kv ev), KvModRevision (Kv ev)) | EventTypeDelete => None end.

Lemma in_range_insert (sm : shards) z i : (0 <= z < n)%Z -> (forall y, is_Some (sm !! y) -> (0 <= y < n)%Z) ->
  forall y, is_Some (<[z := i]> sm !! y) -> (0 <= y < n)%Z.
Proof. intros Hz Hs y. rewrite lookup_insert_is_Some. intros [->|[_ ?]]; auto. Qed.

(** A change of the state that does not touch its maps *)
Lemma keeps_maps c st : wf_state (state c) -> Revision st = Revision (state c) -> is_Some (Gates st) -> ShardMapping st = ShardMapping (state c) ->
  (named (state c) -> named st) -> keeps c (set_state c st).
Proof.
  intros [_ Hs] Hr Hg Hm Hnm. unfold keeps, in_range, wf_state. cbn. rewrite Hm. by split_and!.
Qed.

Lemma keeps_refl c : wf_state (state c) -> keeps c c.
Proof. intros Hwf. unfold keeps. by split_and!. Qed.

(** An event of a slot is stale, or puts the slot as the event says; it leaves the other slots alone. *)
Lemma handle_slot c ev now x :
  numShards c = n -> wf_state (state c) -> slot_ok n x -> Key (Kv ev) = slot_key prefix x -> (0 < KvModRevision (Kv ev))%Z ->
  (EvType ev = EventTypePut -> match x with SNode a | SGate a => Value (Kv ev) = a | _ => True end) ->
  exists c' b, handleWatchEvent prefix c ev now = Some (c', b) /\ keeps c c' /\
    (c' = c /\ (KvModRevision (Kv ev) <= held_rev (state c) x)%Z \/ as_of (change ev) (state c') x) /\
    (forall y o, slot_ok n y -> y <> x -> as_of o (state c) y -> as_of o (state c') y).
Proof.
  intros Hc Hwf Hx Hk Hr Hv. rewrite (dispatch c ev now x Hx Hk). destruct Hwf as [[g Hg] [sm Hs]].
  assert (wf_state (state c)) as Hwf by (split; [by exists g|by exists sm]). unfold change.
  destruct x as [|a|a|z].
  - unfold handleLeaderEvent. destruct (_ <=? _)%Z eqn:E; [apply Z.leb_le in E|].
    { exists c, false. split; [done|]. split; [by apply keeps_refl|]. split; [by left|done]. }
    destruct (EvType ev); (do 2 eexists; split; [done|]; split; [by apply keeps_maps; cbn; eauto|]; split; [by right|]; by intros [] o).
  - unfold handleNodeEvent. cbn in Hx.
    destruct (EvType ev); (do 2 eexists; split; [done|]; split;
      [apply keeps_maps; cbn; [done|done|by eexists|done|]; rewrite ?Hv by done; intros []; split; cbn; [set_solver|done]|]; split; [right|]).
    + cbn. rewrite Hv by done. split; [by eexists|set_solver].
    + intros [|a'| |] o Hy Hne; cbn; try done. rewrite Hv by done. set_solver.
    + cbn. split; [set_solver|by intros []].
    + intros [|a'| |] o Hy Hne; cbn; try done. set_solver.
  - unfold handleGateEvent. rewrite Hg. destruct (EvType ev); cbn [mbind option_bind fmap option_fmap option_map];
      (do 2 eexists; split; [done|]; split;
        [apply keeps_maps; cbn; [done|done|by eexists|done|]; rewrite ?Hv by done; unfold named; cbn; rewrite Hg; cbn; intros []; split; [done|set_solver]|];
       split; [right|]).
    + cbn. rewrite Hv by done. split; [by eexists|set_solver].
    + intros [| |a'|] o Hy Hne; cbn; try done. rewrite Hg. cbn. rewrite Hv by done. set_solver.
    + cbn. split; [set_solver|by intros []].
    + intros [| |a'|] o Hy Hne; cbn; try done. rewrite Hg. cbn. set_solver.
  - unfold handleShardEvent. cbn in Hx. rewrite Atoi_Itoa by (by apply slot_int64). rewrite Hc.
    rewrite (proj2 (orb_false_iff _ _)) by (split; [apply Z.ltb_ge|apply Z.leb_gt]; lia). rewrite Hs. cbn [mbind option_bind].
    destruct (EvType ev).
    + rewrite ModRevision_parse. destruct (_ <=? _)%Z eqn:E; [apply Z.leb_le in E|].
      { exists c, false. split; [done|]. split; [by apply keeps_refl|]. split; [left; cbn; by rewrite Hs|done]. }
      do 2 eexists. split; [done|]. split; [split; [done|split; [done|split; [by split; cbn; eauto|split; [|done]]]]|split; [right|]].
      * intros Hin. unfold in_range in *. cbn. rewrite Hs in Hin. by apply in_range_insert.
      * cbn. by rewrite lookup_insert_eq.
      * intros [| | |z'] o Hy Hne; cbn; try done. rewrite Hs. cbn. by rewrite lookup_insert_ne by congruence.
    + destruct (_ <=? _)%Z eqn:E; [apply Z.leb_le in E|].
      { exists c, false. split; [done|]. split; [by apply keeps_refl|]. split; [left; cbn; by rewrite Hs|done]. }
      do 2 eexists. split; [done|]. split; [split; [done|split; [done|split; [by split; cbn; eauto|split; [|done]]]]|split; [right|]].
      * intros Hin y. cbn. unfold in_range in Hin. rewrite Hs in Hin. rewrite lookup_delete_is_Some. intros [_ ?]. by apply Hin.
      * cbn. by rewrite lookup_delete_eq.
      * intros [| | |z'] o Hy Hne; cbn; try done. rewrite Hs. cbn. by rewrite lookup_delete_ne by congruence.
Qed.

(** Recording an own write that succeeded *)
Lemma record_slot c id info r c' :
  wf_state (state c) -> (0 <= id < n)%Z -> info_ok info = true -> recordShard c id info r = Some c' ->
  keeps c c' /\
  (c' = c \/ (held_rev (state c) (SShard id) < r)%Z /\ as_of (Some (formatShardInfo info, r)) (state c') (SShard id)) /\
  (forall y o, slot_ok n y -> y <> SShard id -> as_of o (state c) y -> as_of o (state c') y).
Proof.
  intros Hwf Hid Hok. pose proof Hwf as [Hg [sm Hs]]. unfold recordShard. rewrite Hs.
  destruct (_ <? _)%Z eqn:E; intros [= <-].
  - split; [split; [done|split; [done|split; [by split; cbn; eauto|split; [|done]]]]|split; [right|]].
    + intros Hin. unfold in_range in *. cbn. rewrite Hs in Hin. by apply in_range_insert.
    + cbn. rewrite lookup_insert_eq, parse_format_shard, Hs by done. split; [by apply Z.ltb_lt|done].
    + intros [| | |z'] o Hy Hne; cbn; try done. rewrite Hs. cbn. by rewrite lookup_insert_ne by congruence.
  - split; [by apply keeps_refl|]. split; [by left|done].
Qed.

Lemma record_leader_slot c r :
  wf_state (state c) ->
  keeps c (recordLeader c r) /\
  (recordLeader c r = c \/ (held_rev (state c) SLeader < r)%Z /\ as_of (Some (localNodeAddress c, r)) (state (recordLeader c r)) SLeader) /\
  (forall y o, slot_ok n y -> y <> SLeader -> as_of o (state c) y -> as_of o (state (recordLeader c r)) y).
Proof.
  intros Hwf. pose proof Hwf as [Hg _]. unfold recordLeader. destruct (_ <? _)%Z eqn:E.
  - split; [by apply keeps_maps|]. split; [right; split; [by apply Z.ltb_lt|done]|]. by intros [] o.
  - split; [by apply keeps_refl|]. split; [by left|done].
Qed.

(** Loading one pair *)
Lemma load_slot st kv :
  good_change prefix n (put_event kv) -> wf_state st ->
  wf_state (loadKv prefix n st kv) /\ Revision (loadKv prefix n st kv) = Revision st /\ (in_range st -> in_range (loadKv prefix n st kv)) /\
  (named st -> named (loadKv prefix n st kv)) /\
  forall x o, slot_ok n x -> as_of o st x ->
    as_of (if decide (slot_key prefix x = Key kv) then Some (Value kv, KvModRevision kv) else o) (loadKv prefix n st kv) x.
Proof.
  intros [Hi|(x & Hx & Hk & Hv)] Hwf; cbn in *.
  { assert (loadKv prefix n st kv = st) as ->.
    { destruct Hi as (H1 & H2 & H3 & H4). unfold loadKv. rewrite bool_decide_false, H2, H3 by done.
      destruct (TrimPrefix_opt (prefix +:+ "/shard/") _) as [rest|]; [|done]. destruct (Atoi rest) as [z|]; [|done].
      destruct ((z <? 0) || (n <=? z))%Z eqn:E; [done|]. apply orb_false_iff in E as [?%Z.ltb_ge ?%Z.leb_gt]. lia. }
    split_and!; try done. intros x o Hx Ha. rewrite decide_False; [done|]. intros Hk. rewrite <-Hk in Hi.
    by apply slot_not_ignored in Hi. }
  assert (exists st', loadKv prefix n st kv = st' /\ wf_state st' /\ Revision st' = Revision st /\ (in_range st -> in_range st') /\ (named st -> named st') /\
    as_of (Some (Value kv, KvModRevision kv)) st' x /\ forall y o, slot_ok n y -> y <> x -> as_of o st y -> as_of o st' y)
    as (st' & -> & H1 & H2 & H3 & H6 & H4 & H5).
  { eexists. split; [reflexivity|]. pose proof Hwf as [[g Hg] [sm Hs]]. unfold loadKv. rewrite Hk. destruct x as [|a|a|z]; cbn [slot_key].
    - rewrite bool_decide_true by done. split_and!; try done. by intros [] o.
    - rewrite bool_decide_false by (intros Heq%append_cancel_l; done).
      rewrite TrimPrefix_opt_app, (proj2 (TrimPrefix_opt_Some "/nodes/" ("/nodes/" +:+ a) a) eq_refl).
      cbn in Hx. split_and!; try done; [unfold named; cbn; rewrite Hv by done; set_solver|cbn; rewrite Hv by done; split; [by eexists|set_solver]|].
      intros [|a'| |] o Hy Hne; cbn; try done. rewrite Hv by done. set_solver.
    - rewrite bool_decide_false by (intros Heq%append_cancel_l; done). rewrite (TrimPrefix_opt_app prefix "/nodes/").
      change (TrimPrefix_opt "/nodes/" ("/gates/" +:+ a)) with (@None string).
      rewrite TrimPrefix_opt_app, (proj2 (TrimPrefix_opt_Some "/gates/" ("/gates/" +:+ a) a) eq_refl).
      cbn in Hx. split; [split; [by eexists|by exists sm]|]. split; [done|]. split; [done|].
      split; [unfold named; cbn; rewrite Hv by done; set_solver|]. split; [cbn; rewrite Hv by done; split; [by eexists|set_solver]|].
      intros [| |a'|] o Hy Hne; cbn; try done. rewrite Hv by done. set_solver.
    - rewrite bool_decide_false by (unfold shardKey; intros Heq%append_cancel_l; done). rewrite shardKey_rest. unfold shardKey. rewrite !TrimPrefix_opt_app.
      change (TrimPrefix_opt "/nodes/" ("/shard/" +:+ Itoa z)) with (@None string).
      change (TrimPrefix_opt "/gates/" ("/shard/" +:+ Itoa z)) with (@None string). cbn [slot_ok] in Hx. rewrite Atoi_Itoa by (by apply slot_int64).
      rewrite (proj2 (orb_false_iff _ _)) by (split; [apply Z.ltb_ge|apply Z.leb_gt]; lia). rewrite Hs.
      split; [split; [by exists g|by eexists]|]. split; [done|]. split; [|split; [done|split]].
      + intros Hin. unfold in_range in *. cbn. rewrite Hs in Hin. by apply in_range_insert.
      + cbn. by rewrite lookup_insert_eq.
      + intros [| | |z'] o Hy Hne; cbn; try done. rewrite Hs. cbn. by rewrite lookup_insert_ne by congruence. }
  split_and!; try done. intros y o Hy Ha. case_decide as E.
  - rewrite Hk in E. apply slot_key_inj in E as ->; done.
  - apply H5; [done| |done]. intros ->. by rewrite Hk in E.
Qed.

(** Loading pairs with different keys *)
Lemma load_slots kvs st x o :
  Forall (fun kv => good_change prefix n (put_event kv)) kvs -> NoDup (Key <$> kvs) -> wf_state st -> slot_ok n x -> as_of o st x ->
  let st' := fold_left (loadKv prefix n) kvs st in
  let m := list_to_map ((fun kv => (Key kv, (Value kv, KvModRevision kv))) <$> kvs) : content in
  wf_state st' /\ Revision st' = Revision st /\ (in_range st -> in_range st') /\ (named st -> named st') /\
  as_of (match m !! slot_key prefix x with Some p => Some p | None => o end) st' x.
Proof.
  intros Hg. revert st o. induction Hg as [|kv kvs Hkv Hg IH]; intros st o HN Hwf Hx Ha; cbn; [done|].
  cbn in HN. apply NoDup_cons in HN as [Hni HN].
  destruct (load_slot st kv Hkv Hwf) as (H1 & H2 & H3 & H3' & H4). specialize (H4 x o Hx Ha).
  destruct (IH _ _ HN H1 Hx H4) as (J1 & J2 & J3 & J3' & J4). split_and!; [done|congruence|auto|auto|].
  case_decide as E.
  - rewrite E in *. rewrite lookup_insert_eq. rewrite (not_elem_of_list_to_map_1 _ (Key kv)) in J4; [done|].
    rewrite <-list_fmap_compose. exact Hni.
  - by rewrite lookup_insert_ne by congruence.
Qed.

End Keys.

(** ** Lemmas: histories *)

Lemma length_filter_all {A : Type} (P : A -> Prop) `{!forall x, Decision (P x)} (l : list A) :
  (forall x, x ∈ l -> P x) -> length (filter P l) = length l.
Proof. induction l as [|a l IH]; intros Hp; [done|]. rewrite filter_cons_True by (apply Hp; left). cbn. rewrite IH; [done|]. intros x ?. apply Hp. by right. Qed.
Lemma length_filter_none {A : Type} (P : A -> Prop) `{!forall x, Decision (P x)} (l : list A) :
  (forall x, x ∈ l -> ~ P x) -> length (filter P l) = 0%nat.
Proof. induction l as [|a l IH]; intros Hp; [done|]. rewrite filter_cons_False by (apply Hp; left). apply IH. intros x ?. apply Hp. by right. Qed.

Lemma contents_snoc h ev : contents (h ++ [ev]) = applyEvent (contents h) ev.
Proof. unfold contents. by rewrite fold_left_app. Qed.

Lemma contents_S h p ev k : h !! p = Some ev ->
  contents (take (S p) h) !! k = if decide (Key (Kv ev) = k) then change ev else contents (take p h) !! k.
Proof.
  intros Hp. rewrite (take_S_r _ _ _ Hp), contents_snoc. unfold applyEvent, change.
  destruct (EvType ev); [by rewrite lookup_insert|by rewrite lookup_delete].
Qed.

(** The pair of a key is that of its last put. *)
Lemma contents_put h p k v r : contents (take p h) !! k = Some (v, r) ->
  exists i, (i < p)%nat /\ h !! i = Some (mkEvent EventTypePut (mkKV k v r)).
Proof.
  induction p as [|p IH]; [done|]. destruct (h !! p) as [ev|] eqn:E.
  - rewrite (contents_S _ _ _ _ E). case_decide as Ek.
    + unfold change. destruct ev as [[] [k' v' r']]; [|done]. cbn in *. intros [= -> ->]. subst. exists p. split; [lia|done].
    + intros (i & Hi & ?)%IH. exists i. split; [lia|done].
  - intros Hc. destruct IH as (i & Hi & ?); [|exists i; split; [lia|done]].
    rewrite take_ge in Hc by (apply lookup_ge_None in E; lia). by rewrite take_ge by (apply lookup_ge_None in E; lia).
Qed.

Section History.
Context (prefix : string) (n rev : Z) (h : list Event) (Hh : history prefix n h rev).

Lemma contents_rev p k v r : contents (take p h) !! k = Some (v, r) -> (0 < r <= rev)%Z.
Proof. intros (i & _ & Hi)%contents_put. destruct Hh as (_ & Hg & _). by destruct (Hg _ _ Hi). Qed.

Lemma contents_newer p j ev v r : (p <= j)%nat -> h !! j = Some ev -> contents (take p h) !! Key (Kv ev) = Some (v, r) ->
  (r < KvModRevision (Kv ev))%Z.
Proof.
  intros Hj Hev (i & Hi & Hput)%contents_put. destruct Hh as (_ & _ & Hs).
  destruct (Hs i j _ _ ltac:(lia) Hput Hev) as [_ Hlt]. by apply Hlt.
Qed.

(** The pairs of a read of the prefix *)
Lemma read_good : Forall (fun kv => good_change prefix n (put_event kv)) (readPrefix h).
Proof.
  apply Forall_forall. intros kv ([k [v r]] & -> & Hin%elem_of_map_to_list)%list_elem_of_fmap. cbn.
  rewrite <-(firstn_all h) in Hin. apply contents_put in Hin as (i & _ & Hi). destruct Hh as (_ & Hg & _).
  by destruct (Hg _ _ Hi).
Qed.

Lemma read_keys : NoDup (Key <$> readPrefix h).
Proof.
  unfold readPrefix. rewrite <-list_fmap_compose. cbn.
  replace (Key ∘ (fun e : string * (string * Z) => mkKV e.1 e.2.1 e.2.2) <$> map_to_list (contents h)) with (map_to_list (contents h)).*1 by done.
  apply NoDup_fst_map_to_list.
Qed.

Lemma read_map : list_to_map ((fun kv => (Key kv, (Value kv, KvModRevision kv))) <$> readPrefix h) = contents h.
Proof.
  unfold readPrefix. rewrite <-list_fmap_compose. rewrite <-(list_to_map_to_list (contents h)) at 2. f_equal.
  rewrite <-(list_fmap_id (map_to_list (contents h))) at 2. apply list_fmap_ext. by intros i [k [v r]] _.
Qed.

(** A loaded state has every slot as the history says. *)
Lemma loaded now x : in_int64 n -> slot_ok n x ->
  let st := loadClusterStateFromEtcd prefix n (readPrefix h) rev now in
  wf_state st /\ Revision st = rev /\ in_range n st /\ named st /\ as_of (contents h !! slot_key prefix x) st x.
Proof.
  intros Hn Hx. unfold loadClusterStateFromEtcd.
  assert (as_of None (mkState ∅ (Some ∅) (Some ∅) "" 0 rev (Some now)) x) as Ha.
  { destruct x; cbn; try done; (split; [set_solver|by intros []]). }
  assert (wf_state (mkState ∅ (Some ∅) (Some ∅) "" 0 rev (Some now))) as Hwf by (split; by eexists).
  destruct (load_slots prefix n Hn (readPrefix h) _ x None read_good read_keys Hwf Hx Ha) as (H1 & H2 & H3 & H3' & H4). rewrite read_map in H4.
  split; [done|]. split; [done|]. split; [|split; [by apply H3'; split; set_solver|by destruct (contents h !! _)]]. apply H3. intros z. cbn. rewrite lookup_empty. by intros [].
Qed.

(** The watch from the revision after [r] starts at the first later change. *)
Lemma position_base r base : (base <= length h)%nat ->
  (forall i ev, h !! i = Some ev -> (KvModRevision (Kv ev) <= r)%Z <-> (i < base)%nat) -> position h r = base.
Proof.
  intros Hb Hr. unfold position. rewrite <-(take_drop base h), filter_app, length_app.
  rewrite (length_filter_all _ (take base h)), (length_filter_none _ (drop base h)); [rewrite length_take; lia| |].
  - intros ev (i & Hi)%list_elem_of_lookup. rewrite lookup_drop in Hi. rewrite (Hr _ _ Hi). lia.
  - intros ev (i & Hi)%list_elem_of_lookup. apply lookup_take_Some in Hi as [Hi Hlt]. by apply (Hr _ _ Hi).
Qed.

End History.

Lemma as_of_held o st x : as_of o st x -> match x with SLeader | SShard _ => held_rev st x = default 0%Z (snd <$> o) | _ => True end.
Proof.
  intros Ha. destruct x; cbn in *; try done; [destruct o as [[]|]; by injection Ha|].
  unfold shard_at. rewrite Ha. destruct o as [[v r]|]; cbn; [by rewrite ModRevision_parse|done].
Qed.

(** A committed pair stays, or a newer one takes its place. *)
Lemma committed_later prefix n rev h key v r q p : history prefix n h rev ->
  h !! q = Some (mkEvent EventTypePut (mkKV key v r)) ->
  (forall j ev, (q < j)%nat -> h !! j = Some ev -> Key (Kv ev) = key -> EvType ev = EventTypePut) -> (S q <= p)%nat ->
  exists v' r', contents (take p h) !! key = Some (v', r') /\ (r <= r')%Z.
Proof.
  intros Hh Hq Hl Hp. induction Hp as [|p Hp (v' & r' & IH & Hr)].
  - exists v, r. rewrite (contents_S _ _ _ _ Hq). by rewrite decide_True.
  - destruct (h !! p) as [ev|] eqn:E.
    + rewrite (contents_S _ _ _ _ E). case_decide as Ek; [|eauto]. unfold change. rewrite (Hl p ev ltac:(lia) E Ek).
      do 2 eexists. split; [done|]. subst key. pose proof (contents_newer _ _ _ _ Hh _ _ _ _ _ (le_n p) E IH). lia.
    + rewrite take_ge in IH |- * by (apply lookup_ge_None in E; lia). eauto.
Qed.

Lemma history_app prefix n h rev evs rev' : history prefix n h rev -> (rev < rev')%Z ->
  Forall (fun ev => good_change prefix n ev /\ KvModRevision (Kv ev) = rev') evs -> NoDup ((fun ev => Key (Kv ev)) <$> evs) ->
  history prefix n (h ++ evs) rev'.
Proof.
  intros (H0 & Hg & Hs) Hr He HN. rewrite Forall_forall in He.
  assert (forall i ev, evs !! i = Some ev -> good_change prefix n ev /\ KvModRevision (Kv ev) = rev') as He'.
  { intros i ev Hi. apply He. by eapply list_elem_of_lookup_2. }
  split; [lia|]. split.
  - intros i ev Hi. apply lookup_app_Some in Hi as [Hi|[_ Hi]]; [destruct (Hg _ _ Hi); split; [done|lia]|].
    destruct (He' _ _ Hi) as [? ->]. split; [done|lia].
  - intros i j e1 e2 Hij Hi Hj. apply lookup_app_Some in Hi as [Hi|[Hi0 Hi]], Hj as [Hj|[Hj0 Hj]].
    + eauto.
    + destruct (Hg _ _ Hi) as [_ ?], (He' _ _ Hj) as [_ ->]. split; intros; lia.
    + apply lookup_lt_Some in Hj. lia.
    + destruct (He' _ _ Hi) as [_ E1], (He' _ _ Hj) as [_ E2]. rewrite E1, E2. split; [lia|]. intros Hk. exfalso.
      assert (i - length h = j - length h)%nat; [|lia].
      eapply (NoDup_lookup _ _ _ (Key (Kv e1)) HN); rewrite list_lookup_fmap; [by rewrite Hi|by rewrite Hj, Hk].
Qed.

(** ** The invariant *)

Section Invariant.
Context (prefix : string) (n : Z) (Hn : in_int64 n).

(** Where the watch is, or starts again *)
Definition low (p : phase) (base : nat) : nat := match p with Watching pos => pos | _ => base end.

(** A slot is as it was at some point of the history from [lo] on *)
Definition slot_at (h : list Event) (st : ClusterState) (lo : nat) (x : slot) : Prop :=
  exists p, (lo <= p <= length h)%nat /\ as_of (contents (take p h) !! slot_key prefix x) st x.

(** A loaded state that has not been put in place yet *)
Definition state_ok (h : list Event) (rev : Z) (st : ClusterState) : Prop :=
  wf_state st /\ in_range n st /\ named st /\ (Revision st <= rev)%Z /\ exists base, (base <= length h)%nat /\
    (forall i ev, h !! i = Some ev -> (KvModRevision (Kv ev) <= Revision st)%Z <-> (i < base)%nat) /\
    (forall x, slot_ok n x -> slot_at h st base x).

Record watch_inv (w : world) : Prop := {
  wi_hist : history prefix n (hist w) (etcdRevision w);
  wi_n : numShards (cm w) = n;
  wi_wf : wf_state (state (cm w));
  wi_range : in_range n (state (cm w));
  wi_named : named (state (cm w));
  wi_slots : exists base, (base <= low (ph w) base <= length (hist w))%nat /\ (Revision (state (cm w)) <= etcdRevision w)%Z /\
    (forall i ev, hist w !! i = Some ev -> (KvModRevision (Kv ev) <= Revision (state (cm w)))%Z <-> (i < base)%nat) /\
    (forall x, slot_ok n x -> slot_at (hist w) (state (cm w)) (low (ph w) base) x);
  wi_loaded : forall st, ph w = Loaded st -> state_ok (hist w) (etcdRevision w) st;
  wi_backoff : (second <= backoff w <= maxBackoff)%Z;
  wi_panic : panicked w = false
}.

Lemma slot_at_mono h st lo lo' x : (lo' <= lo)%nat -> slot_at h st lo x -> slot_at h st lo' x.
Proof. intros Hl (p & Hp & Ha). exists p. split; [lia|done]. Qed.

Lemma slot_at_app h evs st lo x : slot_at h st lo x -> slot_at (h ++ evs) st lo x.
Proof.
  intros (p & Hp & Ha). exists p. rewrite length_app. split; [lia|]. by rewrite take_app_le by lia.
Qed.

(** An event of another key *)
Lemma slot_at_next h st pos ev x : h !! pos = Some ev -> Key (Kv ev) <> slot_key prefix x -> slot_at h st pos x -> slot_at h st (S pos) x.
Proof.
  intros Hev Hk (p & Hp & Ha). pose proof (lookup_lt_Some _ _ _ Hev). destruct (decide (p = pos)) as [->|].
  - exists (S pos). split; [lia|]. rewrite (contents_S _ _ _ _ Hev). by rewrite decide_False.
  - exists p. split; [lia|done].
Qed.

(** A change of the manager's state that keeps every slot somewhere from [lo] on *)
Lemma inv_state w c p b base : watch_inv w -> keeps n (cm w) c ->
  (base <= low p base <= length (hist w))%nat ->
  (forall i ev, hist w !! i = Some ev -> (KvModRevision (Kv ev) <= Revision (state (cm w)))%Z <-> (i < base)%nat) ->
  (forall x, slot_ok n x -> slot_at (hist w) (state c) (low p base) x) -> (second <= b <= maxBackoff)%Z ->
  (forall st, p = Loaded st -> state_ok (hist w) (etcdRevision w) st) -> watch_inv (goto w c p b).
Proof.
  intros [Hh Hnn Hwf Hr Hnm (_ & _ & Hrev & _) Hld Hb Hp] (K1 & K2 & K3 & K4 & K5) Hlo Hbase Hs Hb' Hl.
  split; cbn; try done; [congruence|auto|auto|]. exists base. rewrite K2. split_and!; try done; lia.
Qed.

Lemma inv_goto w p b base : watch_inv w -> (base <= low p base <= length (hist w))%nat ->
  (forall i ev, hist w !! i = Some ev -> (KvModRevision (Kv ev) <= Revision (state (cm w)))%Z <-> (i < base)%nat) ->
  (forall x, slot_ok n x -> slot_at (hist w) (state (cm w)) (low p base) x) -> (second <= b <= maxBackoff)%Z ->
  (forall st, p = Loaded st -> state_ok (hist w) (etcdRevision w) st) -> watch_inv (goto w (cm w) p b).
Proof. intros Hi. apply inv_state; [done|]. apply keeps_refl, Hi. Qed.

Lemma inv_change w evs rev : watch_inv w -> (etcdRevision w < rev)%Z ->
  Forall (fun ev => good_change prefix (numShards (cm w)) ev /\ KvModRevision (Kv ev) = rev) evs ->
  NoDup ((fun ev => Key (Kv ev)) <$> evs) ->
  watch_inv (mkWorld (cm w) (hist w ++ evs) rev (ph w) (backoff w) (panicked w)).
Proof.
  intros [Hh Hnn Hwf Hr Hnm (base & Hlo & Hrev & Hbase & Hs) Hld Hb Hp] Hlt He HN. rewrite Hnn in He.
  assert (forall base R, (R < rev)%Z -> (base <= length (hist w))%nat ->
    (forall i ev, hist w !! i = Some ev -> (KvModRevision (Kv ev) <= R)%Z <-> (i < base)%nat) ->
    forall i ev, (hist w ++ evs) !! i = Some ev -> (KvModRevision (Kv ev) <= R)%Z <-> (i < base)%nat) as Hnew.
  { intros b0 R HR Hb0 Hbs i ev Hi. apply lookup_app_Some in Hi as [Hi|[Hi0 Hi]]; [by apply Hbs|].
    rewrite Forall_forall in He. destruct (He ev) as [_ ->]; [by eapply list_elem_of_lookup_2|]. split; lia. }
  split; cbn; try done.
  - by eapply history_app.
  - exists base. rewrite length_app. split_and!; [lia|lia|lia| |].
    + apply Hnew; [lia|lia|done].
    + intros x Hx. by apply slot_at_app, Hs.
  - intros st Hst. destruct (Hld st Hst) as (S1 & S2 & S3 & S4 & b0 & S5 & S6 & S7). split_and!; try done; [lia|].
    exists b0. rewrite length_app. split_and!; [lia|apply Hnew; [lia|done..]|]. intros x Hx. by apply slot_at_app, S7.
Qed.

(** Recording a committed write in the slot [x] *)
Lemma inv_record w c x v r : watch_inv w -> slot_ok n x -> match x with SLeader | SShard _ => True | _ => False end ->
  committed (hist w) (slot_key prefix x) v r -> keeps n (cm w) c ->
  (c = cm w \/ (held_rev (state (cm w)) x < r)%Z /\ as_of (Some (v, r)) (state c) x) ->
  (forall y o, slot_ok n y -> y <> x -> as_of o (state (cm w)) y -> as_of o (state c) y) ->
  watch_inv (on_cm w c).
Proof.
  intros Hi Hx Hkind (q & Hq & Hl) Hk Hc Hoth. pose proof Hi as [Hh _ _ _ _ (base & Hlo & Hrev & Hbase & Hs) Hld Hb _].
  change (on_cm w c) with (goto w c (ph w) (backoff w)). eapply inv_state; [done|done|exact Hlo|done| |done|done].
  intros y Hy. destruct Hc as [->|[Hlt Ha]]; [by apply Hs|]. destruct (decide (slot_key prefix y = slot_key prefix x)) as [E|E].
  - apply (slot_key_inj prefix n Hn) in E as ->; [|done..]. destruct (Hs x Hx) as (p & Hp & Hpx).
    exists (S q). rewrite (contents_S _ _ _ _ Hq), decide_True by done. split; [|done].
    split; [|by apply lookup_lt_Some in Hq]. destruct (decide (p <= q)%nat); [lia|]. exfalso.
    destruct (committed_later _ _ _ _ _ _ _ _ p Hh Hq Hl ltac:(lia)) as (v' & r' & E & Hr'). rewrite E in Hpx.
    apply as_of_held in Hpx. destruct x; cbn in *; try done; lia.
  - destruct (Hs y Hy) as (p & Hp & Hpy). exists p. split; [done|]. apply Hoth; [done|congruence|done].
Qed.

(** A watch event *)
Lemma inv_deliver w pos ev now : watch_inv w -> ph w = Watching pos -> hist w !! pos = Some ev ->
  exists c b, handleWatchEvent prefix (cm w) ev now = Some (c, b) /\ watch_inv (goto w c (Watching (S pos)) (backoff w)).
Proof.
  intros Hi Hph Hev. pose proof Hi as [Hh Hnn Hwf _ _ (base & Hlo & Hrev & Hbase & Hs) _ Hb _]. rewrite Hph in Hlo, Hs. cbn in Hlo, Hs.
  pose proof (lookup_lt_Some _ _ _ Hev) as Hlt. pose proof Hh as (_ & Hg & _). destruct (Hg _ _ Hev) as [Hgood Hpos].
  destruct Hgood as [Hig|(x & Hx & Hk & Hv)].
  - exists (cm w), false. split; [by eapply handle_ignored|]. apply (inv_goto _ _ _ base); try done; cbn; [lia|].
    intros y Hy. eapply slot_at_next; [done| |by apply Hs]. intros E. rewrite E in Hig. by apply slot_not_ignored in Hig.
  - destruct (handle_slot prefix n Hn (cm w) ev now x Hnn Hwf Hx Hk ltac:(lia) Hv) as (c & b & Hc & Hkeep & Hslot & Hoth).
    exists c, b. split; [done|]. apply (inv_state _ _ _ _ base); try done; cbn; [lia|]. intros y Hy.
    destruct (decide (slot_key prefix y = slot_key prefix x)) as [E|E].
    + apply (slot_key_inj prefix n Hn) in E as ->; [|done..]. destruct Hslot as [[-> Hskip]|Ha].
      * destruct (Hs x Hx) as (p & Hp & Hpx). destruct (decide (p = pos)) as [->|]; [exfalso|exists p; split; [lia|done]].
        pose proof (as_of_rev _ _ _ Hpx) as Hr0. rewrite <-Hk in Hr0.
        destruct (contents (take pos (hist w)) !! Key (Kv ev)) as [[v r]|] eqn:Ec; cbn in Hr0.
        -- pose proof (contents_newer _ _ _ _ Hh _ _ _ _ _ (le_n pos) Hev Ec).
           pose proof (contents_rev _ _ _ _ Hh _ _ _ _ Ec). enough (held_rev (state (cm w)) x <= r)%Z by lia.
           apply Hr0. intros v' r' [= <- <-]. lia.
        -- enough (held_rev (state (cm w)) x <= 0)%Z by lia. by apply Hr0.
      * exists (S pos). split; [lia|]. rewrite (contents_S _ _ _ _ Hev), Hk. by rewrite decide_True.
    + assert (slot_at (hist w) (state (cm w)) (S pos) y) as (p & Hp & Hpy).
      { eapply slot_at_next; [done| |by apply Hs]. congruence. }
      exists p. split; [done|]. apply Hoth; [done|congruence|done].
Qed.

(** A read of the prefix *)
Lemma reload_ok w now : history prefix n (hist w) (etcdRevision w) -> numShards (cm w) = n ->
  state_ok (hist w) (etcdRevision w) (reload prefix w now).
Proof.
  intros Hh Hnn. unfold reload. rewrite Hnn. destruct (loaded prefix n _ _ Hh now SLeader Hn I) as (H1 & H2 & H3 & H4 & _).
  split_and!; try done; [lia|]. exists (length (hist w)). rewrite H2. split_and!; try lia.
  - intros i ev Hi. pose proof Hh as (_ & Hg & _). destruct (Hg _ _ Hi) as [_ ?]. apply lookup_lt_Some in Hi. split; [done|lia].
  - intros x Hx. exists (length (hist w)). split; [lia|]. rewrite firstn_all. by apply loaded.
Qed.

(** Putting a loaded state in place *)
Lemma inv_replace w st : history prefix n (hist w) (etcdRevision w) -> numShards (cm w) = n -> panicked w = false ->
  state_ok (hist w) (etcdRevision w) st -> watch_inv (goto w (set_state (cm w) st) Opening initialBackoff).
Proof.
  intros Hh Hnn Hpn (S1 & S2 & S3 & S4 & base & S5 & S6 & S7). split; cbn; try done. exists base. by split_and!.
Qed.

Lemma watch_inv_step w w' : watch_inv w -> step prefix w w' -> watch_inv w'.
Proof.
  intros Hi Hstep. pose proof Hi as [Hh Hnn Hwf _ _ (base & Hlo & Hrev & Hbase & Hs) Hld Hb Hpn].
  destruct Hstep as [evs rev ? ? ?|id info rev c' Hid Hok Hc Hr|rev Hc|Hph|pos ev now c' b Hph Hev Hd|pos ev now Hph Hev Hd|Hph|now Hph|st Hph|Hph|].
  - by apply inv_change.
  - rewrite Hnn in Hid. destruct (record_slot n (cm w) id info rev c' Hwf Hid Hok Hr) as (K1 & K2 & K3).
    by eapply (inv_record w c' (SShard id)).
  - destruct (record_leader_slot n (cm w) rev Hwf) as (K1 & K2 & K3). by eapply (inv_record w _ SLeader).
  - rewrite (position_base _ _ base) by (done || (rewrite Hph in Hlo; cbn in Hlo; lia)). rewrite Hph in Hs, Hlo.
    by apply (inv_goto _ _ _ base).
  - destruct (inv_deliver w pos ev now Hi Hph Hev) as (c & b1 & E & Hi'). rewrite E in Hd. by injection Hd as -> ->.
  - destruct (inv_deliver w pos ev now Hi Hph Hev) as (c & b1 & E & _). by rewrite E in Hd.
  - apply (inv_goto _ _ _ base); cbn; try done; [lia|]. intros x Hx. eapply slot_at_mono; [|by apply Hs]. lia.
  - apply (inv_goto _ _ _ base); cbn; try done; [lia| |].
    + intros x Hx. eapply slot_at_mono; [|by apply Hs]. lia.
    + intros st [= <-]. by apply reload_ok.
  - apply inv_replace; auto.
  - apply (inv_goto _ _ _ base); cbn; try done; [lia| |].
    + intros x Hx. eapply slot_at_mono; [|by apply Hs]. lia.
    + unfold nextBackoff, maxBackoff, second in *. destruct (_ <? _)%Z eqn:E; [lia|]. apply Z.ltb_ge in E. lia.
  - apply (inv_goto _ _ _ base); cbn; try done; [lia|]. intros x Hx. eapply slot_at_mono; [|by apply Hs]. lia.
Qed.

Lemma reachable_inv c h rev now w : numShards c = n -> history prefix n h rev ->
  rtc (step prefix) (start prefix c h rev now) w -> watch_inv w.
Proof.
  intros Hc Hh Hr. assert (watch_inv (start prefix c h rev now)) as Hi.
  { apply (inv_replace (mkWorld c h rev Opening initialBackoff false)); try done. by apply reload_ok. }
  induction Hr as [|w1 w2 w3 Hs _ IH]; [done|]. by apply IH, (watch_inv_step w1).
Qed.

(** Two states with the same slots *)
Lemma slots_view st st' (m : content) : wf_state st -> wf_state st' -> in_range n st -> in_range n st' -> named st -> named st' ->
  (forall x, slot_ok n x -> as_of (m !! slot_key prefix x) st x /\ as_of (m !! slot_key prefix x) st' x) -> view st = view st'.
Proof.
  intros [[g Hg] [sm Hs]] [[g' Hg'] [sm' Hs']] Hr Hr' [N1 N2] [N1' N2'] Ha. unfold view.
  assert (Nodes st = Nodes st') as ->.
  { apply set_eq. intros a. destruct (decide (a = "")) as [->|Hne]; [done|]. destruct (Ha (SNode a) Hne) as [H1 H2]. cbn in *. by rewrite H1, H2. }
  assert (Gates st = Gates st') as ->.
  { rewrite Hg, Hg' in *. cbn in *. f_equal. apply set_eq. intros a. destruct (decide (a = "")) as [->|Hne]; [done|].
    destruct (Ha (SGate a) Hne) as [H1 H2]. cbn in *. rewrite Hg, Hg' in *. cbn in *. by rewrite H1, H2. }
  assert (ShardMapping st = ShardMapping st') as ->.
  { unfold in_range in *. rewrite Hs, Hs' in *. cbn in *. f_equal. apply map_eq. intros z.
    destruct (decide (0 <= z < n)%Z) as [Hz|Hz].
    - destruct (Ha (SShard z) Hz) as [H1 H2]. cbn in *. rewrite Hs, Hs' in *. cbn in *. by rewrite H1, H2.
    - destruct (sm !! z) eqn:E1; [destruct Hz; apply Hr; by rewrite E1|].
      destruct (sm' !! z) eqn:E2; [destruct Hz; apply Hr'; by rewrite E2|done]. }
  destruct (Ha SLeader I) as [H1 H2]. cbn in *. congruence.
Qed.

(** Nothing but deliveries from a watch to its end *)
Lemma deliver_all k : forall w pos, watch_inv w -> ph w = Watching pos -> (pos + k)%nat = length (hist w) ->
  exists c, nsteps (step prefix) k w (goto w c (Watching (length (hist w))) (backoff w)).
Proof.
  induction k as [|k IH]; intros w pos Hi Hph Hk.
  - exists (cm w). replace (goto w (cm w) _ _) with w; [apply nsteps_O|]. destruct w; cbn in *. unfold goto. cbn. rewrite Hph. do 2 f_equal. lia.
  - destruct (hist w !! pos) as [ev|] eqn:Hev; [|apply lookup_ge_None in Hev; lia].
    destruct (inv_deliver w pos ev 0 Hi Hph Hev) as (c & b & Hd & Hi').
    destruct (IH _ (S pos) Hi') as (c' & Hr); [done|cbn; lia|]. exists c'. eapply nsteps_l; [by eapply W_deliver|exact Hr].
Qed.

End Invariant.

(** The in-memory half of a won election *)
Lemma TryBecomeLeader_records {S : Type} `{EtcdOps S} (prefix : string) c (s s' : S) connected f c' :
  TryBecomeLeader prefix c s connected f = (c', s', (Ok tt, true)) -> c' = recordLeader c (etcd_rev s').
Proof. unfold TryBecomeLeader, recordLeader. intros Ht.
  do 4 (case_match; [by simplify_eq|]). destruct (commit _ _ _ _ _) as [s1 [[]|]]; simplify_eq. done. Qed.

(** ** Properties *)

(** C19: a manager that has caught up with its watch has the state that is in etcd.  The manager loads the
    state and watches from the revision of the load; it may lose the watch any number of times, fail to reload and watch again from the
    old revision, so that it receives events a second time, and record its own writes before their event arrives, or long
    after.  Whatever happened, when it watches and has received every change, its nodes, gates, shards
    with their revisions and leader are those that a load would give now.  It never panics, and the backoff stays between one
    second and thirty. *)
Theorem watch_converges (prefix : string) (c : ConsensusManager) (h : list Event) (rev now now' : Z) (w : world) :
  in_int64 (numShards c) -> history prefix (numShards c) h rev ->
  rtc (step prefix) (start prefix c h rev now) w ->
  panicked w = false /\ (second <= backoff w <= maxBackoff)%Z /\
  (ph w = Watching (length (hist w)) ->
   view (state (cm w)) = view (loadClusterStateFromEtcd prefix (numShards c) (readPrefix (hist w)) (etcdRevision w) now')).
Proof.
  intros Hn Hh Hr. pose proof (reachable_inv _ _ Hn _ _ _ _ _ eq_refl Hh Hr) as [Hh' Hnn Hwf Hra Hnm (base & Hlo & _ & _ & Hs) _ Hb Hpn].
  split; [done|]. split; [done|]. intros Hph. destruct (loaded prefix _ _ _ Hh' now' SLeader Hn I) as (L1 & _ & L3 & L4 & _).
  apply (slots_view prefix (numShards c) _ _ (contents (hist w))); try done. intros x Hx. split; [|by apply loaded].
  destruct (Hs x Hx) as (p & Hp & Ha). rewrite Hph in Hp. cbn in Hp. assert (p = length (hist w)) as -> by lia. by rewrite firstn_all in Ha.
Qed.

(** C20: the watch catches up.  From every reachable state in which the watch has not been stopped, the program can go on, without
    any further change and with etcd answering, to a state in which it watches and has received every change;
    this takes at most one step for every change in the history and three to read the state, put it in place and open the watch. *)
Theorem watch_catches_up (prefix : string) (c : ConsensusManager) (h : list Event) (rev now : Z) (w : world) :
  in_int64 (numShards c) -> history prefix (numShards c) h rev ->
  rtc (step prefix) (start prefix c h rev now) w -> ph w <> Stopped ->
  exists k w', nsteps (step prefix) k w w' /\ (k <= length (hist w) + 3)%nat /\
    hist w' = hist w /\ etcdRevision w' = etcdRevision w /\ ph w' = Watching (length (hist w')).
Proof.
  intros Hn Hh Hr Hph. pose proof (reachable_inv _ _ Hn _ _ _ _ _ eq_refl Hh Hr) as Hi.
  assert (exists k w1 pos, nsteps (step prefix) k w w1 /\ (k <= 3)%nat /\ hist w1 = hist w /\ etcdRevision w1 = etcdRevision w /\ ph w1 = Watching pos)
    as (k & w1 & pos & H1 & Hk & E1 & E2 & E3).
  { destruct (ph w) as [|pos| |st|] eqn:E; [| | | |done].
    - exists 1%nat. do 2 eexists. split; [by apply nsteps_once, W_open|]. split; [lia|done].
    - exists 0%nat, w, pos. split; [apply nsteps_O|]. split; [lia|done].
    - exists 3%nat. do 2 eexists. split; [|split; [lia|]].
      + eapply nsteps_l; [by apply (W_reload _ _ 0)|]. eapply nsteps_l; [by eapply W_replace|]. apply nsteps_once. by apply W_open.
      + done.
    - exists 2%nat. do 2 eexists. split; [eapply nsteps_l; [by eapply W_replace|]; apply nsteps_once; by apply W_open|]. split; [lia|done]. }
  assert (watch_inv prefix (numShards c) w1) as Hi1.
  { eapply reachable_inv; [done..|]. etrans; [exact Hr|]. apply rtc_nsteps. by exists k. }
  pose proof Hi1 as [_ _ _ _ _ (base & Hlo & _) _ _ _]. rewrite E3 in Hlo. cbn in Hlo.
  destruct (deliver_all prefix _ Hn (length (hist w1) - pos) w1 pos Hi1 E3 ltac:(lia)) as (c' & Hd).
  do 2 eexists. split; [by eapply nsteps_trans|]. split; [rewrite <-E1; lia|]. cbn. by rewrite E1.
Qed.

(** ** Witnesses *)

Definition put_at (key value : string) (rev : Z) : Event := mkEvent EventTypePut (mkKV key value rev).
Definition c_two : ConsensusManager := NewConsensusManager true 1 "a:1" 2.
Definition to_a : ShardInfo := mkShard "a:1" "" [] 0.
Definition hist_two : list Event := [put_at "/g/nodes/a:1" "a:1" 1; put_at "/g/shard/0" (formatShardInfo to_a) 2].

(** A node joins, the manager assigns a shard and records it, and then the watch delivers both *)
Lemma watch_example : exists w, rtc (step "/g") (start "/g" c_two [] 0 0) w /\ hist w = hist_two /\ ph w = Watching 2 /\
  Nodes (state (cm w)) = {["a:1"]} /\ ShardMapping (state (cm w)) = Some {[ 0%Z := mkShard "a:1" "" [] 2 ]}.
Proof.
  eexists. split; [|].
  - eapply rtc_l; [apply (W_change _ _ [put_at "/g/nodes/a:1" "a:1" 1] 1); [done| |apply NoDup_singleton]|].
    { apply Forall_singleton. split; [|done]. right. by exists (SNode "a:1"). }
    eapply rtc_l; [apply (W_change _ _ [put_at "/g/shard/0" (formatShardInfo to_a) 2] 2); [done| |apply NoDup_singleton]|].
    { apply Forall_singleton. split; [|done]. right. by exists (SShard 0). }
    eapply rtc_l; [eapply (W_record _ _ 0 to_a 2); [done|done| |vm_compute; reflexivity]|].
    { exists 1%nat. split; [done|]. intros j ev Hj Hl. cbn in Hl. destruct j as [|[|j]]; [lia|lia|done]. }
    eapply rtc_l; [by apply W_open|]. eapply rtc_l; [eapply (W_deliver _ _ 0 _ 0); [done|done|vm_compute; reflexivity]|].
    eapply rtc_l; [eapply (W_deliver _ _ 1 _ 0); [done|done|vm_compute; reflexivity]|]. apply rtc_refl.
  - vm_compute. split_and!; reflexivity.
Qed.

Lemma empty_history : history "/g" 2 [] 0.
Proof. split; [lia|]. split; [by intros i ev Hi; rewrite lookup_nil in Hi|]. by intros i j e1 e2 _ Hi; rewrite lookup_nil in Hi. Qed.

Lemma watch_converges_witness : exists w, ph w = Watching 2 /\
  view (state (cm w)) = view (loadClusterStateFromEtcd "/g" 2 (readPrefix hist_two) (etcdRevision w) 0).
Proof.
  destruct watch_example as (w & Hr & Hh & Hp & _). exists w. split; [exact Hp|]. rewrite <-Hh.
  apply (watch_converges "/g" c_two [] 0 0 0 w ltac:(by vm_compute) empty_history Hr). by rewrite Hh.
Defined.

Lemma watch_catches_up_witness : exists w w', ph w = BackingOff /\ hist w = [put_at "/g/nodes/a:1" "a:1" 1] /\
  rtc (step "/g") w w' /\ ph w' = Watching (length (hist w')).
Proof.
  assert (exists w, rtc (step "/g") (start "/g" c_two [] 0 0) w /\ ph w = BackingOff /\ hist w = [put_at "/g/nodes/a:1" "a:1" 1]) as (w & Hr & Hp & Hh).
  { eexists. split; [|split].
    - eapply rtc_l; [apply (W_change _ _ [put_at "/g/nodes/a:1" "a:1" 1] 1); [done| |apply NoDup_singleton]|].
      { apply Forall_singleton. split; [|done]. right. by exists (SNode "a:1"). }
      eapply rtc_l; [by apply W_broken; left|]. apply rtc_refl.
    - reflexivity.
    - reflexivity. }
  destruct (watch_catches_up "/g" c_two [] 0 0 w ltac:(by vm_compute) empty_history Hr) as (k & w' & Hk & _ & _ & _ & Hw');
    [by rewrite Hp|]. exists w, w'. split; [exact Hp|]. split; [exact Hh|]. split; [apply rtc_nsteps; by exists k|exact Hw'].
Defined.
