(* ===== verification/Cluster.v ===== *)
(** * The cluster (cluster/cluster.go): routing and the management tick

    A cluster object glues a consensus manager to a node, or to a gate.  [Module Clusters] models where an
    operation on an object is sent ([CallObject], [CreateObject], [DeleteObject], the reliable calls with
    their retry loop), what a management tick does ([handleShardMappingCheck] and the steps it calls) and
    the auto-loaded objects.  The RPC to another node is an argument that says what the other side answers;
    the etcd store is any instance of its interface, with the schedule of writes, the clock and the random
    choices in a [tick] record.  An asynchronous creation or deletion is visible as the request it issues.
    Timeouts are the durations passed to the context; metrics and the inspector are not modelled. *)

From S2P Require Import Prelude GoStrings GoFloat ObjectId Persistence Object ReliableCalls AccessControl ClusterConfig Node.
From S2P Require Import ConsensusState ConsensusPlan EtcdStore ConsensusStore.
Import Float64 Proto Objects Conf Sharding Parser Shards Consensus Plan Store.
From stdpp Require Import list_numbers.

Module Clusters.

Definition DefaultCallTimeout : Z := 30 * 1000000000.
Definition DefaultCreateTimeout : Z := 30 * 1000000000.
Definition DefaultDeleteTimeout : Z := 30 * 1000000000.

(** [effectiveTimeout] *)
Definition effectiveTimeout (configured fallback : Z) : Z := if (0 <? configured)%Z then configured else fallback.

Section Cluster.
Context {St Msg Data Any P S : Type} `{PersistenceProvider P} `{EtcdOps S}.
Context (rt : Runtime Any Msg) (onCreated : Class St Msg Data -> St -> St) (prefix : string).
Abbreviation nodeT := (Nodes.Node (St := St) (Msg := Msg) (Data := Data) (P := P)).

Record Cluster : Type := mkCluster {
  consensusManager : ConsensusManager;
  node : option nodeT;                        (* [None] in a gate cluster *)
  gateAddr : option string;                   (* the gate's address in a gate cluster *)
  connections : gset string;                  (* the nodes [nodeConnections] is connected to *)
  config : ClusterConf.Config;
  clusterReady : bool;
  lastStuckShardCheck : option Z              (* [None] is the zero time *)
}.

Definition set_cm (c : Cluster) (cm : ConsensusManager) : Cluster :=
  mkCluster cm (node c) (gateAddr c) (connections c) (config c) (clusterReady c) (lastStuckShardCheck c).
Definition set_node (c : Cluster) (n : nodeT) : Cluster :=
  mkCluster (consensusManager c) (Some n) (gateAddr c) (connections c) (config c) (clusterReady c) (lastStuckShardCheck c).

(** [getAdvertiseAddr], [isNode], [isGate] *)
Definition getAdvertiseAddr (c : Cluster) : string :=
  match node c, gateAddr c with
  | Some n, _ => Nodes.advertiseAddress n
  | None, Some a => a
  | None, None => ""
  end.
Definition isNode (c : Cluster) : bool := bool_decide (is_Some (node c)).
Definition isGate (c : Cluster) : bool := bool_decide (is_Some (gateAddr c)).

(** [IsLeader] *)
Definition IsLeader (c : Cluster) : bool :=
  if negb (isNode c) then false
  else let l := GetLeaderNode (consensusManager c) in bool_decide (l <> "") && bool_decide (l = getAdvertiseAddr c).

(** [checkAndMarkReady] *)
Definition checkAndMarkReady (c : Cluster) (now : Z) : Cluster :=
  if clusterReady c then c
  else if negb (IsReady (consensusManager c)) then c
  else if negb (IsStateStable (consensusManager c) now) then c
  else mkCluster (consensusManager c) (node c) (gateAddr c) (connections c) (config c) true (lastStuckShardCheck c).

(** ** Routing *)

Inductive cluster_error : Type :=
| ErrRoute (e : cm_error)
| ErrNoConnection (addr : string)
| ErrMarshalRequest (msg : string)
| ErrRemote (addr msg : string)
| ErrLocal (e : Nodes.node_error)
| ErrUnmarshalResponse (msg : string)
| ErrGateOnly
| ErrTypeRequired
| ErrIDRequired
| ErrParamEmpty (name : string)
| ErrRemoteReply (msg : string).

(** A request that leaves the cluster object: the address and what is asked *)
Inductive request : Type :=
| RpcCall (addr typ id method : string) (req : option Any)
| RpcCreate (addr typ id : string)
| RpcDelete (addr typ id : string)
| RpcReliable (addr callID typ id method : string) (req : option Any)
| LocalCreate (typ id : string)               (* run by a goroutine on this node *)
| LocalDelete (typ id : string).

(** [GetConnection] *)
Definition GetConnection (c : Cluster) (addr : string) : bool := bool_decide (addr ∈ connections c).

(** [CallObject]: [answer] is what the remote node replies to the request *)
Definition CallObject (wait wait2 during : nodeT -> nodeT) (answer : request -> result string (option Any)) (c : Cluster)
    (objType id method : string) (req : option Msg) : Cluster * list request * result cluster_error (option Msg) :=
  match GetCurrentNodeForObject (consensusManager c) id with
  | Err e => (c, [], Err (ErrRoute e))
  | Ok addr =>
      match (if bool_decide (addr = getAdvertiseAddr c) then node c else None) with
      | Some n =>
          let '(n', r) := Nodes.CallObject rt onCreated wait wait2 during n objType id method req in
          (set_node c n', [], match r with Ok m => Ok (Some m) | Err e => Err (ErrLocal e) end)
      | None =>
          if negb (GetConnection c addr) then (c, [], Err (ErrNoConnection addr))
          else match MsgToAny rt req with
          | Err e => (c, [], Err (ErrMarshalRequest e))
          | Ok requestAny =>
              let rq := RpcCall addr objType id method requestAny in
              (c, [rq], match answer rq with
                        | Err e => Err (ErrRemote addr e)
                        | Ok None => Ok None
                        | Ok (Some a) => match unmarshalNew rt a with Ok m => Ok (Some m) | Err e => Err (ErrUnmarshalResponse e) end
                        end)
          end
      end
  end.

(** [CallObjectAnyRequest] *)
Definition CallObjectAnyRequest (answer : request -> result string (option Any)) (c : Cluster)
    (objType id method : string) (req : option Any) : list request * result cluster_error (option Any) :=
  if negb (isGate c) then ([], Err ErrGateOnly)
  else match GetCurrentNodeForObject (consensusManager c) id with
  | Err e => ([], Err (ErrRoute e))
  | Ok addr =>
      if negb (GetConnection c addr) then ([], Err (ErrNoConnection addr))
      else
        let rq := RpcCall addr objType id method req in
        ([rq], match answer rq with Err e => Err (ErrRemote addr e) | Ok a => Ok a end)
  end.

(** [CreateObject]; [uid] is the generated unique id *)
Definition CreateObject (answer : request -> result string (option Any)) (c : Cluster) (uid objType objID : string)
    : list request * result cluster_error string :=
  let objID := if bool_decide (objID = "") then objType +:+ "-" +:+ uid else objID in
  match GetCurrentNodeForObject (consensusManager c) objID with
  | Err e => ([], Err (ErrRoute e))
  | Ok addr =>
      if isNode c && bool_decide (addr = getAdvertiseAddr c) then ([LocalCreate objType objID], Ok objID)
      else if negb (GetConnection c addr) then ([], Err (ErrNoConnection addr))
      else
        let rq := RpcCreate addr objType objID in
        ([rq], if isGate c then match answer rq with Err e => Err (ErrRemote addr e) | Ok _ => Ok objID end else Ok objID)
  end.

(** [DeleteObject] *)
Definition DeleteObject (answer : request -> result string (option Any)) (c : Cluster) (objType objID : string)
    : list request * result cluster_error () :=
  if bool_decide (objType = "") then ([], Err ErrTypeRequired)
  else if bool_decide (objID = "") then ([], Err ErrIDRequired)
  else match GetCurrentNodeForObject (consensusManager c) objID with
  | Err e => ([], Err (ErrRoute e))
  | Ok addr =>
      if isNode c && bool_decide (addr = getAdvertiseAddr c) then ([LocalDelete objType objID], Ok tt)
      else if negb (GetConnection c addr) then ([], Err (ErrNoConnection addr))
      else
        let rq := RpcDelete addr objType objID in
        ([rq], if isGate c then match answer rq with Err e => Err (ErrRemote addr e) | Ok _ => Ok tt end else Ok tt)
  end.

(** What one attempt of a reliable RPC meets: the response (error text, status, result) or a transport
    error; then whether the context is done after the error, or becomes done during the backoff *)
Record attempt : Type := mkAttempt {
  response : result string (string * Nodes.ReliableCallStatus * option Any);
  ctxDone : bool;
  waitFails : bool
}.

Definition reliable_reply : Type := option Any * Nodes.ReliableCallStatus * option cluster_error.

(** The retry loop of [ReliableCallObjectAnyRequest] over the attempts it meets; [None] while it is still
    retrying *)
Fixpoint retryLoop (addr : string) (rq : request) (attempts : list attempt) : list request * option reliable_reply :=
  match attempts with
  | [] => ([], None)
  | a :: rest =>
      match response a with
      | Err e =>
          if ctxDone a || waitFails a then ([rq], Some (None, Nodes.UNKNOWN, Some (ErrRemote addr e)))
          else let '(rqs, r) := retryLoop addr rq rest in (rq :: rqs, r)
      | Ok (errText, status, res) =>
          ([rq], Some (if bool_decide (errText <> "") then (None, status, Some (ErrRemoteReply errText)) else (res, status, None)))
      end
  end.

(** [ReliableCallObjectAnyRequest]; [local] is the node's [ReliableCallObject] *)
Definition ReliableCallObjectAnyRequest
    (local : nodeT -> string -> string -> string -> string -> option Any -> nodeT * Nodes.reply (Any := Any))
    (attempts : list attempt) (c : Cluster) (callID objectType objectID methodName : string) (req : option Any)
    : Cluster * list request * option reliable_reply :=
  let skip (e : cluster_error) := (c, [], Some (None, Nodes.SKIPPED, Some e)) in
  if bool_decide (callID = "") then skip (ErrParamEmpty "callID")
  else if bool_decide (objectType = "") then skip (ErrParamEmpty "objectType")
  else if bool_decide (objectID = "") then skip (ErrParamEmpty "objectID")
  else if bool_decide (methodName = "") then skip (ErrParamEmpty "methodName")
  else match GetCurrentNodeForObject (consensusManager c) objectID with
  | Err e => skip (ErrRoute e)
  | Ok addr =>
      match (if bool_decide (addr = getAdvertiseAddr c) then node c else None) with
      | Some n =>
          let '(n', (res, status, err)) := local n callID objectType objectID methodName req in
          (set_node c n', [], Some match err with Some e => (None, status, Some (ErrLocal e)) | None => (res, status, None) end)
      | None =>
          if negb (GetConnection c addr) then skip (ErrNoConnection addr)
          else let '(rqs, r) := retryLoop addr (RpcReliable addr callID objectType objectID methodName req) attempts in (c, rqs, r)
      end
  end.

(** ** The management tick *)

(** The world during a tick: the etcd client, the order and faults of its writes, the clock, the shuffle
    and offset of the reassignment, the order in which the node's objects are listed, what happens while
    an eviction waits for its object, which nodes cannot be dialled, and what happens between counting
    the objects and releasing the shards *)
Record tick : Type := mkTick {
  connected : bool;
  sched : shards -> list (Z * ShardInfo * fault);
  now : Z;
  leaderFault : fault;
  shuffle : list Z -> list Z;
  offset : nat;
  listing : nodeT -> list string;
  evicting : nodeT -> nodeT;
  dialFails : gset string;
  meanwhile : nodeT -> nodeT
}.

Definition stuckShardCheckInterval : Z := 60 * 1000000000.

(** [tryBecomeLeader] *)
Definition tryBecomeLeader (t : tick) (c : Cluster) (s : S) : Cluster * S :=
  if negb (isNode c) then (c, s)
  else let '(cm, s', _) := TryBecomeLeader prefix (consensusManager c) s (connected t) (leaderFault t) in (set_cm c cm, s').

Definition set_lastCheck (c : Cluster) (z : Z) : Cluster :=
  mkCluster (consensusManager c) (node c) (gateAddr c) (connections c) (config c) (clusterReady c) (Some z).

(** The third priority of [leaderShardManagementLogic] *)
Definition leaderRebalance (t : tick) (c : Cluster) (s : S) : option (Cluster * S * bool) :=
  match RebalanceShards prefix (consensusManager c) s (connected t) (sched t) with
  | None => None
  | Some (cm, s', Ok b) => Some (set_cm c cm, s', b)
  | Some (cm, s', Err _) => Some (set_cm c cm, s', false)
  end.

(** [leaderShardManagementLogic]: whether the leader changed the mapping *)
Definition leaderShardManagementLogic (t : tick) (c : Cluster) (s : S) : option (Cluster * S * bool) :=
  if negb (IsLeader c) then Some (c, s, false)
  else if negb (IsStateStable (consensusManager c) (now t)) then Some (c, s, false)
  else match ReassignShardTargetNodes prefix (consensusManager c) s (connected t) (sched t) (shuffle t) (offset t) with
  | None => None
  | Some (cm, s1, (n, err)) =>
      let c := set_cm c cm in
      if (0 <? n)%nat then Some (c, s1, true)
      else if bool_decide (is_Some err) then Some (c, s1, false)
      else if match lastStuckShardCheck c with None => true | Some z => (stuckShardCheckInterval <=? now t - z)%Z end then
        let c := set_lastCheck c (now t) in
        match ReallocateStuckShards prefix (consensusManager c) s1 (connected t) (sched t) (now t) with
        | None => None
        | Some (cm, s2, (k, _)) =>
            let c := set_cm c cm in
            if (0 <? k)%nat then Some (c, s2, true) else leaderRebalance t c s2
        end
      else leaderRebalance t c s1
  end.

(** [claimShardOwnership] *)
Definition claimShardOwnership (t : tick) (c : Cluster) (s : S) : option (Cluster * S) :=
  if isGate c then Some (c, s)
  else match ClaimShardsForNode prefix (consensusManager c) s (connected t) (sched t) (now t) with
  | None => None
  | Some (cm, s', _) => Some (set_cm c cm, s')
  end.

(** The eviction loop of [removeObjectsNotBelongingToThisNode] *)
Fixpoint evictAll (wait : nodeT -> nodeT) (n : nodeT) (ids : list string) : nodeT :=
  match ids with [] => n | id :: rest => evictAll wait (fst (Nodes.EvictObject wait n id)) rest end.

(** [removeObjectsNotBelongingToThisNode] *)
Definition removeObjectsNotBelongingToThisNode (t : tick) (c : Cluster) : Cluster :=
  match node c with
  | None => c
  | Some n =>
      if negb (IsStateStable (consensusManager c) (now t)) then c
      else set_node c (evictAll (evicting t) n
             (GetObjectsToEvict (consensusManager c) (getAdvertiseAddr c) (Nodes.ListObjectIDs n (listing t n))))
  end.

(** The counting loop of [releaseShardOwnership] *)
Fixpoint countObjects (numShards : Z) (ids : list string) (counts : gmap Z Z) : gmap Z Z :=
  match ids with
  | [] => counts
  | id :: rest =>
      if Contains id "/" then countObjects numShards rest counts
      else
        let shardID := GetShardID id numShards in
        countObjects numShards rest (<[shardID := (default 0 (counts !! shardID) + 1)%Z]> counts)
  end.

(** [releaseShardOwnership] *)
Definition releaseShardOwnership (t : tick) (c : Cluster) (s : S) : option (Cluster * S) :=
  match node c with
  | None => Some (c, s)
  | Some n =>
      let counts := countObjects (numShards (consensusManager c)) (Nodes.ListObjectIDs n (listing t n)) ∅ in
      let c := set_node c (meanwhile t n) in
      match ReleaseShardsForNode prefix (consensusManager c) s (connected t) (sched t) (now t) counts with
      | None => None
      | Some (cm, s', _) => Some (set_cm c cm, s')
      end
  end.

(** [updateNodeConnections] with [SetNodes] of cluster/nodeconnections: connect to the nodes that are new,
    as far as they can be dialled, and disconnect from those that have gone *)
Definition SetNodes (dialFails current desired : gset string) : gset string :=
  (current ∩ desired) ∪ ((desired ∖ current) ∖ dialFails).

Definition updateNodeConnections (t : tick) (c : Cluster) : Cluster :=
  mkCluster (consensusManager c) (node c) (gateAddr c)
    (SetNodes (dialFails t) (connections c) (Consensus.Nodes (state (consensusManager c)) ∖ {[getAdvertiseAddr c]}))
    (config c) (clusterReady c) (lastStuckShardCheck c).

(** ** Auto-loaded objects *)

(** [loadSingleObject], [loadPerShardObject], [loadPerNodeObject]: the creations they ask for *)
Definition loadSingleObject (c : Cluster) (cfg : AutoLoadObjectConfig) : list (string * string) :=
  match GetNodeForShard (consensusManager c) (GetShardID (aID cfg) (numShards (consensusManager c))) with
  | Err _ => []
  | Ok addr => if bool_decide (addr <> getAdvertiseAddr c) then [] else [(aType cfg, aID cfg)]
  end.

Definition perShardID (shardID : Z) (base : string) : string := "shard#" +:+ Itoa shardID +:+ "/" +:+ base.

Definition loadPerShardObject (c : Cluster) (cfg : AutoLoadObjectConfig) : list (string * string) :=
  omap (fun shardID =>
    match GetNodeForShard (consensusManager c) shardID with
    | Err _ => None
    | Ok addr => if bool_decide (addr <> getAdvertiseAddr c) then None else Some (aType cfg, perShardID shardID (aID cfg))
    end) (seqZ 0 (numShards (consensusManager c))).

Definition loadPerNodeObject (c : Cluster) (cfg : AutoLoadObjectConfig) : list (string * string) :=
  if bool_decide (getAdvertiseAddr c = "") then [] else [(aType cfg, getAdvertiseAddr c +:+ "/" +:+ aID cfg)].

(** [loadAutoLoadObjects]: the requests its [CreateObject] calls issue *)
Definition loadAutoLoadObjects (t : tick) (answer : request -> result string (option Any)) (c : Cluster) : list request :=
  if isGate c then []
  else if negb (IsStateStable (consensusManager c) (now t)) then []
  else mjoin ((fun cfg : AutoLoadObjectConfig => mjoin ((fun '(typ, id) => fst (CreateObject answer c "" typ id)) <$>
         (if PerShard cfg then loadPerShardObject c cfg
          else if PerNode cfg then loadPerNodeObject c cfg
          else loadSingleObject c cfg))) <$> ClusterConf.AutoLoadObjects (config c)).

(** [generateAutoLoadIDs]; [nodes] is the order of the map iteration of [GetNodes] *)
Definition generateAutoLoadIDs (c : Cluster) (nodes : list string) (cfg : AutoLoadObjectConfig) : list string :=
  if PerShard cfg then (fun shardID => perShardID shardID (aID cfg)) <$> seqZ 0 (numShards (consensusManager c))
  else if PerNode cfg then (fun addr => addr +:+ "/" +:+ aID cfg) <$> nodes
  else [aID cfg].

(** [handleShardMappingCheck]: the cluster, the store and the requests of the auto-loading.  Its last step,
    [registerGateWithNodes], acts on a gate only and is [RegisterWithNodes] of Gate.v. *)
Definition handleShardMappingCheck (t : tick) (answer : request -> result string (option Any)) (c : Cluster) (s : S)
    : option (Cluster * S * list request) :=
  let '(c, s) := tryBecomeLeader t c s in
  match leaderShardManagementLogic t c s with
  | None => None
  | Some (c, s, true) => Some (c, s, [])
  | Some (c, s, false) =>
      match claimShardOwnership t c s with
      | None => None
      | Some (c, s) =>
          let c := removeObjectsNotBelongingToThisNode t c in
          match releaseShardOwnership t c s with
          | None => None
          | Some (c, s) =>
              let rqs := loadAutoLoadObjects t answer c in
              Some (updateNodeConnections t c, s, rqs)
          end
      end
  end.

(** [clusterManagementTick] *)
Definition clusterManagementTick (t : tick) (answer : request -> result string (option Any)) (c : Cluster) (s : S)
    : option (Cluster * S * list request) :=
  match handleShardMappingCheck t answer c s with
  | None => None
  | Some (c, s, rqs) => Some (checkAndMarkReady c (now t), s, rqs)
  end.

End Cluster.
End Clusters.
Import Clusters.

(** ** What a store call does to the mapping *)

Section Mapping.
Context {S : Type} `{EtcdOps S}.
Context (prefix : string).

(** The shard records of a manager *)
Definition mapping (cm : ConsensusManager) (id : Z) : ShardInfo := shard_at (default ∅ (ShardMapping (state cm))) id.

(** Two records that differ at most in their revision *)
Definition same_but_rev (a b : ShardInfo) : Prop :=
  TargetNode a = TargetNode b /\ CurrentNode a = CurrentNode b /\ Flags a = Flags b.

Lemma storeTasks_mapping tasks : forall cm s cm' s' n err,
  storeTasks prefix cm s tasks = Some (cm', s', n, err) ->
  (forall id, mapping cm' id = mapping cm id \/ exists info f, (id, info, f) ∈ tasks /\ same_but_rev (mapping cm' id) info) /\
  numShards cm' = numShards cm /\ localNodeAddress cm' = localNodeAddress cm.
Proof.
  induction tasks as [|[[k info] f] tasks IH]; intros cm s cm' s' n err Hs; cbn in Hs.
  { simplify_eq. split; [by left|done]. }
  destruct (storeTask prefix cm s k info f) as [[[cm1 s1] err1]|] eqn:E1; [|done].
  destruct (storeTasks prefix cm1 s1 tasks) as [[[[cm2 s2] n2] err2]|] eqn:E2; [|done].
  assert (cm' = cm2) as -> by (destruct err1; congruence). destruct (IH _ _ _ _ _ _ E2) as (Hm & Hn & Hl).
  assert ((forall id, mapping cm1 id = mapping cm id \/ (id = k /\ same_but_rev (mapping cm1 id) info)) /\
    numShards cm1 = numShards cm /\ localNodeAddress cm1 = localNodeAddress cm) as (H1 & H2 & H3).
  { unfold storeTask in E1. destruct (commit s _ _ _ f) as [s0 [[]|e]]; simplify_eq; try (split; [by left|done]).
    unfold recordShard in E1. destruct (ShardMapping (state cm)) as [sm|] eqn:Esm; [|done].
    destruct (ModRevision (shard_at sm k) <? etcd_rev s0)%Z; simplify_eq; (split; [|done]); [|by left].
    intros id. unfold mapping. cbn. rewrite Esm. cbn. rewrite shard_at_insert. case_decide; [subst; by right|by left]. }
  split; [|split; congruence]. intros id. destruct (Hm id) as [E|(i & g & Hin & Hsame)].
  - destruct (H1 id) as [E'|[-> Hs1]]; [left; congruence|]. right. exists info, f. split; [by left|]. by rewrite E.
  - right. exists i, g. split; [by right|done].
Qed.

Lemma storeShardMapping_mapping cm s conn upd tasks cm' s' r :
  tasks_of upd tasks -> storeShardMapping prefix cm s conn tasks = Some (cm', s', r) ->
  (forall id, mapping cm' id = mapping cm id \/ exists info, upd !! id = Some info /\ same_but_rev (mapping cm' id) info) /\
  numShards cm' = numShards cm /\ localNodeAddress cm' = localNodeAddress cm.
Proof.
  intros Ht Hs. unfold storeShardMapping in Hs. repeat case_match; simplify_eq; try (split; [by left|done]).
  match goal with E : storeTasks _ _ _ _ = _ |- _ => destruct (storeTasks_mapping _ _ _ _ _ _ _ E) as (Hm & ?) end.
  split; [|done]. intros id. destruct (Hm id) as [?|(info & f & Hin & Hsame)]; [by left|]. right. exists info. split; [|done].
  apply elem_of_map_to_list. unfold tasks_of in Ht. rewrite <-Ht. apply list_elem_of_fmap. by exists (id, info, f).
Qed.

End Mapping.

Lemma countObjects_spec n ids : forall counts k, (forall j, 0 <= default 0 (counts !! j))%Z ->
  (default 0 (counts !! k) <= default 0 (countObjects n ids counts !! k))%Z /\
  (forall id, id ∈ ids -> Contains id "/" = false -> GetShardID id n = k -> 0 < default 0 (countObjects n ids counts !! k))%Z.
Proof.
  induction ids as [|i ids IH]; intros counts k Hnn; cbn [countObjects].
  { split; [lia|]. intros id Hi. by apply elem_of_nil in Hi. }
  destruct (Contains i "/") eqn:Ei.
  { destruct (IH counts k Hnn) as [H1 H2]. split; [done|]. intros id [->|Hi]%elem_of_cons Hc; [congruence|by apply H2]. }
  set (counts' := <[GetShardID i n := (default 0 (counts !! GetShardID i n) + 1)%Z]> counts).
  assert (forall j, default 0 (counts' !! j) = default 0 (counts !! j) + (if bool_decide (j = GetShardID i n) then 1 else 0))%Z as Hc'.
  { intros j. unfold counts'. case_bool_decide as E; [subst; rewrite lookup_insert_eq; done|]. rewrite lookup_insert_ne by done. lia. }
  destruct (IH counts' k) as [H1 H2].
  { intros j. rewrite Hc'. specialize (Hnn j). case_bool_decide; lia. }
  rewrite Hc' in H1. split; [case_bool_decide; lia|]. intros id [->|Hi]%elem_of_cons Hc Hk; [|by apply (H2 id)].
  rewrite bool_decide_eq_true_2 in H1 by done. specialize (Hnn k). lia.
Qed.

Section ReleaseLemmas.
Context {St Msg Data Any P S : Type} `{PersistenceProvider P} `{EtcdOps S}.
Abbreviation nodeT := (Nodes.Node (St := St) (Msg := Msg) (Data := Data) (P := P)).

(** Under the invariant, listing the objects in any order gives exactly the keys of the map. *)
Lemma ListObjectIDs_keys (n : nodeT) ids oid :
  node_inv n -> (forall k, is_Some (Nodes.objects n !! k) -> k ∈ ids) ->
  oid ∈ Nodes.ListObjectIDs n ids <-> is_Some (Nodes.objects n !! oid).
Proof.
  intros Hi Hall. unfold Nodes.ListObjectIDs. rewrite list_elem_of_omap. split.
  - intros (k & _ & Hk). apply fmap_Some in Hk as (o & Ho & ->). destruct (inv_objects _ Hi _ _ Ho) as (_ & -> & _). by eexists.
  - intros [o Ho]. exists oid. split; [apply Hall; by eexists|]. rewrite Ho. cbn. f_equal. by destruct (inv_objects _ Hi _ _ Ho) as (_ & ? & _).
Qed.

(** What a release changes: shards with no counted object *)
Lemma release_mapping prefix cm (s : S) conn sched now counts cm' s' r :
  (forall upd, tasks_of upd (sched upd)) ->
  ReleaseShardsForNode prefix cm s conn sched now counts = Some (cm', s', r) ->
  (forall id, mapping cm' id = mapping cm id \/
     (default 0 (counts !! id) = 0)%Z /\ CurrentNode (mapping cm id) = localNodeAddress cm /\
     CurrentNode (mapping cm' id) = "" /\ TargetNode (mapping cm' id) = TargetNode (mapping cm id)) /\
  numShards cm' = numShards cm.
Proof.
  intros Hsch Hr. unfold ReleaseShardsForNode in Hr.
  case_bool_decide; [simplify_eq; split; [by left|done]|]. case_match; [simplify_eq; split; [by left|done]|].
  destruct (calcReleaseShardsForNode cm (localNodeAddress cm) counts) as [upd|] eqn:Ec; [|simplify_eq; split; [by left|done]].
  destruct (storeShardMapping prefix cm s conn (sched upd)) as [[[cm1 s1] [[k err] b]]|] eqn:Es; [|done].
  assert (cm' = cm1) as -> by (destruct err; congruence).
  destruct (storeShardMapping_mapping _ _ _ _ _ _ _ _ _ (Hsch upd) Es) as (Hm & Hn & _). split; [|done].
  intros id. destruct (Hm id) as [?|(info & Hu & Ht & Hcur & _)]; [by left|]. right.
  unfold calcReleaseShardsForNode in Ec. destruct (ShardMapping (state cm)) as [sm|] eqn:Esm; [|done].
  case_bool_decide; [done|]. injection Ec as <-. apply lookup_fmap_Some in Hu as (i0 & <- & Hi0).
  apply map_lookup_filter_Some in Hi0 as [Hi0 Hrel]. cbn in Hrel. unfold releasable in Hrel. breflect.
  assert (mapping cm id = i0) as Hmi by (unfold mapping, shard_at; rewrite Esm; cbn; by rewrite Hi0).
  rewrite Hcur, Ht, Hmi. repeat match goal with H : _ /\ _ |- _ => destruct H end. breflect. by split_and!.
Qed.

End ReleaseLemmas.

(** ** Properties *)

(** a node does not release a shard that a live object of it needs.  When every live object is listed
    and no object is created between the count and the release, then after [releaseShardOwnership], with
    any failures of the store, the record of the shard of every live object whose id has no slash is what it
    was; a record that did change was owned by this node, keeps its target and has no owner any more. *)
Theorem release_spares_live_objects {St Msg Data P S : Type} `{PersistenceProvider P} `{EtcdOps S}
    (prefix : string) (t : tick) (c c' : Cluster (St := St) (Msg := Msg) (Data := Data) (P := P)) (s s' : S) (n : Nodes.Node) :
  node c = Some n -> node_inv n -> (forall upd, tasks_of upd (sched t upd)) ->
  (forall k, is_Some (Nodes.objects n !! k) -> k ∈ listing t n) ->
  (forall k, is_Some (Nodes.objects (meanwhile t n) !! k) -> is_Some (Nodes.objects n !! k)) ->
  releaseShardOwnership prefix t c s = Some (c', s') ->
  exists n', node c' = Some n' /\
    (forall oid, is_Some (Nodes.objects n' !! oid) -> Contains oid "/" = false ->
       let shard := GetShardID oid (numShards (consensusManager c)) in
       mapping (consensusManager c') shard = mapping (consensusManager c) shard) /\
    (forall id, mapping (consensusManager c') id <> mapping (consensusManager c) id ->
       CurrentNode (mapping (consensusManager c) id) = localNodeAddress (consensusManager c) /\
       CurrentNode (mapping (consensusManager c') id) = "" /\
       TargetNode (mapping (consensusManager c') id) = TargetNode (mapping (consensusManager c) id)).
Proof.
  intros Hn Hi Hsch Hlist Hmw Hr. unfold releaseShardOwnership in Hr. rewrite Hn in Hr.
  destruct (ReleaseShardsForNode _ _ _ _ _ _ _) as [[[cm1 s1] r]|] eqn:E; [|done]. injection Hr as <- <-.
  destruct (release_mapping _ _ _ _ _ _ _ _ _ _ Hsch E) as [Hm _]. cbn in Hm.
  exists (meanwhile t n). split; [done|]. split.
  - intros oid Ho Hs shard. destruct (Hm shard) as [?|(Hz & _)]; [done|]. exfalso.
    destruct (countObjects_spec (numShards (consensusManager c)) (Nodes.ListObjectIDs n (listing t n)) ∅ shard) as [_ Hc].
    { intros j. by rewrite lookup_empty. }
    specialize (Hc oid). rewrite (ListObjectIDs_keys n _ oid Hi Hlist) in Hc. specialize (Hc (Hmw oid Ho) Hs eq_refl). lia.
  - intros id Hne. by destruct (Hm id) as [?|(_ & ? & ? & ?)].
Qed.

(** the per-shard auto-loaded objects are loaded once in the cluster.  The id made for shard [k] is
    sharded to [k]; a node asks for it exactly when the mapping says the node currently owns [k]; so of two
    nodes with the same mapping at most one asks for it. *)
Theorem autoload_per_shard_once {St Msg Data P : Type} `{PersistenceProvider P}
    (c1 c2 : Cluster (St := St) (Msg := Msg) (Data := Data) (P := P)) (cfg : AutoLoadObjectConfig) (k : Z) :
  let n := numShards (consensusManager c1) in
  consensusManager c2 = consensusManager c1 -> getAdvertiseAddr c1 <> getAdvertiseAddr c2 ->
  (0 <= k < n)%Z -> (n <= 2 ^ 63)%Z ->
  let id := perShardID k (aID cfg) in
  GetShardID id n = k /\
  ((aType cfg, id) ∈ loadPerShardObject c1 cfg <-> GetNodeForShard (consensusManager c1) k = Ok (getAdvertiseAddr c1)) /\
  ((aType cfg, id) ∈ loadPerShardObject c1 cfg -> (aType cfg, id) ∉ loadPerShardObject c2 cfg).
Proof.
  intros n Hcm Hne Hk Hn id.
  assert (forall j base, (0 <= j < n)%Z -> GetShardID (perShardID j base) n = j) as Hsh.
  { intros j base Hj. unfold perShardID. rewrite <-app_assoc_string. change ("/" +:+ base) with (String "/" base).
    rewrite GetShardID_fixed by apply Itoa_no_slash. rewrite Atoi_Itoa by (unfold in_int64; lia).
    destruct (0 <=? j)%Z eqn:?, (j <? n)%Z eqn:?; breflect; try lia. done. }
  assert (forall c : Cluster (St := St) (Msg := Msg) (Data := Data) (P := P), numShards (consensusManager c) = n ->
    (aType cfg, id) ∈ loadPerShardObject c cfg <-> GetNodeForShard (consensusManager c) k = Ok (getAdvertiseAddr c)) as Hin.
  { intros c Hc. unfold loadPerShardObject. rewrite list_elem_of_omap, Hc. split.
    - intros (j & Hj%elem_of_seqZ & E). destruct (GetNodeForShard (consensusManager c) j) as [a|] eqn:Ea; [|done].
      case_bool_decide as Ha; [done|]. assert (perShardID j (aID cfg) = id) as Eid by congruence.
      assert (j = k) as -> by (rewrite <-(Hsh j (aID cfg)), <-(Hsh k (aID cfg)) by lia; by rewrite Eid).
      congruence.
    - intros E. exists k. split; [apply elem_of_seqZ; lia|]. rewrite E. by rewrite bool_decide_eq_false_2 by auto. }
  split; [by apply Hsh|]. split; [by apply Hin|]. rewrite (Hin c1), (Hin c2) by (rewrite ?Hcm; done). rewrite Hcm. congruence.
Qed.

(** An attempt that is followed by another: no answer, and the context does not end *)
Definition retried {Any : Type} (a : attempt (Any := Any)) : Prop :=
  is_ok (response a) = false /\ ctxDone a || waitFails a = false.

Lemma retryLoop_sound {Any : Type} addr (rq : request (Any := Any)) attempts : forall rqs r,
  retryLoop addr rq attempts = (rqs, r) ->
  (forall q, q ∈ rqs -> q = rq) /\
  match r with
  | None => length rqs = length attempts /\ (forall a, a ∈ attempts -> retried a)
  | Some rep => exists pre a post, attempts = pre ++ a :: post /\ length rqs = Datatypes.S (length pre) /\
      (forall b, b ∈ pre -> retried b) /\
      match response a with
      | Ok (txt, status, res) => rep = if bool_decide (txt <> "") then (None, status, Some (ErrRemoteReply txt)) else (res, status, None)
      | Err e => rep = (None, Nodes.UNKNOWN, Some (ErrRemote addr e)) /\ ctxDone a || waitFails a = true
      end
  end.
Proof.
  induction attempts as [|a attempts IH]; intros rqs r Hr; cbn in Hr.
  { simplify_eq. split; [set_solver|]. split; [done|]. set_solver. }
  destruct (response a) as [[[txt status] res]|e] eqn:Ea.
  { simplify_eq. split; [set_solver|]. exists [], a, attempts. rewrite Ea. split_and!; try done. set_solver. }
  destruct (ctxDone a || waitFails a) eqn:Ed.
  { simplify_eq. split; [set_solver|]. exists [], a, attempts. rewrite Ea. split_and!; try done. set_solver. }
  destruct (retryLoop addr rq attempts) as [rqs0 r0] eqn:Er. injection Hr as <- <-. destruct (IH _ _ eq_refl) as [Hq Hcase].
  split; [intros q [->|Hq']%elem_of_cons; auto|]. assert (retried a) as Hre by (split; [by rewrite Ea|done]). destruct r0 as [rep|].
  - destruct Hcase as (pre & b & post & -> & Hl & Hpre & Hb). exists (a :: pre), b, post. split_and!; auto; [cbn; by f_equal|].
    intros x [->|Hx]%elem_of_cons; auto.
  - destruct Hcase as [Hl Hall]. split; [cbn; by f_equal|]. intros x [->|Hx]%elem_of_cons; auto.
Qed.

(** A remote reliable call is retried with the same call id until it is answered.  When the object is
    owned by another connected node, every request [ReliableCallObjectAnyRequest] sends goes to that
    node and carries the caller's call id; the reply is that of the first attempt that was answered, all
    attempts before it having failed with the context still alive; when the context ends before any answer
    the status is UNKNOWN, with an error; and without a reply yet all attempts so far are to be retried. *)
Theorem reliable_rpc_retries_same_call {St Msg Data Any P : Type} `{PersistenceProvider P}
    (local : Nodes.Node -> string -> string -> string -> string -> option Any -> Nodes.Node * Nodes.reply (Any := Any))
    (attempts : list attempt) (c c' : Cluster (St := St) (Msg := Msg) (Data := Data) (P := P))
    (callID typ oid method addr : string) (req : option Any) (rqs : list request) (r : option reliable_reply) :
  callID <> "" -> typ <> "" -> oid <> "" -> method <> "" ->
  GetCurrentNodeForObject (consensusManager c) oid = Ok addr -> addr <> getAdvertiseAddr c -> addr ∈ connections c ->
  ReliableCallObjectAnyRequest local attempts c callID typ oid method req = (c', rqs, r) ->
  c' = c /\ (forall q, q ∈ rqs -> q = RpcReliable addr callID typ oid method req) /\
  match r with
  | None => length rqs = length attempts /\ (forall a, a ∈ attempts -> retried a)
  | Some rep => exists pre a post, attempts = pre ++ a :: post /\ length rqs = Datatypes.S (length pre) /\
      (forall b, b ∈ pre -> retried b) /\
      match response a with
      | Ok (txt, status, res) => rep = if bool_decide (txt <> "") then (None, status, Some (ErrRemoteReply txt)) else (res, status, None)
      | Err e => rep = (None, Nodes.UNKNOWN, Some (ErrRemote addr e)) /\ ctxDone a || waitFails a = true
      end
  end.
Proof.
  intros H1 H2 H3 H4 Hr Ha Hc Hx. unfold ReliableCallObjectAnyRequest in Hx. rewrite !bool_decide_eq_false_2 in Hx by done.
  rewrite Hr in Hx. rewrite bool_decide_eq_false_2 in Hx by done. unfold GetConnection in Hx. rewrite bool_decide_eq_true_2 in Hx by done.
  cbn in Hx. destruct (retryLoop addr _ attempts) as [rqs0 r0] eqn:E. injection Hx as <- <- <-. split; [done|].
  by eapply retryLoop_sound.
Qed.

(** ** A migration seen from the old owner *)

Import Postgres.

Abbreviation ccluster := (Cluster (St := nat) (Msg := string) (Data := nat) (P := DB)).

(** The node [a:1] with one live object [oid] that has been incremented once *)
Definition node_a (oid : string) : Node.cnode :=
  fst (Nodes.CallObject Counter.rt Node.keep Node.idle Node.idle Node.idle
    (Nodes.SetPersistenceProvider (default (Nodes.NewNode "a:1" 2 (Counter.db0 []))
       (Nodes.RegisterObjectType (Nodes.NewNode "a:1" 2 (Counter.db0 [])) true Counter.cls)) true)
    "Counter" oid "Inc" (Some "x")).

(** Two nodes, two shards, [b:1] leading; shard 1 is to move from [a:1] to [b:1] *)
Definition moving : ClusterState :=
  mkState {["a:1"; "b:1"]} (Some ∅)
    (Some {[ 0%Z := mkShard "a:1" "a:1" [] 2; 1%Z := mkShard "b:1" "a:1" [] 3 ]}) "b:1" 1 3 (Some 0%Z).
Definition cm_of (addr : string) (st : ClusterState) : ConsensusManager := set_state (NewConsensusManager true 1 addr 2) st.
Definition etcd0 : EtcdMem :=
  mkMem {[ "/g/shard/0" := ("a:1,a:1", 2%Z); "/g/shard/1" := ("b:1,a:1", 3%Z); "/g/leader" := ("b:1", 1%Z) ]} 3.

Definition conf0 : ClusterConf.Config := ClusterConf.mkConfig "e" "/g" 1 0 0 2 1 f0_2 0 [] 0 0 0 None.
Definition cluster_a (oid : string) : ccluster :=
  mkCluster (cm_of "a:1" moving) (Some (node_a oid)) None ∅ conf0 false None.

Definition tick0 : tick (St := nat) (Msg := string) (Data := nat) (P := DB) :=
  mkTick true (fun upd => (fun e => (e, NoFault)) <$> map_to_list upd) 100 NoFault (fun l => l) 0
    (fun n => (map_to_list (Nodes.objects n)).*1) Node.idle ∅ Node.idle.

(** A node [b:1] that shares the store [p] and has the type registered *)
Definition node_b (p : DB) : Node.cnode :=
  Nodes.SetPersistenceProvider (default (Nodes.NewNode "b:1" 2 p) (Nodes.RegisterObjectType (Nodes.NewNode "b:1" 2 p) true Counter.cls)) true.

(** An object with a fixed-shard id survives the migration of its shard.  In a run without failures,
    the old owner's tick releases shard 1 while the object [shard#1/x], which belongs to it, stays live
    there: neither the eviction nor the count of live objects looks at ids with a slash.  The new owner
    then claims the shard and is where the object's calls are routed; the first one activates a second
    copy there, which does not have the effect of the call made on the first; and the old owner, knowing of
    the new one, still does not evict its copy. *)
Theorem fixed_shard_object_outlives_shard :
  exists (c1 : ccluster) s1 rqs cmB s2 n1 nB,
    handleShardMappingCheck (Any := string) "/g" tick0 (fun _ => Err "") (cluster_a "shard#1/x") etcd0 = Some (c1, s1, rqs) /\
    mem_kv s1 !! "/g/shard/1" = Some ("b:1,", 4%Z) /\
    node c1 = Some n1 /\ (st ∘ Nodes.base <$> Nodes.objects n1 !! "shard#1/x") = Some 1%nat /\
    ClaimShardsForNode "/g" (cm_of "b:1" (state (consensusManager c1))) s1 true (sched tick0) 200 = Some (cmB, s2, Ok tt) /\
    mem_kv s2 !! "/g/shard/1" = Some ("b:1,b:1", 5%Z) /\
    GetCurrentNodeForObject cmB "shard#1/x" = Ok "b:1" /\
    Nodes.CallObject Counter.rt Node.keep Node.idle Node.idle Node.idle (node_b (Nodes.store n1)) "Counter" "shard#1/x" "Inc" (Some "x") = (nB, Ok "x") /\
    (st ∘ Nodes.base <$> Nodes.objects nB !! "shard#1/x") = Some 1%nat /\
    GetObjectsToEvict (cm_of "a:1" (state cmB)) "a:1" ["shard#1/x"] = [].
Proof.
  do 7 eexists. repeat (split; [vm_compute; reflexivity|]). vm_compute; reflexivity.
Qed.

(** ** Witnesses *)

Lemma node_a_inv oid : node_inv (node_a oid).
Proof.
  apply (inv_run_op Counter.rt Node.keep _ (Node.OpCall Node.idle Node.idle Node.idle "Counter" oid "Inc" (Some "x"))).
  { split_and!; try exact Node.keeps_idle. exact (Node.retains_idle _). }
  apply (inv_run_op Counter.rt Node.keep (Nodes.SetPersistenceProvider (Nodes.NewNode "a:1" 2 (Counter.db0 [])) true) (Node.OpRegister true Counter.cls)); [done|].
  split; simpl; [intros t c; by rewrite lookup_empty|intros k o; by rewrite lookup_empty|by rewrite fmap_empty].
Qed.

Lemma tick0_schedule upd : tasks_of upd (sched tick0 upd).
Proof. unfold tasks_of. cbn. rewrite <-list_fmap_compose. by rewrite list_fmap_id. Qed.

Lemma release_spares_live_objects_witness :
  exists c' s' n', releaseShardOwnership "/g" tick0 (cluster_a "x") etcd0 = Some (c', s') /\ node c' = Some n' /\
    mapping (consensusManager c') (GetShardID "x" 2) = mapping (cm_of "a:1" moving) (GetShardID "x" 2).
Proof.
  destruct (releaseShardOwnership "/g" tick0 (cluster_a "x") etcd0) as [[c' s']|] eqn:E; [|vm_compute in E; discriminate E].
  destruct (release_spares_live_objects "/g" tick0 (cluster_a "x") c' etcd0 s' (node_a "x") eq_refl (node_a_inv "x") tick0_schedule)
    as (n' & Hn & Hm & _).
  - intros k [o Ho]. apply list_elem_of_fmap. exists (k, o). split; [done|]. by apply elem_of_map_to_list.
  - by intros k.
  - exact E.
  - exists c', s', n'. split; [done|]. split; [done|]. apply (Hm "x"); [|reflexivity].
    vm_compute in E. injection E as <- <-. injection Hn as <-. by eexists.
Defined.

Lemma autoload_per_shard_once_witness :
  GetShardID (perShardID 1 "mgr") 2 = 1%Z.
Proof.
  apply (autoload_per_shard_once (cluster_a "x") (mkCluster (cm_of "a:1" moving) None (Some "g:1") ∅ conf0 false None)
    (mkAutoLoad "Mgr" "mgr" true false) 1); [reflexivity|by vm_compute|by vm_compute|by vm_compute].
Defined.

Definition two_attempts : list (attempt (Any := string)) :=
  [mkAttempt (Err "unavailable") false false; mkAttempt (Ok ("", Nodes.SUCCESS, Some "r")) false false].

Definition cluster_g : ccluster := mkCluster (cm_of "g:1" moving) None (Some "g:1") {["a:1"]} conf0 false None.

Lemma reliable_rpc_retries_same_call_witness :
  exists pre a post, two_attempts = pre ++ a :: post /\ length pre = 1%nat.
Proof.
  destruct (reliable_rpc_retries_same_call (fun n _ _ _ _ _ => (n, (None, Nodes.UNKNOWN, None))) two_attempts cluster_g cluster_g
    "r1" "Counter" "shard#0/x" "Inc" "a:1" (Some "x")
    [RpcReliable "a:1" "r1" "Counter" "shard#0/x" "Inc" (Some "x"); RpcReliable "a:1" "r1" "Counter" "shard#0/x" "Inc" (Some "x")]
    (Some (Some "r", Nodes.SUCCESS, None))) as (_ & _ & pre & a & post & H1 & H2 & _);
    [done|done|done|done|vm_compute; reflexivity|by vm_compute|by apply elem_of_singleton|vm_compute; reflexivity|].
  exists pre, a, post. split; [exact H1|]. cbn in H2. congruence.
Defined.
