(* ===== verification/NodeConnections.v ===== *)
(** * The connections between nodes (cluster/nodeconnections)

    [Module Conns]: the table of gRPC connections by node address.  A connection is a number; [closedConns] are
    those that have been closed, in order.  Every operation that changes the table does so under the mutex and is one
    definition; [SetNodes] takes the lock once for a copy of the addresses and once per node, so that it is
    a list of operations that others may interleave with.  Whether a dial succeeds is an argument. *)

From S2P Require Import Prelude GoStrings Cluster.

Module Conns.

Record NodeConnections : Type := mkConns {
  connections : gmap string nat;
  openedConns : nat;                          (* the number of connections made so far *)
  closedConns : list nat
}.

(** [New] *)
Definition New : NodeConnections := mkConns ∅ 0 [].

(** [connectToNode] *)
Definition connectToNode (nc : NodeConnections) (addr : string) (dialOk : bool) : NodeConnections * result string () :=
  match connections nc !! addr with
  | Some _ => (nc, Ok tt)
  | None =>
      if dialOk
      then (mkConns (<[addr := openedConns nc]> (connections nc)) (S (openedConns nc)) (closedConns nc), Ok tt)
      else (nc, Err ("failed to connect to node " +:+ addr))
  end.

(** [disconnectFromNode] *)
Definition disconnectFromNode (nc : NodeConnections) (addr : string) : NodeConnections :=
  match connections nc !! addr with
  | None => nc
  | Some c => mkConns (delete addr (connections nc)) (openedConns nc) (closedConns nc ++ [c])
  end.

(** [Stop]: the connections are closed in the order of the map iteration [range] *)
Definition Stop (range : gmap string nat -> list (string * nat)) (nc : NodeConnections) : NodeConnections :=
  mkConns ∅ (openedConns nc) (closedConns nc ++ (range (connections nc)).*2).

(** [GetConnection], [GetConnectedNodeAddresses] and [NumConnections] *)
Definition GetConnection (nc : NodeConnections) (addr : string) : result string nat :=
  match connections nc !! addr with Some c => Ok c | None => Err ("no connection to node " +:+ addr) end.
Definition GetConnectedNodeAddresses (nc : NodeConnections) : gset string := dom (connections nc).
Definition NumConnections (nc : NodeConnections) : nat := size (connections nc).

(** The operations that [SetNodes] goes through, after its copy [current] of the connected addresses *)
Inductive op : Type := Dial (addr : string) (ok : bool) | Drop (addr : string) | StopAll.

Definition run_op (range : gmap string nat -> list (string * nat)) (nc : NodeConnections) (o : op) : NodeConnections :=
  match o with
  | Dial addr ok => fst (connectToNode nc addr ok)
  | Drop addr => disconnectFromNode nc addr
  | StopAll => Stop range nc
  end.

(** [dialFails] are the nodes that cannot be dialled; [des] and [cur] the orders of the two map iterations *)
Definition setNodesOps (dialFails : gset string) (des cur : list string) (desired current : gset string) : list op :=
  ((fun a => Dial a (bool_decide (a ∉ dialFails))) <$> filter (fun a => a ∉ current) des) ++ (Drop <$> filter (fun a => a ∉ desired) cur).

(** [SetNodes] when nothing interferes *)
Definition SetNodes (range : gmap string nat -> list (string * nat)) (dialFails : gset string) (nc : NodeConnections) (nodes : list string)
    (orders : gset string -> list string) : NodeConnections :=
  let desired := list_to_set nodes in
  let current := dom (connections nc) in
  fold_left (run_op range) (setNodesOps dialFails (orders desired) (orders current) desired current) nc.

End Conns.
Import Conns.

(** ** Lemmas *)

(** Every connection that was made is in the table, under one address, or closed, once. *)
Record conns_ok (nc : NodeConnections) : Prop := {
  co_inj : forall a b c, connections nc !! a = Some c -> connections nc !! b = Some c -> a = b;
  co_closed : forall a c, connections nc !! a = Some c -> c ∉ closedConns nc;
  co_once : NoDup (closedConns nc);
  co_all : forall c, (c < openedConns nc)%nat <-> (exists a, connections nc !! a = Some c) \/ c ∈ closedConns nc
}.

Section Conns.
Context (range : gmap string nat -> list (string * nat)) (Hrange : forall m, range m ≡ₚ map_to_list m).

Lemma conns_ok_connect nc addr ok : conns_ok nc -> conns_ok (fst (connectToNode nc addr ok)).
Proof.
  intros Ho. unfold connectToNode. destruct (connections nc !! addr) eqn:E; [done|]. destruct ok; [|done]. cbn.
  destruct Ho as [Hi Hc Hn Ha]. assert (forall a c, connections nc !! a = Some c -> c <> openedConns nc) as Hlt.
  { intros a c Hac. assert (c < openedConns nc)%nat by (apply Ha; left; by exists a). lia. }
  split; cbn; [| |done|].
  - intros a b c. rewrite !lookup_insert_Some. naive_solver.
  - intros a c. rewrite lookup_insert_Some. intros [[_ <-]|[_ Hac]]; [|eauto]. intros Hin.
    assert (openedConns nc < openedConns nc)%nat by (apply Ha; by right). lia.
  - intros c. split.
    + intros Hlt'. destruct (decide (c = openedConns nc)) as [->|]; [left; exists addr; by rewrite lookup_insert_eq|].
      destruct (proj1 (Ha c)) as [[a Hac]|]; [lia| |by right]. left. exists a. rewrite lookup_insert_ne; [done|congruence].
    + intros [[a Hac]|Hin]; [|assert (c < openedConns nc)%nat by (apply Ha; by right); lia].
      apply lookup_insert_Some in Hac as [[_ <-]|[_ Hac]]; [lia|]. assert (c < openedConns nc)%nat by (apply Ha; left; by exists a). lia.
Qed.

Lemma conns_ok_disconnect nc addr : conns_ok nc -> conns_ok (disconnectFromNode nc addr).
Proof.
  intros Ho. unfold disconnectFromNode. destruct (connections nc !! addr) as [c|] eqn:E; [|done]. destruct Ho as [Hi Hc Hn Ha].
  split; cbn.
  - intros a b d. rewrite !lookup_delete_Some. naive_solver.
  - intros a d. rewrite lookup_delete_Some, elem_of_app, list_elem_of_singleton. naive_solver.
  - apply NoDup_app. split; [done|]. split; [|apply NoDup_singleton]. intros d Hd. rewrite list_elem_of_singleton. intros ->. by eapply Hc.
  - intros d. rewrite Ha, elem_of_app, list_elem_of_singleton. split.
    + intros [[a Had]|]; [|tauto]. destruct (decide (a = addr)) as [->|]; [right; right; congruence|].
      left. exists a. by rewrite lookup_delete_ne.
    + intros [[a Had]|[Hin|Heq]]; [|tauto|subst d; left; eauto]. apply lookup_delete_Some in Had as [_ ?]. left. eauto.
Qed.

Lemma conns_ok_stop nc : conns_ok nc -> conns_ok (Stop range nc).
Proof.
  intros [Hi Hc Hn Ha].
  assert (forall c, c ∈ (range (connections nc)).*2 <-> exists a, connections nc !! a = Some c) as Hr.
  { intros c. rewrite list_elem_of_fmap. setoid_rewrite Hrange. split.
    - intros ([a d] & -> & Hin%elem_of_map_to_list). by exists a.
    - intros [a Hac]. exists (a, c). split; [done|]. by apply elem_of_map_to_list. }
  split; cbn.
  - intros a b c. by rewrite lookup_empty.
  - intros a c. by rewrite lookup_empty.
  - apply NoDup_app. split; [done|]. split; [intros c Hin [a Hac]%Hr; by eapply Hc|].
    apply (NoDup_fmap_2_strong snd); [|rewrite Hrange; apply NoDup_map_to_list].
    intros [a c] [b d]. rewrite !Hrange, !elem_of_map_to_list. cbn. intros H1 H2 <-. f_equal. by eapply Hi.
  - intros c. rewrite Ha, elem_of_app, Hr. split; [tauto|]. intros [[a Hac]|]; [by rewrite lookup_empty in Hac|tauto].
Qed.

Lemma conns_ok_run nc l : conns_ok nc -> conns_ok (fold_left (run_op range) l nc).
Proof.
  revert nc. induction l as [|[a ok|a|] l IH]; intros nc Ho; cbn; [done|..]; apply IH.
  - by apply conns_ok_connect.
  - by apply conns_ok_disconnect.
  - by apply conns_ok_stop.
Qed.

Lemma dials_spec (dialFails : gset string) l : forall nc a,
  let nc' := fold_left (run_op range) ((fun a => Dial a (bool_decide (a ∉ dialFails))) <$> l) nc in
  (is_Some (connections nc !! a) -> connections nc' !! a = connections nc !! a) /\
  (connections nc !! a = None -> is_Some (connections nc' !! a) <-> a ∈ l /\ a ∉ dialFails) /\
  closedConns nc' = closedConns nc.
Proof.
  clear Hrange. induction l as [|b l IH]; intros nc a; cbn.
  { split; [done|]. split; [|done]. intros ->. split; [by intros []|]. by intros [?%elem_of_nil _]. }
  assert (forall a, (is_Some (connections nc !! a) -> connections (connectToNode nc b (bool_decide (b ∉ dialFails))).1 !! a = connections nc !! a) /\
    (connections nc !! a = None -> is_Some (connections (connectToNode nc b (bool_decide (b ∉ dialFails))).1 !! a) <-> a = b /\ a ∉ dialFails) /\
    closedConns (connectToNode nc b (bool_decide (b ∉ dialFails))).1 = closedConns nc) as Hb.
  { intros x. unfold connectToNode. destruct (connections nc !! b) eqn:E; cbn [fst].
    - split; [done|]. split; [|done]. intros Hx. rewrite Hx. split; [by intros []|]. intros [-> _]. congruence.
    - case_bool_decide as Hd; cbn [fst connections closedConns].
      + split; [|split; [|done]]; intros Hx; destruct (decide (x = b)) as [->|].
        * rewrite E in Hx. by destruct Hx.
        * by rewrite lookup_insert_ne.
        * rewrite lookup_insert_eq. split; [done|by eexists].
        * rewrite lookup_insert_ne, Hx by done. split; [by intros []|by intros [-> _]].
      + split; [done|]. split; [|done]. intros Hx. rewrite Hx. split; [by intros []|]. intros [-> ?]. tauto. }
  destruct (IH (connectToNode nc b (bool_decide (b ∉ dialFails))).1 a) as (I1 & I2 & I3), (Hb a) as (B1 & B2 & B3). split_and!.
  - intros Hs. rewrite I1, B1 by (done || by rewrite B1). done.
  - intros Hs. destruct (connections (connectToNode nc b (bool_decide (b ∉ dialFails))).1 !! a) as [c|] eqn:E.
    + rewrite I1 by done. destruct (proj1 (B2 Hs)) as [-> ?]; [done|]. set_solver.
    + rewrite I2 by done. destruct (decide (a = b)) as [->|]; [|set_solver]. split; [set_solver|]. intros [_ ?].
      destruct (proj2 (B2 Hs)); [done|]. congruence.
  - congruence.
Qed.

Lemma drops_spec l : forall nc a,
  connections (fold_left (run_op range) (Drop <$> l) nc) !! a = if decide (a ∈ l) then None else connections nc !! a.
Proof.
  clear Hrange. induction l as [|b l IH]; intros nc a; cbn; [by rewrite decide_False by set_solver|]. rewrite IH.
  assert (connections (disconnectFromNode nc b) !! a = if decide (a = b) then None else connections nc !! a) as ->.
  { unfold disconnectFromNode. destruct (connections nc !! b) eqn:E; cbn; case_decide as Eab; subst; simplify_map_eq; done. }
  repeat case_decide; set_solver.
Qed.

End Conns.

(** ** Properties *)

(** No connection leaks and none is closed twice: after any operations of concurrent callers, every connection that was made is
    in the table under one address, or has been closed exactly once; after [Stop] all have been closed. *)
Theorem connections_never_leak (range : gmap string nat -> list (string * nat)) (l : list op) (c : nat) :
  (forall m, range m ≡ₚ map_to_list m) ->
  let nc := fold_left (run_op range) l New in
  NoDup (closedConns nc) /\
  ((c < openedConns nc)%nat <-> (exists a, connections nc !! a = Some c) \/ c ∈ closedConns nc) /\
  ((exists a, connections nc !! a = Some c) -> c ∉ closedConns nc) /\
  ((c < openedConns nc)%nat -> c ∈ closedConns (Stop range nc)).
Proof.
  intros Hr nc. assert (conns_ok New) as H0.
  { split; cbn; try (by intros; simplify_map_eq); [constructor|]. intros d. split; [lia|].
    intros [[a Ha]|Hin]; [by rewrite lookup_empty in Ha|by apply elem_of_nil in Hin]. }
  pose proof (conns_ok_run range Hr New l H0) as [Hi Hc Hn Ha]. fold nc in Hi, Hc, Hn, Ha. split_and!; [done|done| |].
  - intros [a Hac]. by eapply Hc.
  - intros Hlt. pose proof (conns_ok_stop range Hr nc ltac:(by split)) as [_ _ _ Ha'].
    destruct (proj1 (Ha' c) Hlt) as [[a Hac]|]; [|done]. cbn in Hac. by rewrite lookup_empty in Hac.
Qed.

(** [SetNodes] does what the cluster relies on ([Clusters.SetNodes]): when nothing interferes, the nodes it ends up connected to are those
    desired that were connected or can be dialled; a connection that stays is the same connection as before. *)
Theorem SetNodes_refines (range : gmap string nat -> list (string * nat)) (dialFails : gset string) (nc : NodeConnections) (nodes : list string)
    (orders : gset string -> list string) :
  (forall s, orders s ≡ₚ elements s) ->
  let nc' := Conns.SetNodes range dialFails nc nodes orders in
  dom (connections nc') = Clusters.SetNodes dialFails (dom (connections nc)) (list_to_set nodes) /\
  (forall a c, connections nc !! a = Some c -> a ∈ nodes -> connections nc' !! a = Some c).
Proof.
  intros Ho nc'. assert (forall a, connections nc' !! a = if decide (a ∈ dom (connections nc) /\ a ∉ nodes) then None else
    connections (fold_left (run_op range) ((fun a => Dial a (bool_decide (a ∉ dialFails))) <$>
      filter (fun a => a ∉ dom (connections nc)) (orders (list_to_set nodes))) nc) !! a) as Hl.
  { intros a. unfold nc', Conns.SetNodes, setNodesOps. rewrite fold_left_app, drops_spec.
    apply decide_ext. rewrite list_elem_of_filter, Ho, elem_of_elements, elem_of_list_to_set. tauto. }
  split.
  - apply set_eq. intros a. unfold Clusters.SetNodes. rewrite elem_of_dom, Hl.
    destruct (dials_spec range dialFails (filter (fun a => a ∉ dom (connections nc)) (orders (list_to_set nodes))) nc a) as (H1 & H2 & _).
    rewrite !elem_of_union, !elem_of_difference, !elem_of_intersection, !elem_of_list_to_set.
    destruct (connections nc !! a) as [c|] eqn:E.
    + assert (a ∈ dom (connections nc)) by (apply elem_of_dom; by rewrite E). rewrite H1 by done.
      case_decide as D; [split; [by intros []|tauto]|]. split; [|by eexists]. intros _. destruct (decide (a ∈ nodes)); tauto.
    + assert (a ∉ dom (connections nc)) by (apply not_elem_of_dom; done). rewrite decide_False by tauto. rewrite H2 by done.
      rewrite list_elem_of_filter, Ho, elem_of_elements, elem_of_list_to_set. tauto.
  - intros a c E Ha. rewrite Hl, decide_False by tauto.
    destruct (dials_spec range dialFails (filter (fun a => a ∉ dom (connections nc)) (orders (list_to_set nodes))) nc a) as (H1 & _).
    rewrite H1, E; [done|by rewrite E].
Qed.
