(* ===== verification/CallContext.v ===== *)
(** * What a call carries besides its arguments (util/callcontext)

    [Module Context]: the client id, the caller's identity, the deadline and the gRPC metadata that takes
    the identity from one process to the next. *)

From S2P Require Import Prelude GoStrings.

Module Context.

Record CallerIdentity : Type := mkCaller { UserID : string; Roles : list string }.

(** gRPC metadata: the values of a key, in order *)
Abbreviation MD := (gmap string (list string)).

Record Ctx : Type := mkCtx {
  clientID : option string;
  callerIdentity : option CallerIdentity;
  outgoing : MD;
  incoming : option MD;
  deadline : option Z
}.

Definition mdKeyCallerUserID : string := "x-caller-user-id".
Definition mdKeyCallerRoles : string := "x-caller-roles".

Definition WithCallerIdentity (ctx : Ctx) (id : option CallerIdentity) : Ctx :=
  mkCtx (clientID ctx) id (outgoing ctx) (incoming ctx) (deadline ctx).
Definition WithClientID (ctx : Ctx) (c : string) : Ctx :=
  mkCtx (Some c) (callerIdentity ctx) (outgoing ctx) (incoming ctx) (deadline ctx).
Definition ClientID (ctx : Ctx) : string := default "" (clientID ctx).

(** [CallerUserID], [FromClient] *)
Definition CallerUserID (ctx : Ctx) : string := match callerIdentity ctx with Some i => UserID i | None => "" end.
Definition FromClient (ctx : Ctx) : bool := bool_decide (is_Some (clientID ctx)).

(** [metadata.AppendToOutgoingContext] *)
Definition appendMD (md : MD) (k v : string) : MD := <[k := default [] (md !! k) ++ [v]]> md.

(** [InjectCallerToOutgoing] *)
Definition InjectCallerToOutgoing (ctx : Ctx) : Ctx :=
  match callerIdentity ctx with
  | None => ctx
  | Some i =>
      if bool_decide (UserID i = "") then ctx
      else mkCtx (clientID ctx) (callerIdentity ctx)
             (fold_left (fun md role => appendMD md mdKeyCallerRoles role) (Roles i)
                (appendMD (outgoing ctx) mdKeyCallerUserID (UserID i)))
             (incoming ctx) (deadline ctx)
  end.

(** [ExtractCallerFromIncoming] *)
Definition ExtractCallerFromIncoming (ctx : Ctx) : Ctx :=
  match incoming ctx with
  | None => ctx
  | Some md =>
      match md !! mdKeyCallerUserID with
      | None | Some [] => ctx
      | Some (u :: _) =>
          if bool_decide (u = "") then ctx
          else WithCallerIdentity ctx (Some (mkCaller u (default [] (md !! mdKeyCallerRoles))))
      end
  end.

(** [WithDefaultTimeout]: [now] is the clock *)
Definition WithDefaultTimeout (ctx : Ctx) (now defaultTimeout : Z) : Ctx :=
  match deadline ctx with
  | None => mkCtx (clientID ctx) (callerIdentity ctx) (outgoing ctx) (incoming ctx) (Some (now + defaultTimeout)%Z)
  | Some _ => ctx
  end.

(** What arrives at the other end of an RPC: the outgoing metadata of the caller, and nothing else *)
Definition transported (ctx : Ctx) : Ctx := mkCtx None None ∅ (Some (outgoing ctx)) (deadline ctx).

End Context.

Import Context.

(** ** Lemmas *)

Lemma inject_roles (roles : list string) (md : MD) :
  (fold_left (fun md role => appendMD md mdKeyCallerRoles role) roles md) !! mdKeyCallerUserID = md !! mdKeyCallerUserID /\
  (roles <> [] \/ is_Some (md !! mdKeyCallerRoles) ->
   (fold_left (fun md role => appendMD md mdKeyCallerRoles role) roles md) !! mdKeyCallerRoles
     = Some (default [] (md !! mdKeyCallerRoles) ++ roles)).
Proof.
  revert md. induction roles as [|r roles IH]; intros md; cbn [fold_left].
  - split; [done|]. intros [?|[l Hl]]; [done|]. by rewrite Hl, app_nil_r.
  - destruct (IH (appendMD md mdKeyCallerRoles r)) as [H1 H2]. rewrite H1. split.
    + unfold appendMD. by rewrite lookup_insert_ne.
    + intros _. rewrite H2 by (right; unfold appendMD; rewrite lookup_insert_eq; by eexists).
      unfold appendMD. rewrite lookup_insert_eq. cbn. by rewrite <-app_assoc.
Qed.

(** The identity that crosses an RPC: one with a user id *)
Definition identified (i : CallerIdentity) : option CallerIdentity := if bool_decide (UserID i = "") then None else Some i.

Lemma transported_identity (ctx : Ctx) :
  outgoing ctx !! mdKeyCallerUserID = None -> outgoing ctx !! mdKeyCallerRoles = None ->
  callerIdentity (ExtractCallerFromIncoming (transported (InjectCallerToOutgoing ctx))) =
    callerIdentity ctx ≫= identified.
Proof.
  intros Hu Hr. unfold InjectCallerToOutgoing, ExtractCallerFromIncoming, transported, WithCallerIdentity.
  destruct (callerIdentity ctx) as [[u roles]|] eqn:Ei; cbn [UserID Roles incoming outgoing mbind option_bind]; [|by rewrite Hu].
  unfold identified. cbn [UserID].
  case_bool_decide as E; cbn [UserID Roles incoming outgoing]; [by rewrite Hu|].
  pose proof (inject_roles roles (appendMD (outgoing ctx) mdKeyCallerUserID u)) as [H1 H2]. rewrite H1.
  assert (appendMD (outgoing ctx) mdKeyCallerUserID u !! mdKeyCallerRoles = None) as Hn by (unfold appendMD; by rewrite lookup_insert_ne).
  assert (appendMD (outgoing ctx) mdKeyCallerUserID u !! mdKeyCallerUserID = Some [u]) as ->
    by (unfold appendMD; by rewrite lookup_insert_eq, Hu).
  rewrite Hn in H2. rewrite bool_decide_eq_false_2 by done. cbn [callerIdentity].
  do 2 f_equal. destruct roles as [|r roles]; [cbn [fold_left]; by rewrite Hn|]. by rewrite H2 by (by left).
Qed.

Lemma extract_ClientID ctx : ClientID (ExtractCallerFromIncoming ctx) = ClientID ctx.
Proof. unfold ExtractCallerFromIncoming. by repeat case_match. Qed.
