(* ===== verification/Server.v ===== *)
(** * The node's RPC handlers (server/server.go)

    [Module Servers]: the handlers of a node's server, composed with the node of Node.v and the cluster
    view of ConsensusState.v.  An error is the value the handler returns; starting and stopping the
    server and the metrics are not modelled. *)

From S2P Require Import Prelude GoStrings ObjectId Persistence Object ReliableCalls AccessControl Node.
From S2P Require Import ConsensusState CallContext.
Import Proto Objects Access Conf Consensus Context.

Module Servers.
Section Server.
Context {St Msg Data Any P : Type} `{PersistenceProvider P}.
Context (rt : Runtime Any Msg) (onCreated : Class St Msg Data -> St -> St).
Abbreviation nodeT := (Nodes.Node (St := St) (Msg := Msg) (Data := Data) (P := P)).
Open Scope go_scope.

Record Server : Type := mkServer {
  Node : nodeT;
  clusterView : option ConsensusManager;      (* [None] when no node cluster is configured *)
  accessValidator : option (list CompiledRule)
}.

Inductive server_error : Type :=
| ErrOwnerUnknown (e : cm_error)
| ErrNotOwner (addr : string)
| PermissionDenied
| ErrUnmarshal (msg : string)
| ErrNode (e : Nodes.node_error)
| ErrMarshal (msg : string)
| ErrNoID.

(** [validateObjectShardOwnership] *)
Definition validateObjectShardOwnership (s : Server) (objectID : string) : result server_error () :=
  match clusterView s with
  | None => Ok tt
  | Some cm =>
      match GetCurrentNodeForObject cm objectID with
      | Err e => Err (ErrOwnerUnknown e)
      | Ok addr => guard! bool_decide (addr = Nodes.advertiseAddress (Node s)) else ErrNotOwner addr ;; Ok tt
      end
  end.

Definition with_node (s : Server) (n : nodeT) : Server := mkServer n (clusterView s) (accessValidator s).

(** [CallObject]: [ctx] is the context of the incoming RPC, [cid] the client id of the request; the third
    result is the context the method is invoked with, when it gets that far *)
Definition CallObject (wait wait2 during : nodeT -> nodeT) (s : Server) (ctx : Ctx) (cid typ id method : string) (req : option Any)
    : Server * result server_error Any * option Ctx :=
  match validateObjectShardOwnership s id with
  | Err e => (s, Err e, None)
  | Ok _ =>
      if match accessValidator s with Some v => negb (CheckNodeAccess v typ id method) | None => false end
      then (s, Err PermissionDenied, None)
      else
        let ctx := if bool_decide (cid <> "") then WithClientID ctx cid else ctx in
        let ctx := ExtractCallerFromIncoming ctx in
        match AnyToMsg rt req with
        | Err m => (s, Err (ErrUnmarshal m), None)
        | Ok requestMsg =>
            let '(n, r) := Nodes.CallObject rt onCreated wait wait2 during (Node s) typ id method requestMsg in
            (with_node s n,
             match r with
             | Err e => Err (ErrNode e)
             | Ok resp => match anyNew rt resp with Ok a => Ok a | Err m => Err (ErrMarshal m) end
             end, Some ctx)
        end
  end.

(** [CreateObject] *)
Definition CreateObject (wait : nodeT -> nodeT) (s : Server) (typ id : string) : Server * result server_error string :=
  if bool_decide (id = "") then (s, Err ErrNoID)
  else match validateObjectShardOwnership s id with
  | Err e => (s, Err e)
  | Ok _ =>
      let '(n, r) := Nodes.CreateObject onCreated wait (Node s) typ id in
      (with_node s n, match r with Ok i => Ok i | Err e => Err (ErrNode e) end)
  end.

(** [DeleteObject] *)
Definition DeleteObject (wait : nodeT -> nodeT) (s : Server) (typ id : string) : Server * result server_error () :=
  if bool_decide (id = "") then (s, Err ErrNoID)
  else match validateObjectShardOwnership s id with
  | Err e => (s, Err e)
  | Ok _ =>
      let '(n, r) := Nodes.DeleteObject wait (Node s) typ id in
      (with_node s n, match r with Ok i => Ok i | Err e => Err (ErrNode e) end)
  end.

(** [ReliableCallObject]: the response's result, status and error *)
Definition ReliableCallObject (wait wait2 wait3 : nodeT -> nodeT) (await : nodeT -> nodeT * option ReliableCall)
    (sleep : nat -> nodeT -> option nodeT) (s : Server) (callID typ id method : string) (req : option Any) (ch : nat)
    : Server * (option Any * Nodes.ReliableCallStatus * bool) :=
  let skip := (s, (None, Nodes.SKIPPED, true)) in
  if bool_decide (callID = "") then skip
  else if bool_decide (typ = "") then skip
  else if bool_decide (id = "") then skip
  else if bool_decide (method = "") then skip
  else if match req with None => true | Some _ => false end then skip
  else match validateObjectShardOwnership s id with
  | Err _ => skip
  | Ok _ =>
      let '(n, (res, status, err)) :=
        Nodes.ReliableCallObject rt onCreated wait wait2 wait3 await sleep (Node s) callID typ id method req ch in
      (with_node s n, match err with Some _ => (None, status, true) | None => (res, status, false) end)
  end.

End Server.
End Servers.

(** The context a server invokes the method with *)
Lemma server_context {St Msg Data Any P : Type} `{PersistenceProvider P}
    (rt : Runtime Any Msg) (onCreated : Class St Msg Data -> St -> St) (wait wait2 during : Nodes.Node -> Nodes.Node)
    (s s' : Servers.Server (St := St) (Msg := Msg) (Data := Data) (P := P)) ctx ctx2 cid typ id method req r :
  Servers.CallObject rt onCreated wait wait2 during s ctx cid typ id method req = (s', r, Some ctx2) ->
  ctx2 = ExtractCallerFromIncoming (if bool_decide (cid <> "") then WithClientID ctx cid else ctx).
Proof. unfold Servers.CallObject. intros Hc. by repeat (case_match; simplify_eq). Qed.
