(* ===== verification/SingleActivation.v ===== *)
(** * Single activation: the protocol, the nodes and their objects together

    The shard protocol of ConsensusProtocol.v composed with the nodes of Node.v, the ownership check of
    Server.v and Cluster.v and the object count of Cluster.v.  A node validates a request against its cached
    mapping, and runs the operation later; it counts its objects, and plans the releases later; nodes crash
    and start again.  What the code leaves to timing is a parameter of the steps: a record of three
    switches.  With all three on, an object with a hashed id is active on at most one node, the one that etcd
    records as the owner of its shard; with any one of them off there is a run with two activations. *)

From S2P Require Import Prelude GoStrings GoFloat ObjectId Persistence Object ReliableCalls AccessControl ClusterConfig Node.
From S2P Require Import ConsensusState ConsensusPlan EtcdStore ConsensusStore ConsensusProtocol Cluster CallContext Server.
Import Proto Objects Sharding Parser Shards Consensus Plan Store.

Create HintDb within.

(** ** What an operation adds to a node *)

Section Within.
Context {St Msg Data Any P : Type} `{PersistenceProvider P}.
Context (rt : Runtime Any Msg) (onCreated : Class St Msg Data -> St -> St).
Abbreviation nodeT := (Nodes.Node (St := St) (Msg := Msg) (Data := Data) (P := P)).

(** [n'] is the same node as [n], and has no live object that [n] did not have, [x] excepted. *)
Definition within (x : option string) (n n' : nodeT) : Prop :=
  Nodes.advertiseAddress n' = Nodes.advertiseAddress n /\
  forall k, is_Some (Nodes.objects n' !! k) -> is_Some (Nodes.objects n !! k) \/ x = Some k.

(** The object an operation may activate *)
Definition creates (o : op (St := St) (Msg := Msg) (Data := Data) (Any := Any) (P := P)) : option string :=
  match o with
  | OpCreate _ _ oid | OpCall _ _ _ _ oid _ _ | OpReliable _ _ _ _ _ _ _ oid _ _ _ => Some oid
  | _ => None
  end.

(** What happens at the interference points of an operation activates nothing: the activations of the
    other operations are steps of their own. *)
Definition calm (o : op (St := St) (Msg := Msg) (Data := Data) (Any := Any) (P := P)) : Prop :=
  let quiet (f : nodeT -> nodeT) := forall n, within None n (f n) in
  match o with
  | OpRegister _ _ | OpSaveAll _ => True
  | OpCreate w _ _ | OpDelete w _ _ | OpEvict w _ | OpStop w _ => quiet w
  | OpCall w w2 dur _ _ _ _ => quiet w /\ quiet w2 /\ quiet dur
  | OpReliable w w2 w3 aw sl _ _ _ _ _ _ =>
      quiet w /\ quiet w2 /\ quiet w3 /\ quiet (fun n => fst (aw n)) /\
      forall i n n', sl i n = Some n' -> within None n n'
  end.

Lemma within_refl x n : within x n n.
Proof. split; auto. Qed.

Lemma within_trans x n n1 n2 : within x n n1 -> within x n1 n2 -> within x n n2.
Proof. intros [A1 K1] [A2 K2]. split; [congruence|]. intros k Hk. destruct (K2 k Hk); auto. Qed.

Lemma within_weaken x n n' : within None n n' -> within x n n'.
Proof. intros [A K]. split; [done|]. intros k Hk. by destruct (K k Hk); [left|]. Qed.

Lemma within_objects x n n' : Nodes.advertiseAddress n' = Nodes.advertiseAddress n ->
  Nodes.objects n' = Nodes.objects n -> within x n n'.
Proof. intros Ha Ho. split; [done|]. intros k. rewrite Ho. by left. Qed.

Lemma within_set_object oid n c b : within (Some oid) n (Nodes.set_object n oid c b).
Proof.
  split; [done|]. intros k. cbn. rewrite lookup_insert. case_decide; [subst; by right|by left].
Qed.

Lemma within_set_existing x oid n c b : is_Some (Nodes.objects n !! oid) -> within x n (Nodes.set_object n oid c b).
Proof. intros Ho. split; [done|]. intros k. cbn. rewrite lookup_insert. case_decide; [subst; by left|by left]. Qed.

Lemma within_destroy x n oid : within x n (Nodes.destroyObject n oid).
Proof.
  unfold Nodes.destroyObject. destruct (Nodes.objects n !! oid) as [o|]; [|by apply within_objects].
  split; [done|]. intros k. cbn. rewrite lookup_delete. case_decide; [by intros []|by left].
Qed.

Lemma within_set_store x n p : within x n (Nodes.set_store n p).
Proof. by apply within_objects. Qed.

Lemma within_store_destroy x n p oid : within x n (Nodes.destroyObject (Nodes.set_store n p) oid).
Proof. eapply within_trans; [apply within_set_store|apply within_destroy]. Qed.
#[local] Hint Resolve within_refl within_weaken within_set_object within_set_store within_destroy within_store_destroy : within.

Lemma within_createNew n typ oid : within (Some oid) n (fst (Nodes.createNew onCreated n typ oid)).
Proof.
  unfold Nodes.createNew. match goal with |- context [if ?b then _ else _] => destruct b end; [auto with within|].
  destruct (Nodes.objectTypes n !! typ); [|auto with within].
  destruct (restoreObject _ _ _ _) as [p' [obj|m]]; cbn; [|by apply within_objects].
  destruct (if Nodes.hasProvider n then _ else _) as [obj' start]; cbn;
    (split; [done|]; intros k; cbn; rewrite lookup_insert; case_decide; [subst; by right|by left]).
Qed.

Lemma within_createObject w n typ oid : (forall n, within None n (w n)) ->
  within (Some oid) n (fst (Nodes.createObject onCreated w n typ oid)).
Proof.
  intros Hw. unfold Nodes.createObject. case_bool_decide; [auto with within|].
  destruct (Nodes.existing n typ oid); [auto with within|].
  destruct (Nodes.existing (w n) typ oid); [auto with within|].
  eapply within_trans; [apply within_weaken, Hw|apply within_createNew].
Qed.

Lemma within_poll sl k i n seq last :
  (forall i n n', sl i n = Some n' -> within None n n') ->
  within None n (fst (Nodes.pollCall (Any := Any) sl k i n seq last)).
Proof.
  intros Hs. revert i n last. induction k as [|k IH]; intros i n l; cbn; [auto with within|].
  destruct (pGetReliableCallBySeq (Nodes.store n) seq) as [p' [c|e]]; cbn; [|by apply within_objects].
  case_bool_decide; cbn; [by apply within_objects|].
  destruct (sl i (Nodes.set_store n p')) as [n'|] eqn:E; cbn; [|by apply within_objects].
  eapply within_trans; [|apply IH]. eapply within_trans; [|apply (Hs _ _ _ E)]. by apply within_objects.
Qed.

Lemma within_await aw sl n oid o rc ch :
  (forall n, within None n (fst (aw n))) -> (forall i n n', sl i n = Some n' -> within None n n') ->
  within (Some oid) n (fst (Nodes.awaitCall rt aw sl n oid o rc ch)).
Proof.
  intros Ha Hs. unfold Nodes.awaitCall.
  destruct (ProcessPendingReliableCalls (Nodes.base o) (Seq rc) ch) as [[b' evs] start].
  set (n1 := Nodes.emit (Nodes.set_object n oid (Nodes.cls_of o) b') (if start then [Nodes.LoopStarted oid] else [])).
  assert (within (Some oid) n n1) as H1.
  { eapply within_trans; [apply within_set_object|]. by apply within_objects. }
  assert (within (Some oid) n1 (fst (match evs with [] => aw n1 | _ => (n1, None) end))) as H2
    by (destruct evs; cbn; auto with within).
  clearbody n1. destruct (match evs with [] => aw n1 | _ => (n1, None) end) as [n2 [call|]]; cbn [fst] in H2;
    [by eapply within_trans|].
  pose proof (within_poll sl Nodes.maxRetries 0 n2 (Seq rc) None Hs) as Hp.
  assert (forall n3, within None n2 n3 -> within (Some oid) n n3) as Hall.
  { intros n3 Hn. eapply within_trans; [exact H1|]. eapply within_trans; [exact H2|]. auto with within. }
  destruct (Nodes.pollCall sl Nodes.maxRetries 0 n2 (Seq rc) None) as [n3 [[call|]|rep]]; by apply Hall.
Qed.

Lemma within_reliable w w2 w3 aw sl n c t i m r ch :
  calm (OpReliable w w2 w3 aw sl c t i m r ch) ->
  within (Some i) n (fst (Nodes.ReliableCallObject rt onCreated w w2 w3 aw sl n c t i m r ch)).
Proof.
  intros (Hw & Hw2 & Hw3 & Ha & Hs). unfold Nodes.ReliableCallObject. repeat (case_match; [auto with within|]).
  pose proof (within_createObject w n t i Hw) as Hc.
  destruct (Nodes.createObject onCreated w n t i) as [n1 [[]|e]]; cbn in Hc |- *; [|done].
  assert (within (Some i) n (w2 n1)) as Hx2 by (eapply within_trans; [exact Hc|]; auto with within).
  destruct (Nodes.objects (w2 n1) !! i) as [o|]; cbn; [|done].
  destruct (bool_decide (objType (Nodes.base o) <> t)); cbn; [done|].
  assert (within (Some i) n (w3 (w2 n1))) as Hx3 by (eapply within_trans; [exact Hx2|]; auto with within).
  destruct (AnyToBytes rt r) as [rd|e]; cbn; [|exact Hx3].
  destruct (pInsertOrGetReliableCall _ _ _ _ _ _) as [p' [rc|e]]; cbn;
    [|eapply within_trans; [exact Hx3|by apply within_objects]].
  assert (within (Some i) n (Nodes.set_store (w3 (w2 n1)) p')) as Hx4
    by (eapply within_trans; [exact Hx3|by apply within_objects]).
  destruct (Nodes.cached rt rc); cbn; [done|]. eapply within_trans; [exact Hx4|]. by apply within_await.
Qed.

(** An operation activates at most the object it is about. *)
Lemma within_run_op n o : calm o -> within (creates o) n (run_op rt onCreated n o).
Proof.
  destruct o; cbn [creates run_op]; intros Hf.
  - unfold Nodes.RegisterObjectType. repeat case_match; cbn; by apply within_objects.
  - unfold Nodes.CreateObject. destruct (Nodes.stopped n); [auto with within|].
    pose proof (within_createObject wait n typ oid Hf). by destruct (Nodes.createObject _ _ _ _ _).
  - unfold Nodes.CallObject. destruct (Nodes.stopped n); [auto with within|]. destruct Hf as (Hw & Hw2 & Hd).
    pose proof (within_createObject wait n typ oid Hw) as Hc.
    destruct (Nodes.createObject onCreated wait n typ oid) as [n1 [[]|e]]; cbn in Hc |- *; [|done].
    assert (within (Some oid) n (wait2 n1)) as H2 by (eapply within_trans; [exact Hc|]; auto with within).
    destruct (Nodes.objects (wait2 n1) !! oid) as [o|]; cbn; [|done].
    case_bool_decide; cbn; [done|].
    assert (within (Some oid) n (during (wait2 n1))) as H3 by (eapply within_trans; [exact H2|]; auto with within).
    destruct (InvokeMethod _ _ _ _ _) as [s' r]. cbn.
    destruct (Nodes.objects (during (wait2 n1)) !! oid) as [o'|]; cbn; [|done].
    eapply within_trans; [exact H3|auto with within].
  - by apply within_reliable.
  - unfold Nodes.DeleteObject. case_bool_decide; [auto with within|]. destruct (Nodes.stopped n); [auto with within|].
    eapply within_trans; [apply Hf|]. generalize (wait n). clear n. intros n.
    repeat (case_match; cbn; auto with within).
  - unfold Nodes.EvictObject. destruct (Nodes.stopped n); [auto with within|].
    eapply within_trans; [apply Hf|]. generalize (wait n). clear n. intros n.
    repeat (case_match; cbn; auto with within).
  - unfold Nodes.SaveAllObjects, Nodes.saveAllObjectsLocked.
    repeat (case_match; cbn; try (by apply within_objects)).
  - unfold Nodes.Stop. eapply within_trans; [eapply (within_trans _ _ (Nodes.set_stopped n)); [by apply within_objects|apply Hf]|].
    destruct (Nodes.hasProvider n); cbn.
    + unfold Nodes.saveAllObjectsLocked. repeat (case_match; cbn).
      all: split; [done|]; intros k; cbn; by rewrite lookup_empty; intros [].
    + split; [done|]. intros k. cbn. by rewrite lookup_empty; intros [].
Qed.

End Within.

(** ** Revisions: caches and plans only move forward *)

Section Monotone.
Context {S : Type} `{EtcdLaws S}.
Context (prefix : string) (N : Z).
Abbreviation worldT := (world (S := S)).

Abbreviation crev cm id := (ModRevision (shard_at (cached cm) id)).

Lemma current_nonneg (w : worldT) id : winv prefix N w -> (0 <= ModRevision (current (hist w) id))%Z.
Proof.
  intros Hinv. destruct (current_known (hist w) id) as [->|(x & Hx & _ & ->)]; [done|].
  destruct (winv_hist _ _ w Hinv x Hx) as (_ & _ & ?). cbn. lia.
Qed.

Lemma known_le_current (w : worldT) id info :
  winv prefix N w -> known (hist w) id info -> (ModRevision info <= ModRevision (current (hist w) id))%Z.
Proof.
  intros Hinv [->|(x & Hx & <- & ->)]; [by apply current_nonneg|]. by apply (hist_le_current prefix N).
Qed.

Lemma cached_known (w : worldT) n cm id :
  winv prefix N w -> mgrs w !! n = Some cm -> known (hist w) id (shard_at (cached cm) id).
Proof.
  intros Hinv Hm. destruct (winv_mgr _ _ w Hinv n cm Hm) as (_ & _ & _ & _ & Hc).
  unfold shard_at. destruct (cached cm !! id) eqn:E; [right; by apply Hc|by left].
Qed.

(** A write with the newest revision of its shard is what etcd holds. *)
Lemma newest_is_current (w : worldT) wr id :
  winv prefix N w -> wr ∈ hist w -> w_id wr = id -> (ModRevision (current (hist w) id) <= w_rev wr)%Z ->
  current (hist w) id = value_of wr.
Proof.
  intros Hinv Hwr <- Hle. apply (known_unique prefix N w (w_id wr)); [done|apply current_known|right; by exists wr|].
  pose proof (hist_le_current prefix N w wr Hinv Hwr). cbn. lia.
Qed.

(** What etcd holds under the key of a shard is its current record. *)
Lemma current_in_etcd (w : worldT) id :
  winv prefix N w -> current (hist w) id <> zeroShard ->
  (0 <= id < N)%Z /\ exists v, etcd_get (store w) (shardKey prefix id) = Some (v, ModRevision (current (hist w) id)) /\
    parseShardInfo v (ModRevision (current (hist w) id)) = current (hist w) id.
Proof.
  intros Hinv Hne. destruct (current_known (hist w) id) as [?|(x & Hx & Hid & Hcur)]; [done|].
  destruct (winv_hist _ _ w Hinv x Hx) as (Hr & _ & Hrev). rewrite Hid in Hr. split; [done|].
  pose proof (winv_cur _ _ w Hinv id Hr) as Hm. unfold mod_rev in Hm. rewrite Hcur in Hm |- *. cbn in Hm |- *.
  destruct (etcd_get (store w) (shardKey prefix id)) as [[v r]|] eqn:Hg; [|lia]. subst r. exists v. split; [done|].
  assert (HasPrefix (shardKey prefix id) (prefix +:+ "/shard/") = true) as Hpre
    by (unfold shardKey; rewrite append_assoc; apply HasPrefix_app).
  destruct (winv_key _ _ w Hinv _ _ _ Hpre Hg) as (y & Hy & Hk & -> & Hyr).
  destruct (winv_hist _ _ w Hinv y Hy) as (Hry & Hok & _).
  apply shardKey_inj in Hk; [|by eapply range_int64; [apply (winv_N _ _ w Hinv)|]..].
  rewrite parse_format_shard by done.
  rewrite Hyr. apply (known_unique prefix N w id); [done|right; by exists y|right; by exists x|by cbn].
Qed.

Lemma loadKv_keeps n st kv id : is_Some (default ∅ (ShardMapping st) !! id) ->
  is_Some (default ∅ (ShardMapping (loadKv prefix n st kv)) !! id).
Proof.
  unfold loadKv. intros Hl. repeat case_match; cbn; try done.
  rewrite lookup_insert. destruct (decide (_ = id)); [by eexists|done].
Qed.

Lemma loadKv_hit n st v r id : (0 <= id < n)%Z -> in_int64 id ->
  is_Some (default ∅ (ShardMapping (loadKv prefix n st (mkKV (shardKey prefix id) v r))) !! id).
Proof.
  intros Hr Hi. unfold loadKv. cbn [Key]. rewrite bool_decide_false.
  2: { unfold shardKey. intros Heq%append_cancel_l. done. }
  assert (forall q, TrimPrefix_opt q ("/shard/" +:+ Itoa id) = None ->
    TrimPrefix_opt (prefix +:+ q) (shardKey prefix id) = None) as Hno
    by (intros q Hq; unfold shardKey; by rewrite TrimPrefix_opt_app).
  rewrite (Hno "/nodes/"), (Hno "/gates/"), shardKey_rest, Atoi_Itoa by done.
  rewrite (proj2 (orb_false_iff _ _)) by (split; [apply Z.ltb_ge|apply Z.leb_gt]; lia).
  cbn. rewrite lookup_insert_eq. by eexists.
Qed.

Lemma load_has n kvs : forall st v r id, (0 <= id < n)%Z -> in_int64 id ->
  mkKV (shardKey prefix id) v r ∈ kvs \/ is_Some (default ∅ (ShardMapping st) !! id) ->
  is_Some (default ∅ (ShardMapping (fold_left (loadKv prefix n) kvs st)) !! id).
Proof.
  induction kvs as [|kv kvs IH]; intros st v r id Hr Hi Hin; cbn; [by destruct Hin as [?%elem_of_nil|]|].
  apply (IH _ v r); [done..|]. destruct Hin as [[<-|Hin]%elem_of_cons|Hl]; [right|by left|right].
  - by apply loadKv_hit.
  - by apply loadKv_keeps.
Qed.

(** A reload caches the current record of every shard. *)
Lemma load_exact (w : worldT) n cm now st id :
  winv prefix N w -> mgrs w !! n = Some cm ->
  st = loadClusterStateFromEtcd prefix N (etcd_range (store w) prefix) (etcd_rev (store w)) now ->
  view_ok (Nodes st) ->
  (ModRevision (current (hist w) id) <= crev (set_state cm st) id)%Z.
Proof.
  intros Hinv Hm Hst Hv. destruct (decide (current (hist w) id = zeroShard)) as [->|Hne].
  { pose proof (winv_load prefix N w n cm now st Hinv Hm Hst Hv) as Hinv'.
    destruct (cached_known _ n (set_state cm st) id Hinv' (lookup_insert_eq _ _ _)) as [->|(x & Hx & _ & ->)]; [done|].
    destruct (winv_hist _ _ w Hinv x Hx) as (_ & _ & ?). cbn. lia. }
  destruct (current_in_etcd w id Hinv Hne) as (Hr & v & Hg & _).
  assert (is_Some (cached (set_state cm st) !! id)) as [info Hl].
  { rewrite Hst. eapply (load_has _ _ _ v (ModRevision (current (hist w) id))); [done| |left].
    - by eapply range_int64; [apply (winv_N _ _ w Hinv)|].
    - apply etcd_range_spec; [apply (winv_ok _ _ w Hinv)|]. split; [|done]. cbn. unfold shardKey. apply HasPrefix_app. }
  assert (shard_at (cached (set_state cm st)) id = info) as -> by (unfold shard_at; by rewrite Hl).
  cbn [state set_state] in Hl. rewrite Hst in Hl. apply load_from in Hl as [Hl|(kv & rest & Hin & Hp & Ha & ->)];
    [cbn in Hl; by rewrite lookup_empty in Hl|].
  apply (etcd_range_spec _ _ _ (winv_ok _ _ w Hinv)) in Hin as [_ Hgk].
  assert (HasPrefix (Key kv) (prefix +:+ "/shard/") = true) as Hpre
    by (unfold HasPrefix; apply bool_decide_eq_true; by rewrite Hp).
  destruct (winv_key _ _ w Hinv _ _ _ Hpre Hgk) as (wr & Hwr & Hk & _ & _).
  destruct (winv_hist _ _ w Hinv wr Hwr) as (Hid & _).
  rewrite Hk, shardKey_rest in Hp. injection Hp as <-.
  rewrite Atoi_Itoa in Ha by (eapply range_int64; [apply (winv_N _ _ w Hinv)|done]). injection Ha as Ha.
  rewrite Hk, Ha, Hg in Hgk. injection Hgk as _ <-. by rewrite ModRevision_parse.
Qed.

(** No step of the protocol takes a cache back. *)
Lemma wstep_mono (w w' : worldT) n cm :
  winv prefix N w -> wstep prefix N w w' -> mgrs w !! n = Some cm ->
  exists cm', mgrs w' !! n = Some cm' /\ forall id, (crev cm id <= crev cm' id)%Z.
Proof.
  intros Hinv Hs Hn.
  assert (forall m c c', mgrs w !! m = Some c -> (forall id, crev c id <= crev c' id)%Z ->
    exists cm', <[m := c']> (mgrs w) !! n = Some cm' /\ forall id, (crev cm id <= crev cm' id)%Z) as Hset.
  { intros m c c' Hm Hle. rewrite lookup_insert. case_decide as Hd; [subst m; simplify_eq; by exists c'|by exists cm]. }
  destruct Hs as [m c id new|i f s' r|wr c c' Hp Hm Hr|m c wr now c' b Hm Hh He|m c now st Hm Hst Hv|m c c' Hm Hsm ???]; cbn;
    try (by exists cm); apply (Hset _ c); try done; intros id.
  - destruct (ShardMapping (state c)) as [sm|] eqn:Hsm; [|unfold recordShard in Hr; by rewrite Hsm in Hr].
    destruct (recordShard_spec c sm (w_id wr) (w_new wr) (w_rev wr) Hsm) as (sm' & Hr' & Hsm').
    rewrite Hr' in Hr. injection Hr as <-. cbn. rewrite Hsm'. destruct (_ <? _)%Z eqn:E; [|lia].
    apply Z.ltb_lt in E. rewrite shard_at_insert. case_decide; [subst; cbn; lia|lia].
  - destruct (winv_mgr _ _ w Hinv _ _ Hm) as (_ & HN & _). destruct (winv_hist _ _ w Hinv wr Hh) as (Hr & _).
    assert (in_int64 (w_id wr)) as Hi by (eapply range_int64; [apply (winv_N _ _ w Hinv)|done]).
    destruct (shardKey_is_put prefix (numShards c) (w_id wr) (formatShardInfo (w_new wr)) (w_rev wr)) as [Hput Hof];
      [lia|done|].
    destruct (ShardMapping (state c)) as [sm|] eqn:Hsm.
    + destruct (handle_shard_put prefix c sm (write_event prefix wr) now Hput Hsm) as [b' He'].
      rewrite He' in He. injection He as <- _. cbn. rewrite shard_at_put.
      destruct (decide _) as [<-|]; [|lia]. destruct (_ <=? _)%Z eqn:E; [lia|]. apply Z.leb_gt in E. lia.
    + exfalso. by apply (shard_put_needs_mapping prefix c (write_event prefix wr) now c' b).
  - pose proof (load_exact w m c now st id Hinv Hm Hst Hv). pose proof (cached_known w m c id Hinv Hm) as Hk.
    pose proof (known_le_current w id _ Hinv Hk). lia.
  - by rewrite Hsm.
Qed.

End Monotone.

(** ** The cluster with its objects *)

(** What the code leaves to timing.  [fresh_admission]: an operation runs while the check that admitted it
    still succeeds.  [fresh_count]: the releases are planned from the counts of that moment.
    [accurate_death]: a claim over a previous owner reaches etcd only while that owner is down. *)
Record timing : Type := mkTiming { fresh_admission : bool; fresh_count : bool; accurate_death : bool }.

(** A planned update that gives up an owned shard, and one that takes a shard from another owner *)
Definition releases (base new : ShardInfo) : bool :=
  bool_decide (CurrentNode base <> "") && bool_decide (CurrentNode new = "").
Definition seizes (i : intent) : bool :=
  bool_decide (CurrentNode (i_base i) <> "") && bool_decide (CurrentNode (i_base i) <> i_node i) &&
  bool_decide (CurrentNode (i_new i) = i_node i).

(** A legal change that gives up an owned shard is a release by the owner, of a shard targeted elsewhere. *)
Lemma legal_releases writer view base new :
  legal writer view base new -> releases base new = true -> writer <> "" ->
  CurrentNode base = writer /\ TargetNode base <> "" /\ TargetNode base <> writer.
Proof.
  intros Hl Hr Hw. unfold releases in Hr. breflect.
  destruct Hl as [He _|He _ _|_ ? ? ?]; [| |done]; rewrite He in *; by cbn in *.
Qed.

Section Activation.
Context {St Msg Data Any P S : Type} `{PersistenceProvider P} `{EtcdLaws S}.
Context (rt : Runtime Any Msg) (onCreated : Class St Msg Data -> St -> St) (prefix : string) (N : Z).
Abbreviation nodeT := (Nodes.Node (St := St) (Msg := Msg) (Data := Data) (P := P)).
Abbreviation worldT := (world (S := S)).

Record aworld : Type := mkA {
  proto : worldT;                           (* etcd and the consensus managers *)
  nodes : gmap string nodeT;                (* the running nodes, by address *)
  admitted : list (string * string);        (* node and object of the requests that passed the check *)
  counted : list (string * gmap Z Z)        (* node and result of the counts made for a release *)
}.

(** The ownership check of the node with manager [cm]: that of the server's handlers, which is also the
    test by which the cluster runs an operation on its own node *)
Definition admits (nd : nodeT) (cm : ConsensusManager) (oid : string) : bool :=
  match Servers.validateObjectShardOwnership (Servers.mkServer nd (Some cm) None) oid with Ok _ => true | Err _ => false end.

(** The counts [releaseShardOwnership] makes of a node whose objects are listed in some order *)
Definition counts_of (nd : nodeT) (counts : gmap Z Z) : Prop :=
  exists listing, (forall k, is_Some (Nodes.objects nd !! k) -> k ∈ listing) /\
    counts = Clusters.countObjects N (Nodes.ListObjectIDs nd listing) ∅.

Definition with_intent (w : worldT) (n : string) (cm : ConsensusManager) (id : Z) (new : ShardInfo) : worldT :=
  mkWorld (store w) (mgrs w) (mkIntent n (Nodes (state cm)) id (shard_at (cached cm) id) new :: intents w) (hist w) (pend w).

Inductive astep (t : timing) (w : aworld) : aworld -> Prop :=
| as_cache p' :                             (* a cache changes: a recorded write, a watch event, a reload *)
    wstep prefix N (proto w) p' -> intents p' = intents (proto w) -> hist p' = hist (proto w) ->
    astep t w (mkA p' (nodes w) (admitted w) (counted w))
| as_plan n cm id new :
    is_Some (nodes w !! n) -> mgrs (proto w) !! n = Some cm -> plans cm id new ->
    releases (shard_at (cached cm) id) new = false ->
    astep t w (mkA (with_intent (proto w) n cm id new) (nodes w) (admitted w) (counted w))
| as_count n nd counts :
    nodes w !! n = Some nd -> counts_of nd counts ->
    astep t w (mkA (proto w) (nodes w) (admitted w) ((n, counts) :: counted w))
| as_release n nd cm counts upd id new :
    nodes w !! n = Some nd -> mgrs (proto w) !! n = Some cm -> (n, counts) ∈ counted w ->
    (fresh_count t = true -> counts_of nd counts) ->
    calcReleaseShardsForNode cm (localNodeAddress cm) counts = Some upd -> upd !! id = Some new ->
    astep t w (mkA (with_intent (proto w) n cm id new) (nodes w) (admitted w) (counted w))
| as_commit i f s' r :
    i ∈ intents (proto w) ->
    commit (store (proto w)) (shardKey prefix (i_id i)) (ModRevision (i_new i)) (formatShardInfo (i_new i)) f = (s', r) ->
    (accurate_death t = true -> seizes i = true -> nodes w !! CurrentNode (i_base i) = None) ->
    astep t w (mkA (mkWorld s' (mgrs (proto w)) (intents (proto w))
      (if applies (store (proto w)) (shardKey prefix (i_id i)) (ModRevision (i_new i)) f
       then mkWrite i (etcd_rev s') :: hist (proto w) else hist (proto w))
      (match r with Ok true => mkWrite i (etcd_rev s') :: pend (proto w) | _ => pend (proto w) end))
      (nodes w) (admitted w) (counted w))
| as_admit n nd cm oid :
    nodes w !! n = Some nd -> mgrs (proto w) !! n = Some cm -> admits nd cm oid = true ->
    astep t w (mkA (proto w) (nodes w) ((n, oid) :: admitted w) (counted w))
| as_op n nd cm o :
    nodes w !! n = Some nd -> mgrs (proto w) !! n = Some cm -> fair o -> calm o ->
    match creates o with
    | Some oid => (n, oid) ∈ admitted w /\ (fresh_admission t = true -> admits nd cm oid = true)
    | None => True
    end ->
    astep t w (mkA (proto w) (<[n := run_op rt onCreated nd o]> (nodes w)) (admitted w) (counted w))
| as_crash n :
    astep t w (mkA (proto w) (delete n (nodes w)) (filter (fun x => x.1 <> n) (admitted w))
      (filter (fun x => x.1 <> n) (counted w)))
| as_start n nd cm now st :
    nodes w !! n = None -> mgrs (proto w) !! n = Some cm -> n <> "" ->
    node_inv nd -> Nodes.advertiseAddress nd = n -> Nodes.objects nd = ∅ ->
    st = loadClusterStateFromEtcd prefix N (etcd_range (store (proto w)) prefix) (etcd_rev (store (proto w))) now ->
    view_ok (Nodes st) ->
    astep t w (mkA (mkWorld (store (proto w)) (<[n := set_state cm st]> (mgrs (proto w))) (intents (proto w))
      (hist (proto w)) (pend (proto w))) (<[n := nd]> (nodes w)) (admitted w) (counted w)).

(** A fresh cluster, its running nodes without objects *)
Definition ainit (w : aworld) : Prop :=
  init prefix N (proto w) /\ admitted w = [] /\ counted w = [] /\
  forall n nd, nodes w !! n = Some nd -> n <> "" /\ node_inv nd /\ Nodes.advertiseAddress nd = n /\
    Nodes.objects nd = ∅ /\ is_Some (mgrs (proto w) !! n).

Definition areachable (t : timing) (w : aworld) : Prop := exists w0, ainit w0 /\ rtc (astep t) w0 w.

(** Every step is one of the protocol, or leaves the protocol's world alone. *)
Lemma astep_wstep t w w' : astep t w w' -> rtc (wstep prefix N) (proto w) (proto w').
Proof.
  intros Hs. destruct Hs; cbn; try done; apply rtc_once; try done.
  - by apply ws_plan.
  - apply ws_plan; [done|]. by eapply plans_release.
  - by apply ws_commit.
  - by apply ws_load with (now := now).
Qed.

Lemma areachable_reachable t w : areachable t w -> reachable prefix N (proto w).
Proof.
  intros (w0 & (Hi & _) & Hs). exists (proto w0). split; [done|]. clear Hi.
  induction Hs as [|w1 w2 w3 Hst _ IH]; [done|]. etrans; [by eapply astep_wstep|done].
Qed.

(** ** The invariant *)

Abbreviation crev cm id := (ModRevision (shard_at (cached cm) id)).
Abbreviation owner w id := (CurrentNode (current (hist (proto w)) id)).

(** A record under which the node [n] serves the shard *)
Definition serves (n : string) (info : ShardInfo) : Prop :=
  CurrentNode info = n /\ (TargetNode info = "" \/ TargetNode info = n).

Definition hashed (oid : string) : Prop := Contains oid "/" = false.

Record ainv (w : aworld) : Prop := {
  ai_proto : winv prefix N (proto w);
  ai_node : forall n nd, nodes w !! n = Some nd ->
    n <> "" /\ node_inv nd /\ Nodes.advertiseAddress nd = n /\ is_Some (mgrs (proto w) !! n);
  (* a plan was made on a record the cache of its maker has reached *)
  ai_base : forall i cm, i ∈ intents (proto w) -> mgrs (proto w) !! i_node i = Some cm ->
    (ModRevision (i_base i) <= crev cm (i_id i))%Z;
  (* no record from the cached one on lets a node serve a shard that etcd gives to another *)
  ai_serve : forall n cm wr, is_Some (nodes w !! n) -> mgrs (proto w) !! n = Some cm -> wr ∈ hist (proto w) ->
    (crev cm (w_id wr) <= w_rev wr)%Z -> serves n (value_of wr) -> owner w (w_id wr) = n;
  (* an active object is on the owner of its shard *)
  ai_object : forall n nd oid, nodes w !! n = Some nd -> is_Some (Nodes.objects nd !! oid) -> hashed oid ->
    owner w (GetShardID oid N) = n;
  (* a release that etcd would still accept leaves no object behind *)
  ai_release : forall i nd oid, i ∈ intents (proto w) -> releases (i_base i) (i_new i) = true ->
    ModRevision (i_base i) = ModRevision (current (hist (proto w)) (i_id i)) ->
    nodes w !! i_node i = Some nd -> is_Some (Nodes.objects nd !! oid) -> hashed oid -> GetShardID oid N <> i_id i
}.

Lemma ainv_init w : ainit w -> ainv w.
Proof.
  intros (Hi & _ & _ & Hn). pose proof Hi as (_ & _ & _ & _ & Hint & Hh & _). split.
  - by apply winv_init.
  - intros n nd Hnd. destruct (Hn n nd Hnd) as (? & ? & ? & _ & ?). auto.
  - rewrite Hint. intros i cm ?%elem_of_nil. done.
  - rewrite Hh. intros n cm wr _ _ ?%elem_of_nil. done.
  - intros n nd oid Hnd. destruct (Hn n nd Hnd) as (_ & _ & _ & -> & _). rewrite lookup_empty. by intros [].
  - rewrite Hint. intros i nd oid ?%elem_of_nil. done.
Qed.

(** What the ownership check says about the cache *)
Lemma admits_cached (w : worldT) n nd cm oid :
  winv prefix N w -> mgrs w !! n = Some cm -> Nodes.advertiseAddress nd = n -> admits nd cm oid = true -> hashed oid ->
  exists wr, wr ∈ hist w /\ w_id wr = GetShardID oid N /\ shard_at (cached cm) (GetShardID oid N) = value_of wr /\
    serves n (value_of wr).
Proof.
  intros Hinv Hm Hadr Ha Hh. destruct (winv_mgr _ _ w Hinv n cm Hm) as (_ & HN & _ & _ & Hc).
  unfold admits, Servers.validateObjectShardOwnership in Ha. cbn in Ha. unfold GetCurrentNodeForObject in Ha.
  destruct (ValidateObjectID oid (numShards cm)) as [parsed|] eqn:Hv; [|done].
  assert (IsFixedNodeFormat parsed = false) as Hf by (by eapply Validate_no_slash).
  rewrite Hf, HN in Ha. destruct (ShardMapping (state cm)) as [sm|] eqn:Hsm; [|done].
  destruct (sm !! GetShardID oid N) as [info|] eqn:Hl; [|done].
  destruct (Hc (GetShardID oid N) info) as (wr & Hwr & Hid & Hi); [done|].
  case_bool_decide; [done|]. destruct (negb (HasNode _ _)); [done|].
  destruct (_ && _) eqn:Hmig; [done|]. cbn in Ha. case_bool_decide as Had; [|done].
  exists wr. split_and!; try done.
  - unfold shard_at. cbn. by rewrite Hl.
  - rewrite <-Hi. split; [congruence|]. apply andb_false_iff in Hmig. rewrite !bool_decide_eq_false in Hmig.
    rewrite Hadr in Had. rewrite Had in Hmig. destruct Hmig as [?%dec_stable|?%dec_stable]; auto.
Qed.

(** A cache step changes no node, plan or record. *)
Lemma ainv_cache w p' :
  ainv w -> wstep prefix N (proto w) p' -> intents p' = intents (proto w) -> hist p' = hist (proto w) ->
  ainv (mkA p' (nodes w) (admitted w) (counted w)).
Proof.
  intros Hi Hs Hint Hh. pose proof (ai_proto _ Hi) as Hw.
  assert (forall n cm', mgrs p' !! n = Some cm' -> is_Some (mgrs (proto w) !! n)) as Hback.
  { intros n cm' Hn. destruct Hs; cbn in Hn; try (by eexists); rewrite lookup_insert in Hn; case_decide; subst; by eexists. }
  split; cbn; rewrite ?Hint, ?Hh.
  - by eapply winv_step.
  - intros n nd Hn. destruct (ai_node _ Hi n nd Hn) as (? & ? & ? & [cm Hm]).
    destruct (wstep_mono prefix N _ _ n cm Hw Hs Hm) as (cm' & Hm' & _). by split_and!.
  - intros i cm' Hin Hm'. destruct (Hback _ _ Hm') as [cm Hm].
    destruct (wstep_mono prefix N _ _ _ cm Hw Hs Hm) as (c & Hc & Hle). simplify_eq.
    specialize (Hle (i_id i)). pose proof (ai_base _ Hi i cm Hin Hm). lia.
  - intros n cm' wr Hn Hm' Hwr Hle' Hsv. destruct (Hback _ _ Hm') as [cm Hm].
    destruct (wstep_mono prefix N _ _ _ cm Hw Hs Hm) as (c & Hc & Hle). simplify_eq.
    apply (ai_serve _ Hi n cm wr); try done. specialize (Hle (w_id wr)). lia.
  - apply (ai_object _ Hi).
  - apply (ai_release _ Hi).
Qed.

Lemma ainv_plan w n cm id new :
  ainv w -> mgrs (proto w) !! n = Some cm -> plans cm id new ->
  (releases (shard_at (cached cm) id) new = true -> forall nd oid, nodes w !! n = Some nd ->
     is_Some (Nodes.objects nd !! oid) -> hashed oid -> GetShardID oid N <> id) ->
  ainv (mkA (with_intent (proto w) n cm id new) (nodes w) (admitted w) (counted w)).
Proof.
  intros Hi Hm Hp Hrel. destruct Hi. split; cbn; try done.
  - by apply winv_plan.
  - intros i c [->|Hin]%elem_of_cons Hc; cbn in *; [simplify_eq; lia|by apply ai_base0].
  - intros i nd oid [->|Hin]%elem_of_cons; cbn; [intros Hr _; by apply Hrel|by apply ai_release0].
Qed.

Lemma ainv_commit w i f s' r :
  ainv w -> i ∈ intents (proto w) ->
  commit (store (proto w)) (shardKey prefix (i_id i)) (ModRevision (i_new i)) (formatShardInfo (i_new i)) f = (s', r) ->
  (seizes i = true -> nodes w !! CurrentNode (i_base i) = None) ->
  ainv (mkA (mkWorld s' (mgrs (proto w)) (intents (proto w))
      (if applies (store (proto w)) (shardKey prefix (i_id i)) (ModRevision (i_new i)) f
       then mkWrite i (etcd_rev s') :: hist (proto w) else hist (proto w))
      (match r with Ok true => mkWrite i (etcd_rev s') :: pend (proto w) | _ => pend (proto w) end))
      (nodes w) (admitted w) (counted w)).
Proof.
  intros Hi Hin Hc Hd. pose proof (ai_proto _ Hi) as Hw.
  pose proof (winv_commit prefix N _ _ _ _ _ Hw Hin Hc) as Hw'.
  pose proof (commit_applies prefix N _ _ _ _ _ Hw Hin Hc) as Ha.
  destruct (applies _ _ _ _) eqn:Hap; [|destruct Hi; split; cbn; done].
  destruct Ha as (Hm & _ & Hrev & _). pose proof (commit_base prefix N _ _ Hw Hin Hm) as Hbase.
  destruct (winv_intent _ _ _ Hw i Hin) as (Hid & Hk & Hleg & _).
  (* the write keeps the owner of every shard that a running node serves or has objects in *)
  assert (forall n, is_Some (nodes w !! n) -> CurrentNode (i_base i) = n ->
    (releases (i_base i) (i_new i) = true -> i_node i = n -> False) -> CurrentNode (i_new i) = n) as Hkeep.
  { intros n [nd Hn] Hcur Hnr. destruct (ai_node _ Hi n nd Hn) as (Hne & _).
    destruct Hleg as [Heq _|Heq Ht _|Heq Ho Ht1 Ht2].
    - rewrite Heq. cbn. done.
    - rewrite Heq. cbn. destruct (decide (i_node i = n)) as [|Hother]; [done|].
      rewrite Hcur in Hd. rewrite Hd in Hn; [done|]. unfold seizes. rewrite !andb_true_iff, !bool_decide_eq_true, Heq.
      cbn. split_and!; congruence.
    - exfalso. apply Hnr; [|congruence]. unfold releases. rewrite andb_true_iff, !bool_decide_eq_true, Heq. cbn.
      split; congruence. }
  assert (forall id, current (mkWrite i (etcd_rev s') :: hist (proto w)) id =
    if decide (i_id i = id) then value_of (mkWrite i (etcd_rev s')) else current (hist (proto w)) id) as Hcur.
  { intros id. unfold current. cbn [list_find]. change (w_id (mkWrite i (etcd_rev s'))) with (i_id i).
    destruct (decide (i_id i = id)); [done|]. cbn.
    by destruct (list_find _ (hist (proto w))) as [[??]|]. }
  split; cbn; try apply Hi; try done.
  - intros n cm wr Hn Hmn Hwr Hle Hsv. rewrite Hcur. apply elem_of_cons in Hwr as [->|Hwr].
    { unfold w_id. cbn. rewrite decide_True by done. apply Hsv. }
    pose proof (ai_serve _ Hi n cm wr Hn Hmn Hwr Hle Hsv) as Ho. destruct (decide _) as [Heq|]; [|done].
    rewrite <-Heq, <-Hbase in Ho. cbn. unfold w_new. cbn. apply Hkeep; [done|done|].
    intros Hrel Hni. rewrite <-Hni in Hmn. pose proof (ai_base _ Hi i cm Hin Hmn) as Hb.
    pose proof (newest_is_current prefix N _ wr (i_id i) Hw Hwr (eq_sym Heq)) as Hnew. rewrite <-Hbase in Hnew.
    destruct Hn as [nd Hn]. destruct (ai_node _ Hi n nd Hn) as (Hne & _).
    destruct (legal_releases _ _ _ _ Hleg Hrel) as (_ & Ht1 & Ht2); [congruence|].
    rewrite <-Heq in Hle. rewrite Hnew in Ht1, Ht2 by lia. destruct Hsv as [_ [?|?]]; congruence.
  - intros n nd oid Hn Ho Hh. rewrite Hcur. pose proof (ai_object _ Hi n nd oid Hn Ho Hh) as Hown.
    destruct (decide _) as [Heq|]; [|done]. rewrite <-Heq, <-Hbase in Hown. cbn. unfold w_new. cbn.
    apply Hkeep; [by eexists|done|]. intros Hrel Hni. rewrite <-Hni in Hn.
    apply (ai_release _ Hi i nd oid Hin Hrel); try done. by rewrite Hbase.
  - intros j nd oid Hj Hrel Hr. apply (ai_release _ Hi j nd oid Hj Hrel). rewrite Hcur in Hr.
    destruct (decide _) as [Heq|]; [|done]. exfalso. cbn in Hr.
    destruct (winv_intent _ _ _ Hw j Hj) as (_ & Hkj & _).
    destruct Hkj as [Hz|(x & Hx & _ & Hz)]; rewrite Hz in Hr; cbn in Hr.
    + pose proof (etcd_rev_nonneg _ (winv_ok _ _ _ Hw)). lia.
    + destruct (winv_hist _ _ _ Hw x Hx) as (_ & _ & ?). lia.
Qed.

(** An admitted operation activates its object on the owner, and no pending release can follow. *)
Lemma ainv_op w n nd cm o :
  ainv w -> nodes w !! n = Some nd -> mgrs (proto w) !! n = Some cm -> fair o -> calm o ->
  (forall oid, creates o = Some oid -> admits nd cm oid = true) ->
  ainv (mkA (proto w) (<[n := run_op rt onCreated nd o]> (nodes w)) (admitted w) (counted w)).
Proof.
  intros Hi Hn Hm Hf Hc Hadm. pose proof (ai_proto _ Hi) as Hw.
  destruct (ai_node _ Hi n nd Hn) as (Hne & Hinv & Hadr & Hmn).
  destruct (within_run_op rt onCreated nd o Hc) as [Hadr' Hkeys].
  assert (forall m, is_Some (<[n := run_op rt onCreated nd o]> (nodes w) !! m) -> is_Some (nodes w !! m)) as Hlive.
  { intros m. rewrite lookup_insert. case_decide; [subst; by eexists|done]. }
  assert (forall oid, creates o = Some oid -> hashed oid -> exists wr, wr ∈ hist (proto w) /\ w_id wr = GetShardID oid N /\
    shard_at (cached cm) (GetShardID oid N) = value_of wr /\ serves n (value_of wr)) as Hserve.
  { intros oid Ho Hh. by apply (admits_cached (proto w) n nd cm oid Hw Hm Hadr (Hadm oid Ho)). }
  split; cbn.
  - done.
  - intros m md. rewrite lookup_insert. case_decide; [subst m|apply Hi]. intros [= <-].
    split_and!; try done; [by apply inv_run_op|congruence].
  - apply Hi.
  - intros m c wr Hml%Hlive. by apply (ai_serve _ Hi).
  - intros m md oid. rewrite lookup_insert. case_decide as Hd; [subst m|apply Hi]. intros [= <-] Ho Hh.
    destruct (Hkeys oid Ho) as [Hold|Hcr]; [by apply (ai_object _ Hi n nd)|].
    destruct (Hserve oid Hcr Hh) as (wr & Hwr & Hid & Hcache & Hsv). rewrite <-Hid in *.
    apply (ai_serve _ Hi n cm wr); try done. rewrite Hcache. cbn. lia.
  - intros i md oid Hin Hrel Hr. rewrite lookup_insert. case_decide as Hd; [|by apply (ai_release _ Hi)].
    intros [= <-] Ho Hh Heq. destruct (Hkeys oid Ho) as [Hold|Hcr].
    { rewrite Hd in Hn. by apply (ai_release _ Hi i nd oid Hin Hrel Hr Hn). }
    destruct (Hserve oid Hcr Hh) as (wr & Hwr & Hid & Hcache & [_ Hsv]). rewrite Heq in Hid, Hcache.
    destruct (winv_intent _ _ _ Hw i Hin) as (_ & Hk & Hleg & _).
    destruct (legal_releases _ _ _ _ Hleg Hrel) as (_ & Ht1 & Ht2); [congruence|].
    pose proof (ai_base _ Hi i cm Hin) as Hb. rewrite <-Hd, Hcache in Hb. specialize (Hb Hm). cbn in Hb.
    assert (i_base i = value_of wr) as Hbw.
    { apply (known_unique prefix N (proto w) (i_id i)); [done|done|right; by exists wr|].
      pose proof (hist_le_current prefix N _ wr Hw Hwr) as Hle. rewrite Hid, <-Hr in Hle. cbn. lia. }
    rewrite Hbw in Ht1, Ht2. destruct Hsv as [?|?]; congruence.
Qed.

(** A node that starts has loaded the newest records and has no object. *)
Lemma ainv_start w n nd cm now st :
  ainv w -> mgrs (proto w) !! n = Some cm -> n <> "" ->
  node_inv nd -> Nodes.advertiseAddress nd = n -> Nodes.objects nd = ∅ ->
  st = loadClusterStateFromEtcd prefix N (etcd_range (store (proto w)) prefix) (etcd_rev (store (proto w))) now ->
  view_ok (Nodes st) ->
  ainv (mkA (mkWorld (store (proto w)) (<[n := set_state cm st]> (mgrs (proto w))) (intents (proto w))
    (hist (proto w)) (pend (proto w))) (<[n := nd]> (nodes w)) (admitted w) (counted w)).
Proof.
  intros Hi Hm Hne Hinv Hadr Hobj Hst Hv. pose proof (ai_proto _ Hi) as Hw.
  set (p' := mkWorld _ _ _ _ _).
  assert (wstep prefix N (proto w) p') as Hs by (by apply ws_load with (now := now)).
  pose proof (ainv_cache w p' Hi Hs eq_refl eq_refl) as Hc. destruct Hc as [Hc1 Hc2 Hc3 Hc4 Hc5 Hc6]. split; cbn in *.
  - done.
  - intros m md. rewrite lookup_insert. case_decide as Hd; [subst m|apply Hc2]. intros [= <-]. split_and!; try done.
    rewrite lookup_insert_eq. by eexists.
  - done.
  - intros m c wr. destruct (decide (n = m)) as [<-|Hd].
    + rewrite !lookup_insert_eq. intros _ [= <-] Hwr Hle [Ho _].
      pose proof (load_exact prefix N _ n cm now st (w_id wr) Hw Hm Hst Hv) as Hex.
      rewrite (newest_is_current prefix N _ wr (w_id wr) Hw Hwr eq_refl) by lia. done.
    + rewrite (lookup_insert_ne (nodes w)) by done. apply Hc4.
  - intros m md oid. rewrite lookup_insert. case_decide; [|apply Hc5]. intros [= <-]. rewrite Hobj, lookup_empty. by intros [].
  - intros i md oid Hin Hrel Hr. rewrite lookup_insert. case_decide; [|by apply Hc6]. intros [= <-].
    rewrite Hobj, lookup_empty. by intros [].
Qed.

Lemma ainv_crash w n adm cnt : ainv w -> ainv (mkA (proto w) (delete n (nodes w)) adm cnt).
Proof.
  intros Hi. assert (forall m md, delete n (nodes w) !! m = Some md -> nodes w !! m = Some md) as Hd
    by (intros m md [_ ?]%lookup_delete_Some; done).
  split; cbn; try apply Hi.
  - intros m md Hm%Hd. by apply Hi.
  - intros m cm wr [md Hm%Hd]. apply Hi. by eexists.
  - intros m md oid Hm%Hd. by apply Hi.
  - intros i md oid Hin Hrel Hr Hm%Hd. by apply (ai_release _ Hi).
Qed.

(** A shard that is planned to be released on current counts has no object. *)
Lemma release_counts w n nd cm counts upd id new :
  ainv w -> nodes w !! n = Some nd -> mgrs (proto w) !! n = Some cm -> counts_of nd counts ->
  calcReleaseShardsForNode cm (localNodeAddress cm) counts = Some upd -> upd !! id = Some new ->
  forall oid, is_Some (Nodes.objects nd !! oid) -> hashed oid -> GetShardID oid N <> id.
Proof.
  intros Hi Hn Hm (listing & Hl & ->) Hc Hu oid Ho Hh Heq. destruct (ai_node _ Hi n nd Hn) as (_ & Hinv & _).
  unfold calcReleaseShardsForNode in Hc. destruct (ShardMapping (state cm)) as [sm|]; [|done].
  case_bool_decide; [done|]. injection Hc as <-. apply lookup_fmap_Some in Hu as (info & <- & Hf).
  apply map_lookup_filter_Some in Hf as [_ Hrel]. cbn in Hrel. unfold releasable in Hrel. breflect.
  destruct (countObjects_spec N (Nodes.ListObjectIDs nd listing) ∅ id) as [_ Hcount].
  { intros j. by rewrite lookup_empty. }
  specialize (Hcount oid). rewrite (ListObjectIDs_keys nd _ oid Hinv Hl) in Hcount. specialize (Hcount Ho Hh Heq). lia.
Qed.

Definition strict : timing := mkTiming true true true.

Lemma ainv_step w w' : ainv w -> astep strict w w' -> ainv w'.
Proof.
  intros Hi Hs. destruct Hs.
  - by apply ainv_cache.
  - apply ainv_plan; try done. congruence.
  - destruct Hi; by split.
  - apply ainv_plan; [done|done|by eapply plans_release|]. intros _ nd' oid Hn'. simplify_eq.
    eapply release_counts; eauto.
  - apply ainv_commit; auto.
  - destruct Hi; by split.
  - eapply ainv_op; eauto. intros oid Ho.
    match goal with Hc : context [creates o] |- _ => rewrite Ho in Hc; by apply Hc end.
  - by apply ainv_crash.
  - by eapply ainv_start.
Qed.

Lemma areachable_ainv w : areachable strict w -> ainv w.
Proof.
  intros (w0 & Hinit%ainv_init & Hs). induction Hs as [|w1 w2 w3 Hst _ IH]; [done|]. apply IH. by eapply ainv_step.
Qed.

End Activation.

(** C1: an object is active on at most one node.  In every reachable world of the cluster, under the three
    timing assumptions, whatever the order of requests, plans, commits, deliveries, reloads, crashes and
    restarts: if a running node has a live object whose id has no slash, then etcd records that node as the
    owner of the object's shard; so no two running nodes have the same such object. *)
Theorem single_activation {St Msg Data Any P S : Type} `{PersistenceProvider P} `{EtcdLaws S} (rt : Runtime Any Msg)
    (onCreated : Class St Msg Data -> St -> St) (prefix : string) (N : Z)
    (w : aworld (St := St) (Msg := Msg) (Data := Data) (P := P) (S := S))
    (a : string) (na : Nodes.Node (St := St) (Msg := Msg) (Data := Data) (P := P)) (oid : string) :
  areachable rt onCreated prefix N strict w -> Contains oid "/" = false ->
  nodes w !! a = Some na -> is_Some (Nodes.objects na !! oid) ->
  (exists v r, etcd_get (store (proto w)) (shardKey prefix (GetShardID oid N)) = Some (v, r) /\
     CurrentNode (parseShardInfo v r) = a) /\
  forall b nb, nodes w !! b = Some nb -> is_Some (Nodes.objects nb !! oid) -> b = a.
Proof.
  intros Hr Hh Ha Ho. apply areachable_ainv in Hr. pose proof (ai_object _ _ _ Hr a na oid Ha Ho Hh) as Hown.
  destruct (ai_node _ _ _ Hr a na Ha) as (Hne & _). split.
  - destruct (current_in_etcd prefix N (proto w) (GetShardID oid N) (ai_proto _ _ _ Hr)) as (_ & v & Hg & Hp).
    { intros Hz. rewrite Hz in Hown. by cbn in Hown. }
    exists v, (ModRevision (current (hist (proto w)) (GetShardID oid N))). split; [done|]. by rewrite Hp.
  - intros b nb Hb Hob. rewrite <-Hown. symmetry. by apply (ai_object _ _ _ Hr b nb).
Qed.

(** ** The code's composite operations are runs *)

Section Runs.
Context {St Msg Data Any P S : Type} `{PersistenceProvider P} `{EtcdLaws S}.
Context (rt : Runtime Any Msg) (onCreated : Class St Msg Data -> St -> St) (prefix : string) (N : Z).
Abbreviation nodeT := (Nodes.Node (St := St) (Msg := Msg) (Data := Data) (P := P)).
Abbreviation world' := (aworld (St := St) (Msg := Msg) (Data := Data) (P := P) (S := S)).

(** The requests a node's server handles, with what happens at their interference points *)
Inductive handles (s : Servers.Server (St := St) (Msg := Msg) (Data := Data) (P := P)) (o : op (Any := Any))
    (s' : Servers.Server (St := St) (Msg := Msg) (Data := Data) (P := P)) : Prop :=
| handles_create wait typ id r : o = OpCreate wait typ id ->
    Servers.CreateObject onCreated wait s typ id = (s', r) -> handles s o s'
| handles_call wait wait2 during ctx cid typ id method req msg r rctx : o = OpCall wait wait2 during typ id method msg ->
    AnyToMsg rt req = Ok msg ->
    Servers.CallObject rt onCreated wait wait2 during s ctx cid typ id method req = (s', r, rctx) -> handles s o s'
| handles_reliable wait wait2 wait3 await sleep callID typ id method req ch r :
    o = OpReliable wait wait2 wait3 await sleep callID typ id method req ch ->
    Servers.ReliableCallObject rt onCreated wait wait2 wait3 await sleep s callID typ id method req ch = (s', r) ->
    handles s o s'
| handles_delete wait typ id r : o = OpDelete wait typ id ->
    Servers.DeleteObject wait s typ id = (s', r) -> handles s o s'.

(** A handler either does nothing to the node, or runs the operation after the check let it. *)
Lemma handles_cases s o s' : handles s o s' ->
  Servers.Node s' = Servers.Node s \/
  Servers.Node s' = run_op rt onCreated (Servers.Node s) o /\
  forall oid, creates o = Some oid -> Servers.validateObjectShardOwnership s oid = Ok tt.
Proof.
  intros [wait typ id r -> Hc|wait wait2 during ctx cid typ id method req msg r rctx -> Hm Hc|
          wait wait2 wait3 aw sl callID typ id method req ch r -> Hc|wait typ id r -> Hc].
  - unfold Servers.CreateObject in Hc. case_bool_decide; [simplify_eq; by left|].
    destruct (Servers.validateObjectShardOwnership s id) as [[]|e] eqn:Hv; [|simplify_eq; by left].
    right. cbn [run_op]. destruct (Nodes.CreateObject _ _ _ _ _) as [n r']. simplify_eq. split; [done|].
    by intros oid [= <-].
  - unfold Servers.CallObject in Hc. destruct (Servers.validateObjectShardOwnership s id) as [[]|e] eqn:Hv; [|simplify_eq; by left].
    match type of Hc with (if ?b then _ else _) = _ => destruct b end; [simplify_eq; by left|].
    rewrite Hm in Hc. right. cbn [run_op]. destruct (Nodes.CallObject _ _ _ _ _ _ _ _ _ _) as [n r']. simplify_eq.
    split; [done|]. by intros oid [= <-].
  - unfold Servers.ReliableCallObject in Hc. do 4 (case_bool_decide; [simplify_eq; by left|]).
    destruct req; [|simplify_eq; by left].
    destruct (Servers.validateObjectShardOwnership s id) as [[]|e] eqn:Hv; [|simplify_eq; by left].
    right. cbn [run_op]. destruct (Nodes.ReliableCallObject _ _ _ _ _ _ _ _ _ _ _ _ _ _) as [n [[res status] err]].
    simplify_eq. split; [done|]. by intros oid [= <-].
  - unfold Servers.DeleteObject in Hc. case_bool_decide; [simplify_eq; by left|].
    destruct (Servers.validateObjectShardOwnership s id) as [[]|e] eqn:Hv; [|simplify_eq; by left].
    right. cbn [run_op]. destruct (Nodes.DeleteObject _ _ _ _) as [n r']. simplify_eq. split; [done|]. done.
Qed.

(** A request that a server handles without interruption is a run of the cluster, under every timing. *)
Theorem request_is_run t (w : world') n nd cm av o s' :
  nodes w !! n = Some nd -> mgrs (proto w) !! n = Some cm -> fair o -> calm o ->
  handles (Servers.mkServer nd (Some cm) av) o s' ->
  exists w', rtc (astep rt onCreated prefix N t) w w' /\ proto w' = proto w /\ nodes w' = <[n := Servers.Node s']> (nodes w).
Proof.
  intros Hn Hm Hf Hc [Hsame|[Hrun Hv]]%handles_cases; cbn in *.
  { exists w. split; [done|]. split; [done|]. by rewrite Hsame, insert_id. }
  assert (forall oid, creates o = Some oid -> admits nd cm oid = true) as Ha.
  { intros oid Ho. unfold admits. specialize (Hv oid Ho). unfold Servers.validateObjectShardOwnership in *. cbn in *.
    by rewrite Hv. }
  rewrite Hrun. destruct (creates o) as [oid|] eqn:Ho.
  - exists (mkA (proto w) (<[n := run_op rt onCreated nd o]> (nodes w)) ((n, oid) :: admitted w) (counted w)).
    split; [|done]. eapply rtc_l; [apply (as_admit rt onCreated prefix N t w n nd cm oid); auto|].
    apply rtc_once, (as_op rt onCreated prefix N t (mkA (proto w) (nodes w) ((n, oid) :: admitted w) (counted w)) n nd cm o); auto.
    rewrite Ho. split; [by left|auto].
  - eexists. split; [apply rtc_once, (as_op rt onCreated prefix N t w n nd cm o); auto; by rewrite Ho|done].
Qed.

(** What a run of node [n] leaves: the store, the manager of [n], the nodes as they were *)
Definition rafter t (w : world') (n : string) (cm : ConsensusManager) (s : S) (w' : world') : Prop :=
  rtc (astep rt onCreated prefix N t) w w' /\ store (proto w') = s /\ mgrs (proto w') = <[n := cm]> (mgrs (proto w)) /\
  nodes w' = nodes w.

Lemma storeTask_arun t (w : world') n cm i f cm' s' err :
  mgrs (proto w) !! n = Some cm -> i ∈ intents (proto w) -> i_node i = n -> seizes i = false ->
  storeTask prefix cm (store (proto w)) (i_id i) (i_new i) f = Some (cm', s', err) ->
  exists w', rafter t w n cm' s' w' /\ intents (proto w') = intents (proto w).
Proof.
  intros Hn Hi Hni Hz Ht. unfold storeTask in Ht. destruct (commit (store (proto w)) _ _ _ f) as [s1 r] eqn:Hc.
  assert (accurate_death t = true -> seizes i = true -> nodes w !! CurrentNode (i_base i) = None) as Hd by congruence.
  pose proof (as_commit rt onCreated prefix N t w i f s1 r Hi Hc Hd) as Hs. revert Hs. set (w1 := mkA _ _ _ _). intros Hs.
  destruct r as [[]|e].
  - destruct (recordShard cm _ _ _) as [cm1|] eqn:Hr; [|done]. injection Ht as <- <- <-.
    exists (mkA (mkWorld s1 (<[n := cm1]> (mgrs (proto w))) (intents (proto w)) (hist (proto w1)) (pend (proto w1)))
      (nodes w) (admitted w) (counted w)). split; [|done]. split; [|done].
    eapply rtc_l; [exact Hs|]. apply rtc_once.
    apply (as_cache rt onCreated prefix N t w1); [|done|done]. rewrite <-Hni.
    apply (ws_record prefix N (proto w1) (mkWrite i (etcd_rev s1)) cm cm1); [by left|cbn; by rewrite Hni|done].
  - injection Ht as <- <- <-. exists w1. split; [|done]. split; [by apply rtc_once|]. cbn. by rewrite insert_id.
  - injection Ht as <- <- <-. exists w1. split; [|done]. split; [by apply rtc_once|]. cbn. by rewrite insert_id.
Qed.

Lemma storeTasks_arun t n (tasks : list (Z * ShardInfo * fault)) : forall (w : world') cm cm' s' k err,
  mgrs (proto w) !! n = Some cm ->
  (forall id info f, (id, info, f) ∈ tasks ->
     exists i, i ∈ intents (proto w) /\ i_node i = n /\ i_id i = id /\ i_new i = info /\ seizes i = false) ->
  storeTasks prefix cm (store (proto w)) tasks = Some (cm', s', k, err) ->
  exists w', rafter t w n cm' s' w'.
Proof.
  induction tasks as [|[[id info] f] tasks IH]; intros w cm cm' s' k err Hn Hi Ht; cbn [storeTasks] in Ht.
  { simplify_eq. exists w. split; [done|]. split; [done|]. by rewrite insert_id. }
  destruct (storeTask prefix cm (store (proto w)) id info f) as [[[cm1 s1] e1]|] eqn:H1'; [|done].
  destruct (Hi id info f) as (i & Hin & Hni & <- & <- & Hz); [by left|].
  destruct (storeTask_arun t w n cm i f cm1 s1 e1 Hn Hin Hni Hz H1') as (w1 & (Hr1 & <- & Hm1 & Hn1) & Hi1).
  destruct (storeTasks prefix cm1 (store (proto w1)) tasks) as [[[[cm2 s2] k2] e2]|] eqn:H2'; [|done].
  assert (cm2 = cm' /\ s2 = s') as [-> ->] by (destruct e1; by simplify_eq).
  destruct (IH w1 cm1 cm' s' k2 e2) as (w2 & Hr2 & Hs2 & Hm2 & Hn2); [by rewrite Hm1, lookup_insert_eq| |done|].
  { intros id' info' f' Hin'. rewrite Hi1. eapply Hi. by right. }
  exists w2. split; [by etrans|]. split; [done|]. split; [by rewrite Hm2, Hm1, insert_insert_eq|congruence].
Qed.

Lemma release_plans t n nd cm counts upd (l : list (Z * ShardInfo)) : forall (w : world'),
  nodes w !! n = Some nd -> mgrs (proto w) !! n = Some cm -> localNodeAddress cm = n -> (n, counts) ∈ counted w ->
  counts_of N nd counts ->
  calcReleaseShardsForNode cm n counts = Some upd -> (forall id new, (id, new) ∈ l -> upd !! id = Some new) ->
  exists w', rafter t w n cm (store (proto w)) w' /\ (forall i, i ∈ intents (proto w) -> i ∈ intents (proto w')) /\
    forall id new, (id, new) ∈ l ->
      exists i, i ∈ intents (proto w') /\ i_node i = n /\ i_id i = id /\ i_new i = new /\ seizes i = false.
Proof.
  induction l as [|[id new] l IH]; intros w Hn Hm Hl Hcn Hco Hc Hp.
  { exists w. split; [|by split; [|intros ?? ?%elem_of_nil]]. split; [done|]. split; [done|]. by rewrite insert_id. }
  set (i0 := mkIntent n (Nodes (state cm)) id (shard_at (cached cm) id) new).
  set (w1 := mkA (with_intent (proto w) n cm id new) (nodes w) (admitted w) (counted w)).
  assert (upd !! id = Some new) as Hu by (apply Hp; by left).
  assert (astep rt onCreated prefix N t w w1) as Hs by (by apply (as_release _ _ _ _ _ _ _ nd cm counts upd); rewrite ?Hl).
  destruct (IH w1) as (w' & (Hr & Hst & Hmg & Hnd) & Hk & Hin); try done; [intros id' new' ?; apply Hp; by right|].
  exists w'. split; [split; [by eapply rtc_l|done]|]. split; [intros i Hi; apply Hk; by right|].
  intros id' new' [[= -> ->]|Hin']%elem_of_cons; [|by apply Hin]. exists i0. split; [apply Hk; by left|]. split_and!; try done.
  rewrite <-Hl in Hc. destruct (release_legal cm upd counts id new Hc Hu) as [Hleg _].
  unfold calcReleaseShardsForNode in Hc. destruct (ShardMapping (state cm)) as [sm|] eqn:Hsm; [|done].
  case_bool_decide; [done|]. injection Hc as <-. apply lookup_fmap_Some in Hu as (info & <- & Hf).
  apply map_lookup_filter_Some in Hf as [Hlk Hrel]. cbn in Hrel. unfold releasable in Hrel. breflect.
  unfold seizes, i0. cbn. unfold shard_at. rewrite Hlk. cbn. rewrite (bool_decide_false (CurrentNode info <> n)); [|naive_solver congruence].
  by rewrite andb_false_r.
Qed.

(** The release of a tick, with nothing created between the count and the plan, is a run of the cluster
    under the assumptions of [single_activation], whatever of its writes fail. *)
Theorem release_is_run (w : world') n nd cm (t : Clusters.tick (St := St) (Msg := Msg) (Data := Data) (P := P))
    (c c' : Clusters.Cluster (St := St) (Msg := Msg) (Data := Data) (P := P)) s' :
  winv prefix N (proto w) -> nodes w !! n = Some nd -> mgrs (proto w) !! n = Some cm ->
  Clusters.node c = Some nd -> Clusters.consensusManager c = cm ->
  (forall upd, tasks_of upd (Clusters.sched t upd)) ->
  (forall k, is_Some (Nodes.objects nd !! k) -> k ∈ Clusters.listing t nd) -> Clusters.meanwhile t nd = nd ->
  Clusters.releaseShardOwnership prefix t c (store (proto w)) = Some (c', s') ->
  exists w', rafter strict w n (Clusters.consensusManager c') s' w' /\ Clusters.node c' = nodes w' !! n.
Proof.
  intros Hw Hn Hm Hcn Hcm Hsch Hlist Hmw Hr. destruct (winv_mgr _ _ _ Hw n cm Hm) as (Hl & HN & _).
  unfold Clusters.releaseShardOwnership in Hr. rewrite Hcn, Hmw in Hr. cbn in Hr. rewrite Hcm, HN in Hr.
  set (counts := Clusters.countObjects N _ _) in Hr.
  assert (counts_of N nd counts) as Hco by (by exists (Clusters.listing t nd)).
  set (w1 := mkA (proto w) (nodes w) (admitted w) ((n, counts) :: counted w)).
  assert (astep rt onCreated prefix N strict w w1) as Hs by (by eapply as_count).
  assert (rafter strict w n cm (store (proto w)) w1) as Hrefl.
  { split; [by apply rtc_once|]. split; [done|]. by rewrite insert_id. }
  unfold ReleaseShardsForNode in Hr. rewrite Hl in Hr.
  case_bool_decide; [injection Hr as <- <-; exists w1; by split; [exact Hrefl|]|].
  destruct (negb (IsStateStable cm _)); [injection Hr as <- <-; exists w1; by split; [exact Hrefl|]|].
  destruct (calcReleaseShardsForNode cm n counts) as [upd|] eqn:Hu; [|injection Hr as <- <-; exists w1; by split; [exact Hrefl|]].
  destruct (release_plans strict n nd cm counts upd (map_to_list upd) w1) as (w2 & (R2 & S2 & M2 & N2) & _ & Hin); try done.
  { by left. } { intros id new. apply elem_of_map_to_list. }
  destruct (storeShardMapping prefix cm (store (proto w)) _ _) as [[[cm1 s1] [[k e] b]]|] eqn:Hst; [|done].
  assert (c' = Clusters.set_cm (Clusters.set_node c nd) cm1 /\ s' = s1) as [-> ->] by (destruct e; by simplify_eq).
  assert (cm1 = cm /\ s1 = store (proto w) \/ storeTasks prefix cm (store (proto w2)) (Clusters.sched t upd) = Some (cm1, s1, k, e)) as [[-> ->]|E].
  { rewrite S2. unfold storeShardMapping in Hst. repeat (case_match; simplify_eq); auto. }
  - exists w2. split; [|cbn; by rewrite N2]. split; [by eapply rtc_l|]. by rewrite M2, S2, N2.
  - destruct (storeTasks_arun strict n (Clusters.sched t upd) w2 cm cm1 s1 k e) as (w3 & R3 & S3 & M3 & N3).
    + by rewrite M2, lookup_insert_eq.
    + intros id info f Hf. apply Hin. rewrite <-(Hsch upd). apply list_elem_of_fmap. by exists (id, info, f).
    + done.
    + exists w3. split; [|cbn; by rewrite N3, N2]. split; [eapply rtc_l; [exact Hs|by etrans]|]. split; [done|].
      split; [by rewrite M3, M2, insert_insert_eq|by rewrite N3, N2].
Qed.

End Runs.

(** ** Running the cluster *)

(** A scheduler: each action names a step, which it takes when the step's guard holds. *)
Module Scheduler.
Import Postgres.
Abbreviation cworld := (aworld (St := nat) (Msg := string) (Data := nat) (P := DB) (S := EtcdMem)).

Inductive action : Type :=
| AView (n : string) (view : list string)        (* membership as [n] sees it *)
| AReload (n : string)
| AReassign (n : string) (id : Z)
| ARebalance (n : string) (id : Z)
| AClaim (n : string) (id : Z)
| ACount (n : string)
| ARelease (n : string) (id : Z) (k : nat)       (* on the [k]th latest count *)
| ACommit (k : nat)                              (* the [k]th latest plan *)
| ARecord (k : nat)                              (* the [k]th latest success *)
| AAdmit (n oid : string)
| ACreate (n typ oid : string)
| AEvict (n oid : string)
| ACrash (n : string).

Definition with_view (cm : ConsensusManager) (view : gset string) : ConsensusManager :=
  set_state cm (mkState view (Gates (state cm)) (ShardMapping (state cm)) (Leader (state cm)) (LeaderModRevision (state cm))
    (Revision (state cm)) (LastChange (state cm))).

Definition set_mgr (w : cworld) (n : string) (cm : ConsensusManager) : cworld :=
  mkA (mkWorld (store (proto w)) (<[n := cm]> (mgrs (proto w))) (intents (proto w)) (hist (proto w)) (pend (proto w)))
    (nodes w) (admitted w) (counted w).

Definition add_intent (w : cworld) (n : string) (cm : ConsensusManager) (id : Z) (new : ShardInfo) : cworld :=
  mkA (with_intent (proto w) n cm id new) (nodes w) (admitted w) (counted w).

Definition loaded (w : cworld) : ClusterState :=
  loadClusterStateFromEtcd "/g" 2 (etcd_range (store (proto w)) "/g") (etcd_rev (store (proto w))) 0.

Definition listing (nd : Node.cnode) : list string := (map_to_list (Nodes.objects nd)).*1.

Definition view_okb (view : gset string) : bool := forallb node_ok (elements view).

(** The plan of a running node, when it has one for the shard *)
Definition plan (w : cworld) (n : string) (id : Z) (calc : ConsensusManager -> option shards) : option cworld :=
  cm ← mgrs (proto w) !! n; _ ← nodes w !! n; upd ← calc cm; new ← upd !! id;
  if releases (shard_at (cached cm) id) new then None else Some (add_intent w n cm id new).

Definition exec (t : timing) (w : cworld) (a : action) : option cworld :=
  match a with
  | AView n view =>
      cm ← mgrs (proto w) !! n;
      if view_okb (list_to_set view) then Some (set_mgr w n (with_view cm (list_to_set view))) else None
  | AReload n =>
      cm ← mgrs (proto w) !! n;
      if view_okb (Nodes (loaded w)) then Some (set_mgr w n (set_state cm (loaded w))) else None
  | AReassign n id => plan w n id (fun cm => calcReassignShardTargetNodes cm (fun l => l) 0)
  | ARebalance n id => plan w n id planRebalance
  | AClaim n id => plan w n id shardsToClaim
  | ACount n =>
      nd ← nodes w !! n;
      Some (mkA (proto w) (nodes w) (admitted w) ((n, Clusters.countObjects 2 (Nodes.ListObjectIDs nd (listing nd)) ∅) :: counted w))
  | ARelease n id k =>
      cm ← mgrs (proto w) !! n; nd ← nodes w !! n; e ← counted w !! k;
      upd ← calcReleaseShardsForNode cm (localNodeAddress cm) e.2; new ← upd !! id;
      if bool_decide (e.1 = n) && (negb (fresh_count t) || bool_decide (e.2 = Clusters.countObjects 2 (Nodes.ListObjectIDs nd (listing nd)) ∅))
      then Some (add_intent w n cm id new) else None
  | ACommit k =>
      i ← intents (proto w) !! k;
      if accurate_death t && seizes i && bool_decide (is_Some (nodes w !! CurrentNode (i_base i))) then None
      else
        let key := shardKey "/g" (i_id i) in
        let '(s', r) := commit (store (proto w)) key (ModRevision (i_new i)) (formatShardInfo (i_new i)) NoFault in
        Some (mkA (mkWorld s' (mgrs (proto w)) (intents (proto w))
          (if applies (store (proto w)) key (ModRevision (i_new i)) NoFault
           then mkWrite i (etcd_rev s') :: hist (proto w) else hist (proto w))
          (match r with Ok true => mkWrite i (etcd_rev s') :: pend (proto w) | _ => pend (proto w) end))
          (nodes w) (admitted w) (counted w))
  | ARecord k =>
      wr ← pend (proto w) !! k; cm ← mgrs (proto w) !! i_node (w_intent wr);
      cm' ← recordShard cm (w_id wr) (w_new wr) (w_rev wr); Some (set_mgr w (i_node (w_intent wr)) cm')
  | AAdmit n oid =>
      nd ← nodes w !! n; cm ← mgrs (proto w) !! n;
      if admits nd cm oid then Some (mkA (proto w) (nodes w) ((n, oid) :: admitted w) (counted w)) else None
  | ACreate n typ oid =>
      nd ← nodes w !! n; cm ← mgrs (proto w) !! n;
      if bool_decide ((n, oid) ∈ admitted w) && (negb (fresh_admission t) || admits nd cm oid)
      then Some (mkA (proto w) (<[n := fst (Nodes.CreateObject Node.keep Node.idle nd typ oid)]> (nodes w)) (admitted w) (counted w))
      else None
  | AEvict n oid =>
      nd ← nodes w !! n; cm ← mgrs (proto w) !! n;
      Some (mkA (proto w) (<[n := fst (Nodes.EvictObject Node.idle nd oid)]> (nodes w)) (admitted w) (counted w))
  | ACrash n =>
      Some (mkA (proto w) (delete n (nodes w)) (filter (fun x => x.1 <> n) (admitted w)) (filter (fun x => x.1 <> n) (counted w)))
  end.

Fixpoint run (t : timing) (w : cworld) (l : list action) : option cworld :=
  match l with [] => Some w | a :: l => w' ← exec t w a; run t w' l end.

(** Two nodes without objects and their managers, which know each other but no shard *)
Definition mgr0 (addr : string) : ConsensusManager :=
  set_state (NewConsensusManager true 0 addr 2) (mkState {["a:1"]} (Some ∅) (Some ∅) "" 0 1 (Some 0%Z)).
Definition new_node (addr : string) : Node.cnode :=
  default (Nodes.NewNode addr 2 (Counter.db0 [])) (Nodes.RegisterObjectType (Nodes.NewNode addr 2 (Counter.db0 [])) true Counter.cls).
Definition world0 : cworld :=
  mkA (mkWorld (mkMem ∅ 1) {["a:1" := mgr0 "a:1"; "b:1" := mgr0 "b:1"]} [] [] []) {["a:1" := new_node "a:1"; "b:1" := new_node "b:1"]} [] [].

(** [a:1] becomes the owner of both shards *)
Definition settle : list action :=
  [AReassign "a:1" 0; ACommit 0; ARecord 0; AReassign "a:1" 1; ACommit 0; ARecord 0;
   AClaim "a:1" 0; ACommit 0; ARecord 0; AClaim "a:1" 1; ACommit 0; ARecord 0].

(** Moving shard 0 from [a:1] to [b:1]: the leader's plan, and the claim and first creation by the new owner *)
Definition rebalance : list action := [AView "a:1" ["a:1"; "b:1"]; ARebalance "a:1" 0; ACommit 0; ARecord 0].
Definition release : list action := [ARelease "a:1" 0 0; ACommit 0; ARecord 0].
Definition take_over : list action :=
  [AReload "b:1"; AView "b:1" ["a:1"; "b:1"]; AClaim "b:1" 0; ACommit 0; ARecord 0; AAdmit "b:1" "y"; ACreate "b:1" "Counter" "y"].
Definition activate (n : string) : list action := [AAdmit n "y"; ACreate n "Counter" "y"].

(** A migration in which the old owner evicts the object in time *)
Definition migration : list action :=
  settle ++ activate "a:1" ++ rebalance ++ [AEvict "a:1" "y"; ACount "a:1"] ++ release ++ take_over.

(** A request that was admitted before the migration and creates its object after it *)
Definition late_creation : list action :=
  settle ++ [AAdmit "a:1" "y"] ++ rebalance ++ [ACount "a:1"] ++ release ++ take_over ++ [ACreate "a:1" "Counter" "y"].

(** An object that is created between the count and the release *)
Definition stale_count : list action :=
  settle ++ [ACount "a:1"] ++ activate "a:1" ++ rebalance ++ release ++ take_over.

(** A running owner that the other node has stopped seeing *)
Definition seizure : list action :=
  settle ++ activate "a:1" ++ [AReload "b:1"; AView "b:1" ["b:1"]; AReassign "b:1" 0; ACommit 0; ARecord 0;
    AClaim "b:1" 0; ACommit 0; ARecord 0] ++ activate "b:1".

(** The running nodes that have the object *)
Definition where_is (w : cworld) (oid : string) : list string :=
  (map_to_list (filter (fun kv => bool_decide (is_Some (Nodes.objects kv.2 !! oid)) = true) (nodes w))).*1.
End Scheduler.
Import Scheduler.

Lemma view_okb_ok view : view_okb view = true -> view_ok view.
Proof. unfold view_okb. rewrite forallb_forall. intros Hv n Hn. apply Hv, list_elem_of_In, elem_of_elements, Hn. Qed.

Lemma listing_complete (nd : Node.cnode) k : is_Some (Nodes.objects nd !! k) -> k ∈ listing nd.
Proof. intros [o Ho]. apply list_elem_of_fmap. exists (k, o). split; [done|]. by apply elem_of_map_to_list. Qed.

Lemma plan_step t w n id calc w' :
  (forall cm upd new, calc cm = Some upd -> upd !! id = Some new -> plans cm id new) ->
  plan w n id calc = Some w' -> astep Counter.rt Node.keep "/g" 2 t w w'.
Proof.
  intros Hp He. unfold plan in He.
  destruct (mgrs (proto w) !! n) as [cm|] eqn:Hm; [|done]. destruct (nodes w !! n) as [nd|] eqn:Hn; [|done]. cbn in He.
  destruct (calc cm) as [upd|] eqn:Hc; [|done]. cbn in He. destruct (upd !! id) as [new|] eqn:Hu; [|done]. cbn in He.
  destruct (releases _ _) eqn:Hr; [done|]. injection He as <-. apply as_plan; [by eexists|done|by eapply Hp|done].
Qed.

(** The scheduler takes only steps of the cluster. *)
Lemma exec_step t w a w' : exec t w a = Some w' -> astep Counter.rt Node.keep "/g" 2 t w w'.
Proof.
  destruct a; cbn [exec]; intros He.
  - destruct (mgrs (proto w) !! n) as [cm|] eqn:Hm; [|done]. cbn in He. destruct (view_okb _) eqn:Hv; [|done].
    injection He as <-. apply as_cache; [|done|done]. apply (ws_local "/g" 2 _ n cm); try done. by apply view_okb_ok.
  - destruct (mgrs (proto w) !! n) as [cm|] eqn:Hm; [|done]. cbn in He. destruct (view_okb _) eqn:Hv; [|done].
    injection He as <-. apply as_cache; [|done|done]. apply (ws_load "/g" 2 _ n cm 0); try done. by apply view_okb_ok.
  - eapply plan_step; [|exact He]. intros cm upd new Hc Hu. by eapply (plans_reassign _ _ _ upd (fun l => l) 0).
  - eapply plan_step; [|exact He]. intros cm upd new Hc Hu. by eapply plans_rebalance.
  - eapply plan_step; [|exact He]. intros cm upd new Hc Hu. by eapply plans_claim.
  - destruct (nodes w !! n) as [nd|] eqn:Hn; [|done]. injection He as <-. apply (as_count _ _ _ _ _ _ _ nd); [done|].
    exists (listing nd). split; [apply listing_complete|done].
  - destruct (mgrs (proto w) !! n) as [cm|] eqn:Hm; [|done]. destruct (nodes w !! n) as [nd|] eqn:Hn; [|done].
    cbn in He. destruct (counted w !! k) as [[m c]|] eqn:Hk; [|done]. cbn in He.
    destruct (calcReleaseShardsForNode _ _ _) as [upd|] eqn:Hc; [|done]. cbn in He.
    destruct (upd !! _) as [new|] eqn:Hu; [|done]. cbn in He. destruct (_ && _) eqn:Hb; [|done]. injection He as <-.
    apply andb_prop in Hb as [Hmn Hf]. apply bool_decide_eq_true in Hmn as ->.
    apply (as_release _ _ _ _ _ _ _ nd cm c upd); try done; [by eapply list_elem_of_lookup_2|].
    intros Ht. rewrite Ht in Hf. cbn in Hf. apply bool_decide_eq_true in Hf as ->. exists (listing nd).
    split; [apply listing_complete|done].
  - destruct (intents (proto w) !! k) as [i|] eqn:Hk; [|done]. cbn [mbind option_bind] in He.
    destruct (accurate_death t && _ && _) eqn:Hd; [done|].
    destruct (commit _ _ _ _ _) as [s' r] eqn:Hc. injection He as <-.
    refine (as_commit Counter.rt Node.keep "/g" 2 t w i NoFault s' r _ Hc _); [by eapply list_elem_of_lookup_2|].
    intros Ht Hs. rewrite Ht, Hs in Hd. cbn in Hd. apply bool_decide_eq_false in Hd. by apply eq_None_not_Some.
  - destruct (pend (proto w) !! k) as [wr|] eqn:Hk; [|done]. cbn in He.
    destruct (mgrs (proto w) !! _) as [cm|] eqn:Hm; [|done]. cbn in He.
    destruct (recordShard _ _ _ _) as [cm'|] eqn:Hr; [|done]. injection He as <-.
    apply as_cache; [|done|done]. apply (ws_record "/g" 2 (proto w) wr cm); try done. by eapply list_elem_of_lookup_2.
  - destruct (nodes w !! n) as [nd|] eqn:Hn; [|done]. destruct (mgrs (proto w) !! n) as [cm|] eqn:Hm; [|done]. cbn in He.
    destruct (admits nd cm oid) eqn:Ha; [|done]. injection He as <-. by eapply as_admit.
  - destruct (nodes w !! n) as [nd|] eqn:Hn; [|done]. destruct (mgrs (proto w) !! n) as [cm|] eqn:Hm; [|done]. cbn in He.
    destruct (_ && _) eqn:Hb; [|done]. injection He as <-. apply andb_prop in Hb as [Hin Hf].
    apply bool_decide_eq_true in Hin.
    apply (as_op Counter.rt Node.keep "/g" 2 t w n nd cm (OpCreate Node.idle typ oid));
      [done|done|exact Node.keeps_idle|intros ?; apply within_refl|].
    cbn. split; [done|]. intros Ht. by rewrite Ht in Hf.
  - destruct (nodes w !! n) as [nd|] eqn:Hn; [|done]. destruct (mgrs (proto w) !! n) as [cm|] eqn:Hm; [|done].
    injection He as <-. apply (as_op Counter.rt Node.keep "/g" 2 t w n nd cm (OpEvict Node.idle oid));
      [done|done|exact Node.keeps_idle|intros ?; apply within_refl|done].
  - injection He as <-. apply as_crash.
Qed.

Lemma world0_init : ainit "/g" 2 world0.
Proof.
  assert (forall addr, node_inv (new_node addr)) as Hinv.
  { intros addr. apply (inv_run_op Counter.rt Node.keep (Nodes.NewNode addr 2 (Counter.db0 [])) (OpRegister true Counter.cls)); [done|].
    split; cbn; [intros t c; by rewrite lookup_empty|intros k o; by rewrite lookup_empty|by rewrite fmap_empty]. }
  split; [|split; [done|split; [done|]]].
  - split; [split; [done|]; intros key v r Hk; cbn in Hk; by rewrite lookup_empty in Hk|].
    split; [done|]. split; [done|]. split; [|done].
    intros n cm Hn. cbn in Hn. rewrite lookup_insert_Some, lookup_singleton_Some in Hn.
    destruct Hn as [[<- <-]|[_ [<- <-]]]; (split_and!; try done; intros x Hx; cbn in Hx; by apply elem_of_singleton in Hx as ->).
  - intros n nd Hn. cbn in Hn. rewrite lookup_insert_Some, lookup_singleton_Some in Hn.
    destruct Hn as [[<- <-]|[_ [<- <-]]]; (split_and!; try done; first [apply Hinv | eexists; vm_compute; reflexivity]).
Qed.

Lemma run_reachable t l w : run t world0 l = Some w -> areachable Counter.rt Node.keep "/g" 2 t w.
Proof.
  intros Hr. exists world0. split; [apply world0_init|]. revert Hr. generalize world0.
  induction l as [|a l IH]; intros w0 Hr; cbn in Hr; [by simplify_eq|].
  destruct (exec t w0 a) as [w1|] eqn:He; [|done]. eapply rtc_l; [by eapply exec_step|by apply IH].
Qed.

Lemma run_where t l oid ns : (fun w => where_is w oid) <$> run t world0 l = Some ns ->
  exists w, areachable Counter.rt Node.keep "/g" 2 t w /\ where_is w oid = ns.
Proof. intros (w & Hw & ->)%fmap_Some. exists w. split; [by eapply run_reachable|done]. Qed.

(** With any one of the assumptions dropped, two nodes have the object: a request that passed the check
    before the shard moved and creates its object afterwards; *)
Theorem late_creation_duplicates :
  exists w, areachable Counter.rt Node.keep "/g" 2 (mkTiming false true true) w /\ where_is w "y" = ["a:1"; "b:1"].
Proof. apply (run_where _ late_creation). vm_compute. reflexivity. Qed.

(** an object that is created after the objects were counted and before the release is planned; *)
Theorem stale_count_duplicates :
  exists w, areachable Counter.rt Node.keep "/g" 2 (mkTiming true false true) w /\ where_is w "y" = ["a:1"; "b:1"].
Proof. apply (run_where _ stale_count). vm_compute. reflexivity. Qed.

(** a node that runs on after another has lost sight of it. *)
Theorem live_node_seized_duplicates :
  exists w, areachable Counter.rt Node.keep "/g" 2 (mkTiming true true false) w /\ where_is w "y" = ["a:1"; "b:1"].
Proof. apply (run_where _ seizure). vm_compute. reflexivity. Qed.

Definition has (w : cworld) (n oid : string) : bool :=
  match nodes w !! n with Some nd => bool_decide (is_Some (Nodes.objects nd !! oid)) | None => false end.

Lemma single_activation_witness :
  exists w nb, areachable Counter.rt Node.keep "/g" 2 strict w /\ nodes w !! "b:1" = Some nb /\
    (exists v r, etcd_get (store (proto w)) (shardKey "/g" (GetShardID "y" 2)) = Some (v, r) /\
       CurrentNode (parseShardInfo v r) = "b:1") /\
    forall c nc, nodes w !! c = Some nc -> is_Some (Nodes.objects nc !! "y") -> c = "b:1".
Proof.
  assert ((fun w => has w "b:1" "y") <$> run strict world0 migration = Some true) as (w & Hw & Hh)%fmap_Some
    by (vm_compute; reflexivity).
  unfold has in Hh. destruct (nodes w !! "b:1") as [nb|] eqn:Hn; [|discriminate Hh].
  exists w, nb. split; [exact (run_reachable strict migration w Hw)|]. split; [exact Hn|].
  exact (single_activation Counter.rt Node.keep "/g" 2 w "b:1" nb "y" (run_reachable strict migration w Hw) eq_refl Hn
    (bool_decide_eq_true_1 _ (eq_sym Hh))).
Defined.
