(* ===== verification/GateServer.v ===== *)
(** * The gate's RPC handlers (gate/gateserver/gateserver.go)

    [Module GateServers]: the handlers that clients call, on top of the routing of Cluster.v.  The answer
    to the RPC a gate sends is what the handler of the owner's server (Server.v) returns, which is how the
    properties below speak of a call from the client to the object.  The client sessions are in GateSession.v,
    the HTTP handlers in GateHTTP.v; starting the servers and TLS are not modelled. *)

From S2P Require Import Prelude GoStrings ObjectId Persistence Object ReliableCalls AccessControl Node.
From S2P Require Import ConsensusState Cluster CallContext Server.
Import Proto Objects Access Conf Consensus Clusters Context.

Module GateServers.
Section GateServer.
Context {St Msg Data Any P : Type} `{PersistenceProvider P}.
Abbreviation clusterT := (Cluster (St := St) (Msg := Msg) (Data := Data) (P := P)).

Record GateServer : Type := mkGateServer {
  cluster : clusterT;
  stopped : bool;
  accessRules : option (list CompiledRule);
  lifecycleRules : option (list CompiledLifecycleRule);
  clientIdentities : gmap string (option CallerIdentity)
}.

Inductive gate_error : Type :=
| Unavailable
| GatePermissionDenied
| InvalidArgument
| ErrCluster (e : cluster_error).

(** [CallObject]: [ctx] is the context of the client's RPC; the third result is the context the cluster
    sends the RPC with, after the [InjectCallerToOutgoing] of its [CallObjectAnyRequest] *)
Definition CallObject (answer : Ctx -> request (Any := Any) -> result string (option Any)) (g : GateServer) (ctx : Ctx) (now timeout : Z)
    (cid typ id method : string) (req : option Any) : list (request (Any := Any)) * result gate_error (option Any) * Ctx :=
  if stopped g then ([], Err Unavailable, ctx)
  else
    let ctx := WithDefaultTimeout ctx now timeout in
    if match accessRules g with Some v => negb (CheckClientAccess v typ id method) | None => false end
    then ([], Err GatePermissionDenied, ctx)
    else
      let ctx := if bool_decide (cid <> "") then WithClientID ctx cid else ctx in
      let ctx := match clientIdentities g !! cid with Some i => WithCallerIdentity ctx i | None => ctx end in
      let ctx := InjectCallerToOutgoing ctx in
      let '(rqs, r) := CallObjectAnyRequest (answer ctx) (cluster g) typ id method req in
      (rqs, match r with Ok a => Ok a | Err e => Err (ErrCluster e) end, ctx).

(** [CreateObject] *)
Definition CreateObject (answer : Ctx -> request (Any := Any) -> result string (option Any)) (g : GateServer) (ctx : Ctx)
    (now timeout : Z) (uid typ id : string) : list (request (Any := Any)) * result gate_error string :=
  if stopped g then ([], Err Unavailable)
  else
    let ctx := WithDefaultTimeout ctx now timeout in
    if match lifecycleRules g with Some v => negb (CheckClientCreate v typ id) | None => false end
    then ([], Err GatePermissionDenied)
    else
      let '(rqs, r) := Clusters.CreateObject (answer ctx) (cluster g) uid typ id in
      (rqs, match r with Ok a => Ok a | Err e => Err (ErrCluster e) end).

(** [DeleteObject] *)
Definition DeleteObject (answer : Ctx -> request (Any := Any) -> result string (option Any)) (g : GateServer) (ctx : Ctx)
    (now timeout : Z) (typ id : string) : list (request (Any := Any)) * result gate_error () :=
  if stopped g then ([], Err Unavailable)
  else
    let ctx := WithDefaultTimeout ctx now timeout in
    if bool_decide (typ = "") then ([], Err InvalidArgument)
    else if match lifecycleRules g with Some v => negb (CheckClientDelete v typ id) | None => false end
    then ([], Err GatePermissionDenied)
    else
      let '(rqs, r) := Clusters.DeleteObject (answer ctx) (cluster g) typ id in
      (rqs, match r with Ok a => Ok a | Err e => Err (ErrCluster e) end).

(** [ReliableCallStatus.String] *)
Definition status_String (s : Nodes.ReliableCallStatus) : string :=
  match s with
  | Nodes.UNKNOWN => "UNKNOWN"
  | Nodes.PENDING => "PENDING"
  | Nodes.SUCCESS => "SUCCESS"
  | Nodes.FAILED => "FAILED"
  | Nodes.SKIPPED => "SKIPPED"
  end.

(** [ReliableCallObject]: the response, the status text and whether an error is set; [None] is a call that
    is still being retried.  [attempts ctx] is what the retries meet under the context with its deadline *)
Definition ReliableCallObject
    (local : Nodes.Node -> string -> string -> string -> string -> option Any -> Nodes.Node * Nodes.reply (Any := Any))
    (attempts : Ctx -> list attempt) (g : GateServer) (ctx : Ctx) (now timeout : Z) (callID typ id method : string) (req : option Any)
    : list (request (Any := Any)) * option (result gate_error (option Any * string * bool)) :=
  if stopped g then ([], Some (Err Unavailable))
  else
    let ctx := WithDefaultTimeout ctx now timeout in
    if match accessRules g with Some v => negb (CheckClientAccess v typ id method) | None => false end
    then ([], Some (Ok (None, "skipped", true)))
    else
      let '(_, rqs, r) := ReliableCallObjectAnyRequest local (attempts ctx) (cluster g) callID typ id method req in
      (rqs, (fun '(res, status, err) => Ok (res, status_String status, bool_decide (is_Some err))) <$> r).

End GateServer.
End GateServers.

(** ** Lemmas *)

(** The context a gate sends a client's call with *)
Lemma gate_context {St Msg Data Any P : Type} `{PersistenceProvider P}
    (answer : Ctx -> request (Any := Any) -> result string (option Any)) (g : GateServers.GateServer (St := St) (Msg := Msg) (Data := Data) (P := P))
    ctx now timeout cid typ id method req rqs r ctx1 :
  outgoing ctx !! mdKeyCallerUserID = None -> outgoing ctx !! mdKeyCallerRoles = None ->
  callerIdentity ctx = None -> clientID ctx = None ->
  GateServers.CallObject answer g ctx now timeout cid typ id method req = (rqs, r, ctx1) -> rqs <> [] ->
  ClientID ctx1 = cid /\
  callerIdentity (ExtractCallerFromIncoming (transported ctx1)) = mjoin (GateServers.clientIdentities g !! cid) ≫= identified /\
  deadline ctx1 = Some (default (now + timeout)%Z (deadline ctx)).
Proof.
  intros Hu Hr Hi Hc Hg Hn. unfold GateServers.CallObject in Hg. case_match; [by simplify_eq|]. case_match; [by simplify_eq|].
  destruct (CallObjectAnyRequest _ _ typ id method req) as [rqs0 r0]. injection Hg as <- _ <-.
  set (c1 := if bool_decide (cid <> "") then _ else _).
  assert (outgoing c1 = outgoing ctx /\ callerIdentity c1 = None /\ ClientID c1 = cid /\
          deadline c1 = Some (default (now + timeout)%Z (deadline ctx))) as (E1 & E2 & E3 & E4).
  { subst c1. unfold WithClientID, WithDefaultTimeout, ClientID. destruct ctx as [c i o ic [d|]], (decide (cid = "")) as [->|Hcid];
      cbn in *; subst; rewrite ?bool_decide_eq_true_2 by done; done. }
  set (c2 := match GateServers.clientIdentities g !! cid with Some i => WithCallerIdentity c1 i | None => c1 end).
  assert (outgoing c2 = outgoing ctx /\ callerIdentity c2 = mjoin (GateServers.clientIdentities g !! cid) /\ ClientID c2 = cid /\
          deadline c2 = deadline c1) as (F1 & F2 & F3 & F4).
  { subst c2. destruct (GateServers.clientIdentities g !! cid) as [[i|]|]; cbn; rewrite ?E1, ?E2; done. }
  rewrite transported_identity, F2 by (by rewrite F1). split; [|split; [done|]].
  - rewrite <-F3. unfold InjectCallerToOutgoing. by repeat case_match.
  - rewrite <-E4, <-F4. unfold InjectCallerToOutgoing. by repeat case_match.
Qed.

(** What the gate's routing answers is what the owner's handler answered. *)
Lemma gate_call_answered {St Msg Data Any P : Type} `{PersistenceProvider P}
    (answer : request (Any := Any) -> result string (option Any)) (c : Cluster (St := St) (Msg := Msg) (Data := Data) (P := P))
    typ id method req rqs a :
  CallObjectAnyRequest answer c typ id method req = (rqs, Ok a) ->
  exists addr, rqs = [RpcCall addr typ id method req] /\ answer (RpcCall addr typ id method req) = Ok a.
Proof.
  unfold CallObjectAnyRequest. intros Hc. repeat case_match; simplify_eq. eauto.
Qed.

(** ** Properties *)

(** C40: the caller of a client's call arrives at the object.  When the gate sends a client's call to a node
    and the node invokes the method, the method's context has the client id of the request and the
    identity the gate holds for that client, its roles in order; a client without an identity, or with an
    empty user id, is anonymous there.  The call has a deadline. *)
Theorem caller_identity_transported {St Msg Data Any P St' Data' P' : Type} `{PersistenceProvider P} `{PersistenceProvider P'}
    (rt : Runtime Any Msg) (onCreated : Class St Msg Data -> St -> St) (wait wait2 during : Nodes.Node -> Nodes.Node)
    (s s' : Servers.Server (St := St) (Msg := Msg) (Data := Data) (P := P))
    (g : GateServers.GateServer (St := St') (Msg := Msg) (Data := Data') (P := P'))
    (answer : Ctx -> request -> result string (option Any)) (ctx ctx1 ctx2 : Ctx) (now timeout : Z) (cid typ id method : string)
    (req : option Any) rqs r r' :
  outgoing ctx !! mdKeyCallerUserID = None -> outgoing ctx !! mdKeyCallerRoles = None ->
  callerIdentity ctx = None -> clientID ctx = None ->
  GateServers.CallObject answer g ctx now timeout cid typ id method req = (rqs, r, ctx1) -> rqs <> [] ->
  Servers.CallObject rt onCreated wait wait2 during s (transported ctx1) (ClientID ctx1) typ id method req = (s', r', Some ctx2) ->
  ClientID ctx2 = cid /\ callerIdentity ctx2 = mjoin (GateServers.clientIdentities g !! cid) ≫= identified /\
  deadline ctx1 = Some (default (now + timeout)%Z (deadline ctx)).
Proof.
  intros Hu Hr Hi Hc Hg Hn Hs. destruct (gate_context _ _ _ _ _ _ _ _ _ _ _ _ _ Hu Hr Hi Hc Hg Hn) as (H1 & H2 & H3).
  apply server_context in Hs as ->. rewrite H1. split; [|split; [|done]].
  - rewrite extract_ClientID. case_bool_decide as E; cbn; [done|]. by rewrite E.
  - rewrite <-H2. case_bool_decide; [|done]. unfold ExtractCallerFromIncoming. cbn [incoming WithClientID transported].
    by repeat case_match.
Qed.

(** A [CallObject] of a client is executed only at access level [ALLOW].  When gate and node enforce the same rules, a
    call that a client makes through the gate's [CallObject] and that is answered without an error had level [ALLOW]: the
    gate refuses [INTERNAL] and [REJECT], and the node, which applies the rules for nodes to every call it receives,
    refuses [EXTERNAL], leaving its objects as they were.  The documents describe [EXTERNAL] as callable by clients; and a
    reliable call goes past the node's rules ([reliable_call_ignores_access_rules]). *)
Theorem client_call_requires_allow {St Msg Data Any P St' Data' P' : Type} `{PersistenceProvider P} `{PersistenceProvider P'}
    (rt : Runtime Any Msg) (onCreated : Class St Msg Data -> St -> St) (wait wait2 during : Nodes.Node -> Nodes.Node)
    (v : list CompiledRule) (srv : string -> Servers.Server (St := St) (Msg := Msg) (Data := Data) (P := P))
    (g : GateServers.GateServer (St := St') (Msg := Msg) (Data := Data') (P := P'))
    (ctx ctx' : Ctx) (now timeout : Z) (cid typ id method : string) (req : option Any)
    (text : Servers.server_error -> string) (rqs : list request) (r : option Any) :
  let answer (ctx : Ctx) (rq : request) := match rq with
    | RpcCall addr typ id method req =>
        match snd (fst (Servers.CallObject rt onCreated wait wait2 during (srv addr) (transported ctx) cid typ id method req)) with
        | Ok a => Ok (Some a) | Err e => Err (text e) end
    | _ => Err "" end in
  GateServers.accessRules g = Some v -> (forall addr, Servers.accessValidator (srv addr) = Some v) ->
  (GateServers.CallObject answer g ctx now timeout cid typ id method req = (rqs, Ok r, ctx') ->
     findAccess v typ id method = AccessAllow) /\
  (findAccess v typ id method = AccessExternal -> forall addr ctx cid,
     exists e, Servers.CallObject rt onCreated wait wait2 during (srv addr) ctx cid typ id method req = (srv addr, Err e, None)).
Proof.
  intros answer Hg Hs. split.
  - intros Hc. unfold GateServers.CallObject in Hc. destruct (GateServers.stopped g); [done|]. rewrite Hg in Hc.
    destruct (CheckClientAccess v typ id method) eqn:Ec; [|done]. cbn [negb] in Hc.
    destruct (CallObjectAnyRequest _ _ typ id method req) as [rqs0 [a|e]] eqn:Er; [|done].
    destruct (gate_call_answered _ _ _ _ _ _ _ _ Er) as (addr & _ & Ha). cbn [answer] in Ha.
    unfold Servers.CallObject in Ha. rewrite Hs in Ha. destruct (Servers.validateObjectShardOwnership (srv addr) id); [|done].
    destruct (CheckNodeAccess v typ id method) eqn:En; [|done].
    unfold CheckClientAccess in Ec. unfold CheckNodeAccess in En. by destruct (findAccess v typ id method).
  - intros He addr c k. unfold Servers.CallObject. rewrite Hs.
    destruct (Servers.validateObjectShardOwnership (srv addr) id); [|by eexists]. unfold CheckNodeAccess. rewrite He. by eexists.
Qed.

(** ** Witnesses *)

Import Postgres.

Definition level_rules (a : AccessLevel) : list CompiledRule := [mkCompiled matchAllMatcher matchAllMatcher matchAllMatcher a].

Definition server_a (a : AccessLevel) (oid : string) : Servers.Server :=
  Servers.mkServer (node_a oid) (Some (cm_of "a:1" moving)) (Some (level_rules a)).

Definition gate_server (a : AccessLevel) : GateServers.GateServer :=
  GateServers.mkGateServer cluster_g false (Some (level_rules a)) None ∅.

Definition ctx0 : Ctx := mkCtx None None ∅ None None.

Definition gate_alice : GateServers.GateServer :=
  GateServers.mkGateServer cluster_g false (Some (level_rules AccessAllow)) None
    {[ "c" := Some (mkCaller "alice" ["admin"; "ops"]) ]}.

Lemma caller_identity_transported_witness :
  exists ctx1 ctx2 s' r,
    GateServers.CallObject (fun _ _ => Ok None) gate_alice ctx0 0 5 "c" "Counter" "shard#0/x" "Inc" (Some "y")
      = ([RpcCall "a:1" "Counter" "shard#0/x" "Inc" (Some "y")], Ok None, ctx1) /\
    Servers.CallObject Counter.rt Node.keep Node.idle Node.idle Node.idle (server_a AccessAllow "shard#0/x") (transported ctx1)
      (ClientID ctx1) "Counter" "shard#0/x" "Inc" (Some "y") = (s', Ok r, Some ctx2) /\
    callerIdentity ctx2 = Some (mkCaller "alice" ["admin"; "ops"]).
Proof.
  do 4 eexists. split; [vm_compute; reflexivity|]. split; [vm_compute; reflexivity|].
  refine (proj1 (proj2 (caller_identity_transported Counter.rt Node.keep Node.idle Node.idle Node.idle (server_a AccessAllow "shard#0/x") _
    gate_alice (fun _ _ => Ok None) ctx0 _ _ 0 5 "c" "Counter" "shard#0/x" "Inc" (Some "y") _ _ _
    eq_refl eq_refl eq_refl eq_refl _ _ _))); [vm_compute; reflexivity|discriminate|vm_compute; reflexivity].
Defined.

Lemma client_call_requires_allow_witness :
  findAccess (level_rules AccessAllow) "Counter" "shard#0/x" "Inc" = AccessAllow.
Proof.
  eapply (proj1 (client_call_requires_allow Counter.rt Node.keep Node.idle Node.idle Node.idle (level_rules AccessAllow)
    (fun _ => server_a AccessAllow "shard#0/x") (gate_server AccessAllow) ctx0 _ 0 5 "c" "Counter" "shard#0/x" "Inc" (Some "y")
    (fun _ => "") _ (Some "y") eq_refl (fun _ => eq_refl))).
  vm_compute. reflexivity.
Defined.

(** Waiting for a reliable call while the processing loop of [oid] runs to its end *)
Definition run_loop (oid : string) (n : Node.cnode) : Node.cnode * option ReliableCall :=
  match Nodes.objects n !! oid with
  | None => (n, None)
  | Some o =>
      match runProcessingLoop Counter.rt (Nodes.cls_of o) 3 (Nodes.store n) (Nodes.base o) [] with
      | None => (n, None)
      | Some (p, b, evs) =>
          (Nodes.set_object (Nodes.set_store n p) oid (Nodes.cls_of o) b,
           head (omap (fun e => match e with Sent _ c => Some c | Closed _ => None end) evs))
      end
  end.

(** a reliable call is not subject to the node's access rules.  With a rule that rejects every access,
    the server refuses [CallObject] on the method, and executes the same method for the same caller
    through [ReliableCallObject], changing the object. *)
Theorem reliable_call_ignores_access_rules :
  let s := server_a AccessReject "shard#0/x" in
  snd (fst (Servers.CallObject Counter.rt Node.keep Node.idle Node.idle Node.idle s ctx0 "c" "Counter" "shard#0/x" "Inc" (Some "y")))
    = Err Servers.PermissionDenied /\
  exists s', Servers.ReliableCallObject Counter.rt Node.keep Node.idle Node.idle Node.idle (run_loop "shard#0/x") (fun _ n => Some n)
      s "r1" "Counter" "shard#0/x" "Inc" (Some "y") 7 = (s', (Some "y", Nodes.SUCCESS, false)) /\
    (st ∘ Nodes.base <$> Nodes.objects (Servers.Node s') !! "shard#0/x") = Some 2%nat.
Proof. split; [vm_compute; reflexivity|]. eexists. split; vm_compute; reflexivity. Qed.
