(* ===== verification/Backoff.v ===== *)
(** * Backoff (util/backoff)

    The retry delay: [Wait] sleeps for the current delay and multiplies it, in [float64], up to the maximum.
    Whether the context ends first is an argument. *)

From S2P Require Import Prelude GoFloat.

Module Backoffs.
Import Float64.

Record Backoff : Type := mkBackoff { initialDelay : Z; maxDelay : Z; multiplier : float64; currentDelay : Z }.

(** [New] *)
Definition New (initialDelay maxDelay : Z) (multiplier : float64) : Backoff :=
  mkBackoff initialDelay maxDelay multiplier initialDelay.

(** [Wait]: [cancelled] is whether the context ends before the delay does *)
Definition Wait (b : Backoff) (cancelled : bool) : Backoff * bool :=
  if cancelled then (b, false)
  else
    let d := to_int64 (fmul (of_int (currentDelay b)) (multiplier b)) in
    let d := if (maxDelay b <? d)%Z then maxDelay b else d in
    (mkBackoff (initialDelay b) (maxDelay b) (multiplier b) d, true).

(** [Reset] *)
Definition Reset (b : Backoff) : Backoff := mkBackoff (initialDelay b) (maxDelay b) (multiplier b) (initialDelay b).

Definition CurrentDelay (b : Backoff) : Z := currentDelay b.

End Backoffs.

(** ** The schedule of a retry loop *)

Section Schedule.
Import Backoffs Float64.

Definition f2 : float64 := of_int 2.
Definition second : Z := 1000000000.

(** The delays slept by [n] waits that are not cancelled *)
Fixpoint schedule (b : Backoff) (n : nat) : list Z :=
  match n with O => [] | S n => CurrentDelay b :: schedule (Wait b false).1 n end.

Lemma schedule_capped b n : (Wait b false).1 = b -> schedule b n = replicate n (CurrentDelay b).
Proof. intros Hb. induction n as [|n IH]; [done|]. cbn [schedule replicate]. by rewrite Hb, IH. Qed.

(** The retry loop of reliable calls ([New(1s, 8s, 2.0)]) sleeps 1, 2, 4 and then always 8 seconds, and a reset starts over. *)
Theorem retry_schedule n : schedule (New second (8 * second) f2) (3 + n) = [second; 2 * second; 4 * second]%Z ++ replicate n (8 * second)%Z.
Proof.
  change (schedule (New second (8 * second) f2) (3 + n)) with
    ([second; CurrentDelay (Wait (New second (8 * second) f2) false).1; CurrentDelay (Wait (Wait (New second (8 * second) f2) false).1 false).1]
      ++ schedule (Wait (Wait (Wait (New second (8 * second) f2) false).1 false).1 false).1 n).
  rewrite schedule_capped by (vm_compute; reflexivity). reflexivity.
Qed.

End Schedule.
