(* ===== verification/TaskPool.v ===== *)
(** * Task pool (util/taskpool)

    The keyed pool on which the notifications of a process run, as a step relation of the submitting
    goroutines and the workers.  A job is a number with its key.  [Start] is called once, as [DefaultPool]
    does. *)

From S2P Require Import Prelude GoStrings.

Module TaskPools.

(** A submitted job, with its key when it has one *)
Record Job : Type := mkJob { jid : nat; jkey : option string }.

(** Where the goroutine of a worker is *)
Inductive phase : Type := NotStarted | Idle | Running (j : Job) | Exited.

(** [worker]: the buffered channel of its jobs, and its goroutine *)
Record worker : Type := mkWorker { jobs : list Job; ph : phase }.

Definition jobsCap : nat := 100.

Record TaskPool : Type := mkPool {
  numWorkers : Z;
  workers : list worker;
  cancelled : bool;                           (* the pool's context is done *)
  stopped : bool;
  nextWorker : Z                              (* uint32 *)
}.

Definition set_workers (tp : TaskPool) (ws : list worker) : TaskPool :=
  mkPool (numWorkers tp) ws (cancelled tp) (stopped tp) (nextWorker tp).

(** [NewTaskPool] *)
Definition NewTaskPool (n : Z) : TaskPool :=
  let n := if (n <=? 0)%Z then 1%Z else n in
  mkPool n (replicate (Z.to_nat n) (mkWorker [] NotStarted)) false false 0.

(** [Start] *)
Definition Start (tp : TaskPool) : TaskPool := set_workers tp ((fun w => mkWorker (jobs w) Idle) <$> workers tp).

(** [hashKey]; [None] is a division by zero *)
Definition hashKey (tp : TaskPool) (key : string) : option nat :=
  let n := uint32 (numWorkers tp) in
  if (n =? 0)%Z then None else Some (Z.to_nat (fnv32a key mod n)).

(** [nextWorkerIndex] *)
Definition nextWorkerIndex (tp : TaskPool) : option (TaskPool * nat) :=
  let next := uint32 (nextWorker tp + 1) in
  let val := uint32 (next - 1) in
  let n := uint32 (numWorkers tp) in
  if (n =? 0)%Z then None
  else Some (mkPool (numWorkers tp) (workers tp) (cancelled tp) (stopped tp) next, Z.to_nat (val mod n)).

(** The worker a submission goes to: by the hash of its key, or round-robin *)
Definition chooseWorker (tp : TaskPool) (key : option string) : option (TaskPool * nat) :=
  match key with
  | Some k => i ← hashKey tp k; Some (tp, i)
  | None => nextWorkerIndex tp
  end.

(** The send of [enqueueJob]: a full channel blocks it *)
Definition push (w : worker) (j : Job) : option worker :=
  if (length (jobs w) <? jobsCap)%nat then Some (mkWorker (jobs w ++ [j]) (ph w)) else None.

(** The two halves of [Stop] before it waits for the workers *)
Definition markStopped (tp : TaskPool) : TaskPool := mkPool (numWorkers tp) (workers tp) (cancelled tp) true (nextWorker tp).
Definition cancel (tp : TaskPool) : TaskPool := mkPool (numWorkers tp) (workers tp) true (stopped tp) (nextWorker tp).

(** [Stop] returns when every started worker has exited *)
Definition allExited (tp : TaskPool) : bool :=
  forallb (fun w => match ph w with Exited | NotStarted => true | _ => false end) (workers tp).

(** The pool with the goroutines inside [enqueueJob] past its check, and what has been accepted by a
    worker and begun by one, in order *)
Record world : Type := mkWorld {
  pool : TaskPool;
  submitting : gmap nat (nat * Job);
  accepted : list (nat * Job);
  begun : list (nat * Job)
}.

Definition on_pool (w : world) (tp : TaskPool) : world := mkWorld tp (submitting w) (accepted w) (begun w).
Definition set_worker (tp : TaskPool) (i : nat) (x : worker) : TaskPool := set_workers tp (<[i := x]> (workers tp)).

Inductive step (w : world) : world -> Prop :=
| T_submit g key id tp i : submitting w !! g = None -> stopped (pool w) = false ->
    chooseWorker (pool w) key = Some (tp, i) ->
    step w (mkWorld tp (<[g := (i, mkJob id key)]> (submitting w)) (accepted w) (begun w))
| T_refused key tp i : stopped (pool w) = true -> chooseWorker (pool w) key = Some (tp, i) -> step w (on_pool w tp)
| T_send g i j x x' : submitting w !! g = Some (i, j) -> workers (pool w) !! i = Some x -> push x j = Some x' ->
    step w (mkWorld (set_worker (pool w) i x') (delete g (submitting w)) (accepted w ++ [(i, j)]) (begun w))
| T_give_up g : is_Some (submitting w !! g) -> cancelled (pool w) = true ->
    step w (mkWorld (pool w) (delete g (submitting w)) (accepted w) (begun w))
| T_take i x j rest : workers (pool w) !! i = Some x -> ph x = Idle -> jobs x = j :: rest ->
    step w (mkWorld (set_worker (pool w) i (mkWorker rest (Running j))) (submitting w) (accepted w) (begun w ++ [(i, j)]))
| T_finish i x j : workers (pool w) !! i = Some x -> ph x = Running j ->
    step w (on_pool w (set_worker (pool w) i (mkWorker (jobs x) Idle)))
| T_exit i x : workers (pool w) !! i = Some x -> ph x = Idle -> cancelled (pool w) = true ->
    step w (on_pool w (set_worker (pool w) i (mkWorker (jobs x) Exited)))
| T_mark : step w (on_pool w (markStopped (pool w)))
| T_cancel : stopped (pool w) = true -> step w (on_pool w (cancel (pool w))).

Definition initial (n : Z) : world := mkWorld (Start (NewTaskPool n)) ∅ [] [].
Definition reachable (n : Z) (w : world) : Prop := rtc step (initial n) w.

End TaskPools.

(** ** The task pool runs the jobs of a key one at a time and in order *)

Section TaskPoolLemmas.
Import TaskPools.

(** The jobs of a worker, and of a key, in a log *)
Definition of_worker (i : nat) (l : list (nat * Job)) : list Job := (filter (fun p => p.1 = i) l).*2.
Definition of_key (k : string) (l : list (nat * Job)) : list Job := (filter (fun p => jkey p.2 = Some k) l).*2.

#[local] Arguments of_worker : simpl never.
#[local] Arguments of_key : simpl never.

Lemma of_worker_app i l l' : of_worker i (l ++ l') = of_worker i l ++ of_worker i l'.
Proof. unfold of_worker. by rewrite filter_app, fmap_app. Qed.

Lemma of_worker_one i j l : of_worker i (l ++ [(i, j)]) = of_worker i l ++ [j].
Proof. rewrite of_worker_app. unfold of_worker. by rewrite (filter_cons_True (fun p : nat * Job => p.1 = i)). Qed.

Lemma of_worker_other i i' j l : i <> i' -> of_worker i (l ++ [(i', j)]) = of_worker i l.
Proof. intros Hi. rewrite of_worker_app. unfold of_worker. rewrite (filter_cons_False (fun p : nat * Job => p.1 = i)) by (cbn; congruence). by rewrite app_nil_r. Qed.

Lemma of_key_worker k h l :
  (forall p, p ∈ l -> jkey p.2 = Some k -> p.1 = h) ->
  of_key k l = filter (fun j => jkey j = Some k) (of_worker h l).
Proof.
  unfold of_key, of_worker. induction l as [|p l IH]; intros Hl; [done|].
  assert (forall p, p ∈ l -> jkey p.2 = Some k -> p.1 = h) as Hl' by (intros q Hq; apply Hl; by right). specialize (IH Hl').
  rewrite !filter_cons. destruct (decide (jkey p.2 = Some k)) as [Hk|Hk].
  - rewrite decide_True by (apply Hl; [by left|done]). rewrite !fmap_cons, (filter_cons_True (fun j => jkey j = Some k)) by done. by f_equal.
  - destruct (decide (p.1 = h)); [|done]. by rewrite !fmap_cons, (filter_cons_False (fun j => jkey j = Some k)).
Qed.

Definition routed (n : Z) (p : nat * Job) : Prop :=
  (p.1 < Z.to_nat n)%nat /\ forall k, jkey p.2 = Some k -> p.1 = Z.to_nat (fnv32a k mod n).

Record pool_inv (n : Z) (w : world) : Prop := {
  pi_num : numWorkers (pool w) = n;
  pi_len : length (workers (pool w)) = Z.to_nat n;
  pi_submitting : forall g p, submitting w !! g = Some p -> routed n p;
  pi_accepted : forall p, p ∈ accepted w -> routed n p;
  pi_begun : forall p, p ∈ begun w -> p ∈ accepted w;
  pi_queue : forall i x, workers (pool w) !! i = Some x ->
    of_worker i (accepted w) = of_worker i (begun w) ++ jobs x /\ (length (jobs x) <= jobsCap)%nat;
  pi_running : forall i x j, workers (pool w) !! i = Some x -> ph x = Running j -> (i, j) ∈ begun w
}.

Lemma hashKey_routed n tp k i : (0 < n < 2 ^ 32)%Z -> numWorkers tp = n -> hashKey tp k = Some i ->
  i = Z.to_nat (fnv32a k mod n) /\ (i < Z.to_nat n)%nat.
Proof.
  intros Hn Hw. unfold hashKey. rewrite Hw. unfold uint32, wrapu. rewrite (Z.mod_small n) by lia.
  destruct (n =? 0)%Z; [done|]. intros [= <-]. split; [done|]. pose proof (Z.mod_pos_bound (fnv32a k) n). lia.
Qed.

Lemma chooseWorker_routed n tp key id tp' i : (0 < n < 2 ^ 32)%Z -> numWorkers tp = n ->
  chooseWorker tp key = Some (tp', i) -> routed n (i, mkJob id key) /\ workers tp' = workers tp /\ numWorkers tp' = n.
Proof.
  intros Hn Hw. unfold chooseWorker. destruct key as [k|].
  - destruct (hashKey tp k) as [i'|] eqn:Hh; [|done]. intros [= <- <-].
    destruct (hashKey_routed n tp k i' Hn Hw Hh) as [-> Hb]. split; [|done]. split; [done|]. by intros k' [= ->].
  - unfold nextWorkerIndex. rewrite Hw. assert (uint32 n = n) as -> by (unfold uint32, wrapu; apply Z.mod_small; lia).
    destruct (n =? 0)%Z; [done|]. intros [= <- <-]. split; [|done]. split; [|done]. cbn.
    match goal with |- context [(?a mod n)%Z] => pose proof (Z.mod_pos_bound a n) end. lia.
Qed.

Lemma initial_inv n : (0 < n < 2 ^ 32)%Z -> pool_inv n (initial n).
Proof.
  intros Hn. unfold initial, Start, NewTaskPool. destruct (n <=? 0)%Z eqn:E; [apply Z.leb_le in E; lia|].
  assert (forall i x, ((fun w : worker => mkWorker (jobs w) Idle) <$> replicate (Z.to_nat n) (mkWorker [] NotStarted)) !! i = Some x -> x = mkWorker [] Idle) as Hi.
  { intros i x. rewrite list_lookup_fmap_Some. intros (y & -> & [-> _]%lookup_replicate_1). done. }
  split; cbn -[jobsCap].
  - done.
  - by rewrite length_fmap, length_replicate.
  - intros g p. by rewrite lookup_empty.
  - intros p. by rewrite elem_of_nil.
  - intros p. by rewrite elem_of_nil.
  - intros i x ->%Hi. cbn. split; [done|]. unfold jobsCap. lia.
  - intros i x j ->%Hi. done.
Qed.

(** A step that changes one worker and leaves its queue *)
Lemma inv_phase n w i x p : pool_inv n w -> workers (pool w) !! i = Some x -> (forall j, p <> Running j) ->
  pool_inv n (on_pool w (set_worker (pool w) i (mkWorker (jobs x) p))).
Proof.
  intros [] Hx Hp. split; cbn; try done; [by rewrite length_insert| |].
  - intros i' y. rewrite list_lookup_insert_Some. intros [(<- & <- & _)|[_ Hy]]; cbn; eauto.
  - intros i' y j. rewrite list_lookup_insert_Some. intros [(<- & <- & _)|[_ Hy]] Hj; cbn in Hj; [by destruct (Hp j)|eauto].
Qed.

Lemma inv_pool n w tp : pool_inv n w -> workers tp = workers (pool w) -> numWorkers tp = n -> pool_inv n (on_pool w tp).
Proof. intros [] Hw Hn. split; cbn; rewrite ?Hw; done. Qed.

Lemma inv_pool_step n w w' : (0 < n < 2 ^ 32)%Z -> pool_inv n w -> step w w' -> pool_inv n w'.
Proof.
  intros Hn HI Hs. pose proof HI as [Hnum Hlen Hsub Hacc Hbeg Hq Hrun].
  destruct Hs as [g key id tp i Hg _ Hc|key tp i _ Hc|g i j x x' Hg Hx Hp|g Hg _|i x j rest Hx Hph Hj|i x j Hx Hj|i x Hx _ _| |_].
  - destruct (chooseWorker_routed n _ _ id _ _ Hn Hnum Hc) as (Hr & Hw & Hn'). split; cbn; rewrite ?Hw; try done.
    intros g' p. rewrite lookup_insert_Some. intros [[_ <-]|[_ Hp]]; eauto.
  - destruct (chooseWorker_routed n _ _ 0 _ _ Hn Hnum Hc) as (_ & Hw & Hn'). by apply inv_pool.
  - unfold push in Hp. destruct (length (jobs x) <? jobsCap)%nat eqn:Hl; [|done]. injection Hp as <-. apply Nat.ltb_lt in Hl.
    split; cbn; try done.
    + by rewrite length_insert.
    + intros g' p. rewrite lookup_delete_Some. intros [_ Hp]; eauto.
    + intros p [Hp| ->%list_elem_of_singleton]%elem_of_app; eauto.
    + intros p Hp. apply elem_of_app. left. auto.
    + intros i' y. rewrite list_lookup_insert_Some. destruct (Hq i x Hx) as [Hqx _]. intros [(<- & <- & _)|[Hne Hy]]; cbn.
      * rewrite of_worker_one, Hqx, length_app. cbn. split; [by rewrite app_assoc|lia].
      * rewrite of_worker_other by done. eauto.
    + intros i' y j'. rewrite list_lookup_insert_Some. intros [(<- & <- & _)|[_ Hy]] Hj'; eauto.
  - split; cbn; try done. intros g' p. rewrite lookup_delete_Some. intros [_ Hp]; eauto.
  - destruct (Hq i x Hx) as [Hqx Hlx]. rewrite Hj in Hqx, Hlx. cbn in Hlx. split; cbn; try done.
    + by rewrite length_insert.
    + intros p [Hp| ->%list_elem_of_singleton]%elem_of_app; [auto|].
      assert (j ∈ of_worker i (accepted w)) as Hin by (rewrite Hqx; set_solver).
      unfold of_worker in Hin. apply list_elem_of_fmap in Hin as ([i' j'] & -> & [Hi Hin]%list_elem_of_filter). cbn in *. by subst.
    + intros i' y. rewrite list_lookup_insert_Some. intros [(<- & <- & _)|[Hne Hy]]; cbn.
      * rewrite of_worker_one, Hqx. split; [by rewrite <-app_assoc|lia].
      * rewrite of_worker_other by done. eauto.
    + intros i' y j'. rewrite list_lookup_insert_Some. intros [(<- & <- & _)|[_ Hy]] Hj'; cbn in *; apply elem_of_app;
        [injection Hj' as <-; right; by left|left; eauto].
  - by apply inv_phase.
  - by apply inv_phase.
  - by apply inv_pool.
  - by apply inv_pool.
Qed.

Lemma reachable_pool_inv n w : (0 < n < 2 ^ 32)%Z -> reachable n w -> pool_inv n w.
Proof. intros Hn. apply (rtc_ind_r (pool_inv n)); [by apply initial_inv|]. intros. by eapply inv_pool_step. Qed.

(** When the queues are empty every accepted job has been begun, in the order of its key *)
Lemma pool_drained n w k : (0 < n < 2 ^ 32)%Z -> reachable n w -> (forall i x, workers (pool w) !! i = Some x -> jobs x = []) ->
  of_key k (begun w) = of_key k (accepted w).
Proof.
  intros Hn Hr He. destruct (reachable_pool_inv n w Hn Hr) as [Hnum Hlen Hsub Hacc Hbeg Hq Hrun].
  set (h := Z.to_nat (fnv32a k mod n)). assert (h < Z.to_nat n)%nat as Hh by (pose proof (Z.mod_pos_bound (fnv32a k) n); lia).
  destruct (lookup_lt_is_Some_2 (workers (pool w)) h) as [x Hx]; [lia|]. destruct (Hq h x Hx) as [Hqx _]. rewrite (He h x Hx), app_nil_r in Hqx.
  rewrite !(of_key_worker k h) by (intros p Hp Hk; by apply Hacc; auto). by rewrite Hqx.
Qed.

End TaskPoolLemmas.

(** C35: the task pool runs the jobs of a key one at a time and in order.  In every reachable state of a pool
    with fewer than 2^32 workers: the worker a submission goes to exists; the jobs of a key that were begun
    are, in order, the first of those its workers accepted, so that none is skipped, repeated or
    overtaken; and two workers never run jobs of the same key at the same time. *)
Theorem task_pool_serial_per_key (n : Z) (w : TaskPools.world) (k : string) :
  (0 < n < 2 ^ 32)%Z -> TaskPools.reachable n w ->
  (forall g i j, TaskPools.submitting w !! g = Some (i, j) -> is_Some (TaskPools.workers (TaskPools.pool w) !! i)) /\
  of_key k (TaskPools.begun w) `prefix_of` of_key k (TaskPools.accepted w) /\
  (forall i1 i2 x1 x2 j1 j2, TaskPools.workers (TaskPools.pool w) !! i1 = Some x1 -> TaskPools.workers (TaskPools.pool w) !! i2 = Some x2 ->
     TaskPools.ph x1 = TaskPools.Running j1 -> TaskPools.ph x2 = TaskPools.Running j2 ->
     TaskPools.jkey j1 = Some k -> TaskPools.jkey j2 = Some k -> i1 = i2).
Proof.
  intros Hn Hr. destruct (reachable_pool_inv n w Hn Hr) as [Hnum Hlen Hsub Hacc Hbeg Hq Hrun].
  set (h := Z.to_nat (fnv32a k mod n)).
  assert (h < Z.to_nat n)%nat as Hh by (pose proof (Z.mod_pos_bound (fnv32a k) n); lia).
  split_and!.
  - intros g i j [Hi _]%Hsub. apply lookup_lt_is_Some. cbn in Hi. lia.
  - destruct (lookup_lt_is_Some_2 (TaskPools.workers (TaskPools.pool w)) h) as [x Hx]; [lia|].
    destruct (Hq h x Hx) as [Hqx _].
    rewrite !(of_key_worker k h) by (intros p Hp Hk; by apply Hacc; auto).
    rewrite Hqx, filter_app. apply prefix_app_r. done.
  - intros i1 i2 x1 x2 j1 j2 H1 H2 P1 P2 K1 K2.
    assert (forall i x j, TaskPools.workers (TaskPools.pool w) !! i = Some x -> TaskPools.ph x = TaskPools.Running j ->
      TaskPools.jkey j = Some k -> i = h) as Hone.
    { intros i x j Hx Hp Hk. apply (proj2 (Hacc (i, j) (Hbeg _ (Hrun i x j Hx Hp))) k Hk). }
    by rewrite (Hone _ _ _ H1 P1 K1), (Hone _ _ _ H2 P2 K2).
Qed.

(** A run of a pool with two workers: one goroutine submits a job of the key ["a"], its worker begins it. *)
Module TaskPoolExample.
Import TaskPools.
Definition job : Job := mkJob 7 (Some "a"%string).
Definition w0 : world := initial 2.
Definition idx : nat := default 0 (hashKey (pool w0) "a").
Definition w1 : world := mkWorld (pool w0) {[ 0 := (idx, job) ]} [] [].
Definition w2 : world := mkWorld (set_worker (pool w0) idx (mkWorker [job] Idle)) ∅ [(idx, job)] [].
Definition w3 : world := mkWorld (set_worker (pool w2) idx (mkWorker [] (Running job))) ∅ [(idx, job)] [(idx, job)].
Lemma w3_reachable : reachable 2 w3.
Proof.
  eapply rtc_l; [apply (T_submit _ 0 (Some "a"%string) 7 (pool w0) idx); vm_compute; reflexivity|].
  eapply rtc_l; [apply (T_send _ 0 idx job (mkWorker [] Idle) (mkWorker [job] Idle)); vm_compute; reflexivity|].
  eapply rtc_l; [apply (T_take _ idx (mkWorker [job] Idle) job []); vm_compute; reflexivity|].
  replace w3 with (mkWorld (pool w3) (delete 0 (submitting w1)) (accepted w3) (begun w3)); [apply rtc_refl|reflexivity].
Qed.
End TaskPoolExample.

Lemma task_pool_serial_per_key_witness :
  of_key "a" (TaskPools.begun TaskPoolExample.w3) `prefix_of` of_key "a" (TaskPools.accepted TaskPoolExample.w3).
Proof.
  apply (task_pool_serial_per_key 2 TaskPoolExample.w3 "a").
  - lia.
  - exact TaskPoolExample.w3_reachable.
Defined.
