(* ===== verification/WorkerPool.v ===== *)
(** * Worker pool (util/workerpool)

    The pool that runs one batch of tasks for [SubmitAndWait], as the consensus manager uses it to write the
    shard records: a step relation of the goroutines of the batch, the workers and [Stop].  A task is a
    number; the error it returns is an argument.  A send on the closed channel is a flag of the state. *)

From S2P Require Import Prelude.

Module WorkerPools.

Record WorkerPool : Type := mkWP {
  numWorkers : nat;
  tasks : list nat;                           (* the channel of tasks, in order *)
  ctxDone : bool;
  chanClosed : bool;
  idle : nat;                                 (* workers waiting for a task *)
  running : list nat                          (* the tasks that workers are executing *)
}.

(** [New] *)
Definition New (n : Z) : WorkerPool := mkWP (if (n <=? 0)%Z then 1%nat else Z.to_nat n) [] false false 0 [].

Definition taskBufferSize (wp : WorkerPool) : nat := numWorkers wp * 2.

(** [Start] *)
Definition Start (wp : WorkerPool) : WorkerPool :=
  mkWP (numWorkers wp) (tasks wp) (ctxDone wp) (chanClosed wp) (numWorkers wp) (running wp).

Definition enqueue (wp : WorkerPool) (t : nat) : WorkerPool :=
  mkWP (numWorkers wp) (tasks wp ++ [t]) (ctxDone wp) (chanClosed wp) (idle wp) (running wp).
Definition set_work (wp : WorkerPool) (ts : list nat) (i : nat) (rs : list nat) : WorkerPool :=
  mkWP (numWorkers wp) ts (ctxDone wp) (chanClosed wp) i rs.

(** The two halves of [Stop] before it waits; [StopNow] has only the first *)
Definition cancel (wp : WorkerPool) : WorkerPool := mkWP (numWorkers wp) (tasks wp) true (chanClosed wp) (idle wp) (running wp).
Definition closeTasks (wp : WorkerPool) : WorkerPool := mkWP (numWorkers wp) (tasks wp) (ctxDone wp) true (idle wp) (running wp).

Section Batch.
Context {E : Type} (run : nat -> E) (ctxErr canceled : E).

(** A call of [SubmitAndWait]: the tasks whose goroutine is at the start of [Submit], past its check of the
    context, blocked on the full channel, and waiting for the result; the result channels that hold a
    value; and the results collected *)
Record batch : Type := mkBatch {
  pool : WorkerPool;
  fresh : list nat;
  checked : list nat;
  blocked : list nat;
  waiting : list nat;
  results : list (nat * E);
  collected : list (nat * E);
  panicked : bool
}.

Definition on_pool (b : batch) (wp : WorkerPool) : batch :=
  mkBatch wp (fresh b) (checked b) (blocked b) (waiting b) (results b) (collected b) (panicked b).

(** [step stops]: with [stops] the pool may be stopped meanwhile and the caller's context may end *)
Inductive step (stops : bool) (b : batch) : batch -> Prop :=
| S_check t l l' : fresh b = l ++ t :: l' -> ctxDone (pool b) = false ->
    step stops b (mkBatch (pool b) (l ++ l') (t :: checked b) (blocked b) (waiting b) (results b) (collected b) (panicked b))
| S_stopped t l l' : fresh b = l ++ t :: l' -> ctxDone (pool b) = true ->
    step stops b (mkBatch (pool b) (l ++ l') (checked b) (blocked b) (t :: waiting b) ((t, ctxErr) :: results b) (collected b) (panicked b))
| S_cancelled t l l' : checked b = l ++ t :: l' -> ctxDone (pool b) = true ->
    step stops b (mkBatch (pool b) (fresh b) (l ++ l') (blocked b) (t :: waiting b) ((t, ctxErr) :: results b) (collected b) (panicked b))
| S_send t l l' : checked b = l ++ t :: l' -> chanClosed (pool b) = false -> (length (tasks (pool b)) < taskBufferSize (pool b))%nat ->
    step stops b (mkBatch (enqueue (pool b) t) (fresh b) (l ++ l') (blocked b) (t :: waiting b) (results b) (collected b) (panicked b))
| S_send_closed t l l' : checked b = l ++ t :: l' -> chanClosed (pool b) = true ->
    step stops b (mkBatch (pool b) (fresh b) (l ++ l') (blocked b) (waiting b) (results b) (collected b) true)
| S_full t l l' : checked b = l ++ t :: l' -> chanClosed (pool b) = false -> ctxDone (pool b) = false ->
    (taskBufferSize (pool b) <= length (tasks (pool b)))%nat ->
    step stops b (mkBatch (pool b) (fresh b) (l ++ l') (t :: blocked b) (waiting b) (results b) (collected b) (panicked b))
| S_unblock t l l' : blocked b = l ++ t :: l' -> chanClosed (pool b) = false -> (length (tasks (pool b)) < taskBufferSize (pool b))%nat ->
    step stops b (mkBatch (enqueue (pool b) t) (fresh b) (checked b) (l ++ l') (t :: waiting b) (results b) (collected b) (panicked b))
| S_recover t l l' : blocked b = l ++ t :: l' -> chanClosed (pool b) = true ->
    step stops b (mkBatch (pool b) (fresh b) (checked b) (l ++ l') (t :: waiting b) ((t, canceled) :: results b) (collected b) (panicked b))
| S_take t ts n : tasks (pool b) = t :: ts -> idle (pool b) = Datatypes.S n ->
    step stops b (on_pool b (set_work (pool b) ts n (t :: running (pool b))))
| S_report t l l' : running (pool b) = l ++ t :: l' ->
    step stops b (mkBatch (set_work (pool b) (tasks (pool b)) (Datatypes.S (idle (pool b))) (l ++ l')) (fresh b) (checked b) (blocked b)
      (waiting b) ((t, run t) :: results b) (collected b) (panicked b))
| S_collect t e l l' r r' : waiting b = l ++ t :: l' -> results b = r ++ (t, e) :: r' ->
    step stops b (mkBatch (pool b) (fresh b) (checked b) (blocked b) (l ++ l') (r ++ r') (collected b ++ [(t, e)]) (panicked b))
| S_lost t l l' : stops = true -> running (pool b) = l ++ t :: l' -> ctxDone (pool b) = true ->
    step stops b (on_pool b (set_work (pool b) (tasks (pool b)) (idle (pool b)) (l ++ l')))
| S_worker_exits n : stops = true -> idle (pool b) = Datatypes.S n -> ctxDone (pool b) || (chanClosed (pool b) && bool_decide (tasks (pool b) = [])) = true ->
    step stops b (on_pool b (set_work (pool b) (tasks (pool b)) n (running (pool b))))
| S_caller_done t l l' : stops = true -> waiting b = l ++ t :: l' ->
    step stops b (mkBatch (pool b) (fresh b) (checked b) (blocked b) (l ++ l') (results b) (collected b ++ [(t, ctxErr)]) (panicked b))
| S_cancel : stops = true -> step stops b (on_pool b (cancel (pool b)))
| S_close : stops = true -> ctxDone (pool b) = true -> step stops b (on_pool b (closeTasks (pool b))).

(** [SubmitAndWait] of [n] tasks on a fresh pool of [k] workers *)
Definition initial (k : Z) (n : nat) : batch := mkBatch (Start (New k)) (seq 0 n) [] [] [] [] [] false.
Definition reachable (stops : bool) (k : Z) (n : nat) (b : batch) : Prop := rtc (step stops) (initial k n) b.

(** It returns when every goroutine has appended its result *)
Definition returned (b : batch) : bool :=
  bool_decide (fresh b = []) && bool_decide (checked b = []) && bool_decide (blocked b = []) && bool_decide (waiting b = []).

End Batch.
End WorkerPools.

(** ** A batch on a pool that is not stopped *)

Section BatchLemmas.
Import WorkerPools.
Context {E : Type} (run : nat -> E) (ctxErr canceled : E).
Implicit Types b : batch (E := E).

(** Every task of the batch, wherever it is *)
Definition all_tasks (b : batch (E := E)) : list nat :=
  fresh b ++ checked b ++ blocked b ++ tasks (pool b) ++ running (pool b) ++ (results b).*1 ++ (collected b).*1.

(** The tasks whose goroutine waits for the result *)
Definition submitted (b : batch (E := E)) : list nat := tasks (pool b) ++ running (pool b) ++ (results b).*1.

Definition weight (b : batch (E := E)) : nat :=
  6 * length (fresh b) + 5 * length (checked b) + 4 * length (blocked b) + 3 * length (tasks (pool b)) +
  2 * length (running (pool b)) + length (results b).

Record batch_inv (n : nat) (b : batch (E := E)) : Prop := {
  bi_open : ctxDone (pool b) = false /\ chanClosed (pool b) = false /\ panicked b = false;
  bi_workers : (1 <= numWorkers (pool b))%nat /\ (idle (pool b) + length (running (pool b)) = numWorkers (pool b))%nat;
  bi_all : all_tasks b ≡ₚ seq 0 n;
  bi_waiting : waiting b ≡ₚ submitted b;
  bi_results : Forall (fun p => p.2 = run p.1) (results b);
  bi_collected : Forall (fun p => p.2 = run p.1) (collected b)
}.

Lemma batch_inv_initial k n : batch_inv n (initial k n).
Proof.
  split; cbn; try done.
  - destruct (k <=? 0)%Z eqn:E'; cbn; [lia|]. apply Z.leb_gt in E'. lia.
  - unfold all_tasks. cbn. by rewrite !app_nil_r.
Qed.

Lemma batch_inv_step n b b' : batch_inv n b -> step run ctxErr canceled false b b' -> batch_inv n b' /\ (weight b' < weight b)%nat.
Proof.
  intros [(Ho & Hc & Hp) (Hw & Hi) Ha Hwt Hr Hcl] Hs. unfold all_tasks, submitted, weight in *.
  destruct Hs; try congruence; cbn in *;
    repeat match goal with H : _ = _ ++ _ :: _ |- _ => rewrite H in *; clear H | H : tasks _ = _ :: _ |- _ => rewrite H in *; clear H end;
    rewrite ?length_app in *; cbn in *; rewrite ?fmap_app, ?fmap_cons, ?fmap_nil in *; cbn in *.
  all: split; [split; unfold all_tasks, submitted; cbn; rewrite ?fmap_app, ?fmap_cons, ?fmap_nil, ?length_app; cbn; try done; try lia|rewrite ?length_app; cbn; try lia].
  all: try (rewrite <- Ha; solve_Permutation).
  all: try (rewrite Hwt; solve_Permutation).
  all: try (rewrite ?Forall_app, ?Forall_cons in *; cbn in *; firstorder (subst; auto)).
  apply (Permutation_cons_inv (a := t)). transitivity (l ++ t :: l'); [solve_Permutation|]. rewrite Hwt. solve_Permutation.
Qed.

Lemma batch_run n m b b' : batch_inv n b -> nsteps (step run ctxErr canceled false) m b b' ->
  batch_inv n b' /\ (m + weight b' <= weight b)%nat.
Proof.
  intros Hi Hs. revert Hi. induction Hs as [b|m b b1 b' Hs _ IH]; intros Hi; [split; [done|lia]|].
  destruct (batch_inv_step n b b1 Hi Hs) as [H1 Hlt]. destruct (IH H1). split; [done|lia].
Qed.

(** Nothing is left to do only when every goroutine has its result. *)
Lemma batch_stuck n b : batch_inv n b -> (forall b', ~ step run ctxErr canceled false b b') ->
  returned b = true /\ collected b ≡ₚ (fun t => (t, run t)) <$> seq 0 n.
Proof.
  intros [(Ho & Hc & Hp) (Hw & Hi) Ha Hwt Hr Hcl] Hn.
  assert (fresh b = []) as Hf. { destruct (fresh b) as [|t l] eqn:Hf; [done|]. edestruct Hn. by eapply (S_check _ _ _ _ _ t [] l). }
  assert (running (pool b) = []) as Hru. { destruct (running (pool b)) as [|t l] eqn:Hru; [done|]. edestruct Hn. by eapply (S_report _ _ _ _ _ t [] l). }
  assert (tasks (pool b) = []) as Ht.
  { destruct (tasks (pool b)) as [|t l] eqn:Ht; [done|]. rewrite Hru in Hi. cbn in Hi. edestruct Hn.
    eapply (S_take _ _ _ _ _ t l (idle (pool b) - 1)); [done|lia]. }
  assert (length (tasks (pool b)) < taskBufferSize (pool b))%nat as Hroom by (rewrite Ht; unfold taskBufferSize; cbn; lia).
  assert (checked b = []) as Hch. { destruct (checked b) as [|t l] eqn:Hch; [done|]. edestruct Hn. by eapply (S_send _ _ _ _ _ t [] l). }
  assert (blocked b = []) as Hb. { destruct (blocked b) as [|t l] eqn:Hb; [done|]. edestruct Hn. by eapply (S_unblock _ _ _ _ _ t [] l). }
  unfold submitted, all_tasks in *. rewrite ?Hf, ?Hch, ?Hb, ?Ht, ?Hru in *. cbn in *.
  assert (results b = []) as Hre.
  { destruct (results b) as [|[t e] r] eqn:Hre; [done|]. cbn in Hwt.
    assert (t ∈ waiting b) as (l & l' & Hl)%list_elem_of_split by (rewrite Hwt; by left).
    edestruct Hn. by eapply (S_collect _ _ _ _ _ t e l l' [] r). }
  rewrite Hre in *. cbn in *. apply Permutation_nil_r in Hwt.
  unfold returned. rewrite Hf, Hch, Hb, Hwt. split; [done|]. rewrite <- Ha, <- list_fmap_compose.
  rewrite (list_fmap_ext _ id) ; [by rewrite list_fmap_id|].
  intros i [t e] Hx. cbn. rewrite Forall_forall in Hcl. f_equal. symmetry. apply (Hcl (t, e)). by eapply list_elem_of_lookup_2.
Qed.

End BatchLemmas.

(** On a pool that is not stopped [SubmitAndWait] returns, with the result of every task, each executed
    once.  For any number of workers and tasks: a run has at most six steps per task; no goroutine panics;
    and a state with no further step is one in which the call has returned and the results are those of
    tasks [0] to [n - 1], each once, in some order.  So whatever the schedule the call returns. *)
Theorem SubmitAndWait_returns_all {E : Type} (run : nat -> E) (ctxErr canceled : E) (k : Z) (n m : nat) (b : WorkerPools.batch (E := E)) :
  nsteps (WorkerPools.step run ctxErr canceled false) m (WorkerPools.initial k n) b ->
  (m <= 6 * n)%nat /\ WorkerPools.panicked b = false /\
  ((forall b', ~ WorkerPools.step run ctxErr canceled false b b') ->
   WorkerPools.returned b = true /\ WorkerPools.collected b ≡ₚ (fun t => (t, run t)) <$> seq 0 n).
Proof.
  intros Hs. destruct (batch_run run ctxErr canceled n m _ b (batch_inv_initial run k n) Hs) as [Hi Hm].
  split_and!; [|apply Hi|by apply batch_stuck].
  unfold weight in Hm at 2. cbn in Hm. rewrite length_seq in Hm. lia.
Qed.

Lemma SubmitAndWait_returns_all_witness :
  exists b : WorkerPools.batch (E := nat),
    nsteps (WorkerPools.step (fun t => t + 10) 1 2 false) 5 (WorkerPools.initial 1 1) b /\
    WorkerPools.returned b = true /\ WorkerPools.collected b ≡ₚ [(0, 10)].
Proof.
  eexists. split.
  - eapply nsteps_l; [apply (WorkerPools.S_check _ _ _ _ _ 0 [] []); reflexivity|].
    eapply nsteps_l; [apply (WorkerPools.S_send _ _ _ _ _ 0 [] []); [reflexivity..|cbn; lia]|].
    eapply nsteps_l; [apply (WorkerPools.S_take _ _ _ _ _ 0 [] 0); reflexivity|].
    eapply nsteps_l; [apply (WorkerPools.S_report _ _ _ _ _ 0 [] []); reflexivity|].
    eapply nsteps_l; [apply (WorkerPools.S_collect _ _ _ _ _ 0 10 [] [] [] []); reflexivity|].
    apply nsteps_O.
  - refine (proj2 (proj2 (SubmitAndWait_returns_all (fun t => t + 10) 1 2 1 1 5 _ _)) _).
    + eapply nsteps_l; [apply (WorkerPools.S_check _ _ _ _ _ 0 [] []); reflexivity|].
      eapply nsteps_l; [apply (WorkerPools.S_send _ _ _ _ _ 0 [] []); [reflexivity..|cbn; lia]|].
      eapply nsteps_l; [apply (WorkerPools.S_take _ _ _ _ _ 0 [] 0); reflexivity|].
      eapply nsteps_l; [apply (WorkerPools.S_report _ _ _ _ _ 0 [] []); reflexivity|].
      eapply nsteps_l; [apply (WorkerPools.S_collect _ _ _ _ _ 0 10 [] [] [] []); reflexivity|].
      apply nsteps_O.
    + cbn. intros b' Hb. inversion Hb; cbn in *;
        repeat match goal with H : [] = ?l ++ _ |- _ => by destruct l | H : false = true |- _ => discriminate H | H : [] = _ :: _ |- _ => discriminate H end.
Defined.

(** ** A pool that is stopped while tasks are submitted *)

(** A [Submit] that has checked the context when [Stop] cancels it and closes the channel may choose the send of
    its [select], which is outside the recovery: the goroutine panics. *)
Theorem Submit_racing_Stop_panics {E : Type} (run : nat -> E) (ctxErr canceled : E) :
  exists b, WorkerPools.reachable run ctxErr canceled true 1 1 b /\ WorkerPools.panicked b = true.
Proof.
  eexists. split.
  - eapply rtc_l; [apply (WorkerPools.S_check _ _ _ _ _ 0 [] []); reflexivity|].
    eapply rtc_l; [apply WorkerPools.S_cancel; reflexivity|].
    eapply rtc_l; [apply WorkerPools.S_close; reflexivity|].
    eapply rtc_l; [apply (WorkerPools.S_send_closed _ _ _ _ _ 0 [] []); reflexivity|].
    apply rtc_refl.
  - reflexivity.
Qed.

(** [StopNow] strands a queued task: its result channel is never filled, so that [SubmitAndWait] returns only if
    the context of its caller ends. *)
Theorem StopNow_strands_queued_task {E : Type} (run : nat -> E) (ctxErr canceled : E) :
  exists b, WorkerPools.reachable run ctxErr canceled true 1 1 b /\ WorkerPools.idle (WorkerPools.pool b) = 0 /\
    WorkerPools.running (WorkerPools.pool b) = [] /\ WorkerPools.waiting b = [0] /\
    (forall b', WorkerPools.step run ctxErr canceled true b b' ->
       WorkerPools.results b' = [] /\ (WorkerPools.waiting b' = [0] \/ WorkerPools.collected b' = [(0, ctxErr)])).
Proof.
  eexists. split.
  - eapply rtc_l; [apply (WorkerPools.S_check _ _ _ _ _ 0 [] []); reflexivity|].
    eapply rtc_l; [apply (WorkerPools.S_send _ _ _ _ _ 0 [] []); [reflexivity..|cbn; lia]|].
    eapply rtc_l; [apply WorkerPools.S_cancel; reflexivity|].
    eapply rtc_l; [apply (WorkerPools.S_worker_exits _ _ _ _ _ 0); reflexivity|].
    apply rtc_refl.
  - cbn. split_and!; [reflexivity..|]. intros b' Hb. inversion Hb; cbn in *;
      repeat match goal with H : [] = ?l ++ _ |- _ => by destruct l | H : [_] = ?l ++ _ |- _ => destruct l as [|? []]; cbn in H; simplify_eq
        | H : false = true |- _ => discriminate H | H : [] = _ :: _ |- _ => discriminate H end; auto.
Qed.
