(* ===== verification/EtcdManager.v ===== *)
(** * Etcd manager (cluster/etcdmanager)

    The keys of a process that live under one shared lease: [RegisterKeyLease], [UnregisterKeyLease],
    [Close] and the goroutine [sharedLeaseLoop] with [maintainSharedLease], one step per call of the etcd
    client or critical section.  The lease service of etcd is the class [LeaseOps] with its documented laws
    [LeaseLaws] and an in-memory instance.  Every call of the service may fail before or after it took
    effect.  [RegisterKeyLease] and the first part of [UnregisterKeyLease] hold the mutex [sharedKeysMu]
    over their call of the service and are one step each: the calls of the loop do not read what the
    mutex protects. *)

From S2P Require Import Prelude GoStrings.

(** ** The lease service *)

Class LeaseOps (S : Type) : Type := {
  ls_get : S -> string -> option (string * Z);           (* value and lease of a key, lease 0 for none *)
  ls_granted : S -> Z -> bool;                           (* the lease has been granted once *)
  ls_live : S -> Z -> bool;
  ls_put : S -> string -> string -> Z -> S * bool;       (* refused when the lease is not live *)
  ls_delete : S -> string -> S;
  ls_grant : S -> Z -> S * Z;                            (* a lease with a TTL *)
  ls_revoke : S -> Z -> S                                (* also what expiry does *)
}.

Class LeaseLaws (S : Type) `{LeaseOps S} : Prop := {
  ls_put_live : forall s k v l, ls_live s l = true -> l <> 0%Z ->
    exists s', ls_put s k v l = (s', true) /\ ls_get s' k = Some (v, l) /\
      (forall k', k' <> k -> ls_get s' k' = ls_get s k') /\ (forall l', ls_live s' l' = ls_live s l') /\ (forall l', ls_granted s' l' = ls_granted s l');
  ls_put_dead : forall s k v l, ls_live s l = false -> l <> 0%Z -> ls_put s k v l = (s, false);
  ls_delete_spec : forall s k, ls_get (ls_delete s k) k = None /\
    (forall k', k' <> k -> ls_get (ls_delete s k) k' = ls_get s k') /\
    (forall l, ls_live (ls_delete s k) l = ls_live s l) /\ (forall l, ls_granted (ls_delete s k) l = ls_granted s l);
  ls_grant_spec : forall s ttl s' l, ls_grant s ttl = (s', l) ->
    l <> 0%Z /\ ls_granted s l = false /\ ls_live s' l = true /\ ls_granted s' l = true /\
    (forall l', l' <> l -> ls_live s' l' = ls_live s l') /\ (forall l', l' <> l -> ls_granted s' l' = ls_granted s l') /\
    (forall k, ls_get s' k = ls_get s k);
  ls_revoke_spec : forall s l, ls_live (ls_revoke s l) l = false /\
    (forall l', l' <> l -> ls_live (ls_revoke s l) l' = ls_live s l') /\ (forall l', ls_granted (ls_revoke s l) l' = ls_granted s l') /\
    (forall k, ls_get (ls_revoke s l) k = match ls_get s k with Some (v, l') => if (l' =? l)%Z then None else Some (v, l') | None => None end)
}.

(** The in-memory lease service: the keys, and the leases with whether they are live *)
Record LeaseMem : Type := mkLeases { lm_kv : gmap string (string * Z); lm_leases : gmap Z bool }.

Definition nextLease (m : gmap Z bool) : Z := (1 + foldr Z.max 0 (map_to_list m).*1)%Z.

Lemma nextLease_spec m : (0 < nextLease m)%Z /\ m !! nextLease m = None.
Proof.
  assert (forall ls : list Z, (0 <= foldr Z.max 0 ls)%Z /\ forall l, l ∈ ls -> (l <= foldr Z.max 0 ls)%Z) as Hmax.
  { induction ls as [|x ls [IH0 IH]]; cbn; [split; [lia|set_solver]|]. split; [lia|]. intros l [->|Hl%IH]%elem_of_cons; lia. }
  unfold nextLease. destruct (Hmax (map_to_list m).*1) as [H0 Hl]. split; [lia|]. destruct (m !! _) as [b|] eqn:E; [|done].
  apply elem_of_map_to_list in E. specialize (Hl _ (list_elem_of_fmap_2 fst _ _ E)). cbn in Hl. lia.
Qed.

#[global] Instance LeaseMem_ops : LeaseOps LeaseMem := {|
  ls_get s k := lm_kv s !! k;
  ls_granted s l := bool_decide (is_Some (lm_leases s !! l));
  ls_live s l := default false (lm_leases s !! l);
  ls_put s k v l :=
    if (l =? 0)%Z || default false (lm_leases s !! l) then (mkLeases (<[k := (v, l)]> (lm_kv s)) (lm_leases s), true) else (s, false);
  ls_delete s k := mkLeases (delete k (lm_kv s)) (lm_leases s);
  ls_grant s ttl := let l := nextLease (lm_leases s) in (mkLeases (lm_kv s) (<[l := true]> (lm_leases s)), l);
  ls_revoke s l := mkLeases (filter (fun p => p.2.2 <> l) (lm_kv s)) (alter (fun _ => false) l (lm_leases s))
|}.

#[global] Instance LeaseMem_laws : LeaseLaws LeaseMem.
Proof.
  split; cbn.
  - intros s k v l Hl Hl0. rewrite Hl, orb_true_r. eexists. split; [done|]. cbn. rewrite lookup_insert_eq. split_and!; try done.
    intros k' Hk. by rewrite lookup_insert_ne.
  - intros s k v l Hl Hl0. rewrite Hl. apply Z.eqb_neq in Hl0. by rewrite Hl0.
  - intros s k. rewrite lookup_delete_eq. split_and!; try done. intros k' Hk. by rewrite lookup_delete_ne.
  - intros s ttl s' l [= <- <-]. cbn. destruct (nextLease_spec (lm_leases s)) as [H0 Hn]. set (l := nextLease _) in *.
    rewrite lookup_insert_eq. split_and!; try done.
    + lia.
    + by rewrite Hn.
    + intros l' Hl'. by rewrite lookup_insert_ne.
    + intros l' Hl'. by rewrite lookup_insert_ne.
  - intros s l. split_and!.
    + rewrite lookup_alter_eq. by destruct (lm_leases s !! l).
    + intros l' Hl'. by rewrite lookup_alter_ne.
    + intros l'. apply bool_decide_ext. apply lookup_alter_is_Some.
    + intros k. rewrite map_lookup_filter. destruct (lm_kv s !! k) as [[v l']|]; cbn; [|done].
      destruct (Z.eqb_spec l' l) as [->|Hl]; [by rewrite option_guard_False by auto|by rewrite option_guard_True].
Qed.

Module EtcdManagers.

Definition DefaultPrefix : string := "/goverse".
Definition second : Z := 1000000000.
Definition DefaultEtcdTimeout : Z := 60 * second.

(** [WithEtcdDeadline]: the deadline of the returned context *)
Definition WithEtcdDeadline (now : Z) (deadline : option Z) : Z :=
  match deadline with
  | Some d => if (d - now <=? DefaultEtcdTimeout)%Z then d else (now + DefaultEtcdTimeout)%Z
  | None => (now + DefaultEtcdTimeout)%Z
  end.

(** [EtcdManager]: contexts are numbered; [cancelled] are those that are done *)
Record EtcdManager : Type := mkMgr {
  connected : bool;                           (* client != nil *)
  prefix : string;
  sharedLeaseID : Z;
  sharedLeaseCtx : nat;
  sharedLeaseCancel : option nat;             (* the context the function cancels, nil when None *)
  sharedLeaseRunning : bool;
  sharedKeys : gmap string string;
  nextCtx : nat;
  cancelled : gset nat
}.

(** [NewEtcdManager] *)
Definition NewEtcdManager (p : string) : EtcdManager :=
  let p := if bool_decide (p = "") then DefaultPrefix else p in
  mkMgr false p 0 0 None false ∅ 1 ∅.

(** [Connect], when the client can be created *)
Definition Connect (m : EtcdManager) : EtcdManager :=
  mkMgr true (prefix m) (sharedLeaseID m) (sharedLeaseCtx m) (sharedLeaseCancel m) (sharedLeaseRunning m) (sharedKeys m) (nextCtx m) (cancelled m).

Definition disconnect (m : EtcdManager) : EtcdManager :=
  mkMgr false (prefix m) (sharedLeaseID m) (sharedLeaseCtx m) (sharedLeaseCancel m) (sharedLeaseRunning m) (sharedKeys m) (nextCtx m) (cancelled m).
Definition set_lease (m : EtcdManager) (l : Z) : EtcdManager :=
  mkMgr (connected m) (prefix m) l (sharedLeaseCtx m) (sharedLeaseCancel m) (sharedLeaseRunning m) (sharedKeys m) (nextCtx m) (cancelled m).
Definition set_keys (m : EtcdManager) (ks : gmap string string) : EtcdManager :=
  mkMgr (connected m) (prefix m) (sharedLeaseID m) (sharedLeaseCtx m) (sharedLeaseCancel m) (sharedLeaseRunning m) ks (nextCtx m) (cancelled m).

(** A running loop: where it is, its retry delay and the TTL.  [c] is the context with which
    [maintainSharedLease] was called, [l] the lease it holds. *)
Inductive phase : Type :=
| Top                                         (* the check at the head of the loop *)
| ReadOld (c : nat)                           (* maintainSharedLease reads the previous lease *)
| RevokeOld (c : nat) (old : Z)
| Grant (c : nat)
| StoreID (c : nat) (l : Z)
| CopyKeys (c : nat) (l : Z)
| PutKeys (c : nat) (l : Z) (todo : list (string * string))
| StartKeepAlive (c : nat) (l : Z)
| Alive (c : nat) (l : Z)                     (* receiving from the keepalive channel *)
| CleanupRevoke (l : Z) (err : bool)          (* the deferred function of maintainSharedLease *)
| CleanupClear (l : Z) (err : bool)
| After (err : bool)                          (* the check after maintainSharedLease *)
| Sleep (c : nat).                            (* the wait before a retry *)

Record loop : Type := mkLoop { ttl : Z; retryDelay : Z; pc : phase }.
Definition goto (lp : loop) (p : phase) : loop := mkLoop (ttl lp) (retryDelay lp) p.

(** What a step of the loop observes: the outcome of a call, the order in which the copied map is ranged
    over, the closing of the keepalive channel, the end of its context *)
Inductive input : Type := Go (f : fault) | Order (ks : list (string * string)) | Closed | CtxDone.

Inductive outcome : Type := Next (lp : loop) | Exit | Panic.

Section Manager.
Context {S : Type} `{LeaseOps S}.

(** Calls of the service with their failures *)
Definition put (s : S) (k v : string) (l : Z) (f : fault) : S * bool :=
  match f with NoFault => ls_put s k v l | FailBefore _ => (s, false) | FailAfter _ => ((ls_put s k v l).1, false) end.
Definition del (s : S) (k : string) (f : fault) : S :=
  match f with FailBefore _ => s | _ => ls_delete s k end.
Definition grant (s : S) (t : Z) (f : fault) : S * option Z :=
  match f with NoFault => let '(s, l) := ls_grant s t in (s, Some l) | FailBefore _ => (s, None) | FailAfter _ => ((ls_grant s t).1, None) end.
Definition revoke (s : S) (l : Z) (f : fault) : S :=
  match f with FailBefore _ => s | _ => ls_revoke s l end.
Definition ok (f : fault) : bool := match f with NoFault => true | _ => false end.

(** [sharedLeaseLoop] and [maintainSharedLease] from one call to the next; [None] when the goroutine is not
    ready for the input *)
Definition loopStep (m : EtcdManager) (s : S) (lp : loop) (i : input) : option (EtcdManager * S * outcome) :=
  let go p := Some (m, s, Next (goto lp p)) in
  match pc lp, i with
  | Top, Go _ => if bool_decide (sharedLeaseCtx m ∈ cancelled m) then Some (m, s, Exit) else go (ReadOld (sharedLeaseCtx m))
  | ReadOld c, Go _ =>
      if negb (connected m) then go (After true)
      else if (sharedLeaseID m =? 0)%Z then go (Grant c) else go (RevokeOld c (sharedLeaseID m))
  | RevokeOld c old, Go f =>
      if negb (connected m) then Some (m, s, Panic) else Some (m, revoke s old f, Next (goto lp (Grant c)))
  | Grant c, Go f =>
      if negb (connected m) then Some (m, s, Panic)
      else match grant s (ttl lp) f with
           | (s, Some l) => Some (m, s, Next (goto lp (StoreID c l)))
           | (s, None) => Some (m, s, Next (goto lp (After true)))
           end
  | StoreID c l, Go _ => Some (set_lease m l, s, Next (goto lp (CopyKeys c l)))
  | CopyKeys c l, Order ks => if bool_decide (ks ≡ₚ map_to_list (sharedKeys m)) then go (PutKeys c l ks) else None
  | PutKeys c l [], Go _ => go (StartKeepAlive c l)
  | PutKeys c l ((k, v) :: todo), Go f =>
      if negb (connected m) then Some (m, s, Panic)
      else match put s k v l f with
           | (s, true) => Some (m, s, Next (goto lp (PutKeys c l todo)))
           | (s, false) => Some (m, s, Next (goto lp (CleanupRevoke l true)))
           end
  | StartKeepAlive c l, Go f =>
      if negb (connected m) then Some (m, s, Panic)
      else if ok f then go (Alive c l) else go (CleanupRevoke l true)
  | Alive c l, Go _ => go (Alive c l)
  | Alive c l, Closed => go (CleanupRevoke l true)
  | Alive c l, CtxDone => if bool_decide (c ∈ cancelled m) then go (CleanupRevoke l false) else None
  | CleanupRevoke l err, Go f =>
      if negb (connected m) then Some (m, s, Panic) else Some (m, revoke s l f, Next (goto lp (CleanupClear l err)))
  | CleanupClear l err, Go _ =>
      Some (if (sharedLeaseID m =? l)%Z then set_lease m 0 else m, s, Next (goto lp (After err)))
  | After err, Go _ =>
      if bool_decide (sharedLeaseCtx m ∈ cancelled m) then Some (m, s, Exit)
      else if err then go (Sleep (sharedLeaseCtx m))
      else Some (m, s, Next (mkLoop (ttl lp) second Top))
  | Sleep c, Go _ =>
      let d := (retryDelay lp * 2)%Z in
      Some (m, s, Next (mkLoop (ttl lp) (if (8 * second <? d)%Z then (8 * second)%Z else d) Top))
  | Sleep c, CtxDone => if bool_decide (c ∈ cancelled m) then Some (m, s, Exit) else None
  | _, _ => None
  end.

(** The goroutine that waits for the loops in [UnregisterKeyLease] or [Close], and whether [Wait] has returned *)
Inductive waiter : Type := WUnregister (released : bool) | WClose (released : bool).

(** The manager with the lease service, the running loops, which the wait group counts, the goroutines inside
    [RegisterKeyLease] past its check, and those that wait *)
Record world : Type := mkWorld {
  mgr : EtcdManager;
  store : S;
  loops : gmap nat loop;
  entering : nat;
  waiting : list waiter;
  panicked : bool
}.

Definition sharedLeaseLoop (t : Z) : loop := mkLoop t second Top.

(** [RegisterKeyLease] after its check, under the mutex *)
Definition registerLocked (w : world) (n : nat) (key value : string) (t : Z) (f : fault) : world :=
  let m := set_keys (mgr w) (<[key := value]> (sharedKeys (mgr w))) in
  let '(m, ls) :=
    if sharedLeaseRunning m then (m, loops w)
    else (mkMgr (connected m) (prefix m) (sharedLeaseID m) (nextCtx m) (Some (nextCtx m)) true (sharedKeys m) (Datatypes.S (nextCtx m)) (cancelled m),
          <[n := sharedLeaseLoop t]> (loops w)) in
  if (sharedLeaseID m =? 0)%Z then mkWorld m (store w) ls (entering w - 1) (waiting w) (panicked w)
  else if negb (connected m) then mkWorld m (store w) ls (entering w - 1) (waiting w) true
  else mkWorld m (put (store w) key value (sharedLeaseID m) f).1 ls (entering w - 1) (waiting w) (panicked w).

(** Cancelling the context of the loop *)
Definition cancelLease (m : EtcdManager) (run : bool) (clear : bool) : EtcdManager :=
  mkMgr (connected m) (prefix m) (sharedLeaseID m) (sharedLeaseCtx m) (if clear then None else sharedLeaseCancel m) run (sharedKeys m) (nextCtx m)
    (match sharedLeaseCancel m with Some c => {[ c ]} ∪ cancelled m | None => cancelled m end).

(** [UnregisterKeyLease] up to its wait, or to its end when it does not wait *)
Definition unregisterLocked (w : world) (key : string) (f : fault) : world :=
  let m := set_keys (mgr w) (delete key (sharedKeys (mgr w))) in
  let s := if connected m then del (store w) key f else store w in
  if bool_decide (sharedKeys m = ∅) && sharedLeaseRunning m
  then mkWorld (cancelLease m false false) s (loops w) (entering w) (waiting w ++ [WUnregister false]) (panicked w)
  else mkWorld m s (loops w) (entering w) (waiting w) (panicked w).

(** [Close] up to its wait *)
Definition closeLocked (w : world) : world :=
  mkWorld (cancelLease (mgr w) false true) (store w) (loops w) (entering w) (waiting w ++ [WClose false]) (panicked w).

(** What follows the wait *)
Definition finish (w : world) (x : waiter) (f : fault) (rest : list waiter) : world :=
  match x with
  | WUnregister _ =>
      if negb (sharedLeaseID (mgr w) =? 0)%Z && connected (mgr w)
      then mkWorld (set_lease (mgr w) 0) (revoke (store w) (sharedLeaseID (mgr w)) f) (loops w) (entering w) rest (panicked w)
      else mkWorld (mgr w) (store w) (loops w) (entering w) rest (panicked w)
  | WClose _ => mkWorld (disconnect (mgr w)) (store w) (loops w) (entering w) rest (panicked w)
  end.

Definition released (x : waiter) : bool := match x with WUnregister b | WClose b => b end.
Definition release (x : waiter) : waiter := match x with WUnregister _ => WUnregister true | WClose _ => WClose true end.

(** The steps of the goroutines, and the expiry of a lease *)
Inductive label : Type :=
| LEnter
| LRegister (n : nat) (key value : string) (t : Z) (f : fault)
| LUnregister (key : string) (f : fault)
| LClose
| LRelease (i : nat)
| LFinish (i : nat) (f : fault)
| LLoop (n : nat) (i : input)
| LExpire (l : Z).

Definition exec (w : world) (a : label) : option world :=
  match a with
  | LEnter => if connected (mgr w) then Some (mkWorld (mgr w) (store w) (loops w) (Datatypes.S (entering w)) (waiting w) (panicked w)) else None
  | LRegister n key value t f =>
      if (0 <? entering w)%nat && bool_decide (loops w !! n = None) then Some (registerLocked w n key value t f) else None
  | LUnregister key f => Some (unregisterLocked w key f)
  | LClose => Some (closeLocked w)
  | LRelease i =>
      x ← waiting w !! i;
      if bool_decide (loops w = ∅) then Some (mkWorld (mgr w) (store w) (loops w) (entering w) (<[i := release x]> (waiting w)) (panicked w)) else None
  | LFinish i f => x ← waiting w !! i; if released x then Some (finish w x f (delete i (waiting w))) else None
  | LLoop n i =>
      lp ← loops w !! n; r ← loopStep (mgr w) (store w) lp i;
      let '(m, s, o) := r in
      Some match o with
           | Next lp' => mkWorld m s (<[n := lp']> (loops w)) (entering w) (waiting w) (panicked w)
           | Exit => mkWorld m s (delete n (loops w)) (entering w) (waiting w) (panicked w)
           | Panic => mkWorld m s (delete n (loops w)) (entering w) (waiting w) true
           end
  | LExpire l => Some (mkWorld (mgr w) (ls_revoke (store w) l) (loops w) (entering w) (waiting w) (panicked w))
  end.

Fixpoint execs (w : world) (l : list label) : option world :=
  match l with [] => Some w | a :: l => w' ← exec w a; execs w' l end.

(** A connected manager on an empty lease service, or on any other *)
Definition initial (p : string) (s : S) : world := mkWorld (Connect (NewEtcdManager p)) s ∅ 0 [] false.

End Manager.
End EtcdManagers.

(** The context of an etcd call ends within a minute, and not after the one of the caller. *)
Theorem WithEtcdDeadline_bound (now : Z) (d : option Z) :
  (EtcdManagers.WithEtcdDeadline now d <= now + EtcdManagers.DefaultEtcdTimeout)%Z /\
  (forall x, d = Some x -> (EtcdManagers.WithEtcdDeadline now d <= x)%Z).
Proof.
  unfold EtcdManagers.WithEtcdDeadline. destruct d as [d|]; [|split; [lia|done]].
  destruct (Z.leb_spec (d - now) EtcdManagers.DefaultEtcdTimeout); (split; [lia|]); intros x [= <-]; lia.
Qed.

(** Case analysis on every [match] of a hypothesis, keeping the equations *)
Ltac split_in H := repeat match type of H with context [match ?x with _ => _ end] => let E := fresh "E" in destruct x eqn:E; try discriminate H end.

(** Inversion of a step *)
Ltac exec_in H := cbn in H; repeat (apply bind_Some in H as (? & ? & H)); split_in H; simplify_eq.

(** ** Calls of the lease service *)

Section ServiceLemmas.
Import EtcdManagers.
Context {S : Type} `{LeaseLaws S}.
Implicit Types s : S.

Lemma put_cases s k v l f : l <> 0%Z ->
  (put s k v l f = (s, false) /\ (ls_live s l = true -> f <> NoFault)) \/
  (ls_live s l = true /\ exists s' b, put s k v l f = (s', b) /\ (f = NoFault -> b = true) /\ ls_get s' k = Some (v, l) /\
    (forall k', k' <> k -> ls_get s' k' = ls_get s k') /\ (forall l', ls_live s' l' = ls_live s l') /\ (forall l', ls_granted s' l' = ls_granted s l')).
Proof.
  intros Hl. destruct (ls_live s l) eqn:Hlive.
  - destruct (ls_put_live s k v l Hlive Hl) as (s' & Hp & ? & ? & ? & ?).
    destruct f; cbn; rewrite ?Hp; cbn; [right|left|right]; [|naive_solver|]; (split; [done|]); do 2 eexists; (split; [done|]); naive_solver.
  - left. pose proof (ls_put_dead s k v l Hlive Hl) as Hp. destruct f; cbn; rewrite ?Hp; naive_solver.
Qed.

(** A put changes at most its key, and only to its value *)
Lemma put_frame s k v l f : l <> 0%Z ->
  (forall l', ls_live (put s k v l f).1 l' = ls_live s l') /\ (forall l', ls_granted (put s k v l f).1 l' = ls_granted s l') /\
  (forall k', ls_get (put s k v l f).1 k' = ls_get s k' \/ (k' = k /\ ls_live s l = true /\ ls_get (put s k v l f).1 k' = Some (v, l))).
Proof.
  intros Hl. destruct (put_cases s k v l f Hl) as [[-> _]|(Hlive & s' & b & -> & _ & Hk & Hk' & ? & ?)]; cbn; [naive_solver|].
  split_and!; [done..|]. intros k'. destruct (decide (k' = k)) as [->|]; [right; done|left; auto].
Qed.

Lemma del_frame s k f :
  (forall l, ls_live (del s k f) l = ls_live s l) /\ (forall l, ls_granted (del s k f) l = ls_granted s l) /\
  (forall k', ls_get (del s k f) k' = ls_get s k' \/ (k' = k /\ ls_get (del s k f) k' = None)).
Proof.
  destruct (ls_delete_spec s k) as (Hk & Hk' & ? & ?).
  assert (forall k', ls_get (ls_delete s k) k' = ls_get s k' \/ (k' = k /\ ls_get (ls_delete s k) k' = None)) as Hd.
  { intros k'. destruct (decide (k' = k)) as [->|]; [right; done|left; auto]. }
  destruct f; cbn; naive_solver.
Qed.

(** A revocation removes keys and one lease *)
Lemma revoke_frame s l f :
  (forall l', ls_live (revoke s l f) l' = true -> ls_live s l' = true) /\ (forall l', ls_granted (revoke s l f) l' = ls_granted s l') /\
  (forall l', l' <> l -> ls_live (revoke s l f) l' = ls_live s l') /\
  (forall k v l', ls_get (revoke s l f) k = Some (v, l') -> ls_get s k = Some (v, l')) /\
  (forall k v l', l' <> l -> ls_get s k = Some (v, l') -> ls_get (revoke s l f) k = Some (v, l')).
Proof.
  destruct (ls_revoke_spec s l) as (Hl & Hl' & Hg & Hk).
  assert (forall l', ls_live (ls_revoke s l) l' = true -> ls_live s l' = true).
  { intros l' Hlive. destruct (decide (l' = l)) as [->|Hn]; [congruence|]. by rewrite Hl' in Hlive. }
  assert (forall k v l', ls_get (ls_revoke s l) k = Some (v, l') -> ls_get s k = Some (v, l')).
  { intros k v l'. rewrite Hk. destruct (ls_get s k) as [[v' l'']|]; [|done]. by destruct (l'' =? l)%Z. }
  assert (forall k v l', l' <> l -> ls_get s k = Some (v, l') -> ls_get (ls_revoke s l) k = Some (v, l')).
  { intros k v l' Hn Hg'. rewrite Hk, Hg'. by rewrite (proj2 (Z.eqb_neq l' l) Hn). }
  destruct f; cbn; split_and!; auto.
Qed.

Lemma revoke_done s l f : (forall e, f <> FailBefore e) ->
  ls_live (revoke s l f) l = false /\ forall k v, ls_get (revoke s l f) k <> Some (v, l).
Proof.
  intros Hf. destruct (ls_revoke_spec s l) as (Hl & _ & _ & Hk).
  assert (forall k v, ls_get (ls_revoke s l) k <> Some (v, l)) as Hn.
  { intros k v. rewrite Hk. destruct (ls_get s k) as [[v' l'']|]; [|done]. destruct (Z.eqb_spec l'' l); congruence. }
  destruct f; cbn; [done|by destruct (Hf msg)|done].
Qed.

(** A grant adds a lease that was never used *)
Lemma grant_cases s t f s' r : grant s t f = (s', r) ->
  (forall k, ls_get s' k = ls_get s k) /\ (forall l, ls_granted s l = true -> ls_granted s' l = true /\ ls_live s' l = ls_live s l) /\
  (f = NoFault -> is_Some r) /\
  (forall l, r = Some l -> l <> 0%Z /\ ls_granted s l = false /\ ls_granted s' l = true /\ ls_live s' l = true).
Proof.
  destruct (ls_grant s t) as [s1 l1] eqn:Hg. destruct (ls_grant_spec s t s1 l1 Hg) as (Hz & Hng & Hlv & Hgr & Hl' & Hg' & Hk).
  assert (forall l, ls_granted s l = true -> ls_granted s1 l = true /\ ls_live s1 l = ls_live s l).
  { intros l Hl. assert (l <> l1) by congruence. rewrite Hg', Hl' by done. done. }
  unfold grant. rewrite Hg. cbn. destruct f; intros [= <- <-]; split_and!; try done; naive_solver.
Qed.

End ServiceLemmas.

(** ** The keys of a stopped manager are gone *)

Section Stopped.
Import EtcdManagers.
Context {S : Type} `{LeaseLaws S}.
Implicit Types w : world (S := S).

(** The lease a phase holds *)
Definition held (p : phase) : option Z :=
  match p with
  | StoreID _ l | CopyKeys _ l | PutKeys _ l _ | StartKeepAlive _ l | Alive _ l | CleanupRevoke l _ => Some l
  | _ => None
  end.

Definition holds (ls : gmap nat loop) (l : Z) : Prop := exists n lp, ls !! n = Some lp /\ held (pc lp) = Some l.

(** The one failure that leaves keys behind: the revocation with which a loop gives its lease up *)
Definition cleanup_ok (w : world (S := S)) (a : label) : Prop :=
  match a with
  | LLoop n (Go (FailBefore _)) => forall lp l e, loops w !! n = Some lp -> pc lp <> CleanupRevoke l e
  | _ => True
  end.

Definition runs_with (P : world (S := S) -> label -> Prop) : world (S := S) -> world (S := S) -> Prop :=
  rtc (fun w w' => exists a, P w a /\ exec w a = Some w').

Record stop_inv (s0 : S) (w : world (S := S)) : Prop := {
  si_granted : forall l, ls_granted s0 l = true -> ls_granted (store w) l = true;
  si_held : forall l, holds (loops w) l -> l <> 0%Z /\ ls_granted s0 l = false /\ ls_granted (store w) l = true;
  si_shared : sharedLeaseID (mgr w) <> 0%Z ->
    ls_granted s0 (sharedLeaseID (mgr w)) = false /\ ls_granted (store w) (sharedLeaseID (mgr w)) = true /\
    (ls_live (store w) (sharedLeaseID (mgr w)) = true -> holds (loops w) (sharedLeaseID (mgr w)));
  si_keys : forall k v l, ls_get (store w) k = Some (v, l) -> l <> 0%Z -> ls_granted s0 l = false -> holds (loops w) l
}.

Lemma holds_insert_new ls n lp l : ls !! n = None -> holds ls l -> holds (<[n := lp]> ls) l.
Proof. intros Hn (n' & lp' & Hl & Hh). exists n', lp'. rewrite lookup_insert_ne by congruence. done. Qed.

Lemma holds_new_top ls n t l : holds (<[n := sharedLeaseLoop t]> ls) l -> holds ls l.
Proof.
  intros (n' & lp' & Hl & Hh). rewrite lookup_insert_Some in Hl. destruct Hl as [[_ <-]|[_ Hl]]; [done|]. by exists n', lp'.
Qed.

(** A step of a loop that keeps what it holds, or that gives up a lease [l0] *)
Lemma holds_step ls n lp lp' l : ls !! n = Some lp -> holds ls l -> held (pc lp) = held (pc lp') \/ held (pc lp) = None \/ held (pc lp) <> Some l ->
  holds (<[n := lp']> ls) l.
Proof.
  intros Hn (n' & x & Hx & Hh) Hc. destruct (decide (n' = n)) as [->|Hne].
  - simplify_eq. exists n, lp'. rewrite lookup_insert_eq. split; [done|]. destruct Hc as [Hc|[Hc|Hc]]; congruence.
  - exists n', x. by rewrite lookup_insert_ne.
Qed.

Lemma holds_step_inv ls n lp' l : holds (<[n := lp']> ls) l -> held (pc lp') = Some l \/ holds ls l.
Proof. intros (n' & x & Hx & Hh). rewrite lookup_insert_Some in Hx. destruct Hx as [[_ <-]|[_ Hx]]; [by left|right; by exists n', x]. Qed.

Lemma holds_delete ls n lp l : ls !! n = Some lp -> held (pc lp) = None -> holds ls l -> holds (delete n ls) l.
Proof.
  intros Hn Hh (n' & x & Hx & Hl). exists n', x. rewrite lookup_delete_ne; [done|]. intros <-. congruence.
Qed.

Lemma holds_delete_inv ls n l : holds (delete n ls) l -> holds ls l.
Proof. intros (n' & x & Hx & Hl). apply lookup_delete_Some in Hx as [_ Hx]. by exists n', x. Qed.

(** A change of the service that grants nothing and adds keys only under leases that are held *)
Lemma stop_inv_store s0 w s' en ws pk : stop_inv s0 w ->
  (forall l, ls_granted s' l = ls_granted (store w) l) -> (forall l, ls_live s' l = true -> ls_live (store w) l = true) ->
  (forall k v l, ls_get s' k = Some (v, l) -> ls_get (store w) k = Some (v, l) \/ holds (loops w) l) ->
  stop_inv s0 (mkWorld (mgr w) s' (loops w) en ws pk).
Proof.
  intros [Hg Hh Hs Hk] G L K. split; cbn.
  - intros l Hl. rewrite G. auto.
  - intros l Hl. rewrite G. auto.
  - intros Hne. rewrite G. destruct (Hs Hne) as (? & ? & ?). split_and!; auto.
  - intros k v l Hkl. destruct (K k v l Hkl); eauto.
Qed.

(** A change of the manager that keeps the lease, forgets it or stores one that is held *)
Lemma stop_inv_mgr s0 w m' en ws pk : stop_inv s0 w ->
  sharedLeaseID m' = sharedLeaseID (mgr w) \/ sharedLeaseID m' = 0%Z \/ holds (loops w) (sharedLeaseID m') ->
  stop_inv s0 (mkWorld m' (store w) (loops w) en ws pk).
Proof. intros [Hg Hh Hs Hk] [Hm|[Hm|Hm]]; split; cbn; rewrite ?Hm; try done. intros _. destruct (Hh _ Hm) as (? & ? & ?). auto. Qed.

(** A loop goes on with what it holds *)
Lemma stop_inv_next s0 w n lp lp' en ws pk : stop_inv s0 w -> loops w !! n = Some lp -> held (pc lp') = held (pc lp) ->
  stop_inv s0 (mkWorld (mgr w) (store w) (<[n := lp']> (loops w)) en ws pk).
Proof.
  intros [Hg Hh Hs Hk] Hn He.
  assert (forall l, holds (<[n := lp']> (loops w)) l <-> holds (loops w) l) as Hiff.
  { intros l. split; [intros [Hl|Hl]%holds_step_inv; [exists n, lp; rewrite <- He; done|done]|]. intros Hl. eapply holds_step; eauto. }
  split; cbn; [done|intros l; rewrite Hiff; auto|intros Hne; rewrite Hiff; auto|intros k v l; rewrite Hiff; eauto].
Qed.

Lemma stop_inv_next' s0 m s ls n lp lp' en ws pk : ls !! n = Some lp -> held (pc lp') = held (pc lp) -> stop_inv s0 (mkWorld m s ls en ws pk) ->
  stop_inv s0 (mkWorld m s (<[n := lp']> ls) en ws pk).
Proof. intros Hn He Hi. by apply (stop_inv_next s0 (mkWorld m s ls en ws pk) n lp). Qed.

Lemma stop_inv_exit s0 w n lp en ws pk : stop_inv s0 w -> loops w !! n = Some lp -> held (pc lp) = None ->
  stop_inv s0 (mkWorld (mgr w) (store w) (delete n (loops w)) en ws pk).
Proof.
  intros [Hg Hh Hs Hk] Hn He.
  assert (forall l, holds (delete n (loops w)) l <-> holds (loops w) l) as Hiff.
  { intros l. split; [apply holds_delete_inv|]. by eapply holds_delete. }
  split; cbn; [done|intros l; rewrite Hiff; auto|intros Hne; rewrite Hiff; auto|intros k v l; rewrite Hiff; eauto].
Qed.

(** A revocation by a loop of the lease it holds, which it then gives up *)
Lemma stop_inv_cleanup s0 w n lp l lp' f en ws pk : stop_inv s0 w -> loops w !! n = Some lp -> held (pc lp) = Some l -> held (pc lp') = None ->
  (forall e, f <> FailBefore e) -> stop_inv s0 (mkWorld (mgr w) (revoke (store w) l f) (<[n := lp']> (loops w)) en ws pk).
Proof.
  intros [Hg Hh Hs Hk] Hn Hl Hl' Hf. destruct (revoke_frame (store w) l f) as (L & G & _ & K & _). destruct (revoke_done (store w) l f Hf) as [Hd Hno].
  assert (forall l', l' <> l -> holds (loops w) l' -> holds (<[n := lp']> (loops w)) l') as Hkeep.
  { intros l' Hne Hx. eapply holds_step; [done..|]. right. right. congruence. }
  split; cbn.
  - intros l1. rewrite G. auto.
  - intros l1 [?|Hx]%holds_step_inv; [congruence|]. rewrite G. auto.
  - intros Hne. rewrite G. destruct (Hs Hne) as (? & ? & Hlive). split_and!; [done..|]. intros Hl1. apply Hkeep; [congruence|auto].
  - intros k v l1 Hkl Hl1 Hg1. apply Hkeep; [intros ->; by destruct (Hno k v)|]. eauto.
Qed.

Lemma stop_inv_grant s0 w n lp lp' f s' r : stop_inv s0 w -> loops w !! n = Some lp -> held (pc lp) = None ->
  grant (store w) (ttl lp) f = (s', r) -> held (pc lp') = r ->
  stop_inv s0 (mkWorld (mgr w) s' (<[n := lp']> (loops w)) (entering w) (waiting w) (panicked w)).
Proof.
  intros [Hg Hh Hs Hk] Hn Hl Hgr Hl'. destruct (grant_cases (store w) (ttl lp) f s' r Hgr) as (K & G & _ & Hr).
  assert (forall l, holds (loops w) l -> holds (<[n := lp']> (loops w)) l) as Hkeep by (intros l Hx; eapply holds_step; eauto).
  split; cbn.
  - intros l Hl0. apply G. auto.
  - intros l [Hx|Hx]%holds_step_inv.
    + rewrite Hl' in Hx. destruct (Hr l Hx) as (? & Hng & ? & ?). split_and!; try done.
      destruct (ls_granted s0 l) eqn:E0; [|done]. apply Hg in E0. congruence.
    + destruct (Hh l Hx) as (? & ? & Hx'). split_and!; try done. by apply G.
  - intros Hne. destruct (Hs Hne) as (? & Hx & Hlive). destruct (G _ Hx) as [? ->]. auto.
  - intros k v l. rewrite K. intros. apply Hkeep. eauto.
Qed.

(** A put under a lease that is held or shared *)
Lemma stop_inv_put s0 w k v l f s' b en ws pk : stop_inv s0 w -> holds (loops w) l -> put (store w) k v l f = (s', b) ->
  stop_inv s0 (mkWorld (mgr w) s' (loops w) en ws pk).
Proof.
  intros Hi Hl Hp. destruct (si_held _ _ Hi l Hl) as (Hl0 & _). destruct (put_frame (store w) k v l f Hl0) as (L & G & K).
  rewrite Hp in L, G, K. cbn in *. apply stop_inv_store; [done..|intros l'; rewrite L; auto|].
  intros k' v' l' Hk'. destruct (K k') as [Hx|(_ & _ & Hx)]; [left; rewrite <- Hx; done|right]. rewrite Hx in Hk'. by injection Hk' as <- <-.
Qed.

Lemma stop_inv_register s0 w n k v t f : stop_inv s0 w -> loops w !! n = None -> stop_inv s0 (registerLocked w n k v t f).
Proof.
  intros Hi Hn. unfold registerLocked.
  assert (forall m' ls s' en ws pk, sharedLeaseID m' = sharedLeaseID (mgr w) -> ls = loops w \/ ls = <[n := sharedLeaseLoop t]> (loops w) ->
    s' = store w \/ (sharedLeaseID (mgr w) <> 0%Z /\ s' = (put (store w) k v (sharedLeaseID (mgr w)) f).1) -> stop_inv s0 (mkWorld m' s' ls en ws pk)) as Hgen.
  { intros m' ls s' en ws pk Hm Hls Hs.
    assert (stop_inv s0 (mkWorld m' s' (loops w) en ws pk)) as Hi1.
    { destruct Hs as [->|[Hne ->]]; [by apply stop_inv_mgr; auto|].
      apply (stop_inv_mgr s0 (mkWorld (mgr w) (put (store w) k v (sharedLeaseID (mgr w)) f).1 (loops w) en ws pk)); [|auto].
      destruct (put_frame (store w) k v (sharedLeaseID (mgr w)) f Hne) as (L & G & K). revert L G K.
      generalize (put (store w) k v (sharedLeaseID (mgr w)) f).1 as s1. intros s1 L G K. apply stop_inv_store; [done..|intros l'; rewrite L; auto|].
      intros k' v' l' Hk'. destruct (K k') as [Hx|(_ & Hlv & Hx)]; [left; by rewrite <- Hx|right].
      rewrite Hx in Hk'. injection Hk' as <- <-. by apply (si_shared _ _ Hi). }
    destruct Hls as [->| ->]; [done|]. destruct Hi1 as [Hg Hh Hsh Hk]. split; cbn in *; [done| | |].
    - intros l Hl%holds_new_top. auto.
    - intros Hne. destruct (Hsh Hne) as (? & ? & ?). split_and!; auto. intros. apply holds_insert_new; auto.
    - intros. apply holds_insert_new; eauto. }
  cbn. destruct (sharedLeaseRunning (mgr w)); cbn; (destruct (Z.eqb_spec (sharedLeaseID (mgr w)) 0); [|destruct (negb (connected (mgr w)))]); apply Hgen; auto.
Qed.

Lemma stop_inv_loop s0 w n i w' : stop_inv s0 w -> cleanup_ok w (LLoop n i) -> exec w (LLoop n i) = Some w' -> panicked w' = false -> stop_inv s0 w'.
Proof.
  intros Hi Hok He Hp. cbn in He. destruct (loops w !! n) as [lp|] eqn:Hn; [|done]. cbn in He.
  destruct (loopStep (mgr w) (store w) lp i) as [[[m s] o]|] eqn:Hl; [|done]. cbn in He. injection He as <-.
  unfold loopStep in Hl. destruct lp as [t d p]. cbn in Hl.
  pose proof Hi as [Hg Hh Hs Hk].
  destruct p as [|c|c old|c|c l|c l|c l todo|c l|c l|l e|l e|e|c], i as [f|ks| |]; try discriminate Hl; split_in Hl; simplify_eq; cbn in Hp; try discriminate Hp;
    try (by eapply stop_inv_next; eauto); try (by eapply stop_inv_exit; eauto).
  - eapply stop_inv_next'; [exact Hn|done|]. apply stop_inv_store; [done|..]; destruct (revoke_frame (store w) old f) as (L & G & _ & K & _); eauto.
  - by eapply stop_inv_grant.
  - by eapply stop_inv_grant.
  - eapply stop_inv_next'; [exact Hn|done|]. apply stop_inv_mgr; [done|]. right. right. by exists n, (mkLoop t d (StoreID c l)).
  - eapply stop_inv_next'; [exact Hn|done|]. eapply stop_inv_put; [done|by eexists n, _|done].
  - eapply stop_inv_next'; [exact Hn|done|]. eapply stop_inv_put; [done|by eexists n, _|done].
  - eapply stop_inv_cleanup; eauto. intros e' ->. by apply (Hok _ l e Hn).
  - eapply stop_inv_next'; [exact Hn|done|]. apply stop_inv_mgr; auto.
Qed.

Lemma stop_inv_step s0 w a w' : stop_inv s0 w -> cleanup_ok w a -> exec w a = Some w' -> panicked w' = false -> stop_inv s0 w'.
Proof.
  intros Hi Hok He Hp. destruct a as [|n k v t f|k f| |i|i f|n i|l]; [..|by eapply stop_inv_loop|]; exec_in He.
  - by apply stop_inv_mgr; auto.
  - apply andb_prop in E as [_ Hn%bool_decide_eq_true]. by apply stop_inv_register.
  - unfold unregisterLocked in *. destruct (del_frame (store w) k f) as (L & G & K).
    assert (forall m', sharedLeaseID m' = sharedLeaseID (mgr w) -> forall en ws pk,
      stop_inv s0 (mkWorld m' (if connected (mgr w) then del (store w) k f else store w) (loops w) en ws pk)) as Hd.
    { intros m' Hm en ws pk. apply (stop_inv_mgr s0 (mkWorld (mgr w) (if connected (mgr w) then del (store w) k f else store w) (loops w) en ws pk)); [|auto].
      apply stop_inv_store; [done|..]; destruct (connected (mgr w)); auto; try (intros l; rewrite L; auto).
      intros k' v l. destruct (K k') as [->|[_ ->]]; [auto|done]. }
    cbn. destruct (bool_decide _ && _); by apply Hd.
  - by apply stop_inv_mgr; auto.
  - by apply stop_inv_mgr; auto.
  - unfold finish in *. case_match; [|by apply stop_inv_mgr; auto]. destruct (negb _ && _); [|by apply stop_inv_mgr; auto].
    apply (stop_inv_mgr s0 (mkWorld (mgr w) (revoke (store w) (sharedLeaseID (mgr w)) f) (loops w) (entering w) (waiting w) (panicked w))); [|auto]. destruct (revoke_frame (store w) (sharedLeaseID (mgr w)) f) as (L & G & _ & K & _).
    apply stop_inv_store; eauto.
  - destruct (revoke_frame (store w) l NoFault) as (L & G & _ & K & _). apply stop_inv_store; eauto.
Qed.

Lemma panicked_step w a w' : exec w a = Some w' -> panicked w' = false -> panicked w = false.
Proof.
  destruct a as [|n k v t f|k f| |i|i f|n i|l]; intros He Hp; exec_in He; try done.
  - unfold registerLocked in Hp. cbn in Hp. split_in Hp; done.
  - unfold unregisterLocked in Hp. split_in Hp; done.
  - unfold finish in Hp. split_in Hp; done.
Qed.

Lemma runs_stop_inv p s0 w : (forall k v l, ls_get s0 k = Some (v, l) -> l <> 0%Z -> ls_granted s0 l = true) ->
  runs_with cleanup_ok (initial p s0) w -> panicked w = false -> stop_inv s0 w.
Proof.
  intros Hs0. revert w. apply (rtc_ind_r (fun w => panicked w = false -> stop_inv s0 w)); [|intros w w' _ (a & Ha & He) IH]; intros Hp.
  - split; cbn; [done|intros l (n & lp & Hl & _); by rewrite lookup_empty in Hl|done|]. intros k v l Hk Hl Hg. rewrite (Hs0 k v l) in Hg by done. done.
  - eapply stop_inv_step; eauto. apply IH. by eapply panicked_step.
Qed.

End Stopped.

(** When the lease loops have stopped, which is what [Close] and the last [UnregisterKeyLease] wait for, no
    key of the manager is left in etcd.  In any run of registrations, unregistrations, closes, lease loops,
    failed calls and expiring leases in which the revocation with which a loop gives its lease up takes
    effect, if no loop is running then no key is attached to a lease that was granted in the run. *)
Theorem stopped_manager_leaves_no_key {S : Type} `{LeaseLaws S} (p : string) (s0 : S) (w : EtcdManagers.world) k v l :
  (forall k v l, ls_get s0 k = Some (v, l) -> l <> 0%Z -> ls_granted s0 l = true) ->
  runs_with cleanup_ok (EtcdManagers.initial p s0) w -> EtcdManagers.panicked w = false -> EtcdManagers.loops w = ∅ ->
  ls_get (EtcdManagers.store w) k = Some (v, l) -> l = 0%Z \/ ls_granted s0 l = true.
Proof.
  intros Hs0 Hr Hp Hl Hk. destruct (decide (l = 0%Z)) as [|Hne]; [by left|]. right.
  destruct (ls_granted s0 l) eqn:Hg; [done|]. destruct (si_keys _ _ (runs_stop_inv p s0 w Hs0 Hr Hp) k v l Hk Hne Hg) as (n & lp & Hn & _).
  rewrite Hl in Hn. done.
Qed.

(** ** Registered keys are present while the lease is kept alive *)

Section Calm.
Import EtcdManagers.
Context {S : Type} `{LeaseLaws S} (val : string -> string).
Implicit Types w : world (S := S).

(** The context a phase was called with *)
Definition ctxOf (p : phase) : option nat :=
  match p with
  | ReadOld c | RevokeOld c _ | Grant c | StoreID c _ | CopyKeys c _ | PutKeys c _ _ | StartKeepAlive c _ | Alive c _ | Sleep c => Some c
  | _ => None
  end.

(** A step without failures: a call fails, or the keepalive channel closes, only when the context of the loop is
    done; no lease that is held expires; a key is always registered with the same value, and not while an
    [UnregisterKeyLease] or a [Close] waits for the loop *)
Definition calm (w : world (S := S)) (a : label) : Prop :=
  match a with
  | LRegister _ k v _ f => v = val k /\ f = NoFault /\ waiting w = []
  | LLoop n i => (exists f, i = Go f /\ f <> NoFault) \/ i = Closed ->
      forall lp c, loops w !! n = Some lp -> ctxOf (pc lp) = Some c -> c ∈ cancelled (mgr w)
  | LExpire l => ~ holds (loops w) l
  | _ => True
  end.

(** The keys that the loop has put under its lease, and those it has still to put *)
Definition registered (m : EtcdManager) (s : S) (l : Z) (todo : list (string * string)) : Prop :=
  forall k v, sharedKeys m !! k = Some v -> (k, v) ∈ todo \/ ls_get s k = Some (v, l).

Definition phase_ok (m : EtcdManager) (s : S) (p : phase) : Prop :=
  (forall l, held p = Some l -> l <> 0%Z /\ ((forall e, p <> CleanupRevoke l e) -> ls_live s l = true)) /\
  match p with
  | CopyKeys _ l => sharedLeaseID m = l
  | PutKeys _ l todo => sharedLeaseID m = l /\ registered m s l todo /\ (forall k v, (k, v) ∈ todo -> v = val k)
  | StartKeepAlive _ l | Alive _ l => sharedLeaseID m = l /\ registered m s l []
  | _ => True
  end /\
  (connected m = false -> held p = None /\ forall c old, p <> Grant c /\ p <> RevokeOld c old).

Record calm_inv (w : world (S := S)) : Prop := {
  ci_values : forall k v, sharedKeys (mgr w) !! k = Some v -> v = val k;
  ci_one : forall n1 n2, is_Some (loops w !! n1) -> is_Some (loops w !! n2) -> n1 = n2;
  ci_waiting : waiting w <> [] -> sharedLeaseRunning (mgr w) = false;
  ci_stopped : sharedLeaseRunning (mgr w) = false -> waiting w = [] -> loops w = ∅;
  ci_released : forall x, x ∈ waiting w -> released x = true -> loops w = ∅;
  ci_loop : forall n lp, loops w !! n = Some lp -> phase_ok (mgr w) (store w) (pc lp)
}.

(** The lease of a phase that puts keys or keeps them alive is the shared one *)
Lemma put_keeps_phase m s p k v f : phase_ok m s p -> v = val k -> f = NoFault -> connected m = true ->
  phase_ok (set_keys m (<[k := v]> (sharedKeys m)))
    (if (sharedLeaseID m =? 0)%Z then s else (put s k v (sharedLeaseID m) f).1) p.
Proof.
  intros (Hh & Hp & Hc) -> -> Hcon.
  assert (forall l', ls_live (if (sharedLeaseID m =? 0)%Z then s else (put s k (val k) (sharedLeaseID m) NoFault).1) l' = ls_live s l') as HL.
  { intros l'. destruct (Z.eqb_spec (sharedLeaseID m) 0); [done|]. by apply put_frame. }
  assert (forall l todo, sharedLeaseID m = l -> l <> 0%Z -> ls_live s l = true -> registered m s l todo ->
    registered (set_keys m (<[k := val k]> (sharedKeys m))) (if (sharedLeaseID m =? 0)%Z then s else (put s k (val k) (sharedLeaseID m) NoFault).1) l todo) as HR.
  { intros l todo Hl Hl0 Hlive Hr k' v'. cbn. rewrite Hl, (proj2 (Z.eqb_neq l 0) Hl0).
    destruct (ls_put_live s k (val k) l Hlive Hl0) as (s' & Hput & Hk & Hk' & _). cbn. rewrite Hput. cbn.
    rewrite lookup_insert_Some. intros [[<- <-]|[Hne Hkv]]; [by right|]. rewrite Hk' by done. auto. }
  split_and!.
  - intros l Hl. rewrite HL. auto.
  - destruct p; try done; (destruct (Hh _ eq_refl) as [Hl0 Hlive]); [destruct Hp as (Hl & Hr & Hv)|destruct Hp as (Hl & Hr)..]; split_and!; try done; apply HR; auto; by apply Hlive.
  - intros Hf. cbn in Hf. congruence.
Qed.

(** Without a client a loop makes no call *)
Lemma phase_ok_disconnected m s p m' s' : phase_ok m s p -> connected m = false -> connected m' = false -> phase_ok m' s' p.
Proof.
  intros (_ & _ & Hc) Hm Hm'. destruct (Hc Hm) as [Hh Hp].
  split_and!; [intros l Hl; congruence| |auto]. by destruct p.
Qed.

(** A change of the service that leaves the leases a loop holds and the keys under them *)
Lemma phase_ok_frame m s m' s' p : phase_ok m s p -> sharedLeaseID m' = sharedLeaseID m -> connected m' = connected m ->
  (forall l, held p = Some l -> ls_live s l = true -> ls_live s' l = true) ->
  (forall k v l, sharedKeys m' !! k = Some v -> sharedKeys m !! k = Some v /\ (held p = Some l -> ls_get s k = Some (v, l) -> ls_get s' k = Some (v, l))) ->
  phase_ok m' s' p.
Proof.
  intros (Hh & Hp & Hc) Hl Hcon HL HK.
  assert (forall l todo, held p = Some l -> registered m s l todo -> registered m' s' l todo) as HR.
  { intros l todo Hp' Hr k v Hk. destruct (HK k v l Hk) as [Hk' Hg]. destruct (Hr k v Hk'); auto. }
  split_and!.
  - intros l Hx. destruct (Hh l Hx) as [? Hlive]. split; [done|]. intros Hne. apply HL; auto.
  - destruct p; rewrite ?Hl; try done; [destruct Hp as (? & ? & ?)|destruct Hp as (? & ?)..]; split_and!; auto.
  - rewrite Hcon. done.
Qed.

(** What holds in a phase, by the lease it has *)
Lemma phase_ok_free m s p : held p = None -> connected m = true \/ (forall c old, p <> Grant c /\ p <> RevokeOld c old) -> phase_ok m s p.
Proof. intros Hp Hc. split_and!; [intros l Hl; congruence|by destruct p|]. intros Hm. destruct Hc; [congruence|done]. Qed.

Lemma phase_ok_cleanup m s l e : l <> 0%Z -> connected m = true -> phase_ok m s (CleanupRevoke l e).
Proof. intros Hl Hc. split_and!; [|done|congruence]. intros l' [= <-]. split; [done|]. intros Hn. by destruct (Hn e). Qed.

Lemma phase_ok_lease m s p l : held p = Some l -> l <> 0%Z -> ls_live s l = true -> connected m = true ->
  match p with
  | CopyKeys _ l => sharedLeaseID m = l
  | PutKeys _ l todo => sharedLeaseID m = l /\ registered m s l todo /\ (forall k v, (k, v) ∈ todo -> v = val k)
  | StartKeepAlive _ l | Alive _ l => sharedLeaseID m = l /\ registered m s l []
  | _ => True
  end -> phase_ok m s p.
Proof. intros Hp Hl Hlive Hc Hm. split_and!; [|done|congruence]. intros l' Hl'. assert (l' = l) as -> by congruence. done. Qed.

Lemma phase_ok_connected m s p : phase_ok m s p -> held p <> None \/ (exists c, p = Grant c) \/ (exists c old, p = RevokeOld c old) -> connected m = true.
Proof.
  intros (_ & _ & Hc) Hp. destruct (connected m); [done|]. destruct (Hc eq_refl) as [Hh Hn].
  destruct Hp as [?|[[c ->]|(c & old & ->)]]; [done|by destruct (Hn c 0%Z)|by destruct (Hn c old)].
Qed.

(** A put of the loop *)
Lemma registered_put m s l k v todo f s' b : registered m s l ((k, v) :: todo) -> v = val k -> (forall k v, sharedKeys m !! k = Some v -> v = val k) ->
  l <> 0%Z -> put s k v l f = (s', b) -> (ls_live s' l = ls_live s l) /\ (b = true -> registered m s' l todo).
Proof.
  intros Hr Hv Hvs Hl Hp. destruct (put_cases s k v l f Hl) as [[Hx _]|(Hlive & s1 & b1 & Hx & _ & Hk & Hk' & HL & _)]; rewrite Hx in Hp; simplify_eq; [done|].
  split; [done|]. intros _ k1 v1 Hkv. destruct (decide (k1 = k)) as [->|Hne].
  - right. by rewrite (Hvs _ _ Hkv).
  - destruct (Hr k1 v1 Hkv) as [Hin|Hg]; [|right; by rewrite Hk']. left. apply elem_of_cons in Hin as [Hin|Hin]; [congruence|done].
Qed.

Lemma calm_loopStep m s lp i m' s' o : phase_ok m s (pc lp) -> (forall k v, sharedKeys m !! k = Some v -> v = val k) ->
  loopStep m s lp i = Some (m', s', o) ->
  sharedKeys m' = sharedKeys m /\ sharedLeaseRunning m' = sharedLeaseRunning m /\ o <> Panic /\
  (forall lp', o = Next lp' -> phase_ok m' s' (pc lp')).
Proof.
  intros Hok Hv Hs. pose proof (phase_ok_connected _ _ _ Hok) as Hcon. pose proof Hok as (Hh & Hp & _).
  unfold loopStep in Hs. destruct lp as [t d p]. cbn in *.
  destruct p as [|c|c old|c|c l|c l|c l todo|c l|c l|l e|l e|e|c], i as [f|ks| |]; try discriminate Hs; split_in Hs; simplify_eq; breflect; cbn.
  all: try (match goal with E : connected _ = false |- _ => rewrite Hcon in E by (first [by left | right; left; by eexists | right; right; by do 2 eexists]); discriminate E end).
  all: split_and!; [done..|]; intros lp' [= <-]; cbn.
  all: try (by apply phase_ok_free; auto).
  all: try (apply phase_ok_cleanup; [by destruct (Hh _ eq_refl)|by apply Hcon; left]).
  all: try (done).
  - (* the lease is granted *)
    match goal with E : grant _ _ _ = _ |- _ => destruct (grant_cases _ _ _ _ _ E) as (_ & _ & _ & Hr) end. destruct (Hr _ eq_refl) as (? & _ & _ & ?).
    by eapply phase_ok_lease.
  - destruct (Hh l eq_refl) as [? Hlive]. eapply phase_ok_lease; [reflexivity|try done..]; [by apply Hlive|by apply Hcon; left].
  - destruct (Hh _ eq_refl) as [? Hlive]. match goal with E : _ ≡ₚ _ |- _ => rename E into HE end.
    eapply phase_ok_lease; [reflexivity|try done..]; [by apply Hlive|by apply Hcon; left|]. split_and!; [done| |].
    + intros k v Hk. left. rewrite HE. by apply elem_of_map_to_list.
    + intros k v. rewrite HE. intros Hk%elem_of_map_to_list. auto.
  - destruct (Hh _ eq_refl) as [? Hlive]. destruct Hp as (? & ? & _). eapply phase_ok_lease; [reflexivity|try done..]; [by apply Hlive|by apply Hcon; left].
  - destruct (Hh _ eq_refl) as [? Hlive]. destruct Hp as (? & Hr & Hvt). match goal with E : put _ _ _ _ _ = _ |- _ => rename E into HE end.
    destruct (registered_put _ _ _ _ _ _ _ _ _ Hr (Hvt _ _ ltac:(by left)) Hv ltac:(done) HE) as [HL Hr'].
    eapply phase_ok_lease; [reflexivity|try done..]; [rewrite HL; by apply Hlive|]. split_and!; [done|auto|]. intros k v Hk. apply Hvt. by right.
  - destruct (Hh _ eq_refl) as [? Hlive]. eapply phase_ok_lease; [reflexivity|try done..]. by apply Hlive.
Qed.

Lemma calm_register w n k v t f : calm_inv w -> calm w (LRegister n k v t f) -> loops w !! n = None -> calm_inv (registerLocked w n k v t f).
Proof.
  intros [Hv Ho Hw Hs Hr Hl] (-> & -> & Hw0) Hn. unfold registerLocked.
  assert (forall k' v', <[k := val k]> (sharedKeys (mgr w)) !! k' = Some v' -> v' = val k') as Hv'.
  { intros k' v'. rewrite lookup_insert_Some. intros [[<- <-]|[_ ?]]; auto. }
  destruct (sharedLeaseRunning (mgr w)) eqn:Hrun; cbn; rewrite ?Hrun; cbn.
  - (* the loop runs *)
    assert (forall s' pk, (connected (mgr w) = true -> s' = if (sharedLeaseID (mgr w) =? 0)%Z then store w else (put (store w) k (val k) (sharedLeaseID (mgr w)) NoFault).1) ->
      calm_inv (mkWorld (set_keys (mgr w) (<[k := val k]> (sharedKeys (mgr w)))) s' (loops w) (entering w - 1) (waiting w) pk)) as Hgen.
    { intros s' pk Hst. split; cbn; [done|done|congruence|congruence|rewrite Hw0; intros x; by rewrite elem_of_nil|]. intros n' lp Hlp. specialize (Hl n' lp Hlp). destruct (connected (mgr w)) eqn:Hc.
      - rewrite Hst by done. by apply put_keeps_phase.
      - by eapply phase_ok_disconnected. }
    destruct (sharedLeaseID (mgr w) =? 0)%Z eqn:Hz; [by apply Hgen|].
    destruct (connected (mgr w)) eqn:Hc; cbn; apply Hgen; [done|congruence].
  - (* a loop is started *)
    assert (loops w = ∅) as He by auto.
    assert (forall m' s' pk, sharedKeys m' = <[k := val k]> (sharedKeys (mgr w)) -> sharedLeaseRunning m' = true ->
      calm_inv (mkWorld m' s' (<[n := sharedLeaseLoop t]> (loops w)) (entering w - 1) (waiting w) pk)) as Hgen.
    { intros m' s' pk Hk Hm. split; cbn; rewrite ?Hk, ?He, ?Hw0, ?Hm; try done.
      - intros n1 n2 [? H1] [? H2]. rewrite lookup_insert_Some, lookup_empty in H1, H2. naive_solver.
      - intros x. by rewrite elem_of_nil.
      - intros n' lp. rewrite lookup_insert_Some, lookup_empty. intros [[_ <-]|[_ ?]]; [|done]. by apply phase_ok_free; auto. }
    destruct (sharedLeaseID (mgr w) =? 0)%Z; [by apply Hgen|]. destruct (connected (mgr w)); by apply Hgen.
Qed.

Lemma calm_unregister w k f : calm_inv w -> calm_inv (unregisterLocked w k f).
Proof.
  intros [Hv Ho Hw Hs Hr Hl]. unfold unregisterLocked. cbn. destruct (del_frame (store w) k f) as (HL & _ & HK).
  assert (forall k' v', delete k (sharedKeys (mgr w)) !! k' = Some v' -> k' <> k /\ sharedKeys (mgr w) !! k' = Some v') as Hd.
  { intros k' v'. rewrite lookup_delete_Some. naive_solver. }
  assert (forall m' n lp, loops w !! n = Some lp -> sharedLeaseID m' = sharedLeaseID (mgr w) -> connected m' = connected (mgr w) ->
    sharedKeys m' = delete k (sharedKeys (mgr w)) -> phase_ok m' (if connected (mgr w) then del (store w) k f else store w) (pc lp)) as Hp.
  { intros m' n lp Hlp H1 H2 H3. apply (phase_ok_frame (mgr w) (store w)); [by eapply Hl|done..| |].
    - intros l _. destruct (connected (mgr w)); [by rewrite HL|done].
    - intros k' v l. rewrite H3. intros [Hne Hk]%Hd. split; [done|]. intros _. destruct (connected (mgr w)); [|done].
      destruct (HK k') as [->|[? _]]; done. }
  destruct (bool_decide _ && _) eqn:Hb.
  - split; cbn; [naive_solver|done|done|by destruct (waiting w)| |].
    + intros x [Hx| ->%list_elem_of_singleton]%elem_of_app; [by apply Hr|done].
    + intros n lp Hlp. by eapply Hp.
  - split; cbn; [naive_solver|done|done|done|done|]. intros n lp Hlp. by eapply Hp.
Qed.

Lemma calm_step w a w' : calm_inv w -> calm w a -> exec w a = Some w' -> calm_inv w'.
Proof.
  intros Hi Hc He. pose proof Hi as [Hv Ho Hw Hs Hr Hl]. destruct a as [|n k v t f|k f| |i|i f|n i|l].
  - exec_in He. by split.
  - exec_in He. apply andb_prop in E as [_ Hn%bool_decide_eq_true]. by apply calm_register.
  - exec_in He. by apply calm_unregister.
  - exec_in He. split; cbn; [done|done|done|by destruct (waiting w)| |done].
    intros x [Hx| ->%list_elem_of_singleton]%elem_of_app; [by apply Hr|done].
  - exec_in He. apply bool_decide_eq_true in E. split; cbn; try done.
    intros Hne. apply Hw. intros Hx. by rewrite Hx in Hne.
  - cbn in He. apply bind_Some in He as (x & Hx & He). destruct (released x) eqn:Hrel; [|done]. injection He as <-.
    assert (loops w = ∅) as Hemp by (eapply Hr; [by eapply list_elem_of_lookup_2|done]).
    assert (forall m' s', sharedKeys m' = sharedKeys (mgr w) -> sharedLeaseRunning m' = sharedLeaseRunning (mgr w) ->
      calm_inv (mkWorld m' s' (loops w) (entering w) (delete i (waiting w)) (panicked w))) as Hgen.
    { intros m' s' H1 H2. split; cbn; rewrite ?H1, ?H2, ?Hemp; try done.
      - intros n1 n2 [y Hy]. by rewrite lookup_empty in Hy.
      - intros Hne. apply Hw. intros Hx'. by rewrite Hx' in Hx. }
    unfold finish. destruct x; [destruct (negb _ && _)|]; by apply Hgen.
  - cbn in He. apply bind_Some in He as (lp & Hn & He). apply bind_Some in He as ([[m s] o] & Hstep & He). injection He as <-.
    destruct (calm_loopStep _ _ _ _ _ _ _ (Hl n lp Hn) Hv Hstep) as (Hk & Hrun & Hnp & Hok).
    assert (loops w <> ∅) as Hne by (intros Hx; by rewrite Hx in Hn).
    assert (forall n', is_Some (loops w !! n') -> n' = n) as Honly by eauto.
    destruct o as [lp'| |]; [| |done]; (split; cbn; rewrite ?Hk, ?Hrun; try done).
    + intros n1 n2. rewrite !lookup_insert_is_Some. intros [<-|[_ ?]] [<-|[_ ?]]; auto.
    + intros. by destruct Hne; auto.
    + intros x Hx Hrel. by destruct Hne; eauto.
    + intros n' lp1. rewrite lookup_insert_Some. intros [[_ <-]|[Hd Hx]]; [by apply Hok|]. by destruct Hd; rewrite (Honly n').
    + intros n1 n2. rewrite !lookup_delete_is_Some. intros [? ?] [? ?]. eauto.
    + intros. by destruct Hne; auto.
    + intros x Hx Hrel. by destruct Hne; eauto.
    + intros n' lp1. rewrite lookup_delete_Some. intros [Hd Hx]. by destruct Hd; rewrite (Honly n').
  - exec_in He. split; cbn; try done. intros n lp Hlp. destruct (revoke_frame (store w) l NoFault) as (_ & _ & HL & _ & HK). cbn in *.
    assert (forall l', held (pc lp) = Some l' -> l' <> l) as Hne by (intros l' Hh ->; apply Hc; by exists n, lp).
    apply (phase_ok_frame (mgr w) (store w)); [by eapply Hl|done..| |].
    + intros l' Hh Hlive. by rewrite HL by auto.
    + intros k v l' Hk. split; [done|]. intros Hh Hg. apply HK; auto.
Qed.

Lemma runs_calm_inv p s w : runs_with calm (initial p s) w -> calm_inv w.
Proof.
  revert w. apply (rtc_ind_r calm_inv); [|intros w w' _ (a & Ha & He) IH; by eapply calm_step].
  split; cbn; try done; try set_solver. intros n1 n2 [y Hy]. by rewrite lookup_empty in Hy.
Qed.

End Calm.

(** C21: as long as nothing fails, a registered key is in etcd for as long as its lease is kept alive.  In a run in which
    no call fails, no lease that is in use expires, a key always has the same value, as the addresses of nodes and
    gates do, and no registration comes while an [UnregisterKeyLease] or [Close] waits: at most one lease loop
    runs, and when it is keeping its lease alive that lease is live and every registered key is in the store
    with its value under it, whatever registrations and unregistrations came before, between or during the puts
    of the loop. *)
Theorem registered_keys_alive {S : Type} `{LeaseLaws S} (val : string -> string) (p : string) (s : S) (w : EtcdManagers.world) n lp c l :
  runs_with (calm val) (EtcdManagers.initial p s) w -> EtcdManagers.loops w !! n = Some lp -> EtcdManagers.pc lp = EtcdManagers.Alive c l ->
  EtcdManagers.loops w = {[ n := lp ]} /\ ls_live (EtcdManagers.store w) l = true /\
  forall k v, EtcdManagers.sharedKeys (EtcdManagers.mgr w) !! k = Some v -> ls_get (EtcdManagers.store w) k = Some (v, l).
Proof.
  intros Hr Hn Hp. destruct (runs_calm_inv val p s w Hr) as [Hv Ho _ _ _ Hl]. destruct (Hl n lp Hn) as (Hh & Hk & _). rewrite Hp in Hh, Hk. split_and!.
  - apply map_eq. intros n'. destruct (decide (n' = n)) as [->|Hne]; [by rewrite lookup_singleton_eq|]. rewrite lookup_singleton_ne by done.
    destruct (EtcdManagers.loops w !! n') eqn:Hx; [|done]. destruct Hne. by eapply Ho.
  - by apply (Hh l).
  - intros k v Hkv. destruct Hk as [_ Hk]. destruct (Hk k v Hkv) as [Hin|]; [by apply elem_of_nil in Hin|done].
Qed.

(** ** Recovery of a lost lease *)

Section Recovery.
Import EtcdManagers.
Context {S : Type} `{LeaseLaws S}.
Implicit Types w : world (S := S).

(** The next input of a loop when no call fails any more: the keepalive channel of a lease that is gone closes *)
Definition nextInput (w : world (S := S)) (lp : loop) : input :=
  match pc lp with
  | CopyKeys _ _ => Order (map_to_list (sharedKeys (mgr w)))
  | Alive _ l => if ls_live (store w) l then Go NoFault else Closed
  | _ => Go NoFault
  end.

(** A loop that keeps a live lease alive *)
Definition keeping (w : world (S := S)) (lp : loop) : bool :=
  match pc lp with Alive _ l => ls_live (store w) l | _ => false end.

(** The loop [n] alone, until it keeps a lease alive *)
Fixpoint recover (n : nat) (fuel : nat) (w : world (S := S)) : world :=
  match fuel with
  | O => w
  | Datatypes.S fuel =>
      match loops w !! n with
      | Some lp => if keeping w lp then w else match exec w (LLoop n (nextInput w lp)) with Some w' => recover n fuel w' | None => w end
      | None => w
      end
  end.

(** Every registered key is in the store under the live lease that loop [n] keeps alive *)
Definition restored (n : nat) (w : world (S := S)) : Prop :=
  exists lp c l, loops w !! n = Some lp /\ pc lp = Alive c l /\ ls_live (store w) l = true /\
    forall k v, sharedKeys (mgr w) !! k = Some v -> ls_get (store w) k = Some (v, l).

(** A loop whose context is not done *)
Definition awake (n : nat) (w : world (S := S)) (lp : loop) : Prop :=
  loops w !! n = Some lp /\ connected (mgr w) = true /\ sharedLeaseCtx (mgr w) ∉ cancelled (mgr w).

(** The loop restores the keys within [fuel] steps, and without changing which they are *)
Definition within (n : nat) (fuel : nat) (w : world (S := S)) : Prop :=
  forall more, restored n (recover n (fuel + more) w) /\ sharedKeys (mgr (recover n (fuel + more) w)) = sharedKeys (mgr w).

Lemma within_restored n w : restored n w -> within n 0 w.
Proof.
  intros Hr more. assert (recover n more w = w) as Hx; [|cbn; by rewrite Hx]. destruct Hr as (lp & c & l & Hn & Hp & Hl & _).
  destruct more; [done|]. cbn. rewrite Hn. unfold keeping. by rewrite Hp, Hl.
Qed.

Lemma within_mono n f1 f2 w : within n f1 w -> (f1 <= f2)%nat -> within n f2 w.
Proof. intros Hw Hle more. replace (f2 + more)%nat with (f1 + (f2 - f1 + more))%nat by lia. apply Hw. Qed.

(** One step of a loop that is awake and does not end *)
Lemma awake_step n fuel w lp m s lp' : awake n w lp -> keeping w lp = false ->
  loopStep (mgr w) (store w) lp (nextInput w lp) = Some (m, s, Next lp') ->
  sharedKeys m = sharedKeys (mgr w) -> connected m = connected (mgr w) -> sharedLeaseCtx m = sharedLeaseCtx (mgr w) -> cancelled m = cancelled (mgr w) ->
  (forall w', awake n w' lp' -> mgr w' = m -> store w' = s -> within n fuel w') -> within n (Datatypes.S fuel) w.
Proof.
  intros (Hn & Hc & Hx) Hk Hs H1 H2 H3 H4 Hw more. cbn -[exec]. rewrite Hn, Hk. cbn. rewrite Hn. cbn. rewrite Hs. cbn. rewrite <- H1.
  eapply (Hw (mkWorld m s _ _ _ _)); [|done|done]. split_and!; cbn; [by rewrite lookup_insert_eq|congruence..].
Qed.

Ltac walk := eapply awake_step; [eassumption|unfold keeping; cbn; try done|unfold loopStep, nextInput; cbn; try reflexivity|cbn; try done..].

Lemma recover_put n todo : forall w t d c l, awake n w (mkLoop t d (PutKeys c l todo)) -> ls_live (store w) l = true -> l <> 0%Z ->
  registered (mgr w) (store w) l todo -> (forall k v, (k, v) ∈ todo -> sharedKeys (mgr w) !! k = Some v) -> within n (length todo + 2) w.
Proof.
  induction todo as [|[k v] todo IH]; intros w t d c l Haw Hlive Hl Hr Ht; pose proof Haw as (_ & Hcon & _).
  - walk. intros w1 H1 Hm1 Hs1. pose proof H1 as (_ & Hcon1 & _). eapply awake_step; [exact H1|done|unfold loopStep, nextInput; cbn; by rewrite Hcon1|done..|].
    intros w2 H2 Hm2 Hs2. apply within_restored. eexists _, c, l. split_and!; [apply H2|done|congruence|].
    intros k v Hk. rewrite Hs2, Hs1. destruct (Hr k v) as [Hin|]; [congruence|by apply elem_of_nil in Hin|done].
  - destruct (ls_put_live (store w) k v l Hlive Hl) as (s' & Hp & Hk & Hk' & HL & _).
    walk. { rewrite Hcon. cbn. by rewrite Hp. }
    intros w1 H1 Hm1 Hs1. eapply IH; [exact H1|by rewrite Hs1, HL|done| |].
    + intros k1 v1 Hkv. rewrite Hs1. rewrite Hm1 in Hkv. destruct (decide (k1 = k)) as [->|Hne].
      * right. rewrite (Ht k v) in Hkv by (by left). congruence.
      * destruct (Hr k1 v1 Hkv) as [Hin|Hg]; [|right; by rewrite Hk']. left. apply elem_of_cons in Hin as [Hin|Hin]; [congruence|done].
    + rewrite Hm1. intros k1 v1 Hin. apply Ht. by right.
Qed.

(** From a lease that has just been granted *)
Lemma recover_store n w t d c l : awake n w (mkLoop t d (StoreID c l)) -> ls_live (store w) l = true -> l <> 0%Z -> within n (size (sharedKeys (mgr w)) + 4) w.
Proof.
  intros Haw Hlive Hl. replace (size (sharedKeys (mgr w)) + 4)%nat with (Datatypes.S (Datatypes.S (length (map_to_list (sharedKeys (mgr w))) + 2))) by (rewrite length_map_to_list; lia).
  walk. intros w1 H1 Hm1 Hs1. eapply awake_step; [exact H1|done|unfold loopStep, nextInput; cbn; by rewrite bool_decide_true|done..|].
  intros w2 H2 Hm2 Hs2. assert (sharedKeys (mgr w2) = sharedKeys (mgr w)) as Hk by (by rewrite Hm2, Hm1).
  assert (sharedKeys (mgr w1) = sharedKeys (mgr w)) as Hk1 by (by rewrite Hm1). rewrite Hk1 in H2.
  eapply recover_put; [exact H2|congruence|done| |].
  - intros k v. rewrite Hk. intros. left. by apply elem_of_map_to_list.
  - intros k v. rewrite Hk. by rewrite elem_of_map_to_list.
Qed.

(** From the head of the loop: a stale lease is revoked, a new one granted *)
Lemma recover_grant n w t d c : awake n w (mkLoop t d (Grant c)) -> within n (size (sharedKeys (mgr w)) + 5) w.
Proof.
  intros Haw. pose proof Haw as (_ & Hcon & _). destruct (grant (store w) t NoFault) as [s' r] eqn:Hg.
  destruct (grant_cases (store w) t NoFault s' r Hg) as (_ & _ & Hr & Hl). destruct (Hr eq_refl) as [l ->]. destruct (Hl l eq_refl) as (Hl0 & _ & _ & Hlive).
  replace (size (sharedKeys (mgr w)) + 5)%nat with (Datatypes.S (size (sharedKeys (mgr w)) + 4)) by lia.
  eapply awake_step; [exact Haw|done|unfold loopStep, nextInput; cbn -[grant]; rewrite Hcon; cbn -[grant]; by rewrite Hg|done..|].
  intros w1 H1 Hm1 Hs1. rewrite <- Hm1. eapply recover_store; [exact H1|congruence|done].
Qed.

Lemma recover_top n w t d : awake n w (mkLoop t d Top) -> within n (size (sharedKeys (mgr w)) + 8) w.
Proof.
  intros Haw. pose proof Haw as (_ & Hcon & Hctx).
  replace (size (sharedKeys (mgr w)) + 8)%nat with (Datatypes.S (Datatypes.S (size (sharedKeys (mgr w)) + 6))) by lia.
  walk. { by rewrite bool_decide_false. }
  intros w1 H1 Hm1 Hs1. pose proof H1 as (_ & Hcon1 & _). rewrite <- Hm1. destruct (sharedLeaseID (mgr w1) =? 0)%Z eqn:Hz.
  - eapply awake_step; [exact H1|done|unfold loopStep, nextInput; cbn; rewrite Hcon1; cbn; by rewrite Hz|done..|].
    intros w2 H2 Hm2 Hs2. rewrite <- Hm2. eapply within_mono; [eapply recover_grant; exact H2|lia].
  - replace (size (sharedKeys (mgr w1)) + 6)%nat with (Datatypes.S (size (sharedKeys (mgr w1)) + 5)) by lia.
    eapply awake_step; [exact H1|done|unfold loopStep, nextInput; cbn; rewrite Hcon1; cbn; by rewrite Hz|done..|].
    intros w2 H2 Hm2 Hs2. pose proof H2 as (_ & Hcon2 & _). rewrite <- Hm2.
    eapply awake_step; [exact H2|done|unfold loopStep, nextInput; cbn; by rewrite Hcon2|done..|].
    intros w3 H3 Hm3 Hs3. rewrite <- Hm3. eapply recover_grant; exact H3.
Qed.

(** From the end of [maintainSharedLease], by the retry delay when it failed *)
Lemma recover_after n w t d err : awake n w (mkLoop t d (After err)) -> within n (size (sharedKeys (mgr w)) + 10) w.
Proof.
  intros Haw. pose proof Haw as (_ & Hcon & Hctx). apply (within_mono n (Datatypes.S (Datatypes.S (size (sharedKeys (mgr w)) + 8)))); [|lia].
  destruct err.
  - walk. { by rewrite bool_decide_false. }
    intros w1 H1 Hm1 Hs1. rewrite <- Hm1. eapply awake_step; [exact H1|done|unfold loopStep, nextInput; cbn; reflexivity|done..|].
    intros w2 H2 Hm2 Hs2. rewrite <- Hm2. eapply recover_top; exact H2.
  - walk. { by rewrite bool_decide_false. }
    intros w1 H1 Hm1 Hs1. rewrite <- Hm1. eapply within_mono; [eapply recover_top; exact H1|lia].
Qed.

Lemma recover_cleanup n w t d l err : awake n w (mkLoop t d (CleanupRevoke l err)) -> within n (size (sharedKeys (mgr w)) + 12) w.
Proof.
  intros Haw. pose proof Haw as (_ & Hcon & Hctx). replace (size (sharedKeys (mgr w)) + 12)%nat with (Datatypes.S (Datatypes.S (size (sharedKeys (mgr w)) + 10))) by lia.
  walk. { by rewrite Hcon. }
  intros w1 H1 Hm1 Hs1. rewrite <- Hm1.
  eapply awake_step; [exact H1|done|unfold loopStep, nextInput; cbn; reflexivity|by case_match..|].
  intros w2 H2 Hm2 Hs2. assert (sharedKeys (mgr w1) = sharedKeys (mgr w2)) as -> by (rewrite Hm2; by case_match).
  eapply recover_after; exact H2.
Qed.

Lemma recover_alive n w t d c l : awake n w (mkLoop t d (Alive c l)) -> ls_live (store w) l = false -> within n (size (sharedKeys (mgr w)) + 13) w.
Proof.
  intros Haw Hl. replace (size (sharedKeys (mgr w)) + 13)%nat with (Datatypes.S (size (sharedKeys (mgr w)) + 12)) by lia.
  eapply awake_step; [eassumption|done|unfold loopStep, nextInput; cbn; by rewrite Hl|done..|].
  intros w1 H1 Hm1 Hs1. rewrite <- Hm1. eapply recover_cleanup; exact H1.
Qed.

End Recovery.

(** C22: a lost lease is replaced.  Whatever failures brought the manager there, if a lease loop whose
    context is not done keeps alive a lease that is gone, then once calls succeed again the loop by itself, in
    at most thirteen steps more than there are registered keys, holds a live lease under which every registered
    key is in etcd with the value last registered. *)
Theorem lost_lease_recovered {S : Type} `{LeaseLaws S} (w : EtcdManagers.world (S := S)) n lp c l more :
  EtcdManagers.loops w !! n = Some lp -> EtcdManagers.pc lp = EtcdManagers.Alive c l -> ls_live (EtcdManagers.store w) l = false ->
  EtcdManagers.connected (EtcdManagers.mgr w) = true -> EtcdManagers.sharedLeaseCtx (EtcdManagers.mgr w) ∉ EtcdManagers.cancelled (EtcdManagers.mgr w) ->
  let w' := recover n (size (EtcdManagers.sharedKeys (EtcdManagers.mgr w)) + 13 + more) w in
  EtcdManagers.sharedKeys (EtcdManagers.mgr w') = EtcdManagers.sharedKeys (EtcdManagers.mgr w) /\
  exists lp' c' l', EtcdManagers.loops w' !! n = Some lp' /\ EtcdManagers.pc lp' = EtcdManagers.Alive c' l' /\ ls_live (EtcdManagers.store w') l' = true /\
    forall k v, EtcdManagers.sharedKeys (EtcdManagers.mgr w) !! k = Some v -> ls_get (EtcdManagers.store w') k = Some (v, l').
Proof.
  intros Hn Hp Hl Hc Hx. cbv zeta. destruct lp as [t d p]. cbn in Hp. subst p.
  destruct (recover_alive n w t d c l (conj Hn (conj Hc Hx)) Hl more) as [(lp' & c' & l' & ? & ? & ? & Hk) Hs].
  split; [done|]. exists lp', c', l'. rewrite Hs in Hk. done.
Qed.

(** ** Runs on the in-memory service *)

Module LeaseRuns.
Import EtcdManagers.
Definition noLeases : LeaseMem := mkLeases ∅ ∅.
Definition w0 : world (S := LeaseMem) := initial "" noLeases.
Definition go (n : nat) : label := LLoop n (Go NoFault).
Definition reg (n : nat) (k v : string) : list label := [LEnter; LRegister n k v 15 NoFault].
(** The loop from its head to the keepalive, with the keys in the order [ks] *)
Definition upTo (n : nat) (ks : list (string * string)) : list label :=
  [go n; go n; go n; go n; LLoop n (Order ks)] ++ replicate (length ks + 2) (go n).
End LeaseRuns.

(** A key that is unregistered between the copy of the keys and its put by the loop is put all the same, and stays in etcd
    for as long as the lease is kept alive, although the manager no longer has it. *)
Theorem unregistered_key_reappears :
  exists w, EtcdManagers.execs LeaseRuns.w0
      (LeaseRuns.reg 0 "a" "1" ++ LeaseRuns.reg 1 "b" "2" ++
       [LeaseRuns.go 0; LeaseRuns.go 0; LeaseRuns.go 0; LeaseRuns.go 0; EtcdManagers.LLoop 0 (EtcdManagers.Order [("a", "1"); ("b", "2")])] ++
       [EtcdManagers.LUnregister "a" NoFault] ++ replicate 4 (LeaseRuns.go 0)) = Some w /\
    EtcdManagers.sharedKeys (EtcdManagers.mgr w) !! "a" = None /\ ls_get (EtcdManagers.store w) "a" = Some ("1", 1%Z) /\
    (EtcdManagers.pc <$> EtcdManagers.loops w !! 0) = Some (EtcdManagers.Alive 1 1).
Proof. eexists. split; [vm_compute; reflexivity|]. split_and!; reflexivity. Qed.

(** When registering puts a key while the lease is kept alive and the put fails, nothing retries it: the registration has
    returned without an error, the loop waits on the keepalive channel, and the key is absent until the lease
    is lost. *)
Theorem failed_put_not_retried :
  exists w, EtcdManagers.execs LeaseRuns.w0
      (LeaseRuns.reg 0 "a" "1" ++ LeaseRuns.upTo 0 [("a", "1")] ++
       [EtcdManagers.LEnter; EtcdManagers.LRegister 1 "b" "2" 15 (FailBefore "timeout")]) = Some w /\
    EtcdManagers.sharedKeys (EtcdManagers.mgr w) !! "b" = Some "2" /\ ls_get (EtcdManagers.store w) "b" = None /\
    forall w', rtc (fun x y => EtcdManagers.exec x (LeaseRuns.go 0) = Some y) w w' -> w' = w.
Proof.
  eexists. split; [vm_compute; reflexivity|]. split_and!; [reflexivity..|]. intros w' Hr. symmetry.
  refine (rtc_ind_r (fun x => _ = x) _ eq_refl _ w' Hr). intros y z _ Hs <-. revert Hs. vm_compute. by intros [= <-].
Qed.

(** A registration that comes while [UnregisterKeyLease] waits replaces the context that the old loop looks at: the
    old loop goes on next to the new one, each revoking the lease of the other, and the wait does not end. *)
Theorem register_during_unregister_two_loops :
  exists w, EtcdManagers.execs LeaseRuns.w0
      (LeaseRuns.reg 0 "a" "1" ++ LeaseRuns.upTo 0 [("a", "1")] ++ [EtcdManagers.LUnregister "a" NoFault] ++ LeaseRuns.reg 1 "a" "1" ++
       [EtcdManagers.LLoop 0 EtcdManagers.CtxDone; LeaseRuns.go 0; LeaseRuns.go 0; LeaseRuns.go 0] ++ LeaseRuns.upTo 0 [("a", "1")] ++
       [LeaseRuns.go 1; LeaseRuns.go 1; LeaseRuns.go 1]) = Some w /\
    EtcdManagers.waiting w = [EtcdManagers.WUnregister false] /\ (EtcdManagers.pc <$> EtcdManagers.loops w !! 0) = Some (EtcdManagers.Alive 2 2) /\
    (EtcdManagers.pc <$> EtcdManagers.loops w !! 1) = Some (EtcdManagers.Grant 2) /\ EtcdManagers.sharedKeys (EtcdManagers.mgr w) !! "a" = Some "1" /\
    ls_live (EtcdManagers.store w) 2 = false /\ ls_get (EtcdManagers.store w) "a" = None.
Proof. eexists. split; [vm_compute; reflexivity|]. split_and!; reflexivity. Qed.

(** A registration between the end of the wait of [Close] and the reset of the client leaves a loop that calls a nil client. *)
Theorem register_during_close_panics :
  exists w, EtcdManagers.execs LeaseRuns.w0
      ([EtcdManagers.LClose; EtcdManagers.LRelease 0] ++ LeaseRuns.reg 0 "a" "1" ++
       [LeaseRuns.go 0; LeaseRuns.go 0; EtcdManagers.LFinish 0 NoFault; LeaseRuns.go 0]) = Some w /\ EtcdManagers.panicked w = true.
Proof. eexists. split; [vm_compute; reflexivity|]. reflexivity. Qed.

(** The address of a node stays registered while its lease is kept alive, is gone when the manager has been
    closed, and is back after the lease was lost. *)
Module LeaseWitness.
Import EtcdManagers LeaseRuns.
Definition alive : list label := reg 0 "a" "a" ++ upTo 0 [("a", "a")].
Definition closed : list label := alive ++ [LClose; LLoop 0 CtxDone; go 0; go 0; go 0].
Definition lost : list label := alive ++ [LExpire 1].
Definition at_ (l : list label) : world (S := LeaseMem) := default w0 (execs w0 l).
Fixpoint allowed (P : world (S := LeaseMem) -> label -> Prop) (w : world) (l : list label) : Prop :=
  match l with [] => True | a :: l => P w a /\ match exec w a with Some w' => allowed P w' l | None => False end end.
Lemma runs_of P l : forall w, allowed P w l -> runs_with P w (default w (execs w l)).
Proof.
  induction l as [|a l IH]; intros w He; [apply rtc_refl|]. destruct He as [Ha He]. cbn. destruct (exec w a) as [w1|] eqn:H1; [|done].
  cbn. eapply rtc_l; [by exists a|]. specialize (IH w1 He). destruct (execs w1 l) eqn:E; cbn in *; [done|].
  exfalso. clear IH H1. revert w1 He E. induction l as [|b l IH]; intros w1 He E; [done|]. cbn in *. destruct He as [_ He].
  destruct (exec w1 b) as [w2|]; [|done]. by eapply IH.
Qed.
End LeaseWitness.

(** The steps of a closed run, one by one *)
Ltac run_steps tac :=
  repeat (match goal with |- True => exact I | |- LeaseWitness.allowed _ _ [] => exact I | |- LeaseWitness.allowed _ _ (_ :: _) => split; [tac|]
    | |- match ?x with _ => _ end => let y := eval vm_compute in x in change x with y; cbv iota beta end).

Lemma registered_keys_alive_witness :
  ls_get (EtcdManagers.store (LeaseWitness.at_ LeaseWitness.alive)) "a" = Some ("a", 1%Z).
Proof.
  refine (proj2 (proj2 (registered_keys_alive (fun k => k) "" LeaseRuns.noLeases (LeaseWitness.at_ LeaseWitness.alive) 0
    (EtcdManagers.mkLoop 15 EtcdManagers.second (EtcdManagers.Alive 1 1)) 1 1 _ _ _)) "a" "a" _); [|reflexivity..].
  apply LeaseWitness.runs_of. cbv [LeaseWitness.alive LeaseRuns.reg LeaseRuns.upTo LeaseRuns.go app replicate length Nat.add].
  run_steps ltac:(first [intros [(f & Hf & Hn)|Hc]; [destruct Hn; congruence|discriminate Hc] | repeat split]).
Defined.

Lemma stopped_manager_leaves_no_key_witness :
  EtcdManagers.loops (LeaseWitness.at_ LeaseWitness.closed) = ∅ /\
  forall l, ls_get (EtcdManagers.store (LeaseWitness.at_ LeaseWitness.closed)) "a" <> Some ("a", Z.pos l).
Proof.
  split; [reflexivity|]. intros l Hl.
  destruct (stopped_manager_leaves_no_key "" LeaseRuns.noLeases (LeaseWitness.at_ LeaseWitness.closed) "a" "a" (Z.pos l)) as [Hx|Hx]; [| |reflexivity|reflexivity| |done|done].
  - intros k v l'. cbn. by rewrite lookup_empty.
  - apply LeaseWitness.runs_of. cbv [LeaseWitness.closed LeaseWitness.alive LeaseRuns.reg LeaseRuns.upTo LeaseRuns.go app replicate length Nat.add].
    run_steps ltac:(exact I).
  - exact Hl.
Defined.

Lemma lost_lease_recovered_witness :
  ls_get (EtcdManagers.store (LeaseWitness.at_ LeaseWitness.lost)) "a" = None /\
  exists l', ls_get (EtcdManagers.store (recover 0 14 (LeaseWitness.at_ LeaseWitness.lost))) "a" = Some ("a", l').
Proof.
  split; [reflexivity|].
  destruct (lost_lease_recovered (LeaseWitness.at_ LeaseWitness.lost) 0 (EtcdManagers.mkLoop 15 EtcdManagers.second (EtcdManagers.Alive 1 1)) 1 1 0)
    as (_ & lp' & c' & l' & _ & _ & _ & Hk); [reflexivity..|by vm_compute|]. exists l'. by apply (Hk "a" "a").
Defined.
