(* ===== verification/ClientLib.v ===== *)
(** * Client library (client/goverseclient)

    The client of a gate: its connection state under the mutex [mu], the goroutines that connect and that
    receive pushed messages, and the calls.  A connection that was dialled and registered is a number; the
    gRPC client, the stream and the cancel function made with it carry the same number.  What a gate answers
    is a parameter.  [None] is a nil dereference. *)

From S2P Require Import Prelude GoStrings Object.
Import Proto.

Module Client.

Definition second : Z := 1000000000.
Definition DefaultConnectionTimeout : Z := 30 * second.
Definition DefaultCallTimeout : Z := 30 * second.
Definition DefaultReconnectInterval : Z := 5 * second.
Definition messageChannelBufferSize : nat := 100.

Inductive client_error : Type :=
| ErrNoAddresses
| ErrNotConnected
| ErrClientClosed
| ErrConnectionFailed
| ErrMarshal (msg : string)
| ErrRPC (msg : string)
| ErrUnmarshal (msg : string)
| ErrResponse (msg : string).

(** [Options], without the gRPC options, the logger and the callbacks *)
Record Options : Type := mkOptions { ConnectionTimeout : Z; CallTimeout : Z; ReconnectInterval : Z }.
Definition defaultOptions : Options := mkOptions DefaultConnectionTimeout DefaultCallTimeout DefaultReconnectInterval.
Definition WithConnectionTimeout (t : Z) (o : Options) : Options := mkOptions t (CallTimeout o) (ReconnectInterval o).
Definition WithCallTimeout (t : Z) (o : Options) : Options := mkOptions (ConnectionTimeout o) t (ReconnectInterval o).
Definition WithReconnectInterval (t : Z) (o : Options) : Options := mkOptions (ConnectionTimeout o) (CallTimeout o) t.

Section Types.
Context {Msg : Type}.

Record Client : Type := mkClient {
  addresses : list string;
  options : Options;
  conn : option nat;
  client : option nat;
  stream : option nat;
  streamCancel : option nat;
  clientID : string;
  connected : bool;
  closed : bool;
  currentAddr : string;
  messageChan : list Msg;
  chanClosed : bool
}.

(** [NewClient] *)
Definition NewClient (addrs : list string) (opts : list (Options -> Options)) : result client_error Client :=
  if bool_decide (addrs = []) then Err ErrNoAddresses
  else Ok (mkClient addrs (foldl (fun o f => f o) defaultOptions opts) None None None None "" false false "" [] false).

(** The check of [Connect]: whether it goes on to dial *)
Definition connectCheck (c : Client) : result client_error bool :=
  if closed c then Err ErrClientClosed else Ok (negb (connected c)).

(** [connectToAddress] under the mutex, with the registered connection [n]; [None]: the client was closed meanwhile and
    the connection is closed again *)
Definition publish (c : Client) (n : nat) (addr cid : string) : option Client :=
  if closed c then None
  else Some (mkClient (addresses c) (options c) (Some n) (Some n) (Some n) (Some n) cid true (closed c) addr (messageChan c) (chanClosed c)).

(** [handleDisconnect], [Close] and the first half of [Reconnect]: the client, the stream cancelled and the connection
    closed *)
Definition handleDisconnect (c : Client) : Client * option nat * option nat :=
  if closed c then (c, None, None)
  else (mkClient (addresses c) (options c) None None None None "" false (closed c) "" (messageChan c) (chanClosed c), streamCancel c, conn c).

(** A second close of a channel panics ([None]); [Close] returns at once when the client is closed already *)
Definition Close (c : Client) : option (Client * option nat * option nat) :=
  if closed c then Some (c, None, None)
  else if chanClosed c then None
  else Some (mkClient (addresses c) (options c) (conn c) (client c) (stream c) (streamCancel c) (clientID c) false true (currentAddr c) (messageChan c) true,
             streamCancel c, conn c).

Definition reconnectCleanup (c : Client) : result client_error (Client * option nat * option nat) :=
  if closed c then Err ErrClientClosed
  else Ok (mkClient (addresses c) (options c) None None None None "" false (closed c) (currentAddr c) (messageChan c) (chanClosed c), streamCancel c, conn c).

Definition IsConnected (c : Client) : bool := connected c && negb (closed c).
Definition ClientID (c : Client) : string := clientID c.
Definition CurrentAddress (c : Client) : string := currentAddr c.

(** What [receiveMessages] decides at the head of its loop: the stream to receive from, or to return *)
Definition receiveFrom (c : Client) : option nat := if closed c || negb (connected c) then None else stream c.

(** The non-blocking send of a received message; [None] is a send on a closed channel *)
Definition deliver (c : Client) (m : Msg) : option Client :=
  if chanClosed c then None
  else if (length (messageChan c) <? messageChannelBufferSize)%nat
  then Some (mkClient (addresses c) (options c) (conn c) (client c) (stream c) (streamCancel c) (clientID c) (connected c) (closed c) (currentAddr c) (messageChan c ++ [m]) (chanClosed c))
  else Some c.

(** ** Calls *)

Section Calls.
Context {Any : Type} (rt : Runtime Any Msg).

Record CallObjectRequest : Type := mkCall { ClientId : string; Type_ : string; Id : string; Method : string; Request : option Any }.
Record ReliableCallRequest : Type := mkReliable { CallId : string; RType : string; RId : string; RMethod : string; RRequest : option Any }.
Record ReliableCallResponse : Type := mkReliableResponse { Response : option Any; Status : string; Error : string }.

(** The deadline of a call: the one of its context or the default *)
Definition callDeadline (c : Client) (now : Z) (deadline : option Z) : Z := default (now + CallTimeout (options c))%Z deadline.

(** The guard of every call *)
Definition guarded {A : Type} (c : Client) (call : nat -> result client_error A) : option (result client_error A) :=
  if closed c then Some (Err ErrClientClosed)
  else if negb (connected c) then Some (Err ErrNotConnected)
  else match client c with Some n => Some (call n) | None => None end.

(** [CallObject]: [rpc n deadline req] is what the gate at connection [n] answers, [Ok None] a nil response *)
Definition CallObject (rpc : nat -> Z -> CallObjectRequest -> result string (option Any)) (c : Client) (now : Z) (deadline : option Z)
    (typ id method : string) (request : option Msg) : option (result client_error (option Msg)) :=
  guarded c (fun n =>
    match MsgToAny rt request with
    | Err e => Err (ErrMarshal e)
    | Ok anyReq =>
        match rpc n (callDeadline c now deadline) (mkCall (clientID c) typ id method anyReq) with
        | Err e => Err (ErrRPC e)
        | Ok None => Ok None
        | Ok (Some a) => match unmarshalNew rt a with Ok m => Ok (Some m) | Err e => Err (ErrUnmarshal e) end
        end
    end).

(** [CallObjectAny] *)
Definition CallObjectAny (rpc : nat -> Z -> CallObjectRequest -> result string (option Any)) (c : Client) (now : Z) (deadline : option Z)
    (typ id method : string) (request : option Any) : option (result client_error (option Any)) :=
  guarded c (fun n =>
    match rpc n (callDeadline c now deadline) (mkCall (clientID c) typ id method request) with Err e => Err (ErrRPC e) | Ok a => Ok a end).

(** [CreateObject] and [DeleteObject] *)
Definition CreateObject (rpc : nat -> Z -> string -> string -> result string string) (c : Client) (now : Z) (deadline : option Z) (typ id : string)
    : option (result client_error string) :=
  guarded c (fun n => match rpc n (callDeadline c now deadline) typ id with Err e => Err (ErrRPC e) | Ok i => Ok i end).
Definition DeleteObject (rpc : nat -> Z -> string -> string -> result string ()) (c : Client) (now : Z) (deadline : option Z) (typ id : string)
    : option (result client_error ()) :=
  guarded c (fun n => match rpc n (callDeadline c now deadline) typ id with Err e => Err (ErrRPC e) | Ok i => Ok i end).

(** [ReliableCallObject]: the result with the status text *)
Definition ReliableCallObject (rpc : nat -> Z -> ReliableCallRequest -> result string ReliableCallResponse) (c : Client) (now : Z) (deadline : option Z)
    (callID typ id method : string) (request : option Msg) : option (result client_error (option Msg) * string) :=
  if closed c then Some (Err ErrClientClosed, "skipped")
  else if negb (connected c) then Some (Err ErrNotConnected, "skipped")
  else match client c with
  | None => None
  | Some n => Some
      match MsgToAny rt request with
      | Err e => (Err (ErrMarshal e), "skipped")
      | Ok requestAny =>
          match rpc n (callDeadline c now deadline) (mkReliable callID typ id method requestAny) with
          | Err e => (Err (ErrRPC e), "unknown")
          | Ok resp =>
              if bool_decide (Error resp <> "") then (Err (ErrResponse (Error resp)), Status resp)
              else match AnyToMsg rt (Response resp) with
                   | Err e => (Err (ErrUnmarshal e), Status resp)
                   | Ok m => (Ok m, Status resp)
                   end
          end
      end
  end.

End Calls.

(** ** Connecting and receiving *)

(** [Connect] of one goroutine on its own: [dial addr] is the client id that the gate at [addr] registers, and the number
    that the connection gets *)
Fixpoint connectLoop (dial : string -> result string (nat * string)) (c : Client) (addrs : list string) : Client * result client_error () :=
  match addrs with
  | [] => (c, Err ErrConnectionFailed)
  | addr :: rest =>
      match dial addr with
      | Ok (n, cid) => match publish c n addr cid with Some c' => (c', Ok tt) | None => connectLoop dial c rest end
      | Err _ => connectLoop dial c rest
      end
  end.

Definition Connect (dial : string -> result string (nat * string)) (c : Client) : Client * result client_error () :=
  match connectCheck c with
  | Err e => (c, Err e)
  | Ok false => (c, Ok tt)
  | Ok true => connectLoop dial c (addresses c)
  end.

(** Where a goroutine of [receiveMessages] is *)
Inductive receiver : Type :=
| AtTop
| Receiving (st : nat)                        (* in stream.Recv *)
| Failed                                      (* Recv returned an error; the callback runs *)
| Got (m : Msg).                              (* a message is about to be sent to the channel *)

(** The client with the goroutines inside [Connect] past its check, the receivers, and for every connection the
    address and the client id its gate assigned, and which connections and streams the client has ended *)
Record world : Type := mkWorld {
  cl : Client;
  connecting : nat;
  receivers : gmap nat receiver;
  conns : gmap nat (string * string);
  ended : gset nat;
  panicked : bool
}.

Definition opt_set (o : option nat) : gset nat := match o with Some n => {[ n ]} | None => ∅ end.
Definition ending (w : world) (r : Client * option nat * option nat) (k : nat) (rs : gmap nat receiver) : world :=
  let '(c, s, n) := r in mkWorld c k rs (conns w) (opt_set s ∪ opt_set n ∪ ended w) (panicked w).

Inductive step (w : world) : world -> Prop :=
| C_connect : connectCheck (cl w) = Ok true -> step w (mkWorld (cl w) (S (connecting w)) (receivers w) (conns w) (ended w) (panicked w))
| C_publish k n g addr cid c' : connecting w = S k -> addr ∈ addresses (cl w) -> conns w !! n = None -> receivers w !! g = None -> publish (cl w) n addr cid = Some c' ->
    step w (mkWorld c' k (<[g := AtTop]> (receivers w)) (<[n := (addr, cid)]> (conns w)) (ended w) (panicked w))
| C_discard n addr cid : (0 < connecting w)%nat -> conns w !! n = None -> publish (cl w) n addr cid = None ->
    step w (mkWorld (cl w) (connecting w) (receivers w) (<[n := (addr, cid)]> (conns w)) ({[ n ]} ∪ ended w) (panicked w))
| C_connect_failed k : connecting w = S k -> step w (mkWorld (cl w) k (receivers w) (conns w) (ended w) (panicked w))
| C_reconnect r : reconnectCleanup (cl w) = Ok r -> step w (ending w r (S (connecting w)) (receivers w))
| C_receive g st : receivers w !! g = Some AtTop -> receiveFrom (cl w) = Some st ->
    step w (mkWorld (cl w) (connecting w) (<[g := Receiving st]> (receivers w)) (conns w) (ended w) (panicked w))
| C_return g : receivers w !! g = Some AtTop -> receiveFrom (cl w) = None ->
    step w (mkWorld (cl w) (connecting w) (delete g (receivers w)) (conns w) (ended w) (panicked w))
| C_message g st m : receivers w !! g = Some (Receiving st) ->
    step w (mkWorld (cl w) (connecting w) (<[g := Got m]> (receivers w)) (conns w) (ended w) (panicked w))
| C_unmarshal_failed g st : receivers w !! g = Some (Receiving st) ->
    step w (mkWorld (cl w) (connecting w) (<[g := AtTop]> (receivers w)) (conns w) (ended w) (panicked w))
| C_deliver g m c' : receivers w !! g = Some (Got m) -> deliver (cl w) m = Some c' ->
    step w (mkWorld c' (connecting w) (<[g := AtTop]> (receivers w)) (conns w) (ended w) (panicked w))
| C_deliver_closed g m : receivers w !! g = Some (Got m) -> deliver (cl w) m = None ->
    step w (mkWorld (cl w) (connecting w) (delete g (receivers w)) (conns w) (ended w) true)
| C_recv_error_closed g st : receivers w !! g = Some (Receiving st) -> closed (cl w) = true ->
    step w (mkWorld (cl w) (connecting w) (delete g (receivers w)) (conns w) (ended w) (panicked w))
| C_recv_error g st : receivers w !! g = Some (Receiving st) -> closed (cl w) = false ->
    step w (mkWorld (cl w) (connecting w) (<[g := Failed]> (receivers w)) (conns w) (ended w) (panicked w))
| C_disconnect g : receivers w !! g = Some Failed -> step w (ending w (handleDisconnect (cl w)) (connecting w) (delete g (receivers w)))
| C_take m rest : messageChan (cl w) = m :: rest ->
    step w (mkWorld (mkClient (addresses (cl w)) (options (cl w)) (conn (cl w)) (client (cl w)) (stream (cl w)) (streamCancel (cl w)) (clientID (cl w))
      (connected (cl w)) (closed (cl w)) (currentAddr (cl w)) rest (chanClosed (cl w))) (connecting w) (receivers w) (conns w) (ended w) (panicked w))
| C_close r : Close (cl w) = Some r -> step w (ending w r (connecting w) (receivers w))
| C_close_panics : Close (cl w) = None -> step w (mkWorld (cl w) (connecting w) (receivers w) (conns w) (ended w) true).

Definition initial (c : Client) : world := mkWorld c 0 ∅ ∅ ∅ false.

End Types.
End Client.

(** ** The state of the connection *)

Section ConnectionState.
Import Client.
Context {Msg : Type}.
Implicit Types w : world (Msg := Msg).
Implicit Types c : Client (Msg := Msg).

(** The four fields made with a connection *)
Definition fields (c : Client (Msg := Msg)) : list (option nat) := [conn c; client c; stream c; streamCancel c].

Record conn_inv (addrs : list string) (w : world (Msg := Msg)) : Prop := {
  vi_addrs : addresses (cl w) = addrs;
  vi_connected : connected (cl w) = true -> closed (cl w) = false /\ exists n, fields (cl w) = [Some n; Some n; Some n; Some n] /\
    conns w !! n = Some (currentAddr (cl w), clientID (cl w)) /\ n ∉ ended w /\ currentAddr (cl w) ∈ addrs;
  vi_disconnected : connected (cl w) = false -> closed (cl w) = false -> fields (cl w) = [None; None; None; None] /\ clientID (cl w) = "";
  vi_chan : chanClosed (cl w) = closed (cl w) /\ (length (messageChan (cl w)) <= messageChannelBufferSize)%nat;
  vi_ended : forall n, n ∈ ended w -> is_Some (conns w !! n)
}.

(** Steps of the goroutines that leave the client alone *)
Lemma conn_inv_goroutines addrs w k rs pk : conn_inv addrs w -> conn_inv addrs (mkWorld (cl w) k rs (conns w) (ended w) pk).
Proof. intros []. split; done. Qed.

(** The client disconnects and ends what it had *)
Lemma conn_inv_disconnect addrs w c' k rs : conn_inv addrs w -> closed (cl w) = false -> addresses c' = addresses (cl w) -> connected c' = false ->
  (closed c' = false -> fields c' = [None; None; None; None] /\ clientID c' = "") -> chanClosed c' = closed c' -> messageChan c' = messageChan (cl w) ->
  conn_inv addrs (ending w (c', streamCancel (cl w), conn (cl w)) k rs).
Proof.
  intros [Ha Hc Hd [Hch Hlen] He] Hcl H1 H2 H3 H4 H5. split; cbn; try congruence; [auto|split; congruence|].
  intros n. destruct (connected (cl w)) eqn:Hcon.
  - destruct (Hc eq_refl) as (_ & m & Hf & Hm & _). unfold fields in Hf. injection Hf as F1 _ _ F4. rewrite F1, F4. cbn. rewrite !elem_of_union, !elem_of_singleton. naive_solver.
  - destruct (Hd eq_refl Hcl) as [Hf _]. unfold fields in Hf. injection Hf as F1 _ _ F4. rewrite F1, F4. cbn. rewrite !elem_of_union, !elem_of_empty. naive_solver.
Qed.

Lemma conn_inv_step addrs w w' : conn_inv addrs w -> step w w' -> conn_inv addrs w'.
Proof.
  intros Hi Hs. pose proof Hi as [Ha Hc Hd [Hch Hlen] He].
  destruct Hs as [_|k n g addr cid c' Hk Hin Hn Hg Hp|n addr cid Hk Hn Hp|k Hk|r Hr|g st Hg Hr|g Hg Hr|g st m Hg|g st Hg|g m c' Hg Hdl|g m Hg Hdl
    |g st Hg Hcl|g st Hg Hcl|g Hg|m rest Hm|r Hr|Hr]; try (by apply conn_inv_goroutines).
  - unfold publish in Hp. destruct (closed (cl w)) eqn:Hcl; [done|]. injection Hp as <-. split; cbn; try done.
    + intros _. split; [done|]. exists n. rewrite lookup_insert_eq. split_and!; try done; [|congruence]. intros Hx%He. rewrite Hn in Hx. by destruct Hx.
    + intros m Hm%He. rewrite lookup_insert_is_Some'. auto.
  - split; cbn; try done.
    + intros Hcon. destruct (Hc Hcon) as (? & m & ? & Hm & ? & ?). split; [done|]. assert (m <> n) by congruence. exists m. rewrite lookup_insert_ne by done. set_solver.
    + intros m. rewrite elem_of_union, elem_of_singleton, lookup_insert_is_Some'. intros [->|?]; auto.
  - unfold reconnectCleanup in Hr. destruct (closed (cl w)) eqn:Hcl; [done|]. injection Hr as <-. by apply conn_inv_disconnect; try done; cbn; congruence.
  - unfold deliver in Hdl. destruct (chanClosed (cl w)) eqn:Hx; [done|]. destruct (length (messageChan (cl w)) <? messageChannelBufferSize)%nat eqn:Hl; simplify_eq; [|by apply conn_inv_goroutines].
    apply Nat.ltb_lt in Hl. split; cbn -[messageChannelBufferSize]; try done. split; [congruence|]. rewrite length_app. cbn -[messageChannelBufferSize]. lia.
  - unfold handleDisconnect. destruct (closed (cl w)) eqn:Hcl.
    + cbn. rewrite !union_empty_l_L. by apply conn_inv_goroutines.
    + by apply conn_inv_disconnect; try done; cbn; congruence.
  - split; cbn -[messageChannelBufferSize]; try done. rewrite Hm in Hlen. cbn -[messageChannelBufferSize] in Hlen. split; [done|lia].
  - unfold Close in Hr. destruct (closed (cl w)) eqn:Hcl.
    + injection Hr as <-. cbn. rewrite !union_empty_l_L. by apply conn_inv_goroutines.
    + rewrite Hch in Hr. injection Hr as <-. by apply conn_inv_disconnect.
Qed.

Lemma reachable_conn_inv addrs opts c w : NewClient addrs opts = Ok c -> rtc step (initial c) w -> conn_inv addrs w.
Proof.
  unfold NewClient. destruct (bool_decide (addrs = [])); [done|]. intros [= <-]. revert w.
  apply (rtc_ind_r (conn_inv addrs)); [|intros; by eapply conn_inv_step].
  split; cbn; try done; try set_solver. split; [done|lia].
Qed.

End ConnectionState.

(** C34: the fields of the client are consistent in every reachable state, whatever connects, reconnects,
    disconnects, closes and receives at the same time.  When the client is connected it is not closed, its
    connection, gRPC client, stream and cancel function all belong to one connection to one of its addresses that
    it has not ended, and its client id is the one the gate assigned on that connection; when it is neither
    connected nor closed it has none of them.  So no call dereferences a nil client: a call on a closed client
    returns [ErrClientClosed], on a client that is not connected [ErrNotConnected], and any other is sent over
    a connection that is in use, under the client id of that connection.  Closing never closes the message
    channel twice, and the channel holds at most a hundred messages. *)
Theorem client_state_consistent {Msg Any : Type} (rt : Runtime Any Msg) addrs opts (c : Client.Client (Msg := Msg)) w :
  Client.NewClient addrs opts = Ok c -> rtc Client.step (Client.initial c) w ->
  (Client.connected (Client.cl w) = false -> Client.closed (Client.cl w) = false -> fields (Client.cl w) = [None; None; None; None]) /\
  is_Some (Client.Close (Client.cl w)) /\ (length (Client.messageChan (Client.cl w)) <= 100)%nat /\
  forall rpc now deadline typ id method request, exists r,
    Client.CallObjectAny (Any := Any) rpc (Client.cl w) now deadline typ id method request = Some r /\
    (r = Err Client.ErrClientClosed /\ Client.closed (Client.cl w) = true \/
     r = Err Client.ErrNotConnected /\ Client.closed (Client.cl w) = false /\ Client.connected (Client.cl w) = false \/
     Client.IsConnected (Client.cl w) = true /\
     exists n addr cid, fields (Client.cl w) = [Some n; Some n; Some n; Some n] /\ Client.conns w !! n = Some (addr, cid) /\ addr ∈ addrs /\ n ∉ Client.ended w /\
       r = match rpc n (Client.callDeadline (Client.cl w) now deadline) (Client.mkCall cid typ id method request) with
           | Err e => Err (Client.ErrRPC e) | Ok a => Ok a end).
Proof.
  intros Hnew Hr. destruct (reachable_conn_inv addrs opts c w Hnew Hr) as [Ha Hc Hd [Hch Hlen] He]. split_and!.
  - intros. by apply Hd.
  - unfold Client.Close. destruct (Client.closed (Client.cl w)); [done|]. by rewrite Hch.
  - done.
  - intros rpc now deadline typ id method request. unfold Client.CallObjectAny, Client.guarded, Client.IsConnected.
    destruct (Client.closed (Client.cl w)) eqn:Hcl; [eexists; split; [done|]; by left|].
    destruct (Client.connected (Client.cl w)) eqn:Hcon; cbn; [|eexists; split; [done|]; right; left; done].
    destruct (Hc eq_refl) as (_ & n & Hf & Hn & Hend & Hin). pose proof Hf as Hf'. unfold fields in Hf'. injection Hf' as _ F2 _ _. rewrite F2.
    eexists. split; [done|]. right. right. split; [done|]. exists n, (Client.currentAddr (Client.cl w)), (Client.clientID (Client.cl w)). done.
Qed.

Module ClientExample.
Import Client.
Definition addrs : list string := ["gate1:49000"; "gate2:49000"].
Definition c0 : Client (Msg := nat) := mkClient addrs defaultOptions None None None None "" false false "" [] false.
Definition c1 (n : nat) (addr cid : string) : Client (Msg := nat) := mkClient addrs defaultOptions (Some n) (Some n) (Some n) (Some n) cid true false addr [] false.
Definition w1 : world (Msg := nat) := mkWorld (c1 1 "gate1:49000" "g1/x") 0 {[ 0 := AtTop ]} {[ 1 := ("gate1:49000", "g1/x") ]} ∅ false.
Lemma w1_reachable : rtc step (initial c0) w1.
Proof.
  eapply rtc_l; [apply C_connect; reflexivity|].
  eapply rtc_l; [apply (C_publish _ 0 1 0 "gate1:49000" "g1/x" (c1 1 "gate1:49000" "g1/x")); [reflexivity|by left|reflexivity..]|]. apply rtc_refl.
Qed.
Definition rt : Runtime nat nat := mkRuntime nat nat Ok Ok (fun _ => Ok "") (fun _ => Ok 0) (fun _ => "").
End ClientExample.

Lemma client_state_consistent_witness :
  is_Some (Client.Close (Client.cl ClientExample.w1)).
Proof.
  apply (client_state_consistent ClientExample.rt ClientExample.addrs [] ClientExample.c0 ClientExample.w1).
  - reflexivity.
  - exact ClientExample.w1_reachable.
Defined.

(** [Connect] connects to the first of the addresses whose gate registers the client, and fails only when none does. *)
Theorem Connect_first_available {Msg : Type} dial (c : Client.Client (Msg := Msg)) c' r :
  Client.closed c = false -> Client.connected c = false -> Client.Connect dial c = (c', r) ->
  (r = Ok tt /\ exists pre addr post n cid, Client.addresses c = pre ++ addr :: post /\ Forall (fun a => is_ok (dial a) = false) pre /\
     dial addr = Ok (n, cid) /\ Client.publish c n addr cid = Some c') \/
  (r = Err Client.ErrConnectionFailed /\ c' = c /\ Forall (fun a => is_ok (dial a) = false) (Client.addresses c)).
Proof.
  intros Hcl Hcon. unfold Client.Connect, Client.connectCheck. rewrite Hcl, Hcon. cbn. generalize (Client.addresses c) as addrs.
  induction addrs as [|a addrs IH]; cbn; [intros [= <- <-]; by right|].
  destruct (dial a) as [[n cid]|e] eqn:Hd.
  - unfold Client.publish at 1. rewrite Hcl. intros [= <- <-]. left. split; [done|]. exists [], a, addrs, n, cid. unfold Client.publish. rewrite Hcl. done.
  - intros H. destruct (IH H) as [(-> & pre & addr & post & n & cid & -> & Hpre & Hx & Hp)|(-> & -> & Hall)].
    + left. split; [done|]. exists (a :: pre), addr, post, n, cid. split_and!; [done| |done|done]. constructor; [by rewrite Hd|done].
    + right. split_and!; [done|done|]. constructor; [by rewrite Hd|done].
Qed.

(** ** Races *)

(** The receiver of a replaced stream tears the new connection down.  The receiver that saw its stream fail runs
    the callback [OnDisconnect] and then disconnects whatever connection the client has: when the client is
    reconnected in between, by the callback itself for instance, the new connection is closed and the client
    is not connected although [Reconnect] succeeded and no call of it failed. *)
Theorem stale_receiver_disconnects :
  exists w w' : Client.world (Msg := nat), rtc Client.step (Client.initial ClientExample.c0) w /\
    Client.IsConnected (Client.cl w) = true /\ Client.currentAddr (Client.cl w) = "gate2:49000" /\ Client.conn (Client.cl w) = Some 2 /\ 2 ∉ Client.ended w /\
    Client.step w w' /\ Client.IsConnected (Client.cl w') = false /\ 2 ∈ Client.ended w'.
Proof.
  eexists (Client.mkWorld (ClientExample.c1 2 "gate2:49000" "g2/y") 0 (<[1 := Client.AtTop]> {[ 0 := Client.Failed ]}) _ {[ 1 ]} false), _. split_and!.
  - etrans; [apply ClientExample.w1_reachable|].
    eapply rtc_l; [apply (Client.C_receive _ 0 1); reflexivity|].
    eapply rtc_l; [apply (Client.C_recv_error _ 0 1); reflexivity|].
    eapply rtc_l; [eapply Client.C_reconnect; reflexivity|].
    eapply rtc_l; [apply (Client.C_publish _ 0 2 1 "gate2:49000" "g2/y" (ClientExample.c1 2 "gate2:49000" "g2/y")); [reflexivity|by right; left|reflexivity..]|].
    apply rtc_refl.
  - reflexivity.
  - reflexivity.
  - reflexivity.
  - cbn. set_solver.
  - apply (Client.C_disconnect _ 0). reflexivity.
  - reflexivity.
  - cbn. set_solver.
Qed.

(** A message that arrives while the client is closed is sent on the closed channel: the receiver panics. *)
Theorem message_during_close_panics :
  exists w : Client.world (Msg := nat), rtc Client.step (Client.initial ClientExample.c0) w /\ Client.panicked w = true.
Proof.
  eexists. split.
  - etrans; [apply ClientExample.w1_reachable|].
    eapply rtc_l; [apply (Client.C_receive _ 0 1); reflexivity|].
    eapply rtc_l; [apply (Client.C_message _ 0 1 7); reflexivity|].
    eapply rtc_l; [eapply Client.C_close; reflexivity|].
    eapply rtc_l; [apply (Client.C_deliver_closed _ 0 7); reflexivity|]. apply rtc_refl.
  - reflexivity.
Qed.

(** Two [Connect] calls at the same time both connect: the connection of the first is never closed, also not by
    [Close]. *)
Theorem concurrent_Connect_leaks :
  exists w : Client.world (Msg := nat), rtc Client.step (Client.initial ClientExample.c0) w /\ Client.closed (Client.cl w) = true /\
    is_Some (Client.conns w !! 1) /\ 1 ∉ Client.ended w.
Proof.
  eexists. split.
  - eapply rtc_l; [apply Client.C_connect; reflexivity|].
    eapply rtc_l; [apply Client.C_connect; reflexivity|].
    eapply rtc_l; [apply (Client.C_publish _ 1 1 0 "gate1:49000" "g1/x" (ClientExample.c1 1 "gate1:49000" "g1/x")); [reflexivity|by left|reflexivity..]|].
    eapply rtc_l; [apply (Client.C_publish _ 0 2 1 "gate1:49000" "g1/y" (ClientExample.c1 2 "gate1:49000" "g1/y")); [reflexivity|by left|reflexivity..]|].
    eapply rtc_l; [eapply Client.C_close; reflexivity|]. apply rtc_refl.
  - cbn. split_and!; [done|by eexists|set_solver].
Qed.

(** After a failed [Reconnect] the address of the old gate is still reported. *)
Theorem failed_Reconnect_keeps_address :
  exists c s n, Client.reconnectCleanup (Client.cl ClientExample.w1) = Ok (c, s, n) /\ Client.IsConnected c = false /\ Client.CurrentAddress c = "gate1:49000".
Proof. do 3 eexists. split; [reflexivity|]. done. Qed.
