(* ===== verification/InspectorGraph.v ===== *)
(** * The inspector's graph (cmd/inspector/graph, cmd/inspector/models)

    The nodes, gates and objects that the inspector has been told of, and the events that it sends to its
    observers.  An operation returns the new graph and the events it emits, in order; the order in which a
    map is ranged over is the parameter [range].  [replay] is what an observer that keeps a copy does with an
    event, which is how the events are specified. *)

From S2P Require Import Prelude GoStrings GoFloat.
Import Float64.

Module Graph.

Record GoverseNode : Type := mkNode {
  nID : string; nLabel : string; nColor : string; nType : string; nAdvertiseAddr : string; nRegisteredAt : Z;
  nObjectCount : Z; nConnectedNodes : list string; nRegisteredGates : list string; nLinkMetrics : gmap string Z
}.

Record GoverseGate : Type := mkGate {
  gID : string; gLabel : string; gColor : string; gType : string; gAdvertiseAddr : string; gRegisteredAt : Z;
  gConnectedNodes : list string; gClients : Z; gLinkMetrics : gmap string Z
}.

Record GoverseObject : Type := mkObject {
  oID : string; oLabel : string; oSize : float64; oColor : string; oType : string; oGoverseNodeID : string; oShardID : Z;
  oCallsPerMinute : Z; oAvgExecutionDurationUs : float64
}.

(** [EventType] and [GraphEvent] *)
Inductive GraphEvent : Type :=
| EventNodeAdded (n : GoverseNode)
| EventNodeUpdated (n : GoverseNode)
| EventNodeRemoved (id : string)
| EventGateAdded (g : GoverseGate)
| EventGateUpdated (g : GoverseGate)
| EventGateRemoved (id : string)
| EventObjectAdded (o : GoverseObject)
| EventObjectUpdated (o : GoverseObject)
| EventObjectRemoved (id : string)
| EventObjectCall (id class method nodeAddress : string).

Record GoverseGraph : Type := mkGraph {
  objects : gmap string GoverseObject;
  nodes : gmap string GoverseNode;
  gates : gmap string GoverseGate
}.

(** [NewGoverseGraph] *)
Definition NewGoverseGraph : GoverseGraph := mkGraph ∅ ∅ ∅.

Definition set_objects (g : GoverseGraph) (m : gmap string GoverseObject) : GoverseGraph := mkGraph m (nodes g) (gates g).
Definition set_nodes (g : GoverseGraph) (m : gmap string GoverseNode) : GoverseGraph := mkGraph (objects g) m (gates g).
Definition set_gates (g : GoverseGraph) (m : gmap string GoverseGate) : GoverseGraph := mkGraph (objects g) (nodes g) m.

(** The objects of a node *)
Definition countOn (g : GoverseGraph) (nodeID : string) : Z := Z.of_nat (size (filter (fun p => oGoverseNodeID p.2 = nodeID) (objects g))).

Definition with_count (n : GoverseNode) (c : Z) : GoverseNode :=
  mkNode (nID n) (nLabel n) (nColor n) (nType n) (nAdvertiseAddr n) (nRegisteredAt n) c (nConnectedNodes n) (nRegisteredGates n) (nLinkMetrics n).

(** [GetNodes], [GetObjects] and [GetGates], in some order *)
Definition GetNodes (g : GoverseGraph) : list GoverseNode := (fun p => with_count p.2 (countOn g (nID p.2))) <$> map_to_list (nodes g).
Definition GetObjects (g : GoverseGraph) : list GoverseObject := (map_to_list (objects g)).*2.
Definition GetGates (g : GoverseGraph) : list GoverseGate := (map_to_list (gates g)).*2.

(** [AddOrUpdateObject] *)
Definition AddOrUpdateObject (g : GoverseGraph) (o : GoverseObject) : GoverseGraph * list GraphEvent :=
  (set_objects g (<[oID o := o]> (objects g)),
   [if bool_decide (is_Some (objects g !! oID o)) then EventObjectUpdated o else EventObjectAdded o]).

(** [AddOrUpdateNode] *)
Definition AddOrUpdateNode (g : GoverseGraph) (n : GoverseNode) : GoverseGraph * list GraphEvent :=
  (set_nodes g (<[nID n := n]> (nodes g)),
   [if bool_decide (is_Some (nodes g !! nID n)) then EventNodeUpdated n else EventNodeAdded n]).

(** [IsNodeRegistered] *)
Definition IsNodeRegistered (g : GoverseGraph) (addr : string) : bool :=
  existsb (fun p => bool_decide (nAdvertiseAddr p.2 = addr)) (map_to_list (nodes g)).

(** [RemoveObject] *)
Definition RemoveObject (g : GoverseGraph) (id : string) : GoverseGraph * list GraphEvent :=
  (set_objects g (delete id (objects g)), if bool_decide (is_Some (objects g !! id)) then [EventObjectRemoved id] else []).

Section Range.
Context (range : gmap string GoverseObject -> list (string * GoverseObject)).

(** The objects that satisfy [stale] are deleted, and reported removed in the order of the range *)
Definition removeObjects (g : GoverseGraph) (stale : string * GoverseObject -> bool) : GoverseGraph * list GraphEvent :=
  (set_objects g (filter (fun p => stale p = false) (objects g)),
   (fun p => EventObjectRemoved p.1) <$> filter (fun p => stale p = true) (range (objects g))).

(** [RemoveNode] *)
Definition RemoveNode (g : GoverseGraph) (id : string) : GoverseGraph * list GraphEvent :=
  let nodeExists := bool_decide (is_Some (nodes g !! id)) in
  let g := set_nodes g (delete id (nodes g)) in
  let '(g, ev) := removeObjects g (fun p => bool_decide (oGoverseNodeID p.2 = id)) in
  (g, ev ++ if nodeExists then [EventNodeRemoved id] else []).

(** [RemoveStaleObjects]: [current] are the ids that the node reports *)
Definition RemoveStaleObjects (g : GoverseGraph) (nodeID : string) (current : list string) : GoverseGraph * list GraphEvent :=
  removeObjects g (fun p => bool_decide (oGoverseNodeID p.2 = nodeID) && bool_decide (p.1 ∉ current)).

End Range.

(** [AddOrUpdateGate] *)
Definition AddOrUpdateGate (g : GoverseGraph) (x : GoverseGate) : GoverseGraph * list GraphEvent :=
  (set_gates g (<[gID x := x]> (gates g)),
   [if bool_decide (is_Some (gates g !! gID x)) then EventGateUpdated x else EventGateAdded x]).

(** [IsGateRegistered] *)
Definition IsGateRegistered (g : GoverseGraph) (addr : string) : bool :=
  existsb (fun p => bool_decide (gAdvertiseAddr p.2 = addr)) (map_to_list (gates g)).

(** [RemoveGate] *)
Definition RemoveGate (g : GoverseGraph) (id : string) : GoverseGraph * list GraphEvent :=
  (set_gates g (delete id (gates g)), if bool_decide (is_Some (gates g !! id)) then [EventGateRemoved id] else []).

(** [UpdateNodeConnectedNodes] and [UpdateNodeRegisteredGates]: the event has the object count, the graph not *)
Definition updateNode (g : GoverseGraph) (id : string) (f : GoverseNode -> GoverseNode) : GoverseGraph * list GraphEvent :=
  match nodes g !! id with
  | None => (g, [])
  | Some n => (set_nodes g (<[id := f n]> (nodes g)), [EventNodeUpdated (with_count (f n) (countOn g id))])
  end.
Definition UpdateNodeConnectedNodes (g : GoverseGraph) (id : string) (cs : list string) : GoverseGraph * list GraphEvent :=
  updateNode g id (fun n => mkNode (nID n) (nLabel n) (nColor n) (nType n) (nAdvertiseAddr n) (nRegisteredAt n) (nObjectCount n) cs (nRegisteredGates n) (nLinkMetrics n)).
Definition UpdateNodeRegisteredGates (g : GoverseGraph) (id : string) (gs : list string) : GoverseGraph * list GraphEvent :=
  updateNode g id (fun n => mkNode (nID n) (nLabel n) (nColor n) (nType n) (nAdvertiseAddr n) (nRegisteredAt n) (nObjectCount n) (nConnectedNodes n) gs (nLinkMetrics n)).

(** [UpdateGateConnectedNodes] and [UpdateGateClients] *)
Definition updateGate (g : GoverseGraph) (id : string) (f : GoverseGate -> GoverseGate) : GoverseGraph * list GraphEvent :=
  match gates g !! id with
  | None => (g, [])
  | Some x => (set_gates g (<[id := f x]> (gates g)), [EventGateUpdated (f x)])
  end.
Definition UpdateGateConnectedNodes (g : GoverseGraph) (id : string) (cs : list string) : GoverseGraph * list GraphEvent :=
  updateGate g id (fun x => mkGate (gID x) (gLabel x) (gColor x) (gType x) (gAdvertiseAddr x) (gRegisteredAt x) cs (gClients x) (gLinkMetrics x)).
Definition UpdateGateClients (g : GoverseGraph) (id : string) (n : Z) : GoverseGraph * list GraphEvent :=
  updateGate g id (fun x => mkGate (gID x) (gLabel x) (gColor x) (gType x) (gAdvertiseAddr x) (gRegisteredAt x) (gConnectedNodes x) n (gLinkMetrics x)).

(** [BroadcastObjectCall] *)
Definition BroadcastObjectCall (id class method nodeAddress : string) : list GraphEvent := [EventObjectCall id class method nodeAddress].

(** ** An observer that keeps a copy *)

Definition replay (g : GoverseGraph) (e : GraphEvent) : GoverseGraph :=
  match e with
  | EventNodeAdded n | EventNodeUpdated n => set_nodes g (<[nID n := n]> (nodes g))
  | EventNodeRemoved id => set_nodes g (delete id (nodes g))
  | EventGateAdded x | EventGateUpdated x => set_gates g (<[gID x := x]> (gates g))
  | EventGateRemoved id => set_gates g (delete id (gates g))
  | EventObjectAdded o | EventObjectUpdated o => set_objects g (<[oID o := o]> (objects g))
  | EventObjectRemoved id => set_objects g (delete id (objects g))
  | EventObjectCall _ _ _ _ => g
  end.

(** The graph without the object counts of its nodes, which are computed on request *)
Definition uncounted (g : GoverseGraph) : GoverseGraph := set_nodes g ((fun n => with_count n 0) <$> nodes g).

End Graph.

(** ** Lemmas *)

Section GraphLemmas.
Import Graph.
Context (range : gmap string GoverseObject -> list (string * GoverseObject)) (Hrange : forall m, range m ≡ₚ map_to_list m).
Implicit Types g : GoverseGraph.

(** Keys are the identifiers *)
Definition keyed (g : GoverseGraph) : Prop :=
  (forall k o, objects g !! k = Some o -> oID o = k) /\ (forall k n, nodes g !! k = Some n -> nID n = k /\ nAdvertiseAddr n = k) /\
  (forall k x, gates g !! k = Some x -> gID x = k /\ gAdvertiseAddr x = k).

Lemma IsNodeRegistered_spec g addr : keyed g -> IsNodeRegistered g addr = true <-> is_Some (nodes g !! addr).
Proof.
  intros (_ & Hn & _). unfold IsNodeRegistered. rewrite existsb_exists. split.
  - intros ([k n] & Hin & Ha). apply bool_decide_eq_true in Ha. apply list_elem_of_In, elem_of_map_to_list in Hin. cbn in *.
    destruct (Hn k n Hin) as [_ Hk]. rewrite <- Ha, Hk. by eexists.
  - intros [n Hk]. exists (addr, n). split; [by apply list_elem_of_In, elem_of_map_to_list|]. apply bool_decide_eq_true. by destruct (Hn _ _ Hk).
Qed.

Lemma IsGateRegistered_spec g addr : keyed g -> IsGateRegistered g addr = true <-> is_Some (gates g !! addr).
Proof.
  intros (_ & _ & Hn). unfold IsGateRegistered. rewrite existsb_exists. split.
  - intros ([k n] & Hin & Ha). apply bool_decide_eq_true in Ha. apply list_elem_of_In, elem_of_map_to_list in Hin. cbn in *.
    destruct (Hn k n Hin) as [_ Hk]. rewrite <- Ha, Hk. by eexists.
  - intros [n Hk]. exists (addr, n). split; [by apply list_elem_of_In, elem_of_map_to_list|]. apply bool_decide_eq_true. by destruct (Hn _ _ Hk).
Qed.

(** An operation is mirrored when replaying its events on the copy gives the copy of its result *)
Definition mirrored (g : GoverseGraph) (r : GoverseGraph * list GraphEvent) : Prop :=
  uncounted (foldl replay (uncounted g) r.2) = uncounted r.1.

Lemma uncounted_idemp g : uncounted (uncounted g) = uncounted g.
Proof. unfold uncounted, set_nodes. cbn. f_equal. rewrite <- map_fmap_compose. by apply map_fmap_ext. Qed.

Lemma replay_uncounted g e : uncounted (replay (uncounted g) e) = uncounted (replay g e).
Proof.
  unfold uncounted, set_nodes. destruct e; cbn; f_equal; rewrite ?fmap_insert, ?fmap_delete, <- ?map_fmap_compose; try (f_equal); by apply map_fmap_ext.
Qed.

Lemma replays_uncounted es g : uncounted (foldl replay (uncounted g) es) = uncounted (foldl replay g es).
Proof.
  revert g. induction es as [|e es IH]; intros g; cbn; [apply uncounted_idemp|].
  rewrite <- IH, replay_uncounted, IH. done.
Qed.

(** So it is enough to replay on the graph itself *)
Lemma mirrored_direct g r : uncounted (foldl replay g r.2) = uncounted r.1 -> mirrored g r.
Proof. intros Hr. unfold mirrored. by rewrite replays_uncounted. Qed.

Lemma mirrored_seq g r1 r2 : mirrored g r1 -> mirrored r1.1 r2 -> mirrored g (r2.1, r1.2 ++ r2.2).
Proof.
  unfold mirrored. intros H1 H2. cbn. rewrite foldl_app, <- H2, <- H1. by rewrite !replays_uncounted.
Qed.

Lemma mirror_AddOrUpdateObject g o : mirrored g (AddOrUpdateObject g o).
Proof. apply mirrored_direct. cbn. by case_bool_decide. Qed.
Lemma mirror_AddOrUpdateNode g n : mirrored g (AddOrUpdateNode g n).
Proof. apply mirrored_direct. cbn. by case_bool_decide. Qed.
Lemma mirror_AddOrUpdateGate g x : mirrored g (AddOrUpdateGate g x).
Proof. apply mirrored_direct. cbn. by case_bool_decide. Qed.

Lemma mirror_RemoveObject g id : mirrored g (RemoveObject g id).
Proof.
  apply mirrored_direct. cbn. case_bool_decide as Hb; [done|]. f_equal. destruct g. unfold set_objects. cbn in *. f_equal.
  rewrite delete_id; [done|]. by apply eq_None_not_Some.
Qed.
Lemma mirror_RemoveGate g id : mirrored g (RemoveGate g id).
Proof.
  apply mirrored_direct. cbn. case_bool_decide as Hb; [done|]. f_equal. destruct g. unfold set_gates. cbn in *. f_equal.
  rewrite delete_id; [done|]. by apply eq_None_not_Some.
Qed.

(** Replaying removals of objects *)
Lemma replay_removals g (l : list (string * GoverseObject)) :
  foldl replay g ((fun p => EventObjectRemoved p.1) <$> l) = set_objects g (filter (fun p => p.1 ∉ l.*1) (objects g)).
Proof.
  revert g. induction l as [|[k o] l IH]; intros g; cbn.
  - destruct g. unfold set_objects. cbn. f_equal. symmetry. apply map_filter_id. intros. set_solver.
  - rewrite IH. unfold set_objects. cbn. f_equal. apply map_eq. intros i. apply option_eq. intros x.
    rewrite !map_lookup_filter_Some, lookup_delete_Some. cbn. rewrite not_elem_of_cons. naive_solver.
Qed.

Lemma filter_stale (m : gmap string GoverseObject) stale :
  filter (fun p => p.1 ∉ (filter (fun p => stale p = true) (range m)).*1) m = filter (fun p => stale p = false) m.
Proof.
  apply map_eq. intros i. apply option_eq. intros x. rewrite !map_lookup_filter_Some. cbn. split; intros [Hx Hs]; (split; [done|]).
  - destruct (stale (i, x)) eqn:E; [|done]. destruct Hs. apply list_elem_of_fmap. exists (i, x). split; [done|].
    apply list_elem_of_filter. split; [done|]. rewrite Hrange. by apply elem_of_map_to_list.
  - intros ([i' x'] & -> & [Hs' Hin]%list_elem_of_filter)%list_elem_of_fmap. cbn in *. rewrite Hrange in Hin. apply elem_of_map_to_list in Hin. congruence.
Qed.

Lemma mirror_removeObjects g stale : mirrored g (removeObjects range g stale).
Proof. apply mirrored_direct. unfold removeObjects. cbn. by rewrite replay_removals, filter_stale. Qed.

Lemma mirror_RemoveNode g id : mirrored g (RemoveNode range g id).
Proof.
  apply mirrored_direct. unfold RemoveNode, removeObjects. cbn. rewrite foldl_app, replay_removals, filter_stale. f_equal.
  case_bool_decide as Hb; cbn; [done|]. unfold set_objects. cbn. f_equal. rewrite delete_id; [done|]. by apply eq_None_not_Some.
Qed.

Lemma with_count_twice n c : with_count (with_count n c) 0 = with_count n 0.
Proof. done. Qed.

Lemma mirror_updateNode g id f : keyed g -> (forall n, nID (f n) = nID n) -> mirrored g (updateNode g id f).
Proof.
  intros (_ & Hn & _) Hf. apply mirrored_direct. unfold updateNode. destruct (nodes g !! id) as [n|] eqn:E; [|done].
  cbn. rewrite Hf. destruct (Hn id n E) as [-> _]. unfold uncounted, set_nodes. cbn. f_equal. by rewrite !fmap_insert.
Qed.

Lemma mirror_updateGate g id f : keyed g -> (forall x, gID (f x) = gID x) -> mirrored g (updateGate g id f).
Proof.
  intros (_ & _ & Hn) Hf. apply mirrored_direct. unfold updateGate. destruct (gates g !! id) as [x|] eqn:E; [|done].
  cbn. rewrite Hf. by destruct (Hn id x E) as [-> _].
Qed.

End GraphLemmas.
