(* ===== verification/InspectorService.v ===== *)
(** * The inspector service (cmd/inspector/inspector)

    The handlers that nodes and gates call, on the graph of InspectorGraph.v, and the periodic refresh and
    cleanup of the call metrics.  A handler returns the new state, the events for the observers and an error if
    any; [now] is the time at which it runs. *)

From S2P Require Import Prelude GoStrings GoFloat InspectorGraph.
Import Float64 Graph.

Module InspectorSvc.

Definition second : Z := 1000000000.
Definition minute : Z := 60 * second.
Definition metricsRetentionDuration : Z := 2 * minute.

Record callMetric : Type := mkCallMetric { timestamp : Z; duration : Z (* int32, microseconds *) }.

Record Inspector : Type := mkInspector {
  pg : GoverseGraph;
  callMetrics : gmap string (list callMetric);
  linkMetrics : gmap string (list Z)
}.

(** [New] *)
Definition New (g : GoverseGraph) : Inspector := mkInspector g ∅ ∅.

Definition set_pg (i : Inspector) (g : GoverseGraph) : Inspector := mkInspector g (callMetrics i) (linkMetrics i).

(** [inspector_pb.Object] *)
Record Object : Type := mkPbObject { Id : string; Class : string; ShardId : Z }.

(** Float equality: false when either is a NaN *)
Definition feqb (x y : float64) : bool := match SpecFloat.SFcompare x y with Some Eq => true | _ => false end.

(** [getCallMetrics] *)
Definition recent (now : Z) (calls : list callMetric) : list callMetric := filter (fun c => (now - minute < timestamp c)%Z) calls.
Definition getCallMetrics (i : Inspector) (now : Z) (id : string) : Z * float64 :=
  match callMetrics i !! id with
  | None => (0%Z, f0)
  | Some calls =>
      let r := recent now calls in
      let total := foldl (fun t c => int64 (t + duration c)) 0%Z r in
      let count := Z.of_nat (length r) in
      (count, if (0 <? count)%Z then fdiv (of_int total) (of_int count) else f0)
  end.

(** [cleanupOldMetrics], one tick *)
Definition cleanupOldMetrics (i : Inspector) (now : Z) : Inspector :=
  let valid := (fun calls => filter (fun c => (now - metricsRetentionDuration < timestamp c)%Z) calls) <$> callMetrics i in
  mkInspector (pg i) (filter (fun p => p.2 <> []) valid) (linkMetrics i).

(** The record of an object as the inspector shows it *)
Definition objectOf (i : Inspector) (now : Z) (o : Object) (nodeAddress : string) : GoverseObject :=
  let '(callsPerMin, avgDur) := getCallMetrics i now (Id o) in
  mkObject (Id o) (Class o +:+ " (" +:+ Id o +:+ ")") (of_int 10) "" (Class o) nodeAddress (ShardId o) callsPerMin avgDur.

Inductive svc_error : Type := NodeNotRegistered | EmptyAddress.
Definition answer : Type := Inspector * list GraphEvent * result svc_error ().

(** Run an operation of the graph *)
Definition onGraph (i : Inspector) (r : GoverseGraph * list GraphEvent) : answer := (set_pg i r.1, r.2, Ok tt).
Definition ignored (i : Inspector) : answer := (i, [], Ok tt).
Definition refused (i : Inspector) (e : svc_error) : answer := (i, [], Err e).

(** [AddOrUpdateObject] *)
Definition AddOrUpdateObject (i : Inspector) (now : Z) (o : option Object) (nodeAddress : string) : answer :=
  match o with
  | None => ignored i
  | Some o =>
      if bool_decide (Id o = "") then ignored i
      else if negb (IsNodeRegistered (pg i) nodeAddress) then refused i NodeNotRegistered
      else onGraph i (Graph.AddOrUpdateObject (pg i) (objectOf i now o nodeAddress))
  end.

(** [RemoveObject] *)
Definition RemoveObject (i : Inspector) (objectID nodeAddress : string) : answer :=
  if bool_decide (objectID = "") then ignored i
  else if negb (IsNodeRegistered (pg i) nodeAddress) then refused i NodeNotRegistered
  else onGraph i (Graph.RemoveObject (pg i) objectID).

(** The reported objects that count: not nil and with an id *)
Definition reported (objs : list (option Object)) : list Object := filter (fun o => Id o <> "") (omap id objs).

(** [RegisterNode] *)
Definition addObject (now : Z) (addr : string) (acc : Inspector * list GraphEvent) (o : Object) : Inspector * list GraphEvent :=
  let '(i, ev) := acc in
  let '(g, ev') := Graph.AddOrUpdateObject (pg i) (objectOf i now o addr) in (set_pg i g, ev ++ ev').

Section Range.
Context (range : gmap string GoverseObject -> list (string * GoverseObject)).

Definition RegisterNode (i : Inspector) (now : Z) (addr : string) (objs : list (option Object)) (connectedNodes registeredGates : list string) : answer :=
  if bool_decide (addr = "") then refused i EmptyAddress
  else
    let node := mkNode addr ("Node " +:+ addr) "#4CAF50" "goverse_node" addr now 0 connectedNodes registeredGates ∅ in
    let '(g, ev1) := AddOrUpdateNode (pg i) node in
    let '(g, ev2) := RemoveStaleObjects range g addr (Id <$> reported objs) in
    let '(i, ev3) := foldl (addObject now addr) (set_pg i g, []) (reported objs) in
    (i, ev1 ++ ev2 ++ ev3, Ok tt).

(** [UnregisterNode] *)
Definition UnregisterNode (i : Inspector) (addr : string) : answer := onGraph i (RemoveNode range (pg i) addr).

End Range.

(** [RegisterGate] and [UnregisterGate] *)
Definition RegisterGate (i : Inspector) (now : Z) (addr : string) (connectedNodes : list string) (clients : Z) : answer :=
  if bool_decide (addr = "") then refused i EmptyAddress
  else onGraph i (AddOrUpdateGate (pg i) (mkGate addr ("Gate " +:+ addr) "#2196F3" "goverse_gate" addr now connectedNodes clients ∅)).
Definition UnregisterGate (i : Inspector) (addr : string) : answer := onGraph i (RemoveGate (pg i) addr).

(** [UpdateConnectedNodes] *)
Definition UpdateConnectedNodes (i : Inspector) (addr : string) (connectedNodes : list string) : answer :=
  if bool_decide (addr = "") then refused i EmptyAddress
  else if IsNodeRegistered (pg i) addr then onGraph i (UpdateNodeConnectedNodes (pg i) addr connectedNodes)
  else if IsGateRegistered (pg i) addr then onGraph i (UpdateGateConnectedNodes (pg i) addr connectedNodes)
  else ignored i.

(** [UpdateGateClients] *)
Definition UpdateGateClients (i : Inspector) (addr : string) (clients : Z) : answer :=
  if bool_decide (addr = "") then refused i EmptyAddress
  else if IsGateRegistered (pg i) addr then onGraph i (Graph.UpdateGateClients (pg i) addr clients)
  else ignored i.

(** [UpdateRegisteredGates] *)
Definition UpdateRegisteredGates (i : Inspector) (addr : string) (registeredGates : list string) : answer :=
  if bool_decide (addr = "") then refused i EmptyAddress
  else if IsNodeRegistered (pg i) addr then onGraph i (UpdateNodeRegisteredGates (pg i) addr registeredGates)
  else ignored i.

(** [ReportObjectCall] *)
Definition ReportObjectCall (i : Inspector) (now : Z) (objectID class method nodeAddress : string) (us : Z) : answer :=
  if bool_decide (objectID = "") then ignored i
  else if negb (IsNodeRegistered (pg i) nodeAddress) then ignored i
  else
    let calls := default [] (callMetrics i !! objectID) in
    (mkInspector (pg i) (<[objectID := calls ++ [mkCallMetric now us]]> (callMetrics i)) (linkMetrics i),
     BroadcastObjectCall objectID class method nodeAddress, Ok tt).

(** [ReportLinkCall] *)
Definition linkKey (source target : string) : string := source +:+ "->" +:+ target.
Definition ReportLinkCall (i : Inspector) (now : Z) (source target : string) (isGateSource : bool) : answer :=
  if bool_decide (source = "") || bool_decide (target = "") then ignored i
  else if negb (if isGateSource then IsGateRegistered (pg i) source else IsNodeRegistered (pg i) source) then ignored i
  else if negb (IsNodeRegistered (pg i) target) then ignored i
  else
    let calls := default [] (linkMetrics i !! linkKey source target) in
    (mkInspector (pg i) (callMetrics i) (<[linkKey source target := calls ++ [now]]> (linkMetrics i)), [], Ok tt).

(** [cleanupOldLinkMetrics], one tick, and [getLinkCallsPerMinute] *)
Definition cleanupOldLinkMetrics (i : Inspector) (now : Z) : Inspector :=
  let valid := (fun calls => filter (fun t => (now - metricsRetentionDuration < t)%Z) calls) <$> linkMetrics i in
  mkInspector (pg i) (callMetrics i) (filter (fun p => p.2 <> []) valid).
Definition getLinkCallsPerMinute (i : Inspector) (now : Z) (source target : string) : Z :=
  Z.of_nat (length (filter (fun t => (now - minute < t)%Z) (default [] (linkMetrics i !! linkKey source target)))).

(** [refreshObjectMetrics]: what it does with one object [o] that it has read *)
Definition refreshObject (i : Inspector) (now : Z) (o : GoverseObject) : Inspector * list GraphEvent :=
  let '(callsPerMin, avgDur) := getCallMetrics i now (oID o) in
  if negb (oCallsPerMinute o =? callsPerMin)%Z || negb (feqb (oAvgExecutionDurationUs o) avgDur)
  then
    let o' := mkObject (oID o) (oLabel o) (oSize o) (oColor o) (oType o) (oGoverseNodeID o) (oShardID o) callsPerMin avgDur in
    let '(g, ev) := Graph.AddOrUpdateObject (pg i) o' in (set_pg i g, ev)
  else (i, []).

(** [refreshLinkMetrics]: what it does with one node or gate that it has read *)
Definition freshLinks (i : Inspector) (now : Z) (addr : string) (connected : list string) : gmap string Z :=
  foldl (fun m t => let c := getLinkCallsPerMinute i now addr t in if (0 <? c)%Z then <[t := c]> m else m) ∅ connected.
Definition refreshNode (i : Inspector) (now : Z) (n : GoverseNode) : Inspector * list GraphEvent :=
  let n' := mkNode (nID n) (nLabel n) (nColor n) (nType n) (nAdvertiseAddr n) (nRegisteredAt n) (nObjectCount n) (nConnectedNodes n) (nRegisteredGates n)
    (freshLinks i now (nAdvertiseAddr n) (nConnectedNodes n)) in
  let '(g, ev) := AddOrUpdateNode (pg i) n' in (set_pg i g, ev).
Definition refreshGate (i : Inspector) (now : Z) (x : GoverseGate) : Inspector * list GraphEvent :=
  let x' := mkGate (gID x) (gLabel x) (gColor x) (gType x) (gAdvertiseAddr x) (gRegisteredAt x) (gConnectedNodes x) (gClients x)
    (freshLinks i now (gAdvertiseAddr x) (gConnectedNodes x)) in
  let '(g, ev) := AddOrUpdateGate (pg i) x' in (set_pg i g, ev).

(** One tick of the refreshes, when nothing else runs meanwhile *)
Definition each {A : Type} (f : Inspector -> A -> Inspector * list GraphEvent) (i : Inspector) (l : list A) : Inspector * list GraphEvent :=
  foldl (fun acc a => let '(i, ev) := f acc.1 a in (i, acc.2 ++ ev)) (i, []) l.
Definition refreshObjectMetrics (i : Inspector) (now : Z) : Inspector * list GraphEvent := each (fun i => refreshObject i now) i (GetObjects (pg i)).
Definition refreshLinkMetrics (i : Inspector) (now : Z) : Inspector * list GraphEvent :=
  let '(i, ev1) := each (fun i => refreshNode i now) i (GetNodes (pg i)) in
  let '(i, ev2) := each (fun i => refreshGate i now) i (GetGates (pg i)) in (i, ev1 ++ ev2).

(** The requests and the background work *)
Inductive request : Type :=
| RAddOrUpdateObject (o : option Object) (nodeAddress : string)
| RRemoveObject (objectID nodeAddress : string)
| RRegisterNode (addr : string) (objs : list (option Object)) (connectedNodes registeredGates : list string)
| RUnregisterNode (addr : string)
| RRegisterGate (addr : string) (connectedNodes : list string) (clients : Z)
| RUnregisterGate (addr : string)
| RUpdateConnectedNodes (addr : string) (connectedNodes : list string)
| RUpdateGateClients (addr : string) (clients : Z)
| RUpdateRegisteredGates (addr : string) (registeredGates : list string)
| RReportObjectCall (objectID class method nodeAddress : string) (us : Z)
| RReportLinkCall (source target : string) (isGateSource : bool)
| RRefreshObjects
| RRefreshLinks
| RCleanup.

Definition handle (range : gmap string GoverseObject -> list (string * GoverseObject)) (i : Inspector) (now : Z) (r : request) : Inspector * list GraphEvent :=
  match r with
  | RAddOrUpdateObject o a => (AddOrUpdateObject i now o a).1
  | RRemoveObject o a => (RemoveObject i o a).1
  | RRegisterNode a objs cs gs => (RegisterNode range i now a objs cs gs).1
  | RUnregisterNode a => (UnregisterNode range i a).1
  | RRegisterGate a cs n => (RegisterGate i now a cs n).1
  | RUnregisterGate a => (UnregisterGate i a).1
  | RUpdateConnectedNodes a cs => (UpdateConnectedNodes i a cs).1
  | RUpdateGateClients a n => (UpdateGateClients i a n).1
  | RUpdateRegisteredGates a gs => (UpdateRegisteredGates i a gs).1
  | RReportObjectCall o c m a us => (ReportObjectCall i now o c m a us).1
  | RReportLinkCall s t g => (ReportLinkCall i now s t g).1
  | RRefreshObjects => refreshObjectMetrics i now
  | RRefreshLinks => refreshLinkMetrics i now
  | RCleanup => (cleanupOldLinkMetrics (cleanupOldMetrics i now) now, [])
  end.

Fixpoint handles (range : gmap string GoverseObject -> list (string * GoverseObject)) (i : Inspector) (l : list (Z * request)) : Inspector * list GraphEvent :=
  match l with
  | [] => (i, [])
  | (now, r) :: l => let '(i, ev) := handle range i now r in let '(i', ev') := handles range i l in (i', ev ++ ev')
  end.

End InspectorSvc.

(** The four parts of a well-formed graph *)
Ltac wf_split := split; [split; [|split]|]; cbn.

(** ** The graph stays well formed, and its observers see it *)

Section ServiceLemmas.
Import InspectorSvc.
Context (range : gmap string GoverseObject -> list (string * GoverseObject)) (Hrange : forall m, range m ≡ₚ map_to_list m).
Implicit Types i : Inspector.
Implicit Types g : GoverseGraph.

(** Keys are identifiers and every object is on a registered node *)
Definition well_formed (g : GoverseGraph) : Prop :=
  keyed g /\ forall k o, objects g !! k = Some o -> is_Some (nodes g !! oGoverseNodeID o).

(** An operation keeps the graph well formed and is mirrored by its events *)
Definition op_ok (g : GoverseGraph) (r : GoverseGraph * list GraphEvent) : Prop := well_formed r.1 /\ mirrored g r.

Lemma op_ok_seq g r1 r2 : op_ok g r1 -> op_ok r1.1 r2 -> op_ok g (r2.1, r1.2 ++ r2.2).
Proof. intros [_ M1] [W2 M2]. split; [done|]. by apply mirrored_seq. Qed.

Lemma op_ok_refl g : well_formed g -> op_ok g (g, []).
Proof. intros Hw. split; [done|]. by apply mirrored_direct. Qed.

Lemma ok_AddOrUpdateObject g o : well_formed g -> is_Some (nodes g !! oGoverseNodeID o) -> op_ok g (Graph.AddOrUpdateObject g o).
Proof.
  intros [(Ho & Hn & Hg) Hr] Hs. split; [|apply mirror_AddOrUpdateObject]. wf_split; try done.
  - intros k x. rewrite lookup_insert_Some. intros [[<- <-]|[_ ?]]; auto.
  - intros k x. rewrite lookup_insert_Some. intros [[<- <-]|[_ ?]]; eauto.
Qed.

Lemma ok_AddOrUpdateNode g n : well_formed g -> nAdvertiseAddr n = nID n -> op_ok g (AddOrUpdateNode g n).
Proof.
  intros [(Ho & Hn & Hg) Hr] Ha. split; [|apply mirror_AddOrUpdateNode]. wf_split; try done.
  - intros k x. rewrite lookup_insert_Some. intros [[<- <-]|[_ ?]]; auto.
  - intros k x Hk. rewrite lookup_insert_is_Some'. right. eauto.
Qed.

Lemma ok_AddOrUpdateGate g x : well_formed g -> gAdvertiseAddr x = gID x -> op_ok g (AddOrUpdateGate g x).
Proof.
  intros [(Ho & Hn & Hg) Hr] Ha. split; [|apply mirror_AddOrUpdateGate]. wf_split; try done.
  intros k y. rewrite lookup_insert_Some. intros [[<- <-]|[_ ?]]; auto.
Qed.

Lemma ok_RemoveObject g id : well_formed g -> op_ok g (Graph.RemoveObject g id).
Proof.
  intros [(Ho & Hn & Hg) Hr]. split; [|apply mirror_RemoveObject]. wf_split; try done;
    intros k x; rewrite lookup_delete_Some; intros [_ ?]; eauto.
Qed.

Lemma ok_RemoveGate g id : well_formed g -> op_ok g (RemoveGate g id).
Proof.
  intros [(Ho & Hn & Hg) Hr]. split; [|apply mirror_RemoveGate]. wf_split; try done.
  intros k x. rewrite lookup_delete_Some. intros [_ ?]; eauto.
Qed.

Lemma ok_RemoveStaleObjects g addr ids : well_formed g -> op_ok g (RemoveStaleObjects range g addr ids).
Proof.
  intros [(Ho & Hn & Hg) Hr]. split; [|by apply mirror_removeObjects]. wf_split; try done;
    intros k x; rewrite map_lookup_filter_Some; intros [? _]; eauto.
Qed.

Lemma ok_RemoveNode g id : well_formed g -> op_ok g (RemoveNode range g id).
Proof.
  intros [(Ho & Hn & Hg) Hr]. split; [|by apply mirror_RemoveNode]. wf_split; try done.
  - intros k x. rewrite map_lookup_filter_Some. intros [? _]; eauto.
  - intros k x. rewrite lookup_delete_Some. intros [_ ?]; eauto.
  - intros k x. rewrite map_lookup_filter_Some. intros [Hk Hs%bool_decide_eq_false]. cbn in Hs. rewrite lookup_delete_is_Some. split; [done|eauto].
Qed.

Lemma ok_updateNode g id f : well_formed g -> (forall n, nID (f n) = nID n /\ nAdvertiseAddr (f n) = nAdvertiseAddr n) -> op_ok g (updateNode g id f).
Proof.
  intros [(Ho & Hn & Hg) Hr] Hf. split; [|apply mirror_updateNode; [done|intros n; apply Hf]]. unfold updateNode.
  destruct (nodes g !! id) as [n|] eqn:E; cbn; [|done]. wf_split; try done.
  - intros k x. rewrite lookup_insert_Some. intros [[<- <-]|[_ ?]]; [|auto]. destruct (Hf n) as [-> ->]. auto.
  - intros k x Hk. rewrite lookup_insert_is_Some'. right. eauto.
Qed.

Lemma ok_updateGate g id f : well_formed g -> (forall n, gID (f n) = gID n /\ gAdvertiseAddr (f n) = gAdvertiseAddr n) -> op_ok g (updateGate g id f).
Proof.
  intros [(Ho & Hn & Hg) Hr] Hf. split; [|apply mirror_updateGate; [done|intros n; apply Hf]]. unfold updateGate.
  destruct (gates g !! id) as [n|] eqn:E; cbn; [|done]. wf_split; try done.
  intros k x. rewrite lookup_insert_Some. intros [[<- <-]|[_ ?]]; [|auto]. destruct (Hf n) as [-> ->]. auto.
Qed.

Definition svc_ok (i : Inspector) (r : Inspector * list GraphEvent) : Prop := op_ok (pg i) (pg r.1, r.2).

Lemma objectOf_fields i now o addr : oID (objectOf i now o addr) = Id o /\ oGoverseNodeID (objectOf i now o addr) = addr /\ oType (objectOf i now o addr) = Class o.
Proof. unfold objectOf. by destruct (getCallMetrics i now (Id o)). Qed.

Lemma ok_addObjects now addr os : forall i i0 ev, svc_ok i0 (i, ev) -> is_Some (nodes (pg i) !! addr) ->
  svc_ok i0 (foldl (addObject now addr) (i, ev) os) /\ nodes (pg (foldl (addObject now addr) (i, ev) os).1) = nodes (pg i).
Proof.
  induction os as [|o os IH]; intros i i0 ev Hok Hn; [done|]. cbn [foldl].
  destruct (objectOf_fields i now o addr) as (_ & Ha & _).
  assert (svc_ok i0 (addObject now addr (i, ev) o)) as Hok'.
  { pose proof (ok_AddOrUpdateObject (pg i) (objectOf i now o addr) (proj1 Hok)) as H1. rewrite Ha in H1. specialize (H1 Hn).
    pose proof (op_ok_seq _ _ _ Hok H1) as H2. exact H2. }
  destruct (addObject now addr (i, ev) o) as [i' ev'] eqn:E.
  assert (nodes (pg i') = nodes (pg i)) as Hn' by (unfold addObject in E; by injection E as <- _).
  destruct (IH i' i0 ev' Hok') as [H1 H2]; [by rewrite Hn'|]. split; [done|congruence].
Qed.

Lemma ok_each {A : Type} (f : Inspector -> A -> Inspector * list GraphEvent) (P : Inspector -> A -> Prop) l :
  (forall i a, well_formed (pg i) -> P i a -> svc_ok i (f i a) /\ forall b, P i b -> P (f i a).1 b) ->
  forall i, well_formed (pg i) -> (forall a, a ∈ l -> P i a) -> svc_ok i (each f i l) /\ forall b, P i b -> P (each f i l).1 b.
Proof.
  intros Hf i Hw Hl. unfold each.
  assert (forall l acc, svc_ok i acc -> (forall a, a ∈ l -> P acc.1 a) -> (forall b, P i b -> P acc.1 b) ->
    svc_ok i (foldl (fun acc a => let '(i, ev) := f acc.1 a in (i, acc.2 ++ ev)) acc l) /\
    forall b, P i b -> P (foldl (fun acc a => let '(i, ev) := f acc.1 a in (i, acc.2 ++ ev)) acc l).1 b) as Hgen.
  { clear l Hl. induction l as [|a l IH]; intros [i1 ev1] H1 H2 H3; [done|]. cbn [foldl]. cbn in H2, H3.
    destruct (Hf i1 a (proj1 H1) (H2 a ltac:(by left))) as [H4 H5]. cbn. destruct (f i1 a) as [i2 ev2] eqn:E. cbn in *. apply IH; cbn.
    - exact (op_ok_seq _ _ _ H1 H4).
    - intros b Hb. apply H5, H2. by right.
    - auto. }
  apply Hgen; [by apply op_ok_refl|done|done].
Qed.

Lemma ok_refreshObjects i now : well_formed (pg i) -> svc_ok i (refreshObjectMetrics i now).
Proof.
  intros Hw. apply (ok_each _ (fun i o => is_Some (nodes (pg i) !! oGoverseNodeID o))); [|done|].
  - intros j o Hj Ho. unfold refreshObject. destruct (getCallMetrics j now (oID o)) as [c d].
    destruct (negb _ || negb _); [|split; [by apply op_ok_refl|done]].
    split; [|done]. exact (ok_AddOrUpdateObject (pg j) (mkObject (oID o) (oLabel o) (oSize o) (oColor o) (oType o) (oGoverseNodeID o) (oShardID o) c d) Hj Ho).
  - intros o Ho. unfold GetObjects in Ho. apply list_elem_of_fmap in Ho as ([k x] & -> & Hk%elem_of_map_to_list). destruct Hw as [_ Hr]. eauto.
Qed.

Lemma ok_refreshLinks i now : well_formed (pg i) -> svc_ok i (refreshLinkMetrics i now).
Proof.
  intros Hw. unfold refreshLinkMetrics.
  destruct (ok_each (fun i => refreshNode i now) (fun _ n => nAdvertiseAddr n = nID n) (GetNodes (pg i))) with (i := i) as [H1 _]; [|done| |].
  - intros j n Hj Hn. split; [|done]. unfold refreshNode. eapply (ok_AddOrUpdateNode (pg j)); [done|exact Hn].
  - intros n Hn. unfold GetNodes in Hn. apply list_elem_of_fmap in Hn as ([k x] & -> & Hk%elem_of_map_to_list). cbn. destruct Hw as [(_ & Hx & _) _]. by destruct (Hx _ _ Hk) as [-> ->].
  - destruct (each (fun i => refreshNode i now) i (GetNodes (pg i))) as [i1 ev1]. pose proof (proj1 H1) as Hw1. cbn in Hw1.
    destruct (ok_each (fun i => refreshGate i now) (fun _ n => gAdvertiseAddr n = gID n) (GetGates (pg i1))) with (i := i1) as [H2 _]; [|done| |].
    + intros j n Hj Hn. split; [|done]. unfold refreshGate. eapply (ok_AddOrUpdateGate (pg j)); [done|exact Hn].
    + intros n Hn. unfold GetGates in Hn. apply list_elem_of_fmap in Hn as ([k x] & -> & Hk%elem_of_map_to_list). cbn. destruct Hw1 as [(_ & _ & Hx) _]. by destruct (Hx _ _ Hk) as [-> ->].
    + destruct (each (fun i => refreshGate i now) i1 (GetGates (pg i1))) as [i2 ev2]. exact (op_ok_seq _ _ _ H1 H2).
Qed.

Lemma ok_RegisterNode i now addr objs cs gs : well_formed (pg i) -> svc_ok i (RegisterNode range i now addr objs cs gs).1.
Proof.
  intros Hw. unfold RegisterNode. case_bool_decide; [by apply op_ok_refl|].
  set (node := mkNode _ _ _ _ _ _ _ _ _ _). pose proof (ok_AddOrUpdateNode (pg i) node Hw eq_refl) as H1.
  destruct (AddOrUpdateNode (pg i) node) as [g1 ev1] eqn:E1. pose proof (ok_RemoveStaleObjects g1 addr (Id <$> reported objs) (proj1 H1)) as H2.
  destruct (RemoveStaleObjects range g1 addr (Id <$> reported objs)) as [g2 ev2] eqn:E2.
  assert (is_Some (nodes g2 !! addr)) as Hn.
  { unfold RemoveStaleObjects, removeObjects in E2. injection E2 as <- _. cbn. unfold AddOrUpdateNode in E1. injection E1 as <- _. cbn. rewrite lookup_insert_eq. by eexists. }
  destruct (ok_addObjects now addr (reported objs) (set_pg i g2) (set_pg i g2) []) as [H3 _]; [by apply op_ok_refl; apply H2|done|].
  destruct (foldl (addObject now addr) (set_pg i g2, []) (reported objs)) as [i3 ev3]. cbn.
  exact (op_ok_seq _ _ _ H1 (op_ok_seq _ _ _ H2 H3)).
Qed.

Lemma ok_handle i now r : well_formed (pg i) -> svc_ok i (handle range i now r).
Proof.
  intros Hw. pose proof (op_ok_refl (pg i) Hw) as Hr.
  destruct r as [o a|o a|a objs cs gs|a|a cs n|a|a cs|a n|a gs|o c m a us|s t isg| | |]; cbn [handle].
  - unfold AddOrUpdateObject. destruct o as [o|]; [|done]. case_bool_decide; [done|]. destruct (IsNodeRegistered (pg i) a) eqn:E; [|done]. cbn.
    apply ok_AddOrUpdateObject; [done|]. destruct (objectOf_fields i now o a) as (_ & -> & _). by apply IsNodeRegistered_spec; [apply Hw|].
  - unfold RemoveObject. case_bool_decide; [done|]. destruct (IsNodeRegistered (pg i) a); [|done]. by apply ok_RemoveObject.
  - by apply ok_RegisterNode.
  - by apply ok_RemoveNode.
  - unfold RegisterGate. case_bool_decide; [done|]. by apply ok_AddOrUpdateGate.
  - by apply ok_RemoveGate.
  - unfold UpdateConnectedNodes. case_bool_decide; [done|]. destruct (IsNodeRegistered (pg i) a); [by apply ok_updateNode|].
    destruct (IsGateRegistered (pg i) a); [by apply ok_updateGate|done].
  - unfold UpdateGateClients. case_bool_decide; [done|]. destruct (IsGateRegistered (pg i) a); [by apply ok_updateGate|done].
  - unfold UpdateRegisteredGates. case_bool_decide; [done|]. destruct (IsNodeRegistered (pg i) a); [by apply ok_updateNode|done].
  - unfold ReportObjectCall. case_bool_decide; [done|]. destruct (IsNodeRegistered (pg i) a); [|done]. split; [done|]. by apply mirrored_direct.
  - unfold ReportLinkCall. destruct (_ || _); [done|]. destruct (negb _); [done|]. destruct (negb _); done.
  - by apply ok_refreshObjects.
  - by apply ok_refreshLinks.
  - done.
Qed.

Lemma ok_handles l : forall i, well_formed (pg i) -> svc_ok i (handles range i l).
Proof.
  induction l as [|[now r] l IH]; intros i Hw; cbn; [by apply op_ok_refl|].
  pose proof (ok_handle i now r Hw) as H1. destruct (handle range i now r) as [i1 ev1]. pose proof (IH i1 (proj1 H1)) as H2.
  destruct (handles range i1 l) as [i2 ev2]. exact (op_ok_seq _ _ _ H1 H2).
Qed.

End ServiceLemmas.

(** An observer that replays the events of the inspector has its graph.  For requests, refreshes and cleanups
    handled one after the other from the empty graph, in whatever order maps are ranged over: applying the emitted
    events to an empty copy gives the graph of the inspector up to the object counts of the nodes, which it
    computes on request; and in that graph every object, node and gate is stored under its id, and the node of
    every object is registered. *)
Theorem inspector_observers_mirror (range : gmap string GoverseObject -> list (string * GoverseObject)) (l : list (Z * InspectorSvc.request)) :
  (forall m, range m ≡ₚ map_to_list m) ->
  let r := InspectorSvc.handles range (InspectorSvc.New NewGoverseGraph) l in
  uncounted (foldl replay NewGoverseGraph r.2) = uncounted (InspectorSvc.pg r.1) /\ well_formed (InspectorSvc.pg r.1).
Proof.
  intros Hrange r. destruct (ok_handles range Hrange l (InspectorSvc.New NewGoverseGraph)) as [Hw Hm].
  - split; [split; [|split]|]; cbn; done.
  - split; [|exact Hw]. unfold mirrored in Hm. rewrite replays_uncounted in Hm. exact Hm.
Qed.

Lemma inspector_observers_mirror_witness :
  let r := InspectorSvc.handles map_to_list (InspectorSvc.New NewGoverseGraph)
    [(1%Z, InspectorSvc.RRegisterNode "n:1" [Some (InspectorSvc.mkPbObject "o" "Chat" 3)] [] []); (2%Z, InspectorSvc.RReportObjectCall "o" "Chat" "Say" "n:1" 7);
     (3%Z, InspectorSvc.RRefreshObjects); (4%Z, InspectorSvc.RUnregisterNode "n:1")] in
  uncounted (foldl replay NewGoverseGraph r.2) = uncounted (InspectorSvc.pg r.1) /\ length r.2 = 6.
Proof. split; [apply inspector_observers_mirror; done|reflexivity]. Defined.

(** ** What a registration reports *)

Section Registration.
Import InspectorSvc.
Context (range : gmap string GoverseObject -> list (string * GoverseObject)).

(** The last report of an object *)
Definition lastReport (objs : list (option Object)) (id : string) : option Object := last (filter (fun o => Id o = id) (reported objs)).

Lemma addObjects_lookup now addr os : forall i ev id,
  objects (pg (foldl (addObject now addr) (i, ev) os).1) !! id =
    match last (filter (fun o => Id o = id) os) with Some o => Some (objectOf i now o addr) | None => objects (pg i) !! id end /\
  callMetrics (foldl (addObject now addr) (i, ev) os).1 = callMetrics i.
Proof.
  induction os as [|o os IH] using rev_ind; intros i ev id; [done|]. rewrite foldl_snoc, filter_app, filter_cons, filter_nil.
  destruct (IH i ev id) as [IH1 IH2]. destruct (foldl (addObject now addr) (i, ev) os) as [i1 ev1]. cbn in IH1, IH2 |- *.
  assert (objectOf i1 now o addr = objectOf i now o addr) as Ho by (unfold objectOf, getCallMetrics; by rewrite IH2).
  split; [|done]. destruct (objectOf_fields i1 now o addr) as (Hid & _ & _). rewrite Hid.
  destruct (decide (Id o = id)) as [<-|Hne].
  - by rewrite last_snoc, lookup_insert_eq, Ho.
  - rewrite app_nil_r, lookup_insert_ne by done. done.
Qed.

End Registration.

(** Registering a node makes the inspector show exactly the objects that it reports.  After [RegisterNode] of a
    node with a list of objects, an object of the list, ignoring nil entries and empty ids, is shown on that node
    with its class and shard as reported last; an object that was shown on the node and is not in the list is
    gone; and every other object is shown as before. *)
Theorem RegisterNode_exact (range : gmap string GoverseObject -> list (string * GoverseObject)) i now addr objs cs gs id :
  addr <> "" ->
  let r := InspectorSvc.RegisterNode range i now addr objs cs gs in
  r.2 = Ok tt /\
  objects (InspectorSvc.pg r.1.1) !! id =
    match lastReport objs id with
    | Some o => Some (InspectorSvc.objectOf i now o addr)
    | None => x ← objects (InspectorSvc.pg i) !! id; if bool_decide (oGoverseNodeID x = addr) then None else Some x
    end.
Proof.
  intros Ha. unfold InspectorSvc.RegisterNode. rewrite bool_decide_false by done.
  cbn -[filter]. match goal with |- context [InspectorSvc.set_pg i ?g] => set (i2 := InspectorSvc.set_pg i g) end. destruct (addObjects_lookup now addr (InspectorSvc.reported objs) i2 [] id) as [Hl _].
  destruct (foldl (InspectorSvc.addObject now addr) (i2, []) (InspectorSvc.reported objs)) as [i3 ev3]. cbn in *. split; [done|]. rewrite Hl.
  unfold lastReport. destruct (last (filter (fun o => InspectorSvc.Id o = id) (InspectorSvc.reported objs))) as [o|] eqn:Ho; [done|].
  cbn. rewrite map_lookup_filter. destruct (objects (InspectorSvc.pg i) !! id) as [x|]; cbn; [|done].
  assert (id ∉ InspectorSvc.Id <$> InspectorSvc.reported objs) as Hni.
  { apply last_None in Ho. intros (o & -> & Hin)%list_elem_of_fmap. assert (o ∈ filter (fun o' => InspectorSvc.Id o' = InspectorSvc.Id o) (InspectorSvc.reported objs)) as Hx by (apply list_elem_of_filter; done).
    rewrite Ho in Hx. by apply elem_of_nil in Hx. }
  rewrite (bool_decide_true (id ∉ _)) by done. rewrite andb_true_r. case_bool_decide; [by rewrite option_guard_False|by rewrite option_guard_True].
Qed.

Lemma RegisterNode_exact_witness :
  let i := InspectorSvc.New (mkGraph {[ "a" := mkObject "a" "" f0 "" "T" "n:1" 0 0 f0 ]} ∅ ∅) in
  objects (InspectorSvc.pg (InspectorSvc.RegisterNode map_to_list i 5 "n:1" [Some (InspectorSvc.mkPbObject "b" "Chat" 3)] [] []).1.1) !! "a" = None.
Proof. intros i. refine (proj2 (RegisterNode_exact map_to_list i 5 "n:1" [Some (InspectorSvc.mkPbObject "b" "Chat" 3)] [] [] "a" _)). done. Defined.

(** The cleanup drops no call that a later computation of the metrics would count. *)
Theorem cleanup_keeps_metrics i now now' id : (now <= now')%Z ->
  InspectorSvc.getCallMetrics (InspectorSvc.cleanupOldMetrics i now) now' id = InspectorSvc.getCallMetrics i now' id /\
  forall s t, InspectorSvc.getLinkCallsPerMinute (InspectorSvc.cleanupOldLinkMetrics i now) now' s t = InspectorSvc.getLinkCallsPerMinute i now' s t.
Proof.
  intros Hn. split.
  - unfold InspectorSvc.getCallMetrics, InspectorSvc.cleanupOldMetrics. cbn. rewrite map_lookup_filter, lookup_fmap.
    destruct (InspectorSvc.callMetrics i !! id) as [calls|]; cbn; [|done].
    assert (InspectorSvc.recent now' (filter (fun c => (now - InspectorSvc.metricsRetentionDuration < InspectorSvc.timestamp c)%Z) calls) = InspectorSvc.recent now' calls) as Hr.
    { unfold InspectorSvc.recent. rewrite list_filter_filter. apply list_filter_iff. intros c.
      unfold InspectorSvc.metricsRetentionDuration, InspectorSvc.minute, InspectorSvc.second. lia. }
    destruct (decide (filter (fun c => (now - InspectorSvc.metricsRetentionDuration < InspectorSvc.timestamp c)%Z) calls = [])) as [He|He].
    + rewrite option_guard_False by auto. cbn. rewrite He in Hr. rewrite <- Hr. done.
    + rewrite option_guard_True by done. cbn. by rewrite Hr.
  - intros s t. unfold InspectorSvc.getLinkCallsPerMinute, InspectorSvc.cleanupOldLinkMetrics. cbn. rewrite map_lookup_filter, lookup_fmap.
    destruct (InspectorSvc.linkMetrics i !! InspectorSvc.linkKey s t) as [calls|]; cbn; [|done].
    assert (filter (fun t => (now' - InspectorSvc.minute < t)%Z) (filter (fun t => (now - InspectorSvc.metricsRetentionDuration < t)%Z) calls) =
      filter (fun t => (now' - InspectorSvc.minute < t)%Z) calls) as Hr.
    { rewrite list_filter_filter. apply list_filter_iff. intros c. unfold InspectorSvc.metricsRetentionDuration, InspectorSvc.minute, InspectorSvc.second. lia. }
    destruct (decide (filter (fun t => (now - InspectorSvc.metricsRetentionDuration < t)%Z) calls = [])) as [He|He].
    + rewrite option_guard_False by auto. cbn. rewrite He in Hr. by rewrite <- Hr.
    + rewrite option_guard_True by done. cbn. by rewrite Hr.
Qed.

(** ** Races *)

(** The events of two operations are sent after the lock is released and may arrive in the other order: when an object is
    added and removed, an observer that sees the removal first keeps the object for good. *)
Theorem reordered_events_diverge (g : GoverseGraph) (o : GoverseObject) : objects g !! oID o = None ->
  let r1 := AddOrUpdateObject g o in let r2 := RemoveObject r1.1 (oID o) in
  objects r2.1 !! oID o = None /\ objects (foldl replay g (r2.2 ++ r1.2)) !! oID o = Some o.
Proof.
  intros Ho. cbn. rewrite Ho, lookup_insert_eq, lookup_delete_eq. rewrite (bool_decide_true (is_Some (Some o))) by by eexists.
  rewrite (bool_decide_false (is_Some None)) by (by intros [? ?]). cbn. by rewrite lookup_insert_eq.
Qed.

(** The refresh writes back an object that it read before: an object that is removed in between returns, on a node that
    may be gone, until that node registers again. *)
Theorem refresh_revives_removed_object :
  exists i o, o ∈ GetObjects (InspectorSvc.pg i) /\ well_formed (InspectorSvc.pg i) /\
    let i' := InspectorSvc.set_pg i (RemoveNode map_to_list (InspectorSvc.pg i) "n:1").1 in
    nodes (InspectorSvc.pg i') = ∅ /\ objects (InspectorSvc.pg i') = ∅ /\
    oGoverseNodeID <$> objects (InspectorSvc.pg (InspectorSvc.refreshObject i' 10 o).1) !! "o" = Some "n:1".
Proof.
  exists (InspectorSvc.handles map_to_list (InspectorSvc.New NewGoverseGraph)
    [(1%Z, InspectorSvc.RRegisterNode "n:1" [Some (InspectorSvc.mkPbObject "o" "Chat" 3)] [] []); (2%Z, InspectorSvc.RReportObjectCall "o" "Chat" "Say" "n:1" 7)]).1.
  eexists. split; [by left|]. split; [|done].
  destruct (ok_handles map_to_list (fun m => reflexivity _)
    [(1%Z, InspectorSvc.RRegisterNode "n:1" [Some (InspectorSvc.mkPbObject "o" "Chat" 3)] [] []); (2%Z, InspectorSvc.RReportObjectCall "o" "Chat" "Say" "n:1" 7)]
    (InspectorSvc.New NewGoverseGraph)) as [Hw _]; [|exact Hw]. wf_split; done.
Qed.

(** A removal is taken from any node: when an object has moved, the late removal of its old node hides it on the new one. *)
Theorem late_removal_hides_moved_object i id x addr : objects (InspectorSvc.pg i) !! id = Some x -> id <> "" -> oGoverseNodeID x <> addr ->
  IsNodeRegistered (InspectorSvc.pg i) addr = true -> objects (InspectorSvc.pg (InspectorSvc.RemoveObject i id addr).1.1) !! id = None.
Proof.
  intros Hx Hid Hne Hr. unfold InspectorSvc.RemoveObject. rewrite bool_decide_false by done. rewrite Hr. cbn. by rewrite lookup_delete_eq.
Qed.
