(* ===== verification/InspectorManager.v ===== *)
(** * Reporting to the inspector (node/inspectormanager)

    The manager that a node or a gate keeps to report itself to the inspector: the objects it tracks, its
    connection, the registration on (re)connecting, the health check, and the notifications, which run on the task
    pool under the key of the object or of the manager.  A call of the inspector is the handler of
    InspectorService.v, and may fail before or after it took effect.  What the provider of cluster information
    returns is an argument. *)

From S2P Require Import Prelude GoStrings GoFloat TaskPool InspectorGraph InspectorService.
Import Graph InspectorSvc.

Module InspectorMgr.

Inductive Mode : Type := ModeNode | ModeGate.

Record InspectorManager : Type := mkIM {
  address : string;
  mode : Mode;
  inspectorAddress : string;
  client : bool;                              (* client != nil *)
  conn : bool;
  connected : bool;
  started : bool;
  tracked : option (gmap string Object);      (* objects; nil for a gate *)
  cancelled : bool                            (* the context of the management loop is done *)
}.

(** [NewInspectorManager] and [NewGateInspectorManager] *)
Definition NewInspectorManager (addr insp : string) : InspectorManager := mkIM addr ModeNode insp false false false false (Some ∅) false.
Definition NewGateInspectorManager (addr insp : string) : InspectorManager := mkIM addr ModeGate insp false false false false None false.
Definition SetInspectorAddress (im : InspectorManager) (a : string) : InspectorManager :=
  mkIM (address im) (mode im) a (client im) (conn im) (connected im) (started im) (tracked im) (cancelled im).
Definition IsEnabled (im : InspectorManager) : bool := bool_decide (inspectorAddress im <> "").

Definition set_conn (im : InspectorManager) (up : bool) : InspectorManager :=
  mkIM (address im) (mode im) (inspectorAddress im) up up up (started im) (tracked im) (cancelled im).
Definition set_tracked (im : InspectorManager) (m : option (gmap string Object)) : InspectorManager :=
  mkIM (address im) (mode im) (inspectorAddress im) (client im) (conn im) (connected im) (started im) m (cancelled im).
Definition set_started (im : InspectorManager) (s c : bool) : InspectorManager :=
  mkIM (address im) (mode im) (inspectorAddress im) (client im) (conn im) (connected im) s (tracked im) c.

(** What the provider of cluster information returns; empty when there is none *)
Record Info : Type := mkInfo { GetConnectedNodes : list string; GetRegisteredGates : list string; GetClientCount : Z }.

(** A call of the inspector: its state afterwards, and whether the caller sees it succeed *)
Definition rpc (I : Inspector) (f : fault) (h : answer) : Inspector * bool :=
  match f with
  | NoFault => (h.1.1, is_ok h.2)
  | FailBefore _ => (I, false)
  | FailAfter _ => (h.1.1, false)
  end.

Section Calls.
Context (range : gmap string GoverseObject -> list (string * GoverseObject)).

(** [registerLocked]: [rangeObjs] is the order in which the tracked objects are sent *)
Definition registerLocked (im : InspectorManager) (info : Info) (rangeObjs : gmap string Object -> list Object) (I : Inspector) (now : Z) (f : fault)
    : Inspector * bool :=
  if negb (client im) then (I, true)
  else match mode im with
  | ModeNode => rpc I f (RegisterNode range I now (address im) (Some <$> rangeObjs (default ∅ (tracked im))) (GetConnectedNodes info) (GetRegisteredGates info))
  | ModeGate => rpc I f (RegisterGate I now (address im) (GetConnectedNodes info) (int32 (GetClientCount info)))
  end.

(** [unregisterLocked] *)
Definition unregisterLocked (im : InspectorManager) (I : Inspector) (f : fault) : Inspector * bool :=
  if negb (client im) then (I, true)
  else match mode im with
  | ModeNode => rpc I f (UnregisterNode range I (address im))
  | ModeGate => rpc I f (UnregisterGate I (address im))
  end.

(** [connectLocked]: [ping] is whether the connection is made and answers; a failed registration is only logged *)
Definition connectLocked (im : InspectorManager) (info : Info) (rangeObjs : gmap string Object -> list Object) (I : Inspector) (now : Z) (ping : bool) (f : fault)
    : InspectorManager * Inspector * bool :=
  if negb ping then (im, I, false)
  else let im := set_conn im true in (im, (registerLocked im info rangeObjs I now f).1, true).

(** [Start] *)
Definition Start (im : InspectorManager) (info : Info) (rangeObjs : gmap string Object -> list Object) (I : Inspector) (now : Z) (ping : bool) (f : fault)
    : InspectorManager * Inspector :=
  if bool_decide (inspectorAddress im = "") then (im, I)
  else if started im then (im, I)
  else (connectLocked (set_started im true false) info rangeObjs I now ping f).1.

(** [Stop], whose wait for the management loop changes nothing *)
Definition Stop (im : InspectorManager) (I : Inspector) (f : fault) : InspectorManager * Inspector :=
  let I := if connected im && client im then (unregisterLocked im I f).1 else I in
  (set_started (set_conn im false) false (started im || cancelled im), I).

(** [healthCheck]: [ping] is whether the present connection answers, [reconnect] whether a new one does *)
Definition healthCheck (im : InspectorManager) (info : Info) (rangeObjs : gmap string Object -> list Object) (I : Inspector) (now : Z) (ping reconnect : bool) (f : fault)
    : InspectorManager * Inspector :=
  if negb (connected im) then (connectLocked im info rangeObjs I now reconnect f).1
  else if negb (client im) then (im, I)
  else if ping then (im, I)
  else (connectLocked (set_conn im false) info rangeObjs I now reconnect f).1.

(** The jobs that notifications submit, and their keys *)
Inductive task : Type :=
| TAdd (id class : string) (shard : Z)
| TRemove (id : string)
| TCall (id class method : string) (us : Z)
| TConnectedNodes
| TRegisteredGates
| TGateClients.

Definition taskKey (im : InspectorManager) (t : task) : string :=
  match t with TAdd id _ _ | TRemove id | TCall id _ _ _ => id | _ => address im end.

Definition shouldNotify (im : InspectorManager) : bool := connected im && client im.

(** [NotifyObjectAdded]; [None] is a write to the nil map of a gate *)
Definition NotifyObjectAdded (im : InspectorManager) (id class : string) (shard : Z) : option (InspectorManager * option task) :=
  if bool_decide (inspectorAddress im = "") then Some (im, None)
  else match tracked im with
  | None => None
  | Some m => Some (set_tracked im (Some (<[id := mkPbObject id class (int32 shard)]> m)), if shouldNotify im then Some (TAdd id class shard) else None)
  end.

(** [NotifyObjectRemoved] *)
Definition NotifyObjectRemoved (im : InspectorManager) (id : string) : InspectorManager * option task :=
  if bool_decide (inspectorAddress im = "") then (im, None)
  else (set_tracked im (delete id <$> tracked im), if shouldNotify im then Some (TRemove id) else None).

(** [NotifyObjectCall] *)
Definition NotifyObjectCall (im : InspectorManager) (id class method : string) (us : Z) : option task :=
  if bool_decide (inspectorAddress im = "") then None else if shouldNotify im then Some (TCall id class method us) else None.

(** [UpdateConnectedNodes], [UpdateRegisteredGates] and [UpdateGateClients] up to their submission *)
Definition UpdateConnectedNodes (im : InspectorManager) : option task :=
  if bool_decide (inspectorAddress im = "") || negb (client im) then None else Some TConnectedNodes.
Definition UpdateRegisteredGates (im : InspectorManager) : option task :=
  if bool_decide (inspectorAddress im = "") || negb (client im) then None
  else match mode im with ModeNode => Some TRegisteredGates | ModeGate => None end.
Definition UpdateGateClients (im : InspectorManager) : option task :=
  if bool_decide (inspectorAddress im = "") || negb (client im) then None
  else match mode im with ModeGate => Some TGateClients | ModeNode => None end.

(** [addOrUpdateObject], [removeObject], [reportObjectCall] and the bodies of the updates *)
Definition runTask (im : InspectorManager) (info : Info) (I : Inspector) (now : Z) (f : fault) (t : task) : Inspector :=
  match t with
  | TAdd id class shard => if client im then (rpc I f (AddOrUpdateObject I now (Some (mkPbObject id class (int32 shard))) (address im))).1 else I
  | TRemove id => if client im then (rpc I f (RemoveObject I id (address im))).1 else I
  | TCall id class method us => if client im then (rpc I f (ReportObjectCall I now id class method (address im) us)).1 else I
  | TConnectedNodes => (rpc I f (InspectorSvc.UpdateConnectedNodes I (address im) (GetConnectedNodes info))).1
  | TRegisteredGates => (rpc I f (InspectorSvc.UpdateRegisteredGates I (address im) (GetRegisteredGates info))).1
  | TGateClients => (rpc I f (InspectorSvc.UpdateGateClients I (address im) (int32 (GetClientCount info)))).1
  end.

(** [ReportLinkCall] *)
Definition ReportLinkCall (im : InspectorManager) (I : Inspector) (now : Z) (f : fault) (target : string) : Inspector :=
  if bool_decide (inspectorAddress im = "") || negb (client im) then I
  else (rpc I f (InspectorSvc.ReportLinkCall I now (address im) target (match mode im with ModeGate => true | ModeNode => false end))).1.

End Calls.

(** [IsObjectTracked] and [ObjectCount] *)
Definition IsObjectTracked (im : InspectorManager) (id : string) : bool := bool_decide (is_Some (default ∅ (tracked im) !! id)).
Definition ObjectCount (im : InspectorManager) : Z := Z.of_nat (size (default ∅ (tracked im))).

(** What a node does with its objects, in order, and the jobs that this submits *)
Inductive act : Type := AAdded (id class : string) (shard : Z) | ARemoved (id : string) | ACalled (id class method : string) (us : Z).

Definition notify (im : InspectorManager) (a : act) : option (InspectorManager * list task) :=
  match a with
  | AAdded id class shard => '(im, t) ← NotifyObjectAdded im id class shard; Some (im, option_list t)
  | ARemoved id => let '(im, t) := NotifyObjectRemoved im id in Some (im, option_list t)
  | ACalled id class method us => Some (im, option_list (NotifyObjectCall im id class method us))
  end.

Fixpoint notifies (im : InspectorManager) (l : list act) : option (InspectorManager * list task) :=
  match l with
  | [] => Some (im, [])
  | a :: l => '(im, ts) ← notify im a; '(im', ts') ← notifies im l; Some (im', ts ++ ts')
  end.

(** What the inspector goes through: jobs of this node, each at its time and without a failure, and the requests of other
    nodes and gates and its own background work *)
Inductive event : Type := Job (now : Z) (t : task) | Request (now : Z) (r : request).
Definition jobs_of (es : list event) : list (Z * task) := omap (fun e => match e with Job now t => Some (now, t) | _ => None end) es.

Definition runEvent (range : gmap string GoverseObject -> list (string * GoverseObject)) (im : InspectorManager) (info : Info) (I : Inspector) (e : event) : Inspector :=
  match e with Job now t => runTask im info I now NoFault t | Request now r => (handle range I now r).1 end.
Definition runEvents (range : gmap string GoverseObject -> list (string * GoverseObject)) (im : InspectorManager) (info : Info) (I : Inspector) (es : list event) : Inspector :=
  foldl (runEvent range im info) I es.

(** A request that is not about the object [id] nor about the registration of the node [addr] *)
Definition foreign (addr id : string) (r : request) : Prop :=
  match r with
  | RAddOrUpdateObject o _ => forall x, o = Some x -> Id x <> id
  | RRemoveObject id' _ => id' <> id
  | RRegisterNode a objs _ _ => a <> addr /\ forall x, Some x ∈ objs -> Id x <> id
  | RUnregisterNode a => a <> addr
  | _ => True
  end.
Definition undisturbed (addr id : string) (e : event) : Prop :=
  match e with Job _ t => True | Request _ r => foreign addr id r end.

End InspectorMgr.

(** ** The inspector catches up with the node *)

Section Converge.
Import InspectorMgr.
Implicit Types I : Inspector.
Implicit Types im : InspectorManager.

(** What the inspector shows of an object of a node, and what the node tracks: class and shard *)
Definition shown (I : Inspector) (addr id : string) : option (string * Z) :=
  x ← objects (pg I) !! id; if bool_decide (oGoverseNodeID x = addr) then Some (oType x, oShardID x) else None.
Definition trackedAs (im : InspectorManager) (id : string) : option (string * Z) :=
  (fun o => (Class o, ShardId o)) <$> default ∅ (tracked im) !! id.

(** What a job makes of it *)
Definition outcome_of (id : string) (cur : option (string * Z)) (t : task) : option (string * Z) :=
  match t with
  | TAdd id' class shard => if bool_decide (id' = id) then Some (class, int32 shard) else cur
  | TRemove id' => if bool_decide (id' = id) then None else cur
  | _ => cur
  end.

Definition about_object (t : task) : bool := match t with TAdd _ _ _ | TRemove _ | TCall _ _ _ _ => true | _ => false end.

Lemma runTask_shown im info I now t id : id <> "" -> client im = true -> IsNodeRegistered (pg I) (address im) = true -> about_object t = true ->
  shown (runTask im info I now NoFault t) (address im) id = outcome_of id (shown I (address im) id) t /\
  nodes (pg (runTask im info I now NoFault t)) = nodes (pg I).
Proof.
  intros Hid Hc Hr Ht. unfold shown. destruct t as [id' class shard|id'|id' class method us| | |]; try done; cbn; rewrite Hc.
  - case_bool_decide as He; cbn; [split; [|done]; by rewrite bool_decide_false by congruence|]. rewrite Hr. cbn. split; [|done].
    destruct (objectOf_fields I now (mkPbObject id' class (int32 shard)) (address im)) as (H1 & H2 & H3). rewrite H1. cbn.
    destruct (decide (id' = id)) as [->|Hne].
    + rewrite lookup_insert_eq, bool_decide_true by done. cbn. rewrite H2, H3, bool_decide_true by done. unfold objectOf. by destruct (getCallMetrics _ _ _).
    + by rewrite lookup_insert_ne, bool_decide_false by done.
  - unfold RemoveObject. case_bool_decide as He; cbn; [split; [|done]; by rewrite bool_decide_false by congruence|]. rewrite Hr. cbn. split; [|done].
    destruct (decide (id' = id)) as [->|Hne]; [by rewrite lookup_delete_eq, bool_decide_true|by rewrite lookup_delete_ne, bool_decide_false].
  - unfold ReportObjectCall. case_bool_decide; cbn; [done|]. by rewrite Hr.
Qed.

(** ** What the rest of the inspector's work leaves alone *)
Context (range : gmap string GoverseObject -> list (string * GoverseObject)) (Hrange : forall m, range m ≡ₚ map_to_list m).

(** Type, node and shard of an object, and whether a node is there *)
Definition core (I : Inspector) (id : string) : option (string * string * Z) :=
  (fun x => (oType x, oGoverseNodeID x, oShardID x)) <$> objects (pg I) !! id.
Definition same (I : Inspector) (addr id : string) (J : Inspector) : Prop :=
  core J id = core I id /\ (is_Some (nodes (pg I) !! addr) -> is_Some (nodes (pg J) !! addr)).

Lemma shown_core I addr id : shown I addr id = x ← core I id; if bool_decide (x.1.2 = addr) then Some (x.1.1, x.2) else None.
Proof. unfold shown, core. by destruct (objects (pg I) !! id). Qed.

Lemma same_refl I addr id : same I addr id I.
Proof. by split. Qed.

Lemma each_keeps {A : Type} (f : Inspector -> A -> Inspector * list GraphEvent) (R : Inspector -> Prop) l I :
  (forall J a, a ∈ l -> R J -> R (f J a).1) -> R I -> R (each f I l).1.
Proof.
  unfold each. intros Hf. change I with (I, @nil GraphEvent).1 at 1. generalize (I, @nil GraphEvent). revert Hf.
  induction l as [|a l IH]; intros Hf acc HR; [done|]. cbn. apply IH; [intros J b Hb; apply Hf; by right|].
  specialize (Hf acc.1 a ltac:(by left) HR). by destruct (f acc.1 a).
Qed.

Lemma refreshObjects_same I now addr id : well_formed (pg I) -> same I addr id (refreshObjectMetrics I now).1.
Proof.
  intros [(Hk & _) _]. apply (each_keeps _ (same I addr id)); [|apply same_refl]. intros J o Ho [Hc Hn]. unfold refreshObject.
  destruct (getCallMetrics J now (oID o)) as [c d]. destruct (negb _ || negb _); [|by split]. split; [|done]. unfold core in *. cbn.
  destruct (decide (oID o = id)) as [<-|Hne]; [|by rewrite lookup_insert_ne]. rewrite lookup_insert_eq. cbn.
  unfold GetObjects in Ho. apply list_elem_of_fmap in Ho as ([k x] & -> & Hx%elem_of_map_to_list). cbn. by rewrite (Hk _ _ Hx), Hx.
Qed.

Lemma refreshLinks_same I now addr id : same I addr id (refreshLinkMetrics I now).1.
Proof.
  unfold refreshLinkMetrics.
  assert (same I addr id (each (fun J => refreshNode J now) I (GetNodes (pg I))).1) as H1.
  { apply (each_keeps _ (same I addr id)); [|apply same_refl]. intros J n _ [Hc Hn]. split; [done|]. intros Hs. cbn. apply lookup_insert_is_Some'. auto. }
  destruct (each (fun J => refreshNode J now) I (GetNodes (pg I))) as [J ev]. cbn in H1.
  assert (same I addr id (each (fun J => refreshGate J now) J (GetGates (pg J))).1) as H2 by (by apply (each_keeps _ (same I addr id)); [|exact H1]; intros K x _ [Hc Hn]; split).
  by destruct (each (fun J => refreshGate J now) J (GetGates (pg J))).
Qed.

Lemma updateNode_same I a f addr id : same I addr id (set_pg I (updateNode (pg I) a f).1).
Proof.
  unfold updateNode. destruct (nodes (pg I) !! a) eqn:E; [|by destruct I]. split; [done|]. intros Hs. cbn. apply lookup_insert_is_Some'. auto.
Qed.
Lemma updateGate_same I a f addr id : same I addr id (set_pg I (updateGate (pg I) a f).1).
Proof. unfold updateGate. destruct (gates (pg I) !! a); by destruct I. Qed.

Lemma ok_addObjects_nodes now a os : forall I ev, nodes (pg (foldl (addObject now a) (I, ev) os).1) = nodes (pg I).
Proof. induction os as [|o os IH]; intros I ev; [done|]. cbn [foldl]. unfold addObject at 2. cbn. by rewrite IH. Qed.

Lemma register_other I now addr id a objs cs gs : well_formed (pg I) -> is_Some (nodes (pg I) !! addr) -> a <> addr ->
  (forall x, Some x ∈ objs -> Id x <> id) -> let J := (RegisterNode range I now a objs cs gs).1.1 in
  shown J addr id = shown I addr id /\ is_Some (nodes (pg J) !! addr).
Proof.
  intros Hw Hn Ha Hids J. destruct (decide (a = "")) as [->|Hne]; [done|].
  destruct (RegisterNode_exact range I now a objs cs gs id Hne) as [_ Ho]. fold J in Ho.
  assert (lastReport objs id = None) as Hl.
  { unfold lastReport. destruct (last _) as [o|] eqn:E; [|done]. apply last_Some_elem_of, list_elem_of_filter in E as [Hid Hin].
    unfold reported in Hin. apply list_elem_of_filter in Hin as [_ (y & Hy & Hoy)%list_elem_of_omap]. cbn in Hoy. subst y. by destruct (Hids o Hy). }
  rewrite Hl in Ho. split.
  - unfold shown. rewrite Ho. destruct (objects (pg I) !! id) as [x|]; cbn; [|done]. case_bool_decide as E; cbn; [|done].
    by rewrite bool_decide_false by congruence.
  - unfold J, RegisterNode. rewrite bool_decide_false by done. cbn -[filter].
    match goal with |- context [foldl (addObject now a) (?i, []) _] => pose proof (ok_addObjects_nodes now a (reported objs) i []) as Hnn end.
    destruct (foldl (addObject now a) _ _) as [i3 ev3]. cbn in *. rewrite Hnn. apply lookup_insert_is_Some'. auto.
Qed.

Lemma handle_shown I now addr id r : well_formed (pg I) -> is_Some (nodes (pg I) !! addr) -> foreign addr id r ->
  shown (handle range I now r).1 addr id = shown I addr id /\ is_Some (nodes (pg (handle range I now r).1) !! addr).
Proof.
  intros Hw Hn Hf. assert (forall J, same I addr id J -> shown J addr id = shown I addr id /\ is_Some (nodes (pg J) !! addr)) as Hs.
  { intros J [Hc HJ]. rewrite !shown_core, Hc. auto. }
  assert (forall (m : gmap string GoverseObject) J, objects (pg J) = m -> nodes (pg J) = nodes (pg I) -> m !! id = objects (pg I) !! id -> same I addr id J) as Ho.
  { intros m J <- HJ Hm. split; [by unfold core; rewrite Hm|by rewrite HJ]. }
  destruct r as [o a|o a|a objs cs gs|a|a cs n|a|a cs|a n|a gs|o c m a us|s t isg| | |]; cbn [handle foreign] in *.
  - unfold AddOrUpdateObject. destruct o as [o|]; [|by apply Hs, same_refl]. case_bool_decide; [by apply Hs, same_refl|].
    destruct (IsNodeRegistered (pg I) a); [|by apply Hs, same_refl]. apply Hs. eapply Ho; [done..|]. cbn.
    destruct (objectOf_fields I now o a) as (-> & _). by rewrite lookup_insert_ne by auto.
  - unfold RemoveObject. case_bool_decide; [by apply Hs, same_refl|]. destruct (IsNodeRegistered (pg I) a); [|by apply Hs, same_refl].
    apply Hs. eapply Ho; [done..|]. cbn. by rewrite lookup_delete_ne.
  - destruct Hf as [Ha Hids]. by apply register_other.
  - cbn. split; [|by rewrite lookup_delete_ne]. unfold shown. cbn. rewrite map_lookup_filter. destruct (objects (pg I) !! id) as [x|]; cbn; [|done].
    case_bool_decide as E; [rewrite option_guard_False by done|by rewrite option_guard_True by done]. cbn.
    by rewrite bool_decide_false by congruence.
  - unfold RegisterGate. case_bool_decide; [by apply Hs, same_refl|]. by apply Hs.
  - by apply Hs.
  - unfold InspectorSvc.UpdateConnectedNodes. case_bool_decide; [by apply Hs, same_refl|]. destruct (IsNodeRegistered (pg I) a); [by apply Hs, updateNode_same|].
    destruct (IsGateRegistered (pg I) a); [by apply Hs, updateGate_same|by apply Hs, same_refl].
  - unfold InspectorSvc.UpdateGateClients. case_bool_decide; [by apply Hs, same_refl|]. destruct (IsGateRegistered (pg I) a); [by apply Hs, updateGate_same|by apply Hs, same_refl].
  - unfold InspectorSvc.UpdateRegisteredGates. case_bool_decide; [by apply Hs, same_refl|]. destruct (IsNodeRegistered (pg I) a); [by apply Hs, updateNode_same|by apply Hs, same_refl].
  - unfold ReportObjectCall. case_bool_decide; [by apply Hs, same_refl|]. destruct (IsNodeRegistered (pg I) a); by apply Hs.
  - unfold InspectorSvc.ReportLinkCall. destruct (_ || _); [by apply Hs, same_refl|]. destruct (negb _); [by apply Hs, same_refl|]. destruct (negb _); by apply Hs.
  - by apply Hs, refreshObjects_same.
  - by apply Hs, refreshLinks_same.
  - by apply Hs.
Qed.

Lemma runEvents_shown im info es : forall I id, id <> "" -> client im = true -> well_formed (pg I) -> is_Some (nodes (pg I) !! address im) ->
  Forall (undisturbed (address im) id) es -> Forall (fun p => about_object p.2 = true) (jobs_of es) ->
  shown (runEvents range im info I es) (address im) id = foldl (outcome_of id) (shown I (address im) id) (jobs_of es).*2.
Proof.
  induction es as [|[now t|now r] es IH]; intros I id Hid Hc Hw Hr Hu Hl; [done|apply Forall_cons in Hu as [Hue Hu]..].
  - cbn in Hl. apply Forall_cons in Hl as [Ht Hl]. cbn in Ht.
    destruct (runTask_shown im info I now t id Hid Hc) as [Hs Hn]; [by apply IsNodeRegistered_spec; [apply Hw|]|done|].
    unfold runEvents in *. cbn. rewrite IH; [by rewrite Hs|done|done| |by rewrite Hn|done|done].
    assert (exists q, runTask im info I now NoFault t = (handle range I now q).1) as [q ->].
    { destruct t as [i c s|i|i c m us| | |]; try done; cbn; rewrite Hc;
        [exists (RAddOrUpdateObject (Some (mkPbObject i c (int32 s))) (address im))|exists (RRemoveObject i (address im))|exists (RReportObjectCall i c m (address im) us)]; done. }
    exact (proj1 (ok_handle range Hrange I now q Hw)).
  - cbn in Hue, Hl. destruct (handle_shown I now (address im) id r Hw Hr Hue) as [Hs Hn].
    unfold runEvents in *. cbn. rewrite IH; [by rewrite Hs|done|done| |done..]. exact (proj1 (ok_handle range Hrange I now r Hw)).
Qed.

(** Only the jobs of the object matter *)
Lemma outcome_filter im id ts cur : Forall (fun t => about_object t = true) ts ->
  foldl (outcome_of id) cur ts = foldl (outcome_of id) cur (filter (fun t => taskKey im t = id) ts).
Proof.
  revert cur. induction ts as [|t ts IH]; intros cur Hts; [done|]. apply Forall_cons in Hts as [Ht Hts]. rewrite filter_cons. cbn [foldl].
  destruct (decide (taskKey im t = id)) as [He|Hne]; cbn [foldl]; rewrite IH by done; [done|]. f_equal.
  destruct t; try done; cbn in *; by rewrite bool_decide_false.
Qed.

Lemma notify_spec im a im' ts id : inspectorAddress im <> "" -> connected im = true -> client im = true -> notify im a = Some (im', ts) ->
  address im' = address im /\ inspectorAddress im' = inspectorAddress im /\ connected im' = true /\ client im' = true /\
  Forall (fun t => about_object t = true) ts /\ trackedAs im' id = foldl (outcome_of id) (trackedAs im id) ts.
Proof.
  intros Ha Hc Hcl. unfold trackedAs. destruct a as [id' class shard|id'|id' class method us]; cbn.
  - unfold NotifyObjectAdded, shouldNotify. rewrite bool_decide_false, Hc, Hcl by done. destruct (tracked im) as [m|]; [|done]. intros [= <- <-].
    cbn. split_and!; try done; [by constructor|]. destruct (decide (id' = id)) as [->|Hne]; [by rewrite lookup_insert_eq, bool_decide_true|by rewrite lookup_insert_ne, bool_decide_false].
  - unfold NotifyObjectRemoved, shouldNotify. rewrite bool_decide_false, Hc, Hcl by done. intros [= <- <-]. cbn. split_and!; try done; [by constructor|].
    destruct (tracked im) as [m|]; cbn; [|by rewrite lookup_empty; case_bool_decide].
    destruct (decide (id' = id)) as [->|Hne]; [by rewrite lookup_delete_eq, bool_decide_true|by rewrite lookup_delete_ne, bool_decide_false].
  - intros [= <- <-]. unfold NotifyObjectCall, shouldNotify. rewrite bool_decide_false, Hc, Hcl by done. cbn. split_and!; try done. by constructor.
Qed.

Lemma notifies_spec l id : forall im im' ts, inspectorAddress im <> "" -> connected im = true -> client im = true -> notifies im l = Some (im', ts) ->
  address im' = address im /\ client im' = true /\ Forall (fun t => about_object t = true) ts /\ trackedAs im' id = foldl (outcome_of id) (trackedAs im id) ts.
Proof.
  induction l as [|a l IH]; intros im im' ts Ha Hc Hcl Hn; cbn in Hn; [simplify_eq; done|].
  apply bind_Some in Hn as ([im1 ts1] & H1 & Hn). apply bind_Some in Hn as ([im2 ts2] & H2 & Hn). injection Hn as <- <-.
  destruct (notify_spec im a im1 ts1 id Ha Hc Hcl H1) as (Ha1 & Hi1 & Hc1 & Hcl1 & Hf1 & Ht1).
  destruct (IH im1 im2 ts2) as (Ha2 & Hcl2 & Hf2 & Ht2); [congruence|done..|].
  split_and!; [congruence|done|by apply Forall_app|]. by rewrite foldl_app, <- Ht1.
Qed.

End Converge.

(** C36: the inspector catches up with the node.  A connected node notifies any sequence of creations, removals and calls
    of objects, the jobs of which the task pool runs, with those of an object accepted in the order of its
    notifications, in any order between objects and on any number of workers; the inspector serves other requests and does
    its own background work in between.  When the queues of the pool are empty and no call of the inspector by
    this node has failed, the inspector, on which the node is registered, shows for an object exactly what the node
    tracks, if it did before, and if no other request was about the object (a notification by another node, as after a
    move) or about the node's registration.  The periodic refresh of the metrics is one of the steps in between,
    as long as no job comes between its read of the objects and its writes. *)
Theorem inspector_converges (range : gmap string GoverseObject -> list (string * GoverseObject)) (n : Z) (w : TaskPools.world)
    (job : nat -> Z * InspectorMgr.task) (info : InspectorMgr.Info) (im im' : InspectorMgr.InspectorManager) (acts : list InspectorMgr.act)
    (ts : list InspectorMgr.task) (I : Inspector) (es : list InspectorMgr.event) (id : string) :
  (forall m, range m ≡ₚ map_to_list m) ->
  InspectorMgr.inspectorAddress im <> "" -> InspectorMgr.connected im = true -> InspectorMgr.client im = true ->
  well_formed (pg I) -> IsNodeRegistered (pg I) (InspectorMgr.address im) = true ->
  id <> "" -> shown I (InspectorMgr.address im) id = trackedAs im id ->
  InspectorMgr.notifies im acts = Some (im', ts) ->
  (0 < n < 2 ^ 32)%Z -> TaskPools.reachable n w ->
  (forall p, p ∈ TaskPools.accepted w -> TaskPools.jkey p.2 = Some (InspectorMgr.taskKey im (job (TaskPools.jid p.2)).2)) ->
  (forall k, (fun j => (job (TaskPools.jid j)).2) <$> of_key k (TaskPools.accepted w) = filter (fun t => InspectorMgr.taskKey im t = k) ts) ->
  (forall i x, TaskPools.workers (TaskPools.pool w) !! i = Some x -> TaskPools.jobs x = []) ->
  InspectorMgr.jobs_of es = (fun p => job (TaskPools.jid p.2)) <$> TaskPools.begun w ->
  Forall (InspectorMgr.undisturbed (InspectorMgr.address im) id) es ->
  shown (InspectorMgr.runEvents range im' info I es) (InspectorMgr.address im) id = trackedAs im' id.
Proof.
  intros Hrange Ha Hc Hcl Hwf Hreg Hid Hag Hn Hnw Hr Hkey Hacc Hempty Hes Hund.
  destruct (notifies_spec acts id im im' ts Ha Hc Hcl Hn) as (Ha' & Hcl' & Hf & Ht).
  set (l := (fun p => job (TaskPools.jid p.2)) <$> TaskPools.begun w) in *.
  assert (forall p, p ∈ TaskPools.begun w -> p ∈ TaskPools.accepted w) as Hbeg by (by destruct (reachable_pool_inv n w Hnw Hr)).
  assert (forall k, filter (fun t => InspectorMgr.taskKey im t = k) l.*2 = filter (fun t => InspectorMgr.taskKey im t = k) ts) as Hl.
  { intros k. rewrite <- (Hacc k), <- (pool_drained n w k Hnw Hr Hempty). unfold l, of_key. clear Hacc Hempty Hes l.
    induction (TaskPools.begun w) as [|p b IH]; [done|]. cbn [fmap list_fmap]. rewrite !filter_cons.
    pose proof (Hkey p (Hbeg p ltac:(by left))) as Hp. assert (forall q, q ∈ b -> q ∈ TaskPools.accepted w) as Hb by (intros q Hq; apply Hbeg; by right).
    destruct (decide (TaskPools.jkey p.2 = Some k)) as [He|He].
    - rewrite decide_True by congruence. cbn. by rewrite IH.
    - rewrite decide_False by congruence. by apply IH. }
  assert (Forall (fun t => about_object t = true) l.*2) as Hfl.
  { apply Forall_forall. intros t Ht'. rewrite Forall_forall in Hf. apply Hf.
    assert (t ∈ filter (fun x => InspectorMgr.taskKey im x = InspectorMgr.taskKey im t) l.*2) as Hx by (by apply list_elem_of_filter).
    rewrite Hl in Hx. by apply list_elem_of_filter in Hx as [_ Hx]. }
  rewrite <- Ha' in Hund, Hreg |- *. apply IsNodeRegistered_spec in Hreg; [|apply Hwf].
  rewrite (runEvents_shown range Hrange); [|done..|by rewrite Hes; apply Forall_fmap in Hfl].
  rewrite Hes, Ha', (outcome_filter im) by done. rewrite Hl, <- (outcome_filter im) by done. by rewrite Ht, Hag.
Qed.

(** A node at [n:1] that is connected and registered *)
Module InspectorExample.
Import InspectorMgr.
Definition im0 : InspectorManager := set_conn (set_started (NewInspectorManager "n:1" "inspector:1") true false) true.
Definition noInfo : Info := mkInfo [] [] 0.
Definition listed (m : gmap string Object) : list Object := (map_to_list m).*2.
Definition I0 : Inspector := (registerLocked map_to_list im0 noInfo listed (New NewGoverseGraph) 1 NoFault).1.
Definition added : list act := [AAdded "a" "Chat" 5].
Definition im1 : InspectorManager := default im0 (fst <$> notifies im0 added).
Definition job (j : nat) : Z * task := (2%Z, TAdd "a" "Chat" 5).
End InspectorExample.

Lemma inspector_converges_witness :
  shown (InspectorMgr.runEvents map_to_list InspectorExample.im1 InspectorExample.noInfo InspectorExample.I0
    [InspectorMgr.Request 2 (RRegisterNode "n:2" [Some (mkPbObject "b" "Chat" 1)] [] []); InspectorMgr.Job 2 (InspectorMgr.TAdd "a" "Chat" 5);
     InspectorMgr.Request 3 RRefreshObjects; InspectorMgr.Request 4 (RUnregisterNode "n:2")]) "n:1" "a" = Some ("Chat", 5%Z).
Proof.
  refine (inspector_converges map_to_list 2 TaskPoolExample.w3 InspectorExample.job InspectorExample.noInfo InspectorExample.im0 InspectorExample.im1 InspectorExample.added
    [InspectorMgr.TAdd "a" "Chat" 5] InspectorExample.I0 _ "a" _ _ _ _ _ _ _ _ _ _ _ _ _ _ _ _); try done.
  - refine (proj1 (ok_handle map_to_list (fun m => reflexivity (map_to_list m)) (New NewGoverseGraph) 1 (RRegisterNode "n:1" [] [] []) _)). by wf_split.
  - exact TaskPoolExample.w3_reachable.
  - intros p Hp. apply list_elem_of_singleton in Hp as ->. done.
  - intros k. destruct (decide (k = "a")) as [->|Hne]; [reflexivity|]. unfold of_key. cbn [TaskPools.accepted TaskPoolExample.w3].
    rewrite !filter_cons, !filter_nil, !decide_False by (cbn; congruence). done.
  - intros i x. destruct i as [|[|i]]; cbn; [..|done]; by intros [= <-].
  - repeat constructor; try done. intros x Hx%list_elem_of_singleton. by injection Hx as ->.
Defined.

(** ** What the inspector misses *)

(** A job that waits in the pool while the connection is lost runs on the next one: an object that is added, and removed while
    there is no connection, is shown after the reconnection although the node no longer tracks it. *)
Theorem stale_addition_after_reconnect :
  let '(im1, t) := default (InspectorExample.im0, None) (InspectorMgr.NotifyObjectAdded InspectorExample.im0 "a" "Chat" 5) in
  let '(im2, I2) := InspectorMgr.healthCheck map_to_list im1 InspectorExample.noInfo InspectorExample.listed InspectorExample.I0 2 false false NoFault in
  let '(im3, t') := InspectorMgr.NotifyObjectRemoved im2 "a" in
  let '(im4, I4) := InspectorMgr.healthCheck map_to_list im3 InspectorExample.noInfo InspectorExample.listed I2 3 false true NoFault in
  let I5 := InspectorMgr.runTask im4 InspectorExample.noInfo I4 4 NoFault (default InspectorMgr.TGateClients t) in
  t = Some (InspectorMgr.TAdd "a" "Chat" 5) /\ t' = None /\ InspectorMgr.connected im4 = true /\ trackedAs im4 "a" = None /\ shown I5 "n:1" "a" = Some ("Chat", 5%Z).
Proof. vm_compute. done. Qed.

(** A connected manager does not notice that the inspector was restarted: as long as the connection answers, the health
    check neither reconnects nor registers, and an inspector that lost its graph refuses every object of the node. *)
Theorem restarted_inspector_unnoticed range im info listed (I : Inspector) now reconnect f id class shard :
  InspectorMgr.connected im = true -> InspectorMgr.client im = true -> IsNodeRegistered (pg I) (InspectorMgr.address im) = false ->
  InspectorMgr.healthCheck range im info listed I now true reconnect f = (im, I) /\
  InspectorMgr.runTask im info I now NoFault (InspectorMgr.TAdd id class shard) = I.
Proof.
  intros Hc Hcl Hr. unfold InspectorMgr.healthCheck. rewrite Hc, Hcl. split; [done|]. cbn. rewrite Hcl. case_bool_decide; [done|]. by rewrite Hr.
Qed.
