(* ===== verification/InspectServer.v ===== *)
(** * The web server of the inspector (cmd/inspector/inspectserver)

    [Module InspectServers]: the endpoints that change the cluster, [handleShardMove] and [handleShardPin], on
    the consensus manager of ConsensusStore.v, and the clients of the event stream, whose bounded channels get
    the events of the graph.  The parsing of requests and the encoding of answers are not modelled: a body is
    [None] when it cannot be decoded, an event is sent as it is. *)

From S2P Require Import Prelude GoStrings GoFloat ConsensusState ConsensusPlan EtcdStore ConsensusStore InspectorGraph InspectorService.
Import Shards Consensus Store Graph.

Module InspectServers.

Inductive http_status : Type :=
| StatusOK | StatusBadRequest | StatusNotFound | StatusMethodNotAllowed | StatusInternalServerError | StatusServiceUnavailable.

Inductive http_method : Type := GET | POST | OtherMethod.
#[global] Instance http_method_eq_dec : EqDecision http_method.
Proof. solve_decision. Defined.

(** ** Moving and pinning shards *)

Section Shards.
Context {S : Type} `{EtcdOps S} (prefix : string).

(** What a request leaves: the manager and etcd, the status, and whether the stream clients are told *)
Definition outcome : Type := ConsensusManager * S * http_status * bool.

(** [handleShardMove]: [cm] is [None] when the inspector runs without etcd; the outer [None] is the panic of the
    store on a nil mapping *)
Definition handleShardMove (cm : ConsensusManager) (hasCM : bool) (s : S) (connected : bool) (meth : http_method) (body : option (Z * string)) (f : fault)
    : option outcome :=
  if bool_decide (meth <> POST) then Some (cm, s, StatusMethodNotAllowed, false)
  else if negb hasCM then Some (cm, s, StatusServiceUnavailable, false)
  else match body with
  | None => Some (cm, s, StatusBadRequest, false)
  | Some (id, target) =>
      if (id <? 0)%Z || (numShards cm <=? id)%Z then Some (cm, s, StatusBadRequest, false)
      else if bool_decide (target = "") then Some (cm, s, StatusBadRequest, false)
      else match GetShardMapping cm !! id with
      | None => Some (cm, s, StatusNotFound, false)
      | Some cur =>
          match storeShardMapping prefix cm s connected [(id, mkShard target (CurrentNode cur) (Flags cur) (ModRevision cur), f)] with
          | None => None
          | Some (cm', s', (_, Some _, _)) => Some (cm', s', StatusInternalServerError, false)
          | Some (cm', s', (O, None, _)) => Some (cm', s', StatusInternalServerError, false)
          | Some (cm', s', (_, None, _)) => Some (cm', s', StatusOK, true)
          end
      end
  end.

(** The flags of a shard that is pinned or unpinned *)
Definition pinFlags (flags : list string) (pinned : bool) : list string :=
  filter (fun f => f <> "pinned") flags ++ if pinned then ["pinned"] else [].

(** [handleShardPin] *)
Definition handleShardPin (cm : ConsensusManager) (hasCM : bool) (s : S) (connected : bool) (meth : http_method) (body : option (Z * bool)) (f : fault)
    : option outcome :=
  if bool_decide (meth <> POST) then Some (cm, s, StatusMethodNotAllowed, false)
  else if negb hasCM then Some (cm, s, StatusServiceUnavailable, false)
  else match body with
  | None => Some (cm, s, StatusBadRequest, false)
  | Some (id, pinned) =>
      if (id <? 0)%Z || (numShards cm <=? id)%Z then Some (cm, s, StatusBadRequest, false)
      else match GetShardMapping cm !! id with
      | None => Some (cm, s, StatusNotFound, false)
      | Some cur =>
          match storeShardMapping prefix cm s connected [(id, mkShard (TargetNode cur) (CurrentNode cur) (pinFlags (Flags cur) pinned) (ModRevision cur), f)] with
          | None => None
          | Some (cm', s', (_, Some _, _)) => Some (cm', s', StatusInternalServerError, false)
          | Some (cm', s', (_, None, _)) => Some (cm', s', StatusOK, false)
          end
      end
  end.

(** [handleReady] *)
Definition handleReady (cm : ConsensusManager) (hasCM : bool) (meth : http_method) : http_status :=
  if bool_decide (meth <> GET) then StatusMethodNotAllowed
  else if negb hasCM || negb (IsReady cm) then StatusServiceUnavailable else StatusOK.

End Shards.

(** ** The event stream *)

Definition eventChanCap : nat := 100.

(** [SSEClient]: the events in its channel, and those it was not sent because the channel was full *)
Record SSEClient : Type := mkSSE { eventChan : list GraphEvent; dropped : nat }.

Record InspectorServer : Type := mkServer { sseClients : gmap Z SSEClient; clientIDSeq : Z }.

Definition New : InspectorServer := mkServer ∅ 0.

(** [broadcastSSEPayload] *)
Definition send (e : GraphEvent) (c : SSEClient) : SSEClient :=
  if (length (eventChan c) <? eventChanCap)%nat then mkSSE (eventChan c ++ [e]) (dropped c) else mkSSE (eventChan c) (Datatypes.S (dropped c)).
Definition broadcastSSEPayload (sv : InspectorServer) (e : GraphEvent) : InspectorServer := mkServer (send e <$> sseClients sv) (clientIDSeq sv).

(** [handleEventsStream]: registration, a receive, and the deferred cleanup *)
Definition connect (sv : InspectorServer) : InspectorServer * Z :=
  let n := (clientIDSeq sv + 1)%Z in (mkServer (<[n := mkSSE [] 0]> (sseClients sv)) n, n).
Definition receive (sv : InspectorServer) (n : Z) : option (InspectorServer * GraphEvent) :=
  c ← sseClients sv !! n;
  match eventChan c with
  | e :: rest => Some (mkServer (<[n := mkSSE rest (dropped c)]> (sseClients sv)) (clientIDSeq sv), e)
  | [] => None
  end.
Definition disconnect (sv : InspectorServer) (n : Z) : InspectorServer := mkServer (delete n (sseClients sv)) (clientIDSeq sv).

End InspectServers.

(** ** Moves and pins are compare-and-swaps of one field *)

Section MoveLemmas.
Import InspectServers.
Context {S : Type} `{EtcdLaws S} (prefix : string).

(** The store of one shard *)
Lemma store_one cm s id info f :
  etcdManager cm = true -> etcd_ok s -> is_Some (ShardMapping (state cm)) -> in_int64 id ->
  (forall j, (ModRevision (shard_at (default ∅ (ShardMapping (state cm))) j) <= etcd_rev s)%Z) ->
  exists cm' s' n err b, storeShardMapping prefix cm s true [(id, info, f)] = Some (cm', s', (n, err, b)) /\
    (forall j, in_int64 j -> j <> id -> shard_state prefix cm' s' j = shard_state prefix cm s j) /\
    (err = None -> n = 1 /\ will_commit prefix s (id, info, f) /\ exists r, (etcd_rev s < r)%Z /\ shard_state prefix cm' s' id =
       (Some (formatShardInfo info, r), mkShard (TargetNode info) (CurrentNode info) (Flags info) r)) /\
    (err <> None -> ~ will_commit prefix s (id, info, f)) /\
    (mod_rev s (shardKey prefix id) <> ModRevision info -> err <> None /\ shard_state prefix cm' s' id = shard_state prefix cm s id).
Proof.
  intros He Hok Hsm Hid Hcoh. unfold storeShardMapping. rewrite He. cbn [negb].
  destruct (storeTasks_spec prefix [(id, info, f)] cm s Hok Hsm) as (cm' & s' & n & err & -> & _ & _ & Hn & Herr & Ho & Ht); [by apply NoDup_singleton|by constructor|done|].
  rewrite filter_cons, filter_nil in Hn. destruct (Ht id info f ltac:(by left)) as [Hhit Hmiss].
  exists cm', s', n, err, (0 <? n)%nat. split_and!.
  - done.
  - intros j Hj Hne. apply Ho; [done|]. cbn. rewrite list_elem_of_singleton. done.
  - intros Hnone. apply Herr in Hnone as Hn1. cbn in Hn1. destruct (decide _) as [Hw|Hw]; cbn in Hn; [|lia]. auto.
  - intros Hsome Hw. rewrite decide_True in Hn by done. cbn in Hn. by destruct Hsome; apply Herr.
  - intros Hne. split; [|auto]. intros Hx%Herr. cbn in Hx. rewrite decide_False in Hn; [cbn in Hn; lia|]. unfold will_commit. cbn. by intros [_ ?].
Qed.

End MoveLemmas.

(** Moving a shard by hand changes its target and nothing else.  On a manager with the cached record of the shard, a
    POST that names a shard in range and a target: it answers, with success exactly when the commit hits no
    fault and etcd still has the record at the cached revision; then etcd and the cache hold the record with
    the new target, the owner and the flags unchanged, at a fresh revision, and the stream clients are told;
    when the record has moved on, neither etcd nor the cache changes; and no other shard ever changes. *)
Theorem handleShardMove_correct {S : Type} `{EtcdLaws S} (prefix : string) (cm : ConsensusManager) (s : S) id target f cur :
  etcdManager cm = true -> etcd_ok s -> (forall j, (ModRevision (shard_at (default ∅ (ShardMapping (state cm))) j) <= etcd_rev s)%Z) ->
  (0 <= id < numShards cm)%Z -> in_int64 id -> target <> "" -> GetShardMapping cm !! id = Some cur ->
  exists cm' s' st told, InspectServers.handleShardMove prefix cm true s true InspectServers.POST (Some (id, target)) f = Some (cm', s', st, told) /\
    (st = InspectServers.StatusOK <-> f = NoFault /\ mod_rev s (shardKey prefix id) = ModRevision cur) /\
    (told = true <-> st = InspectServers.StatusOK) /\
    (st = InspectServers.StatusOK -> exists r, (etcd_rev s < r)%Z /\ shard_state prefix cm' s' id =
       (Some (formatShardInfo (WithTargetNode cur target), r), mkShard target (CurrentNode cur) (Flags cur) r)) /\
    (mod_rev s (shardKey prefix id) <> ModRevision cur -> shard_state prefix cm' s' id = shard_state prefix cm s id) /\
    (forall j, in_int64 j -> j <> id -> shard_state prefix cm' s' j = shard_state prefix cm s j).
Proof.
  intros He Hok Hcoh Hr Hi Ht Hcur. unfold InspectServers.handleShardMove. rewrite bool_decide_false by (intros Hx; by apply Hx).
  rewrite (proj2 (Z.ltb_ge id 0)), (proj2 (Z.leb_gt (numShards cm) id)), (bool_decide_false (target = "")) by (done || lia). cbn. rewrite Hcur.
  assert (is_Some (ShardMapping (state cm))) as Hsm by (unfold GetShardMapping in Hcur; by destruct (ShardMapping (state cm))).
  destruct (store_one prefix cm s id (mkShard target (CurrentNode cur) (Flags cur) (ModRevision cur)) f He Hok Hsm Hi Hcoh)
    as (cm' & s' & n & err & b & -> & Ho & Hhit & Hmiss & Hstale). unfold will_commit in *. cbn in *.
  destruct err as [e|].
  - exists cm', s', InspectServers.StatusInternalServerError, false. split; [by destruct n|]. split_and!; try done; [|by apply Hstale].
    split; [done|]. intros [-> Hx]. by destruct (Hmiss ltac:(done)).
  - destruct (Hhit eq_refl) as (-> & [-> Hx] & r & Hlt & Hst). exists cm', s', InspectServers.StatusOK, true.
    split_and!; try done. eauto.
Qed.

(** Pinning keeps target and owner, sets or clears the flag [pinned] and keeps the other flags. *)
Theorem pinFlags_spec flags pinned f : f ∈ InspectServers.pinFlags flags pinned <-> (f = "pinned" /\ pinned = true) \/ (f <> "pinned" /\ f ∈ flags).
Proof.
  unfold InspectServers.pinFlags. rewrite elem_of_app, list_elem_of_filter. destruct pinned; rewrite ?list_elem_of_singleton, ?elem_of_nil; split; intros Hx.
  - destruct Hx as [[? ?]|Hx]; [by right|left; done].
  - destruct Hx as [[? _]|[? ?]]; [by right|by left].
  - destruct Hx as [[? ?]|Hx]; [by right|done].
  - destruct Hx as [[_ ?]|[? ?]]; [done|by left].
Qed.

Lemma handleShardMove_correct_witness :
  let cm := set_state (NewConsensusManager true 0 "" 8) (mkState ∅ (Some ∅) (Some {[ 2%Z := mkShard "a:1" "a:1" [] 4 ]}) "" 0 4 (Some 0%Z)) in
  let s := mkMem {[ "/g/shard/2" := ("a:1,a:1", 4%Z) ]} 4 in
  exists cm' s' told, InspectServers.handleShardMove "/g" cm true s true InspectServers.POST (Some (2%Z, "b:1")) NoFault = Some (cm', s', InspectServers.StatusOK, told).
Proof.
  intros cm s. destruct (handleShardMove_correct "/g" cm s 2 "b:1" NoFault (mkShard "a:1" "a:1" [] 4)) as (cm' & s' & st & told & Hh & Hst & _).
  - reflexivity.
  - split; [by apply (bool_decide_unpack _)|]. intros k v r Hk. unfold s in Hk. cbn in Hk. apply lookup_singleton_Some in Hk as [_ [= _ <-]]. cbn. lia.
  - intros j. cbn. unfold shard_at. destruct (decide (j = 2%Z)) as [->|Hne]; [by rewrite lookup_singleton_eq|rewrite lookup_singleton_ne by done; cbn; lia].
  - cbn. lia.
  - split; lia.
  - done.
  - reflexivity.
  - exists cm', s', told. rewrite Hh. do 3 f_equal. by rewrite (proj2 Hst).
Defined.

(** A target is not validated: a comma in it ends the field, and the record that etcd then holds has another owner. *)
Theorem move_target_with_comma_changes_owner :
  let cm := set_state (NewConsensusManager true 0 "" 8) (mkState ∅ (Some ∅) (Some {[ 2%Z := mkShard "a:1" "a:1" [] 4 ]}) "" 0 4 (Some 0%Z)) in
  let s := mkMem {[ "/g/shard/2" := ("a:1,a:1", 4%Z) ]} 4 in
  exists cm' s' told, InspectServers.handleShardMove "/g" cm true s true InspectServers.POST (Some (2%Z, "b:1,c:1")) NoFault = Some (cm', s', InspectServers.StatusOK, told) /\
    (fun v => CurrentNode (parseShardInfo v.1 v.2)) <$> etcd_get s' "/g/shard/2" = Some "c:1".
Proof. do 3 eexists. split; [vm_compute; reflexivity|]. vm_compute. reflexivity. Qed.

(** ** A client of the event stream ends with the graph *)

Section Stream.
Import InspectServers.

(** An update of at most one key, and the value that a list of updates leaves under a key *)
Definition applyUpd {A : Type} (m : gmap string A) (u : option (string * option A)) : gmap string A :=
  match u with Some (k, v) => partial_alter (fun _ => v) k m | None => m end.
Definition written {A : Type} (k : string) (us : list (option (string * option A))) : option (option A) :=
  last (omap (fun u => '(k', v) ← u; if bool_decide (k' = k) then Some v else None) us).

Lemma applyUpds_lookup {A : Type} (us : list (option (string * option A))) m k :
  foldl applyUpd m us !! k = match written k us with Some v => v | None => m !! k end.
Proof.
  induction us as [|u us IH] using rev_ind; [done|]. rewrite foldl_snoc. unfold written in *. rewrite omap_app. cbn.
  destruct u as [[k' v]|]; cbn; [|by rewrite app_nil_r]. case_bool_decide as Hk.
  - subst k'. by rewrite lookup_partial_alter_eq, last_snoc.
  - by rewrite lookup_partial_alter_ne, app_nil_r.
Qed.

(** Updates that were applied already may be applied again *)
Lemma applyUpds_again {A : Type} (us : list (option (string * option A))) m n : foldl applyUpd (foldl applyUpd m (take n us)) us = foldl applyUpd m us.
Proof.
  apply map_eq. intros k. rewrite !applyUpds_lookup. destruct (written k us) as [v|] eqn:E; [done|].
  unfold written in *. apply last_None in E. rewrite <- (take_drop n us), omap_app in E. apply app_nil in E as [E _]. by rewrite E.
Qed.

(** What an event does to each of the maps *)
Definition objUpd (e : GraphEvent) : option (string * option GoverseObject) :=
  match e with EventObjectAdded o | EventObjectUpdated o => Some (oID o, Some o) | EventObjectRemoved id => Some (id, None) | _ => None end.
Definition nodeUpd (e : GraphEvent) : option (string * option GoverseNode) :=
  match e with EventNodeAdded n | EventNodeUpdated n => Some (nID n, Some n) | EventNodeRemoved id => Some (id, None) | _ => None end.
Definition gateUpd (e : GraphEvent) : option (string * option GoverseGate) :=
  match e with EventGateAdded x | EventGateUpdated x => Some (gID x, Some x) | EventGateRemoved id => Some (id, None) | _ => None end.

Lemma replays_maps es : forall g, foldl replay g es =
  mkGraph (foldl applyUpd (objects g) (objUpd <$> es)) (foldl applyUpd (nodes g) (nodeUpd <$> es)) (foldl applyUpd (gates g) (gateUpd <$> es)).
Proof. induction es as [|e es IH]; intros g; [by destruct g|]. cbn [foldl fmap list_fmap]. rewrite IH. by destruct e. Qed.

(** The graph read in three steps while events are emitted, at any of the points between them *)
Definition snapshot (g : GoverseGraph) (es : list GraphEvent) (k1 k2 k3 : nat) : GoverseGraph :=
  mkGraph (objects (foldl replay g (take k3 es))) (nodes (foldl replay g (take k1 es))) (gates (foldl replay g (take k2 es))).

Lemma snapshot_replay g es k1 k2 k3 : foldl replay (snapshot g es k1 k2 k3) es = foldl replay g es.
Proof. rewrite !replays_maps. unfold snapshot. rewrite !replays_maps. cbn. by rewrite !fmap_take, !applyUpds_again. Qed.

(** What happens after a client is registered: an event is sent to all clients, or the client receives one *)
Fixpoint streamed (sv : InspectorServer) (n : Z) (acts : list (option GraphEvent)) : InspectorServer * list GraphEvent :=
  match acts with
  | [] => (sv, [])
  | Some e :: acts => streamed (broadcastSSEPayload sv e) n acts
  | None :: acts =>
      match receive sv n with
      | Some (sv', e) => let '(sv'', es) := streamed sv' n acts in (sv'', e :: es)
      | None => streamed sv n acts
      end
  end.

Lemma streamed_spec n acts : forall sv c, sseClients sv !! n = Some c ->
  exists c', sseClients (streamed sv n acts).1 !! n = Some c' /\ (dropped c <= dropped c')%nat /\
    (dropped c' = 0%nat -> (streamed sv n acts).2 ++ eventChan c' = eventChan c ++ omap id acts).
Proof.
  induction acts as [|[e|] acts IH]; intros sv c Hc; cbn [streamed].
  - exists c. cbn. split_and!; [done|lia|]. by rewrite app_nil_r.
  - destruct (IH (broadcastSSEPayload sv e) (send e c)) as (c' & Hc' & Hd & Hs); [cbn; by rewrite lookup_fmap, Hc|].
    exists c'. unfold send in *. destruct (length (eventChan c) <? eventChanCap)%nat; cbn in Hd, Hs.
    + split_and!; [done|lia|]. intros H0. rewrite Hs by done. cbn. by rewrite <- app_assoc.
    + split_and!; [done|lia|]. lia.
  - destruct (receive sv n) as [[sv' e]|] eqn:Hr.
    + unfold receive in Hr. rewrite Hc in Hr. cbn in Hr. destruct (eventChan c) as [|e' rest] eqn:Hq; [done|]. injection Hr as <- <-.
      destruct (IH (mkServer (<[n := mkSSE rest (dropped c)]> (sseClients sv)) (clientIDSeq sv)) (mkSSE rest (dropped c))) as (c' & Hc' & Hd & Hs); [cbn; by rewrite lookup_insert_eq|].
      destruct (streamed _ n acts) as [sv'' es]. cbn in *. exists c'. split_and!; [done|done|]. intros H0. by rewrite Hs.
    + destruct (IH sv c Hc) as (c' & Hc' & Hd & Hs). exists c'. by cbn.
Qed.

End Stream.

(** A client of the event stream ends with the graph of the inspector, whenever it connects.  The client is registered,
    and while events go on being emitted the three parts of the graph are read one after the other, at any
    points, as its initial state; then it is sent the events.  If its channel was never full and is empty, the initial
    state with the events replayed on it is the graph up to the object counts of the nodes, although events
    that the initial state has already are replayed once more. *)
Theorem stream_client_converges (sv : InspectServers.InspectorServer) (g copy : GoverseGraph) (acts : list (option GraphEvent)) k1 k2 k3 c :
  let '(sv1, n) := InspectServers.connect sv in
  let es := omap id acts in
  uncounted copy = uncounted (snapshot g es k1 k2 k3) ->
  InspectServers.sseClients (streamed sv1 n acts).1 !! n = Some c -> InspectServers.dropped c = 0%nat -> InspectServers.eventChan c = [] ->
  uncounted (foldl replay copy (streamed sv1 n acts).2) = uncounted (foldl replay g es).
Proof.
  destruct (InspectServers.connect sv) as [sv1 n] eqn:Hcn. cbn zeta. intros Hcopy Hc Hd Hq. unfold InspectServers.connect in Hcn. injection Hcn as <- <-.
  destruct (streamed_spec (InspectServers.clientIDSeq sv + 1) acts (InspectServers.mkServer (<[(InspectServers.clientIDSeq sv + 1)%Z := InspectServers.mkSSE [] 0]> (InspectServers.sseClients sv)) (InspectServers.clientIDSeq sv + 1)) (InspectServers.mkSSE [] 0))
    as (c' & Hc' & _ & Hs); [cbn; by rewrite lookup_insert_eq|].
  rewrite Hc in Hc'. injection Hc' as <-. specialize (Hs Hd). rewrite Hq, app_nil_r in Hs. cbn in Hs. rewrite Hs.
  rewrite <- (replays_uncounted _ copy), Hcopy, replays_uncounted. by rewrite snapshot_replay.
Qed.

Lemma stream_client_converges_witness :
  let o := mkObject "a" "" GoFloat.Float64.f0 "" "T" "n:1" 0 0 GoFloat.Float64.f0 in
  let acts := [Some (EventObjectAdded o); Some (EventObjectRemoved "a"); None; None] in
  uncounted (foldl replay (mkGraph {[ "a" := o ]} ∅ ∅) (streamed (InspectServers.connect InspectServers.New).1 1 acts).2) = uncounted NewGoverseGraph.
Proof.
  intros o acts. refine (stream_client_converges InspectServers.New NewGoverseGraph (mkGraph {[ "a" := o ]} ∅ ∅) acts 0 0 1 (InspectServers.mkSSE [] 0) _ _ _ _); reflexivity.
Defined.

(** A client whose channel is full loses events for good: after a hundred events that it has not read, the removal of an object
    never reaches it. *)
Theorem full_stream_loses_events e :
  let sv := (streamed (InspectServers.connect InspectServers.New).1 1 (replicate 100 (Some e))).1 in
  InspectServers.sseClients (InspectServers.broadcastSSEPayload sv (EventObjectRemoved "a")) !! 1%Z = Some (InspectServers.mkSSE (replicate 100 e) 1).
Proof. reflexivity. Qed.
