(* ===== verification/GateHTTP.v ===== *)
(** * The HTTP front end of the gate (gate/gateserver/http_handler.go)

    [Module GateHTTPs]: the REST handlers of the gate next to the gRPC handlers of GateServer.v: the parsing of the
    path, the decoding of the body, the checks, the authorisation of the client by the event handler, and the
    call of the cluster.  The JSON, base64 and protobuf decoders are functions of the model's context, the
    header [X-Goverse-Auth] is its decoded map or the error, and the texts of the cluster's errors are a
    function.  The routes, the texts and the server-sent events are in GateEvents.v, the start and stop of the servers in
    GateLifecycle.v. *)

From S2P Require Import Prelude GoStrings ObjectId Persistence Object ReliableCalls AccessControl Node.
From S2P Require Import ConsensusState ConsensusStore Cluster CallContext Server GateServer.
Import Proto Objects Access Conf Consensus Clusters Context.

Module GateHTTPs.

(** The status and the code of an answer *)
Inductive http_answer (A : Type) : Type :=
| HOk (a : A)
| HError (status : Z) (code : string)
| HNoContent.
Arguments HOk {A} _.
Arguments HError {A} _ _.
Arguments HNoContent {A}.

Inductive http_method : Type := GET | POST | OPTIONS | OtherMethod.
#[global] Instance http_method_eq_dec : EqDecision http_method.
Proof. solve_decision. Defined.

(** [strings.SplitN(s, "/", 3)] *)
Definition SplitN3 (s : string) (c : ascii) : list string :=
  match SplitN2 s c with [a; r] => a :: SplitN2 r c | l => l end.

(** The path of a call, a creation and a deletion *)
Definition callPath (path : string) : result string (string * string * string) :=
  match SplitN3 (TrimPrefix path "/api/v1/objects/call/") "/" with
  | [typ; id; method] =>
      if bool_decide (typ = "") || bool_decide (id = "") || bool_decide (method = "") then Err "INVALID_PARAMETERS" else Ok (typ, id, method)
  | _ => Err "INVALID_PATH"
  end.
Definition createPath (path : string) : result string (string * string) :=
  match SplitN2 (TrimPrefix path "/api/v1/objects/create/") "/" with
  | [typ; id] => if bool_decide (typ = "") || bool_decide (id = "") then Err "INVALID_PARAMETERS" else Ok (typ, id)
  | _ => Err "INVALID_PATH"
  end.
Definition deletePath (path : string) : result string (string * string) :=
  match SplitN2 (TrimPrefix path "/api/v1/objects/delete/") "/" with
  | [typ; id] =>
      if bool_decide (typ = "") || bool_decide (id = "") then Err "INVALID_PATH"
      else if Contains id "/" then Err "INVALID_PARAMETERS" else Ok (typ, id)
  | _ => Err "INVALID_PATH"
  end.

(** [corsMiddleware]: a preflight request is answered without the handler *)
Definition corsMiddleware {A B : Type} (meth : http_method) (next : A * http_answer B) (none : A) : A * http_answer B :=
  if bool_decide (meth = OPTIONS) then (none, HNoContent) else next.

Section Handlers.
Context {St Msg Data Any P : Type} `{PersistenceProvider P}.
Abbreviation gateT := (GateServers.GateServer (St := St) (Msg := Msg) (Data := Data) (P := P)).
Abbreviation requestT := (request (Any := Any)).
Context (answer : Ctx -> requestT -> result string (option Any)) (errText : cluster_error -> string) (marshal : option Any -> result string string).
(** The decoders of the body: the [request] field of the JSON object, base64, and the protobuf [Any] *)
Context (jsonRequest decodeBase64 : string -> option string) (unmarshalAny : string -> option Any).
(** [OnClientAuthorise] of the event handler, when one is configured *)
Context (eventHandler : option (Ctx -> MD -> result string (option CallerIdentity))).

(** The request of the body; [Err] of the body is a failed read *)
Definition decodeBody (body : result string string) : result string Any :=
  match body with
  | Err _ => Err "INVALID_BODY"
  | Ok b =>
      match jsonRequest b with
      | None => Err "INVALID_JSON"
      | Some r =>
          match decodeBase64 r with
          | None => Err "INVALID_BASE64"
          | Some bytes => match unmarshalAny bytes with None => Err "INVALID_PROTOBUF" | Some a => Ok a end
          end
      end
  end.

(** The headers the event handler sees *)
Definition authHeaders (authMap : option (gmap string string)) : MD := (fun v => [v]) <$> default ∅ authMap.

(** The authorisation of a request: its context, or the refusal *)
Definition authorise (ctx : Ctx) (authHeader : option (result string (gmap string string))) : result string Ctx :=
  match eventHandler with
  | None => Ok ctx
  | Some h =>
      match match authHeader with None => Ok None | Some (Ok m) => Ok (Some m) | Some (Err e) => Err e end with
      | Err e => Err e
      | Ok authMap =>
          match h ctx (authHeaders authMap) with
          | Err e => Err e
          | Ok (Some i) => Ok (WithCallerIdentity ctx (Some i))
          | Ok None => Ok ctx
          end
      end
  end.

(** [handleCallObject]: the requests sent to nodes with the context they are sent under, and the answer *)
Definition handleCallObject (g : gateT) (ctx : Ctx) (meth : http_method) (path : string) (body : result string string) (clientID : string)
    (authHeader : option (result string (gmap string string))) : list (Ctx * requestT) * http_answer string :=
  if bool_decide (meth <> POST) then ([], HError 405 "METHOD_NOT_ALLOWED")
  else match callPath path with
  | Err code => ([], HError 400 code)
  | Ok (typ, id, method) =>
      match decodeBody body with
      | Err code => ([], HError 400 code)
      | Ok anyReq =>
          if match GateServers.accessRules g with Some v => negb (CheckClientAccess v typ id method) | None => false end
          then ([], HError 403 "ACCESS_DENIED")
          else
            let ctx := if bool_decide (clientID <> "") then WithClientID ctx clientID else ctx in
            match authorise ctx authHeader with
            | Err _ => ([], HError 401 "UNAUTHENTICATED")
            | Ok ctx =>
                let ctx := InjectCallerToOutgoing ctx in
                let '(rqs, r) := CallObjectAnyRequest (answer ctx) (GateServers.cluster g) typ id method (Some anyReq) in
                ((fun rq => (ctx, rq)) <$> rqs,
                 match r with
                 | Err e => if strContains (errText e) "not found" then HError 404 "OBJECT_NOT_FOUND" else HError 500 "CALL_FAILED"
                 | Ok a => match marshal a with Ok s => HOk s | Err _ => HError 500 "MARSHAL_ERROR" end
                 end)
            end
      end
  end.

(** [handleCreateObject] *)
Definition handleCreateObject (g : gateT) (ctx : Ctx) (meth : http_method) (path uid : string) : list (Ctx * requestT) * http_answer string :=
  if bool_decide (meth <> POST) then ([], HError 405 "METHOD_NOT_ALLOWED")
  else match createPath path with
  | Err code => ([], HError 400 code)
  | Ok (typ, id) =>
      if match GateServers.lifecycleRules g with Some v => negb (CheckClientCreate v typ id) | None => false end
      then ([], HError 403 "ACCESS_DENIED")
      else
        let '(rqs, r) := Clusters.CreateObject (answer ctx) (GateServers.cluster g) uid typ id in
        ((fun rq => (ctx, rq)) <$> rqs, match r with Err _ => HError 500 "CREATE_FAILED" | Ok i => HOk i end)
  end.

(** [handleDeleteObject] *)
Definition handleDeleteObject (g : gateT) (ctx : Ctx) (meth : http_method) (path : string) : list (Ctx * requestT) * http_answer bool :=
  if bool_decide (meth <> POST) then ([], HError 405 "METHOD_NOT_ALLOWED")
  else match deletePath path with
  | Err code => ([], HError 400 code)
  | Ok (typ, id) =>
      if match GateServers.lifecycleRules g with Some v => negb (CheckClientDelete v typ id) | None => false end
      then ([], HError 403 "ACCESS_DENIED")
      else
        let '(rqs, r) := Clusters.DeleteObject (answer ctx) (GateServers.cluster g) typ id in
        ((fun rq => (ctx, rq)) <$> rqs, match r with Err _ => HError 500 "DELETE_FAILED" | Ok _ => HOk true end)
  end.

(** [handleHealthz] and [handleReady] *)
Definition handleHealthz (g : gateT) (meth : http_method) : http_answer string :=
  if bool_decide (meth <> GET) then HError 405 "METHOD_NOT_ALLOWED" else if GateServers.stopped g then HError 503 "NOT_READY" else HOk "ok".
Definition handleReady (g : gateT) (ready : bool) (meth : http_method) : http_answer string :=
  if bool_decide (meth <> GET) then HError 405 "METHOD_NOT_ALLOWED"
  else if GateServers.stopped g then HError 503 "NOT_READY"
  else if negb ready then HError 503 "NOT_READY" else HOk "ready".

End Handlers.
End GateHTTPs.

Import GateHTTPs.

(** ** Lemmas *)

Lemma SplitN3_three s c x y z : SplitN3 s c = [x; y; z] <->
  s = x +:+ String c (y +:+ String c z) /\ Contains x c = false /\ Contains y c = false.
Proof.
  unfold SplitN3, SplitN2. split.
  - destruct (Cut c s) as [[a r]|] eqn:E1; [|done]. destruct (Cut c r) as [[b t]|] eqn:E2; [|done].
    intros [= -> -> ->]. apply Cut_Some in E1 as [-> ?]. by apply Cut_Some in E2 as [-> ?].
  - intros (-> & Hx & Hy). rewrite Cut_app by done. by rewrite Cut_app.
Qed.

(** A path is parsed as the three parts it is made of, exactly when the type and the id have no slash. *)
Lemma callPath_Ok path typ id method : callPath path = Ok (typ, id, method) <->
  TrimPrefix path "/api/v1/objects/call/" = typ +:+ "/" +:+ id +:+ "/" +:+ method /\
  Contains typ "/" = false /\ Contains id "/" = false /\ typ <> "" /\ id <> "" /\ method <> "".
Proof.
  unfold callPath. destruct (SplitN3 _ _) as [|x [|y [|z [|]]]] eqn:E;
    try (split; [done|]; intros (Ht & Hx & Hy & _); by rewrite (proj2 (SplitN3_three _ _ typ id method)) in E).
  apply SplitN3_three in E as (E & Hx & Hy). split.
  - repeat case_bool_decide; [done..|]. by intros [= -> -> ->].
  - intros (Ht & Hx' & Hy' & H1 & H2 & H3).
    assert (SplitN3 (TrimPrefix path "/api/v1/objects/call/") "/" = [typ; id; method]) as E1 by (by apply SplitN3_three).
    assert (SplitN3 (TrimPrefix path "/api/v1/objects/call/") "/" = [x; y; z]) as E2 by (by apply SplitN3_three).
    rewrite E1 in E2. injection E2 as <- <- <-. by rewrite !bool_decide_eq_false_2 by done.
Qed.

Lemma callPath_built typ id method :
  Contains typ "/" = false -> Contains id "/" = false -> typ <> "" -> id <> "" -> method <> "" ->
  callPath ("/api/v1/objects/call/" +:+ typ +:+ "/" +:+ id +:+ "/" +:+ method) = Ok (typ, id, method).
Proof. intros. apply callPath_Ok. by rewrite TrimPrefix_app. Qed.

(** What the cluster sends for a gate's call *)
Lemma gate_call_sent {St Msg Data Any P : Type} `{PersistenceProvider P}
    (answer : request (Any := Any) -> result string (option Any)) (c : Cluster (St := St) (Msg := Msg) (Data := Data) (P := P))
    typ id method req rq :
  rq ∈ fst (CallObjectAnyRequest answer c typ id method req) -> exists addr, rq = RpcCall addr typ id method req.
Proof.
  unfold CallObjectAnyRequest. intros Hin.
  repeat case_match; cbn [fst] in Hin; first [by apply elem_of_nil in Hin|apply list_elem_of_singleton in Hin; by eexists].
Qed.

(** The identity a request ends up with on the node *)
Lemma authorise_identity eventHandler ctx ctx1 authHeader :
  outgoing ctx !! mdKeyCallerUserID = None -> outgoing ctx !! mdKeyCallerRoles = None -> callerIdentity ctx = None ->
  authorise eventHandler ctx authHeader = Ok ctx1 ->
  ClientID (InjectCallerToOutgoing ctx1) = ClientID ctx /\
  match eventHandler with
  | None => callerIdentity (ExtractCallerFromIncoming (transported (InjectCallerToOutgoing ctx1))) = None
  | Some h => exists authMap i, authHeader = Ok <$> authMap /\ h ctx (authHeaders authMap) = Ok i /\
      callerIdentity (ExtractCallerFromIncoming (transported (InjectCallerToOutgoing ctx1))) = i ≫= identified
  end.
Proof.
  intros Hu Hr Hi Ha. assert (ClientID ctx1 = ClientID ctx /\ outgoing ctx1 = outgoing ctx) as [E1 E2].
  { unfold authorise in Ha. repeat case_match; by simplify_eq. }
  split. { rewrite <-E1. unfold InjectCallerToOutgoing. by repeat case_match. }
  unfold authorise in Ha. destruct eventHandler as [h|].
  - rewrite transported_identity by (by rewrite E2).
    assert (exists authMap, authHeader = Ok <$> authMap /\
      match h ctx (authHeaders authMap) with
      | Err e => Err e | Ok (Some i) => Ok (WithCallerIdentity ctx (Some i)) | Ok None => Ok ctx end = Ok ctx1) as (m & Em & Ha').
    { destruct authHeader as [[m|e]|]; [exists (Some m)|done|exists None]; done. }
    clear Ha. exists m. destruct (h ctx (authHeaders m)) as [[i|]|e] eqn:Eh; [| |done]; simplify_eq.
    + by exists (Some i).
    + exists None. by rewrite Hi.
  - simplify_eq. rewrite transported_identity by done. by rewrite Hi.
Qed.

(** ** Properties *)

(** C33: a call over HTTP reaches a node only when it is allowed.  Whatever the request, a call that
    [handleCallObject] sends to a node is for the non-empty type, id and method of the path of a POST,
    carries the decoded body, is allowed to clients by the gate's access rules, and was accepted by the event handler when
    one is configured: the identity the object sees is the one the handler returned for the headers of the
    request, none when there is no handler or it returned none.  The client id is the one the request names. *)
Theorem http_call_guarded {St Msg Data Any P : Type} `{PersistenceProvider P}
    (answer : Ctx -> request (Any := Any) -> result string (option Any)) (errText : cluster_error -> string)
    (marshal : option Any -> result string string) (jsonRequest decodeBase64 : string -> option string)
    (unmarshalAny : string -> option Any) (eventHandler : option (Ctx -> MD -> result string (option CallerIdentity)))
    (g : GateServers.GateServer (St := St) (Msg := Msg) (Data := Data) (P := P))
    (ctx ctx1 : Ctx) (meth : http_method) (path : string) (body : result string string) (cid : string)
    (authHeader : option (result string (gmap string string))) (rqs : list (Ctx * request)) (r : http_answer string) (rq : request) :
  ctx = mkCtx None None ∅ None (deadline ctx) ->
  handleCallObject answer errText marshal jsonRequest decodeBase64 unmarshalAny eventHandler g ctx meth path body cid authHeader = (rqs, r) ->
  (ctx1, rq) ∈ rqs ->
  exists addr typ id method anyReq,
    rq = RpcCall addr typ id method (Some anyReq) /\ meth = POST /\
    (TrimPrefix path "/api/v1/objects/call/" = typ +:+ "/" +:+ id +:+ "/" +:+ method /\
     Contains typ "/" = false /\ Contains id "/" = false /\ typ <> "" /\ id <> "" /\ method <> "") /\
    decodeBody jsonRequest decodeBase64 unmarshalAny body = Ok anyReq /\
    (forall v, GateServers.accessRules g = Some v -> CheckClientAccess v typ id method = true) /\
    ClientID ctx1 = cid /\
    match eventHandler with
    | None => callerIdentity (ExtractCallerFromIncoming (transported ctx1)) = None
    | Some h => exists ctx0 authMap i, ClientID ctx0 = cid /\ authHeader = Ok <$> authMap /\ h ctx0 (authHeaders authMap) = Ok i /\
        callerIdentity (ExtractCallerFromIncoming (transported ctx1)) = i ≫= identified
    end.
Proof.
  intros Hctx Hh Hin. unfold handleCallObject in Hh. case_bool_decide; [simplify_eq; set_solver|].
  destruct (callPath path) as [[[typ id] method]|] eqn:Ep; [|simplify_eq; set_solver].
  destruct (decodeBody _ _ _ body) as [anyReq|] eqn:Eb; [|simplify_eq; set_solver].
  case_match eqn:Ea; [simplify_eq; set_solver|].
  set (ctx0 := if bool_decide (cid <> "") then WithClientID ctx cid else ctx) in *.
  assert (ClientID ctx0 = cid /\ outgoing ctx0 = ∅ /\ callerIdentity ctx0 = None) as (Hc & Ho & Hi).
  { subst ctx0. rewrite Hctx. case_bool_decide as Hd; [done|]. by rewrite Hd. }
  destruct (authorise eventHandler ctx0 authHeader) as [ctx2|] eqn:Eu; [|simplify_eq; set_solver].
  apply authorise_identity in Eu as [Hc2 Hid]; [|by rewrite Ho, lookup_empty..|done].
  destruct (CallObjectAnyRequest _ _ typ id method _) as [rqs0 r0] eqn:Er. injection Hh as <- _.
  apply list_elem_of_fmap in Hin as (rq0 & [= -> ->] & Hin).
  assert (exists addr, rq0 = RpcCall addr typ id method (Some anyReq)) as [addr ->].
  { eapply gate_call_sent. by rewrite Er. }
  exists addr, typ, id, method, anyReq. split; [done|]. split; [done|].
  split; [by apply callPath_Ok|]. split; [done|]. split; [|split; [by rewrite Hc2|]].
  - intros v Ev. rewrite Ev in Ea. by destruct (CheckClientAccess v typ id method).
  - destruct eventHandler as [h|]; [|done]. destruct Hid as (m & i & ?). by exists ctx0, m, i.
Qed.

(** ** Witnesses *)

(** The decoders are the identity, and the event handler takes the user from the [token] header *)
Definition by_token (_ : Ctx) (headers : MD) : result string (option CallerIdentity) :=
  match headers !! "token" with Some [t] => Ok (Some (mkCaller t ["player"])) | _ => Err "no token" end.

Definition http_call (auth : option (result string (gmap string string))) : list (Ctx * request) * http_answer string :=
  handleCallObject (fun _ _ => Ok (Some "y")) (fun _ => "") (fun a => Ok (default "" a)) Some Some Some (Some by_token)
    (gate_server AccessAllow) ctx0 POST "/api/v1/objects/call/Counter/y/Inc" (Ok "z") "c7" auth.

Definition ctx_alice : Ctx := InjectCallerToOutgoing (WithCallerIdentity (WithClientID ctx0 "c7") (Some (mkCaller "alice" ["player"]))).

Lemma http_call_guarded_witness :
  http_call (Some (Ok {[ "token" := "alice" ]})) = ([(ctx_alice, RpcCall "a:1" "Counter" "y" "Inc" (Some "z"))], HOk "y") /\
  (exists i, callerIdentity (ExtractCallerFromIncoming (transported ctx_alice)) = i ≫= identified) /\
  http_call None = ([], HError 401 "UNAUTHENTICATED").
Proof.
  assert (http_call (Some (Ok {[ "token" := "alice" ]})) =
    ([(ctx_alice, RpcCall "a:1" "Counter" "y" "Inc" (Some "z"))], HOk "y")) as E by (vm_compute; reflexivity).
  split; [exact E|]. split; [|vm_compute; reflexivity].
  destruct (http_call_guarded _ _ _ _ _ _ _ _ _ ctx_alice _ _ _ _ _ _ _ (RpcCall "a:1" "Counter" "y" "Inc" (Some "z")) eq_refl E)
    as (addr & typ & id & method & a & _ & _ & _ & _ & _ & _ & c0 & m & i & _ & _ & _ & Hi); [left|]. exists i. exact Hi.
Defined.

(** An object of a fixed shard cannot be called over HTTP: its id has a slash, which the path of a call takes for the
    start of the method; the path of a deletion refuses it.  The object can be created over HTTP. *)
Theorem fixed_shard_object_not_callable :
  callPath ("/api/v1/objects/call/Counter/" +:+ "shard#0/x" +:+ "/Inc") = Ok ("Counter", "shard#0", "x/Inc") /\
  deletePath ("/api/v1/objects/delete/Counter/" +:+ "shard#0/x") = Err "INVALID_PARAMETERS" /\
  createPath ("/api/v1/objects/create/Counter/" +:+ "shard#0/x") = Ok ("Counter", "shard#0/x").
Proof. done. Qed.
