(* ===== verification/GateEvents.v ===== *)
(** * Server-sent events and the JSON answers of the gate (gate/gateserver/http_handler.go)

    [Module Json], [Module Base64]: what [encoding/json] makes of a string (bytes from 128 on are kept, which is
    right for valid UTF-8 without the two separators U+2028 and U+2029) and [base64.StdEncoding], with decoders.  [Module Events]: the event stream of a
    client without gRPC: the text of an event, what a browser reads from it, and the handler's loop against a
    connection whose writes end at the deadline that the server's [WriteTimeout] sets when the request
    has been read.  A write after the deadline is lost and cancels the context of the request; the handler sees
    the error of a flush only with the next write.  [Module Answers]: the bodies of the REST answers and the
    routes.  The text of [json.Marshal] for other types and the clean-up of paths by the multiplexer are not modelled. *)

From S2P Require Import Prelude GoStrings ObjectId AccessControl Gate GateHTTP.

(** ** JSON strings *)

Module Json.

(** The position of a byte in a string *)
Fixpoint position (c : ascii) (s : string) : option nat :=
  match s with
  | EmptyString => None
  | String d s => if bool_decide (d = c) then Some O else S <$> position c s
  end.

Definition quoteChar : ascii := Ascii.ascii_of_nat 34.
Definition newline : ascii := Ascii.ascii_of_nat 10.

Definition hexDigit (n : nat) : ascii := default "0"%char (String.get n "0123456789abcdef").
Definition hexValue (c : ascii) : option nat := position c "0123456789abcdef".

(** A byte inside a string, with the escapes for HTML that the encoder makes by default *)
Definition escape (c : ascii) : string :=
  let n := Ascii.nat_of_ascii c in
  let u := "\u00" +:+ String (hexDigit (n / 16)) (String (hexDigit (n mod 16)) EmptyString) in
  if bool_decide (n = 34) || bool_decide (n = 92) then String "\" (String c EmptyString)
  else if bool_decide (n = 8) then "\b"
  else if bool_decide (n = 9) then "\t"
  else if bool_decide (n = 10) then "\n"
  else if bool_decide (n = 12) then "\f"
  else if bool_decide (n = 13) then "\r"
  else if (n <? 32)%nat || bool_decide (n = 60) || bool_decide (n = 62) || bool_decide (n = 38) then u
  else String c EmptyString.

Fixpoint escapeAll (s : string) : string :=
  match s with EmptyString => EmptyString | String c s => escape c +:+ escapeAll s end.

(** [json.Marshal] of a string *)
Definition quote (s : string) : string := String quoteChar (escapeAll s +:+ String quoteChar EmptyString).

(** What an escape stands for *)
Definition unescape (e : ascii) : option ascii :=
  let n := Ascii.nat_of_ascii e in
  if bool_decide (n = 34) || bool_decide (n = 92) || bool_decide (n = 47) then Some e
  else if bool_decide (e = "b"%char) then Some (Ascii.ascii_of_nat 8)
  else if bool_decide (e = "t"%char) then Some (Ascii.ascii_of_nat 9)
  else if bool_decide (e = "n"%char) then Some (Ascii.ascii_of_nat 10)
  else if bool_decide (e = "f"%char) then Some (Ascii.ascii_of_nat 12)
  else if bool_decide (e = "r"%char) then Some (Ascii.ascii_of_nat 13)
  else None.

(** A reader of the rest of a string: its content, and what follows the closing quote *)
Fixpoint readString (s : string) : option (string * string) :=
  match s with
  | EmptyString => None
  | String c r =>
      if bool_decide (c = quoteChar) then Some (EmptyString, r)
      else if bool_decide (c = "\"%char) then
        match r with
        | String "u" (String "0" (String "0" (String h (String l r')))) =>
            a ← hexValue h; b ← hexValue l; x ← readString r';
            Some (String (Ascii.ascii_of_nat (16 * a + b)) x.1, x.2)
        | String e r' => d ← unescape e; x ← readString r'; Some (String d x.1, x.2)
        | EmptyString => None
        end
      else x ← readString r; Some (String c x.1, x.2)
  end.

Definition unquote (s : string) : option (string * string) :=
  match s with String c r => if bool_decide (c = quoteChar) then readString r else None | EmptyString => None end.

(** A field of an object *)
Definition field (name value : string) : string := quote name +:+ ":" +:+ quote value.

End Json.

(** ** Base64 *)

Module Base64.

Definition alphabet : string := "ABCDEFGHIJKLMNOPQRSTUVWXYZabcdefghijklmnopqrstuvwxyz0123456789+/".
Definition digit (n : Z) : ascii := default "A"%char (String.get (Z.to_nat n) alphabet).
Definition byteZ (c : ascii) : Z := Z.of_nat (Ascii.nat_of_ascii c).
Definition charZ (n : Z) : ascii := Ascii.ascii_of_nat (Z.to_nat n).

(** [base64.StdEncoding.EncodeToString] *)
Fixpoint encode (s : string) : string :=
  match s with
  | String a (String b (String c r)) =>
      let v := (byteZ a * 65536 + byteZ b * 256 + byteZ c)%Z in
      String (digit (v / 262144)) (String (digit (v / 4096 mod 64)) (String (digit (v / 64 mod 64))
        (String (digit (v mod 64)) (encode r))))
  | String a (String b EmptyString) =>
      let v := (byteZ a * 65536 + byteZ b * 256)%Z in
      String (digit (v / 262144)) (String (digit (v / 4096 mod 64)) (String (digit (v / 64 mod 64)) "="))
  | String a EmptyString =>
      let v := (byteZ a * 65536)%Z in
      String (digit (v / 262144)) (String (digit (v / 4096 mod 64)) "==")
  | EmptyString => EmptyString
  end.

Definition value (c : ascii) : option Z := Z.of_nat <$> Json.position c alphabet.

(** The decoder of the client *)
Fixpoint decode (s : string) : option string :=
  match s with
  | EmptyString => Some EmptyString
  | String p (String q (String x (String y r))) =>
      a ← value p; b ← value q;
      if bool_decide (x = "="%char) then
        if bool_decide (y = "="%char) && bool_decide (r = EmptyString) then Some (String (charZ (a * 4 + b / 16)) EmptyString) else None
      else
        c ← value x;
        if bool_decide (y = "="%char) then
          if bool_decide (r = EmptyString) then Some (String (charZ (a * 4 + b / 16)) (String (charZ (b mod 16 * 16 + c / 4)) EmptyString)) else None
        else
          d ← value y; t ← decode r;
          Some (String (charZ (a * 4 + b / 16)) (String (charZ (b mod 16 * 16 + c / 4)) (String (charZ (c mod 4 * 64 + d)) t)))
  | _ => None
  end.

End Base64.

(** ** Lemmas *)

Section JsonLemmas.
Import Json.

(** The three shapes of an escaped byte *)
Lemma escape_shape c :
  (escape c = String c EmptyString /\ c <> quoteChar /\ c <> "\"%char) \/
  (exists e, escape c = String "\" (String e EmptyString) /\ e <> "u"%char /\ unescape e = Some c) \/
  (exists h l a b, escape c = "\u00" +:+ String h (String l EmptyString) /\ hexValue h = Some a /\ hexValue l = Some b /\
     Ascii.ascii_of_nat (16 * a + b) = c).
Proof.
  destruct c as [[] [] [] [] [] [] [] []];
    first [left; split; [vm_compute; reflexivity|split; discriminate]
          |right; left; eexists; split; [vm_compute; reflexivity|split; [discriminate|vm_compute; reflexivity]]
          |right; right; do 4 eexists; split_and!; vm_compute; reflexivity].
Qed.

Lemma readString_step c r : readString (escape c +:+ r) = x ← readString r; Some (String c x.1, x.2).
Proof.
  destruct (escape_shape c) as [(-> & Hq & Hb)|[(e & -> & Hu & He)|(h & l & a & b & -> & Ha & Hb & Hc)]].
  - cbn [readString String.append]. by rewrite !bool_decide_false.
  - cbn [String.append]. cbn [readString]. rewrite bool_decide_false by discriminate. rewrite bool_decide_true by done.
    destruct (decide (e = "u"%char)); [done|]. destruct e as [[] [] [] [] [] [] [] []]; try done; rewrite He; reflexivity.
  - cbn [String.append]. cbn [readString]. rewrite bool_decide_false by discriminate. rewrite bool_decide_true by done.
    rewrite Ha, Hb. cbn [mbind option_bind]. by rewrite Hc.
Qed.

Lemma readString_escaped s r : readString (escapeAll s +:+ String quoteChar r) = Some (s, r).
Proof.
  induction s as [|c s IH]; cbn [escapeAll]; [done|].
  rewrite app_assoc_string, readString_step, IH. done.
Qed.
End JsonLemmas.

Section Base64Lemmas.
Import Base64.

Lemma byteZ_range c : (0 <= byteZ c < 256)%Z.
Proof. unfold byteZ. pose proof (Ascii.nat_ascii_bounded c). lia. Qed.

Lemma charZ_byteZ c n : n = byteZ c -> charZ n = c.
Proof. intros ->. unfold charZ, byteZ. rewrite Nat2Z.id. apply Ascii.ascii_nat_embedding. Qed.

Lemma digits_ok : forallb (fun n => bool_decide (value (digit (Z.of_nat n)) = Some (Z.of_nat n)) &&
  negb (bool_decide (digit (Z.of_nat n) = "="%char))) (List.seq 0 64) = true.
Proof. vm_compute. reflexivity. Qed.

Lemma value_digit n : (0 <= n < 64)%Z -> value (digit n) = Some n /\ digit n <> "="%char.
Proof.
  intros Hn. pose proof digits_ok as H. rewrite forallb_forall in H. specialize (H (Z.to_nat n)).
  rewrite Z2Nat.id in H by lia. assert (List.In (Z.to_nat n) (List.seq 0 64)) as Hin by (apply List.in_seq; lia).
  apply H, andb_prop in Hin as [H1 H2]. rewrite negb_true_iff in H2. breflect. done.
Qed.

(** Decoding gives back what was encoded. *)
Lemma decode_encode s : decode (encode s) = Some s.
Proof.
  assert (forall k s, (String.length s <= k)%nat -> decode (encode s) = Some s) as Hk; [|by apply (Hk (String.length s))].
  clear s. induction k as [|k IH]; intros [|a [|b [|c r]]] Hl; try done; try (cbn in Hl; lia); cbn [encode];
    pose proof (byteZ_range a) as Ha; try pose proof (byteZ_range b) as Hb; try pose proof (byteZ_range c) as Hc.
  - set (v := (byteZ a * 65536)%Z). cbn [decode].
    rewrite (proj1 (value_digit (v / 262144) ltac:(unfold v; Z.to_euclidean_division_equations; lia))).
    rewrite (proj1 (value_digit (v / 4096 mod 64) ltac:(Z.to_euclidean_division_equations; lia))).
    cbn [mbind option_bind]. rewrite !bool_decide_true by done. cbn [andb]. do 2 f_equal. apply charZ_byteZ.
    unfold v. Z.to_euclidean_division_equations; lia.
  - set (v := (byteZ a * 65536 + byteZ b * 256)%Z). cbn [decode].
    rewrite (proj1 (value_digit (v / 262144) ltac:(unfold v; Z.to_euclidean_division_equations; lia))).
    rewrite (proj1 (value_digit (v / 4096 mod 64) ltac:(Z.to_euclidean_division_equations; lia))).
    destruct (value_digit (v / 64 mod 64) ltac:(Z.to_euclidean_division_equations; lia)) as [-> Hne].
    cbn [mbind option_bind]. rewrite (bool_decide_false (digit _ = _)) by done. rewrite !bool_decide_true by done.
    do 2 f_equal; [|f_equal]; apply charZ_byteZ; unfold v; Z.to_euclidean_division_equations; lia.
  - set (v := (byteZ a * 65536 + byteZ b * 256 + byteZ c)%Z). cbn [decode].
    rewrite (proj1 (value_digit (v / 262144) ltac:(unfold v; Z.to_euclidean_division_equations; lia))).
    rewrite (proj1 (value_digit (v / 4096 mod 64) ltac:(Z.to_euclidean_division_equations; lia))).
    destruct (value_digit (v / 64 mod 64) ltac:(Z.to_euclidean_division_equations; lia)) as [-> Hne].
    destruct (value_digit (v mod 64) ltac:(Z.to_euclidean_division_equations; lia)) as [-> Hne2].
    cbn [mbind option_bind]. rewrite !(bool_decide_false (digit _ = _)) by done.
    rewrite IH by (cbn in Hl; lia). cbn [mbind option_bind].
    do 2 f_equal; [|f_equal; [|f_equal]]; apply charZ_byteZ; unfold v; Z.to_euclidean_division_equations; lia.
Qed.
End Base64Lemmas.

(** ** The event stream *)

Import GateHTTPs.

Module Events.
Import Json.

Section Events.
Context {Any : Type}.
(** The wire form and the type URL of a message *)
Context (marshal : Any -> result string string) (typeURL : Any -> string).

Inductive sse_event : Type :=
| RegisterEvent (clientId : string)
| MessageEvent (typ payload : string)
| HeartbeatEvent.

Definition sseHeartbeatInterval : Z := 30000000000.
(** [WriteTimeout] of the HTTP server *)
Definition WriteTimeout : Z := 30000000000.

Definition eventType (e : sse_event) : string :=
  match e with RegisterEvent _ => "register" | MessageEvent _ _ => "message" | HeartbeatEvent => "heartbeat" end.

(** [json.Marshal] of the event's data *)
Definition eventData (e : sse_event) : string :=
  match e with
  | RegisterEvent id => "{" +:+ field "clientId" id +:+ "}"
  | MessageEvent t p => "{" +:+ field "type" t +:+ "," +:+ field "payload" p +:+ "}"
  | HeartbeatEvent => "{}"
  end.

(** The text [writeSSEEvent] writes *)
Definition frame (e : sse_event) : string :=
  "event: " +:+ eventType e +:+ String newline ("data: " +:+ eventData e +:+ String newline (String newline EmptyString)).

(** The event a message is sent as *)
Definition messageEvent (m : Any) : option sse_event :=
  match marshal m with Err _ => None | Ok bytes => Some (MessageEvent (typeURL m) (Base64.encode bytes)) end.

(** What the loop's select finds, with the time *)
Inductive input : Type := Done | Tick | Message (m : Any) | ChannelClosed.

(** Why the handler returns; [Streaming] when it has not yet *)
Inductive ending : Type := Disconnected | Closed | WriteError | Streaming.

(** [writeSSEEvent] at a time on a connection with a deadline: what arrives, whether the connection is broken
    afterwards, and whether the handler gets an error.  [broken] is a failed flush before.  [full] is whether the
    event does not fit in the buffer, so that a failed write is seen at once. *)
Definition writeSSEEvent (deadline now : Z) (broken full : bool) (e : sse_event) : list sse_event * bool * bool :=
  if broken then ([], true, true)
  else if (now <? deadline)%Z then ([e], false, false)
  else ([], true, full).

(** The loop of [handleEventsStream] *)
Fixpoint loop (deadline : Z) (full : sse_event -> bool) (broken : bool) (inputs : list (Z * input)) : list sse_event * ending :=
  match inputs with
  | [] => ([], Streaming)
  | (now, i) :: rest =>
      let write (e : sse_event) :=
        let '(out, broken', err) := writeSSEEvent deadline now broken (full e) e in
        if err then (out, WriteError)
        else let '(out', en) := loop deadline full broken' rest in (out ++ out', en) in
      match i with
      | Done => ([], Disconnected)
      | Tick => write HeartbeatEvent
      | ChannelClosed => ([], Closed)
      | Message m => match messageEvent m with None => loop deadline full broken rest | Some e => write e end
      end
  end.

(** [handleEventsStream]: the gate after it, and the answer or the events that reached the client.  [read] is
    when the request was read, [now] when the first event is written; [meanwhile] is what happens to the gate
    until the handler returns. *)
Definition handleEventsStream (g : Gates.Gate (Any := Any)) (meth : http_method) (flusher : bool) (uid : string) (p : nat)
    (read now : Z) (full : sse_event -> bool) (inputs : list (Z * input)) (meanwhile : Gates.Gate -> Gates.Gate)
    : Gates.Gate * (http_answer () + list sse_event * ending) :=
  if bool_decide (meth <> GET) then (g, inl (HError 405 "METHOD_NOT_ALLOWED"))
  else if negb flusher then (g, inl (HError 500 "SSE_NOT_SUPPORTED"))
  else
    let '(g1, clientID) := Gates.Register g uid p in
    let deadline := (read + WriteTimeout)%Z in
    let '(out, broken, err) := writeSSEEvent deadline now false (full (RegisterEvent clientID)) (RegisterEvent clientID) in
    let '(out, en) := if err then (out, WriteError)
                      else let '(out', en) := loop deadline full broken inputs in (out ++ out', en) in
    (Gates.Unregister (meanwhile g1) clientID, inr (out, en)).

End Events.

(** ** What a browser makes of the text *)

(** The lines of an event stream: the type and the data of each event *)
Fixpoint dispatch (lines : list string) (typ data : string) : list (string * string) :=
  match lines with
  | [] => []
  | l :: rest =>
      if bool_decide (l = "") then
        if bool_decide (data = "") then dispatch rest "" "" else (typ, data) :: dispatch rest "" ""
      else if HasPrefix l "event: " then dispatch rest (TrimPrefix l "event: ") data
      else if HasPrefix l "data: " then dispatch rest typ (data +:+ TrimPrefix l "data: ")
      else dispatch rest typ data
  end.

Definition readStream (text : string) : list (string * string) := dispatch (Split text newline) "" "".

(** The data of a message: its type URL and its bytes *)
Definition readMessage (data : string) : option (string * string) :=
  r ← TrimPrefix_opt "{" data; k ← unquote r;
  r ← TrimPrefix_opt ":" k.2; t ← unquote r;
  r ← TrimPrefix_opt "," t.2; k' ← unquote r;
  r ← TrimPrefix_opt ":" k'.2; p ← unquote r;
  bytes ← Base64.decode p.1;
  if bool_decide (k.1 = "type") && bool_decide (k'.1 = "payload") && bool_decide (p.2 = "}") then Some (t.1, bytes) else None.

End Events.
Import Events.

(** ** Answers and routes *)

Module Answers.
Import Json.

(** [HTTPResponse], [HTTPCreateResponse], [HTTPDeleteResponse], [HTTPErrorResponse] *)
Inductive body : Type :=
| HTTPResponse (Response : string)
| HTTPCreateResponse (ID : string)
| HTTPDeleteResponse (Success : bool)
| HTTPErrorResponse (Error Code : string).

Definition bodyText (b : body) : string :=
  match b with
  | HTTPResponse r => "{" +:+ field "response" r +:+ "}"
  | HTTPCreateResponse i => "{" +:+ field "id" i +:+ "}"
  | HTTPDeleteResponse s => "{" +:+ quote "success" +:+ ":" +:+ (if s then "true" else "false") +:+ "}"
  | HTTPErrorResponse e c => "{" +:+ field "error" e +:+ "," +:+ field "code" c +:+ "}"
  end.

(** [writeJSON]: the status, the content type and the text, which the encoder ends with a newline *)
Definition writeJSON (statusCode : Z) (data : body) : Z * string * string :=
  (statusCode, "application/json", bodyText data +:+ String newline EmptyString).
(** [writeError] *)
Definition writeError (statusCode : Z) (code message : string) : Z * string * string :=
  writeJSON statusCode (HTTPErrorResponse message code).

Inductive handler : Type := CallObject | CreateObject | DeleteObject | EventsStream | Healthz | Ready | Metrics | Pprof.

(** A pattern of the multiplexer that ends in a slash stands for all paths below it *)
Definition matches (pattern path : string) : bool :=
  if bool_decide (String.get (String.length pattern - 1) pattern = Some "/"%char) then HasPrefix path pattern else bool_decide (path = pattern).

(** The handler of the longest pattern that matches *)
Fixpoint route {handler : Type} (routes : list (string * handler)) (path : string) : option (string * handler) :=
  match routes with
  | [] => None
  | (pattern, h) :: rest =>
      let r := route rest path in
      if matches pattern path then
        match r with Some (q, _) => if (len pattern <? len q)%Z then r else Some (pattern, h) | None => Some (pattern, h) end
      else r
  end.

(** [setupHTTPClientRoutes] and [setupHTTPOpsRoutes] *)
Definition setupHTTPClientRoutes : list (string * handler) :=
  [("/api/v1/objects/call/", CallObject); ("/api/v1/objects/create/", CreateObject);
   ("/api/v1/objects/delete/", DeleteObject); ("/api/v1/events/stream", EventsStream)].
Definition setupHTTPOpsRoutes : list (string * handler) :=
  [("/healthz", Healthz); ("/ready", Ready); ("/metrics", Metrics); ("/debug/pprof/", Pprof); ("/debug/pprof/cmdline", Pprof);
   ("/debug/pprof/profile", Pprof); ("/debug/pprof/symbol", Pprof); ("/debug/pprof/trace", Pprof)].

End Answers.

(** ** The text of a stream is read back *)

Section Stream.
Import Json.
Context {Any : Type}.

Lemma escape_no_newline c : Contains (escape c) newline = false.
Proof. destruct c as [[] [] [] [] [] [] [] []]; vm_compute; reflexivity. Qed.

Lemma escapeAll_no_newline s : Contains (escapeAll s) newline = false.
Proof. induction s as [|c s IH]; cbn [escapeAll]; [done|]. by rewrite Contains_app, escape_no_newline, IH. Qed.

Lemma quote_no_newline s : Contains (quote s) newline = false.
Proof. unfold quote. rewrite Contains_cons, Contains_app, escapeAll_no_newline. done. Qed.

Lemma eventData_no_newline e : Contains (eventData e) newline = false.
Proof. destruct e; cbn [eventData]; unfold field; rewrite ?Contains_app, ?quote_no_newline; done. Qed.

Lemma Split_frame e t :
  Split (frame e +:+ t) newline = ("event: " +:+ eventType e) :: ("data: " +:+ eventData e) :: "" :: Split t newline.
Proof.
  assert (frame e +:+ t = ("event: " +:+ eventType e) +:+ String newline (("data: " +:+ eventData e) +:+ String newline ("" +:+ String newline t))) as ->.
  { unfold frame. rewrite !app_assoc_string. cbn [String.append]. by rewrite !app_assoc_string. }
  rewrite Split_app by (rewrite Contains_app; by destruct e).
  rewrite Split_app by (by rewrite Contains_app, eventData_no_newline). by rewrite Split_app.
Qed.

(** A browser reads from the text exactly the events that were written, in order. *)
Lemma readStream_frames es : readStream (foldr (fun e t => frame e +:+ t) "" es) = (fun e => (eventType e, eventData e)) <$> es.
Proof.
  unfold readStream. induction es as [|e es IH]; [reflexivity|]. cbn [foldr fmap list_fmap]. rewrite Split_frame.
  cbn [dispatch]. change (bool_decide ("event: " +:+ eventType e = "")) with false.
  rewrite HasPrefix_app, TrimPrefix_app. change (bool_decide ("data: " +:+ eventData e = "")) with false.
  change (HasPrefix ("data: " +:+ eventData e) "event: ") with false. cbn [dispatch].
  rewrite HasPrefix_app, TrimPrefix_app. rewrite bool_decide_true by done.
  change ("" +:+ eventData e) with (eventData e). rewrite (bool_decide_false (eventData e = "")) by (by destruct e).
  f_equal. exact IH.
Qed.

Lemma unquote_quote s r : unquote (quote s +:+ r) = Some (s, r).
Proof.
  unfold unquote, quote. cbn [String.append]. rewrite bool_decide_true by done.
  rewrite app_assoc_string. apply readString_escaped.
Qed.

Lemma TrimPrefix_opt_app_self p r : TrimPrefix_opt p (p +:+ r) = Some r.
Proof. by apply TrimPrefix_opt_Some. Qed.

(** The data of a message gives back its type URL and its bytes. *)
Lemma readMessage_event typ bytes : readMessage (eventData (MessageEvent typ (Base64.encode bytes))) = Some (typ, bytes).
Proof.
  unfold readMessage. cbn [eventData]. unfold field. rewrite TrimPrefix_opt_app_self. cbn [mbind option_bind].
  rewrite !app_assoc_string, unquote_quote. cbn [mbind option_bind fst snd].
  rewrite TrimPrefix_opt_app_self. cbn [mbind option_bind]. rewrite unquote_quote. cbn [mbind option_bind fst snd].
  rewrite TrimPrefix_opt_app_self. cbn [mbind option_bind]. rewrite unquote_quote. cbn [mbind option_bind fst snd].
  rewrite TrimPrefix_opt_app_self. cbn [mbind option_bind]. rewrite unquote_quote. cbn [mbind option_bind fst snd].
  rewrite decode_encode. reflexivity.
Qed.

(** ** What the handler delivers *)

Context (marshal : Any -> result string string) (typeURL : Any -> string).

Definition ends (i : input (Any := Any)) : bool := match i with Done | ChannelClosed => true | _ => false end.

(** The event an input is written as *)
Definition eventOf (i : input (Any := Any)) : option sse_event :=
  match i with Tick => Some HeartbeatEvent | Message m => messageEvent marshal typeURL m | _ => None end.

(** The inputs until the stream ends *)
Fixpoint taken (inputs : list (Z * input (Any := Any))) : list (Z * input) :=
  match inputs with [] => [] | (t, i) :: rest => if ends i then [] else (t, i) :: taken rest end.

Definition inTime (deadline : Z) (inputs : list (Z * input (Any := Any))) : list input :=
  (filter (fun x => (x.1 < deadline)%Z) (taken inputs)).*2.

Lemma loop_broken deadline full inputs :
  fst (loop marshal typeURL deadline full true inputs) = [].
Proof.
  induction inputs as [|[t i] rest IH]; cbn; [done|]. destruct i; cbn; try done. destruct (messageEvent _ _ m); [done|exact IH].
Qed.

Lemma inTime_late deadline t inputs :
  StronglySorted Z.le (t :: inputs.*1) -> (deadline <= t)%Z -> inTime deadline inputs = [].
Proof.
  intros Hs Hd. apply StronglySorted_inv in Hs as [_ Hall]. unfold inTime.
  induction inputs as [|[u i] rest IH]; cbn [taken]; [done|]. cbn in Hall. apply Forall_cons in Hall as [Hu Hall].
  destruct (ends i); [done|]. rewrite filter_cons, decide_False by (cbn; lia). by apply IH.
Qed.

(** The loop delivers, in order, the events of the inputs before the end of the stream, as far as they come
    before the deadline. *)
Lemma loop_delivers deadline full inputs : StronglySorted Z.le inputs.*1 ->
  fst (loop marshal typeURL deadline full false inputs) = omap eventOf (inTime deadline inputs).
Proof.
  induction inputs as [|[t i] rest IH]; cbn [loop fmap list_fmap fst]; [done|]. intros Hs.
  pose proof Hs as [Hs' _]%StronglySorted_inv. specialize (IH Hs').
  assert (forall e, eventOf i = Some e -> ends i = false ->
    fst (let '(out, broken', err) := writeSSEEvent deadline t false (full e) e in
         if err then (out, WriteError) else let '(out', en) := loop marshal typeURL deadline full broken' rest in (out ++ out', en))
    = omap eventOf (inTime deadline ((t, i) :: rest))) as Hw.
  { intros e He Hen. unfold inTime. cbn [taken]. rewrite Hen, filter_cons. cbn [fst]. unfold writeSSEEvent.
    destruct (t <? deadline)%Z eqn:Ht; breflect.
    - rewrite decide_True by done. cbn. rewrite He. unfold inTime in IH.
      destruct (loop marshal typeURL deadline full false rest) as [out en]. cbn in *. by rewrite IH.
    - rewrite decide_False by lia. fold (inTime deadline rest). rewrite (inTime_late deadline t) by (done || lia).
      destruct (full e); cbn; [done|]. pose proof (loop_broken deadline full rest) as Hb.
      destruct (loop marshal typeURL deadline full true rest) as [out en]. cbn in *. by rewrite Hb. }
  destruct i; cbn [eventOf] in *; [done|by apply Hw| |done].
  destruct (messageEvent marshal typeURL m) as [e|] eqn:E; [by apply Hw|].
  rewrite IH. unfold inTime. cbn [taken ends]. rewrite filter_cons. cbn [fst].
  case_decide; [|done]. cbn [fmap list_fmap snd omap list_omap eventOf]. by rewrite E.
Qed.

End Stream.

(** The text of a list of events *)
Definition streamText (es : list sse_event) : string := foldr (fun e t => frame e +:+ t) "" es.

Lemma Unregister_gone {Any : Type} (g : Gates.Gate (Any := Any)) c : Gates.clients (Gates.Unregister g c) !! c = None.
Proof. unfold Gates.Unregister. destruct (Gates.clients g !! c) eqn:E; [apply lookup_delete_eq|done]. Qed.

(** What the handler does on a connection that can be streamed to *)
Lemma handle_spec {Any : Type} (marshal : Any -> result string string) (typeURL : Any -> string)
    (g g' : Gates.Gate (Any := Any)) uid p read now full inputs meanwhile out en :
  (read <= now < read + WriteTimeout)%Z -> StronglySorted Z.le inputs.*1 ->
  handleEventsStream marshal typeURL g GET true uid p read now full inputs meanwhile = (g', inr (out, en)) ->
  out = RegisterEvent (snd (Gates.Register g uid p)) :: omap (eventOf marshal typeURL) (inTime (read + WriteTimeout) inputs) /\
  Gates.clients g' !! snd (Gates.Register g uid p) = None.
Proof.
  intros Hnow Hs Hh. unfold handleEventsStream in Hh. rewrite bool_decide_eq_false_2 in Hh by (intros Hn; by apply Hn).
  cbn [negb] in Hh. destruct (Gates.Register g uid p) as [g1 c]. unfold writeSSEEvent in Hh.
  rewrite (proj2 (Z.ltb_lt _ _)) in Hh by lia. pose proof (loop_delivers marshal typeURL (read + WriteTimeout) full inputs Hs) as Hl.
  destruct (loop _ _ _ _ _ _) as [out' en']. cbn in Hl. injection Hh as <- <- <-. cbn [snd]. rewrite Hl. split; [done|].
  apply Unregister_gone.
Qed.

(** ** Properties *)

(** C11: a client of the event stream reads what was pushed to it.  From the text that reaches it, a client
    reads exactly: the registration with its client id, and then, in order, the events of the heartbeats and
    messages that the handler takes before the stream ends, as far as they come within the write
    timeout; a message's data gives back its type URL and its bytes.  When the handler returns the client
    is not registered any more. *)
Theorem event_stream_roundtrip {Any : Type} (marshal : Any -> result string string) (typeURL : Any -> string)
    (g g' : Gates.Gate (Any := Any)) uid p read now full inputs meanwhile out en :
  (read <= now < read + WriteTimeout)%Z -> StronglySorted Z.le inputs.*1 ->
  handleEventsStream marshal typeURL g GET true uid p read now full inputs meanwhile = (g', inr (out, en)) ->
  let clientID := snd (Gates.Register g uid p) in
  readStream (streamText out) =
    ("register", eventData (RegisterEvent clientID)) ::
    ((fun e => (eventType e, eventData e)) <$> omap (eventOf marshal typeURL) (inTime (read + WriteTimeout) inputs)) /\
  (forall m bytes, marshal m = Ok bytes -> exists e, messageEvent marshal typeURL m = Some e /\
     eventType e = "message" /\ readMessage (eventData e) = Some (typeURL m, bytes)) /\
  Gates.clients g' !! clientID = None.
Proof.
  intros Hnow Hs Hh clientID. destruct (handle_spec _ _ _ _ _ _ _ _ _ _ _ _ _ Hnow Hs Hh) as [-> Hg].
  split; [apply readStream_frames|]. split; [|done].
  intros m bytes Hm. unfold messageEvent. rewrite Hm. eexists. split; [reflexivity|]. split; [done|apply readMessage_event].
Qed.

(** No heartbeat reaches a client: the write timeout has passed when the first one is due. *)
Theorem no_heartbeat_delivered {Any : Type} (marshal : Any -> result string string) (typeURL : Any -> string)
    (g g' : Gates.Gate (Any := Any)) uid p read now full inputs meanwhile out en :
  (read <= now < read + WriteTimeout)%Z -> StronglySorted Z.le inputs.*1 ->
  (forall t, (t, Tick) ∈ inputs -> (now + sseHeartbeatInterval <= t)%Z) ->
  handleEventsStream marshal typeURL g GET true uid p read now full inputs meanwhile = (g', inr (out, en)) ->
  HeartbeatEvent ∉ out.
Proof.
  intros Hnow Hs Ht Hh. destruct (handle_spec _ _ _ _ _ _ _ _ _ _ _ _ _ Hnow Hs Hh) as [-> _].
  rewrite elem_of_cons. intros [|Hin]; [done|]. apply list_elem_of_omap in Hin as (i & Hi & He).
  destruct i; [done| |unfold eventOf, messageEvent in He; by case_match|done].
  unfold inTime in Hi. apply list_elem_of_fmap in Hi as ([t i] & Hti & Hi). cbn in Hti. subst i.
  apply list_elem_of_filter in Hi as [Hlt Hi]. cbn in Hlt.
  assert ((t, Tick) ∈ inputs) as Hin.
  { clear -Hi. induction inputs as [|[u j] rest IH]; cbn in Hi; [done|]. destruct (ends j); [by apply elem_of_nil in Hi|].
    apply elem_of_cons in Hi as [->|Hi]; [by left|right; auto]. }
  specialize (Ht t Hin). unfold sseHeartbeatInterval, WriteTimeout in *. lia.
Qed.

(** A message that is pushed to a client after thirty seconds is taken from its channel and lost, and the
    stream ends. *)
Theorem late_message_lost :
  exists out g', handleEventsStream (Any := string) (fun m => Ok m) (fun _ => "t") (Gates.mkGate "g:1" ∅ ∅ ∅ ∅) GET true "u" 0
      0 1 (fun _ => false) [(5000000000, Message "early"); (31000000000, Message "late"); (31000000001, Done)]%Z (fun g => g)
    = (g', inr (out, Disconnected)) /\
  readStream (streamText out) ≫= (fun e => if bool_decide (e.1 = "message") then option_list (readMessage e.2) else []) = [("t", "early")].
Proof. do 2 eexists. split; [vm_compute; reflexivity|vm_compute; reflexivity]. Qed.

Lemma event_stream_roundtrip_witness :
  exists out g' en, handleEventsStream (Any := string) (fun m => Ok m) (fun _ => "t") (Gates.mkGate "g:1" ∅ ∅ ∅ ∅) GET true "u" 0
      0 1 (fun _ => false) [(5, Message "a"); (6, Message "b"); (7, Done)]%Z (fun g => g) = (g', inr (out, en)) /\
  snd <$> tail (readStream (streamText out)) = [eventData (MessageEvent "t" "YQ=="); eventData (MessageEvent "t" "Yg==")] /\
  Gates.clients g' !! "g:1/u" = None.
Proof.
  do 3 eexists. split; [vm_compute; reflexivity|].
  match goal with |- snd <$> tail (readStream (streamText ?out)) = _ /\ Gates.clients ?g' !! _ = None =>
    destruct (event_stream_roundtrip (Any := string) (fun m => Ok m) (fun _ => "t") (Gates.mkGate "g:1" ∅ ∅ ∅ ∅) g' "u" 0
      0 1 (fun _ => false) [(5, Message "a"); (6, Message "b"); (7, Done)]%Z (fun g => g) out Disconnected) as (Hr & _ & Hg) end.
  - unfold WriteTimeout. lia.
  - cbn. repeat first [apply SSorted_nil|apply SSorted_cons|apply Forall_cons; split; [lia|]|apply Forall_nil; done].
  - vm_compute. reflexivity.
  - split; [rewrite Hr; vm_compute; reflexivity|exact Hg].
Defined.

(** The four routes of the clients are told apart by their paths. *)
Theorem client_routes (typ id method : string) :
  (snd <$> Answers.route Answers.setupHTTPClientRoutes ("/api/v1/objects/call/" +:+ typ +:+ "/" +:+ id +:+ "/" +:+ method)) = Some Answers.CallObject /\
  (snd <$> Answers.route Answers.setupHTTPClientRoutes ("/api/v1/objects/create/" +:+ typ +:+ "/" +:+ id)) = Some Answers.CreateObject /\
  (snd <$> Answers.route Answers.setupHTTPClientRoutes ("/api/v1/objects/delete/" +:+ typ +:+ "/" +:+ id)) = Some Answers.DeleteObject.
Proof. split_and!; reflexivity. Qed.
