(* ===== verification/Api.v ===== *)
(** * The programming interface (goverseapi, client, util/errors and the accessors of cluster.go)

    [Module Errors]: Go's error values as the code builds them, and what counts as a timeout.
    [Module ClusterApi]: the accessors of the cluster that the interface and the inspector call.
    [Module Api]: what an application calls.  Every function goes to the cluster of the process, which is
    nil until a server has been made: a call before that panics.  [Module Handlers]: the event handler of a
    gate and its default.  [Module Clients]: the client object. *)

From S2P Require Import Prelude GoStrings ObjectId Persistence Object ReliableCalls AccessControl ClusterConfig Node.
From S2P Require Import ConsensusState ClientPush Cluster NodeConnections CallContext Server GateServer GateHTTP.
Import Proto Objects Conf Sharding Parser UniqueIds Shards Consensus Clusters Pushes Context.
From stdpp Require Import list_numbers.

(** ** Errors (util/errors/timeout.go) *)

Module Errors.

(** The errors the code meets: a text, an error wrapped by [fmt.Errorf] with [%w], a [TimeoutError], the two
    errors of a context, and the status error of an RPC *)
Inductive goerr : Type :=
| EText (msg : string)
| EWrap (pre : string) (inner : goerr)
| ETimeout (Operation ObjectID : string) (inner : option goerr)
| EDeadlineExceeded
| ECanceled
| EStatus (code : Z) (msg : string).

(** [NewTimeoutError] *)
Definition NewTimeoutError (operation objectID : string) (err : option goerr) : goerr := ETimeout operation objectID err.

(** [TimeoutError.Unwrap], and that of the errors of [fmt.Errorf] *)
Definition Unwrap (e : goerr) : option goerr :=
  match e with EWrap _ i => Some i | ETimeout _ _ i => i | _ => None end.

(** The errors [errors.As] and [errors.Is] visit *)
Fixpoint chain (e : goerr) : list goerr :=
  e :: match e with
       | EWrap _ i => chain i
       | ETimeout _ _ (Some i) => chain i
       | _ => []
       end.

Section Text.
(** [codes.Code.String] *)
Context (codeName : Z -> string).

(** [Error]: for a [TimeoutError] the text of timeout.go *)
Fixpoint Error (e : goerr) : string :=
  match e with
  | EText m => m
  | EWrap p i => p +:+ ": " +:+ Error i
  | ETimeout op id inner =>
      let t := match inner with Some i => Error i | None => "<nil>" end in
      if bool_decide (id <> "") then "timeout: " +:+ op +:+ " on " +:+ id +:+ ": " +:+ t
      else "timeout: " +:+ op +:+ ": " +:+ t
  | EDeadlineExceeded => "context deadline exceeded"
  | ECanceled => "context canceled"
  | EStatus c m => "rpc error: code = " +:+ codeName c +:+ " desc = " +:+ m
  end.
End Text.

(** [codes.DeadlineExceeded] *)
Definition DeadlineExceeded : Z := 4.

(** [status.FromError] on an error that is not nil: the code of the first status in the chain *)
Definition statusCode (e : goerr) : option Z :=
  head (omap (fun x => match x with EStatus c _ => Some c | _ => None end) (chain e)).

Definition isTimeoutError (e : goerr) : bool := match e with ETimeout _ _ _ => true | _ => false end.
Definition isDeadline (e : goerr) : bool := match e with EDeadlineExceeded => true | _ => false end.

(** [IsTimeout] *)
Definition IsTimeout (err : option goerr) : bool :=
  match err with
  | None => false
  | Some e =>
      if existsb isTimeoutError (chain e) then true
      else if existsb isDeadline (chain e) then true
      else match statusCode e with Some c => (c =? DeadlineExceeded)%Z | None => false end
  end.

(** What [recordOperationResult] records *)
Inductive metric : Type :=
| OperationTimeout (addr operation : string)
| OperationDuration (addr operation status : string).

(** [recordOperationResult] *)
Definition recordOperationResult (addr operation : string) (err : option goerr) : list metric :=
  match err with
  | None => [OperationDuration addr operation "success"]
  | Some _ =>
      if IsTimeout err then [OperationTimeout addr operation; OperationDuration addr operation "timeout"]
      else [OperationDuration addr operation "error"]
  end.

End Errors.
Import Errors.

(** ** The client object (client/client.go) *)

Module Clients.
Section Clients.
Context {St Msg : Type}.

Record BaseClient : Type := mkClient {
  baseObject : BaseObject St;
  messageChan : option (nat * list Msg)          (* the capacity and the content; [None] is the nil channel *)
}.

(** [MessageChan], [OnCreated] *)
Definition MessageChan (c : BaseClient) : option (nat * list Msg) := messageChan c.
Definition OnCreated (c : BaseClient) : BaseClient := mkClient (baseObject c) (Some (10%nat, [])).
End Clients.
End Clients.

(** ** Event handlers of a gate (goverseapi/gate_event_handler.go) *)

Module Handlers.

(** [GateEventHandler]; what [OnClientDisconnect] does is an effect [E] of the application *)
Record GateEventHandler (E : Type) : Type := mkHandler {
  OnClientAuthorise : Ctx -> MD -> result string (option CallerIdentity);
  OnClientDisconnect : Ctx -> string -> option CallerIdentity -> list E
}.
Arguments OnClientAuthorise {E} _ _ _.
Arguments OnClientDisconnect {E} _ _ _ _.

(** [NoopGateEventHandler] *)
Definition NoopGateEventHandler (E : Type) : GateEventHandler E :=
  mkHandler E (fun _ _ => Ok None) (fun _ _ _ => []).

End Handlers.
Import Handlers.

(** ** The accessors of the cluster (cluster/cluster.go) *)

Module ClusterApi.
Section ClusterApi.
Context {St Msg Data Any P : Type} `{PersistenceProvider P}.
Context (rt : Runtime Any Msg).
Abbreviation clusterT := (Cluster (St := St) (Msg := Msg) (Data := Data) (P := P)).
Abbreviation nodeT := (Nodes.Node (St := St) (Msg := Msg) (Data := Data) (P := P)).

(** [GetAdvertiseAddress], [IsNode], [IsGate], [GetThisNode], [IsReady] *)
Definition GetAdvertiseAddress (c : clusterT) : string := getAdvertiseAddr c.
Definition IsNode (c : clusterT) : bool := isNode c.
Definition IsGate (c : clusterT) : bool := Clusters.isGate c.
Definition GetThisNode (c : clusterT) : option nodeT := node c.
Definition IsReady (c : clusterT) : bool := clusterReady c.

(** The readers of the cached state: [GetNodes], [GetGates] in some order, [GetLeaderNode], [GetShardMapping],
    [GetCurrentNodeForObject], [GetNodeForShard] *)
Definition GetNodes (c : clusterT) : gset string := Consensus.Nodes (state (consensusManager c)).
Definition GetGates (c : clusterT) : gset string := default ∅ (Consensus.Gates (state (consensusManager c))).
Definition GetLeaderNode (c : clusterT) : string := Consensus.GetLeaderNode (consensusManager c).
Definition GetShardMapping (c : clusterT) : shards := Consensus.GetShardMapping (consensusManager c).
Definition GetCurrentNodeForObject (c : clusterT) (objectID : string) : result cm_error string :=
  Consensus.GetCurrentNodeForObject (consensusManager c) objectID.
Definition GetNodeForShard (c : clusterT) (shardID : Z) : result cm_error string :=
  Consensus.GetNodeForShard (consensusManager c) shardID.

(** [IsShardMappingComplete] *)
Definition IsShardMappingComplete (c : clusterT) (numShards : Z) : bool :=
  AllShardsHaveMatchingCurrentAndTarget (GetShardMapping c) numShards.

(** [IsGateConnected], [getRegisteredGateAddresses] *)
Definition IsGateConnected (c : GateChannels (Any := Any)) (gateAddr : string) : bool :=
  if Pushes.isGate c then false else bool_decide (is_Some (gateChannels c !! gateAddr)).
Definition getRegisteredGateAddresses (c : GateChannels (Any := Any)) : list string :=
  if Pushes.isGate c then [] else (map_to_list (gateChannels c)).*1.

(** [GetAutoLoadObjectIDsByType], [GetAutoLoadObjectIDs]; [nodes] is the order of the live nodes *)
Definition GetAutoLoadObjectIDsByType (c : clusterT) (nodes : list string) (objType : string) : list string :=
  mjoin ((fun cfg => if bool_decide (aType cfg <> objType) then [] else generateAutoLoadIDs c nodes cfg)
           <$> ClusterConf.AutoLoadObjects (config c)).
Definition addIDs (c : clusterT) (nodes : list string) (m : gmap string (list string)) (cfg : AutoLoadObjectConfig)
    : gmap string (list string) :=
  <[aType cfg := default [] (m !! aType cfg) ++ generateAutoLoadIDs c nodes cfg]> m.
Definition GetAutoLoadObjectIDs (c : clusterT) (nodes : list string) : gmap string (list string) :=
  fold_left (addIDs c nodes) (ClusterConf.AutoLoadObjects (config c)) ∅.

Inductive reliable_error : Type :=
| RelMarshal (m : string)                                (* failed to marshal request *)
| RelCluster (e : cluster_error)
| RelUnpack (m : string).                                (* the result could not be unpacked *)

(** [ReliableCallObject]: the message, the status and the error; [None] while it is still retrying *)
Definition ReliableCallObject
    (local : nodeT -> string -> string -> string -> string -> option Any -> nodeT * Nodes.reply (Any := Any))
    (attempts : list attempt) (c : clusterT) (callID objectType objectID methodName : string) (request : option Msg)
    : clusterT * list Clusters.request * option (option Msg * Nodes.ReliableCallStatus * option reliable_error) :=
  match MsgToAny rt request with
  | Err m => (c, [], Some (None, Nodes.SKIPPED, Some (RelMarshal m)))
  | Ok requestAny =>
      let '(c, rqs, r) := ReliableCallObjectAnyRequest local attempts c callID objectType objectID methodName requestAny in
      (c, rqs,
       match r with
       | None => None
       | Some (_, status, Some e) => Some (None, status, Some (RelCluster e))
       | Some (resultAny, status, None) =>
           match AnyToMsg rt resultAny with
           | Ok m => Some (m, status, None)
           | Err e => Some (None, status, Some (RelUnpack e))
           end
       end)
  end.

End ClusterApi.
End ClusterApi.

(** ** The interface (goverseapi/goverseapi.go, goverseapi/auth.go) *)

Module Api.
Section Api.
Context {St Msg Data Any P : Type} `{PersistenceProvider P}.
Context (rt : Runtime Any Msg) (onCreated : Class St Msg Data -> St -> St).
Abbreviation clusterT := (Cluster (St := St) (Msg := Msg) (Data := Data) (P := P)).
Abbreviation nodeT := (Nodes.Node (St := St) (Msg := Msg) (Data := Data) (P := P)).

(** The cluster of the process, set by [cluster.SetThis] and read by [cluster.This]; [None] is nil *)
Definition SetThis (this : option clusterT) (c : clusterT) : option clusterT := Some c.

(** [RegisterObjectType]; [None] is a panic: no cluster, no node, or that of the node *)
Definition RegisterObjectType (this : option clusterT) (isPtr : bool) (cls : Class St Msg Data) : option clusterT :=
  c ← this; n ← ClusterApi.GetThisNode c; n' ← Nodes.RegisterObjectType n isPtr cls; Some (set_node c n').

(** [CreateObject], [DeleteObject], [CallObject], [ReliableCallObject] *)
Definition CreateObject (answer : Clusters.request -> result string (option Any)) (this : option clusterT) (uid objType objID : string) :=
  c ← this; Some (Clusters.CreateObject answer c uid objType objID).
Definition DeleteObject (answer : Clusters.request -> result string (option Any)) (this : option clusterT) (objType objID : string) :=
  c ← this; Some (Clusters.DeleteObject answer c objType objID).
Definition CallObject (wait wait2 during : nodeT -> nodeT) (answer : Clusters.request -> result string (option Any)) (this : option clusterT)
    (objType id method : string) (request : option Msg) :=
  c ← this; Some (Clusters.CallObject rt onCreated wait wait2 during answer c objType id method request).
Definition ReliableCallObject (local : nodeT -> string -> string -> string -> string -> option Any -> nodeT * Nodes.reply (Any := Any))
    (attempts : list attempt) (this : option clusterT) (callID objType objID method : string) (request : option Msg) :=
  c ← this; Some (ClusterApi.ReliableCallObject rt local attempts c callID objType objID method request).

(** [PushMessageToClients], [BroadcastToAllClients], over the gate channels of the cluster *)
Definition PushMessageToClients (chans : option (GateChannels (Any := Any))) order (clientIDs : list string) (msg : result string Any) :=
  c ← chans; Pushes.PushMessageToClients c order clientIDs msg.
Definition BroadcastToAllClients (chans : option (GateChannels (Any := Any))) order (msg : result string Any) :=
  c ← chans; NodeBroadcast c order msg.

(** [CallerClientID], [CallerIsClient], and their deprecated names [GetClientID], [HasClientID] *)
Definition CallerClientID (ctx : Ctx) : string := ClientID ctx.
Definition GetClientID (ctx : Ctx) : string := CallerClientID ctx.
Definition CallerIsClient (ctx : Ctx) : bool := FromClient ctx.
Definition HasClientID (ctx : Ctx) : bool := CallerIsClient ctx.

(** [CallerUserID], [CallerRoles], [CallerHasRole] *)
Definition CallerUserID (ctx : Ctx) : string := match callerIdentity ctx with Some id => UserID id | None => "" end.
Definition CallerRoles (ctx : Ctx) : list string := match callerIdentity ctx with Some id => Roles id | None => [] end.
Fixpoint hasRole (roles : list string) (role : string) : bool :=
  match roles with [] => false | r :: rest => if bool_decide (r = role) then true else hasRole rest role end.
Definition CallerHasRole (ctx : Ctx) (role : string) : bool :=
  match callerIdentity ctx with None => false | Some id => hasRole (Roles id) role end.

(** [CreateObjectID], [CreateObjectIDOnShard] with the constant number of shards, [CreateObjectIDOnNode],
    [GenerateCallID] *)
Definition CreateObjectID (ts : Z) (rnd : list Z) : string := UniqueIds.CreateObjectID ts rnd.
Definition CreateObjectIDOnShard (ts : Z) (rnd : list Z) (shardID : Z) : result panic string :=
  UniqueIds.CreateObjectIDOnShard ts rnd shardID NumShards.
Definition CreateObjectIDOnNode (ts : Z) (rnd : list Z) (nodeAddress : string) : result panic string :=
  UniqueIds.CreateObjectIDOnNode ts rnd nodeAddress.
Definition GenerateCallID (ts : Z) (rnd : list Z) : string := UniqueId ts rnd.

(** [GetAutoLoadObjectIDsByType], [GetAutoLoadObjectIDs], [ClusterReady] as whether the channel is closed *)
Definition GetAutoLoadObjectIDsByType (this : option clusterT) (nodes : list string) (objType : string) : option (list string) :=
  c ← this; Some (ClusterApi.GetAutoLoadObjectIDsByType c nodes objType).
Definition GetAutoLoadObjectIDs (this : option clusterT) (nodes : list string) : option (gmap string (list string)) :=
  c ← this; Some (ClusterApi.GetAutoLoadObjectIDs c nodes).
Definition ClusterReady (this : option clusterT) : option bool := c ← this; Some (ClusterApi.IsReady c).

End Api.
End Api.
Import Api.

(** ** What counts as a timeout *)

Lemma existsb_In {A} (f : A -> bool) (l : list A) : existsb f l = true <-> exists x, x ∈ l /\ f x = true.
Proof. rewrite existsb_exists. setoid_rewrite <-list_elem_of_In. done. Qed.

(** An error is a timeout exactly when its chain has a [TimeoutError] or the deadline error of a context, or
    the first status in it is DeadlineExceeded; and then the operation is counted as one. *)
Theorem IsTimeout_iff (e : goerr) :
  IsTimeout (Some e) = true <->
  (exists op id i, ETimeout op id i ∈ chain e) \/ EDeadlineExceeded ∈ chain e \/ statusCode e = Some DeadlineExceeded.
Proof.
  unfold IsTimeout. destruct (existsb isTimeoutError (chain e)) eqn:E1.
  { split; [|done]. intros _. left. apply existsb_In in E1 as ([| | op id i| | |] & Hx & Hf); try done. eauto. }
  assert (~ exists op id i, ETimeout op id i ∈ chain e) as Hn.
  { intros (op & id & i & Hx). apply not_true_iff_false in E1. apply E1, existsb_In. by exists (ETimeout op id i). }
  destruct (existsb isDeadline (chain e)) eqn:E2.
  { split; [|done]. intros _. right. left. apply existsb_In in E2 as ([] & Hx & Hf); done. }
  assert (EDeadlineExceeded ∉ chain e) as Hd.
  { intros Hx. apply not_true_iff_false in E2. apply E2, existsb_In. by exists EDeadlineExceeded. }
  destruct (statusCode e) as [c|]; [|naive_solver].
  destruct (c =? DeadlineExceeded)%Z eqn:E3; breflect; naive_solver.
Qed.

(** Wrapping with [%w] keeps the classification, and so does every wrapping with an outer [TimeoutError];
    formatting the text anew loses it. *)
Lemma IsTimeout_wrap pre e : IsTimeout (Some (EWrap pre e)) = IsTimeout (Some e).
Proof. done. Qed.

Lemma recorded_once addr op err :
  exists status, recordOperationResult addr op err =
    (if IsTimeout err then [OperationTimeout addr op] else []) ++ [OperationDuration addr op status] /\
    (status = "success" <-> err = None) /\ (status = "timeout" <-> IsTimeout err = true).
Proof.
  unfold recordOperationResult. destruct err as [e|]; [destruct (IsTimeout (Some e))|]; eexists; (split; [reflexivity|]); done.
Qed.

(** ** What a method sees of its caller *)

Lemma hasRole_elem roles role : hasRole roles role = true <-> role ∈ roles.
Proof.
  induction roles as [|r roles IH]; cbn; [split; [done|by intros ?%elem_of_nil]|].
  rewrite elem_of_cons. case_bool_decide as E; [subst; naive_solver|]. rewrite IH. naive_solver.
Qed.

(** The interface reports, in a method that a client called through a gate, the identity that crossed the
    RPC: the user id; the roles, as far as the identity has a user id; no role of an anonymous caller. *)
Theorem method_sees_caller (ctx : Ctx) (role : string) :
  outgoing ctx !! mdKeyCallerUserID = None -> outgoing ctx !! mdKeyCallerRoles = None ->
  let seen := ExtractCallerFromIncoming (transported (InjectCallerToOutgoing ctx)) in
  CallerUserID seen = CallerUserID ctx /\
  (CallerHasRole seen role = true <-> exists i, callerIdentity ctx = Some i /\ UserID i <> "" /\ role ∈ Roles i).
Proof.
  intros Hu Hr seen. pose proof (transported_identity ctx Hu Hr) as Ht. fold seen in Ht.
  unfold CallerUserID, CallerHasRole. rewrite Ht. destruct (callerIdentity ctx) as [i|]; cbn; [|naive_solver].
  unfold identified. case_bool_decide as E; cbn; [split; [done|naive_solver]|]. split; [done|].
  rewrite hasRole_elem. naive_solver.
Qed.

(** ** Event handlers *)

(** With the default handler an HTTP request whose header can be decoded is treated as by a gate without a
    handler. *)
Theorem noop_is_no_handler (E : Type) ctx authHeader :
  (forall e, authHeader <> Some (Err e)) ->
  GateHTTPs.authorise (Some (OnClientAuthorise (NoopGateEventHandler E))) ctx authHeader = GateHTTPs.authorise None ctx authHeader.
Proof. intros He. unfold GateHTTPs.authorise. destruct authHeader as [[m|e]|]; [done|by destruct (He e)|done]. Qed.

(** ** Auto-loaded objects *)

Section Autoload.
Context {St Msg Data Any P : Type} `{PersistenceProvider P}.
Abbreviation clusterT := (Cluster (St := St) (Msg := Msg) (Data := Data) (P := P)).

(** Both functions list the same ids. *)
Theorem autoload_ids_agree (c : clusterT) nodes typ :
  default [] (ClusterApi.GetAutoLoadObjectIDs c nodes !! typ) = ClusterApi.GetAutoLoadObjectIDsByType c nodes typ.
Proof.
  unfold ClusterApi.GetAutoLoadObjectIDs, ClusterApi.GetAutoLoadObjectIDsByType.
  generalize (ClusterConf.AutoLoadObjects (config c)). intros cfgs.
  assert (forall m : gmap string (list string), default [] (fold_left (ClusterApi.addIDs c nodes) cfgs m !! typ) = default [] (m !! typ) ++
    mjoin ((fun cfg => if bool_decide (aType cfg <> typ) then [] else generateAutoLoadIDs c nodes cfg) <$> cfgs)) as Hg.
  { induction cfgs as [|cfg cfgs IH]; intros m; cbn; [by rewrite app_nil_r|].
    rewrite IH. unfold ClusterApi.addIDs. case_bool_decide as E.
    - by rewrite lookup_insert_ne.
    - subst typ. rewrite lookup_insert_eq. cbn. by rewrite <-app_assoc. }
  by rewrite Hg, lookup_empty.
Qed.

(** The object a creation is for *)
Definition created (rq : Clusters.request (Any := Any)) : option (string * string) :=
  match rq with RpcCreate _ typ id | LocalCreate typ id => Some (typ, id) | _ => None end.

Lemma CreateObject_created answer (c : clusterT) uid typ id rq :
  id <> "" -> rq ∈ fst (Clusters.CreateObject answer c uid typ id) -> created rq = Some (typ, id).
Proof.
  intros Hid. unfold Clusters.CreateObject. rewrite bool_decide_false by done.
  repeat case_match; cbn; intros Hin; first [by apply elem_of_nil in Hin|by apply list_elem_of_singleton in Hin as ->].
Qed.

(** What a node asks for is listed: every object that a management tick of a live node asks to create is
    among the ids that the interface gives for its type. *)
Theorem autoloaded_is_listed (t : tick) answer (c : clusterT) nodes rq :
  (forall cfg, cfg ∈ ClusterConf.AutoLoadObjects (config c) -> aID cfg <> "") -> getAdvertiseAddr c ∈ nodes ->
  rq ∈ loadAutoLoadObjects t answer c ->
  exists typ id, created rq = Some (typ, id) /\ id ∈ ClusterApi.GetAutoLoadObjectIDsByType c nodes typ.
Proof.
  intros Hcfg Hme Hrq. unfold loadAutoLoadObjects in Hrq.
  destruct (Clusters.isGate c); [by apply elem_of_nil in Hrq|].
  destruct (negb (IsStateStable _ _)); [by apply elem_of_nil in Hrq|].
  apply list_elem_of_join in Hrq as (l & Hrq & Hl). apply list_elem_of_fmap in Hl as (cfg & -> & Hin).
  apply list_elem_of_join in Hrq as (l & Hrq & Hl). apply list_elem_of_fmap in Hl as ([typ id] & -> & Hid).
  assert (typ = aType cfg /\ id ∈ generateAutoLoadIDs c nodes cfg /\ id <> "") as (-> & Hg & Hne).
  { unfold generateAutoLoadIDs. destruct (PerShard cfg); [|destruct (PerNode cfg)].
    - unfold loadPerShardObject in Hid. apply list_elem_of_omap in Hid as (s & Hs & Hid).
      destruct (GetNodeForShard _ _); [|done]. case_bool_decide; [done|]. injection Hid as <- <-.
      split; [done|]. split; [|done]. apply list_elem_of_fmap. by exists s.
    - unfold loadPerNodeObject in Hid. case_bool_decide; [by apply elem_of_nil in Hid|].
      apply list_elem_of_singleton in Hid as [= -> ->]. split; [done|]. split; [apply list_elem_of_fmap; by exists (getAdvertiseAddr c)|].
      by destruct (getAdvertiseAddr c).
    - unfold loadSingleObject in Hid. destruct (GetNodeForShard _ _); [|by apply elem_of_nil in Hid].
      case_bool_decide; [by apply elem_of_nil in Hid|]. apply list_elem_of_singleton in Hid as [= -> ->].
      split; [done|]. split; [by left|by apply Hcfg]. }
  exists (aType cfg), id. split; [by eapply CreateObject_created|].
  unfold ClusterApi.GetAutoLoadObjectIDsByType. apply list_elem_of_join. eexists. split; [exact Hg|].
  apply list_elem_of_fmap. exists cfg. split; [|done]. by rewrite bool_decide_eq_false_2 by auto.
Qed.

End Autoload.

(** ** Identifiers for a cluster with another number of shards *)

(** The interface makes ids for 8192 shards, whatever number the cluster is configured with: for a smaller
    number it gives, without a panic, ids that the cluster refuses. *)
Theorem id_for_missing_shard ts rnd s n :
  (0 <= n <= s)%Z -> (s < NumShards)%Z ->
  exists id, Api.CreateObjectIDOnShard ts rnd s = Ok id /\ ValidateObjectID id n = Err (ErrShardOutOfRange id s n).
Proof.
  intros Hn Hs. pose proof (CreateObjectIDOnShard_roundtrip ts rnd s NumShards) as Hr.
  unfold Api.CreateObjectIDOnShard. destruct (UniqueIds.CreateObjectIDOnShard ts rnd s NumShards) as [id|e].
  2: { exfalso. apply Hr; [done|lia]. }
  destruct Hr as (_ & _ & Hv); [done|]. exists id. split; [done|]. unfold ValidateObjectID in *.
  destruct (ParseObjectID id) as [p|]; [|done]. case_match; [done|]. injection Hv as ->. cbn.
  rewrite bool_decide_true by done. rewrite (proj2 (Z.leb_le n s)) by lia. by rewrite orb_true_r.
Qed.
