(* ===== verification/GateSession.v ===== *)
(** * Client sessions of the gate server (gate/gateserver/gateserver.go)

    [Module Sessions]: the [Register] RPC, a stream that lives as long as its client, next to the calls of the
    other handlers and to [Stop], which all take [stopMu].  A step is what one goroutine does between two
    accesses to shared state.  [stopMu] is a Go [RWMutex]: a writer that waits keeps new readers out.  The client proxies are
    those of Gate.v.  The event handler's answer is a function of the metadata; the unique ids of clients are
    different.  The server-sent events, which do not take the mutex, are in GateEvents.v, and the rest of [Stop] in
    GateLifecycle.v; TLS is not modelled. *)

From S2P Require Import Prelude GoStrings Gate CallContext.
Import Context.

Module Sessions.

Section Sessions.
Context {Any : Type}.
(** [OnClientAuthorise] of the event handler *)
Context (OnClientAuthorise : MD -> result string (option CallerIdentity)).

Inductive session_error : Type := Unavailable | Unauthenticated (e : string).

(** How far a session is: the client is registered with the gate; its identity is stored and messages are
    streamed; the identity is deleted; the event handler has been told; the client is unregistered *)
Inductive stage : Type := Registered | Streaming | Forgotten | Notified | Left.
#[global] Instance stage_eq_dec : EqDecision stage.
Proof. solve_decision. Defined.

(** Where a [Register] RPC is *)
Inductive phase : Type :=
| Waiting
| Entered
| Session (s : stage) (i : option CallerIdentity) (clientID : string)
| Refused (e : session_error).

(** Where the goroutine that calls [Stop] is *)
Inductive stop_phase : Type := NotStopping | Locking | Locked | Returned.
#[global] Instance stop_phase_eq_dec : EqDecision stop_phase.
Proof. solve_decision. Defined.

Record world : Type := mkWorld {
  gate : Gates.Gate (Any := Any);
  streams : gmap nat (MD * phase);                            (* the [Register] RPCs *)
  clientIdentities : gmap string (option CallerIdentity);
  calls : gset nat;                                           (* the calls that hold [stopMu] *)
  served : nat;                                               (* the calls that passed the [stopped] check *)
  stop : stop_phase;
  stopped : bool;
  gone : gset nat;                                            (* streams whose context is done *)
  disconnects : list (string * option CallerIdentity)         (* the calls of [OnClientDisconnect] *)
}.

Definition goto (w : world) (g : Gates.Gate) (n : nat) (md : MD) (ph : phase) (ids : gmap string (option CallerIdentity))
    (ds : list (string * option CallerIdentity)) : world :=
  mkWorld g (<[n := (md, ph)]> (streams w)) ids (calls w) (served w) (stop w) (stopped w) (gone w) ds.

(** A [Register] RPC holds the mutex from its [RLock] to its return *)
Definition holds (ph : phase) : bool :=
  match ph with Entered => true | Session s _ _ => bool_decide (s <> Left) | _ => false end.

(** [RLock] succeeds *)
Definition readable (w : world) : Prop := stop w = NotStopping \/ stop w = Returned.
(** [Lock] succeeds *)
Definition writable (w : world) : Prop :=
  calls w = ∅ /\ forall n md ph, streams w !! n = Some (md, ph) -> holds ph = false.

Definition clientID_of (ph : phase) : option string := match ph with Session _ _ c => Some c | _ => None end.

Inductive step (w : world) : world -> Prop :=
| S_arrive n md : streams w !! n = None -> step w (goto w (gate w) n md Waiting (clientIdentities w) (disconnects w))
| S_rlock n md : streams w !! n = Some (md, Waiting) -> readable w ->
    step w (goto w (gate w) n md Entered (clientIdentities w) (disconnects w))
| S_unavailable n md : streams w !! n = Some (md, Entered) -> stopped w = true ->
    step w (goto w (gate w) n md (Refused Unavailable) (clientIdentities w) (disconnects w))
| S_unauthenticated n md e : streams w !! n = Some (md, Entered) -> stopped w = false -> OnClientAuthorise md = Err e ->
    step w (goto w (gate w) n md (Refused (Unauthenticated e)) (clientIdentities w) (disconnects w))
| S_register n md i uid p : streams w !! n = Some (md, Entered) -> stopped w = false -> OnClientAuthorise md = Ok i ->
    Gates.proxies (gate w) !! p = None ->
    (forall m x, streams w !! m = Some x -> clientID_of (snd x) <> Some (snd (Gates.Register (gate w) uid p))) ->
    step w (goto w (fst (Gates.Register (gate w) uid p)) n md (Session Registered i (snd (Gates.Register (gate w) uid p)))
      (clientIdentities w) (disconnects w))
| S_store n md i c : streams w !! n = Some (md, Session Registered i c) ->
    step w (goto w (gate w) n md (Session Streaming i c) (<[c := i]> (clientIdentities w)) (disconnects w))
(* a message of the client's channel is sent over the stream *)
| S_send n md i c p cp m rest : streams w !! n = Some (md, Session Streaming i c) ->
    Gates.clients (gate w) !! c = Some p -> Gates.proxies (gate w) !! p = Some cp -> Gates.messageChan cp = m :: rest ->
    step w (goto w (Gates.set_clients (gate w) (Gates.clients (gate w))
        (<[p := Gates.mkProxy (Gates.cid cp) rest (Gates.closed cp)]> (Gates.proxies (gate w))))
      n md (Session Streaming i c) (clientIdentities w) (disconnects w))
(* the loop ends when the stream's context is done (a send fails only then) or the channel is closed and empty *)
| S_leave n md i c : streams w !! n = Some (md, Session Streaming i c) ->
    (n ∈ gone w \/ exists p cp, Gates.proxies (gate w) !! p = Some cp /\ Gates.cid cp = c /\
       Gates.closed cp = true /\ Gates.messageChan cp = []) ->
    step w (goto w (gate w) n md (Session Forgotten i c) (delete c (clientIdentities w)) (disconnects w))
| S_notify n md i c : streams w !! n = Some (md, Session Forgotten i c) ->
    step w (goto w (gate w) n md (Session Notified i c) (clientIdentities w) (disconnects w ++ [(c, i)]))
| S_unregister n md i c : streams w !! n = Some (md, Session Notified i c) ->
    step w (goto w (Gates.Unregister (gate w) c) n md (Session Left i c) (clientIdentities w) (disconnects w))
(* a node pushes a message to a client *)
| S_push p m g' : Gates.push (gate w) p m = Some g' ->
    step w (mkWorld g' (streams w) (clientIdentities w) (calls w) (served w) (stop w) (stopped w) (gone w) (disconnects w))
| S_disconnect n : step w (mkWorld (gate w) (streams w) (clientIdentities w) (calls w) (served w) (stop w) (stopped w)
    ({[n]} ∪ gone w) (disconnects w))
(* a call of a client: [RLock], the [stopped] check, and the return *)
| S_call k : k ∉ calls w -> readable w ->
    step w (mkWorld (gate w) (streams w) (clientIdentities w) ({[k]} ∪ calls w) (if stopped w then served w else S (served w))
      (stop w) (stopped w) (gone w) (disconnects w))
| S_return k : step w (mkWorld (gate w) (streams w) (clientIdentities w) (calls w ∖ {[k]}) (served w) (stop w) (stopped w) (gone w) (disconnects w))
(* [Stop] *)
| S_stop : readable w ->
    step w (mkWorld (gate w) (streams w) (clientIdentities w) (calls w) (served w) Locking (stopped w) (gone w) (disconnects w))
| S_lock : stop w = Locking -> writable w ->
    step w (mkWorld (gate w) (streams w) (clientIdentities w) (calls w) (served w) Locked (stopped w) (gone w) (disconnects w))
| S_stopped : stop w = Locked ->
    step w (if stopped w
      then mkWorld (gate w) (streams w) (clientIdentities w) (calls w) (served w) Returned true (gone w) (disconnects w)
      else mkWorld (Gates.Stop (gate w)) (streams w) (clientIdentities w) (calls w) (served w) Returned true
             (gone w ∪ dom (streams w)) (disconnects w)).

Definition initial (addr : string) : world :=
  mkWorld (Gates.mkGate addr ∅ ∅ ∅ ∅) ∅ ∅ ∅ 0 NotStopping false ∅ [].
Definition reachable (addr : string) (w : world) : Prop := rtc step (initial addr) w.

End Sessions.
End Sessions.

Import Sessions.

(** ** Invariants *)

Section Invariants.
Context {Any : Type} (auth : MD -> result string (option CallerIdentity)).
Abbreviation worldT := (world (Any := Any)).

(** Sessions have different client ids and the identity the event handler returned; the identities, the
    disconnects and the gate's clients are those of the sessions; nothing holds the mutex next to [Stop]. *)
Record sessions_ok (w : worldT) : Prop := {
  so_unique : forall n m x y c, streams w !! n = Some x -> streams w !! m = Some y ->
    clientID_of x.2 = Some c -> clientID_of y.2 = Some c -> n = m;
  so_auth : forall n md s i c, streams w !! n = Some (md, Session s i c) -> auth md = Ok i;
  so_ids : forall c i, clientIdentities w !! c = Some i <-> exists n md, streams w !! n = Some (md, Session Streaming i c);
  so_disc : forall c i, (c, i) ∈ disconnects w <->
    exists n md s, streams w !! n = Some (md, Session s i c) /\ (s = Notified \/ s = Left);
  so_once : NoDup (disconnects w).*1;
  so_stopped : stopped w = true -> forall n md s i c, streams w !! n = Some (md, Session s i c) -> s = Left
}.

Record proxies_ok (w : worldT) : Prop := {
  po_clients : clients_ok (gate w);
  po_live : forall n md s i c, streams w !! n = Some (md, Session s i c) -> s <> Left -> is_Some (Gates.clients (gate w) !! c);
  po_closed : forall p cp, Gates.proxies (gate w) !! p = Some cp -> Gates.closed cp = true ->
    forall n md s i, streams w !! n = Some (md, Session s i (Gates.cid cp)) -> s = Left;
  po_used : forall p cp, Gates.proxies (gate w) !! p = Some cp ->
    exists n md s i, streams w !! n = Some (md, Session s i (Gates.cid cp));
  po_locked : stop w = Locked -> writable w
}.

(** Looking up a stream after a step of one of them *)
Ltac at_stream n :=
  repeat match goal with
  | |- context [<[n := _]> _ !! ?m] => destruct (decide (m = n)) as [->|]; [rewrite lookup_insert_eq|rewrite lookup_insert_ne by done]
  | H : context [<[n := _]> _ !! ?m] |- _ =>
      destruct (decide (m = n)) as [->|]; [rewrite lookup_insert_eq in H|rewrite lookup_insert_ne in H by done]
  end.

(** A session that goes from a stage to the next *)
Lemma so_advance w g n md s s' i c ids ds :
  sessions_ok w -> streams w !! n = Some (md, Session s i c) -> s <> Left ->
  (forall c' i', ids !! c' = Some i' <-> if decide (c' = c) then s' = Streaming /\ i' = i else clientIdentities w !! c' = Some i') ->
  (forall c' i', (c', i') ∈ ds <-> if decide (c' = c) then (s' = Notified \/ s' = Left) /\ i' = i else (c', i') ∈ disconnects w) ->
  NoDup ds.*1 -> (stopped w = true -> s' = Left) -> sessions_ok (goto w g n md (Session s' i c) ids ds).
Proof.
  intros [Hu Ha Hi Hd Ho Hs] Hn Hl Hids Hds Hnd Hst. split; cbn.
  - intros n1 n2 x y c' H1 H2 Hx Hy. at_stream n; simplify_eq/=; try done; eauto.
  - intros n1 md1 s1 i1 c1 H1. at_stream n; simplify_eq; eauto.
  - intros c' i'. rewrite Hids. destruct (decide (c' = c)) as [->|Hne].
    + split; [intros [-> ->]; exists n, md; by rewrite lookup_insert_eq|].
      intros (m & md' & Hm). at_stream n; [by simplify_eq|]. by destruct (Hu m n _ _ c Hm Hn).
    + rewrite Hi. split; intros (m & md' & Hm); exists m, md'; at_stream n; simplify_eq; done.
  - intros c' i'. rewrite Hds. destruct (decide (c' = c)) as [->|Hne].
    + split; [intros [Hs' ->]; exists n, md, s'; by rewrite lookup_insert_eq|].
      intros (m & md' & s1 & Hm & Hs1). at_stream n; [by simplify_eq|]. by destruct (Hu m n _ _ c Hm Hn).
    + rewrite Hd. split; intros (m & md' & s1 & Hm & Hs1); exists m, md', s1; at_stream n; simplify_eq; done.
  - done.
  - intros E m md' s1 i1 c1 Hm. at_stream n; simplify_eq; eauto.
Qed.
(** A stream before its session *)
Lemma so_before w g n md ph ph0 :
  sessions_ok w -> (streams w !! n = None \/ streams w !! n = Some (md, ph0)) -> clientID_of ph0 = None -> clientID_of ph = None ->
  sessions_ok (goto w g n md ph (clientIdentities w) (disconnects w)).
Proof.
  intros [Hu Ha Hi Hd Ho Hs] Hn Hp0 Hp. split; cbn; [| | | |done|].
  - intros n1 n2 x y c' H1 H2 Hx Hy. at_stream n; simplify_eq/=; try done; [congruence..|eauto].
  - intros n1 md1 s1 i1 c1 H1. at_stream n; simplify_eq; eauto.
  - intros c' i'. rewrite Hi. split; intros (m & md' & Hm); exists m, md'; at_stream n; try done.
    + destruct Hn; congruence || (simplify_eq; done).
    + by simplify_eq.
  - intros c' i'. rewrite Hd. split; intros (m & md' & s1 & Hm & Hs1); exists m, md', s1; at_stream n; try done.
    + destruct Hn; congruence || (simplify_eq; done).
    + by simplify_eq.
  - intros E m md' s1 i1 c1 Hm. at_stream n; simplify_eq; eauto.
Qed.

(** A session that starts *)
Lemma so_register w g n md i c :
  sessions_ok w -> streams w !! n = Some (md, Entered) -> stopped w = false -> auth md = Ok i ->
  (forall m x, streams w !! m = Some x -> clientID_of (snd x) <> Some c) ->
  sessions_ok (goto w g n md (Session Registered i c) (clientIdentities w) (disconnects w)).
Proof.
  intros [Hu Ha Hi Hd Ho Hs] Hn Hst Hauth Hf. split; cbn; [| | | |done|congruence].
  - intros n1 n2 x y c' H1 H2 Hx Hy. at_stream n; simplify_eq/=;
      first [done|by destruct (Hf _ _ H1)|by destruct (Hf _ _ H2)|eauto].
  - intros n1 md1 s1 i1 c1 H1. at_stream n; simplify_eq; eauto.
  - intros c' i'. rewrite Hi. split; intros (m & md' & Hm); exists m, md'; at_stream n; simplify_eq; done.
  - intros c' i'. rewrite Hd. split; intros (m & md' & s1 & Hm & Hs1); exists m, md', s1; at_stream n; simplify_eq; naive_solver.
Qed.

(** A step that does not touch the streams *)
Lemma so_frame (w w' : worldT) :
  sessions_ok w -> streams w' = streams w -> clientIdentities w' = clientIdentities w -> disconnects w' = disconnects w ->
  (stopped w' = true -> stopped w = true \/ writable w) -> sessions_ok w'.
Proof.
  intros [Hu Ha Hi Hd Ho Hs] E1 E2 E3 E4. split; rewrite ?E1, ?E2, ?E3; try done.
  intros Hst n md s i c Hn. destruct (E4 Hst) as [Hw|[_ Hw]]; [eauto|].
  specialize (Hw _ _ _ Hn). cbn in Hw. apply bool_decide_eq_false in Hw. by apply dec_stable.
Qed.

Lemma so_id w n md s i c c' i' : sessions_ok w -> streams w !! n = Some (md, Session s i c) ->
  clientIdentities w !! c' = Some i' <-> if decide (c' = c) then s = Streaming /\ i' = i else clientIdentities w !! c' = Some i'.
Proof.
  intros Ho Hn. destruct (decide (c' = c)) as [->|]; [|done]. rewrite (so_ids _ Ho). split.
  - intros (m & md' & Hm). rewrite (so_unique _ Ho m n _ _ c Hm Hn) in Hm by done. by simplify_eq.
  - intros [-> ->]. by exists n, md.
Qed.

Lemma so_disconnect w n md s i c c' i' : sessions_ok w -> streams w !! n = Some (md, Session s i c) ->
  (c', i') ∈ disconnects w <-> if decide (c' = c) then (s = Notified \/ s = Left) /\ i' = i else (c', i') ∈ disconnects w.
Proof.
  intros Ho Hn. destruct (decide (c' = c)) as [->|]; [|done]. rewrite (so_disc _ Ho). split.
  - intros (m & md' & s' & Hm & ?). rewrite (so_unique _ Ho m n _ _ c Hm Hn) in Hm by done. by simplify_eq.
  - intros [? ->]. by exists n, md, s.
Qed.

Lemma so_step w w' : sessions_ok w -> proxies_ok w -> step auth w w' -> sessions_ok w'.
Proof.
  intros Ho Hp Hstep.
  assert (forall n md s i c, streams w !! n = Some (md, Session s i c) -> s <> Left -> stopped w = true -> False) as Hrun.
  { intros n md s i c Hn Hs Hst. by eapply Hs, so_stopped. }
  destruct Hstep; try (by eapply (so_before w _ _ _ _ Waiting); [done|left|..]);
    try (by eapply so_before; [done|right; eassumption|..]);
    try (by eapply so_frame; [done..|by left]).
  - by apply so_register.
  - eapply so_advance; try done; [| |by apply so_once|intros; by exfalso; eapply Hrun].
    + intros c' i'. rewrite lookup_insert_Some. destruct (decide (c' = c)) as [->|]; naive_solver.
    + intros c' i'. rewrite (so_disconnect _ _ _ _ _ _ _ _ Ho H). case_decide; naive_solver.
  - eapply so_advance; try done; [| |by apply so_once|intros; by exfalso; eapply Hrun].
    + intros c' i'. by apply (so_id w n md Streaming i c).
    + intros c' i'. by apply (so_disconnect w n md Streaming i c).
  - eapply so_advance; try done; [| |by apply so_once|intros; by exfalso; eapply Hrun].
    + intros c' i'. rewrite lookup_delete_Some. destruct (decide (c' = c)) as [->|]; naive_solver.
    + intros c' i'. rewrite (so_disconnect _ _ _ _ _ _ _ _ Ho H). case_decide; naive_solver.
  - eapply so_advance; try done; [| | |intros; by exfalso; eapply Hrun].
    + intros c' i'. rewrite (so_id _ _ _ _ _ _ _ _ Ho H). case_decide; naive_solver.
    + intros c' i'. rewrite elem_of_app, list_elem_of_singleton, (so_disconnect _ _ _ _ _ _ _ _ Ho H). case_decide; naive_solver.
    + rewrite fmap_app. apply NoDup_app. split; [by apply so_once|]. split; [|apply NoDup_singleton].
      intros c' ([c1 i1] & -> & Hin)%list_elem_of_fmap. cbn. rewrite list_elem_of_singleton. intros ->.
      rewrite (so_disconnect _ _ _ _ _ _ _ _ Ho H) in Hin. case_decide; naive_solver.
  - eapply so_advance; try done; [| |by apply so_once].
    + intros c' i'. rewrite (so_id _ _ _ _ _ _ _ _ Ho H). case_decide; naive_solver.
    + intros c' i'. rewrite (so_disconnect _ _ _ _ _ _ _ _ Ho H). case_decide; naive_solver.
  - pose proof (po_locked _ Hp H) as Hw. destruct (stopped w) eqn:E; (eapply so_frame; [done..|cbn; auto]).
Qed.

(** A step that keeps the clients, the state of their proxies, and the sessions *)
Lemma po_same (w w' : worldT) :
  proxies_ok w -> clients_ok (gate w') -> Gates.clients (gate w') = Gates.clients (gate w) ->
  (forall p, (fun cp => (Gates.cid cp, Gates.closed cp)) <$> Gates.proxies (gate w') !! p =
             (fun cp => (Gates.cid cp, Gates.closed cp)) <$> Gates.proxies (gate w) !! p) ->
  (forall n md s i c, streams w' !! n = Some (md, Session s i c) ->
     exists s0, streams w !! n = Some (md, Session s0 i c) /\ (s0 = Left -> s = Left)) ->
  (forall n md s i c, streams w !! n = Some (md, Session s i c) -> exists s', streams w' !! n = Some (md, Session s' i c)) ->
  (stop w' = Locked -> writable w') -> proxies_ok w'.
Proof.
  intros [Hc Hl Hcl Hus Hw] Hc' Ec Ep Hback Hforth Hw'.
  assert (forall p cp', Gates.proxies (gate w') !! p = Some cp' -> exists cp, Gates.proxies (gate w) !! p = Some cp /\
    Gates.cid cp = Gates.cid cp' /\ Gates.closed cp = Gates.closed cp') as Hpx.
  { intros p cp' Hp. specialize (Ep p). rewrite Hp in Ep. destruct (Gates.proxies (gate w) !! p) as [cp|]; [|done].
    exists cp. cbn in Ep. by simplify_eq. }
  split; [done| | | |done].
  - intros n md s i c Hn Hs. destruct (Hback _ _ _ _ _ Hn) as (s0 & Hn0 & H0). rewrite Ec. eapply Hl; [done|]. naive_solver.
  - intros p cp Hp Hcp n md s i Hn. destruct (Hpx _ _ Hp) as (cp0 & Hp0 & Eid & Hcl0).
    rewrite <-Eid in Hn. destruct (Hback _ _ _ _ _ Hn) as (s0 & Hn0 & H0). apply H0. eapply Hcl; [done|congruence|done].
  - intros p cp Hp. destruct (Hpx _ _ Hp) as (cp0 & Hp0 & <- & _). destruct (Hus _ _ Hp0) as (n & md & s & i & Hn).
    destruct (Hforth _ _ _ _ _ Hn) as [s' Hn']. by exists n, md, s', i.
Qed.

(** A stream that moves on while the gate stays as it is *)
Lemma po_goto w g n md ph ph0 ids ds :
  proxies_ok w -> clients_ok g -> Gates.clients g = Gates.clients (gate w) ->
  (forall p, (fun cp => (Gates.cid cp, Gates.closed cp)) <$> Gates.proxies g !! p =
             (fun cp => (Gates.cid cp, Gates.closed cp)) <$> Gates.proxies (gate w) !! p) ->
  streams w !! n = Some (md, ph0) \/ streams w !! n = None /\ ph = Waiting ->
  match ph with
  | Session s i c => s <> Left /\ exists s0, ph0 = Session s0 i c /\ s0 <> Left
  | _ => clientID_of ph0 = None
  end -> (holds ph = true -> holds ph0 = true \/ stop w <> Locked) -> proxies_ok (goto w g n md ph ids ds).
Proof.
  intros Hp Hc Ec Epx Hn Hph Hh. apply (po_same w); try done; cbn.
  - intros m md1 s i c Hm. at_stream n; [|by exists s]. simplify_eq. destruct Hph as (Hs & s0 & -> & Hs0).
    destruct Hn as [Hn|[_ ?]]; [|done]. by exists s0.
  - intros m md1 s i c Hm. at_stream n; [|by exists s]. destruct Hn as [Hn|[Hn _]]; [|congruence]. simplify_eq.
    destruct ph as [| |s1 i1 c1|]; try done. destruct Hph as (_ & s0 & [= -> -> ->] & _). by exists s1.
  - intros E. destruct (po_locked _ Hp E) as [Hcalls Hw]. split; [done|]. cbn. intros m md1 ph1 Hm. at_stream n; [|eauto].
    simplify_eq. destruct (holds ph1) eqn:E1; [|done]. destruct Hn as [Hn|[_ ->]]; [|done].
    destruct (Hh eq_refl) as [H1|]; [|done]. by rewrite (Hw _ _ _ Hn) in H1.
Qed.

Lemma po_register w n md i uid p ids ds :
  proxies_ok w -> streams w !! n = Some (md, Entered) -> Gates.proxies (gate w) !! p = None ->
  (forall m x, streams w !! m = Some x -> clientID_of (snd x) <> Some (snd (Gates.Register (gate w) uid p))) ->
  proxies_ok (goto w (fst (Gates.Register (gate w) uid p)) n md (Session Registered i (snd (Gates.Register (gate w) uid p))) ids ds).
Proof.
  intros [Hc Hl Hcl Hus Hw] Hn Hp Hf. cbn in Hf. split; cbn.
  - by apply clients_ok_register.
  - intros m md1 s i1 c Hm Hs. apply lookup_insert_is_Some'. at_stream n; [simplify_eq; by left|]. right. eauto.
  - intros q cp Hq Hcp m md1 s i1 Hm. apply lookup_insert_Some in Hq as [[<- <-]|[_ Hq]]; [done|].
    at_stream n; [|eauto]. simplify_eq. destruct (Hus _ _ Hq) as (m & md2 & s2 & i2 & Hm). destruct (Hf _ _ Hm). cbn. congruence.
  - intros q cp Hq. apply lookup_insert_Some in Hq as [[<- <-]|[_ Hq]].
    + exists n, md, Registered, i. by rewrite lookup_insert_eq.
    + destruct (Hus _ _ Hq) as (m & md2 & s2 & i2 & Hm). exists m, md2, s2, i2. at_stream n; [congruence|done].
  - intros E. destruct (Hw E) as [_ Hw']. by specialize (Hw' _ _ _ Hn).
Qed.

Lemma po_unregister w n md i c ids ds :
  sessions_ok w -> proxies_ok w -> streams w !! n = Some (md, Session Notified i c) ->
  proxies_ok (goto w (Gates.Unregister (gate w) c) n md (Session Left i c) ids ds).
Proof.
  intros Ho [Hc Hl Hcl Hus Hw] Hn. destruct (Hl _ _ _ _ _ Hn) as [p Hp]; [done|].
  destruct (client_open _ Hc _ _ Hp) as (cp & Hcp & Hid & Hop). split; cbn.
  - by apply clients_ok_unregister.
  - intros m md1 s i1 c1 Hm Hs. unfold Gates.Unregister. rewrite Hp. cbn. at_stream n; [by simplify_eq|].
    rewrite lookup_delete_ne; [eauto|]. intros <-. by destruct (so_unique _ Ho m n _ _ c Hm Hn).
  - intros q cq Hq Hcq m md1 s i1 Hm. unfold Gates.Unregister in Hq. rewrite Hp in Hq. cbn in Hq.
    at_stream n; [by simplify_eq|]. destruct (decide (q = p)) as [->|].
    + rewrite lookup_alter_eq, Hcp in Hq. injection Hq as <-. unfold Gates.Close in Hm. rewrite Hop in Hm. cbn in Hm.
      rewrite Hid in Hm. by destruct (so_unique _ Ho m n _ _ c Hm Hn).
    + rewrite lookup_alter_ne in Hq by done. eauto.
  - intros q cq Hq. unfold Gates.Unregister in Hq. rewrite Hp in Hq. cbn in Hq.
    assert (exists cq0, Gates.proxies (gate w) !! q = Some cq0 /\ Gates.cid cq0 = Gates.cid cq) as (cq0 & Hq0 & <-).
    { destruct (decide (q = p)) as [->|]; [|rewrite lookup_alter_ne in Hq by done; eauto].
      rewrite lookup_alter_eq, Hcp in Hq. injection Hq as <-. exists cp. unfold Gates.Close. by rewrite Hop. }
    destruct (Hus _ _ Hq0) as (m & md2 & s2 & i2 & Hm). destruct (decide (m = n)) as [->|].
    + exists n, md, Left, i. rewrite lookup_insert_eq. congruence.
    + exists m, md2, s2, i2. by rewrite lookup_insert_ne.
  - intros E. destruct (Hw E) as [_ Hw']. by specialize (Hw' _ _ _ Hn).
Qed.

(** [Stop] of the gate, with all sessions over *)
Lemma po_stop w served' stopped' gone' :
  proxies_ok w -> stop w = Locked ->
  proxies_ok (mkWorld (Gates.Stop (gate w)) (streams w) (clientIdentities w) (calls w) served' Returned stopped' gone' (disconnects w)).
Proof.
  intros [Hc Hl Hcl Hus Hw] E. destruct (Hw E) as [_ Hw'].
  assert (forall n md s i c, streams w !! n = Some (md, Session s i c) -> s = Left) as Hleft.
  { intros n md s i c Hn. specialize (Hw' _ _ _ Hn). cbn in Hw'. apply bool_decide_eq_false in Hw'. by apply dec_stable. }
  split; cbn; [by apply clients_ok_stop| | | |done].
  - intros n md s i c Hn Hs. by destruct Hs; eapply Hleft.
  - eauto.
  - intros q cq. rewrite lookup_closeAll. intros (cq0 & Hq0 & ->)%fmap_Some. destruct (Hus _ _ Hq0) as (m & md & s & i & Hm).
    exists m, md, s, i. case_bool_decide; [|done]. unfold Gates.Close. by destruct (Gates.closed cq0).
Qed.

Lemma po_push w g p m : proxies_ok w -> Gates.push (gate w) p m = Some g ->
  proxies_ok (mkWorld g (streams w) (clientIdentities w) (calls w) (served w) (stop w) (stopped w) (gone w) (disconnects w)).
Proof.
  intros Hp Hg. pose proof (push_spec _ _ _ _ Hg) as (Ec & _ & _ & Eq & Epp).
  apply (po_same w); cbn; try done; [by eapply clients_ok_push; [apply Hp|]| |by eauto..|by apply Hp].
  intros q. destruct (decide (q = p)) as [->|]; [|by rewrite Eq]. rewrite Epp. by destruct (Gates.proxies (gate w) !! p).
Qed.

Lemma po_step w w' : sessions_ok w -> proxies_ok w -> step auth w w' -> proxies_ok w'.
Proof.
  intros Ho Hp Hstep. pose proof (po_clients _ Hp) as Hc.
  assert (readable w -> stop w <> Locked) as Hread by (intros [E|E]; by rewrite E).
  destruct Hstep;
    try (by eapply (po_goto _ _ _ _ _ Waiting); [done..|right|done|auto]);
    try (by eapply po_goto; [done..|by left|done|auto]).
  - by apply po_register.
  - eapply po_goto; [done..|by left|split; [done|by exists Registered]|by left].
  - eapply po_goto; [done|by eapply clients_ok_read|done| |by left|split; [done|by exists Streaming]|by left].
    intros q. cbn. destruct (decide (q = p)) as [->|]; [by rewrite lookup_insert_eq, H1|by rewrite lookup_insert_ne].
  - eapply po_goto; [done..|by left|split; [done|by exists Streaming]|by left].
  - eapply po_goto; [done..|by left|split; [done|by exists Forgotten]|by left].
  - by apply po_unregister.
  - by eapply po_push.
  - apply (po_same w); cbn; try done; eauto. apply Hp.
  - apply (po_same w); cbn; try done; eauto. intros E. by destruct (Hread H0).
  - apply (po_same w); cbn; try done; eauto. intros E. destruct (po_locked _ Hp E) as [E1 E2]. split; [cbn; set_solver|done].
  - apply (po_same w); cbn; try done; eauto.
  - apply (po_same w); cbn; try done; eauto.
  - destruct (stopped w); [apply (po_same w); cbn; try done; eauto|by apply po_stop].
Qed.

Lemma reachable_ok addr w : reachable auth addr w -> sessions_ok w /\ proxies_ok w.
Proof.
  intros Hr. assert (sessions_ok (initial (Any := Any) addr) /\ proxies_ok (initial addr)) as Hi.
  { split; split; cbn; try (by intros; simplify_map_eq).
    - intros c i. rewrite lookup_empty. split; [done|]. intros (n & md & Hn). by rewrite lookup_empty in Hn.
    - intros c i. split; [by intros ?%elem_of_nil|]. intros (n & md & s & Hn & _). by rewrite lookup_empty in Hn.
    - constructor. }
  unfold reachable in Hr. induction Hr as [|w1 w2 w3 Hs _ IH]; [done|]. apply IH.
  destruct Hi. split; [by eapply so_step|by eapply po_step].
Qed.

(** While [Stop] waits for the mutex and the client of a streaming session stays, the session goes on. *)
Lemma stop_waits_step w w' n md i c :
  sessions_ok w -> proxies_ok w -> stop w = Locking -> stopped w = false ->
  streams w !! n = Some (md, Session Streaming i c) -> step auth w w' -> n ∉ gone w' ->
  stop w' = Locking /\ stopped w' = false /\ streams w' !! n = Some (md, Session Streaming i c) /\ served w' = served w /\ n ∉ gone w.
Proof.
  intros Ho Hp Hl Hst Hn Hstep Hg.
  assert (~ readable w) as Hr by (intros [E|E]; by rewrite E in Hl).
  destruct Hstep; cbn in *; try done; try congruence;
    try (destruct (decide (n = n0)) as [<-|]; [congruence|by rewrite lookup_insert_ne]).
  - destruct (decide (n = n0)) as [<-|]; [rewrite lookup_insert_eq; by simplify_eq|by rewrite lookup_insert_ne].
  - destruct (decide (n = n0)) as [<-|]; [|by rewrite lookup_insert_ne].
    destruct H0 as [?|(p & cp & Hcp & Hid & Hcl & _)]; [done|]. simplify_eq. by specialize (po_closed _ Hp _ _ Hcp Hcl _ _ _ _ Hn).
  - set_solver.
  - destruct H0 as [_ Hw]. by specialize (Hw _ _ _ Hn).
Qed.

End Invariants.

(** ** Properties *)

(** C32: the gate's table of identities is that of its connected clients.  In every reachable state, a client id has an
    identity in [clientIdentities] exactly when a [Register] stream of that client is being served; the
    identity is the one the event handler returned for the metadata of that stream, and the client's proxy is
    filed and open.  [OnClientDisconnect] is called once for each session that ends, with its identity.
    Once the server has stopped the table is empty. *)
Theorem session_identity_exact {Any : Type} (auth : MD -> result string (option CallerIdentity)) (addr : string) (w : world (Any := Any)) :
  reachable auth addr w ->
  (forall c i, clientIdentities w !! c = Some i <-> exists n md, streams w !! n = Some (md, Session Streaming i c)) /\
  (forall n md i c, streams w !! n = Some (md, Session Streaming i c) -> auth md = Ok i /\
     exists p cp, Gates.GetClient (gate w) c = Some p /\ Gates.proxies (gate w) !! p = Some cp /\
       Gates.cid cp = c /\ Gates.closed cp = false) /\
  NoDup (disconnects w).*1 /\
  (forall c i, (c, i) ∈ disconnects w <->
     exists n md s, streams w !! n = Some (md, Session s i c) /\ (s = Notified \/ s = Left)) /\
  (stopped w = true -> clientIdentities w = ∅).
Proof.
  intros Hr. destruct (reachable_ok _ _ _ Hr) as [Ho Hp]. split; [apply Ho|]. split; [|split; [apply Ho|split; [apply Ho|]]].
  - intros n md i c Hn. split; [by eapply so_auth|]. destruct (po_live _ Hp _ _ _ _ _ Hn) as [p Hc]; [done|].
    destruct (client_open _ (po_clients _ Hp) _ _ Hc) as (cp & ? & ? & ?). by exists p, cp.
  - intros Hst. apply map_empty. intros c. destruct (clientIdentities w !! c) as [i|] eqn:E; [|done].
    apply (so_ids _ _ Ho) in E as (n & md & Hn). by specialize (so_stopped _ _ Ho Hst _ _ _ _ _ Hn).
Qed.

(** [Stop] waits for the clients, and no call is served meanwhile.  Once [Stop] has asked for the mutex,
    as long as the client of one [Register] stream stays connected, however the program goes on: [Stop] does not
    get the mutex, so it neither marks the server as stopped nor stops the gRPC server, which would end the
    stream; and no call of any client is served, since the waiting writer keeps the readers out. *)
Theorem Stop_waits_for_clients {Any : Type} (auth : MD -> result string (option CallerIdentity)) (addr : string)
    (w w' : world (Any := Any)) (n : nat) (md : MD) (i : option CallerIdentity) (c : string) :
  reachable auth addr w -> stop w = Locking -> stopped w = false -> streams w !! n = Some (md, Session Streaming i c) ->
  rtc (step auth) w w' -> n ∉ gone w' ->
  stop w' = Locking /\ stopped w' = false /\ streams w' !! n = Some (md, Session Streaming i c) /\ served w' = served w.
Proof.
  intros Hr Hl Hst Hn Hs. destruct (reachable_ok _ _ _ Hr) as [Ho Hp]. clear Hr.
  assert (n ∉ gone w' -> stop w' = Locking /\ stopped w' = false /\
    streams w' !! n = Some (md, Session Streaming i c) /\ served w' = served w /\ n ∉ gone w) as Hgoal; [|naive_solver].
  induction Hs as [w|w1 w2 w3 Hs Hrest IH]; intros Hg; [done|].
  assert (sessions_ok auth w2 /\ proxies_ok w2) as [Ho2 Hp2] by (split; [by eapply so_step|by eapply po_step]).
  assert (n ∉ gone w2) as Hg2.
  { clear -Hrest Hg. induction Hrest as [|a b d Hab _ IHr]; [done|]. specialize (IHr Hg).
    destruct Hab; cbn in *; try done; [set_solver|]. destruct (stopped a); [done|]. set_solver. }
  destruct (stop_waits_step _ _ _ _ _ _ _ Ho Hp Hl Hst Hn Hs Hg2) as (E1 & E2 & E3 & E4 & E5).
  destruct (IH E1 E2 E3 Ho2 Hp2 Hg) as (F1 & F2 & F3 & F4 & _). by rewrite F4.
Qed.

(** ** Witnesses *)

Definition any_user (_ : MD) : result string (option CallerIdentity) := Ok (Some (mkCaller "alice" [])).
Definition alice : option CallerIdentity := Some (mkCaller "alice" []).

(** A client's stream, and then a call of [Stop] *)
Definition w_streaming (st : stop_phase) : world (Any := string) :=
  mkWorld (fst (Gates.Register (Gates.mkGate "g:1" ∅ ∅ ∅ ∅) "u1" 0)) {[ 0 := (∅, Session Streaming alice "g:1/u1") ]}
    {[ "g:1/u1" := alice ]} ∅ 0 st false ∅ [].

Lemma w_streaming_reachable : reachable any_user "g:1" (w_streaming NotStopping).
Proof.
  eapply rtc_l; [apply (S_arrive _ _ 0 ∅); done|]. eapply rtc_l; [eapply (S_rlock _ _ 0 ∅); [done|by left]|].
  eapply rtc_l; [eapply (S_register _ _ 0 ∅ alice "u1" 0); [done..|]|].
  { intros m x. cbn. intros Hm. apply lookup_insert_Some in Hm as [[_ <-]|[_ Hm]]; [done|].
    apply lookup_insert_Some in Hm as [[_ <-]|[_ Hm]]; [done|]. by rewrite lookup_empty in Hm. }
  eapply rtc_l; [eapply (S_store _ _ 0 ∅ alice); done|]. vm_compute. apply rtc_refl.
Qed.

Lemma session_identity_exact_witness :
  clientIdentities (w_streaming NotStopping) !! "g:1/u1" = Some alice /\
  exists p, Gates.GetClient (gate (w_streaming NotStopping)) "g:1/u1" = Some p.
Proof.
  destruct (session_identity_exact any_user "g:1" (w_streaming NotStopping) w_streaming_reachable) as (_ & H & _).
  destruct (H 0%nat ∅ alice "g:1/u1" eq_refl) as (_ & p & _ & Hp & _). split; [reflexivity|]. exists p. exact Hp.
Defined.

Lemma Stop_waits_for_clients_witness :
  exists w', rtc (step any_user) (w_streaming Locking) w' /\ streams w' !! 1 = Some (∅, Waiting) /\ stop w' = Locking /\ served w' = 0.
Proof.
  assert (reachable any_user "g:1" (w_streaming Locking)) as Hr.
  { eapply rtc_r; [apply w_streaming_reachable|]. apply S_stop. by left. }
  assert (rtc (step any_user) (w_streaming Locking)
    (goto (w_streaming Locking) (gate (w_streaming Locking)) 1 ∅ Waiting {[ "g:1/u1" := alice ]} [])) as Hs.
  { apply rtc_once. by apply (S_arrive any_user (w_streaming Locking) 1 ∅). }
  destruct (Stop_waits_for_clients any_user "g:1" (w_streaming Locking) _ 0 ∅ alice "g:1/u1" Hr
    eq_refl eq_refl eq_refl Hs) as (H1 & _ & _ & H2); [set_solver|].
  eexists. split; [exact Hs|]. split; [reflexivity|]. split; [exact H1|exact H2].
Defined.
