(* ===== verification/Startup.v ===== *)
(** * From a configuration to running processes

    [Module PgConf] (util/postgres/config.go, db.go): the connection settings of PostgreSQL.
    [Module Startup] (server/server.go: NewServer, cluster/cluster.go: NewClusterWithNode and
    NewClusterWithGate, gate/gateserver/gateserver.go: NewGateServer): how a process is put together.
    [Module NodeLoader] (node/serverconfig), [Module GateLoader] (cmd/gate/gateconfig): flags and the
    configuration file.  [Module ClusterInfo] (cluster/clusterinfo.go): which members are configured and alive.

    The outside world is an [env]: what opening and pinging the database, looking up its tables, creating
    the etcd client, reading the file and decoding its YAML answer.  Resources are visible in a list of
    [effect]s.  Loggers are not modelled. *)

From S2P Require Import Prelude GoStrings GoFloat ObjectId Persistence Object ReliableCalls AccessControl ClusterConfig Node.
From S2P Require Import Gate ConsensusState Cluster EtcdManager InspectorManager CallContext Server GateServer.
Import Float64.

Module PgConf.
Open Scope go_scope.

Definition DefaultMaxOpenConns : Z := 25.
Definition DefaultMaxIdleConns : Z := 5.

Record Config : Type := mkConfig {
  Host : string; Port : Z; User : string; Password : string; Database : string; SSLMode : string;
  MaxOpenConns : Z; MaxIdleConns : Z
}.

(** [DefaultConfig] *)
Definition DefaultConfig : Config := mkConfig "localhost" 5432 "goverse" "goverse" "goverse" "disable" 0 0.

(** [ConnectionString] *)
Definition ConnectionString (c : Config) : string :=
  "host=" +:+ Host c +:+ " port=" +:+ Itoa (Port c) +:+ " user=" +:+ User c +:+ " password=" +:+ Password c
    +:+ " dbname=" +:+ Database c +:+ " sslmode=" +:+ SSLMode c.

(** [Validate]: the error, or the configuration with the default of [SSLMode] *)
Definition Validate (c : Config) : result string Config :=
  guard! bool_decide (Host c <> "") else "host is required" ;;
  guard! negb (Port c <=? 0)%Z else "port must be positive" ;;
  guard! bool_decide (User c <> "") else "user is required" ;;
  guard! bool_decide (Database c <> "") else "database is required" ;;
  Ok (mkConfig (Host c) (Port c) (User c) (Password c) (Database c)
        (if bool_decide (SSLMode c = "") then "disable" else SSLMode c) (MaxOpenConns c) (MaxIdleConns c)).

(** [DB]: the settings of the pool; [SetMaxIdleConns] of database/sql keeps the idle limit under the open one *)
Record DB : Type := mkDB { config : Config; maxOpen : Z; maxIdle : Z }.

(** [NewDB]: [sqlOpen] is what [sql.Open] answers to the connection string *)
Definition NewDB (sqlOpen : string -> result string ()) (c : Config) : result string DB :=
  c <-? Validate c ;;
  _ <-? sqlOpen (ConnectionString c) ;;
  let maxOpen := if (MaxOpenConns c <=? 0)%Z then DefaultMaxOpenConns else MaxOpenConns c in
  let maxIdle := if (MaxIdleConns c <=? 0)%Z then DefaultMaxIdleConns else MaxIdleConns c in
  Ok (mkDB c maxOpen (Z.min maxIdle maxOpen)).

End PgConf.

Module Startup.
Import Access Consensus.
Open Scope go_scope.

(** What the outside world answers *)
Record env : Type := mkEnv {
  sqlOpen : string -> result string ();        (* by connection string *)
  ping : result string ();
  tables : result string bool;                 (* whether both tables of goverse exist *)
  dialEtcd : string -> result string ()        (* by endpoint *)
}.

Inductive effect : Type :=
| NewContext | CancelContext                   (* the context of the process *)
| OpenDB | CloseDB
| OpenEtcd.
#[global] Instance effect_eq_dec : EqDecision effect.
Proof. solve_decision. Defined.

Record ServerConfig : Type := mkServerConfig {
  ListenAddress : string;
  AdvertiseAddress : string;
  MetricsListenAddress : string;
  EtcdAddress : string;
  EtcdPrefix : string;
  MinQuorum : Z;
  NodeStabilityDuration : Z;
  ShardMappingCheckInterval : Z;
  NumShards : Z;
  InspectorAddress : string;
  AccessValidator : option (list CompiledRule);
  LifecycleValidator : option (list CompiledLifecycleRule);
  AutoLoadObjects : list Conf.AutoLoadObjectConfig;
  DefaultCallTimeout : Z;
  DefaultCreateTimeout : Z;
  DefaultDeleteTimeout : Z;
  StuckShardReallocationTimeout : Z;
  ConfigFile : option Conf.Config
}.

(** [validateServerConfig]: the error, or the configuration with its default; [None] is a nil pointer *)
Definition validateServerConfig (config : option ServerConfig) : result string ServerConfig :=
  match config with
  | None => Err "config cannot be nil"
  | Some c =>
      guard! bool_decide (ListenAddress c <> "") else "ListenAddress cannot be empty" ;;
      guard! bool_decide (AdvertiseAddress c <> "") else "AdvertiseAddress cannot be empty" ;;
      Ok (mkServerConfig (ListenAddress c) (AdvertiseAddress c) (MetricsListenAddress c)
            (if bool_decide (EtcdAddress c = "") then "localhost:2379" else EtcdAddress c) (EtcdPrefix c) (MinQuorum c)
            (NodeStabilityDuration c) (ShardMappingCheckInterval c) (NumShards c) (InspectorAddress c) (AccessValidator c)
            (LifecycleValidator c) (AutoLoadObjects c) (DefaultCallTimeout c) (DefaultCreateTimeout c) (DefaultDeleteTimeout c)
            (StuckShardReallocationTimeout c) (ConfigFile c))
  end.

(** [preflightGoverseSchema] *)
Definition preflightGoverseSchema (e : env) : result string () :=
  match tables e with
  | Err m => Err ("check schema: " +:+ m)
  | Ok ready => guard! ready else "goverse schema not initialized" ;; Ok tt
  end.

(** [openPostgresPersistence] *)
Definition openPostgresPersistence (e : env) (pgCfg : Conf.PostgresConfig) : list effect * result string PgConf.DB :=
  let sslMode := if bool_decide (Conf.SSLMode pgCfg = "") then "disable" else Conf.SSLMode pgCfg in
  let dbCfg := PgConf.mkConfig (Conf.Host pgCfg) (Conf.Port pgCfg) (Conf.User pgCfg) (Conf.Password pgCfg)
                 (Conf.Database pgCfg) sslMode (Conf.MaxOpenConns pgCfg) (Conf.MaxIdleConns pgCfg) in
  match PgConf.NewDB (sqlOpen e) dbCfg with
  | Err m => ([], Err ("open database: " +:+ m))
  | Ok db =>
      match ping e with
      | Err m => ([OpenDB; CloseDB], Err ("ping database: " +:+ m))
      | Ok _ =>
          match preflightGoverseSchema e with
          | Err m => ([OpenDB; CloseDB], Err m)
          | Ok _ => ([OpenDB], Ok db)
          end
      end
  end.

(** [createAndConnectEtcdManager]: [Close] on a manager without a client does nothing *)
Definition createAndConnectEtcdManager (e : env) (etcdAddress etcdPrefix : string)
    : list effect * result string EtcdManagers.EtcdManager :=
  let mgr := EtcdManagers.NewEtcdManager etcdPrefix in
  match dialEtcd e etcdAddress with
  | Err m => ([], Err ("failed to connect to etcd: " +:+ m))
  | Ok _ => ([OpenEtcd], Ok (EtcdManagers.Connect mgr))
  end.

Section Processes.
Context {St Msg Data Any P : Type} `{PersistenceProvider P}.
Abbreviation nodeT := (Nodes.Node (St := St) (Msg := Msg) (Data := Data) (P := P)).
Abbreviation clusterT := (Clusters.Cluster (St := St) (Msg := Msg) (Data := Data) (P := P)).

(** [Cluster]: the fields set at construction, around the part of Cluster.v that routes calls.
    [shardLock] is the number of shards of the shard lock. *)
Record Cluster : Type := mkCluster {
  routing : clusterT;
  etcdMgr : EtcdManagers.EtcdManager;
  etcdAddress : string;
  etcdPrefix : string;
  minQuorum : Z;
  numShards : Z;
  shardMappingCheckInterval : Z;
  shardLock : Z
}.

Definition DefaultNodeStabilityDuration : Z := 10 * ClusterConf.Second.
Definition defaultInterval : Z := 5 * ClusterConf.Second.

(** The consensus manager that [init] creates *)
Definition initConsensus (cfg : ClusterConf.Config) (addr : string) (shards : Z) : ConsensusManager :=
  let stabilityDuration := if (ClusterConf.ClusterStateStabilityDuration cfg <=? 0)%Z then DefaultNodeStabilityDuration
                           else ClusterConf.ClusterStateStabilityDuration cfg in
  let cm := NewConsensusManager true stabilityDuration addr shards in
  let cm := if (0 <? ClusterConf.MinQuorum cfg)%Z then SetMinQuorum cm (ClusterConf.MinQuorum cfg) else cm in
  let cm := if (0 <? ClusterConf.RebalanceShardsBatchSize cfg)%Z
            then SetRebalanceShardsBatchSize cm (ClusterConf.RebalanceShardsBatchSize cfg) else cm in
  let cm := if bool_decide (SpecFloat.SFcompare f0 (ClusterConf.ImbalanceThreshold cfg) = Some Lt)
            then SetImbalanceThreshold cm (ClusterConf.ImbalanceThreshold cfg) else cm in
  if (0 <? ClusterConf.StuckShardReallocationTimeout cfg)%Z
  then SetStuckShardTimeout cm (ClusterConf.StuckShardReallocationTimeout cfg) else cm.

(** [NewClusterWithNode] and [NewClusterWithGate] with [init]: the cluster of a node, or of a gate at an
    address *)
Definition newCluster (e : env) (cfg : ClusterConf.Config) (n : option nodeT) (g : option string)
    : list effect * result string Cluster :=
  let shards := if (ClusterConf.NumShards cfg <=? 0)%Z then Sharding.NumShards else ClusterConf.NumShards cfg in
  let addr := match n, g with Some n, _ => Nodes.advertiseAddress n | None, Some a => a | None, None => "" end in
  let '(fx, r) := createAndConnectEtcdManager e (ClusterConf.EtcdAddress cfg) (ClusterConf.EtcdPrefix cfg) in
  (fx, mgr <-? r ;;
       Ok (mkCluster (Clusters.mkCluster (initConsensus cfg addr shards) n g ∅ cfg false None) mgr
             (ClusterConf.EtcdAddress cfg) (ClusterConf.EtcdPrefix cfg) (ClusterConf.MinQuorum cfg) shards
             (ClusterConf.ShardMappingCheckInterval cfg) shards)).
Definition NewClusterWithNode (e : env) (cfg : ClusterConf.Config) (n : nodeT) := newCluster e cfg (Some n) None.
Definition NewClusterWithGate (e : env) (cfg : ClusterConf.Config) (g : Gates.Gate (Any := Any)) :=
  newCluster e cfg None (Some (Gates.advertiseAddress g)).

(** [getEffectiveMinQuorum], [getEffectiveShardMappingCheckInterval] *)
Definition getEffectiveMinQuorum (c : Cluster) : Z := if (minQuorum c <=? 0)%Z then 1 else minQuorum c.
Definition getEffectiveShardMappingCheckInterval (c : Cluster) : Z :=
  if (shardMappingCheckInterval c <=? 0)%Z then defaultInterval else shardMappingCheckInterval c.

(** [Cluster.String] *)
Definition String (c : Cluster) : string :=
  let clusterType := if Clusters.isNode (routing c) then "node" else if Clusters.isGate (routing c) then "gate" else "unknown" in
  let role := if Clusters.IsLeader (routing c) then "leader" else "member" in
  "Cluster<" +:+ Clusters.getAdvertiseAddr (routing c) +:+ "," +:+ clusterType +:+ "," +:+ role +:+ ",quorum="
    +:+ Itoa (getEffectiveMinQuorum c) +:+ ">".

(** ** A node process *)

Record Server : Type := mkServer {
  server : Servers.Server (St := St) (Msg := Msg) (Data := Data) (P := P);
  sConfig : ServerConfig;
  cluster : Cluster;
  inspector : InspectorMgr.InspectorManager;
  postgresDB : option PgConf.DB
}.

(** Go's [if v > 0 { field = v }] *)
Definition orKeep (v d : Z) : Z := if (0 <? v)%Z then v else d.

(** The cluster configuration that [NewServer] builds *)
Definition clusterConfigOf (c : ServerConfig) : ClusterConf.Config :=
  let d := ClusterConf.DefaultConfig in
  ClusterConf.mkConfig (EtcdAddress c) (EtcdPrefix c)
    (orKeep (MinQuorum c) (ClusterConf.MinQuorum d))
    (orKeep (NodeStabilityDuration c) (ClusterConf.ClusterStateStabilityDuration d))
    (orKeep (ShardMappingCheckInterval c) (ClusterConf.ShardMappingCheckInterval d))
    (orKeep (NumShards c) (ClusterConf.NumShards d))
    (ClusterConf.RebalanceShardsBatchSize d)
    (ClusterConf.ImbalanceThreshold d)
    (orKeep (StuckShardReallocationTimeout c) (ClusterConf.StuckShardReallocationTimeout d))
    (if bool_decide (AutoLoadObjects c = []) then ClusterConf.AutoLoadObjects d else AutoLoadObjects c)
    (orKeep (DefaultCallTimeout c) (ClusterConf.DefaultCallTimeout d))
    (orKeep (DefaultCreateTimeout c) (ClusterConf.DefaultCreateTimeout d))
    (orKeep (DefaultDeleteTimeout c) (ClusterConf.DefaultDeleteTimeout d))
    (match ConfigFile c with Some f => Some f | None => ClusterConf.ConfigFile d end).

(** Whether the configuration file names a database *)
Definition wantsPostgres (c : ServerConfig) : option Conf.PostgresConfig :=
  match ConfigFile c with
  | Some cfg => if bool_decide (Conf.Host (Conf.Postgres cfg) <> "") || bool_decide (Conf.Database (Conf.Postgres cfg) <> "")
                then Some (Conf.Postgres cfg) else None
  | None => None
  end.

(** The node that [NewServer] creates: it has a persistence provider when a database is open *)
Definition newNode (c : ServerConfig) (db : option PgConf.DB) (store : P) : nodeT :=
  let shards := if (NumShards c <=? 0)%Z then 8192%Z else NumShards c in
  let n := Nodes.NewNode (AdvertiseAddress c) shards store in
  let n := match db with Some _ => Nodes.SetPersistenceProvider n true | None => n end in
  match LifecycleValidator c with Some v => Nodes.SetLifecycleValidator n (Some v) | None => n end.

(** [NewServer]; [store] is the database that a provider will use.  [SetShardLock] and
    [SetClusterInfoProvider] of [init] tie the node to its cluster, which this record does by itself. *)
Definition NewServer (e : env) (store : P) (config : option ServerConfig) : list effect * result string Server :=
  match validateServerConfig config with
  | Err m => ([], Err ("invalid server configuration: " +:+ m))
  | Ok c =>
      let '(fx, pg) := match wantsPostgres c with
                       | None => ([], Ok None)
                       | Some pgCfg => let '(fx, r) := openPostgresPersistence e pgCfg in (fx, db <-? r ;; Ok (Some db))
                       end in
      match pg with
      | Err m => ([NewContext] ++ fx ++ [CancelContext], Err ("failed to set up Postgres persistence: " +:+ m))
      | Ok db =>
          let n := newNode c db store in
          let im := InspectorMgr.NewInspectorManager (AdvertiseAddress c) "" in
          let im := if bool_decide (InspectorAddress c <> "") then InspectorMgr.SetInspectorAddress im (InspectorAddress c) else im in
          let '(fx2, r) := NewClusterWithNode e (clusterConfigOf c) n in
          match r with
          | Err m => ([NewContext] ++ fx ++ fx2 ++ match db with Some _ => [CloseDB] | None => [] end ++ [CancelContext],
                      Err ("failed to initialize cluster: " +:+ m))
          | Ok cl => ([NewContext] ++ fx ++ fx2,
                      Ok (mkServer (Servers.mkServer n (Some (Clusters.consensusManager (routing cl))) (AccessValidator c)) c cl im db))
          end
      end
  end.

(** ** A gate process *)

(** [GateServerConfig]; [EventHandler] is whether one is set *)
Record GateServerConfig : Type := mkGateServerConfig {
  gListenAddress : string;
  gAdvertiseAddress : string;
  gHTTPListenAddress : string;
  gOpsListenAddress : string;
  gEtcdAddress : string;
  gEtcdPrefix : string;
  gNumShards : Z;
  gInspectorAddress : string;
  gStabilityDuration : Z;
  gDefaultCallTimeout : Z;
  gDefaultDeleteTimeout : Z;
  gDefaultCreateTimeout : Z;
  gAccessValidator : option (list CompiledRule);
  gLifecycleValidator : option (list CompiledLifecycleRule);
  gEventHandler : bool;
  gConfigFile : option Conf.Config
}.

Definition orDefault (d : Z) : Z := if (d <=? 0)%Z then (30 * ClusterConf.Second)%Z else d.

(** [validateConfig]: the error, or the configuration with its defaults; [None] is a nil pointer *)
Definition validateConfig (config : option GateServerConfig) : result string GateServerConfig :=
  match config with
  | None => Err "config cannot be nil"
  | Some c =>
      guard! bool_decide (gListenAddress c <> "") else "ListenAddress cannot be empty" ;;
      guard! bool_decide (gAdvertiseAddress c <> "") else "AdvertiseAddress cannot be empty" ;;
      guard! bool_decide (gEtcdAddress c <> "") else "EtcdAddress cannot be empty" ;;
      Ok (mkGateServerConfig (gListenAddress c) (gAdvertiseAddress c) (gHTTPListenAddress c) (gOpsListenAddress c) (gEtcdAddress c)
            (if bool_decide (gEtcdPrefix c = "") then "/goverse" else gEtcdPrefix c) (gNumShards c) (gInspectorAddress c)
            (gStabilityDuration c) (orDefault (gDefaultCallTimeout c)) (orDefault (gDefaultDeleteTimeout c))
            (orDefault (gDefaultCreateTimeout c)) (gAccessValidator c) (gLifecycleValidator c) (gEventHandler c) (gConfigFile c))
  end.

Record GateServer : Type := mkGateServer {
  handlers : GateServers.GateServer (St := St) (Msg := Msg) (Data := Data) (P := P);
  gsConfig : GateServerConfig;
  gate : Gates.Gate (Any := Any);
  gInspector : InspectorMgr.InspectorManager;
  gCluster : Cluster;
  authConfigured : bool
}.

(** The cluster configuration that [NewGateServer] builds: the other fields have Go's zero values *)
Definition gateClusterConfig (c : GateServerConfig) : ClusterConf.Config :=
  ClusterConf.mkConfig (gEtcdAddress c) (gEtcdPrefix c) 0 (gStabilityDuration c) 0 (gNumShards c) 0 f0 0 [] 0 0 0 (gConfigFile c).

(** [NewGateServer] *)
Definition NewGateServer (e : env) (config : option GateServerConfig) : list effect * result string GateServer :=
  match validateConfig config with
  | Err m => ([], Err ("invalid gate configuration: " +:+ m))
  | Ok c =>
      match Gates.NewGate (Some (Gates.mkGateConfig (gAdvertiseAddress c) (gEtcdAddress c) (gEtcdPrefix c))) with
      | Err m => ([NewContext; CancelContext], Err ("failed to create gate: " +:+ m))
      | Ok gw =>
          let '(fx, r) := NewClusterWithGate e (gateClusterConfig c) gw in
          match r with
          | Err m => ([NewContext] ++ fx ++ [CancelContext], Err ("failed to create cluster: " +:+ m))
          | Ok cl => ([NewContext] ++ fx,
                      Ok (mkGateServer (GateServers.mkGateServer (routing cl) false (gAccessValidator c) (gLifecycleValidator c) ∅)
                            c gw (InspectorMgr.NewGateInspectorManager (gAdvertiseAddress c) (gInspectorAddress c)) cl (gEventHandler c)))
          end
      end
  end.

End Processes.
End Startup.

(** ** Flags and the configuration file *)

(** Go's [fmt.Errorf] with a prefix and [%w] *)
Definition wrapErr {A} (pre : string) (r : result string A) : result string A :=
  match r with Err m => Err (pre +:+ m) | Ok a => Ok a end.

(** [serverconfig.Loader.Load] on parsed flags; [load] is [config.LoadConfig] *)
Module NodeLoader.
Open Scope go_scope.

Definition DefaultListenAddr : string := ":48000".
Definition DefaultAdvertiseAddr : string := "localhost:48000".
Definition DefaultEtcdAddr : string := "localhost:2379".
Definition DefaultEtcdPrefix : string := "/goverse".

Record Loader : Type := mkLoader {
  configPath : string; nodeID : string; listenAddr : string; advertiseAddr : string; httpListenAddr : string;
  etcdAddr : string; etcdPrefix : string; inspectorAddr : string
}.

(** [NewLoader]: the flags before parsing *)
Definition NewLoader : Loader := mkLoader "" "" DefaultListenAddr DefaultAdvertiseAddr "" DefaultEtcdAddr DefaultEtcdPrefix "".

Definition set_id (l : Loader) (id : string) : Loader :=
  mkLoader (configPath l) id (listenAddr l) (advertiseAddr l) (httpListenAddr l) (etcdAddr l) (etcdPrefix l) (inspectorAddr l).

(** The configuration of a node of the file *)
Definition fromFile (cfg : Conf.Config) (nodeCfg : Conf.NodeConfig) : Startup.ServerConfig :=
  let advertise := if bool_decide (Conf.nAdvertiseAddr nodeCfg = "") then Conf.nGRPCAddr nodeCfg else Conf.nAdvertiseAddr nodeCfg in
  Startup.mkServerConfig (Conf.nGRPCAddr nodeCfg) advertise (Conf.nHTTPAddr nodeCfg) (Conf.GetEtcdAddress cfg)
    (Conf.GetEtcdPrefix cfg) 0 (Conf.GetClusterStateStabilityDuration cfg) 0 (Conf.GetNumShards cfg)
    (Conf.GetInspectorAdvertiseAddress cfg) None None (Conf.GetAutoLoadObjects cfg) (Conf.GetDefaultCallTimeout cfg)
    (Conf.GetDefaultCreateTimeout cfg) (Conf.GetDefaultDeleteTimeout cfg) (Conf.GetStuckShardReallocationTimeout cfg) (Some cfg).

(** [Load]: the second result; the first is the loader, whose [nodeID] it sets without a file *)
Definition Load (load : string -> result string Conf.Config) (l : Loader) : Loader * result string Startup.ServerConfig :=
  if bool_decide (configPath l <> "") then
    (l,
     guard! bool_decide (nodeID l <> "") else "--node-id is required when using --config" ;;
     guard! bool_decide (listenAddr l = DefaultListenAddr) else "--listen cannot be used with --config; configure in config file instead" ;;
     guard! bool_decide (advertiseAddr l = DefaultAdvertiseAddr) else "--advertise cannot be used with --config; configure in config file instead" ;;
     guard! bool_decide (httpListenAddr l = "") else "--http-listen cannot be used with --config; configure in config file instead" ;;
     guard! bool_decide (etcdAddr l = DefaultEtcdAddr) else "--etcd cannot be used with --config; configure in config file instead" ;;
     guard! bool_decide (etcdPrefix l = DefaultEtcdPrefix) else "--etcd-prefix cannot be used with --config; configure in config file instead" ;;
     guard! bool_decide (inspectorAddr l = "") else "--inspector-address cannot be used with --config; configure in config file instead" ;;
     cfg <-? wrapErr "failed to load config: " (load (configPath l)) ;;
     nodeCfg <-? wrapErr "failed to find node config: " (Conf.GetNodeByID cfg (nodeID l)) ;;
     Ok (fromFile cfg nodeCfg))
  else
    (if bool_decide (nodeID l = "") then set_id l (advertiseAddr l) else l,
     Ok (Startup.mkServerConfig (listenAddr l) (advertiseAddr l) (httpListenAddr l) (etcdAddr l) (etcdPrefix l) 0 0 0 0
           (inspectorAddr l) None None [] 0 0 0 0 None)).

Definition GetNodeID (l : Loader) : string := nodeID l.
End NodeLoader.

(** [gateconfig.Loader.Load] *)
Module GateLoader.
Open Scope go_scope.

Definition DefaultListenAddr : string := ":49000".
Definition DefaultAdvertiseAddr : string := "localhost:49000".
Definition DefaultEtcdAddr : string := "localhost:2379".
Definition DefaultEtcdPrefix : string := "/goverse".

Record Loader : Type := mkLoader {
  configPath : string; gateID : string; listenAddr : string; advertiseAddr : string; httpListenAddr : string;
  opsListenAddr : string; etcdAddr : string; etcdPrefix : string; inspectorAddr : string
}.

(** [NewLoader] *)
Definition NewLoader : Loader := mkLoader "" "" DefaultListenAddr DefaultAdvertiseAddr "" "" DefaultEtcdAddr DefaultEtcdPrefix "".

Definition set_id (l : Loader) (id : string) : Loader :=
  mkLoader (configPath l) id (listenAddr l) (advertiseAddr l) (httpListenAddr l) (opsListenAddr l) (etcdAddr l) (etcdPrefix l) (inspectorAddr l).

(** The configuration of a gate of the file *)
Definition fromFile (cfg : Conf.Config) (gateCfg : Conf.GateConfig) : Startup.GateServerConfig :=
  let advertise := if bool_decide (Conf.gAdvertiseAddr gateCfg = "") then Conf.gGRPCAddr gateCfg else Conf.gAdvertiseAddr gateCfg in
  Startup.mkGateServerConfig (Conf.gGRPCAddr gateCfg) advertise (Conf.gHTTPAddr gateCfg) (Conf.gOpsAddr gateCfg)
    (Conf.GetEtcdAddress cfg) (Conf.GetEtcdPrefix cfg) (Conf.GetNumShards cfg) (Conf.GetInspectorAdvertiseAddress cfg)
    (Conf.GetClusterStateStabilityDuration cfg) (Conf.GetDefaultCallTimeout cfg) (Conf.GetDefaultDeleteTimeout cfg)
    (Conf.GetDefaultCreateTimeout cfg) None None false (Some cfg).

(** [Load] *)
Definition Load (load : string -> result string Conf.Config) (l : Loader) : Loader * result string Startup.GateServerConfig :=
  if bool_decide (configPath l <> "") then
    (l,
     guard! bool_decide (gateID l <> "") else "--gate-id is required when using --config" ;;
     guard! bool_decide (listenAddr l = DefaultListenAddr) else "--listen cannot be used with --config; configure in config file instead" ;;
     guard! bool_decide (advertiseAddr l = DefaultAdvertiseAddr) else "--advertise cannot be used with --config; configure in config file instead" ;;
     guard! bool_decide (httpListenAddr l = "") else "--http-listen cannot be used with --config; configure in config file instead" ;;
     guard! bool_decide (opsListenAddr l = "") else "--ops-listen cannot be used with --config; configure in config file instead" ;;
     guard! bool_decide (etcdAddr l = DefaultEtcdAddr) else "--etcd cannot be used with --config; configure in config file instead" ;;
     guard! bool_decide (etcdPrefix l = DefaultEtcdPrefix) else "--etcd-prefix cannot be used with --config; configure in config file instead" ;;
     guard! bool_decide (inspectorAddr l = "") else "--inspector-address cannot be used with --config; configure in config file instead" ;;
     cfg <-? wrapErr "failed to load config: " (load (configPath l)) ;;
     gateCfg <-? wrapErr "failed to find gate config: " (Conf.GetGateByID cfg (gateID l)) ;;
     Ok (fromFile cfg gateCfg))
  else
    (if bool_decide (gateID l = "") then set_id l (advertiseAddr l) else l,
     Ok (Startup.mkGateServerConfig (listenAddr l) (advertiseAddr l) (httpListenAddr l) (opsListenAddr l) (etcdAddr l) (etcdPrefix l)
           0 (inspectorAddr l) 0 0 0 0 None None false None)).

Definition GetGateID (l : Loader) : string := gateID l.
End GateLoader.

(** ** Configured and live members (cluster/clusterinfo.go) *)
Module ClusterInfo.
Import Consensus.

Record NodeInfo : Type := mkNodeInfo { nAddress : string; nConfigured : bool; nIsAlive : bool; nIsLeader : bool }.
Record GateInfo : Type := mkGateInfo { gAddress : string; gConfigured : bool; gIsAlive : bool }.

(** [getConfiguredNodes], [getConfiguredGates] *)
Definition getConfiguredNodes (cfg : option Conf.Config) : list string :=
  match cfg with
  | None => []
  | Some c => (fun n => if bool_decide (Conf.nAdvertiseAddr n = "") then Conf.nGRPCAddr n else Conf.nAdvertiseAddr n) <$> Conf.Nodes c
  end.
Definition getConfiguredGates (cfg : option Conf.Config) : list string :=
  match cfg with
  | None => []
  | Some c => (fun g => if bool_decide (Conf.gAdvertiseAddr g = "") then Conf.gGRPCAddr g else Conf.gAdvertiseAddr g) <$> Conf.Gates c
  end.

(** [GetNodes] and [GetGates] of the consensus manager: [order] is the order of the map iteration *)
Definition GetNodes (order : gset string -> list string) (cm : ConsensusManager) : list string := order (Nodes (state cm)).
Definition GetGates (order : gset string -> list string) (cm : ConsensusManager) : list string := order (default ∅ (Gates (state cm))).

(** One iteration of the loop over the live nodes, over the live gates *)
Definition liveNode (leaderAddr : string) (m : gmap string NodeInfo) (addr : string) : gmap string NodeInfo :=
  let isLeader := bool_decide (addr = leaderAddr) in
  match m !! addr with
  | Some info => <[addr := mkNodeInfo (nAddress info) (nConfigured info) true isLeader]> m
  | None => <[addr := mkNodeInfo addr false true isLeader]> m
  end.
Definition liveGate (m : gmap string GateInfo) (addr : string) : gmap string GateInfo :=
  match m !! addr with
  | Some info => <[addr := mkGateInfo (gAddress info) (gConfigured info) true]> m
  | None => <[addr := mkGateInfo addr false true]> m
  end.

(** [GetNodesInfo], [GetGatesInfo] *)
Definition GetNodesInfo (order : gset string -> list string) (cfg : option Conf.Config) (cm : ConsensusManager) : gmap string NodeInfo :=
  let result := fold_left (fun m addr => <[addr := mkNodeInfo addr true false false]> m) (getConfiguredNodes cfg) ∅ in
  fold_left (liveNode (GetLeaderNode cm)) (GetNodes order cm) result.
Definition GetGatesInfo (order : gset string -> list string) (cfg : option Conf.Config) (cm : ConsensusManager) : gmap string GateInfo :=
  let result := fold_left (fun m addr => <[addr := mkGateInfo addr true false]> m) (getConfiguredGates cfg) ∅ in
  fold_left liveGate (GetGates order cm) result.

End ClusterInfo.

(** ** Members *)

Section Info.
Import Consensus ClusterInfo.

Lemma lookup_configured {A} (f : string -> A) l : forall (m : gmap string A) a,
  fold_left (fun m addr => <[addr := f addr]> m) l m !! a = if decide (a ∈ l) then Some (f a) else m !! a.
Proof.
  induction l as [|x l IH]; intros m a; cbn [fold_left].
  - by rewrite decide_False by apply not_elem_of_nil.
  - rewrite IH. destruct (decide (a = x)) as [->|Hne].
    + rewrite lookup_insert_eq. rewrite (decide_True (P := x ∈ x :: l)) by left. by destruct (decide (x ∈ l)).
    + rewrite lookup_insert_ne by done. destruct (decide (a ∈ l)) as [H|H].
      * by rewrite decide_True by (by right).
      * rewrite decide_False; [done|]. by intros [?|?]%elem_of_cons.
Qed.

(** What one pass over distinct live addresses leaves in a table *)
Lemma lookup_live {A} (touch : option A -> string -> A) l : NoDup l -> forall (m : gmap string A) a,
  fold_left (fun m addr => <[addr := touch (m !! addr) addr]> m) l m !! a = if decide (a ∈ l) then Some (touch (m !! a) a) else m !! a.
Proof.
  induction 1 as [|x l Hx Hnd IH]; intros m a; cbn [fold_left].
  - by rewrite decide_False by apply not_elem_of_nil.
  - rewrite IH. destruct (decide (a = x)) as [->|Hne].
    + rewrite decide_False by done. rewrite lookup_insert_eq. by rewrite decide_True by left.
    + rewrite lookup_insert_ne by done. destruct (decide (a ∈ l)) as [H|H].
      * by rewrite decide_True by (by right).
      * rewrite decide_False; [done|]. by intros [?|?]%elem_of_cons.
Qed.

Lemma fold_left_ext {A B} (f g : A -> B -> A) l : (forall a b, f a b = g a b) -> forall a, fold_left f l a = fold_left g l a.
Proof. intros Hfg. induction l as [|b l IH]; intros a; cbn; [done|]. by rewrite Hfg, IH. Qed.

(** The entry of a live node, of a live gate, given the one already there *)
Definition shownNode (leader : string) (o : option NodeInfo) (a : string) : NodeInfo :=
  mkNodeInfo (default a (nAddress <$> o)) (default false (nConfigured <$> o)) true (bool_decide (a = leader)).
Definition shownGate (o : option GateInfo) (a : string) : GateInfo :=
  mkGateInfo (default a (gAddress <$> o)) (default false (gConfigured <$> o)) true.

(** [order] lists every element of a set once *)
Definition enumerates (order : gset string -> list string) : Prop := forall s, NoDup (order s) /\ forall a, a ∈ order s <-> a ∈ s.

(** The list of members shown to an operator is exact.  Whatever the order of the map iterations,
    [GetNodesInfo] has an entry for an address exactly when a node with that address is configured or alive,
    and the entry says which of the two and whether it is the leader: only a live node is ever shown as the
    leader.  [GetGatesInfo] does the same for gates.  Without a configuration file nothing counts as configured. *)
Theorem members_info_exact (order : gset string -> list string) (cfg : option Conf.Config) (cm : ConsensusManager) (a : string) :
  enumerates order ->
  GetNodesInfo order cfg cm !! a =
    (if decide (a ∈ getConfiguredNodes cfg \/ a ∈ Nodes (state cm))
     then Some (mkNodeInfo a (bool_decide (a ∈ getConfiguredNodes cfg)) (bool_decide (a ∈ Nodes (state cm)))
                  (bool_decide (a ∈ Nodes (state cm)) && bool_decide (a = Leader (state cm))))
     else None)
  /\ GetGatesInfo order cfg cm !! a =
    (if decide (a ∈ getConfiguredGates cfg \/ a ∈ default ∅ (Gates (state cm)))
     then Some (mkGateInfo a (bool_decide (a ∈ getConfiguredGates cfg)) (bool_decide (a ∈ default ∅ (Gates (state cm)))))
     else None).
Proof.
  intros Ho. unfold GetNodesInfo, GetGatesInfo, GetNodes, GetGates, GetLeaderNode. split.
  - rewrite (fold_left_ext _ (fun m addr => <[addr := shownNode (Leader (state cm)) (m !! addr) addr]> m))
      by (intros m b; unfold liveNode, shownNode; by destruct (m !! b)).
    destruct (Ho (Nodes (state cm))) as [Hnd Hin]. rewrite (lookup_live (shownNode _) _ Hnd).
    rewrite (lookup_configured (fun b => mkNodeInfo b true false false)), lookup_empty. unfold shownNode.
    repeat case_decide; repeat case_bool_decide; naive_solver.
  - rewrite (fold_left_ext _ (fun m addr => <[addr := shownGate (m !! addr) addr]> m))
      by (intros m b; unfold liveGate, shownGate; by destruct (m !! b)).
    destruct (Ho (default ∅ (Gates (state cm)))) as [Hnd Hin]. rewrite (lookup_live shownGate _ Hnd).
    rewrite (lookup_configured (fun b => mkGateInfo b true false)), lookup_empty. unfold shownGate.
    repeat case_decide; repeat case_bool_decide; naive_solver.
Qed.

End Info.

(** ** Starting processes *)

Section Starting.
Import Access Consensus Startup.
Context {St Msg Data Any P : Type} `{PersistenceProvider P}.

(** How often an effect happened *)
Definition count (x : effect) (fx : list effect) : nat := length (filter (eq x) fx).

Definition released (fx : list effect) : Prop :=
  count OpenDB fx = count CloseDB fx /\ count NewContext fx = count CancelContext fx /\ count OpenEtcd fx = 0.

(** C26: a node process starts completely or leaves nothing behind.  When [NewServer] returns an error,
    every database handle it opened is closed, the context of the process is cancelled and no etcd client is
    left; when it returns a server, the context lives, there is one etcd client, and there is an open database
    handle exactly when the configuration file names a database, in which case the node has a persistence
    provider. *)
Theorem NewServer_all_or_nothing (e : env) (store : P) (config : option ServerConfig) :
  let '(fx, r) := NewServer (St := St) (Msg := Msg) (Data := Data) e store config in
  match r with
  | Err _ => released fx
  | Ok s => count NewContext fx = 1 /\ CancelContext ∉ fx /\ CloseDB ∉ fx /\ count OpenEtcd fx = 1 /\
      (count OpenDB fx = 1 <-> is_Some (postgresDB s)) /\ (is_Some (postgresDB s) <-> is_Some (wantsPostgres (sConfig s))) /\
      (Nodes.hasProvider (Servers.Node (server s)) = true <-> is_Some (postgresDB s))
  end.
Proof.
  unfold NewServer, NewClusterWithNode, newCluster, createAndConnectEtcdManager.
  destruct (validateServerConfig config) as [c|m]; [|done].
  destruct (wantsPostgres c) as [pg|] eqn:Ew; cbn -[count].
  - unfold openPostgresPersistence. destruct (PgConf.NewDB _ _) as [db|]; [|done]. destruct (ping e); [|done].
    destruct (preflightGoverseSchema e); [|done]. destruct (dialEtcd e _); [|done]. cbn -[count].
    split_and!; try done; try set_solver; try (by rewrite Ew); try (by unfold newNode; destruct (LifecycleValidator c)).
  - destruct (dialEtcd e _); [|done]. cbn -[count]. split_and!; try done; try set_solver; try (by rewrite Ew); try (by split; [|intros []]).
    by unfold newNode; destruct (LifecycleValidator c); cbn; split; try done; intros [].
Qed.

(** ** One configuration file for all processes *)

Lemma initConsensus_numShards cfg a n : (0 < n)%Z -> Consensus.numShards (initConsensus cfg a n) = n.
Proof.
  intros Hn. unfold initConsensus, NewConsensusManager. destruct (Z.leb_spec n 0); [lia|]. by repeat case_match.
Qed.

(** Routing depends on the number of shards and the state only *)
Lemma GetCurrentNodeForObject_cong cm cm' st id :
  Consensus.numShards cm = Consensus.numShards cm' -> GetCurrentNodeForObject (set_state cm st) id = GetCurrentNodeForObject (set_state cm' st) id.
Proof. intros E. unfold GetCurrentNodeForObject. cbn. by rewrite E. Qed.

(** The outside world is up *)
Definition healthy (e : env) : Prop :=
  (forall d, sqlOpen e d = Ok tt) /\ ping e = Ok tt /\ tables e = Ok true /\ (forall a, dialEtcd e a = Ok tt).

(** The file names no database, or a complete one *)
Definition pg_usable (cfg : Conf.Config) : Prop :=
  let p := Conf.Postgres cfg in
  (Conf.Host p = "" /\ Conf.Database p = "") \/
  (Conf.Host p <> "" /\ (0 < Conf.Port p)%Z /\ Conf.User p <> "" /\ Conf.Database p <> "").

(** A process that uses [n] shards throughout and meets the others under [prefix] *)
Definition shares (n : Z) (prefix addr : string) (c : Cluster (St := St) (Msg := Msg) (Data := Data) (P := P)) : Prop :=
  Startup.numShards c = n /\ shardLock c = n /\ Consensus.numShards (Clusters.consensusManager (routing c)) = n /\
  EtcdManagers.prefix (etcdMgr c) = prefix /\ EtcdManagers.connected (etcdMgr c) = true /\ etcdAddress c = addr /\
  localNodeAddress (Clusters.consensusManager (routing c)) = Clusters.getAdvertiseAddr (routing c).

Lemma newCluster_shares e cfg n g :
  healthy e -> (0 < ClusterConf.NumShards cfg)%Z -> ClusterConf.EtcdPrefix cfg <> "" ->
  exists fx c, newCluster (St := St) (Msg := Msg) (Data := Data) (P := P) e cfg n g = (fx, Ok c) /\
    shares (ClusterConf.NumShards cfg) (ClusterConf.EtcdPrefix cfg) (ClusterConf.EtcdAddress cfg) c /\
    Clusters.node (routing c) = n /\ Clusters.gateAddr (routing c) = g /\ Clusters.config (routing c) = cfg.
Proof.
  intros (_ & _ & _ & Hd) Hn Hp. unfold newCluster, createAndConnectEtcdManager. rewrite Hd.
  destruct (Z.leb_spec (ClusterConf.NumShards cfg) 0); [lia|]. eexists _, _. split; [done|]. split; [|done].
  split_and!; cbn; try done; [by apply initConsensus_numShards|by rewrite bool_decide_false|].
  unfold initConsensus, NewConsensusManager. by repeat case_match.
Qed.

Lemma openPostgres_ok e cfg : healthy e -> pg_usable cfg -> Conf.Host (Conf.Postgres cfg) <> "" ->
  exists db, openPostgresPersistence e (Conf.Postgres cfg) = ([OpenDB], Ok db).
Proof.
  intros (Hs & Hp & Ht & _) [[? ?]|(Hh & Hport & Hu & Hdb)] Hhost; [done|].
  unfold openPostgresPersistence, PgConf.NewDB, PgConf.Validate, preflightGoverseSchema. cbn.
  rewrite !bool_decide_true by done. destruct (Z.leb_spec (Conf.Port (Conf.Postgres cfg)) 0); [lia|]. cbn.
  rewrite Hs, Hp, Ht. eauto.
Qed.

(** What [NewServer] makes of a complete configuration *)
Lemma NewServer_ok e store c cfg :
  healthy e -> ListenAddress c <> "" -> AdvertiseAddress c <> "" -> EtcdAddress c <> "" -> EtcdPrefix c <> "" ->
  (0 < NumShards c)%Z -> ConfigFile c = Some cfg -> pg_usable cfg ->
  exists fx s, NewServer (St := St) (Msg := Msg) (Data := Data) e store (Some c) = (fx, Ok s) /\
    shares (NumShards c) (EtcdPrefix c) (EtcdAddress c) (cluster s) /\
    Servers.clusterView (server s) = Some (Clusters.consensusManager (routing (cluster s))) /\
    Clusters.node (routing (cluster s)) = Some (Servers.Node (server s)) /\
    Nodes.numShards (Servers.Node (server s)) = NumShards c /\
    Nodes.advertiseAddress (Servers.Node (server s)) = AdvertiseAddress c.
Proof.
  intros He Hl Ha Hea Hep Hn Hcf Hpg. unfold NewServer, validateServerConfig.
  rewrite !bool_decide_true, (bool_decide_false (EtcdAddress c = "")) by done.
  set (c' := mkServerConfig _ _ _ _ _ _ _ _ _ _ _ _ _ _ _ _ _ _).
  assert (exists fx db, match wantsPostgres c' with
                   | None => ([], Ok None)
                   | Some pgCfg => let '(fx, r) := openPostgresPersistence e pgCfg in
                       (fx, match r with Ok db => Ok (Some db) | Err e => Err e end) end = (fx, Ok db)) as (fx & db & ->).
  { unfold wantsPostgres. cbn. rewrite Hcf. destruct (decide (Conf.Host (Conf.Postgres cfg) = "")) as [Eh|Eh].
    - destruct Hpg as [[_ Ed]|[? _]]; [|done]. rewrite Eh, Ed. cbn. eauto.
    - rewrite bool_decide_true by done. cbn. destruct (openPostgres_ok e cfg) as [db ->]; eauto. }
  unfold NewClusterWithNode.
  destruct (newCluster_shares e (clusterConfigOf c') (Some (newNode c' db store)) None He) as (fx2 & cl & -> & Hsh & Hnode & _).
  { cbn. unfold orKeep. destruct (Z.ltb_spec 0 (NumShards c)); lia. }
  { done. }
  cbn in Hsh. unfold orKeep in Hsh. destruct (Z.ltb_spec 0 (NumShards c)); [|lia].
  eexists _, _. split; [done|]. split_and!; try done; unfold newNode; cbn; destruct (LifecycleValidator c), db; cbn; try done;
    destruct (Z.leb_spec (NumShards c) 0); lia || done.
Qed.

Lemma NewGateServer_ok e c :
  healthy e -> gListenAddress c <> "" -> gAdvertiseAddress c <> "" -> gEtcdAddress c <> "" -> gEtcdPrefix c <> "" -> (0 < gNumShards c)%Z ->
  exists fx g, NewGateServer (St := St) (Msg := Msg) (Data := Data) (Any := Any) (P := P) e (Some c) = (fx, Ok g) /\
    shares (gNumShards c) (gEtcdPrefix c) (gEtcdAddress c) (gCluster g) /\
    GateServers.cluster (handlers g) = routing (gCluster g) /\ Gates.advertiseAddress (gate g) = gAdvertiseAddress c /\
    Clusters.gateAddr (routing (gCluster g)) = Some (gAdvertiseAddress c).
Proof.
  intros He Hl Ha Hea Hep Hn. unfold NewGateServer, validateConfig, Gates.NewGate, Gates.validateGateConfig, NewClusterWithGate.
  rewrite !bool_decide_true, (bool_decide_false (gEtcdPrefix c = "")) by done. cbn.
  rewrite !(bool_decide_false (_ = "")) by done. cbn.
  set (cfg := gateClusterConfig _).
  destruct (newCluster_shares e cfg None (Some (gAdvertiseAddress c)) He) as (fx & cl & -> & Hsh & _ & Hg & _); [done..|].
  eexists _, _. split; [done|]. done.
Qed.

(** The command line of a process that uses a configuration file *)
Definition nodeFlags (path id : string) : NodeLoader.Loader :=
  NodeLoader.mkLoader path id NodeLoader.DefaultListenAddr NodeLoader.DefaultAdvertiseAddr "" NodeLoader.DefaultEtcdAddr NodeLoader.DefaultEtcdPrefix "".
Definition gateFlags (path id : string) : GateLoader.Loader :=
  GateLoader.mkLoader path id GateLoader.DefaultListenAddr GateLoader.DefaultAdvertiseAddr "" "" GateLoader.DefaultEtcdAddr GateLoader.DefaultEtcdPrefix "".

Lemma Load_node (load : string -> result string Conf.Config) path cfg nc : path <> "" -> Conf.nID nc <> "" -> load path = Ok cfg -> Conf.GetNodeByID cfg (Conf.nID nc) = Ok nc ->
  snd (NodeLoader.Load load (nodeFlags path (Conf.nID nc))) = Ok (NodeLoader.fromFile cfg nc).
Proof. intros Hp Hi Hl Hg. unfold NodeLoader.Load. cbn. rewrite !bool_decide_true by done. cbn. rewrite Hl. cbn. by rewrite Hg. Qed.

Lemma Load_gate (load : string -> result string Conf.Config) path cfg gc : path <> "" -> Conf.gID gc <> "" -> load path = Ok cfg -> Conf.GetGateByID cfg (Conf.gID gc) = Ok gc ->
  snd (GateLoader.Load load (gateFlags path (Conf.gID gc))) = Ok (GateLoader.fromFile cfg gc).
Proof. intros Hp Hi Hl Hg. unfold GateLoader.Load. cbn. rewrite !bool_decide_true by done. cbn. rewrite Hl. cbn. by rewrite Hg. Qed.

(** C9: one valid configuration file starts the whole cluster, and its processes agree.  Take a file that
    [LoadConfig] accepts, whose first etcd endpoint is not empty and whose database section is absent or
    complete, in a world where the database and etcd are up.  Then every configured node and every configured
    gate starts with [--config] and its id alone: the loader and the constructor succeed.  The node, its
    cluster, the shard lock, the consensus managers of node and gate all count the shards of the file, their
    etcd managers use its endpoint and prefix, each advertises the address the file gives it, and on the same
    cluster state the gate and the node route every object id to the same place, with the same errors. *)
Theorem config_starts_cluster {bytes : Type} (ReadFile : string -> result string bytes)
    (Unmarshal : bytes -> result string Conf.Config) (path : string) (cfg : Conf.Config) (e : env) (store : P)
    (nc : Conf.NodeConfig) (gc : Conf.GateConfig) :
  let load := Conf.LoadConfig ReadFile Unmarshal in
  path <> "" -> load path = Ok cfg -> Conf.GetEtcdAddress cfg <> "" -> pg_usable cfg -> healthy e ->
  nc ∈ Conf.Nodes cfg -> gc ∈ Conf.Gates cfg ->
  exists sc gcfg fx fx' s g,
    snd (NodeLoader.Load load (nodeFlags path (Conf.nID nc))) = Ok sc /\
    NewServer (St := St) (Msg := Msg) (Data := Data) e store (Some sc) = (fx, Ok s) /\
    snd (GateLoader.Load load (gateFlags path (Conf.gID gc))) = Ok gcfg /\
    NewGateServer (St := St) (Msg := Msg) (Data := Data) (Any := Any) (P := P) e (Some gcfg) = (fx', Ok g) /\
    shares (Conf.GetNumShards cfg) (Conf.GetEtcdPrefix cfg) (Conf.GetEtcdAddress cfg) (cluster s) /\
    shares (Conf.GetNumShards cfg) (Conf.GetEtcdPrefix cfg) (Conf.GetEtcdAddress cfg) (gCluster g) /\
    Nodes.numShards (Servers.Node (server s)) = Conf.GetNumShards cfg /\
    Nodes.advertiseAddress (Servers.Node (server s)) = Conf.nAdvertiseAddr nc /\
    Gates.advertiseAddress (gate g) = (if decide (Conf.gAdvertiseAddr gc = "") then Conf.gGRPCAddr gc else Conf.gAdvertiseAddr gc) /\
    (forall st id, exists cm, Servers.clusterView (server s) = Some cm /\
       GetCurrentNodeForObject (set_state cm st) id =
       GetCurrentNodeForObject (set_state (Clusters.consensusManager (GateServers.cluster (handlers g))) st) id).
Proof.
  intros load Hpath Hload Hetcd Hpg He Hnc Hgc.
  assert (Conf.Validate cfg = Ok tt) as Hv%Validate_iff.
  { unfold load, Conf.LoadConfig in Hload. repeat case_match; simplify_eq. by destruct (Conf.Validate cfg) as [[]|]. }
  destruct Hv as [_ _ Hs _ Hpre Hnd Hns Hgd Hgs _].
  pose proof (proj1 (Forall_forall _ _) Hns _ Hnc) as (Hni & Hng & Hna). pose proof (proj1 (Forall_forall _ _) Hgs _ Hgc) as (Hgi & Hgg).
  destruct (NewServer_ok e store (NodeLoader.fromFile cfg nc) cfg) as (fx & s & Hsrv & Hsh & Hcv & Hnode & Hnum & Haddr); try done.
  { cbn. by case_bool_decide. }
  destruct (NewGateServer_ok e (GateLoader.fromFile cfg gc)) as (fx' & g & Hgate & Hsh' & Hcl & Hga & _); try done.
  { cbn. by case_bool_decide. }
  exists (NodeLoader.fromFile cfg nc), (GateLoader.fromFile cfg gc), fx, fx', s, g.
  split_and!; try done.
  - apply Load_node; try done. by apply findNode_spec.
  - apply Load_gate; try done. by apply findGate_spec.
  - rewrite Haddr. cbn. by case_bool_decide.
  - rewrite Hga. cbn. by repeat case_match; case_bool_decide.
  - intros st id. eexists. split; [done|]. apply GetCurrentNodeForObject_cong. rewrite Hcl.
    by destruct Hsh as (_ & _ & -> & _), Hsh' as (_ & _ & -> & _).
Qed.

End Starting.

(** ** What the file cannot set *)

Section NotSet.
Import Access Consensus Startup.
Context {St Msg Data Any P : Type} `{PersistenceProvider P}.

(** What [NewServer] takes over unchanged *)
Lemma NewServer_fields e (store : P) sc fx s : NewServer (St := St) (Msg := Msg) (Data := Data) e store (Some sc) = (fx, Ok s) ->
  Servers.accessValidator (server s) = AccessValidator sc /\
  Nodes.lifecycleValidator (Servers.Node (server s)) = LifecycleValidator sc /\
  exists shards, Clusters.consensusManager (routing (cluster s)) = initConsensus (clusterConfigOf (sConfig s)) (AdvertiseAddress sc) shards.
Proof.
  unfold NewServer, validateServerConfig. intros Hs. repeat case_match; simplify_eq; cbn;
    unfold NewClusterWithNode, newCluster, createAndConnectEtcdManager, newNode in *; repeat case_match; simplify_eq; cbn in *; simplify_eq; split_and!;
    try done; by eexists.
Qed.

(** The access and lifecycle rules of a configuration file reach no process: whatever the file contains, a
    node and a gate that were started from it check no rule. *)
Theorem config_rules_ignored (load : string -> result string Conf.Config) (l : NodeLoader.Loader) (gl : GateLoader.Loader)
    (e : env) (store : P) sc gcfg fx fx' s g :
  snd (NodeLoader.Load load l) = Ok sc -> NewServer (St := St) (Msg := Msg) (Data := Data) e store (Some sc) = (fx, Ok s) ->
  snd (GateLoader.Load load gl) = Ok gcfg -> NewGateServer (St := St) (Msg := Msg) (Data := Data) (Any := Any) (P := P) e (Some gcfg) = (fx', Ok g) ->
  Servers.accessValidator (server s) = None /\ Nodes.lifecycleValidator (Servers.Node (server s)) = None /\
  GateServers.accessRules (handlers g) = None /\ GateServers.lifecycleRules (handlers g) = None.
Proof.
  intros Hl (Ha & Hlv & _)%NewServer_fields Hgl Hg. rewrite Ha, Hlv.
  assert (AccessValidator sc = None /\ LifecycleValidator sc = None) as [-> ->]
    by (unfold NodeLoader.Load in Hl; repeat case_match; by simplify_eq/=).
  assert (gAccessValidator gcfg = None /\ gLifecycleValidator gcfg = None) as [E1 E2]
    by (unfold GateLoader.Load in Hgl; repeat case_match; by simplify_eq/=).
  unfold NewGateServer, validateConfig in Hg. repeat case_match; simplify_eq; cbn; by rewrite ?E1, ?E2.
Qed.

(** A node rebalances in batches of 64 shards with a threshold of 0.2, whatever number of shards and
    threshold the file has. *)
Theorem config_rebalancing_fixed e (store : P) sc fx s :
  NewServer (St := St) (Msg := Msg) (Data := Data) e store (Some sc) = (fx, Ok s) ->
  let cm := Clusters.consensusManager (routing (cluster s)) in
  rebalanceShardsBatchSize cm = 64%Z /\ imbalanceThreshold cm = f0_2.
Proof.
  intros (_ & _ & shards & ->)%NewServer_fields. unfold initConsensus, clusterConfigOf. cbn.
  unfold NewConsensusManager. by repeat case_match.
Qed.

End NotSet.

(** ** Witnesses *)

Definition yaml0 : string -> result string string := fun path => if bool_decide (path = "cluster.yml") then Ok "..." else Err "no such file".
Definition env_up : Startup.env := Startup.mkEnv (fun _ => Ok tt) (Ok tt) (Ok true) (fun _ => Ok tt).

Lemma config_starts_cluster_witness :
  exists sc gcfg fx fx' s g,
    snd (NodeLoader.Load (Conf.LoadConfig yaml0 (fun _ => Ok sampleConfig)) (nodeFlags "cluster.yml" "n2")) = Ok sc /\
    Startup.NewServer (St := nat) (Msg := string) (Data := string) env_up (Counter.db0 []) (Some sc) = (fx, Ok s) /\
    snd (GateLoader.Load (Conf.LoadConfig yaml0 (fun _ => Ok sampleConfig)) (gateFlags "cluster.yml" "g1")) = Ok gcfg /\
    Startup.NewGateServer (St := nat) (Msg := string) (Data := string) (Any := string) (P := Postgres.DB) env_up (Some gcfg) = (fx', Ok g) /\
    Startup.numShards (Startup.cluster s) = Startup.numShards (Startup.gCluster g).
Proof.
  edestruct (config_starts_cluster (St := nat) (Msg := string) (Data := string) (Any := string) yaml0 (fun _ => Ok sampleConfig) "cluster.yml" sampleConfig env_up (Counter.db0 [])
    (Conf.mkNodeConfig "n2" ":47001" "localhost:47001" "") (Conf.mkGateConfig "g1" ":48000" "" "" ""))
    as (sc & gcfg & fx & fx' & s & g & H1 & H2 & H3 & H4 & (H5 & _) & (H6 & _) & _).
  - discriminate.
  - vm_compute. reflexivity.
  - discriminate.
  - left. split; reflexivity.
  - split_and!; reflexivity.
  - right. left.
  - left.
  - exists sc, gcfg, fx, fx', s, g. rewrite H5, H6. split_and!; assumption || reflexivity.
Defined.

Lemma members_info_exact_witness :
  ClusterInfo.GetNodesInfo elements (Some sampleConfig)
    (Consensus.set_state (Consensus.NewConsensusManager true 0 "localhost:47000" 8192)
       (Consensus.mkState {["localhost:47000"]} None (Some ∅) "localhost:47000" 0 0 None)) !! "localhost:47000" =
    Some (ClusterInfo.mkNodeInfo "localhost:47000" true true true).
Proof.
  edestruct (members_info_exact elements (Some sampleConfig)
    (Consensus.set_state (Consensus.NewConsensusManager true 0 "localhost:47000" 8192)
       (Consensus.mkState {["localhost:47000"]} None (Some ∅) "localhost:47000" 0 0 None)) "localhost:47000") as [H _].
  - intros s. split; [apply NoDup_elements|]. intros a. apply elem_of_elements.
  - rewrite H. vm_compute. reflexivity.
Defined.
