(* ===== verification/ConfigGen.v ===== *)
(** * The configuration generator (cmd/configgen/main.go)

    [Module ConfigGen]: the file that [configgen] writes for a number of nodes and gates, line by line, the checks of
    its flags and the instructions it prints.  [Module ReadYaml]: a reader of the part of YAML that the file uses
    (comments, blank lines, mappings, sequences and plain or quoted scalars told apart by indentation) that
    decodes into the configuration record of AccessControl.v as the YAML library does by its documentation;
    the library itself is an argument of [LoadConfig].  In the texts a backquote stands for the double quote.
    Numbers of nodes and gates are integers without overflow: a file for 2^62 entries is never written. *)

From S2P Require Import Prelude GoStrings GoFloat ObjectId Persistence Object ReliableCalls AccessControl Node Gate Server GateServer Startup.
Import Float64 Proto Objects Nodes.
Import Conf.

Module ConfigGen.

(** A text of the source with its quotes *)
Fixpoint q (s : string) : string :=
  match s with
  | EmptyString => EmptyString
  | String c s => String (if bool_decide (c = "`"%char) then Ascii.ascii_of_nat 34 else c) (q s)
  end.
Definition newline : ascii := Ascii.ascii_of_nat 10.

Definition defaultShards : Z := 8192.

(** The first lines: the version and the cluster *)
Definition header : list string :=
  ["# GoVerse Configuration File";
   "# Generated by: go run ./cmd/configgen";
   "#";
   "# This configuration defines the cluster topology, nodes, gates, and coordination settings.";
   "# See docs/CONFIGURATION.md for complete documentation.";
   "";
   "# Configuration schema version (required)";
   "version: 1";
   "";
   "# Cluster coordination settings";
   "cluster:";
   "  # Number of shards for object distribution (default: " +:+ Itoa defaultShards +:+ ")";
   "  shards: " +:+ Itoa defaultShards;
   "";
   "  # Cluster coordination provider - currently only 'etcd' is supported";
   q "  provider: `etcd`";
   "";
   "  # etcd configuration";
   "  etcd:";
   q "    # List of etcd endpoints (default: [`localhost:2379`])";
   "    endpoints:";
   q "      - `localhost:2379`";
   "    ";
   q "    # Key prefix for GoVerse data in etcd (default: `/goverse`)";
   q "    prefix: `/goverse`";
   ""].

Definition postgresSection : list string :=
  q <$> ["# PostgreSQL persistence configuration (optional)";
   "# Uncomment and configure to enable persistence";
   "# postgres:";
   "#   # Database host (default: `localhost`)";
   "#   host: `localhost`";
   "#   ";
   "#   # Database port (default: 5432)";
   "#   port: 5432";
   "#   ";
   "#   # Database user (default: `postgres`)";
   "#   user: `postgres`";
   "#   ";
   "#   # Database password (default: ``)";
   "#   # It's recommended to use environment variables for passwords";
   "#   password: ``";
   "#   ";
   "#   # Database name (default: `goverse`)";
   "#   database: `goverse`";
   "#   ";
   "#   # SSL mode - use `require` for production (default: `disable`)";
   "#   sslmode: `disable`";
   ""].

(** The section of the inspector, and the one in its place *)
Definition inspectorOn : list string :=
  q <$> ["# Inspector service configuration for monitoring and debugging (optional)";
   "# The inspector provides a web UI for visualizing the cluster topology";
   "inspector:";
   "  # gRPC server address for inspector API (default: `127.0.0.1:9081`)";
   "  grpc_addr: `127.0.0.1:9081`";
   "  ";
   "  # HTTP server address for inspector web UI (default: `127.0.0.1:8080`)";
   "  http_addr: `127.0.0.1:8080`";
   "  ";
   "  # Address that nodes and gates use to connect to inspector (default: `localhost:9081`)";
   "  advertise_addr: `localhost:9081`";
   ""].

Definition inspectorOff : list string :=
  q <$> ["# Inspector service configuration (optional)";
   "# Uncomment to enable the inspector service for monitoring and debugging";
   "# inspector:";
   "#   # gRPC server address for inspector API (default: `127.0.0.1:9081`)";
   "#   grpc_addr: `127.0.0.1:9081`";
   "#   ";
   "#   # HTTP server address for inspector web UI (default: `127.0.0.1:8080`)";
   "#   http_addr: `127.0.0.1:8080`";
   "#   ";
   "#   # Address that nodes and gates use to connect to inspector (default: `localhost:9081`)";
   "#   advertise_addr: `localhost:9081`";
   ""].

Definition nodesHeader : list string :=
  q <$> ["# Node configurations";
   "# Nodes host distributed objects and handle object lifecycle";
   "nodes:"].

(** The entry of a node *)
Definition nodeEntry (i : Z) : list string :=
  let nodeID := "node-" +:+ Itoa i in
  let grpcPort := (50050 + i)%Z in
  let httpPort := (8080 + i)%Z in
  (if (1 <? i)%Z then [""] else []) ++
  ["  - # Node " +:+ Itoa i;
   q "    id: `" +:+ nodeID +:+ q "`";
   "    ";
   q "    # gRPC listen address (default: `127.0.0.1:" +:+ Itoa grpcPort +:+ q "`)";
   q "    grpc_addr: `127.0.0.1:" +:+ Itoa grpcPort +:+ q "`";
   "    ";
   q "    # Address other nodes use to reach this node (default: `localhost:" +:+ Itoa grpcPort +:+ q "`)";
   q "    advertise_addr: `localhost:" +:+ Itoa grpcPort +:+ q "`";
   "    ";
   q "    # HTTP address for metrics and admin endpoints (default: `127.0.0.1:" +:+ Itoa httpPort +:+ q "`)";
   q "    http_addr: `127.0.0.1:" +:+ Itoa httpPort +:+ q "`"].

Definition gatesHeader : list string :=
  q <$> ["# Gate configurations";
   "# Gates are entry points for client connections (gRPC and HTTP)"].

Definition noGates : list string :=
  q <$> ["# No gates configured - uncomment and add entries as needed";
   "gates: []";
   "# gates:";
   "#   - id: `gate-1`";
   "#     ";
   "#     # gRPC listen address for client connections (default: `127.0.0.1:60051`)";
   "#     grpc_addr: `127.0.0.1:60051`";
   "#     ";
   "#     # Advertised address for the gate (optional, defaults to grpc_addr)";
   "#     advertise_addr: `localhost:60051`";
   "#     ";
   "#     # HTTP address for REST API and metrics (optional)";
   "#     http_addr: `127.0.0.1:8090`"].

(** The entry of a gate *)
Definition gateEntry (i : Z) : list string :=
  let gateID := "gate-" +:+ Itoa i in
  let grpcPort := (60050 + i)%Z in
  let httpPort := (8089 + i)%Z in
  (if (1 <? i)%Z then [""] else []) ++
  ["  - # Gate " +:+ Itoa i;
   q "    id: `" +:+ gateID +:+ q "`";
   "    ";
   q "    # gRPC listen address for client connections (default: `127.0.0.1:" +:+ Itoa grpcPort +:+ q "`)";
   q "    grpc_addr: `127.0.0.1:" +:+ Itoa grpcPort +:+ q "`";
   "    ";
   "    # Advertised address for the gate (optional, defaults to grpc_addr)";
   q "    advertise_addr: `localhost:" +:+ Itoa grpcPort +:+ q "`";
   "    ";
   "    # HTTP address for REST API and metrics (optional)";
   q "    http_addr: `127.0.0.1:" +:+ Itoa httpPort +:+ q "`"].

(** The sections of the access and lifecycle rules *)
Definition rulesSection : list string :=
  q <$> ["# Object access control rules (optional)";
   "# Controls which clients and nodes can call methods on objects";
   "# Uncomment to enable access control";
   "# object_access_rules:";
   "#   # Allow all access (development mode)";
   "#   - type: /.*/";
   "#     access: ALLOW";
   "";
   "# Object lifecycle control rules (optional)";
   "# Controls which clients and nodes can create or delete objects";
   "# Uncomment to enable lifecycle control";
   "# object_lifecycle_rules:";
   "#   # Example: restrict deletion to internal nodes only";
   "#   - type: /.*/";
   "#     lifecycle: DELETE";
   "#     access: INTERNAL"].

(** A loop from 1 to [n] *)
Definition upTo (n : Z) : list Z := Z.of_nat <$> List.seq 1 (Z.to_nat n).

(** The lines that [generateConfig] writes *)
Definition configLines (numNodes numGates : Z) (withInspector : bool) : list string :=
  header ++ postgresSection ++ (if withInspector then inspectorOn else inspectorOff) ++
  nodesHeader ++ (upTo numNodes ≫= nodeEntry) ++ [""] ++
  gatesHeader ++ (if (numGates =? 0)%Z then noGates else "gates:" :: (upTo numGates ≫= gateEntry)) ++ [""] ++
  rulesSection.

Fixpoint joinLines (lines : list string) : string :=
  match lines with [] => EmptyString | l :: rest => l +:+ String newline (joinLines rest) end.

(** [generateConfig]: the content of the file; [Create] and [Write] are whether the file can be made and written *)
Definition generateConfig (Create Write : result string ()) (numNodes numGates : Z) (withInspector : bool) : result string string :=
  match Create, Write with
  | Err e, _ => Err ("failed to create file: " +:+ e)
  | _, Err e => Err ("failed to write to file: " +:+ e)
  | Ok _, Ok _ => Ok (joinLines (configLines numNodes numGates withInspector))
  end.

(** [printUsageInstructions]: the lines printed *)
Definition printUsageInstructions (filename : string) (numNodes numGates : Z) (withInspector : bool) : list string :=
  let stepNum := if withInspector then 3%Z else 2%Z in
  ["Configuration file generated successfully!"; ""; "Usage Instructions:"; "=================="; "";
   "1. Prerequisites:"; "   - Ensure etcd is running on localhost:2379"; "   - Or update the etcd endpoints in the config file"; ""] ++
  (if withInspector then ["2. Start the Inspector (optional, for monitoring):"; "   go run ./cmd/inspector/"; ""] else []) ++
  (if (numNodes =? 1)%Z then
     [Itoa stepNum +:+ ". Start the Node:"; "   go run <your-app> --config " +:+ filename +:+ " --node-id node-1"; ""]
   else
     (Itoa stepNum +:+ ". Start the Nodes (in separate terminals):") ::
     ((fun i => "   Terminal " +:+ Itoa i +:+ ": go run <your-app> --config " +:+ filename +:+ " --node-id node-" +:+ Itoa i) <$> upTo numNodes) ++ [""]) ++
  (if (0 <? numGates)%Z then
     if (numGates =? 1)%Z then
       [Itoa (stepNum + 1) +:+ ". Start the Gate:"; "   go run ./cmd/gate/ --config " +:+ filename +:+ " --gate-id gate-1"; ""]
     else
       (Itoa (stepNum + 1) +:+ ". Start the Gates (in separate terminals):") ::
       ((fun i => "   Terminal " +:+ Itoa i +:+ ": go run ./cmd/gate/ --config " +:+ filename +:+ " --gate-id gate-" +:+ Itoa i) <$> upTo numGates) ++ [""]
   else []) ++
  ["Accessing Services:"; "-------------------"] ++
  (if withInspector then ["- Inspector Web UI: http://127.0.0.1:8080"] else []) ++
  ((fun i => "- Node " +:+ Itoa i +:+ " metrics: http://127.0.0.1:" +:+ Itoa (8080 + i) +:+ "/metrics") <$> upTo numNodes) ++
  ((fun i => "- Gate " +:+ Itoa i +:+ " HTTP API: http://127.0.0.1:" +:+ Itoa (8089 + i)) <$> upTo numGates) ++
  [""; "Notes:"; "------"; "- Replace <your-app> with your GoVerse application path";
   "- See docs/CONFIGURATION.md for detailed configuration options"; "- Modify addresses and ports in the config file as needed";
   "- Use environment variables for sensitive data like PostgreSQL passwords"; ""].

(** What [main] leaves behind: the exit code, the file it wrote, the lines on its standard output *)
Record outcome : Type := mkOutcome { code : Z; written : option (string * string); printed : list string }.

(** [main] on parsed flags; [args] are the arguments that are not flags *)
Definition main (Create Write : result string ()) (args : list string) (numNodes numGates : Z) (withInspector : bool) : outcome :=
  match args with
  | [filename] =>
      if (numNodes <? 1)%Z then mkOutcome 1 None []
      else if (numGates <? 0)%Z then mkOutcome 1 None []
      else match generateConfig Create Write numNodes numGates withInspector with
           | Err _ => mkOutcome 1 None []
           | Ok text => mkOutcome 0 (Some (filename, text))
               (("Configuration file generated: " +:+ filename) :: "" :: printUsageInstructions filename numNodes numGates withInspector)
           end
  | _ => mkOutcome 1 None []
  end.

End ConfigGen.
Import ConfigGen.

(** ** What the file says *)

Module ReadYaml.

(** An element of the path to a value: a key of a mapping, a position in a sequence *)
Inductive elem : Type := Key (k : string) | Idx (i : nat).

(** The path at each indentation, the innermost element first, and what has been decoded *)
Record reader : Type := mkReader { stack : list (nat * elem); config : Config }.

Fixpoint indent (s : string) : nat * string :=
  match s with
  | String c r => if bool_decide (c = " "%char) then let '(d, t) := indent r in (S d, t) else (O, s)
  | EmptyString => (O, EmptyString)
  end.

Definition quoteChar : ascii := Ascii.ascii_of_nat 34.

(** A scalar: the text between its quotes, or the text *)
Definition scalar (s : string) : string :=
  match s with
  | String c r => if bool_decide (c = quoteChar) then match Cut quoteChar r with Some (v, _) => v | None => s end else s
  | EmptyString => EmptyString
  end.

Definition comment (s : string) : bool := match s with String c _ => bool_decide (c = "#"%char) | EmptyString => true end.

(** Decoding of a value into a field; keys without a field are ignored *)
Definition setNodeField (k v : string) (n : NodeConfig) : NodeConfig :=
  if (k =? "id")%string then mkNodeConfig v (nGRPCAddr n) (nAdvertiseAddr n) (nHTTPAddr n)
  else if (k =? "grpc_addr")%string then mkNodeConfig (nID n) v (nAdvertiseAddr n) (nHTTPAddr n)
  else if (k =? "advertise_addr")%string then mkNodeConfig (nID n) (nGRPCAddr n) v (nHTTPAddr n)
  else if (k =? "http_addr")%string then mkNodeConfig (nID n) (nGRPCAddr n) (nAdvertiseAddr n) v
  else n.
Definition setGateField (k v : string) (g : GateConfig) : GateConfig :=
  if (k =? "id")%string then mkGateConfig v (gGRPCAddr g) (gAdvertiseAddr g) (gHTTPAddr g) (gOpsAddr g)
  else if (k =? "grpc_addr")%string then mkGateConfig (gID g) v (gAdvertiseAddr g) (gHTTPAddr g) (gOpsAddr g)
  else if (k =? "advertise_addr")%string then mkGateConfig (gID g) (gGRPCAddr g) v (gHTTPAddr g) (gOpsAddr g)
  else if (k =? "http_addr")%string then mkGateConfig (gID g) (gGRPCAddr g) (gAdvertiseAddr g) v (gOpsAddr g)
  else if (k =? "ops_addr")%string then mkGateConfig (gID g) (gGRPCAddr g) (gAdvertiseAddr g) (gHTTPAddr g) v
  else g.
Definition setInspectorField (k v : string) (i : InspectorConfig) : InspectorConfig :=
  if (k =? "grpc_addr")%string then mkInspectorConfig v (iHTTPAddr i) (iAdvertiseAddr i)
  else if (k =? "http_addr")%string then mkInspectorConfig (iGRPCAddr i) v (iAdvertiseAddr i)
  else if (k =? "advertise_addr")%string then mkInspectorConfig (iGRPCAddr i) (iHTTPAddr i) v
  else i.

Definition on_cluster (f : ClusterConfig -> ClusterConfig) (c : Config) : Config :=
  mkConfig (Version c) (f (Cluster c)) (Postgres c) (Inspector c) (Nodes c) (Gates c) (AccessRules c) (LifecycleRules c).
Definition on_nodes (f : list NodeConfig -> list NodeConfig) (c : Config) : Config :=
  mkConfig (Version c) (Cluster c) (Postgres c) (Inspector c) (f (Nodes c)) (Gates c) (AccessRules c) (LifecycleRules c).
Definition on_gates (f : list GateConfig -> list GateConfig) (c : Config) : Config :=
  mkConfig (Version c) (Cluster c) (Postgres c) (Inspector c) (Nodes c) (f (Gates c)) (AccessRules c) (LifecycleRules c).
Definition on_etcd (f : EtcdConfig -> EtcdConfig) : Config -> Config :=
  on_cluster (fun c => mkClusterConfig (Shards c) (Provider c) (f (Etcd c)) (ImbalanceThreshold c) (ClusterStateStabilityDuration c)
    (StuckShardReallocationTimeout c) (DefaultCallTimeout c) (DefaultCreateTimeout c) (DefaultDeleteTimeout c) (AutoLoadObjects c)).

(** A value at a path *)
Definition setTop (k v : string) (c : Config) : result string Config :=
  if (k =? "version")%string then
    match Atoi v with
    | Some n => Ok (mkConfig n (Cluster c) (Postgres c) (Inspector c) (Nodes c) (Gates c) (AccessRules c) (LifecycleRules c))
    | None => Err "cannot unmarshal into int"
    end
  else Ok c.
Definition setCluster (k v : string) (c : Config) : result string Config :=
  if (k =? "shards")%string then
    match Atoi v with
    | Some n => Ok (on_cluster (fun c => mkClusterConfig n (Provider c) (Etcd c) (ImbalanceThreshold c) (ClusterStateStabilityDuration c)
        (StuckShardReallocationTimeout c) (DefaultCallTimeout c) (DefaultCreateTimeout c) (DefaultDeleteTimeout c) (AutoLoadObjects c)) c)
    | None => Err "cannot unmarshal into int"
    end
  else if (k =? "provider")%string then
    Ok (on_cluster (fun c => mkClusterConfig (Shards c) v (Etcd c) (ImbalanceThreshold c) (ClusterStateStabilityDuration c)
      (StuckShardReallocationTimeout c) (DefaultCallTimeout c) (DefaultCreateTimeout c) (DefaultDeleteTimeout c) (AutoLoadObjects c)) c)
  else Ok c.
Definition set (path : list elem) (v : string) (c : Config) : result string Config :=
  match path with
  | [Key k] => setTop k v c
  | [Key k; Key s] =>
      if (s =? "cluster")%string then setCluster k v c
      else if (s =? "inspector")%string then
        Ok (mkConfig (Version c) (Cluster c) (Postgres c) (setInspectorField k v (Inspector c)) (Nodes c) (Gates c) (AccessRules c) (LifecycleRules c))
      else Ok c
  | [Key k; Key s; Key t] =>
      if (t =? "cluster")%string && (s =? "etcd")%string && (k =? "prefix")%string then Ok (on_etcd (fun e => mkEtcdConfig (Endpoints e) v) c)
      else Ok c
  | [Idx _; Key k; Key s; Key t] =>
      if (t =? "cluster")%string && (s =? "etcd")%string && (k =? "endpoints")%string
      then Ok (on_etcd (fun e => mkEtcdConfig (Endpoints e ++ [v]) (Prefix e)) c) else Ok c
  | [Key k; Idx i; Key s] =>
      if (s =? "nodes")%string then Ok (on_nodes (alter (setNodeField k v) i) c)
      else if (s =? "gates")%string then Ok (on_gates (alter (setGateField k v) i) c)
      else Ok c
  | _ => Ok c
  end.

(** A new mapping in a sequence *)
Definition grow (path : list elem) (c : Config) : Config :=
  match path with
  | [Idx _; Key s] =>
      if (s =? "nodes")%string then on_nodes (fun l => l ++ [mkNodeConfig "" "" "" ""]) c
      else if (s =? "gates")%string then on_gates (fun l => l ++ [mkGateConfig "" "" "" "" ""]) c
      else c
  | _ => c
  end.

(** What is open at an indentation *)
Fixpoint pop (d : nat) (st : list (nat * elem)) : list (nat * elem) :=
  match st with (e, x) :: rest => if (e <? d)%nat then st else pop d rest | [] => [] end.
Fixpoint nextIdx (d : nat) (st : list (nat * elem)) : nat :=
  match st with (e, Idx i) :: rest => if (e =? d)%nat then S i else nextIdx d rest | _ :: rest => nextIdx d rest | [] => O end.

Definition readLine (r : reader) (line : string) : result string reader :=
  let '(d, s) := indent line in
  if comment s then Ok r
  else match TrimPrefix_opt "- " s with
  | Some rest =>
      let st := (d, Idx (nextIdx d (stack r))) :: pop d (stack r) in
      let '(_, v) := indent rest in
      if comment v then Ok (mkReader st (grow (snd <$> st) (config r)))
      else match set (snd <$> st) (scalar v) (config r) with Ok c => Ok (mkReader st c) | Err e => Err e end
  | None =>
      match Cut ":" s with
      | None => Err "could not find expected ':'"
      | Some (k, rest) =>
          let st := (d, Key k) :: pop d (stack r) in
          let '(_, v) := indent rest in
          if comment v then Ok (mkReader st (config r))
          else if (v =? "[]")%string then Ok (mkReader st (config r))
          else match set (snd <$> st) (scalar v) (config r) with Ok c => Ok (mkReader st c) | Err e => Err e end
      end
  end.

Fixpoint readLines (r : reader) (lines : list string) : result string reader :=
  match lines with [] => Ok r | l :: rest => match readLine r l with Ok r' => readLines r' rest | Err e => Err e end end.

Definition empty : Config :=
  mkConfig 0 (mkClusterConfig 0 "" (mkEtcdConfig [] "") f0 0 0 0 0 0 []) (mkPostgresConfig "" 0 "" "" "" "" 0 0) (mkInspectorConfig "" "" "") [] [] [] [].

Definition Unmarshal (text : string) : result string Config :=
  match readLines (mkReader [] empty) (Split text newline) with Ok r => Ok (config r) | Err e => Err e end.

End ReadYaml.

(** The configuration the generator means *)
Definition address (host : string) (port : Z) : string := host +:+ ":" +:+ Itoa port.
Definition nodeFor (i : Z) : NodeConfig :=
  mkNodeConfig ("node-" +:+ Itoa i) (address "127.0.0.1" (50050 + i)) (address "localhost" (50050 + i)) (address "127.0.0.1" (8080 + i)).
Definition gateFor (i : Z) : GateConfig :=
  mkGateConfig ("gate-" +:+ Itoa i) (address "127.0.0.1" (60050 + i)) (address "localhost" (60050 + i)) (address "127.0.0.1" (8089 + i)) "".
Definition configOf (numNodes numGates : Z) (withInspector : bool) : Config :=
  mkConfig 1 (mkClusterConfig defaultShards "etcd" (mkEtcdConfig ["localhost:2379"] "/goverse") f0 0 0 0 0 0 [])
    (mkPostgresConfig "" 0 "" "" "" "" 0 0)
    (if withInspector then mkInspectorConfig "127.0.0.1:9081" "127.0.0.1:8080" "localhost:9081" else mkInspectorConfig "" "" "")
    (nodeFor <$> upTo numNodes) (gateFor <$> upTo numGates) [] [].

(** The ports on which the processes of the file listen *)
Definition listenPorts (numNodes numGates : Z) (withInspector : bool) : list Z :=
  (if withInspector then [9081; 8080]%Z else []) ++
  ((fun i => 50050 + i)%Z <$> upTo numNodes) ++ ((fun i => 8080 + i)%Z <$> upTo numNodes) ++
  ((fun i => 60050 + i)%Z <$> upTo numGates) ++ ((fun i => 8089 + i)%Z <$> upTo numGates).

(** ** Reading the file back *)

Import ReadYaml.

Lemma readLines_app r l1 l2 : readLines r (l1 ++ l2) = match readLines r l1 with Ok r' => readLines r' l2 | Err e => Err e end.
Proof. revert r. induction l1 as [|l l1 IH]; intros r; cbn; [done|]. destruct (readLine r l); [apply IH|done]. Qed.

Lemma readLine_comment r l d s : indent l = (d, s) -> comment s = true -> readLine r l = Ok r.
Proof. intros H1 H2. unfold readLine. by rewrite H1, H2. Qed.

Lemma readLine_quoted r l d k v c :
  indent l = (d, k +:+ String ":" (String " " (String quoteChar (v +:+ String quoteChar EmptyString)))) ->
  comment k = false -> HasPrefix k "- " = false -> (2 <= String.length k)%nat -> Contains k ":" = false -> Contains v quoteChar = false ->
  set (Key k :: (snd <$> pop d (stack r))) v (config r) = Ok c ->
  readLine r l = Ok (mkReader ((d, Key k) :: pop d (stack r)) c).
Proof.
  intros Hi Hc Hp Hl Hk Hv Hs. unfold readLine. rewrite Hi. destruct k as [|a [|b k]]; cbn in Hl; try lia.
  cbn [comment String.append] in *. rewrite Hc.
  replace (TrimPrefix_opt "- " _) with (@None string).
  2: { unfold HasPrefix in Hp. breflect. cbn in *. repeat case_bool_decide; try done. by destruct Hp. }
  change (String a (String b (k +:+ ?t))) with (String a (String b k) +:+ t). rewrite Cut_app by done.
  cbn [indent]. rewrite bool_decide_true by done. rewrite bool_decide_false by done. cbn [comment]. rewrite bool_decide_false by done.
  replace (String quoteChar (v +:+ String quoteChar EmptyString) =? "[]")%string with false by (by destruct v).
  cbn [scalar]. rewrite bool_decide_true by done. rewrite Cut_app by done. cbn [fmap list_fmap snd]. by rewrite Hs.
Qed.

Lemma address_no_quote host port : Contains host quoteChar = false -> Contains (address host port) quoteChar = false.
Proof. intros Hh. unfold address. rewrite !Contains_app, Hh. by rewrite Itoa_no_byte. Qed.

Lemma alter_last {A} (f : A -> A) l x : alter f (length l) (l ++ [x]) = l ++ [f x].
Proof. induction l as [|y l IH]; [done|]. cbn. by rewrite <-IH. Qed.

(** What is open at the start of an entry of a sequence that has [n] entries *)
Definition at_entry (name : string) (n : nat) (st : list (nat * elem)) : Prop := pop 2 st = [(O, Key name)] /\ nextIdx 2 st = n.

Lemma readLine_entry r l d s : indent l = (d, "- " +:+ s) -> comment (snd (indent s)) = true ->
  readLine r l = Ok (mkReader ((d, Idx (nextIdx d (stack r))) :: pop d (stack r))
                       (grow (Idx (nextIdx d (stack r)) :: (snd <$> pop d (stack r))) (config r))).
Proof.
  intros Hi Hc. unfold readLine. rewrite Hi. cbn [comment String.append]. rewrite bool_decide_false by done.
  change (String "-" (String " " s)) with ("- " +:+ s). rewrite (proj2 (TrimPrefix_opt_Some _ _ _) eq_refl).
  destruct (indent s) as [d' v]. cbn in Hc. by rewrite Hc.
Qed.

(** The next field of an entry *)
Ltac read_field k v := erewrite (readLine_quoted _ _ 4 k v);
  [|reflexivity|reflexivity|reflexivity|cbn; lia|reflexivity|first [by apply address_no_quote|by rewrite Contains_app, Itoa_no_byte]|reflexivity];
  cbn [stack config pop Nat.ltb Nat.leb].
Ltac read_comment := erewrite readLine_comment; [|reflexivity|reflexivity].

(** An entry is read as its node, or its gate. *)
Lemma read_nodeEntry i c st : at_entry "nodes" (length (Nodes c)) st -> exists st',
  readLines (mkReader st c) (nodeEntry i) = Ok (mkReader st' (on_nodes (fun l => l ++ [nodeFor i]) c)) /\
  at_entry "nodes" (S (length (Nodes c))) st'.
Proof.
  intros [Hp Hn]. exists [(4, Key "http_addr"); (2, Idx (length (Nodes c))); (0, Key "nodes")]. split.
  - unfold nodeEntry. rewrite readLines_app.
    replace (readLines (mkReader st c) (if (1 <? i)%Z then [""] else [])) with (Ok (E := string) (mkReader st c)) by (by destruct (1 <? i)%Z).
    cbn [readLines]. erewrite readLine_entry by reflexivity. cbn [stack config]. rewrite Hp, Hn. cbn [fmap list_fmap snd grow String.eqb Ascii.eqb Bool.eqb].
    read_field "id" ("node-" +:+ Itoa i). read_comment. read_comment.
    read_field "grpc_addr" (address "127.0.0.1" (50050 + i)). read_comment. read_comment.
    read_field "advertise_addr" (address "localhost" (50050 + i)). read_comment. read_comment.
    read_field "http_addr" (address "127.0.0.1" (8080 + i)).
    destruct c as [ver cl pg insp ns gs ar lr]. unfold on_nodes. cbn [Version Cluster Postgres Inspector Nodes Gates AccessRules LifecycleRules]. by rewrite !alter_last.
  - done.
Qed.

Lemma read_gateEntry i c st : at_entry "gates" (length (Gates c)) st -> exists st',
  readLines (mkReader st c) (gateEntry i) = Ok (mkReader st' (on_gates (fun l => l ++ [gateFor i]) c)) /\
  at_entry "gates" (S (length (Gates c))) st'.
Proof.
  intros [Hp Hn]. exists [(4, Key "http_addr"); (2, Idx (length (Gates c))); (0, Key "gates")]. split.
  - unfold gateEntry. rewrite readLines_app.
    replace (readLines (mkReader st c) (if (1 <? i)%Z then [""] else [])) with (Ok (E := string) (mkReader st c)) by (by destruct (1 <? i)%Z).
    cbn [readLines]. erewrite readLine_entry by reflexivity. cbn [stack config]. rewrite Hp, Hn. cbn [fmap list_fmap snd grow String.eqb Ascii.eqb Bool.eqb].
    read_field "id" ("gate-" +:+ Itoa i). read_comment. read_comment.
    read_field "grpc_addr" (address "127.0.0.1" (60050 + i)). read_comment. read_comment.
    read_field "advertise_addr" (address "localhost" (60050 + i)). read_comment. read_comment.
    read_field "http_addr" (address "127.0.0.1" (8089 + i)).
    destruct c as [ver cl pg insp ns gs ar lr]. unfold on_gates. cbn [Version Cluster Postgres Inspector Nodes Gates AccessRules LifecycleRules]. by rewrite !alter_last.
  - done.
Qed.

(** The loops over the entries *)
Lemma read_nodes ids : forall c st, at_entry "nodes" (length (Nodes c)) st -> exists st',
  readLines (mkReader st c) (ids ≫= nodeEntry) = Ok (mkReader st' (on_nodes (fun l => l ++ (nodeFor <$> ids)) c)).
Proof.
  induction ids as [|i ids IH]; intros c st Hat.
  - exists st. cbn. destruct c as [ver cl pg insp ns gs ar lr]. unfold on_nodes. cbn. by rewrite app_nil_r.
  - destruct (read_nodeEntry i c st Hat) as (st1 & Hr & Hat1). cbn [mbind list_bind]. rewrite readLines_app, Hr.
    destruct (IH (on_nodes (fun l => l ++ [nodeFor i]) c) st1) as [st2 Hr2].
    { destruct c as [ver cl pg insp ns gs ar lr]. cbn in *. by rewrite length_app, Nat.add_comm. }
    exists st2. refine (eq_trans Hr2 _). destruct c as [ver cl pg insp ns gs ar lr]. unfold on_nodes. cbn. by rewrite <-app_assoc.
Qed.

Lemma read_gates ids : forall c st, at_entry "gates" (length (Gates c)) st -> exists st',
  readLines (mkReader st c) (ids ≫= gateEntry) = Ok (mkReader st' (on_gates (fun l => l ++ (gateFor <$> ids)) c)).
Proof.
  induction ids as [|i ids IH]; intros c st Hat.
  - exists st. cbn. destruct c as [ver cl pg insp ns gs ar lr]. unfold on_gates. cbn. by rewrite app_nil_r.
  - destruct (read_gateEntry i c st Hat) as (st1 & Hr & Hat1). cbn [mbind list_bind]. rewrite readLines_app, Hr.
    destruct (IH (on_gates (fun l => l ++ [gateFor i]) c) st1) as [st2 Hr2].
    { destruct c as [ver cl pg insp ns gs ar lr]. cbn in *. by rewrite length_app, Nat.add_comm. }
    exists st2. refine (eq_trans Hr2 _). destruct c as [ver cl pg insp ns gs ar lr]. unfold on_gates. cbn. by rewrite <-app_assoc.
Qed.

Lemma pop_0 st : pop 0 st = [].
Proof. induction st as [|[e x] st IH]; [done|exact IH]. Qed.

(** A line at the left margin that opens a section, or gives it no entries *)
Lemma readLine_section r l k v : l = k +:+ String ":" v -> comment k = false -> TrimPrefix_opt "- " l = None -> Contains k ":" = false ->
  indent l = (O, l) -> v = "" \/ v = " []" -> readLine r l = Ok (mkReader [(O, Key k)] (config r)).
Proof.
  intros Hl Hc Ht Hk Hi Hv. unfold readLine. rewrite Hi, Ht. replace (comment l) with false by (subst l; by destruct k).
  rewrite Hl, Cut_app, pop_0 by done. by destruct Hv as [->| ->].
Qed.

Lemma readLines_comments r ls : forallb (fun l => comment (snd (indent l))) ls = true -> readLines r ls = Ok r.
Proof.
  induction ls as [|l ls IH]; cbn [forallb readLines]; [done|]. intros [Hl Hls]%andb_prop. destruct (indent l) as [d s] eqn:Hi.
  rewrite (readLine_comment _ _ _ _ Hi Hl). by apply IH.
Qed.

Lemma upTo_nil n : (n <= 0)%Z -> upTo n = [].
Proof. intros Hn. unfold upTo. by replace (Z.to_nat n) with O by lia. Qed.

(** The lines from the gates on *)
Lemma read_gatesSection g st c : (0 <= g)%Z -> Gates c = [] -> exists st',
  readLines (mkReader st c) (if (g =? 0)%Z then noGates else "gates:" :: (upTo g ≫= gateEntry)) =
    Ok (mkReader st' (on_gates (fun l => l ++ (gateFor <$> upTo g)) c)).
Proof.
  intros Hg Hc. destruct (g =? 0)%Z eqn:Hg0.
  - assert (g = 0%Z) as -> by lia. exists [(O, Key "gates")]. change noGates with (take 1 noGates ++ "gates: []" :: drop 2 noGates).
    rewrite readLines_app, readLines_comments by reflexivity. cbn [readLines].
    rewrite (readLine_section _ _ "gates" " []"), readLines_comments by (reflexivity || by right).
    destruct c as [ver cl pg insp ns gs ar lr]. cbn in *. by subst gs.
  - cbn [readLines]. rewrite (readLine_section _ _ "gates" "") by (reflexivity || by left).
    apply (read_gates (upTo g) c [(O, Key "gates")]). by rewrite Hc.
Qed.

(** The whole file *)
Lemma read_configLines n g b : (0 <= g)%Z -> exists st,
  readLines (mkReader [] empty) (configLines n g b) = Ok (mkReader st (configOf n g b)).
Proof.
  intros Hg. unfold configLines. rewrite (app_assoc header), (app_assoc (header ++ _)), (app_assoc ((header ++ _) ++ _)), readLines_app.
  set (c0 := configOf 0 0 b).
  replace (readLines (mkReader [] empty) _) with (Ok (E := string) (mkReader [(O, Key "nodes")] c0)) by (destruct b; vm_compute; reflexivity).
  rewrite readLines_app. destruct (read_nodes (upTo n) c0 [(O, Key "nodes")]) as [st1 ->]; [by destruct b|].
  set (c1 := on_nodes _ c0). rewrite readLines_app, readLines_comments by reflexivity.
  rewrite readLines_app, readLines_comments by reflexivity. rewrite readLines_app.
  destruct (read_gatesSection g st1 c1) as [st2 ->]; [done|by destruct b|]. rewrite readLines_app, !readLines_comments by reflexivity.
  exists st2. do 2 f_equal.
Qed.

(** ** The text of the file *)

Lemma Split_joinLines ls : Forall (fun l => Contains l newline = false) ls -> Split (joinLines ls) newline = ls ++ [""].
Proof. induction 1 as [|l ls Hl _ IH]; cbn [joinLines app]; [done|]. by rewrite Split_app, IH. Qed.

Lemma one_line_app a b : Contains a newline = false -> Contains b newline = false -> Contains (a +:+ b) newline = false.
Proof. intros Ha Hb. by rewrite Contains_app, Ha, Hb. Qed.
Lemma one_line_Itoa z : Contains (Itoa z) newline = false.
Proof. by apply Itoa_no_byte. Qed.

Lemma one_lines ls : forallb (fun l => negb (Contains l newline)) ls = true -> Forall (fun l => Contains l newline = false) ls.
Proof. intros H. apply Forall_forall. intros l Hl. rewrite forallb_forall in H. apply negb_true_iff, H. by apply list_elem_of_In. Qed.

(** A symbolic line is one line. *)
Ltac one_line := repeat first [apply one_line_app|apply one_line_Itoa|reflexivity].

Lemma entry_lines i : Forall (fun l => Contains l newline = false) (nodeEntry i) /\ Forall (fun l => Contains l newline = false) (gateEntry i).
Proof.
  unfold nodeEntry, gateEntry.
  split; apply Forall_app; (split; [by destruct (1 <? i)%Z; constructor|]); repeat (apply Forall_cons; split; [one_line|]); constructor.
Qed.

Lemma configLines_lines n g b : Forall (fun l => Contains l newline = false) (configLines n g b).
Proof.
  unfold configLines.
  assert (forall f : Z -> list string, (forall i, Forall (fun l => Contains l newline = false) (f i)) -> forall l, Forall (fun l => Contains l newline = false) (l ≫= f)) as Hb.
  { intros f Hf l. induction l as [|x l IH]; cbn; [constructor|]. apply Forall_app. by split. }
  rewrite !Forall_app. split_and!; [apply one_lines; reflexivity|apply one_lines; reflexivity| |apply one_lines; reflexivity|apply Hb; apply entry_lines
    |apply one_lines; reflexivity|apply one_lines; reflexivity| |apply one_lines; reflexivity|apply one_lines; reflexivity].
  - apply one_lines. by destruct b.
  - destruct (g =? 0)%Z; [by apply one_lines|]. apply Forall_cons. split; [reflexivity|]. apply Hb. apply entry_lines.
Qed.

Lemma Unmarshal_generated n g b text : (0 <= g)%Z -> generateConfig (Ok tt) (Ok tt) n g b = Ok text -> ReadYaml.Unmarshal text = Ok (configOf n g b).
Proof.
  intros Hg Ht. assert (text = joinLines (configLines n g b)) as -> by (unfold generateConfig in Ht; congruence). unfold ReadYaml.Unmarshal. rewrite Split_joinLines by apply configLines_lines. rewrite readLines_app.
  by destruct (read_configLines n g b Hg) as [st ->].
Qed.

(** ** The configuration is valid *)

Lemma elem_of_upTo n i : i ∈ upTo n <-> (1 <= i <= n)%Z.
Proof.
  unfold upTo. rewrite list_elem_of_fmap. setoid_rewrite list_elem_of_In. setoid_rewrite in_seq. split; [intros (k & -> & Hk); lia|].
  intros Hi. exists (Z.to_nat i). lia.
Qed.

Lemma NoDup_upTo n : NoDup (upTo n).
Proof. unfold upTo. apply NoDup_fmap_2; [intros a b; lia|]. apply NoDup_ListNoDup, seq_NoDup. Qed.

Lemma NoDup_ids {A} (f : A -> string) (mk : Z -> A) (pre : string) n : (n < 2 ^ 62)%Z -> (forall i, f (mk i) = pre +:+ Itoa i) -> NoDup (f <$> (mk <$> upTo n)).
Proof.
  intros Hn Hf. rewrite <-list_fmap_compose. apply NoDup_fmap_2_strong; [|apply NoDup_upTo].
  intros i j Hi%elem_of_upTo Hj%elem_of_upTo. unfold compose. rewrite !Hf. intros E%(inj (String.append pre)). apply Itoa_inj; unfold in_int64; lia || done.
Qed.

Lemma configOf_valid n g b : (n < 2 ^ 62)%Z -> (g < 2 ^ 62)%Z -> valid_config (configOf n g b).
Proof.
  intros Hn Hg. split; try done.
  - by apply (NoDup_ids _ _ "node-").
  - apply Forall_forall. intros x Hx. apply list_elem_of_fmap in Hx as (i & -> & _). done.
  - by apply (NoDup_ids _ _ "gate-").
  - apply Forall_forall. intros x Hx. apply list_elem_of_fmap in Hx as (i & -> & _). done.
Qed.

(** ** Properties *)

Section Generated.
Context {St Msg Data Any P : Type} `{PersistenceProvider P}.

(** A generated file starts the cluster it describes.  When the YAML library reads the text by the rules of
    YAML, [LoadConfig] accepts the file, its content is the configuration meant, and each of its nodes and
    gates starts with [--config] and its id alone, in a world where etcd is up. *)
Theorem generated_file_starts (Unmarshal : string -> result string Config) (ReadFile : string -> result string string)
    (path text : string) (n g : Z) (b : bool) (e : Startup.env) (store : P) :
  (1 <= n < 2 ^ 62)%Z -> (0 <= g < 2 ^ 62)%Z -> generateConfig (Ok tt) (Ok tt) n g b = Ok text ->
  path <> "" -> ReadFile path = Ok text -> Unmarshal text = ReadYaml.Unmarshal text -> healthy e ->
  let load := LoadConfig ReadFile Unmarshal in
  load path = Ok (configOf n g b) /\
  (forall i, (1 <= i <= n)%Z -> exists sc fx s,
     snd (NodeLoader.Load load (nodeFlags path ("node-" +:+ Itoa i))) = Ok sc /\
     Startup.NewServer (St := St) (Msg := Msg) (Data := Data) e store (Some sc) = (fx, Ok s) /\
     Startup.ListenAddress sc = address "127.0.0.1" (50050 + i) /\
     Nodes.advertiseAddress (Servers.Node (Startup.server s)) = address "localhost" (50050 + i)) /\
  (forall i, (1 <= i <= g)%Z -> exists gc fx s,
     snd (GateLoader.Load load (gateFlags path ("gate-" +:+ Itoa i))) = Ok gc /\
     Startup.NewGateServer (St := St) (Msg := Msg) (Data := Data) (Any := Any) (P := P) e (Some gc) = (fx, Ok s) /\
     Startup.gListenAddress gc = address "127.0.0.1" (60050 + i) /\
     Gates.advertiseAddress (Startup.gate s) = address "localhost" (60050 + i)).
Proof.
  intros Hn Hg Ht Hp Hf Hy He load.
  pose proof (configOf_valid n g b (proj2 Hn) (proj2 Hg)) as Hv.
  assert (load path = Ok (configOf n g b)) as Hl.
  { unfold load, LoadConfig. rewrite Hf, Hy, (Unmarshal_generated n g b) by (done || lia).
    apply Validate_iff in Hv. revert Hv. generalize (configOf n g b). intros c Hv. by rewrite Hv. }
  destruct Hv as [_ _ _ _ _ Hnd _ Hgd _ _]. split; [done|]. split; intros i Hi.
  - assert (nodeFor i ∈ Nodes (configOf n g b)) as Hin by (apply list_elem_of_fmap_2, elem_of_upTo; lia).
    destruct (NewServer_ok (St := St) (Msg := Msg) (Data := Data) e store (NodeLoader.fromFile (configOf n g b) (nodeFor i)) (configOf n g b))
      as (fx & s & Hs & _ & _ & _ & _ & Ha); try done; [by left|].
    do 3 eexists. split; [apply (Load_node load path (configOf n g b) (nodeFor i)); try done; by apply findNode_spec|]. by rewrite Ha.
  - assert (gateFor i ∈ Gates (configOf n g b)) as Hin by (apply list_elem_of_fmap_2, elem_of_upTo; lia).
    destruct (NewGateServer_ok (St := St) (Msg := Msg) (Data := Data) (Any := Any) (P := P) e (GateLoader.fromFile (configOf n g b) (gateFor i)))
      as (fx & s & Hs & _ & _ & Ha & _); try done.
    do 3 eexists. split; [apply (Load_gate load path (configOf n g b) (gateFor i)); try done; by apply findGate_spec|]. by rewrite Ha.
Qed.
End Generated.

(** The program writes a file exactly when it is given one name, at least one node and no negative number
    of gates, and the file can be written; otherwise it ends with code 1. *)
Theorem main_writes_iff Create Write args n g b :
  let o := main Create Write args n g b in
  (code o = 0%Z <-> is_Some (written o)) /\
  (is_Some (written o) <-> length args = 1 /\ (1 <= n)%Z /\ (0 <= g)%Z /\ is_ok Create = true /\ is_ok Write = true).
Proof.
  cbv zeta. assert (is_Some (written (main Create Write args n g b)) /\ code (main Create Write args n g b) = 0%Z \/
    written (main Create Write args n g b) = None /\ code (main Create Write args n g b) = 1%Z) as Hc.
  { unfold main. repeat case_match; cbn [code written]; eauto. }
  split; [destruct Hc as [[[x ->] ->]|[-> ->]]; split; [by eexists|done|done|by intros []]|]. clear Hc.
  assert (forall Q : Prop, ~ Q -> is_Some (@None (string * string)) <-> Q) as Hno by (intros Q HQ; split; [by intros [? [=]]|done]).
  unfold main. destruct args as [|f [|? ?]]; [apply Hno; by intros []| |apply Hno; by intros []].
  destruct (n <? 1)%Z eqn:Hn; [apply Hno; lia|]. destruct (g <? 0)%Z eqn:Hg; [apply Hno; lia|].
  unfold generateConfig. destruct Create, Write; cbn [written is_ok]; try (apply Hno; by intros (_ & _ & _ & ? & ?)).
  split; [intros _; split_and!; done || lia|by eexists].
Qed.

(** The processes of a generated file can run on one machine exactly when the file has no gate or fewer than
    ten nodes: the HTTP port of node ten is that of gate one. *)
Theorem generated_ports_distinct_iff n g b : (1 <= n <= 1000)%Z -> (0 <= g <= 990)%Z ->
  NoDup (listenPorts n g b) <-> g = 0%Z \/ (n < 10)%Z.
Proof.
  intros Hn Hg. split.
  - intros Hd. destruct (decide (g = 0%Z \/ (n < 10)%Z)) as [|Hno]; [done|]. exfalso.
    unfold listenPorts in Hd. rewrite !NoDup_app in Hd. destruct Hd as (_ & _ & _ & _ & _ & Hx & _).
    apply (Hx 8090%Z); [apply list_elem_of_fmap; exists 10%Z; split; [done|apply elem_of_upTo; lia]|].
    apply elem_of_app. right. apply list_elem_of_fmap. exists 1%Z. split; [done|]. apply elem_of_upTo. lia.
  - intros Hc. unfold listenPorts.
    assert (forall k m, NoDup ((fun i => k + i)%Z <$> upTo m)) as Hm by (intros k m; apply NoDup_fmap_2; [intros x y; lia|apply NoDup_upTo]).
    assert (forall k m x, x ∈ ((fun i => k + i)%Z <$> upTo m) <-> (k + 1 <= x <= k + m)%Z) as Hx.
    { intros k m x. rewrite list_elem_of_fmap. setoid_rewrite elem_of_upTo. split; [intros (i & -> & Hi); lia|]. intros Hi. exists (x - k)%Z. lia. }
    rewrite !NoDup_app. split_and!; auto.
    + destruct b; [|constructor]. apply (bool_decide_unpack _). by vm_compute.
    + intros x Hb. rewrite !elem_of_app, !Hx. destruct b; [|by apply elem_of_nil in Hb].
      rewrite !elem_of_cons, elem_of_nil in Hb. lia.
    + intros x. rewrite !elem_of_app, !Hx. lia.
    + intros x. rewrite !elem_of_app, !Hx. lia.
    + intros x. rewrite !Hx. lia.
Qed.

Lemma generated_file_starts_witness :
  exists text sc fx s, generateConfig (Ok tt) (Ok tt) 2 1 true = Ok text /\
    snd (NodeLoader.Load (LoadConfig (fun _ => Ok text) ReadYaml.Unmarshal) (nodeFlags "cluster.yml" "node-2")) = Ok sc /\
    Startup.NewServer (St := nat) (Msg := string) (Data := string) env_up (Counter.db0 []) (Some sc) = (fx, Ok s) /\
    Startup.ListenAddress sc = "127.0.0.1:50052".
Proof.
  exists (joinLines (configLines 2 1 true)).
  destruct (generated_file_starts (St := nat) (Msg := string) (Data := string) (Any := string) ReadYaml.Unmarshal
    (fun _ => Ok (joinLines (configLines 2 1 true))) "cluster.yml" (joinLines (configLines 2 1 true)) 2 1 true env_up (Counter.db0 []))
    as (_ & Hn & _); [lia|lia|reflexivity|discriminate|reflexivity|reflexivity|split_and!; reflexivity|].
  destruct (Hn 2%Z ltac:(lia)) as (sc & fx & s & H1 & H2 & H3 & _). exists sc, fx, s.
  split; [reflexivity|]. split; [exact H1|]. split; [exact H2|]. rewrite H3. reflexivity.
Defined.
