(* ===== verification/PgAdmin.v ===== *)
(** * The database tool and the schema (cmd/pgadmin/main.go, util/postgres/db.go: InitSchema, server/server.go: preflightGoverseSchema)

    [Module Catalog]: what the statements of [InitSchema] and of the reset do to a database, by the rules of
    PostgreSQL: a name without a schema is looked up along the search path and created in its first schema, and the
    statements of one call without parameters are one transaction.  The columns and constraints of the tables are in
    Persistence.v.  [Module PgAdmin]: the commands of the tool, each with what it prints as a list of lines, on a
    connection whose statements can fail before or after they take effect, and its main program with flags
    and configuration file.  Latency, version and size of the database are not modelled. *)

From S2P Require Import Prelude GoStrings Persistence AccessControl Startup.
Import Postgres.

Module Catalog.

Inductive table : Type :=
| ObjectRows (rows : gmap string ObjectData)
| CallRows (rows : list ReliableCall) (next : Z).

(** The schemas of the search path that exist; the relations by schema and name *)
Record catalog : Type := mkCatalog {
  path : list string;
  relations : gmap (string * string) table;
  indexes : gmap (string * string) string;              (* the table of an index, which is in the same schema *)
  functions : gset (string * string);
  triggers : gmap (string * string) (string * string)   (* the timestamp trigger of a table, with its function *)
}.

(** Where a name is found *)
Definition resolve (c : catalog) (name : string) : option (string * string) :=
  (fun s => (s, name)) <$> List.find (fun s => bool_decide (is_Some (relations c !! (s, name)))) (path c).
Definition resolveFunction (c : catalog) (name : string) : option (string * string) :=
  (fun s => (s, name)) <$> List.find (fun s => bool_decide ((s, name) ∈ functions c)) (path c).

Inductive ddl : Type :=
| CreateTable (name : string) (content : table)         (* IF NOT EXISTS *)
| CreateIndex (name on_table : string)                  (* IF NOT EXISTS *)
| CreateFunction (name : string)                        (* OR REPLACE *)
| DropTrigger (on_table : string)                       (* IF EXISTS *)
| CreateTrigger (on_table function : string)
| DropTable (name : string)                             (* IF EXISTS, CASCADE *)
| DropFunction (name : string).                         (* IF EXISTS, CASCADE *)

Definition run1 (c : catalog) (d : ddl) : result string catalog :=
  match d with
  | CreateTable n t =>
      match path c with
      | [] => Err "no schema has been selected to create in"
      | s :: _ => Ok (mkCatalog (path c) (if bool_decide (is_Some (relations c !! (s, n))) then relations c else <[(s, n) := t]> (relations c))
                        (indexes c) (functions c) (triggers c))
      end
  | CreateIndex ix n =>
      match resolve c n with
      | None => Err "relation does not exist"
      | Some (s, _) => Ok (mkCatalog (path c) (relations c)
                             (if bool_decide (is_Some (indexes c !! (s, ix))) then indexes c else <[(s, ix) := n]> (indexes c)) (functions c) (triggers c))
      end
  | CreateFunction f =>
      match path c with
      | [] => Err "no schema has been selected to create in"
      | s :: _ => Ok (mkCatalog (path c) (relations c) (indexes c) ({[(s, f)]} ∪ functions c) (triggers c))
      end
  | DropTrigger n =>
      match resolve c n with
      | None => Ok c
      | Some k => Ok (mkCatalog (path c) (relations c) (indexes c) (functions c) (delete k (triggers c)))
      end
  | CreateTrigger n f =>
      match resolve c n, resolveFunction c f with
      | Some k, Some fk =>
          if bool_decide (is_Some (triggers c !! k)) then Err "trigger already exists"
          else Ok (mkCatalog (path c) (relations c) (indexes c) (functions c) (<[k := fk]> (triggers c)))
      | None, _ => Err "relation does not exist"
      | _, None => Err "function does not exist"
      end
  | DropTable n =>
      match resolve c n with
      | None => Ok c
      | Some k => Ok (mkCatalog (path c) (delete k (relations c)) (filter (fun x => ~ (x.1.1 = k.1 /\ x.2 = k.2)) (indexes c)) (functions c) (delete k (triggers c)))
      end
  | DropFunction f =>
      match resolveFunction c f with
      | None => Ok c
      | Some k => Ok (mkCatalog (path c) (relations c) (indexes c) (functions c ∖ {[k]}) (filter (fun x => x.2 <> k) (triggers c)))
      end
  end.

(** The statements of one call: all or none of them *)
Fixpoint runAll (c : catalog) (l : list ddl) : result string catalog :=
  match l with [] => Ok c | d :: l => match run1 c d with Ok c => runAll c l | Err e => Err e end end.

Definition tableObjects : string := "goverse_objects".
Definition tableReliableCalls : string := "goverse_reliable_calls".
Definition timestampFunction : string := "update_goverse_reliable_calls_timestamp".

(** The text of [InitSchema] *)
Definition schemaSQL : list ddl :=
  [CreateTable tableObjects (ObjectRows ∅);
   CreateIndex "idx_goverse_objects_type" tableObjects;
   CreateIndex "idx_goverse_objects_updated_at" tableObjects;
   CreateTable tableReliableCalls (CallRows [] 1);
   CreateIndex "idx_goverse_reliable_calls_object_status" tableReliableCalls;
   CreateFunction timestampFunction;
   DropTrigger tableReliableCalls;
   CreateTrigger tableReliableCalls timestampFunction].

Definition dropSchemaSQL : list ddl :=
  [DropTrigger tableReliableCalls; DropTable tableReliableCalls; DropTable tableObjects; DropFunction timestampFunction].

(** [preflightGoverseSchema]'s query: [to_regclass] looks along the search path *)
Definition ready (c : catalog) : bool :=
  bool_decide (is_Some (resolve c tableObjects)) && bool_decide (is_Some (resolve c tableReliableCalls)).

End Catalog.
Import Catalog.

Module PgAdmin.

(** What a command prints about a table or an index *)
Inductive line : Type :=
| TableCreated (name : string)
| TableFound (name : string) (found : bool)
| IndexFound (name : string) (found : bool)
| TableRows (name : string) (count : option nat)
| Cancelled.

(** The database, the faults of the next statements, and the lines printed so far *)
Record world : Type := mkWorld { cat : catalog; pending : list fault; out : list line }.

Definition M (A : Type) : Type := world -> world * result string A.
Definition ret {A} (x : A) : M A := fun w => (w, Ok x).
Definition fail {A} (e : string) : M A := fun w => (w, Err e).
Definition bind {A B} (m : M A) (k : A -> M B) : M B := fun w => match m w with (w, Ok x) => k x w | (w, Err e) => (w, Err e) end.
Definition print (l : line) : M () := fun w => (mkWorld (cat w) (pending w) (out w ++ [l]), Ok tt).
Definition wrap {A} (pre : string) (m : M A) : M A := fun w => match m w with (w, Err e) => (w, Err (pre +:+ e)) | r => r end.
Definition lift {A} (r : result string A) : M A := fun w => (w, r).
Definition whole : M catalog := fun w => (w, Ok (cat w)).
Local Notation "x <- m ;; k" := (bind m (fun x => k)) (at level 100, m at next level, right associativity).

(** One statement on the connection *)
Definition statement {A} (f : catalog -> catalog * result string A) : M A := fun w =>
  let '(flt, rest) := match pending w with [] => (NoFault, []) | f :: fs => (f, fs) end in
  let w := mkWorld (cat w) rest (out w) in
  match flt with
  | NoFault => let '(c, r) := f (cat w) in (mkWorld c rest (out w), r)
  | FailBefore m => (w, Err m)
  | FailAfter m => (mkWorld (fst (f (cat w))) rest (out w), Err m)
  end.

Definition execSQL (l : list ddl) : M () :=
  statement (fun c => match runAll c l with Ok c' => (c', Ok tt) | Err e => (c, Err e) end).

(** [DB.InitSchema] *)
Definition InitSchema : M () := wrap "failed to initialize schema: " (execSQL schemaSQL).

Definition tables : list string := [tableObjects; tableReliableCalls].
Definition tableIndexes : list (string * list string) :=
  [(tableObjects, ["idx_goverse_objects_type"; "idx_goverse_objects_updated_at"]);
   (tableReliableCalls, ["idx_goverse_reliable_calls_object_status"])].

(** [tableExists], [indexExists]: their queries name the schema [public] *)
Definition tableExists (name : string) : M bool := statement (fun c => (c, Ok (bool_decide (is_Some (relations c !! ("public", name)))))).
Definition indexExists (tableName indexName : string) : M bool :=
  statement (fun c => (c, Ok (bool_decide (indexes c !! ("public", indexName) = Some tableName)))).

(** [isValidTableName] *)
Definition isValidTableName (tableName : string) : bool := existsb (fun t => (tableName =? t)%string) tables.

(** [SELECT COUNT( * )] *)
Definition countRows (name : string) : M nat :=
  statement (fun c => (c, match resolve c name ≫= (fun k => relations c !! k) with
                          | Some (ObjectRows rows) => Ok (size rows)
                          | Some (CallRows rows _) => Ok (length rows)
                          | None => Err "relation does not exist"
                          end)).

(** [postgres.NewDB] and [Ping]: the answers of the environment *)
Definition connect (e : Startup.env) (config : PgConf.Config) : M PgConf.DB :=
  db <- wrap "failed to connect to database: " (lift (PgConf.NewDB (Startup.sqlOpen e) config)) ;;
  _ <- wrap "failed to ping database: " (lift (Startup.ping e)) ;;
  ret db.

Fixpoint each {A} (l : list A) (f : A -> M ()) : M () := match l with [] => ret tt | x :: l => _ <- f x ;; each l f end.

(** [initSchema] *)
Definition initSchema (e : Startup.env) (config : PgConf.Config) : M () :=
  _ <- connect e config ;;
  _ <- wrap "failed to initialize schema: " InitSchema ;;
  each tables (fun t =>
    exists_ <- wrap ("failed to verify table " +:+ t +:+ ": ") (tableExists t) ;;
    if exists_ : bool then print (TableCreated t) else fail ("table '" +:+ t +:+ "' was not created")).

(** The loop of [verifyDatabase] over the tables *)
Fixpoint checkTables (l : list string) (allTablesExist : bool) : M bool :=
  match l with
  | [] => ret allTablesExist
  | t :: l =>
      found <- wrap ("failed to check table " +:+ t +:+ ": ") (tableExists t) ;;
      _ <- print (TableFound t found) ;;
      checkTables l (if found : bool then allTablesExist else false)
  end.

(** [verifyDatabase]; the map of indexes is ranged over in some order *)
Definition verifyDatabase (e : Startup.env) (config : PgConf.Config) (range : list (string * list string)) : M () :=
  _ <- connect e config ;;
  all <- checkTables tables true ;;
  if negb all then fail "schema verification failed"
  else each range (fun x => each (snd x) (fun ix =>
         found <- wrap ("failed to check index " +:+ ix +:+ ": ") (indexExists (fst x) ix) ;;
         print (IndexFound ix found))).

Definition lower_byte (c : ascii) : ascii :=
  let n := Ascii.nat_of_ascii c in if (65 <=? n)%nat && (n <=? 90)%nat then Ascii.ascii_of_nat (n + 32) else c.
(** [strings.ToLower] on ASCII; no other letter has y, e or s as its lower case *)
Fixpoint ToLower (s : string) : string :=
  match s with EmptyString => EmptyString | String c s => String (lower_byte c) (ToLower s) end.

(** [resetSchemaWithInput]: [input] is the first line of the input, when there is one *)
Definition resetSchemaWithInput (e : Startup.env) (config : PgConf.Config) (input : option string) : M () :=
  match input with
  | None => fail "failed to read input"
  | Some text =>
      if bool_decide (ToLower (TrimSpace text) <> "yes") then print Cancelled
      else
        _ <- connect e config ;;
        _ <- wrap "failed to drop tables: " (execSQL dropSchemaSQL) ;;
        wrap "failed to initialize schema: " InitSchema
  end.

(** [showStatus] on the tables; [version] is the answer to the version query *)
Definition showStatus (e : Startup.env) (config : PgConf.Config) : M () :=
  _ <- connect e config ;;
  _ <- wrap "failed to get version: " (statement (fun c => (c, Ok tt))) ;;
  each tables (fun t =>
    found <- wrap ("failed to check table " +:+ t +:+ ": ") (tableExists t) ;;
    if negb found then print (TableFound t false)
    else if negb (isValidTableName t) then print (TableFound t false)
    else fun w => match countRows t w with
                  | (w, Ok n) => print (TableRows t (Some n)) w
                  | (w, Err _) => print (TableRows t None) w
                  end).

Inductive command : Type := CommandInit | CommandVerify | CommandReset | CommandStatus.

(** [executeCommand] *)
Definition executeCommand (e : Startup.env) (c : command) (config : PgConf.Config) (range : list (string * list string)) (input : option string) : M () :=
  match c with
  | CommandInit => initSchema e config
  | CommandVerify => verifyDatabase e config range
  | CommandReset => resetSchemaWithInput e config input
  | CommandStatus => showStatus e config
  end.

Definition parseCommand (s : string) : option command :=
  if (s =? "init")%string then Some CommandInit else if (s =? "verify")%string then Some CommandVerify
  else if (s =? "reset")%string then Some CommandReset else if (s =? "status")%string then Some CommandStatus else None.

Definition orDefault (d v : string) : string := if bool_decide (v = "") then d else v.

(** The configuration that [main] uses: that of the file with defaults, or that of the flags *)
Definition pgConfig (load : string -> result string Conf.Config) (configFile : string) (flags : PgConf.Config) : result string PgConf.Config :=
  if bool_decide (configFile <> "") then
    match load configFile with
    | Err e => Err e
    | Ok cfg =>
        let p := Conf.Postgres cfg in
        Ok (PgConf.mkConfig (orDefault "localhost" (Conf.Host p)) (if (Conf.Port p =? 0)%Z then 5432 else Conf.Port p)
              (orDefault "goverse" (Conf.User p)) (Conf.Password p) (orDefault "goverse" (Conf.Database p)) (orDefault "disable" (Conf.SSLMode p)) 0 0)
    end
  else Ok flags.

(** [main]: the exit code *)
Definition main (e : Startup.env) (load : string -> result string Conf.Config) (args : list string) (configFile : string) (flags : PgConf.Config)
    (range : list (string * list string)) (input : option string) (w : world) : world * Z :=
  match args with
  | [a] =>
      match parseCommand a with
      | None => (w, 1%Z)
      | Some c =>
          match pgConfig load configFile flags with
          | Err _ => (w, 1%Z)
          | Ok cfg => match executeCommand e c cfg range input w with (w, Ok _) => (w, 0%Z) | (w, Err _) => (w, 1%Z) end
          end
      end
  | _ => (w, 1%Z)
  end.

End PgAdmin.
Import PgAdmin.

(** ** The schema *)

Section Schema.
Implicit Types (c : catalog).

Lemma resolve_head c s p n : path c = s :: p -> is_Some (relations c !! (s, n)) -> resolve c n = Some (s, n).
Proof. intros Hp Hn. unfold resolve. rewrite Hp. cbn [List.find]. by rewrite bool_decide_true. Qed.
Lemma resolveFunction_head c s p f : path c = s :: p -> (s, f) ∈ functions c -> resolveFunction c f = Some (s, f).
Proof. intros Hp Hf. unfold resolveFunction. rewrite Hp. cbn [List.find]. by rewrite bool_decide_true. Qed.

(** A relation that is added when it is missing *)
Definition add {A} (k : string * string) (x : A) (m : gmap (string * string) A) : gmap (string * string) A :=
  if bool_decide (is_Some (m !! k)) then m else <[k := x]> m.

Lemma add_found {A} k (x : A) m : is_Some (add k x m !! k).
Proof. unfold add. case_bool_decide; [done|]. rewrite lookup_insert_eq. by eexists. Qed.
Lemma add_keeps {A} k (x : A) m j y : m !! j = Some y -> add k x m !! j = Some y.
Proof. intros Hj. unfold add. case_bool_decide as Hk; [done|]. rewrite lookup_insert_ne; [done|]. intros ->. by rewrite Hj in Hk; destruct Hk. Qed.
Lemma add_keeps_some {A} k (x : A) m j : is_Some (m !! j) -> is_Some (add k x m !! j).
Proof. intros [y Hy]. exists y. by apply add_keeps. Qed.
Lemma add_again {A} k (x : A) m : is_Some (m !! k) -> add k x m = m.
Proof. intros Hk. unfold add. by rewrite bool_decide_true. Qed.

(** What [InitSchema] makes of a database *)
Definition initialised c (s : string) : catalog :=
  mkCatalog (path c)
    (add (s, tableReliableCalls) (CallRows [] 1) (add (s, tableObjects) (ObjectRows ∅) (relations c)))
    (add (s, "idx_goverse_reliable_calls_object_status") tableReliableCalls
      (add (s, "idx_goverse_objects_updated_at") tableObjects (add (s, "idx_goverse_objects_type") tableObjects (indexes c))))
    ({[(s, timestampFunction)]} ∪ functions c)
    (<[(s, tableReliableCalls) := (s, timestampFunction)]> (delete (s, tableReliableCalls) (triggers c))).

Lemma runAll_cons c d l c' : run1 c d = Ok c' -> runAll c (d :: l) = runAll c' l.
Proof. intros Hr. cbn [runAll]. by rewrite Hr. Qed.

(** The statements on a catalog whose search path starts with [s] *)
Lemma run1_table s p R I F T n t : run1 (mkCatalog (s :: p) R I F T) (CreateTable n t) = Ok (mkCatalog (s :: p) (add (s, n) t R) I F T).
Proof. done. Qed.
Lemma run1_index s p R I F T ix n : is_Some (R !! (s, n)) ->
  run1 (mkCatalog (s :: p) R I F T) (CreateIndex ix n) = Ok (mkCatalog (s :: p) R (add (s, ix) n I) F T).
Proof. intros Hn. unfold run1. by rewrite (resolve_head _ s p). Qed.
Lemma run1_function s p R I F T f : run1 (mkCatalog (s :: p) R I F T) (CreateFunction f) = Ok (mkCatalog (s :: p) R I ({[(s, f)]} ∪ F) T).
Proof. done. Qed.
Lemma run1_dropTrigger s p R I F T n : is_Some (R !! (s, n)) ->
  run1 (mkCatalog (s :: p) R I F T) (DropTrigger n) = Ok (mkCatalog (s :: p) R I F (delete (s, n) T)).
Proof. intros Hn. unfold run1. by rewrite (resolve_head _ s p). Qed.
Lemma run1_trigger s p R I F T n f : is_Some (R !! (s, n)) -> (s, f) ∈ F -> T !! (s, n) = None ->
  run1 (mkCatalog (s :: p) R I F T) (CreateTrigger n f) = Ok (mkCatalog (s :: p) R I F (<[(s, n) := (s, f)]> T)).
Proof.
  intros Hn Hf Ht. unfold run1. rewrite (resolve_head _ s p), (resolveFunction_head _ s p) by done. cbn [triggers]. rewrite Ht.
  by rewrite bool_decide_false by (by intros []).
Qed.

Lemma run_schemaSQL c s p : path c = s :: p -> runAll c schemaSQL = Ok (initialised c s).
Proof.
  destruct c as [pth R I F T]. cbn [path]. intros ->. unfold schemaSQL.
  rewrite (runAll_cons _ _ _ _ (run1_table s p R I F T _ _)).
  do 2 erewrite runAll_cons by (apply run1_index, add_found).
  erewrite runAll_cons by apply run1_table.
  erewrite runAll_cons by (apply run1_index, add_found).
  erewrite runAll_cons by apply run1_function.
  erewrite runAll_cons by (apply run1_dropTrigger, add_found).
  erewrite runAll_cons by (apply run1_trigger; [apply add_found|set_solver|apply lookup_delete_eq]). done.
Qed.

(** Creating the schema again changes nothing. *)
Lemma initialised_again c s : initialised (initialised c s) s = initialised c s.
Proof.
  unfold initialised. cbn. f_equal; try by rewrite !add_again by (repeat first [apply add_found|apply add_keeps_some]).
  - set_solver.
  - by rewrite delete_insert_eq, delete_delete_eq.
Qed.

Lemma initialised_ready c s p : path c = s :: p -> ready (initialised c s) = true.
Proof.
  intros Hp. unfold ready. rewrite !(resolve_head (initialised c s) s p); cbn; try done; [apply add_found|].
  apply add_keeps_some, add_found.
Qed.

(** No row is lost. *)
Lemma initialised_keeps c s k t : relations c !! k = Some t -> relations (initialised c s) !! k = Some t.
Proof. intros Hk. by do 2 apply add_keeps. Qed.
End Schema.

(** ** Dropping *)

Section Drop.
Implicit Types (c : catalog).

Lemma dropTable_spec c s p n : path c = s :: p -> exists c', run1 c (DropTable n) = Ok c' /\ path c' = path c /\
  relations c' !! (s, n) = None /\ (forall k, k.2 <> n -> relations c' !! k = relations c !! k) /\
  (forall k, relations c !! k = None -> relations c' !! k = None).
Proof.
  intros Hp. unfold run1, resolve. rewrite Hp. cbn [List.find]. case_bool_decide as Hs.
  - cbn. eexists. split; [reflexivity|]. split; [done|]. cbn. split; [apply lookup_delete_eq|]. split.
    + intros k Hk. apply lookup_delete_ne. by intros <-.
    + intros k Hk. destruct (decide (k = (s, n))) as [->|]; [apply lookup_delete_eq|by rewrite lookup_delete_ne].
  - assert (relations c !! (s, n) = None) as Hn by (by apply eq_None_not_Some).
    destruct (List.find _ p) as [s'|]; cbn; (eexists; split; [reflexivity|]); cbn; [|done]. split; [done|]. split; [|split].
    + destruct (decide ((s', n) = (s, n))) as [->|]; [apply lookup_delete_eq|by rewrite lookup_delete_ne].
    + intros k Hk. apply lookup_delete_ne. by intros <-.
    + intros k Hk. destruct (decide (k = (s', n))) as [->|]; [apply lookup_delete_eq|by rewrite lookup_delete_ne].
Qed.

Lemma run_dropSchemaSQL c s p : path c = s :: p -> exists c', runAll c dropSchemaSQL = Ok c' /\ path c' = path c /\
  relations c' !! (s, tableObjects) = None /\ relations c' !! (s, tableReliableCalls) = None /\
  (forall k, k.2 <> tableObjects -> k.2 <> tableReliableCalls -> relations c' !! k = relations c !! k).
Proof.
  intros Hp. unfold dropSchemaSQL.
  assert (exists c1, run1 c (DropTrigger tableReliableCalls) = Ok c1 /\ path c1 = path c /\ relations c1 = relations c) as (c1 & H1 & P1 & R1).
  { unfold run1. destruct (resolve _ _); eauto. }
  destruct (dropTable_spec c1 s p tableReliableCalls ltac:(congruence)) as (c2 & H2 & P2 & N2 & K2 & _).
  destruct (dropTable_spec c2 s p tableObjects ltac:(congruence)) as (c3 & H3 & P3 & N3 & K3 & E3).
  assert (exists c4, run1 c3 (DropFunction timestampFunction) = Ok c4 /\ path c4 = path c3 /\ relations c4 = relations c3) as (c4 & H4 & P4 & R4).
  { unfold run1. destruct (resolveFunction _ _); eauto. }
  exists c4. rewrite (runAll_cons _ _ _ _ H1), (runAll_cons _ _ _ _ H2), (runAll_cons _ _ _ _ H3), (runAll_cons _ _ _ _ H4), R4.
  split; [done|]. split; [congruence|]. split; [done|]. split; [by apply E3|].
  intros k Ho Hc. by rewrite K3, K2, R1.
Qed.
End Drop.

(** ** The commands *)

Section Commands.
Context (e : Startup.env) (config : PgConf.Config).
Implicit Types (w : world).

(** The connection can be opened *)
Definition reachable_db : Prop := (exists db, PgConf.NewDB (Startup.sqlOpen e) config = Ok db) /\ Startup.ping e = Ok tt.

(** A command that changes no table *)
Definition reads {A} (m : M A) : Prop := forall w, cat (fst (m w)) = cat w.

Lemma reads_bind {A B} (m : M A) (k : A -> M B) : reads m -> (forall x, reads (k x)) -> reads (bind m k).
Proof. intros Hm Hk w. unfold bind. specialize (Hm w). destruct (m w) as [w' [x|er]]; cbn in *; [by rewrite Hk|done]. Qed.
Lemma reads_wrap {A} pre (m : M A) : reads m -> reads (wrap pre m).
Proof. intros Hm w. unfold wrap. specialize (Hm w). by destruct (m w) as [w' [x|er]]. Qed.
Lemma reads_statement {A} (f : catalog -> result string A) : reads (statement (fun c => (c, f c))).
Proof. intros w. unfold statement. by destruct (pending w) as [|[] fs]. Qed.
Lemma reads_each {A} (l : list A) f : (forall x, reads (f x)) -> reads (each l f).
Proof. intros Hf. induction l as [|x l IH]; [done|]. cbn. by apply reads_bind. Qed.
Lemma reads_checkTables l b : reads (checkTables l b).
Proof.
  revert b. induction l as [|t l IH]; intros b; [done|]. cbn. apply reads_bind; [apply reads_wrap, reads_statement|].
  intros x. by apply reads_bind.
Qed.
Lemma reads_connect : reads (connect e config).
Proof. unfold connect. apply reads_bind; [by apply reads_wrap|]. intros db. apply reads_bind; [by apply reads_wrap|done]. Qed.

Lemma connect_ok w : reachable_db -> exists db, connect e config w = (w, Ok db).
Proof. intros [[db Hdb] Hp]. exists db. unfold connect, bind, wrap, lift. by rewrite Hdb, Hp. Qed.

(** Both tables are where [tableExists] looks *)
Definition in_public (c : catalog) : Prop :=
  is_Some (relations c !! ("public", tableObjects)) /\ is_Some (relations c !! ("public", tableReliableCalls)).

Lemma tableExists_quiet t w : pending w = [] -> tableExists t w = (w, Ok (bool_decide (is_Some (relations (cat w) !! ("public", t))))).
Proof. intros Hw. unfold tableExists, statement. rewrite Hw. destruct w as [c f o]. cbn in *. by subst f. Qed.

Lemma execSQL_quiet l w c : pending w = [] -> runAll (cat w) l = Ok c -> execSQL l w = (mkWorld c [] (out w), Ok tt).
Proof. intros Hw Hc. unfold execSQL, statement. rewrite Hw. cbn [cat]. by rewrite Hc. Qed.

(** [init] makes the database ready for the nodes: both tables exist where names are looked up, no row that was
    there is lost, a second run changes nothing, and a node's check before it starts succeeds.  The command
    itself says so exactly when the tables are in the schema [public]. *)
Theorem init_spec w s p : reachable_db -> pending w = [] -> path (cat w) = s :: p ->
  let '(w', r) := initSchema e config w in
  cat w' = initialised (cat w) s /\ ready (cat w') = true /\
  (forall k t, relations (cat w) !! k = Some t -> relations (cat w') !! k = Some t) /\
  cat (fst (initSchema e config w')) = cat w' /\
  (forall e', Startup.tables e' = Ok (ready (cat w')) -> Startup.preflightGoverseSchema e' = Ok tt) /\
  (r = Ok tt <-> in_public (cat w')).
Proof.
  intros Hc Hw Hp.
  assert (forall w, pending w = [] -> path (cat w) = s :: p -> exists o r, initSchema e config w = (mkWorld (initialised (cat w) s) [] o, r) /\
    (r = Ok tt <-> in_public (initialised (cat w) s))) as Hinit.
  { clear w Hw Hp. intros w Hw Hp. destruct (connect_ok w Hc) as [db Hdb].
    unfold initSchema, bind at 1. rewrite Hdb. unfold bind at 1, wrap at 1, InitSchema, wrap at 1.
    rewrite (execSQL_quiet _ _ (initialised (cat w) s)) by (done || by eapply run_schemaSQL).
    set (c' := initialised (cat w) s). unfold in_public. cbn [tables each].
    unfold bind at 1, bind at 1, wrap at 1. rewrite tableExists_quiet by done. cbn [cat].
    case_bool_decide as H1; [|do 2 eexists; split; [reflexivity|]; split; [done|naive_solver]].
    unfold print at 1. unfold bind at 1, bind at 1, wrap at 1. rewrite tableExists_quiet by done. cbn [cat].
    case_bool_decide as H2; (do 2 eexists; split; [reflexivity|]); naive_solver. }
  destruct (Hinit w Hw Hp) as (o & r & -> & Hr). cbn [cat]. split; [done|]. split; [by eapply initialised_ready|].
  split; [intros k t; apply initialised_keeps|]. split; [|split; [|done]].
  - destruct (Hinit (mkWorld (initialised (cat w) s) [] o)) as (o' & r' & -> & _); [done..|]. apply initialised_again.
  - intros e' He. unfold Startup.preflightGoverseSchema. rewrite He. erewrite initialised_ready; done.
Qed.

(** [verify] and [status] change nothing, whatever fails.  Without faults [verify] succeeds exactly when both
    tables are in the schema [public]: a missing index, trigger or function is at most printed. *)
Theorem verify_spec w range : reachable_db -> 
  cat (fst (verifyDatabase e config range w)) = cat w /\ cat (fst (showStatus e config w)) = cat w /\
  (pending w = [] -> snd (verifyDatabase e config range w) = Ok tt <-> in_public (cat w)).
Proof.
  intros Hc. split; [|split].
  - revert w. apply (reads_bind (A := PgConf.DB)); [apply reads_connect|]. intros db. apply reads_bind; [apply reads_checkTables|].
    intros []; [|done]. cbn. apply reads_each. intros x. apply reads_each. intros ix.
    apply reads_bind; [apply reads_wrap, reads_statement|done].
  - revert w. apply (reads_bind (A := PgConf.DB)); [apply reads_connect|]. intros db.
    apply reads_bind; [apply reads_wrap, reads_statement|]. intros []. apply reads_each. intros t.
    apply reads_bind; [apply reads_wrap, reads_statement|]. intros found.
    destruct (negb found); [done|]. destruct (negb (isValidTableName t)); [done|].
    intros w. pose proof (reads_statement (fun c => match resolve c t ≫= (fun k => relations c !! k) with
      | Some (ObjectRows rows) => Ok (size rows) | Some (CallRows rows _) => Ok (length rows) | None => Err "relation does not exist" end) w) as Hr.
    unfold countRows. by destruct (statement _ w) as [w' [n|er]].
  - intros Hw. destruct (connect_ok w Hc) as [db Hdb]. unfold verifyDatabase, bind at 1. rewrite Hdb. unfold in_public, tables. cbn [checkTables].
    assert (forall (l : list (string * list string)) w, pending w = [] -> snd (each l (fun x => each (snd x) (fun ix =>
      bind (wrap ("failed to check index " +:+ ix +:+ ": ") (indexExists (fst x) ix)) (fun found => print (IndexFound ix found)))) w) = Ok tt) as Hix.
    { assert (forall t l w, pending w = [] -> exists w', each l (fun ix =>
        bind (wrap ("failed to check index " +:+ ix +:+ ": ") (indexExists t ix)) (fun found => print (IndexFound ix found))) w = (w', Ok tt) /\ pending w' = []) as H1.
      { intros t l. induction l as [|ix l IH]; intros w1 Hw1; [by exists w1|]. cbn [each]. unfold bind at 1, bind at 1, wrap, indexExists, statement.
        rewrite Hw1. cbn. by apply IH. }
      intros l. induction l as [|x l IH]; intros w1 Hw1; [done|]. cbn [each]. unfold bind at 1.
      destruct (H1 (fst x) (snd x) w1 Hw1) as (w2 & -> & Hw2). by apply IH. }
    unfold bind at 1, bind at 1, wrap at 1. rewrite tableExists_quiet by done. unfold bind at 1. cbn [print].
    unfold bind at 1, wrap at 1. rewrite tableExists_quiet by done. unfold bind at 1. cbn [print ret cat].
    repeat case_bool_decide; cbn [negb]; unfold fail; cbn [snd]; try naive_solver.
Qed.

(** [reset] without [yes] changes nothing.  With it, the tables where names are looked up are empty afterwards and
    complete with their indexes, and every other relation is kept; when the second of its two transactions
    fails, the tables are gone. *)
Theorem reset_spec w s p input : reachable_db -> pending w = [] -> path (cat w) = s :: p ->
  let '(w', r) := resetSchemaWithInput e config input w in
  (forall text, input = Some text -> ToLower (TrimSpace text) = "yes" ->
     r = Ok tt /\ relations (cat w') !! (s, tableObjects) = Some (ObjectRows ∅) /\
     relations (cat w') !! (s, tableReliableCalls) = Some (CallRows [] 1) /\ ready (cat w') = true /\
     forall k, k.2 <> tableObjects -> k.2 <> tableReliableCalls -> relations (cat w') !! k = relations (cat w) !! k) /\
  ((forall text, input = Some text -> ToLower (TrimSpace text) <> "yes") -> cat w' = cat w).
Proof.
  intros Hc Hw Hp. unfold resetSchemaWithInput. destruct input as [text|]; [|by split].
  case_bool_decide as Hy; [split; [by intros ? [= <-]|done]|].
  destruct (connect_ok w Hc) as [db Hdb]. unfold bind at 1. rewrite Hdb.
  destruct (run_dropSchemaSQL (cat w) s p Hp) as (c1 & H1 & P1 & O1 & C1 & K1).
  unfold bind at 1, wrap at 1. rewrite (execSQL_quiet _ _ c1) by done. unfold wrap, InitSchema, wrap.
  rewrite (execSQL_quiet _ _ (initialised c1 s)) by (done || (eapply run_schemaSQL; cbn; by rewrite P1)).
  split; [|intros Hno; by destruct (Hno text eq_refl)]. intros ? [= <-] _. cbn [cat]. unfold initialised; cbn [relations]. split; [done|].
  assert (forall k, k.2 <> tableObjects -> k.2 <> tableReliableCalls ->
    add (s, tableReliableCalls) (CallRows [] 1) (add (s, tableObjects) (ObjectRows ∅) (relations c1)) !! k = relations c1 !! k) as Hk.
  { intros k Ho Hcl. unfold add. repeat case_bool_decide; try done; rewrite ?lookup_insert_ne; try done; by intros <-. }
  split_and!.
  - apply add_keeps. unfold add. rewrite O1, bool_decide_false by (by intros []). apply lookup_insert_eq.
  - unfold add at 1. rewrite bool_decide_false; [apply lookup_insert_eq|]. unfold add. case_bool_decide; [rewrite C1; by intros []|].
    rewrite lookup_insert_ne by done. rewrite C1. by intros [].
  - eapply (initialised_ready c1). by rewrite P1.
  - intros k Ho Hcl. by rewrite Hk, K1.
Qed.
End Commands.

(** ** Examples *)

Module PgRuns.
Definition env1 : Startup.env := Startup.mkEnv (fun _ => Ok tt) (Ok tt) (Ok false) (fun _ => Ok tt).
Definition fresh (s : string) : world := mkWorld (mkCatalog [s] ∅ ∅ ∅ ∅) [] [].
End PgRuns.

(** On a connection whose search path names another schema, for which the check of a starting node is made,
    [init] creates the tables, a node can start, and the command reports that they were not created; [verify]
    fails. *)
Theorem init_denies_other_schema :
  let '(w, r) := initSchema PgRuns.env1 PgConf.DefaultConfig (PgRuns.fresh "goverse") in
  ready (cat w) = true /\ r = Err "table 'goverse_objects' was not created" /\
  snd (verifyDatabase PgRuns.env1 PgConf.DefaultConfig tableIndexes w) = Err "schema verification failed".
Proof. vm_compute. done. Qed.

(** [verify] is content with a database that has lost its indexes, its trigger and its function. *)
Theorem verify_accepts_damaged_schema :
  let c := cat (fst (initSchema PgRuns.env1 PgConf.DefaultConfig (PgRuns.fresh "public"))) in
  snd (verifyDatabase PgRuns.env1 PgConf.DefaultConfig tableIndexes (mkWorld (mkCatalog (path c) (relations c) ∅ ∅ ∅) [] [])) = Ok tt.
Proof. vm_compute. done. Qed.

(** A reset whose second transaction fails leaves no tables. *)
Theorem failed_reset_leaves_no_tables :
  let w := fst (initSchema PgRuns.env1 PgConf.DefaultConfig (PgRuns.fresh "public")) in
  let '(w', r) := resetSchemaWithInput PgRuns.env1 PgConf.DefaultConfig (Some " YES ") (mkWorld (cat w) [NoFault; FailBefore "connection reset"] []) in
  is_ok r = false /\ ready (cat w') = false.
Proof. vm_compute. done. Qed.

Lemma init_spec_witness :
  let x := initSchema PgRuns.env1 PgConf.DefaultConfig (PgRuns.fresh "public") in
  ready (cat x.1) = true /\ x.2 = Ok tt /\ out x.1 = [TableCreated tableObjects; TableCreated tableReliableCalls].
Proof.
  split; [|split; vm_compute; reflexivity].
  pose proof (init_spec PgRuns.env1 PgConf.DefaultConfig (PgRuns.fresh "public") "public" []
    ltac:(split; [eexists; vm_compute; reflexivity|reflexivity]) eq_refl eq_refl) as Hi.
  destruct (initSchema _ _ _) as [w r]. apply Hi.
Defined.
