(* ===== verification/InspectHTTP.v ===== *)
(** * The inspector as a process (cmd/inspector/main.go, inspectorconfig, inspectserver: the servers and the reading endpoints)

    [Module InspectorLoader]: the flags and the section of the configuration file.  [Module InspectHTTP]: what [New] makes of
    a configuration, the routes, the answers of [/graph], [/shards] and [/healthz], the handler of the event
    stream with its registration among the clients of InspectServer.v, and the end of [main].  The world
    is the [env] of Startup.v with the answers of the consensus manager's [Initialize] and [StartWatch].  The texts of the
    answers, the static files and the profiling handlers are not modelled. *)

From S2P Require Import Prelude GoStrings GoFloat AccessControl ConsensusState ConsensusPlan InspectorGraph InspectorService InspectServer GateHTTP GateEvents Startup.
Import Shards Consensus Graph InspectServers.

(** ** The configuration of the process *)

Module InspectorLoader.
Open Scope go_scope.

Definition DefaultGRPCAddr : string := ":8081".
Definition DefaultHTTPAddr : string := ":8080".
Definition DefaultEtcdPrefix : string := "/goverse".
Definition DefaultStaticDir : string := "cmd/inspector/web".

(** [inspectserver.Config] *)
Record Config : Type := mkConfig { GRPCAddr : string; HTTPAddr : string; StaticDir : string; EtcdAddr : string; EtcdPrefix : string; NumShards : Z }.

Record Loader : Type := mkLoader {
  configPath : string; grpcAddr : string; httpAddr : string; staticDir : string; etcdAddr : string; etcdPrefix : string }.

(** [NewLoader]: the flags before parsing *)
Definition NewLoader : Loader := mkLoader "" DefaultGRPCAddr DefaultHTTPAddr DefaultStaticDir "" DefaultEtcdPrefix.

(** [Load] on parsed flags; [load] is [config.LoadConfig] *)
Definition Load (load : string -> result string Conf.Config) (l : Loader) : result string Config :=
  if bool_decide (configPath l <> "") then
    guard! bool_decide (grpcAddr l = DefaultGRPCAddr) else "--grpc-addr cannot be used with --config; configure in config file instead" ;;
    guard! bool_decide (httpAddr l = DefaultHTTPAddr) else "--http-addr cannot be used with --config; configure in config file instead" ;;
    guard! bool_decide (staticDir l = DefaultStaticDir) else "--static-dir cannot be used with --config; configure in config file instead" ;;
    guard! bool_decide (etcdAddr l = "") else "--etcd-addr cannot be used with --config; configure in config file instead" ;;
    guard! bool_decide (etcdPrefix l = DefaultEtcdPrefix) else "--etcd-prefix cannot be used with --config; configure in config file instead" ;;
    cfg <-? wrapErr "failed to load config: " (load (configPath l)) ;;
    guard! bool_decide (Conf.iGRPCAddr (Conf.Inspector cfg) <> "") else "inspector configuration is missing in config file" ;;
    Ok (mkConfig (Conf.iGRPCAddr (Conf.Inspector cfg)) (Conf.iHTTPAddr (Conf.Inspector cfg)) DefaultStaticDir
          (Conf.GetEtcdAddress cfg) (Conf.GetEtcdPrefix cfg) (Conf.GetNumShards cfg))
  else Ok (mkConfig (grpcAddr l) (httpAddr l) (staticDir l) (etcdAddr l) (etcdPrefix l) 0).

End InspectorLoader.

(** ** The servers *)

Module InspectHTTP.
Import InspectorLoader.

(** What [New] registers: the server listens to the consensus manager and observes the graph *)
Record process : Type := mkProcess {
  config : Config;
  server : InspectorServer;
  consensusManager : option ConsensusManager;
  observing : bool;
  listening : bool;
  watching : bool;
  etcdOpen : bool;
  shutdown : bool                              (* [shutdownChan] is closed *)
}.

Definition clusterStateStabilityDuration : Z := 3000000000.

Inductive made : Type := Running (p : process) | Fatal (msg : string).

(** [New]: without etcd, and when etcd cannot be reached, the inspector runs without a consensus manager; when
    the cluster cannot be read or watched the process ends *)
Definition New (dialEtcd : string -> result string ()) (Initialize StartWatch : result string ()) (cfg : Config) : made :=
  let alone := Running (mkProcess cfg InspectServers.New None true false false false false) in
  if bool_decide (EtcdAddr cfg = "") then alone
  else match dialEtcd (EtcdAddr cfg) with
  | Err _ => alone
  | Ok _ =>
      let numShards := if (NumShards cfg <=? 0)%Z then 8192%Z else NumShards cfg in
      match Initialize with
      | Err e => Fatal ("Failed to initialize consensus manager: " +:+ e)
      | Ok _ =>
          match StartWatch with
          | Err e => Fatal ("Failed to start consensus manager watch: " +:+ e)
          | Ok _ => Running (mkProcess cfg InspectServers.New
                               (Some (NewConsensusManager true clusterStateStabilityDuration "" numShards)) true true true true false)
          end
      end
  end.

(** [Shutdown]; closing the channel a second time panics *)
Definition Shutdown (p : process) : option process :=
  if shutdown p then None
  else Some (mkProcess (config p) (server p) (consensusManager p) (observing p) (listening p) false false true).

(** The end of [main]: it waits for both servers, or five seconds *)
Inductive wait : Type := ServerDone | Timeout.
#[global] Instance wait_eq_dec : EqDecision wait.
Proof. solve_decision. Defined.
Fixpoint awaitServers (serversShutdown : nat) (l : list wait) : option bool :=
  if (2 <=? serversShutdown)%nat then Some true
  else match l with
  | [] => None
  | ServerDone :: l => awaitServers (S serversShutdown) l
  | Timeout :: _ => Some false
  end.

(** ** Endpoints *)

Inductive handler : Type := Static | GraphData | ShardMapping | ShardMove | ShardPin | EventsStream | Healthz | Ready | Pprof.

(** [createHTTPHandler] and [CreateHTTPHandler] *)
Definition createHTTPHandler : list (string * handler) :=
  [("/", Static); ("/graph", GraphData); ("/shards", ShardMapping); ("/shards/move", ShardMove); ("/shards/pin", ShardPin);
   ("/events/stream", EventsStream); ("/healthz", Healthz); ("/ready", Ready); ("/debug/pprof/", Pprof); ("/debug/pprof/cmdline", Pprof);
   ("/debug/pprof/profile", Pprof); ("/debug/pprof/symbol", Pprof); ("/debug/pprof/trace", Pprof)].
Definition CreateHTTPHandler : list (string * handler) := [("/", Static); ("/graph", GraphData)].

(** The answer of [/graph], and the first event of a stream *)
Definition graphData (g : GoverseGraph) : list GoverseNode * list GoverseGate * list GoverseObject := (GetNodes g, GetGates g, GetObjects g).

(** [ShardInfo] of the answer *)
Record ShardAnswer : Type := mkAnswer { shard_id : Z; target_node : string; current_node : string; object_count : nat; flags : list string }.

(** [handleShardMapping]'s loops: the objects are counted, the shards listed in the order the map is ranged over, and the
    owners collected *)
Definition objectCountPerShard (objects : list GoverseObject) (id : Z) : nat := length (filter (fun o => oShardID o = id) objects).
Definition shardAnswer (objects : list GoverseObject) (x : Z * ShardInfo) : ShardAnswer :=
  mkAnswer x.1 (TargetNode x.2) (CurrentNode x.2) (objectCountPerShard objects x.1) (Flags x.2).
Definition owners (x : Z * ShardInfo) : list string := filter (fun a => a <> "") [TargetNode x.2; CurrentNode x.2].

(** [handleShardMapping]: the status, the shards and the nodes; [range] is the order of the map *)
Definition handleShardMapping (cm : option ConsensusManager) (g : GoverseGraph) (meth : http_method) (range : shards -> list (Z * ShardInfo))
    : http_status * list ShardAnswer * list string :=
  if bool_decide (meth <> GET) then (StatusMethodNotAllowed, [], [])
  else match cm with
  | None => (StatusOK, [], [])
  | Some cm =>
      let m := range (GetShardMapping cm) in
      (StatusOK, shardAnswer (GetObjects g) <$> m, merge_sort string_le (elements (list_to_set (m ≫= owners) : gset string)))
  end.

(** [handleHealthz] *)
Definition handleHealthz (meth : http_method) : http_status := if bool_decide (meth <> GET) then StatusMethodNotAllowed else StatusOK.

(** What the select of the stream's loop finds, with whether the write succeeds; and, between two of its rounds, what
    the server broadcasts *)
Inductive sinput : Type := Gone | ShuttingDown | Beat (ok : bool) | Payload (ok : bool) | Broadcast (e : GraphEvent).
Inductive sent : Type := Initial (data : list GoverseNode * list GoverseGate * list GoverseObject) | Heartbeat | Event (e : GraphEvent).

(** The loop of [handleEventsStream]: what is written, and whether the handler has returned *)
Fixpoint streamLoop (sv : InspectorServer) (n : Z) (acts : list sinput) : InspectorServer * list sent * bool :=
  match acts with
  | [] => (sv, [], false)
  | Gone :: _ | ShuttingDown :: _ => (sv, [], true)
  | Beat ok :: acts =>
      if ok then let '(sv, out, ended) := streamLoop sv n acts in (sv, Heartbeat :: out, ended) else (sv, [], true)
  | Broadcast e :: acts => streamLoop (broadcastSSEPayload sv e) n acts
  | Payload ok :: acts =>
      match receive sv n with
      | None => streamLoop sv n acts
      | Some (sv', e) =>
          if ok then let '(sv, out, ended) := streamLoop sv' n acts in (sv, Event e :: out, ended) else (sv', [], true)
      end
  end.

(** [handleEventsStream]: the client is registered, gets the graph ([initialOK] is whether that write succeeds; [g] is what the three
    reads found), and is removed when the handler returns *)
Definition handleEventsStream (sv : InspectorServer) (g : GoverseGraph) (meth : http_method) (flusher initialOK : bool) (acts : list sinput)
    : InspectorServer * option (list sent * bool) :=
  if bool_decide (meth <> GET) then (sv, None)
  else if negb flusher then (sv, None)
  else
    let '(sv1, n) := connect sv in
    if negb initialOK then (disconnect sv1 n, Some ([], true))
    else let '(sv2, out, ended) := streamLoop sv1 n acts in
         (if ended then disconnect sv2 n else sv2, Some (Initial (graphData g) :: out, ended)).

End InspectHTTP.
Import InspectHTTP.

(** ** Properties *)

#[local] Instance string_le_trans : Transitive string_le.
Proof.
  intros a b c. unfold string_le, String.leb. revert b c.
  induction a as [|x a IH]; intros [|y b] [|z c]; cbn; try done. unfold Ascii.compare.
  destruct (N.compare_spec (N_of_ascii x) (N_of_ascii y)) as [Hxy|Hxy|Hxy]; [|..|done];
    destruct (N.compare_spec (N_of_ascii y) (N_of_ascii z)) as [Hyz|Hyz|Hyz]; try done;
    destruct (N.compare_spec (N_of_ascii x) (N_of_ascii z)) as [Hxz|Hxz|Hxz]; try done; try lia. apply IH.
Qed.
#[local] Instance string_le_total : Total string_le.
Proof. intros a b. unfold string_le. destruct (String.leb_total a b); auto. Qed.

Lemma filter_snd {A B} (P : B -> Prop) `{!forall x, Decision (P x)} (l : list (A * B)) : filter P l.*2 = (filter (fun x => P x.2) l).*2.
Proof. induction l as [|x l IH]; [done|]. rewrite fmap_cons, !filter_cons. case_decide; rewrite IH; done. Qed.

(** [/shards] shows the mapping as it is: each shard of the mapping once, with its owners, its flags and the number
    of the objects of the graph in it; and the owners that occur, without repetition and in order. *)
Theorem handleShardMapping_exact cm g range : range (GetShardMapping cm) ≡ₚ map_to_list (GetShardMapping cm) ->
  let '(st, shards, nodes) := handleShardMapping (Some cm) g GET range in
  st = StatusOK /\ NoDup (shard_id <$> shards) /\
  (forall id t c k fl, mkAnswer id t c k fl ∈ shards <->
     (exists r, GetShardMapping cm !! id = Some (mkShard t c fl r)) /\ k = size (filter (fun x => oShardID x.2 = id) (objects g))) /\
  StronglySorted string_le nodes /\ NoDup nodes /\
  (forall a, a ∈ nodes <-> a <> "" /\ exists id info, GetShardMapping cm !! id = Some info /\ (a = TargetNode info \/ a = CurrentNode info)).
Proof.
  intros Hr. unfold handleShardMapping. rewrite bool_decide_false by (intros Hx; by apply Hx). set (m := range (GetShardMapping cm)) in *.
  assert (forall id info, (id, info) ∈ m <-> GetShardMapping cm !! id = Some info) as Hm by (intros id info; by rewrite Hr, elem_of_map_to_list).
  split_and!.
  - done.
  - rewrite <-list_fmap_compose. change (NoDup (fst <$> m)). rewrite Hr. apply NoDup_fst_map_to_list.
  - intros id t c k fl. rewrite list_elem_of_fmap.
    assert (objectCountPerShard (GetObjects g) id = size (filter (fun x => oShardID x.2 = id) (objects g))) as Hc.
    { unfold objectCountPerShard, GetObjects. rewrite map_filter_alt, <-length_map_to_list, filter_snd, length_fmap.
      symmetry. apply Permutation_length, map_to_list_to_map. apply (sublist_NoDup _ (map_to_list (objects g)).*1); [apply NoDup_fst_map_to_list|]. apply fmap_sublist, sublist_filter. }
    split.
    + intros ([id' [t' c' fl' r]] & [= -> -> -> -> ->] & Hin). split; [exists r; by apply Hm|done].
    + intros [[r Hin] ->]. exists (id, mkShard t c fl r). split; [|by apply Hm]. unfold shardAnswer. cbn. by rewrite Hc.
  - apply StronglySorted_merge_sort; apply _.
  - rewrite merge_sort_Permutation. apply NoDup_elements.
  - intros a. rewrite merge_sort_Permutation, elem_of_elements, elem_of_list_to_set, list_elem_of_bind. unfold owners.
    setoid_rewrite list_elem_of_filter. setoid_rewrite elem_of_cons. setoid_rewrite list_elem_of_singleton. split.
    + intros ([id info] & [Hne Ha] & Hin). split; [done|]. exists id, info. by apply Hm in Hin.
    + intros [Hne (id & info & Hin & Ha)]. exists (id, info). split; [done|]. by apply Hm.
Qed.

(** What the stream's inputs are to the channel of its client *)
Definition as_act (i : sinput) : list (option GraphEvent) :=
  match i with Broadcast e => [Some e] | Payload _ => [None] | _ => [] end.
Definition quiet (i : sinput) : bool := match i with Gone | ShuttingDown => false | Beat ok | Payload ok => ok | Broadcast _ => true end.
Definition eventOf (s : sent) : option GraphEvent := match s with Event e => Some e | _ => None end.

(** While it runs, the handler writes the events that its client receives, in their order. *)
Lemma streamLoop_events n acts : forall sv, forallb quiet acts = true ->
  let '(sv', out, ended) := streamLoop sv n acts in
  ended = false /\ sv' = (streamed sv n (acts ≫= as_act)).1 /\ omap eventOf out = (streamed sv n (acts ≫= as_act)).2.
Proof.
  induction acts as [|i acts IH]; intros sv Hq; [done|]. cbn [forallb] in Hq. apply andb_prop in Hq as [Hi Hq].
  destruct i as [| |[]|[]|e]; try done; cbn [streamLoop mbind list_bind as_act app streamed].
  - specialize (IH sv Hq). destruct (streamLoop sv n acts) as [[sv' out] ended]. by cbn.
  - destruct (receive sv n) as [[sv1 e]|]; [|by apply IH].
    specialize (IH sv1 Hq). destruct (streamLoop sv1 n acts) as [[sv' out] ended]. unfold mbind in IH.
    destruct (streamed sv1 n _) as [sv2 es]. cbn in *. destruct IH as (-> & -> & ->). done.
  - by apply IH.
Qed.

(** A stream that is still open has sent the graph first and then, among the heartbeats, the events that its client
    received; the client is registered. *)
Theorem stream_sends_graph_and_events sv g acts : forallb quiet acts = true ->
  let '(sv1, n) := connect sv in
  exists out, handleEventsStream sv g GET true true acts = ((streamed sv1 n (acts ≫= as_act)).1, Some (Initial (graphData g) :: out, false)) /\
    omap eventOf out = (streamed sv1 n (acts ≫= as_act)).2.
Proof.
  intros Hq. destruct (connect sv) as [sv1 n] eqn:Hc. unfold handleEventsStream. rewrite bool_decide_false by (intros Hx; by apply Hx). cbn [negb]. rewrite Hc.
  pose proof (streamLoop_events n acts sv1 Hq) as Hs. destruct (streamLoop sv1 n acts) as [[sv' out] ended]. destruct Hs as (-> & -> & Ho).
  exists out. done.
Qed.

(** When the handler has returned, for whatever reason, its client is gone, and the others are as the broadcasts left them. *)
Theorem returned_stream_is_unregistered sv g flusher initialOK acts sv' out n :
  handleEventsStream sv g GET flusher initialOK acts = (sv', Some (out, true)) -> n = (clientIDSeq sv + 1)%Z -> sseClients sv' !! n = None.
Proof.
  unfold handleEventsStream. rewrite bool_decide_false by (intros Hx; by apply Hx). destruct flusher; [|done]. cbn [negb connect].
  destruct initialOK; cbn [negb].
  - destruct (streamLoop _ _ acts) as [[sv2 out2] ended]. intros [= <- <- ->] ->. cbn. apply lookup_delete_eq.
  - intros [= <- <-] ->. cbn. apply lookup_delete_eq.
Qed.

(** The inspector starts whenever etcd cannot be reached: it then shows a graph and no shards, and answers that it is
    not ready. *)
Theorem inspector_without_etcd dialEtcd Initialize StartWatch cfg e :
  InspectorLoader.EtcdAddr cfg <> "" -> dialEtcd (InspectorLoader.EtcdAddr cfg) = Err e ->
  exists p, InspectHTTP.New dialEtcd Initialize StartWatch cfg = Running p /\ consensusManager p = None /\
    forall g range, handleShardMapping (consensusManager p) g GET range = (StatusOK, [], []).
Proof. intros He Hd. unfold New. rewrite bool_decide_false, Hd by done. by eexists. Qed.

(** [main] ends: with a timeout among what it waits for it returns, and it reports success only after both servers. *)
Theorem awaitServers_ends l k : Timeout ∈ l -> exists b, awaitServers k l = Some b.
Proof.
  revert k. induction l as [|x l IH]; intros k Hin; [by apply elem_of_nil in Hin|]. cbn [awaitServers].
  destruct (2 <=? k)%nat; [by exists true|]. destruct x; [|by exists false]. apply IH. by apply elem_of_cons in Hin as [|].
Qed.
Theorem awaitServers_both l : awaitServers 0 l = Some true -> (2 <= length (filter (fun x => x = ServerDone) l))%nat.
Proof.
  assert (forall l k, awaitServers k l = Some true -> (2 <= k + length (filter (fun x => x = ServerDone) l))%nat) as H; [|by apply (H l 0)].
  clear l. induction l as [|x l IH]; intros k; cbn [awaitServers]; (destruct (2 <=? k)%nat eqn:Hk; [apply Nat.leb_le in Hk; lia|]); [done|].
  destruct x; [|done]. intros Hl. apply IH in Hl. rewrite filter_cons, decide_True by done. cbn. lia.
Qed.

Lemma matches_exact p path : String.get (String.length p - 1) p <> Some "/"%char -> path <> p -> Answers.matches p path = false.
Proof. intros Hp Hne. unfold Answers.matches. by rewrite !bool_decide_false. Qed.

Lemma route_skip {H} p (h : H) rest path : Answers.matches p path = false -> Answers.route ((p, h) :: rest) path = Answers.route rest path.
Proof. intros Hm. cbn [Answers.route]. by rewrite Hm. Qed.
Lemma route_only {H} p (h : H) rest path : Answers.matches p path = true -> Answers.route rest path = None ->
  Answers.route ((p, h) :: rest) path = Some (p, h).
Proof. intros Hm Hr. cbn [Answers.route]. by rewrite Hm, Hr. Qed.

(** Every path but those of the endpoints goes to the static files. *)
Theorem other_paths_are_static path : HasPrefix path "/" = true -> HasPrefix path "/debug/pprof/" = false ->
  path ∉ (fst <$> tail createHTTPHandler) -> (snd <$> Answers.route createHTTPHandler path) = Some Static.
Proof.
  intros Hs Hd Hno. cbn [createHTTPHandler tail fmap list_fmap fst] in Hno. rewrite !not_elem_of_cons in Hno. destruct_and! Hno.
  assert (Answers.matches "/" path = true) as Hroot by (unfold Answers.matches; by rewrite bool_decide_true).
  assert (Answers.matches "/debug/pprof/" path = false) as Hdebug by (unfold Answers.matches; by rewrite bool_decide_true).
  unfold createHTTPHandler. rewrite route_only; [done|done|].
  repeat (rewrite route_skip; [|first [exact Hdebug|apply matches_exact; [discriminate|done]]]). done.
Qed.

Lemma handleShardMapping_exact_witness :
  let cm := set_state (NewConsensusManager true 0 "" 8) (mkState ∅ (Some ∅) (Some {[ 2%Z := mkShard "b:1" "a:1" [] 4 ]}) "" 0 4 (Some 0%Z)) in
  exists shards, handleShardMapping (Some cm) NewGoverseGraph GET map_to_list = (StatusOK, shards, ["a:1"; "b:1"]) /\ mkAnswer 2 "b:1" "a:1" 0 [] ∈ shards.
Proof.
  intros cm. pose proof (handleShardMapping_exact cm NewGoverseGraph map_to_list ltac:(reflexivity)) as H.
  eexists. split; [vm_compute; reflexivity|]. assert (handleShardMapping (Some cm) NewGoverseGraph GET map_to_list = (StatusOK, [mkAnswer 2 "b:1" "a:1" 0 []], ["a:1"; "b:1"])) as E by (vm_compute; reflexivity).
  rewrite E in H. destruct H as (_ & _ & H & _). apply H. split; [exists 4%Z; reflexivity|reflexivity].
Defined.
