(* ===== verification/Lifecycle.v ===== *)
(** * The life of a node process (server/server.go: Run, cluster/cluster.go: Start and Stop)

    [Module Lifecycle]: [Run] listens, starts the node and its cluster, serves until a signal, saves all objects,
    and gives the node's registration up.  The goroutine that executes [Run] is a program counter with one
    step per operation on a shared component; between its steps the RPC handlers and the management loop
    operate on the node (any operation of Node.v), the lease loop of the etcd manager (EtcdManager.v) runs,
    leases expire, and the gate channels (ClientPush.v) are used.  The processing loops of reliable calls run too, on
    live objects and, since [Node.Stop] does not wait for them, on the objects that were live when the node was stopped;
    and other processes, or loops of objects that left the node earlier, write the database.  [atStop] records what the
    final save of [Node.Stop] saw, the objects of the loops that may outlive it, and whose rows have been written since; no
    step but that of a late loop reads it.  A revocation of a lease may fail, which the etcd manager only logs: [step true]
    are the steps without such a failure.  The HTTP server for metrics, the inspector and the listening socket
    are not modelled.  The last part shows what a late loop does. *)

From S2P Require Import Prelude GoStrings ObjectId Persistence Object ReliableCalls AccessControl Node.
From S2P Require Import ClientPush NodeConnections EtcdManager.
Import Proto Objects Nodes.

Module Lifecycle.

(** [etcdmanager.NodeLeaseTTL] in seconds *)
Definition NodeLeaseTTL : Z := 15.

Inductive exit : Type := ErrListen | ErrStartNode.

(** Where [Run] is.  [Listen] to [StartNode] precede the cluster; [RegisterEnter] to [Connect] are
    [Cluster.Start], [CancelLive] to [AwaitClose] are [Cluster.Stop]; the two [Await] phases are the waits
    inside [UnregisterKeyLease] and [Close]. *)
Inductive phase : Type :=
| Listen | StartNode
| RegisterEnter | RegisterLocked | Initialize | StartWatch | StartManagement | Connect
| Serve
| StopNode
| CancelLive | StopConnections | StopManagement | StopWatch | CleanupGates | Unregister | AwaitUnregister | CloseEtcd | AwaitClose
| Deferred (e : option exit)
| Returned (e : option exit).

Section Process.
Context {St Msg Data Any P S : Type} `{PersistenceLaws P} `{LeaseOps S}.
Context (rt : Runtime Any Msg) (onCreated : Class St Msg Data -> St -> St).
Abbreviation nodeT := (Node (St := St) (Msg := Msg) (Data := Data) (P := P)).
Abbreviation etcd := (EtcdManagers.world (S := S)).

(** What [Node.Stop] saw once it had its lock, and what has happened since to the objects and rows it left *)
Record farewell : Type := mkFarewell {
  stopNode : nodeT;
  stopIds : list string;                      (* in the order of the final save *)
  late : gmap string (liveObject (St := St) (Msg := Msg) (Data := Data));
  rewritten : gset string
}.

(** The objects once [Stop] has cancelled their contexts *)
Definition destroyed (os : gmap string (liveObject (St := St) (Msg := Msg) (Data := Data))) : gmap string liveObject :=
  (fun o => mkLive (cls_of o) (Destroy (base o))) <$> os.

Record world : Type := mkWorld {
  pc : phase;
  self : string;                              (* the node's advertise address, which no operation changes *)
  node : nodeT;
  em : etcd;                                  (* the cluster's etcd manager *)
  gates : Pushes.GateChannels (Any := Any);
  conns : Conns.NodeConnections;
  live : bool;                                (* liveCtx is not cancelled *)
  managing : bool;                            (* clusterManagementRunning *)
  looping : bool;                             (* a clusterManagementLoop goroutine runs *)
  watching : bool;
  dbOpen : bool;
  ctxLive : bool;                             (* the server's context is not cancelled *)
  atStop : option farewell
}.

Definition goto (w : world) (p : phase) : world :=
  mkWorld p (self w) (node w) (em w) (gates w) (conns w) (live w) (managing w) (looping w) (watching w) (dbOpen w) (ctxLive w) (atStop w).
Definition set_node (w : world) (n : nodeT) : world :=
  mkWorld (pc w) (self w) n (em w) (gates w) (conns w) (live w) (managing w) (looping w) (watching w) (dbOpen w) (ctxLive w) (atStop w).
Definition set_em (w : world) (e : etcd) : world :=
  mkWorld (pc w) (self w) (node w) e (gates w) (conns w) (live w) (managing w) (looping w) (watching w) (dbOpen w) (ctxLive w) (atStop w).
Definition set_stop (w : world) (n : nodeT) (f : farewell) : world :=
  mkWorld (pc w) (self w) n (em w) (gates w) (conns w) (live w) (managing w) (looping w) (watching w) (dbOpen w) (ctxLive w) (Some f).
Definition set_gates (w : world) (g : Pushes.GateChannels) : world :=
  mkWorld (pc w) (self w) (node w) (em w) g (conns w) (live w) (managing w) (looping w) (watching w) (dbOpen w) (ctxLive w) (atStop w).
Definition set_conns (w : world) (c : Conns.NodeConnections) : world :=
  mkWorld (pc w) (self w) (node w) (em w) (gates w) c (live w) (managing w) (looping w) (watching w) (dbOpen w) (ctxLive w) (atStop w).

(** The key under which [registerNode] announces the node *)
Definition nodeKey (w : world) : string :=
  EtcdManagers.prefix (EtcdManagers.mgr (em w)) +:+ "/nodes/" +:+ self w.

(** What an operation of [Run] observes: whether it succeeded, what the etcd calls do, which nodes are known
    and can be dialled, what other goroutines do to the node until [Stop] has its lock, in which order maps
    are ranged over *)
Inductive input : Type :=
| Done (ok : bool)
| Lease (n : nat) (f : fault)
| Nodes (nodes : list string) (dialFails : gset string) (range : gmap string nat -> list (string * nat)) (orders : gset string -> list string)
| StopWith (wait : nodeT -> nodeT) (ids : nodeT -> list string)
| Range (range : gmap string nat -> list (string * nat)).

(** [updateNodeConnections] *)
Definition updateNodeConnections (w : world) (nodes : list string) (dialFails : gset string)
    (range : gmap string nat -> list (string * nat)) (orders : gset string -> list string) : world :=
  let otherNodes := filter (fun a => a <> self w) nodes in
  set_conns w (Conns.SetNodes range dialFails (conns w) otherNodes orders).

(** [Cluster.Start]: an error returns to [Run], which ignores it and serves *)
Definition startStep (w : world) (i : input) : option world :=
  match pc w, i with
  | RegisterEnter, Done _ =>
      match EtcdManagers.exec (em w) EtcdManagers.LEnter with
      | Some e => Some (goto (set_em w e) RegisterLocked)
      | None => Some (goto w Serve)
      end
  | RegisterLocked, Lease n f =>
      e ← EtcdManagers.exec (em w) (EtcdManagers.LRegister n (nodeKey w) (self w) NodeLeaseTTL f);
      Some (goto (set_em w e) Initialize)
  | Initialize, Done ok => Some (goto w (if ok then StartWatch else Serve))
  | StartWatch, Done ok =>
      if ok then Some (mkWorld StartManagement (self w) (node w) (em w) (gates w) (conns w) (live w) (managing w) (looping w) true (dbOpen w) (ctxLive w) (atStop w))
      else Some (goto w Serve)
  | StartManagement, Done _ =>
      if managing w then Some (goto w Connect)
      else Some (mkWorld Connect (self w) (node w) (em w) (gates w) (conns w) (live w) true true (watching w) (dbOpen w) (ctxLive w) (atStop w))
  | Connect, Nodes nodes dialFails range orders => Some (goto (updateNodeConnections w nodes dialFails range orders) Serve)
  | _, _ => None
  end.

(** [Cluster.Stop]: an error of [UnregisterKeyLease] is logged *)
Definition stopStep (w : world) (i : input) : option world :=
  match pc w, i with
  | CancelLive, Done _ =>
      Some (mkWorld StopConnections (self w) (node w) (em w) (gates w) (conns w) false (managing w) (looping w) (watching w) (dbOpen w) (ctxLive w) (atStop w))
  | StopConnections, Range range => Some (goto (set_conns w (Conns.Stop range (conns w))) StopManagement)
  | StopManagement, Done _ =>
      Some (mkWorld StopWatch (self w) (node w) (em w) (gates w) (conns w) (live w) false (looping w) (watching w) (dbOpen w) (ctxLive w) (atStop w))
  | StopWatch, Done _ =>
      Some (mkWorld CleanupGates (self w) (node w) (em w) (gates w) (conns w) (live w) (managing w) (looping w) false (dbOpen w) (ctxLive w) (atStop w))
  | CleanupGates, Done _ => Some (goto (set_gates w (Pushes.cleanupGateChannels (gates w))) Unregister)
  | Unregister, Lease _ f =>
      e ← EtcdManagers.exec (em w) (EtcdManagers.LUnregister (nodeKey w) f);
      Some (goto (set_em w e) AwaitUnregister)
  | AwaitUnregister, Done _ => if bool_decide (EtcdManagers.waiting (em w) = []) then Some (goto w CloseEtcd) else None
  | CloseEtcd, Done _ => e ← EtcdManagers.exec (em w) EtcdManagers.LClose; Some (goto (set_em w e) AwaitClose)
  | AwaitClose, Done _ => if bool_decide (EtcdManagers.waiting (em w) = []) then Some (goto w (Deferred None)) else None
  | _, _ => None
  end.

(** [Run] from one operation to the next.  The deferred functions close the database and cancel the context. *)
Definition runStep (w : world) (i : input) : option world :=
  match pc w, i with
  | Listen, Done ok => Some (goto w (if ok then StartNode else Deferred (Some ErrListen)))
  | StartNode, Done ok =>
      let w := set_node w (fst (Nodes.Start (node w))) in
      Some (goto w (if ok then RegisterEnter else Deferred (Some ErrStartNode)))
  | Serve, Done _ => Some (goto w StopNode)
  | StopNode, StopWith wait ids =>
      let n0 := wait (set_stopped (node w)) in
      Some (mkWorld CancelLive (self w) (Nodes.Stop wait (node w) ids) (em w) (gates w) (conns w) (live w) (managing w) (looping w) (watching w) (dbOpen w)
              (ctxLive w) (Some (mkFarewell n0 (ids n0) (destroyed (objects n0)) ∅)))
  | Deferred e, Done _ =>
      Some (mkWorld (Returned e) (self w) (node w) (em w) (gates w) (conns w) (live w) (managing w) (looping w) (watching w) false false (atStop w))
  | _, _ => match startStep w i with Some w' => Some w' | None => stopStep w i end
  end.

(** What other goroutines do until [Stop] holds the lock: operations that were admitted before *)
Definition stop_ok (i : input) : Prop :=
  match i with
  | StopWith wait ids => keeps wait /\ (forall n, stopped n = true -> stopped (wait n) = true) /\ (forall n, hasProvider (wait n) = hasProvider n) /\
      (forall n, ids n ≡ₚ (map_to_list (objects n)).*1)
  | _ => True
  end.

(** An operation of an RPC handler or of the management loop *)
Definition handler_op (o : op (St := St) (Msg := Msg) (Data := Data) (Any := Any) (P := P)) : Prop :=
  match o with OpStop _ _ | OpRegister _ _ => False | _ => fair o end.

(** A step of the lease loop, of the goroutines that wait for it, or an expiry; with [revokes], no revocation of
    a lease fails before it takes effect *)
Definition lease_label (revokes : bool) (w : etcd) (a : EtcdManagers.label) : Prop :=
  match a with
  | EtcdManagers.LLoop _ _ | EtcdManagers.LExpire _ | EtcdManagers.LRelease _ | EtcdManagers.LFinish _ _ => revokes = true -> cleanup_ok w a
  | _ => False
  end.

(** An operation of a processing loop of the object [o]: it fetches the pending calls, executes one, answers
    waiters, leaves.  ReliableCalls.v has their order; here they come in any. *)
Inductive loop_step (cls : Class St Msg Data) (p : P) (o : BaseObject St) : P -> BaseObject St -> Prop :=
| L_fetch next p' r : pGetPendingReliableCalls p (id o) next = (p', r) -> loop_step cls p o p' o
| L_call c p' o' c' : processReliableCall rt cls p o c = (p', o', c') -> loop_step cls p o p' o'
| L_notify seq c o' evs : notifyWaiters o seq c = (o', evs) -> loop_step cls p o p o'
| L_exit o' b : tryExitIfNoWaiters o = (o', b) -> loop_step cls p o p o'
| L_cleanup o' evs : cleanupProcessingLoop o = (o', evs) -> loop_step cls p o p o'.

(** The rows that others write, once the node has stopped *)
Definition note (w : world) (ids : gset string) : option farewell :=
  (fun f => mkFarewell (stopNode f) (stopIds f) (late f) (ids ∪ rewritten f)) <$> atStop w.

(** The steps.  [S_process]: a processing loop of a live object.  [S_late]: one of an object that was live when the node
    stopped; its context is cancelled, so it ends with the call it is executing, if not before, which these steps do
    not require.  [S_db]: other processes, and loops of objects that have left the node, write the database. *)
Inductive step (revokes : bool) (w : world) : world -> Prop :=
| S_run i w' : stop_ok i -> runStep w i = Some w' -> step revokes w w'
| S_op o : handler_op o -> step revokes w (set_node w (run_op rt onCreated (node w) o))
| S_process oid o p' b : objects (node w) !! oid = Some o -> loop_step (cls_of o) (store (node w)) (base o) p' b ->
    step revokes w (set_node w (set_object (Nodes.set_store (node w) p') oid (cls_of o) b))
| S_late f oid o p' b : atStop w = Some f -> late f !! oid = Some o -> loop_step (cls_of o) (store (node w)) (base o) p' b ->
    step revokes w (set_stop w (Nodes.set_store (node w) p')
      (mkFarewell (stopNode f) (stopIds f) (<[oid := mkLive (cls_of o) b]> (late f)) ({[oid]} ∪ rewritten f)))
| S_db p' ids : (provider_ok (store (node w)) -> provider_ok p') ->
    (forall oid, oid ∉ ids -> saved p' oid = saved (store (node w)) oid) ->
    step revokes w (mkWorld (pc w) (self w) (Nodes.set_store (node w) p') (em w) (gates w) (conns w) (live w) (managing w) (looping w) (watching w)
      (dbOpen w) (ctxLive w) (note w ids))
| S_lease a e : lease_label revokes (em w) a -> EtcdManagers.exec (em w) a = Some e -> step revokes w (set_em w e)
| S_gates o g : gate_run (gates w) o = Some g -> step revokes w (set_gates w g)
| S_loop : live w = false -> step revokes w (mkWorld (pc w) (self w) (node w) (em w) (gates w) (conns w) (live w) (managing w) false (watching w) (dbOpen w) (ctxLive w) (atStop w)).

(** A process before [Run]: [db] is whether it has opened a database *)
Definition initial (n : nodeT) (prefix : string) (s0 : S) (db : bool) : world :=
  mkWorld Listen (advertiseAddress n) n (EtcdManagers.initial prefix s0) (Pushes.mkGC false ∅ ∅) Conns.New true false false false db true None.

End Process.
End Lifecycle.
Import Lifecycle.

(** ** The invariant of a process *)

Section Invariant.
Context {St Msg Data Any P S : Type} `{PersistenceLaws P} `{LeaseLaws S}.
Context (rt : Runtime Any Msg) (onCreated : Class St Msg Data -> St -> St).
Abbreviation nodeT := (Node (St := St) (Msg := Msg) (Data := Data) (P := P)).
Abbreviation proc := (world (St := St) (Msg := Msg) (Data := Data) (Any := Any) (P := P) (S := S)).
Implicit Types (w : proc) (e : EtcdManagers.world (S := S)).
Import EtcdManagers.
Import Lifecycle.

(** [Run] has saved the objects *)
Definition past (p : Lifecycle.phase) : bool :=
  match p with
  | CancelLive | StopConnections | StopManagement | StopWatch | CleanupGates | Unregister | AwaitUnregister | CloseEtcd | AwaitClose
  | Deferred None | Returned None => true
  | _ => false
  end.

(** [Run] has registered the node and not yet given the registration up *)
Definition announced (p : Lifecycle.phase) : bool :=
  match p with
  | Initialize | StartWatch | StartManagement | Connect | Serve | StopNode
  | CancelLive | StopConnections | StopManagement | StopWatch | CleanupGates | Unregister => true
  | _ => false
  end.

(** No loop has been started yet *)
Definition before (p : Lifecycle.phase) : bool :=
  match p with Listen | StartNode | RegisterEnter | RegisterLocked | Deferred (Some _) | Returned (Some _) => true | _ => false end.

(** The goroutine of [Run] waits in the etcd manager *)
Definition awaits (p : Lifecycle.phase) (e : EtcdManagers.world (S := S)) : Prop :=
  match p with
  | AwaitUnregister => waiting e = [] \/ exists b, waiting e = [WUnregister b] /\ (b = true -> loops e = ∅)
  | AwaitClose => (waiting e = [] /\ loops e = ∅) \/ exists b, waiting e = [WClose b] /\ (b = true -> loops e = ∅) /\ connected (mgr e) = true
  | Deferred None | Returned None => waiting e = [] /\ loops e = ∅
  | _ => waiting e = [] /\ connected (mgr e) = true
  end.

Record em_ok (p : Lifecycle.phase) (key addr : string) e : Prop := {
  eo_calm : panicked e = false;
  eo_wait : awaits p e;
  eo_conn : loops e <> ∅ -> connected (mgr e) = true;
  eo_before : before p = true -> loops e = ∅;
  eo_unreg : p = AwaitUnregister -> connected (mgr e) = true;
  eo_key : announced p = true -> sharedKeys (mgr e) !! key = Some addr
}.

(** What a step of the loop leaves alone *)
Lemma loopStep_frame m s lp i m' s' o : loopStep (S := S) m s lp i = Some (m', s', o) ->
  connected m' = connected m /\ sharedKeys m' = sharedKeys m /\ prefix m' = prefix m /\ (connected m = true -> o <> Panic).
Proof.
  unfold loopStep. intros Hl. split_in Hl; simplify_eq/=; split_and!; try done; repeat case_match; try done; intros Hc; rewrite Hc in *; done.
Qed.

(** The steps of the lease loop and of the waiting goroutine *)
Lemma em_ok_lease rv p key addr e a e' : em_ok p key addr e -> lease_label rv e a -> exec e a = Some e' -> em_ok p key addr e' /\ prefix (mgr e') = prefix (mgr e).
Proof.
  intros [Hp Hw Hc Hb Hu Hk] Ha He. destruct a as [| | | |i|i f|n i|l]; try done; cbn in He.
  - apply bind_Some in He as (x & Hx & He). destruct (bool_decide (loops e = ∅)) eqn:Hl; [|done]. apply bool_decide_eq_true in Hl.
    injection He as <-. split; [|done]. split; cbn; try done; [].
    destruct p as [| | | | | | | | | | | | | | | | | | |[]|[]]; cbn in *; try (destruct Hw as [Hw _]; rewrite Hw in Hx; by destruct i).
    + destruct Hw as [Hw|(b & Hw & _)]; rewrite Hw in Hx |- *; [by destruct i|]. right. destruct i; [|done]. cbn in *. simplify_eq. eauto.
    + destruct Hw as [[Hw _]|(b & Hw & _ & Hcc)]; rewrite Hw in Hx |- *; [by destruct i|]. right. destruct i; [|done]. cbn in *. simplify_eq. eauto.
  - apply bind_Some in He as (x & Hx & He). destruct (released x) eqn:Hr; [|done]. injection He as <-.
    destruct p as [| | | | | | | | | | | | | | | | | | |[]|[]]; cbn in Hw; try (destruct Hw as [Hw _]; rewrite Hw in Hx; by destruct i).
    + destruct Hw as [Hw|(b & Hw & Hb')]; rewrite Hw in Hx; [by destruct i|]. destruct i; [|done]. cbn in Hx. simplify_eq. cbn in Hr. subst b.
      rewrite Hw. cbn. split; [|by case_match]. specialize (Hu eq_refl).
      split; cbn; try done; try (by case_match); by case_match; cbn; auto.
    + destruct Hw as [[Hw _]|(b & Hw & Hb' & Hcc)]; rewrite Hw in Hx; [by destruct i|]. destruct i; [|done]. cbn in Hx. simplify_eq. cbn in Hr. subst b.
      rewrite Hw. cbn. split; [|done]. split; cbn; try done; [left; auto|]. intros Hne. by specialize (Hb' eq_refl).
  - apply bind_Some in He as (lp & Hlp & He). apply bind_Some in He as ([[m s] o] & Hst & He).
    apply loopStep_frame in Hst as (Hc1 & Hk1 & Hp1 & Hpan).
    assert (loops e <> ∅) as Hne by (intros E; by rewrite E in Hlp). specialize (Hc Hne). specialize (Hpan Hc).
    destruct o as [lp'| |]; [| |done]; injection He as <-; (split; [|done]).
    + assert (before p = false) as Hbf by (destruct (before p); [by specialize (Hb eq_refl)|done]).
      split; cbn; rewrite ?Hk1, ?Hc1; auto; [|by rewrite Hbf].
      destruct p as [| | | | | | | | | | | | | | | | | | |[]|[]]; cbn in *; rewrite ?Hc1; try done; naive_solver.
    + assert (before p = false) as Hbf by (destruct (before p); [by specialize (Hb eq_refl)|done]).
      split; cbn; rewrite ?Hk1, ?Hc1; auto; [|by rewrite Hbf].
      destruct p as [| | | | | | | | | | | | | | | | | | |[]|[]]; cbn in *; rewrite ?Hc1; try done; naive_solver.
  - injection He as <-. split; [|done]. split; try done.
Qed.

(** A stopped node refuses the operations of handlers *)
Lemma run_op_stopped (n : nodeT) o : stopped n = true -> handler_op o -> run_op rt onCreated n o = n.
Proof.
  intros Hs. destruct o; cbn; try done; intros _.
  - unfold CreateObject. by rewrite Hs.
  - unfold CallObject. by rewrite Hs.
  - unfold ReliableCallObject. by rewrite Hs.
  - unfold DeleteObject. case_bool_decide; [done|]. by rewrite Hs.
  - unfold EvictObject. by rewrite Hs.
  - unfold SaveAllObjects. by rewrite Hs.
Qed.

Lemma Stop_stopped wait (n : nodeT) ids : stopped (wait (set_stopped n)) = true ->
  stopped (Stop wait n ids) = true /\ objects (Stop wait n ids) = ∅.
Proof. intros Hs. unfold Stop, saveAllObjectsLocked. by repeat case_match. Qed.

Lemma inv_Start (n : nodeT) : node_inv n -> node_inv (fst (Nodes.Start n)).
Proof. by intros []. Qed.

(** What a processing loop does to its object and to the store *)
Lemma loop_step_keeps (cls : Class St Msg Data) (p : P) (o : BaseObject St) p' o' : loop_step rt cls p o p' o' ->
  id o' = id o /\ objType o' = objType o /\
  (provider_ok p -> provider_ok p' /\ forall oid, oid <> id o -> saved p' oid = saved p oid).
Proof.
  assert (forall o0 c st rd m c', finalize cls p o0 c st rd m = (p', o', c') -> id o' = id o0 /\ objType o' = objType o0 /\
    (provider_ok p -> provider_ok p' /\ forall oid, oid <> id o0 -> saved p' oid = saved p oid)) as Hfin.
  { intros o0 c st rd m c' Hf. unfold finalize in Hf. destruct (saveLocked cls p _) as [p1 r1] eqn:Hs.
    destruct (pUpdateReliableCallStatus p1 _ _ _ _) as [p2 r2] eqn:Hu. simplify_eq. split; [done|]. split; [done|]. intros Hok.
    destruct (Save_spec _ _ _ _ _ Hok Hs) as (Hok1 & _ & Hk & _). destruct (law_update _ _ _ _ _ _ _ Hok1 Hu) as (Hok2 & Hs2 & _).
    split; [done|]. intros oid Hne. rewrite Hs2. by apply Hk. }
  intros Hl. destruct Hl as [next p' r Hg|c p' o' c' Hc|seq c o' evs Hn|o' b Ht|o' evs Hc].
  - split; [done|]. split; [done|]. intros Hok. destruct (law_pending _ _ _ _ _ Hok Hg) as (? & _ & ? & _). auto.
  - unfold processReliableCall in Hc. destruct (BytesToMsg rt _) as [req|e]; [|by apply Hfin in Hc].
    destruct (InvokeMethod _ _ _ _ _) as [s' [res|e]]; by apply Hfin in Hc.
  - unfold notifyWaiters in Hn. destruct (popWaiters _ _) as [[? ?] ?]. by injection Hn as <- _.
  - unfold tryExitIfNoWaiters in Ht. case_match; by injection Ht as <- _.
  - by injection Hc as <- _.
Qed.

(** What [Node.Stop] saw and left, and what is left of it *)
Definition stopped_by w : Prop := exists wait n ids L R p, let n0 := wait (set_stopped n) in
  node w = Nodes.set_store (Stop wait n ids) p /\ atStop w = Some (mkFarewell n0 (ids n0) L R) /\ node_inv n0 /\ stopped n0 = true /\
  hasProvider n0 = hasProvider n /\ ids n0 ≡ₚ (map_to_list (objects n0)).*1 /\ (forall oid o, L !! oid = Some o -> id (base o) = oid) /\
  (provider_ok (Nodes.store (Stop wait n ids)) -> provider_ok p /\ forall oid, oid ∉ R -> saved p oid = saved (Nodes.store (Stop wait n ids)) oid).

(** The steps of the etcd manager that a run has *)
Abbreviation lease_ok b := (fun e a => b = true -> cleanup_ok e a).

Record life_inv (b : bool) (p : string) (s0 : S) w : Prop := {
  li_node : node_inv (node w);
  li_em : em_ok (pc w) (nodeKey w) (self w) (em w);
  li_stop : if past (pc w) then stopped_by w else atStop w = None;
  li_runs : runs_with (lease_ok b) (EtcdManagers.initial p s0) (em w);
  li_gates : past (pc w) = true -> pc w <> CancelLive -> live w = false;
  li_deferred : pc w = Returned None -> dbOpen w = false /\ ctxLive w = false
}.

Lemma runs_exec b p s0 e a e' : runs_with (lease_ok b) (EtcdManagers.initial p s0) e -> (b = true -> cleanup_ok e a) -> exec e a = Some e' ->
  runs_with (lease_ok b) (EtcdManagers.initial p s0) e'.
Proof. intros Hr Ha He. eapply rtc_r; [exact Hr|]. by exists a. Qed.

(** When no loop is left, etcd has no key of the process any more *)
Lemma leases_gone p s0 e : (forall k v l, ls_get s0 k = Some (v, l) -> l <> 0%Z -> ls_granted s0 l = true) ->
  runs_with (lease_ok true) (EtcdManagers.initial p s0) e -> panicked e = false -> loops e = ∅ ->
  forall k v l, ls_get (EtcdManagers.store e) k = Some (v, l) -> l = 0%Z \/ ls_granted s0 l = true.
Proof.
  intros Hs0 Hru Hp Hl k v l Hk.
  assert (runs_with cleanup_ok (EtcdManagers.initial p s0) e) as Hru'
    by (eapply rtc_subrel; [|exact Hru]; intros ? ? (a & Ha & He); exists a; by auto).
  clear Hru. rename Hru' into Hru. destruct (decide (l = 0%Z)) as [|Hne]; [by left|]. right. destruct (ls_granted s0 l) eqn:Hgr; [done|].
  destruct (si_keys _ _ (runs_stop_inv p s0 e Hs0 Hru Hp) k v l Hk Hne Hgr) as (i & lp & Hi & _). by rewrite Hl in Hi.
Qed.

(** A step of [Run] that only moves on *)
Lemma em_ok_goto p p' key addr e : em_ok p key addr e ->
  (awaits p e -> awaits p' e) -> (before p' = true -> before p = true) -> (p' = AwaitUnregister -> p = AwaitUnregister) ->
  (announced p' = true -> announced p = true) -> em_ok p' key addr e.
Proof. intros [] ? ? ? ?. split; auto. Qed.

(** The calls of the etcd manager *)
Lemma em_ok_enter key addr e e' : em_ok RegisterEnter key addr e -> exec e LEnter = Some e' ->
  em_ok RegisterLocked key addr e' /\ prefix (mgr e') = prefix (mgr e).
Proof. intros [Hp [Hw Hc0] Hc Hb Hu Hk] He. cbn in He. rewrite Hc0 in He. injection He as <-. by repeat split. Qed.

Lemma em_ok_register key addr e e' n t f : em_ok RegisterLocked key addr e -> exec e (LRegister n key addr t f) = Some e' ->
  em_ok Initialize key addr e' /\ prefix (mgr e') = prefix (mgr e).
Proof.
  intros [Hp [Hw Hc0] Hc Hb Hu Hk] He. cbn in He. case_match; simplify_eq. unfold registerLocked. cbn.
  destruct (sharedLeaseRunning _); cbn; (destruct (_ =? 0)%Z; cbn; [|rewrite Hc0; cbn]); (split; [|done]); split; cbn; try done;
    intros _; apply lookup_insert_eq.
Qed.

Lemma em_ok_unregister key addr e f : em_ok Unregister key addr e ->
  em_ok AwaitUnregister key addr (unregisterLocked e key f) /\ prefix (mgr (unregisterLocked e key f)) = prefix (mgr e).
Proof.
  intros [Hp [Hw Hc0] Hc Hb Hu Hk]. unfold unregisterLocked. case_match; cbn; (split; [|done]); split; cbn; try done.
  - right. exists false. by rewrite Hw.
  - by left.
Qed.

Lemma em_ok_close key addr e : em_ok CloseEtcd key addr e ->
  em_ok AwaitClose key addr (closeLocked e) /\ prefix (mgr (closeLocked e)) = prefix (mgr e).
Proof.
  intros [Hp [Hw Hc0] Hc Hb Hu Hk]. split; [|done]. split; cbn; try done. right. exists false. by rewrite Hw.
Qed.

(** [Run] moves on and leaves node and etcd manager alone *)
Ltac life_move He Hg :=
  split; cbn; try done; try (by apply inv_Start); try (by intros; apply Hg); try (eapply em_ok_goto; [exact He|try done; cbn; tauto..]).
(** [Run] has called the etcd manager: [He] is its new state, [Hpx] its prefix, [Hex] the step *)
Ltac life_call He Hpx Hex Hr Hg :=
  split; cbn; [done| |done|eapply runs_exec; [exact Hr| |exact Hex]; done|try done; intros; by apply Hg|done];
  unfold nodeKey in *; cbn in *; try rewrite Hpx; exact He.

Lemma life_run b p s0 w i w' : life_inv b p s0 w -> stop_ok i -> runStep w i = Some w' -> life_inv b p s0 w'.
Proof.
  intros [Hn He Hs Hr Hg Hd] Hi Hstep. unfold runStep, startStep, stopStep in Hstep.
  destruct (pc w) as [| | | | | | | | | | | | | | | | | | |[]|[]] eqn:Hpc; destruct i; try done; simplify_eq.
  all: try (injection Hstep as <-).
  all: try match goal with H : stop_ok (Done ?ok) |- _ => destruct ok end.
  all: try solve [life_move He Hg].
  all: try (destruct (managing w); simplify_eq; solve [life_move He Hg]).
  1, 2: destruct (exec (em w) LEnter) as [e|] eqn:Hex; simplify_eq;
    [destruct (em_ok_enter _ _ _ _ He Hex) as [He' Hpx]; life_call He' Hpx Hex Hr Hg
    |cbn in Hex; destruct (eo_wait _ _ _ _ He) as [_ Hc]; by rewrite Hc in Hex].
  { destruct (exec _ (LRegister _ _ _ _ _)) as [e|] eqn:Hex; [injection Hstep as <-|done].
    destruct (em_ok_register _ _ _ _ _ _ _ He Hex) as [He' Hpx]. life_call He' Hpx Hex Hr Hg. }
  { destruct Hi as (Hk & Hst & Hpv & Hids). assert (node_inv (set_stopped (node w))) as Hi0 by (by destruct Hn).
    assert (stopped (wait (set_stopped (node w))) = true) as Hs0 by (by apply Hst).
    split; cbn; try done.
    + exact (inv_run_op rt onCreated (node w) (OpStop wait ids) Hk Hn).
    + eapply em_ok_goto; [exact He|try done; cbn; tauto..].
    + exists wait, (node w), ids, (destroyed (objects (wait (set_stopped (node w))))), ∅, (Nodes.store (Stop wait (node w) ids)).
      specialize (Hk _ Hi0). split_and!; try done; [by rewrite Hpv|].
      intros oid o Ho. unfold destroyed in Ho. apply lookup_fmap_Some in Ho as (x & <- & Hx). by destruct (inv_objects _ Hk _ _ Hx) as (_ & ? & _). }
  { destruct (em_ok_unregister _ _ _ f He) as [He' Hpx]. assert (exec (em w) (LUnregister (nodeKey w) f) = Some (unregisterLocked (em w) (nodeKey w) f)) as Hex by done.
    life_call He' Hpx Hex Hr Hg. }
  1, 2: destruct (bool_decide _) eqn:Hw; [|done]; apply bool_decide_eq_true in Hw; injection Hstep as <-;
    pose proof (eo_unreg _ _ _ _ He eq_refl); life_move He Hg.
  1, 2: destruct (em_ok_close _ _ _ He) as [He' Hpx]; assert (exec (em w) LClose = Some (closeLocked (em w))) as Hex by done;
    life_call He' Hpx Hex Hr Hg.
  all: destruct (bool_decide _) eqn:Hw; [|done]; apply bool_decide_eq_true in Hw; injection Hstep as <-; life_move He Hg;
    apply (em_ok_goto _ _ _ _ _ He); try done; cbn; rewrite Hw; naive_solver.
Qed.

Lemma stopped_by_node w : stopped_by w -> stopped (node w) = true /\ objects (node w) = ∅.
Proof. intros (wait & n & ids & L & R & p & -> & _ & _ & Hst & _). destruct (Stop_stopped wait n ids Hst) as [? ?]. by split. Qed.

Lemma life_step b p s0 w w' : life_inv b p s0 w -> step rt onCreated b w w' -> life_inv b p s0 w'.
Proof.
  intros Hi [i w1 Hok Hrun|o Ho|oid o p' x Ho Hl|f oid o p' x Hf Ho Hl|p' ids Hok Hk|a e Ha He|o g Hgt|Hl]; [by eapply life_run|..].
  - destruct Hi as [Hn Hem Hs Hr Hg Hd]. destruct (past (pc w)) eqn:Hpast; split; cbn; try done; rewrite ?Hpast; try done.
    + apply inv_run_op; [by destruct o|done].
    + destruct (stopped_by_node w Hs) as [Hst _]. unfold stopped_by in *. cbn. by rewrite run_op_stopped.
    + apply inv_run_op; [by destruct o|done].
  - destruct Hi as [Hn Hem Hs Hr Hg Hd]. destruct (loop_step_keeps _ _ _ _ _ Hl) as (Hid & Hty & _).
    destruct (past (pc w)) eqn:Hpast; [destruct (stopped_by_node w Hs) as [_ He]; by rewrite He in Ho|].
    split; cbn; rewrite ?Hpast; try done. exact (inv_update (P := P) _ oid o x (inv_set_store (P := P) _ p' Hn) Ho Hid Hty).
  - destruct Hi as [Hn Hem Hs Hr Hg Hd]. destruct (past (pc w)) eqn:Hpast; [|by rewrite Hs in Hf].
    split; cbn; rewrite ?Hpast; try done; [by apply inv_set_store|].
    destruct Hs as (wait & n & ids & L & R & p0 & En & Ea & Hin & Hst & Hpv & Hids & HL & Hp).
    rewrite Ea in Hf. injection Hf as <-. cbn in Ho |- *. destruct (loop_step_keeps _ _ _ _ _ Hl) as (Hid & _ & Hfr).
    exists wait, n, ids, (<[oid := mkLive (cls_of o) x]> L), ({[oid]} ∪ R), p'. rewrite En in Hfr |- *. cbn in Hfr.
    split_and!; try done.
    + intros k o'. rewrite lookup_insert_Some. intros [[<- <-]|[_ Hk]]; [|by apply HL]. cbn. rewrite Hid. by apply HL.
    + intros Hok. destruct (Hp Hok) as [Hok0 Hsv]. destruct (Hfr Hok0) as [Hok' Hsv']. split; [done|]. intros k Hk.
      rewrite Hsv', Hsv; set_solver.
  - destruct Hi as [Hn Hem Hs Hr Hg Hd]. split; cbn; try done; [by apply inv_set_store|].
    destruct (past (pc w)); [|unfold note; by rewrite Hs].
    destruct Hs as (wait & n & ids' & L & R & p0 & En & Ea & Hin & Hst & Hpv & Hids & HL & Hp).
    exists wait, n, ids', L, (ids ∪ R), p'. rewrite En in Hok, Hk |- *. cbn in Hok, Hk. unfold note. rewrite Ea.
    split_and!; try done. intros Hp0. destruct (Hp Hp0) as [Hok0 Hsv]. split; [auto|]. intros k Hnk. rewrite Hk, Hsv; set_solver.
  - destruct Hi as [Hn Hem Hs Hr Hg Hd]. destruct (em_ok_lease _ _ _ _ _ _ _ Hem Ha He) as [Hem' Hpx]. split; cbn; try done.
    + unfold nodeKey in *. cbn. by rewrite Hpx.
    + eapply runs_exec; [exact Hr| |exact He]. by destruct a.
  - by destruct Hi as [Hn Hem Hs Hr Hg Hd].
  - by destruct Hi as [Hn Hem Hs Hr Hg Hd].
Qed.

Lemma life_reachable b n p s0 db w : node_inv n -> rtc (step rt onCreated b) (initial n p s0 db) w -> life_inv b p s0 w.
Proof.
  intros Hn. revert w. apply (rtc_ind_r (fun w => life_inv b p s0 w)); [|intros w w' _ Hs IH; by eapply life_step].
  by split; cbn; try done; apply rtc_refl.
Qed.

End Invariant.

Section Shutdown.
Context {St Msg Data Any P S : Type} `{PersistenceLaws P} `{LeaseLaws S}.
Abbreviation proc := (world (St := St) (Msg := Msg) (Data := Data) (Any := Any) (P := P) (S := S)).
Implicit Type w : proc.

(** The node is stopped and empty, the operations of its handlers are refused, and when the final save
    [saveAllObjectsLocked] of the objects that were live succeeded, the store has each of them with its last state,
    until somebody else writes it, and a new owner on that store gets it back *)
Definition handed_over (rt : Runtime Any Msg) (onCreated : Class St Msg Data -> St -> St) w : Prop := exists f,
  let n1 := stopNode f in atStop w = Some f /\ stopped (node w) = true /\ objects (node w) = ∅ /\
  (forall o, handler_op o -> run_op rt onCreated (node w) o = node w) /\
  (hasProvider n1 = true -> provider_ok (store n1) -> snd (saveAllObjectsLocked n1 (stopIds f)) = Ok tt ->
   forall oid o d j, objects n1 !! oid = Some o -> oid ∉ rewritten f -> toData (cls_of o) (st (base o)) = Ok d -> marshal (cls_of o) d = Ok j ->
     saved (store (node w)) oid = Some (j, nextRcseq (base o)) /\
     forall (wait' : Node -> Node) (m : Node (St := St) (Msg := Msg) (Data := Data) (P := P)) p'' x, let m1 := wait' m in
       restores (cls_of o) -> is_ok (toData (cls_of o) (zeroSt (cls_of o))) = true ->
       provider_ok (store m1) -> saved (store m1) oid = saved (store (node w)) oid ->
       stopped m = false -> objects m !! oid = None -> hasProvider m1 = true -> may_create m1 (objType (base o)) oid = true ->
       objectTypes m1 !! objType (base o) = Some (cls_of o) -> objects m1 !! oid = None -> pLoadObject (store m1) oid = (p'', Ok x) ->
       exists m' b, CreateObject onCreated wait' m (objType (base o)) oid = (m', Ok oid) /\
         objects m' !! oid = Some (mkLive (cls_of o) b) /\ st b = onCreated (cls_of o) (st (base o)) /\ nextRcseq b = nextRcseq (base o)).

Lemma stopped_by_handed_over rt onCreated w : stopped_by w -> handed_over rt onCreated w.
Proof.
  intros Hw. destruct (stopped_by_node w Hw) as [Hstop Hobj]. destruct Hw as (wait & n & ids & L & R & p & En & Ea & Hin & Hst & Hpv & Hids & _ & Hp).
  eexists. split; [exact Ea|]. cbn [stopNode stopIds rewritten]. split; [done|]. split; [done|].
  split; [intros o Ho; by apply run_op_stopped|]. intros Hpr Hok Hsv oid o d j Hoid HR Hd Hj.
  destruct (Stop_saves_all wait n ids Hin Hst Hok ltac:(congruence) Hpr Hids) as (_ & _ & _ & Hok' & Hsaved).
  destruct (Hp Hok') as [_ Hkeep].
  assert (saved (store (node w)) oid = Some (j, nextRcseq (base o))) as Hsv' by (rewrite En; cbn; rewrite Hkeep by done; by eapply Hsaved).
  split; [done|]. intros wait' m p'' x Hrs Hz Hokm Hsm. destruct (inv_objects _ Hin _ _ Hoid) as (Hne & _). rewrite Hsv' in Hsm.
  intros. by eapply (CreateObject_restores onCreated o wait' m oid d j p'' x).
Qed.


(** C25: what a process leaves when it has shut down.  When [Run] returns, with or without an error, no goroutine of the
    etcd manager is running and none has panicked; when it returns without an error, the database is closed, the contexts
    of server and cluster are cancelled, and the node is handed over.  In a run in which no revocation of a lease fails
    before it takes effect (such a failure is only logged, and leaves the keys until the lease expires), no key of the
    process is left in etcd either: every key there is permanent or belongs to a lease granted before. *)
Theorem shutdown_leaves_nothing (rt : Runtime Any Msg) (onCreated : Class St Msg Data -> St -> St) (revokes : bool)
    (n : Node (St := St) (Msg := Msg) (Data := Data) (P := P)) (prefix : string) (s0 : S) (db : bool) w x :
  node_inv n -> (forall k v l, ls_get s0 k = Some (v, l) -> l <> 0%Z -> ls_granted s0 l = true) ->
  rtc (step rt onCreated revokes) (initial n prefix s0 db) w -> pc w = Returned x ->
  EtcdManagers.loops (em w) = ∅ /\ EtcdManagers.panicked (em w) = false /\
  (revokes = true -> forall k v l, ls_get (EtcdManagers.store (em w)) k = Some (v, l) -> l = 0%Z \/ ls_granted s0 l = true) /\
  (x = None -> dbOpen w = false /\ ctxLive w = false /\ live w = false /\ handed_over rt onCreated w).
Proof.
  intros Hn Hs0 Hr Hpc. destruct (life_reachable rt onCreated revokes n prefix s0 db w Hn Hr) as [_ Hem Hs Hru Hg Hd].
  rewrite Hpc in *. assert (EtcdManagers.loops (em w) = ∅) as Hl
    by (destruct x; [exact (eo_before _ _ _ _ Hem eq_refl)|exact (proj2 (eo_wait _ _ _ _ Hem))]).
  assert (EtcdManagers.panicked (em w) = false) as Hp by apply Hem.
  split_and!; [done|done|intros ->; by apply (leases_gone prefix s0)|].
  intros ->. destruct (Hd eq_refl) as [-> ->]. split_and!; [done|done|by apply Hg|by apply stopped_by_handed_over].
Qed.

End Shutdown.

(** ** Runs *)

Module LifeRuns.
Import Postgres.
Abbreviation cproc := (world (St := nat) (Msg := string) (Data := nat) (Any := string) (P := DB) (S := LeaseMem)).

(** A move of [Run], or of the lease loop and those who wait for it *)
Inductive move : Type := Go (i : input (St := nat) (Msg := string) (Data := nat) (P := DB)) | Tick (n : nat) (i : EtcdManagers.input) | Let (k : nat).

Definition rangeIds (n : cnode) : list string := (map_to_list (objects n)).*1.

Definition allowed (m : move) : Prop :=
  match m with
  | Go i => stop_ok i
  | Tick _ (EtcdManagers.Go (FailBefore _)) => False
  | _ => True
  end.

Definition play1 (w : cproc) (m : move) : option cproc :=
  match m with
  | Go i => runStep w i
  | Tick n i => e ← EtcdManagers.exec (em w) (EtcdManagers.LLoop n i); Some (set_em w e)
  | Let k => e ← EtcdManagers.exec (em w) (EtcdManagers.LRelease k); e ← EtcdManagers.exec e (EtcdManagers.LFinish k NoFault); Some (set_em w e)
  end.
Fixpoint play (w : cproc) (l : list move) : option cproc := match l with [] => Some w | m :: l => w' ← play1 w m; play w' l end.

Lemma play_steps rv l : Forall allowed l -> forall w w', play w l = Some w' -> rtc (step Counter.rt Node.keep rv) w w'.
Proof.
  induction 1 as [|m l Hm Hl IH]; intros w w' Hp; cbn in Hp; [simplify_eq; apply rtc_refl|].
  apply bind_Some in Hp as (w1 & H1 & Hp). apply IH in Hp. destruct m as [i|n i|k]; unfold play1 in H1.
  - eapply rtc_l; [by eapply S_run|done].
  - apply bind_Some in H1 as (e & He & [= <-]). refine (rtc_l _ _ _ _ (S_lease _ _ _ w _ e _ He) Hp). cbn in *. by repeat case_match.
  - apply bind_Some in H1 as (e & He & H1). apply bind_Some in H1 as (e2 & He2 & [= <-]).
    refine (rtc_l _ _ _ _ (S_lease _ _ _ w (EtcdManagers.LRelease k) e (fun _ => I) He) _). exact (rtc_l _ _ _ _ (S_lease _ _ _ (set_em w e) (EtcdManagers.LFinish k NoFault) e2 (fun _ => I) He2) Hp).
Qed.

(** A node with one counter at 1, in front of an empty etcd *)
Definition w0 : cproc := initial (node1 (Counter.db0 [])) "" LeaseRuns.noLeases true.
Definition starting : list move := [Go (Done true); Go (Done true); Go (Done true); Go (Lease 0 NoFault)].
Definition up : list move :=
  starting ++ [Go (Done true); Go (Done true); Go (Done true); Go (Nodes [] ∅ map_to_list elements)] ++
  [Tick 0 (EtcdManagers.Go NoFault); Tick 0 (EtcdManagers.Go NoFault); Tick 0 (EtcdManagers.Go NoFault); Tick 0 (EtcdManagers.Go NoFault);
   Tick 0 (EtcdManagers.Order [("/goverse/nodes/n1", "n1")]); Tick 0 (EtcdManagers.Go NoFault); Tick 0 (EtcdManagers.Go NoFault); Tick 0 (EtcdManagers.Go NoFault)].
Definition down : list move :=
  up ++ [Go (Done true); Go (StopWith idle rangeIds); Go (Done true); Go (Range map_to_list); Go (Done true); Go (Done true); Go (Done true);
   Go (Lease 0 NoFault); Tick 0 EtcdManagers.CtxDone; Tick 0 (EtcdManagers.Go NoFault); Tick 0 (EtcdManagers.Go NoFault); Tick 0 (EtcdManagers.Go NoFault);
   Let 0; Go (Done true); Go (Done true); Let 0; Go (Done true); Go (Done true)].
Definition at_ (l : list move) : cproc := default w0 (play w0 l).

Lemma stop_idle_ok : stop_ok (StopWith idle rangeIds).
Proof. cbn. split; [apply keeps_idle|]. by split_and!. Qed.

(** A run of closed moves reaches its last state *)
Ltac played := match goal with |- rtc _ _ (at_ ?l) => apply (play_steps _ l) end; [cbv [up down starting app]; repeat (constructor; [exact I || exact stop_idle_ok|]); constructor|vm_compute; reflexivity].
Lemma up_reachable rv : rtc (step Counter.rt Node.keep rv) w0 (at_ up).
Proof. played. Qed.
Lemma down_reachable rv : rtc (step Counter.rt Node.keep rv) w0 (at_ down).
Proof. played. Qed.
End LifeRuns.


Lemma shutdown_leaves_nothing_witness :
  pc (LifeRuns.at_ LifeRuns.down) = Returned None /\ dbOpen (LifeRuns.at_ LifeRuns.down) = false /\
  EtcdManagers.loops (em (LifeRuns.at_ LifeRuns.down)) = ∅.
Proof.
  destruct (shutdown_leaves_nothing Counter.rt Node.keep true (node1 (Counter.db0 [])) "" LeaseRuns.noLeases true (LifeRuns.at_ LifeRuns.down) None)
    as (Hl & _ & _ & Hd); [apply node1_inv|intros k v l; cbn; by rewrite lookup_empty|apply LifeRuns.down_reachable|by vm_compute|].
  split_and!; [by vm_compute|by apply Hd|exact Hl].
Defined.

(** ** What goes wrong *)

(** [Run] ignores the error of [Cluster.Start].  When the state cannot be read from etcd, the node stays
    registered, so that shards are assigned to it, and serves, but no management loop ever runs: for as long
    as it serves it claims no shard. *)
Theorem failed_start_serves_unmanaged :
  exists w, rtc (step Counter.rt Node.keep true) LifeRuns.w0 w /\ pc w = Serve /\
    EtcdManagers.sharedKeys (EtcdManagers.mgr (em w)) !! "/goverse/nodes/n1" = Some "n1" /\
    forall w', rtc (fun x y => step Counter.rt Node.keep false x y /\ pc y = Serve) w w' -> managing w' = false /\ watching w' = false.
Proof.
  exists (LifeRuns.at_ (LifeRuns.starting ++ [LifeRuns.Go (Done false)])). split; [LifeRuns.played|]. split_and!; [by vm_compute..|].
  intros w' Hr. assert (pc w' = Serve /\ managing w' = false /\ watching w' = false) as [_ ?]; [|done].
  revert w' Hr. apply rtc_ind_r; [by vm_compute|]. intros x y _ [Hs Hy] (Hx & Hm & Hw).
  split; [done|]. destruct Hs as [i y' _ Hrun| | | | | | |]; try done. unfold runStep in Hrun. rewrite Hx in Hrun. destruct i; simplify_eq/=.
  all: unfold startStep, stopStep in Hrun; by rewrite Hx in Hrun.
Qed.

(** A deletion that arrives while the node stops is reported as done, and the object is still in the store,
    from which the next owner revives it. *)
Theorem delete_on_stopped_node_keeps_object :
  let n := Stop idle (node1 (Counter.db0 [])) LifeRuns.rangeIds in
  DeleteObject idle n "Counter" "c1" = (n, Ok tt) /\ saved (store n) "c1" = Some ("1", 0%Z).
Proof. split; by vm_compute. Qed.

(** The loop of node [n1] has taken the pending call of [c1] when the node stops.  [drained] is the store and the
    object after the new owner's loop, [served] the store after one more call there, [late] what the old loop
    leaves. *)
Module LateLoop.
Definition call : ReliableCall := mkRC 1 "r1" "c1" "Counter" "Inc" "#x" None "" "pending".
Definition old : BaseObject nat := mkObj "c1" "Counter" 0%nat 0%Z true [] true.
Definition running : cnode := set_object (node0 (Postgres.mkDB ∅ [call] 2 [])) "c1" Counter.cls old.
Definition shut : cnode := Stop idle running LifeRuns.rangeIds.
Definition fresh : BaseObject nat := mkObj "c1" "Counter" 0%nat 0%Z true [] false.
Definition drained : Postgres.DB * BaseObject nat :=
  match runProcessingLoop Counter.rt Counter.cls 3 (store shut) fresh [] with Some (p, o, _) => (p, o) | None => (store shut, fresh) end.
Definition served : Postgres.DB := fst (Save Counter.cls drained.1 (set_st drained.2 2%nat)).
Definition late : Postgres.DB * BaseObject nat * ReliableCall := processReliableCall Counter.rt Counter.cls served old call.
End LateLoop.

(** [Stop] does not wait for the processing loop of an object: a caller whose context is cancelled has given
    up, while the loop executes its call.  The final save stores the object without the call; the new owner
    finds the call pending and executes it, and serves another call; then the old loop finishes: the call has
    been executed by both, and the save of the old node overwrites the newer state. *)
Theorem shutdown_overtaken_by_processing_loop :
  saved (store LateLoop.shut) "c1" = Some ("", 0%Z) /\
  st LateLoop.drained.2 = 1%nat /\ (Status <$> calls LateLoop.drained.1) = ["success"] /\
  saved LateLoop.served "c1" = Some ("11", 2%Z) /\
  st LateLoop.late.1.2 = 1%nat /\ saved LateLoop.late.1.1 "c1" = Some ("1", 2%Z).
Proof. split_and!; vm_compute; reflexivity. Qed.
