(* ===== verification/GateLifecycle.v ===== *)
(** * The life of a gate process (gate/gateserver/gateserver.go: Start and Stop, cmd/gate/main.go)

    [Module GateLife]: the goroutine that starts the gate's cluster, the gate, the gRPC server and the HTTP servers,
    waits for a signal and stops them, as a program counter with one step per operation on a shared
    component.  The phases of [Cluster.Start] and [Cluster.Stop] are those of Lifecycle.v, with the key of a gate.
    Between its steps clients and nodes use the gate (a step of Gate.v), the lease loop of the etcd manager runs
    (EtcdManager.v) and leases expire; no revocation of a lease fails before it takes effect.  How [Stop] waits for the clients' streams, which hold the mutex it locks,
    is the subject of GateSession.v; the listening sockets and the inspector are not modelled. *)

From S2P Require Import Prelude GoStrings ObjectId Gate NodeConnections EtcdManager Lifecycle.

Module GateLife.
Export Lifecycle.

Inductive server : Type := NotStarted | Serving | Down.

(** Where the process is: a phase of the cluster's [Start] or [Stop]; then those of the gate server; the two
    ways it ends *)
Inductive gphase : Type :=
| OfCluster (p : phase)
| StartGate | ListenTCP | StartHTTP | Running
| StopLock | StopGRPC | StopHTTP | StopGate
| CancelCtx | Stopped | Failed.

Section Process.
Context {Any S : Type} `{LeaseOps S}.
Abbreviation etcd := (EtcdManagers.world (S := S)).

Record gworld : Type := mkGWorld {
  gpc : gphase;
  addr : string;
  gw : Gates.world (Any := Any);              (* the gate, its registrations with nodes and their goroutines *)
  gem : etcd;
  gconns : Conns.NodeConnections;
  liveCtx : bool;                             (* the cluster's liveCtx is not cancelled *)
  managingG : bool;
  watchingG : bool;
  grpc : server;
  httpServer : server;
  opsServer : server;
  ctx : bool;                                 (* the server's context is not cancelled *)
  stoppedG : bool
}.

Definition at_pc (w : gworld) (p : gphase) : gworld :=
  mkGWorld p (addr w) (gw w) (gem w) (gconns w) (liveCtx w) (managingG w) (watchingG w) (grpc w) (httpServer w) (opsServer w) (ctx w) (stoppedG w).
Definition with_em (w : gworld) (e : etcd) : gworld :=
  mkGWorld (gpc w) (addr w) (gw w) e (gconns w) (liveCtx w) (managingG w) (watchingG w) (grpc w) (httpServer w) (opsServer w) (ctx w) (stoppedG w).
Definition with_gate (w : gworld) (g : Gates.world) : gworld :=
  mkGWorld (gpc w) (addr w) g (gem w) (gconns w) (liveCtx w) (managingG w) (watchingG w) (grpc w) (httpServer w) (opsServer w) (ctx w) (stoppedG w).
Definition with_conns (w : gworld) (c : Conns.NodeConnections) : gworld :=
  mkGWorld (gpc w) (addr w) (gw w) (gem w) c (liveCtx w) (managingG w) (watchingG w) (grpc w) (httpServer w) (opsServer w) (ctx w) (stoppedG w).
Definition with_cluster (w : gworld) (live managing watching : bool) : gworld :=
  mkGWorld (gpc w) (addr w) (gw w) (gem w) (gconns w) live managing watching (grpc w) (httpServer w) (opsServer w) (ctx w) (stoppedG w).
Definition with_servers (w : gworld) (g h o : server) : gworld :=
  mkGWorld (gpc w) (addr w) (gw w) (gem w) (gconns w) (liveCtx w) (managingG w) (watchingG w) g h o (ctx w) (stoppedG w).

(** The key under which [registerGate] announces the gate *)
Definition gateKey (w : gworld) : string := EtcdManagers.prefix (EtcdManagers.mgr (gem w)) +:+ "/gates/" +:+ addr w.

(** What an operation observes *)
Inductive ginput : Type :=
| GDone (ok : bool)
| GLease (n : nat) (f : fault)
| GNodes (nodes : list string) (dialFails : gset string) (range : gmap string nat -> list (string * nat)) (orders : gset string -> list string)
| GRange (range : gmap string nat -> list (string * nat)).

(** [Cluster.Start] of a gate: [registerGate], [startWatching], [startClusterManagement], [startNodeConnections].
    An error ends the process. *)
Definition clusterStart (w : gworld) (p : phase) (i : ginput) : option gworld :=
  match p, i with
  | RegisterEnter, GDone _ =>
      match EtcdManagers.exec (gem w) EtcdManagers.LEnter with
      | Some e => Some (at_pc (with_em w e) (OfCluster RegisterLocked))
      | None => Some (at_pc w Failed)
      end
  | RegisterLocked, GLease n f =>
      e ← EtcdManagers.exec (gem w) (EtcdManagers.LRegister n (gateKey w) (addr w) NodeLeaseTTL f);
      Some (at_pc (with_em w e) (OfCluster Initialize))
  | Initialize, GDone ok => Some (at_pc w (if ok then OfCluster StartWatch else Failed))
  | StartWatch, GDone ok =>
      Some (if ok then at_pc (with_cluster w (liveCtx w) (managingG w) true) (OfCluster StartManagement) else at_pc w Failed)
  | StartManagement, GDone _ => Some (at_pc (with_cluster w (liveCtx w) true (watchingG w)) (OfCluster Connect))
  | Connect, GNodes nodes dialFails range orders =>
      let otherNodes := filter (fun a => a <> addr w) nodes in
      Some (at_pc (with_conns w (Conns.SetNodes range dialFails (gconns w) otherNodes orders)) StartGate)
  | _, _ => None
  end.

(** [Cluster.Stop] of a gate, with [unregisterGate]; a gate has no gate channels to clean up *)
Definition clusterStop (w : gworld) (p : phase) (i : ginput) : option gworld :=
  match p, i with
  | CancelLive, GDone _ => Some (at_pc (with_cluster w false (managingG w) (watchingG w)) (OfCluster StopConnections))
  | StopConnections, GRange range => Some (at_pc (with_conns w (Conns.Stop range (gconns w))) (OfCluster StopManagement))
  | StopManagement, GDone _ => Some (at_pc (with_cluster w (liveCtx w) false (watchingG w)) (OfCluster StopWatch))
  | StopWatch, GDone _ => Some (at_pc (with_cluster w (liveCtx w) (managingG w) false) (OfCluster Unregister))
  | Unregister, GLease _ f =>
      e ← EtcdManagers.exec (gem w) (EtcdManagers.LUnregister (gateKey w) f);
      Some (at_pc (with_em w e) (OfCluster AwaitUnregister))
  | AwaitUnregister, GDone _ =>
      if bool_decide (EtcdManagers.waiting (gem w) = []) then Some (at_pc w (OfCluster CloseEtcd)) else None
  | CloseEtcd, GDone _ => e ← EtcdManagers.exec (gem w) EtcdManagers.LClose; Some (at_pc (with_em w e) (OfCluster AwaitClose))
  | AwaitClose, GDone _ => if bool_decide (EtcdManagers.waiting (gem w) = []) then Some (at_pc w CancelCtx) else None
  | _, _ => None
  end.

(** [startHTTPServer] and [stopHTTPServer]: the servers that are configured, the servers that were started *)
Definition startServer (configured : bool) (s : server) : server := if configured then Serving else s.
Definition stopServer (s : server) : server := match s with NotStarted => NotStarted | _ => Down end.

(** [Start] and [Stop] of the gate server around those of the cluster, and [main] between them; [http] and
    [ops] are whether the addresses are configured *)
Definition runGate (http ops : bool) (w : gworld) (i : ginput) : option gworld :=
  match gpc w, i with
  | OfCluster p, _ => match clusterStart w p i with Some w' => Some w' | None => clusterStop w p i end
  | StartGate, GDone ok => Some (at_pc w (if ok then ListenTCP else Failed))
  | ListenTCP, GDone ok => Some (if ok then at_pc (with_servers w Serving (httpServer w) (opsServer w)) StartHTTP else at_pc w Failed)
  | StartHTTP, GDone _ =>
      Some (at_pc (with_servers w (grpc w) (startServer http (httpServer w)) (startServer ops (opsServer w))) Running)
  | Running, GDone _ => Some (at_pc w StopLock)
  | StopLock, GDone _ =>
      if stoppedG w then Some (at_pc w Stopped)
      else Some (mkGWorld StopGRPC (addr w) (gw w) (gem w) (gconns w) (liveCtx w) (managingG w) (watchingG w) (grpc w) (httpServer w) (opsServer w) (ctx w) true)
  | StopGRPC, GDone _ => Some (at_pc (with_servers w (stopServer (grpc w)) (httpServer w) (opsServer w)) StopHTTP)
  | StopHTTP, GDone _ => Some (at_pc (with_servers w (grpc w) (stopServer (httpServer w)) (stopServer (opsServer w))) StopGate)
  | StopGate, GDone _ => Some (at_pc (with_gate w (Gates.on_gate (gw w) (Gates.Stop (Gates.gate (gw w))))) (OfCluster CancelLive))
  | CancelCtx, GDone _ =>
      Some (mkGWorld Stopped (addr w) (gw w) (gem w) (gconns w) (liveCtx w) (managingG w) (watchingG w) (grpc w) (httpServer w) (opsServer w) false (stoppedG w))
  | _, _ => None
  end.

(** An expiry, or a step of a goroutine of the process, which ends with [main] *)
Definition alive_or_expiry (p : gphase) (a : EtcdManagers.label) : Prop :=
  match a with EtcdManagers.LExpire _ => True | _ => p <> Failed end.

Inductive gstep (http ops : bool) (w : gworld) : gworld -> Prop :=
| G_run i w' : runGate http ops w i = Some w' -> gstep http ops w w'
| G_gate g : gpc w <> Failed -> Gates.step (gw w) g -> gstep http ops w (with_gate w g)
| G_lease a e : alive_or_expiry (gpc w) a -> lease_label true (gem w) a -> EtcdManagers.exec (gem w) a = Some e -> gstep http ops w (with_em w e).

(** A gate server that [NewGateServer] has made *)
Definition gate_initial (a prefix : string) (s0 : S) : gworld :=
  mkGWorld (OfCluster RegisterEnter) a (Gates.initial a) (EtcdManagers.initial prefix s0) Conns.New true false false
    NotStarted NotStarted NotStarted true false.

(** The phase of Lifecycle.v in which the etcd manager is in the same state *)
Definition as_life (p : gphase) : phase :=
  match p with
  | OfCluster p => p
  | CancelCtx | Stopped => Deferred None
  | Failed => Serve
  | _ => StopNode
  end.
End Process.
End GateLife.
Import GateLife.

(** ** The invariant of a gate process *)

Section GateInvariant.
Context {Any S : Type} `{LeaseLaws S}.
Abbreviation gproc := (gworld (Any := Any) (S := S)).
Implicit Types (w : gproc).
Import EtcdManagers.
Import GateLife.

(** [Cluster.Stop] has cancelled the live context *)
Definition cancelled (p : gphase) : bool :=
  match p with
  | OfCluster (StopConnections | StopManagement | StopWatch | Unregister | AwaitUnregister | CloseEtcd | AwaitClose) | CancelCtx | Stopped => true
  | _ => false
  end.
(** [Stop] has stopped the servers *)
Definition unserved (p : gphase) : bool := match p with StopGate | OfCluster CancelLive => true | p => cancelled p end.

(** [Stop] has taken the lock *)
Definition stopping (p : gphase) : bool := match p with StopGRPC | StopHTTP => true | p => unserved p end.

(** The phases of the cluster in which a gate is *)
Definition gate_phase (p : gphase) : bool :=
  match p with OfCluster (Listen | StartNode | Serve | Lifecycle.StopNode | CleanupGates | Deferred _ | Returned _) => false | _ => true end.

Record gate_inv (a p : string) (s0 : S) w : Prop := {
  gi_addr : addr w = a;
  gi_em : gpc w <> Failed -> em_ok (as_life (gpc w)) (gateKey w) (addr w) (gem w);
  gi_calm : panicked (gem w) = false;
  gi_phase : gate_phase (gpc w) = true;
  gi_runs : runs_with (fun e a => true = true -> cleanup_ok e a) (EtcdManagers.initial p s0) (gem w);
  gi_gate : Gates.reachable a (gw w);
  gi_live : cancelled (gpc w) = true -> liveCtx w = false;
  gi_grpc : gpc w = StopHTTP \/ unserved (gpc w) = true -> grpc w <> Serving;
  gi_http : unserved (gpc w) = true -> httpServer w <> Serving /\ opsServer w <> Serving;
  gi_ctx : gpc w = Stopped -> ctx w = false;
  gi_stopped : stoppedG w = stopping (gpc w)
}.

Lemma stopServer_down s : stopServer s <> Serving.
Proof. by destruct s. Qed.

Lemma em_ok_gateKey w e p p' a : prefix (mgr e) = prefix (mgr (gem w)) -> em_ok p (gateKey w) a e ->
  em_ok p (gateKey (at_pc (with_em w e) p')) a e.
Proof. unfold gateKey. cbn. by intros ->. Qed.

(** A step that leaves the etcd manager alone *)
Ltac gate_move He := split; cbn; try done; try tauto; try (intros [?|?]; done); try (split; apply stopServer_down); try (intros; apply stopServer_down);
  try (intros _; eapply em_ok_goto; [by apply He|try done; cbn; tauto..]).

(** A call of the etcd manager: [He'] is its new state, [Hpx] its prefix, [Hex] the step *)
Ltac gate_call w He' Hpx Hex Hr :=
  split; cbn; try done; try tauto; try (intros [?|?]; done);
  first [intros _; exact (em_ok_gateKey w _ _ _ _ Hpx He')|exact (eo_calm _ _ _ _ He')|eapply runs_exec; [exact Hr| |exact Hex]; done].

Lemma gate_run a p s0 http ops w i w' : gate_inv a p s0 w -> runGate http ops w i = Some w' -> gate_inv a p s0 w'.
Proof.
  intros [Ha He Hcm Hph Hr Hg Hl Hgr Hh Hc Hst] Hstep. unfold runGate, clusterStart, clusterStop in Hstep.
  destruct (gpc w) as [[| | | | | | | | | | | | | | | | | | |[]|[]]| | | | | | | | | | |] eqn:Hpc; destruct i; try done; simplify_eq.
  all: try (injection Hstep as <-).
  all: repeat match goal with |- context [if ?b then _ else _] => is_var b; destruct b end.
  all: try solve [gate_move He].
  - destruct (exec (gem w) LEnter) as [e|] eqn:Hex; simplify_eq.
    + destruct (em_ok_enter _ _ _ _ (He ltac:(done)) Hex) as [He' Hpx]. gate_call w He' Hpx Hex Hr.
    + cbn in Hex. destruct (eo_wait _ _ _ _ (He ltac:(done))) as [_ Hcc]. by rewrite Hcc in Hex.
  - destruct (exec _ (LRegister _ _ _ _ _)) as [e|] eqn:Hex; [injection Hstep as <-|done].
    destruct (em_ok_register _ _ _ _ _ _ _ (He ltac:(done)) Hex) as [He' Hpx]. gate_call w He' Hpx Hex Hr.
  - destruct (em_ok_unregister _ _ _ f (He ltac:(done))) as [He' Hpx].
    assert (exec (gem w) (LUnregister (gateKey w) f) = Some (unregisterLocked (gem w) (gateKey w) f)) as Hex by done. gate_call w He' Hpx Hex Hr.
  - destruct (bool_decide _) eqn:Hw; [|done]. apply bool_decide_eq_true in Hw. injection Hstep as <-.
    pose proof (eo_unreg _ _ _ _ (He ltac:(done)) eq_refl). gate_move He.
  - destruct (em_ok_close _ _ _ (He ltac:(done))) as [He' Hpx].
    assert (exec (gem w) LClose = Some (closeLocked (gem w))) as Hex by done. gate_call w He' Hpx Hex Hr.
  - destruct (bool_decide _) eqn:Hw; [|done]. apply bool_decide_eq_true in Hw. injection Hstep as <-. gate_move He.
    intros _. apply (em_ok_goto AwaitClose _ _ _ _ (He ltac:(done))); try done; cbn; rewrite Hw; naive_solver.
  - rewrite Hst in Hstep. injection Hstep as <-. gate_move He.
  - gate_move He. eapply rtc_r; [exact Hg|]. apply Gates.W_stop.
Qed.

Lemma gate_step a p s0 http ops w w' : gate_inv a p s0 w -> gstep http ops w w' -> gate_inv a p s0 w'.
Proof.
  intros Hi [i w1 Hrun|g Hne Hg|l e Hal Hl He]; [by eapply gate_run| |]; destruct Hi as [Ha Hem Hcm Hph Hr Hgt Hlv Hgr Hh Hc Hst].
  - split; cbn; try done. eapply rtc_r; [exact Hgt|exact Hg].
  - split; cbn; try done.
    + intros Hne. destruct (em_ok_lease _ _ _ _ _ _ _ (Hem Hne) Hl He) as [He' Hpx].
      exact (em_ok_gateKey w _ _ (gpc w) _ Hpx He').
    + destruct l; try (destruct (em_ok_lease _ _ _ _ _ _ _ (Hem Hal) Hl He) as [[] _]; done). cbn in He. by simplify_eq.
    + eapply runs_exec; [exact Hr| |exact He]. by destruct l.
Qed.

Lemma gate_life_reachable a p s0 http ops w : rtc (gstep http ops) (gate_initial a p s0) w -> gate_inv a p s0 w.
Proof.
  revert w. apply (rtc_ind_r (fun w => gate_inv a p s0 w)); [|intros w w' _ Hs IH; by eapply gate_step].
  split; cbn; try done; try apply rtc_refl.
Qed.

(** A gate process that has shut down leaves nothing behind, when no revocation of a lease fails before it takes
    effect.  When [Stop] returns, no goroutine of the etcd manager is running and none has panicked, no key of the
    process is left in etcd (every key there is permanent or belongs to a lease granted before), no server serves and
    the contexts of server and cluster are cancelled; until [Stop] unregisters it the gate keeps its key, whatever the
    lease does. *)
Theorem gate_shutdown_leaves_nothing a p s0 http ops w :
  (forall k v l, ls_get s0 k = Some (v, l) -> l <> 0%Z -> ls_granted s0 l = true) ->
  rtc (gstep http ops) (gate_initial a p s0) w ->
  panicked (gem w) = false /\
  (gpc w = Running -> sharedKeys (mgr (gem w)) !! gateKey w = Some a) /\
  (gpc w = Stopped -> loops (gem w) = ∅ /\
     (forall k v l, ls_get (store (gem w)) k = Some (v, l) -> l = 0%Z \/ ls_granted s0 l = true) /\
     grpc w <> Serving /\ httpServer w <> Serving /\ opsServer w <> Serving /\ liveCtx w = false /\ ctx w = false).
Proof.
  intros Hs0 Hr. destruct (gate_life_reachable a p s0 http ops w Hr) as [Ha Hem Hcm Hph Hru Hgt Hlv Hgr Hh Hc Hst].
  split; [done|]. split.
  - intros Hpc. rewrite <-Ha. apply (eo_key _ _ _ _ (Hem ltac:(congruence))). by rewrite Hpc.
  - intros Hpc. rewrite Hpc in *. destruct (eo_wait _ _ _ _ (Hem ltac:(done))) as [_ Hl]. destruct (Hh eq_refl).
    split_and!; auto. by apply (leases_gone p s0).
Qed.
End GateInvariant.

(** ** Runs *)

Module GateRuns.
Import GateLife.
Abbreviation cgate := (gworld (Any := string) (S := LeaseMem)).

(** A move of [main], or of the lease loop and those who wait for it *)
Inductive gmove : Type := Go (i : ginput) | Tick (n : nat) (i : EtcdManagers.input) | Let (k : nat).

Definition gallowed (m : gmove) : Prop := match m with Tick _ (EtcdManagers.Go (FailBefore _)) => False | _ => True end.

Definition gplay1 (w : cgate) (m : gmove) : option cgate :=
  match m with
  | Go i => runGate true false w i
  | Tick n i => e ← EtcdManagers.exec (gem w) (EtcdManagers.LLoop n i); Some (with_em w e)
  | Let k => e ← EtcdManagers.exec (gem w) (EtcdManagers.LRelease k); e ← EtcdManagers.exec e (EtcdManagers.LFinish k NoFault); Some (with_em w e)
  end.
Definition is_failed (p : gphase) : bool := match p with Failed => true | _ => false end.
Fixpoint gplay (w : cgate) (l : list gmove) : option cgate :=
  match l with [] => Some w | m :: l => if is_failed (gpc w) then None else w' ← gplay1 w m; gplay w' l end.

Lemma gplay_steps l : Forall gallowed l -> forall w w', gplay w l = Some w' -> rtc (gstep true false) w w'.
Proof.
  induction 1 as [|m l Hm Hl IH]; intros w w' Hp; cbn in Hp; [simplify_eq; apply rtc_refl|].
  destruct (is_failed (gpc w)) eqn:Hf; [done|]. assert (forall e, gpc (with_em w e) <> Failed) as Hne by (intros e; cbn; by destruct (gpc w)).
  assert (gpc w <> Failed) as Hnw by (by destruct (gpc w)).
  apply bind_Some in Hp as (w1 & H1 & Hp). apply IH in Hp. destruct m as [i|n i|k]; unfold gplay1 in H1.
  - eapply rtc_l; [by eapply G_run|done].
  - apply bind_Some in H1 as (e & He & [= <-]). refine (rtc_l _ _ _ _ (G_lease _ _ w _ e _ _ He) Hp); cbn in *; [done|by repeat case_match].
  - apply bind_Some in H1 as (e & He & H1). apply bind_Some in H1 as (e2 & He2 & [= <-]).
    refine (rtc_l _ _ _ _ (G_lease _ _ w (EtcdManagers.LRelease k) e Hnw (fun _ => I) He) _).
    exact (rtc_l _ _ _ _ (G_lease _ _ (with_em w e) (EtcdManagers.LFinish k NoFault) e2 (Hne e) (fun _ => I) He2) Hp).
Qed.

(** A gate in front of an empty etcd, up to its signal, and down; and one whose cluster state cannot be read *)
Definition g0 : cgate := gate_initial "g1" "" LeaseRuns.noLeases.
Definition registering : list gmove := [Go (GDone true); Go (GLease 0 NoFault)].
Definition putKey : list gmove :=
  [Tick 0 (EtcdManagers.Go NoFault); Tick 0 (EtcdManagers.Go NoFault); Tick 0 (EtcdManagers.Go NoFault); Tick 0 (EtcdManagers.Go NoFault);
   Tick 0 (EtcdManagers.Order [("/goverse/gates/g1", "g1")]); Tick 0 (EtcdManagers.Go NoFault); Tick 0 (EtcdManagers.Go NoFault); Tick 0 (EtcdManagers.Go NoFault)].
Definition gup : list gmove :=
  registering ++ [Go (GDone true); Go (GDone true); Go (GDone true); Go (GNodes ["n1"] ∅ map_to_list elements)] ++ putKey ++
  [Go (GDone true); Go (GDone true); Go (GDone true)].
Definition gdown : list gmove :=
  gup ++ [Go (GDone true); Go (GDone true); Go (GDone true); Go (GDone true); Go (GDone true); Go (GDone true); Go (GRange map_to_list);
   Go (GDone true); Go (GDone true); Go (GLease 0 NoFault); Tick 0 EtcdManagers.CtxDone; Tick 0 (EtcdManagers.Go NoFault);
   Tick 0 (EtcdManagers.Go NoFault); Tick 0 (EtcdManagers.Go NoFault); Let 0; Go (GDone true); Go (GDone true); Let 0; Go (GDone true); Go (GDone true)].
Definition gat (l : list gmove) : cgate := default g0 (gplay g0 l).
Ltac gplayed := match goal with |- rtc _ _ (gat ?l) => apply (gplay_steps l) end; [cbv [gup gdown registering putKey app]; repeat constructor|vm_compute; reflexivity].
End GateRuns.

(** A run of the whole life: the gate is announced while it serves, and nothing of it is left when it has stopped *)
Example gate_comes_and_goes :
  rtc (gstep true false) GateRuns.g0 (GateRuns.gat GateRuns.gup) /\ gpc (GateRuns.gat GateRuns.gup) = Running /\
  grpc (GateRuns.gat GateRuns.gup) = Serving /\
  (fst <$> (ls_get (EtcdManagers.store (gem (GateRuns.gat GateRuns.gup))) "/goverse/gates/g1")) = Some "g1" /\
  rtc (gstep true false) GateRuns.g0 (GateRuns.gat GateRuns.gdown) /\ gpc (GateRuns.gat GateRuns.gdown) = Stopped /\
  ls_get (EtcdManagers.store (gem (GateRuns.gat GateRuns.gdown))) "/goverse/gates/g1" = None.
Proof. split; [GateRuns.gplayed|]. split_and!; [vm_compute; reflexivity..|GateRuns.gplayed|vm_compute; reflexivity|vm_compute; reflexivity]. Qed.

(** [Start] undoes nothing when it fails: a gate that cannot read the state of the cluster after it has
    registered ends with its key in etcd, and other processes see it until its lease expires. *)
Example failed_gate_stays_registered :
  let w := GateRuns.gat (GateRuns.registering ++ GateRuns.putKey ++ [GateRuns.Go (GDone false)]) in
  rtc (gstep true false) GateRuns.g0 w /\ gpc w = Failed /\ ls_get (EtcdManagers.store (gem w)) "/goverse/gates/g1" = Some ("g1", 1%Z) /\
  exists w', gstep true false w w' /\ ls_get (EtcdManagers.store (gem w')) "/goverse/gates/g1" = None.
Proof.
  cbv zeta. split; [GateRuns.gplayed|]. split; [vm_compute; reflexivity|]. split; [vm_compute; reflexivity|].
  eexists. split; [eapply (G_lease _ _ _ (EtcdManagers.LExpire 1)); [exact I|exact (fun _ => I)|reflexivity]|vm_compute; reflexivity].
Qed.
