(* ===== verification/Bomberman.v ===== *)
(** * The Bomberman sample: the state of a match (samples/bomberman/server/match_state.go)

    [Module Match]: the grid, the players, bombs, explosions and powerups, the tick that advances them and the snapshot
    that is sent to the clients.  The random source is a position in a stream of draws ([drop], [kind3]: what
    [rng.Float64() < 0.30] and [rng.Intn(3)] answer at a position); the order of a map iteration is an
    argument; [MatchTimeLimit] is a parameter that [readMatchTimeLimit] computes from the environment.  The
    theorems show the invariant of a match over all runs and that a started match ends within its time limit. *)

From S2P Require Import Prelude GoStrings.
From stdpp Require Import list_numbers.

Module Match.

Definition GridWidth : Z := 13.
Definition GridHeight : Z := 11.
Definition BombFuseTicks : Z := 20.
Definition ExplosionTicks : Z := 5.
Definition DefaultMatchTimeLimitTicks : Z := 1800.
Definition DefaultBombCap : Z := 1.
Definition DefaultBombPower : Z := 2.
Definition DefaultSpeed : Z := 1.
Definition MinPlayersToStart : nat := 2.
Definition MaxPlayers : nat := 8.

(** [readMatchTimeLimit] of the environment variable *)
Definition readMatchTimeLimit (v : string) : Z :=
  if bool_decide (v <> "") then
    match Atoi v with Some n => if (0 <? n)%Z then n else DefaultMatchTimeLimitTicks | None => DefaultMatchTimeLimitTicks end
  else DefaultMatchTimeLimitTicks.

Inductive Tile : Type := TileEmpty | TileWall | TileBlock.
Inductive PowerupKind : Type := PowerupBomb | PowerupPower | PowerupSpeed.
Inductive MatchStatus : Type := LOBBY | RUNNING | ENDED.
(** The protobuf enum, with the values it does not name *)
Inductive Direction : Type := DIR_NONE | DIR_UP | DIR_DOWN | DIR_LEFT | DIR_RIGHT | DIR_OTHER (n : Z).
#[global] Instance Tile_eq_dec : EqDecision Tile.
Proof. solve_decision. Defined.
#[global] Instance MatchStatus_eq_dec : EqDecision MatchStatus.
Proof. solve_decision. Defined.
#[global] Instance Direction_eq_dec : EqDecision Direction.
Proof. solve_decision. Defined.

Record MatchPlayer : Type := mkPlayer {
  pID : string; ClientID : string; pX : Z; pY : Z; Alive : bool;
  BombCapacity : Z; BombPower : Z; Speed : Z; ActiveBombs : Z
}.
Record Bomb : Type := mkBomb { bX : Z; bY : Z; OwnerID : string; Power : Z; bTicks : Z }.
Record Explosion : Type := mkExplosion { eX : Z; eY : Z; eTicks : Z }.
Record Powerup : Type := mkPowerup { uX : Z; uY : Z; Kind : PowerupKind }.
Record Input : Type := mkInput { Move : Direction; PlaceBomb : bool }.

Record MatchState : Type := mkState {
  Width : Z; Height : Z;
  Tiles : list Tile;
  Players : gmap string MatchPlayer;
  Bombs : list Bomb;
  Explosions : list Explosion;
  Powerups : list Powerup;
  Tick : Z;
  Status : MatchStatus;
  WinnerID : string;
  pendingInputs : gmap string Input;
  rng : nat                                   (* how many draws have been taken *)
}.

Definition set_tiles (s : MatchState) (t : list Tile) : MatchState :=
  mkState (Width s) (Height s) t (Players s) (Bombs s) (Explosions s) (Powerups s) (Tick s) (Status s) (WinnerID s) (pendingInputs s) (rng s).
Definition set_players (s : MatchState) (p : gmap string MatchPlayer) : MatchState :=
  mkState (Width s) (Height s) (Tiles s) p (Bombs s) (Explosions s) (Powerups s) (Tick s) (Status s) (WinnerID s) (pendingInputs s) (rng s).
Definition set_bombs (s : MatchState) (b : list Bomb) : MatchState :=
  mkState (Width s) (Height s) (Tiles s) (Players s) b (Explosions s) (Powerups s) (Tick s) (Status s) (WinnerID s) (pendingInputs s) (rng s).
Definition set_explosions (s : MatchState) (e : list Explosion) : MatchState :=
  mkState (Width s) (Height s) (Tiles s) (Players s) (Bombs s) e (Powerups s) (Tick s) (Status s) (WinnerID s) (pendingInputs s) (rng s).
Definition set_powerups (s : MatchState) (u : list Powerup) (r : nat) : MatchState :=
  mkState (Width s) (Height s) (Tiles s) (Players s) (Bombs s) (Explosions s) u (Tick s) (Status s) (WinnerID s) (pendingInputs s) r.
Definition set_inputs (s : MatchState) (i : gmap string Input) : MatchState :=
  mkState (Width s) (Height s) (Tiles s) (Players s) (Bombs s) (Explosions s) (Powerups s) (Tick s) (Status s) (WinnerID s) i (rng s).
Definition set_status (s : MatchState) (t : Z) (x : MatchStatus) (w : string) : MatchState :=
  mkState (Width s) (Height s) (Tiles s) (Players s) (Bombs s) (Explosions s) (Powerups s) t x w (pendingInputs s) (rng s).
Definition set_pos (p : MatchPlayer) (x y : Z) : MatchPlayer :=
  mkPlayer (pID p) (ClientID p) x y (Alive p) (BombCapacity p) (BombPower p) (Speed p) (ActiveBombs p).
Definition set_alive (p : MatchPlayer) (a : bool) : MatchPlayer :=
  mkPlayer (pID p) (ClientID p) (pX p) (pY p) a (BombCapacity p) (BombPower p) (Speed p) (ActiveBombs p).
Definition set_active (p : MatchPlayer) (n : Z) : MatchPlayer :=
  mkPlayer (pID p) (ClientID p) (pX p) (pY p) (Alive p) (BombCapacity p) (BombPower p) (Speed p) n.
Definition set_fuse (b : Bomb) (n : Z) : Bomb := mkBomb (bX b) (bY b) (OwnerID b) (Power b) n.

(** ** The grid *)

(** [idx], [tileAt], [setTile] *)
Definition idx (s : MatchState) (x y : Z) : Z := (y * Width s + x)%Z.
Definition outside (s : MatchState) (x y : Z) : bool := ((x <? 0) || (Width s <=? x) || (y <? 0) || (Height s <=? y))%Z.
Definition tileAt (s : MatchState) (x y : Z) : Tile :=
  if outside s x y then TileWall else default TileWall (Tiles s !! Z.to_nat (idx s x y)).
Definition setTile (s : MatchState) (x y : Z) (t : Tile) : MatchState :=
  if outside s x y then s else set_tiles s (<[Z.to_nat (idx s x y) := t]> (Tiles s)).

(** The cells in the order of the two loops of [layoutGrid], and its [switch] *)
Definition cells (s : MatchState) : list (Z * Z) :=
  y ← seqZ 0 (Height s); x ← seqZ 0 (Width s); [(x, y)].
Definition layoutTile (s : MatchState) (x y : Z) : Tile :=
  if ((x =? 0) || (y =? 0) || (x =? Width s - 1) || (y =? Height s - 1))%Z then TileWall
  else if ((x mod 2 =? 0) && (y mod 2 =? 0))%Z then TileWall
  else TileBlock.
Definition pockets (s : MatchState) : list (Z * Z) :=
  let w := Width s in let h := Height s in
  [(1, 1); (2, 1); (1, 2);
   (w - 2, 1); (w - 3, 1); (w - 2, 2);
   (1, h - 2); (2, h - 2); (1, h - 3);
   (w - 2, h - 2); (w - 3, h - 2); (w - 2, h - 3)]%Z.

(** [layoutGrid] *)
Definition layoutGrid (s : MatchState) : MatchState :=
  let s := fold_left (fun s c => setTile s c.1 c.2 (layoutTile s c.1 c.2)) (cells s) s in
  fold_left (fun s c => setTile s c.1 c.2 TileEmpty) (pockets s) s.

(** [NewMatchState]: [make] fills the slice with [TileEmpty] *)
Definition NewMatchState : MatchState :=
  layoutGrid (mkState GridWidth GridHeight (replicate (Z.to_nat (GridWidth * GridHeight)) TileEmpty) ∅ [] [] [] 0 LOBBY "" ∅ 0).

(** [SpawnPositions] *)
Definition SpawnPositions (s : MatchState) : list (Z * Z) :=
  let w := Width s in let h := Height s in
  [(1, 1); (w - 2, 1); (1, h - 2); (w - 2, h - 2); (Z.quot w 2, 1); (Z.quot w 2, h - 2); (1, Z.quot h 2); (w - 2, Z.quot h 2)]%Z.

(** ** Joining and starting *)

(** [AddPlayer] *)
Definition AddPlayer (s : MatchState) (id clientID : string) (x y : Z) : result string MatchState :=
  if bool_decide (Status s <> LOBBY) then Err "match is not in lobby"
  else match Players s !! id with
  | Some _ => Err "player already added"
  | None =>
      if (MaxPlayers <=? size (Players s))%nat then Err "match is full"
      else if bool_decide (tileAt s x y <> TileEmpty) then Err "spawn cell is not empty"
      else Ok (set_players s (<[id := mkPlayer id clientID x y true DefaultBombCap DefaultBombPower DefaultSpeed 0]> (Players s)))
  end.

(** [ClientIDs]; [order] is the order of the map iteration *)
Definition ClientIDs (s : MatchState) (order : list string) : list string :=
  omap (fun id => p ← Players s !! id; if bool_decide (ClientID p <> "") then Some (ClientID p) else None) order.

(** [Start] *)
Definition Start (s : MatchState) : result string MatchState :=
  if bool_decide (Status s <> LOBBY) then Err "match already started"
  else if (size (Players s) <? MinPlayersToStart)%nat then Err "need more players to start"
  else Ok (set_status s (Tick s) RUNNING (WinnerID s)).

(** [QueueInput] *)
Definition QueueInput (s : MatchState) (playerID : string) (input : Input) : result string MatchState :=
  match Players s !! playerID with
  | None => Err "player not in match"
  | Some p => if Alive p then Ok (set_inputs s (<[playerID := input]> (pendingInputs s))) else Ok s
  end.

(** ** One tick *)

(** [dirDelta] *)
Definition dirDelta (d : Direction) : Z * Z :=
  match d with DIR_UP => (0, -1) | DIR_DOWN => (0, 1) | DIR_LEFT => (-1, 0) | DIR_RIGHT => (1, 0) | _ => (0, 0) end%Z.

(** [bombAt], [canEnter] *)
Definition bombAt (s : MatchState) (x y : Z) : bool := existsb (fun b => (bX b =? x)%Z && (bY b =? y)%Z) (Bombs s).
Definition occupied (s : MatchState) (x y : Z) (byPlayer : string) : bool :=
  existsb (fun kp => negb (bool_decide (kp.1 = byPlayer)) && Alive kp.2 && (pX kp.2 =? x)%Z && (pY kp.2 =? y)%Z) (map_to_list (Players s)).
Definition canEnter (s : MatchState) (x y : Z) (byPlayer : string) : bool :=
  if bool_decide (tileAt s x y <> TileEmpty) then false
  else if bombAt s x y then false
  else negb (occupied s x y byPlayer).

(** The loop over the steps of a move: where it ends *)
Fixpoint walk (s : MatchState) (pid : string) (dx dy : Z) (steps : nat) (x y : Z) : Z * Z :=
  match steps with
  | O => (x, y)
  | S steps => if canEnter s (x + dx) (y + dy) pid then walk s pid dx dy steps (x + dx) (y + dy) else (x, y)
  end.

(** One iteration of [applyInputs] *)
Definition applyInput (s : MatchState) (pi : string * Input) : MatchState :=
  let '(pid, input) := pi in
  match Players s !! pid with
  | None => s
  | Some p =>
      if negb (Alive p) then s
      else
        let '(x, y) := if bool_decide (Move input <> DIR_NONE)
                       then let '(dx, dy) := dirDelta (Move input) in walk s pid dx dy (Z.to_nat (Speed p)) (pX p) (pY p)
                       else (pX p, pY p) in
        let p := set_pos p x y in
        if PlaceBomb input && (ActiveBombs p <? BombCapacity p)%Z && negb (bombAt s x y)
        then set_players (set_bombs s (Bombs s ++ [mkBomb x y pid (BombPower p) BombFuseTicks]))
               (<[pid := set_active p (ActiveBombs p + 1)]> (Players s))
        else set_players s (<[pid := p]> (Players s))
  end.

(** [applyInputs]; [order] is the order of the iteration over the queued inputs *)
Definition applyInputs (s : MatchState) (order : list (string * Input)) : MatchState :=
  set_inputs (fold_left applyInput order s) ∅.

Section Random.
(** The answers of the random source: whether a block drops a powerup, and [Intn(3)] *)
Context (drop : nat -> bool) (kind3 : nat -> Z).

(** [randomPowerup] *)
Definition randomPowerup (r : nat) : PowerupKind :=
  match kind3 r with 0 => PowerupBomb | 1 => PowerupPower | _ => PowerupSpeed end%Z.

(** [spawnExplosion] *)
Definition spawnExplosion (s : MatchState) (x y : Z) : MatchState :=
  set_powerups (set_explosions s (Explosions s ++ [mkExplosion x y ExplosionTicks]))
    (List.filter (fun u => negb ((uX u =? x)%Z && (uY u =? y)%Z)) (Powerups s)) (rng s).

(** What a blast does to a destructible block *)
Definition destroyBlock (s : MatchState) (x y : Z) : MatchState :=
  let s := setTile s x y TileEmpty in
  if drop (rng s) then set_powerups s (Powerups s ++ [mkPowerup x y (randomPowerup (S (rng s)))]) (S (S (rng s)))
  else set_powerups s (Powerups s) (S (rng s)).

(** The blast of [detonate] in one direction from radius [r], [n] cells at most *)
Fixpoint blast (s : MatchState) (bx by_ dx dy r : Z) (n : nat) : MatchState :=
  match n with
  | O => s
  | S n =>
      let x := (bx + dx * r)%Z in
      let y := (by_ + dy * r)%Z in
      match tileAt s x y with
      | TileWall => s
      | TileBlock => destroyBlock (spawnExplosion s x y) x y
      | TileEmpty => blast (spawnExplosion s x y) bx by_ dx dy (r + 1) n
      end
  end.

(** [killPlayersOnExplosions] *)
Definition killAt (e : Explosion) (p : MatchPlayer) : MatchPlayer :=
  if Alive p && (pX p =? eX e)%Z && (pY p =? eY e)%Z then set_alive p false else p.
Definition killPlayersOnExplosions (s : MatchState) : MatchState :=
  set_players s (fold_left (fun ps e => if negb (eTicks e =? ExplosionTicks)%Z then ps else killAt e <$> ps) (Explosions s) (Players s)).

(** [detonate] *)
Definition detonate (s : MatchState) (b : Bomb) : MatchState :=
  let s := match Players s !! OwnerID b with
           | Some owner => if (0 <? ActiveBombs owner)%Z
                           then set_players s (<[OwnerID b := set_active owner (ActiveBombs owner - 1)]> (Players s)) else s
           | None => s
           end in
  let s := spawnExplosion s (bX b) (bY b) in
  let s := fold_left (fun s d => let '(dx, dy) := dirDelta d in blast s (bX b) (bY b) dx dy 1 (Z.to_nat (Power b)))
             [DIR_UP; DIR_DOWN; DIR_LEFT; DIR_RIGHT] s in
  killPlayersOnExplosions s.

(** One pass of [advanceBombs]: the bombs that remain, and whether one exploded *)
Fixpoint pass (bs : list Bomb) (s : MatchState) : MatchState * list Bomb * bool :=
  match bs with
  | [] => (s, [], false)
  | b :: bs =>
      if (bTicks b <=? 0)%Z
      then let '(s, remaining, _) := pass bs (detonate s b) in (s, remaining, true)
      else let '(s, remaining, exploded) := pass bs s in (s, b :: remaining, exploded)
  end.

(** A fresh blast sets the fuse of a bomb it lands on to 0 *)
Definition chain (s : MatchState) (b : Bomb) : Bomb :=
  if existsb (fun e => (eX e =? bX b)%Z && (eY e =? bY b)%Z && (eTicks e =? ExplosionTicks)%Z) (Explosions s) then set_fuse b 0 else b.

(** The loop of [advanceBombs]; [None] when the fuel runs out *)
Fixpoint resolve (fuel : nat) (s : MatchState) : option MatchState :=
  match fuel with
  | O => None
  | S fuel =>
      let '(s, remaining, exploded) := pass (Bombs s) s in
      let s := set_bombs s remaining in
      if negb exploded then Some s else resolve fuel (set_bombs s (chain s <$> Bombs s))
  end.

(** [advanceBombs]: every pass but the last removes a bomb *)
Definition advanceBombs (s : MatchState) : option MatchState :=
  let s := set_bombs s ((fun b => set_fuse b (bTicks b - 1)) <$> Bombs s) in
  resolve (S (length (Bombs s))) s.

(** [advanceExplosions] *)
Definition advanceExplosions (s : MatchState) : MatchState :=
  set_explosions s (List.filter (fun e => (0 <? eTicks e)%Z) ((fun e => mkExplosion (eX e) (eY e) (eTicks e - 1)) <$> Explosions s)).

(** What a powerup does to the player who takes it *)
Definition upgrade (k : PowerupKind) (p : MatchPlayer) : MatchPlayer :=
  let '(c, w, v) := match k with PowerupBomb => (1, 0, 0) | PowerupPower => (0, 1, 0) | PowerupSpeed => (0, 0, 1) end%Z in
  mkPlayer (pID p) (ClientID p) (pX p) (pY p) (Alive p) (BombCapacity p + c) (BombPower p + w) (Speed p + v) (ActiveBombs p).

(** The first player of [order] who is alive and stands on the powerup *)
Definition taker (ps : gmap string MatchPlayer) (order : list string) (u : Powerup) : option string :=
  head (List.filter (fun id => match ps !! id with Some p => Alive p && (pX p =? uX u)%Z && (pY p =? uY u)%Z | None => false end) order).

(** [collectPowerups]; [order i] is the order of the iteration over the players for powerup [i] *)
Fixpoint collect (order : nat -> list string) (us : list Powerup) (ps : gmap string MatchPlayer) : list Powerup * gmap string MatchPlayer :=
  match us with
  | [] => ([], ps)
  | u :: us =>
      match taker ps (order 0) u with
      | Some id => collect (fun i => order (S i)) us (alter (upgrade (Kind u)) id ps)
      | None => let '(pruned, ps) := collect (fun i => order (S i)) us ps in (u :: pruned, ps)
      end
  end.
Definition collectPowerups (s : MatchState) (order : nat -> list string) : MatchState :=
  let '(pruned, ps) := collect order (Powerups s) (Players s) in set_players (set_powerups s pruned (rng s)) ps.

(** [evaluateEnd]: the players who are alive; the winner only matters when there is one *)
Definition aliveIDs (s : MatchState) : list string := pID <$> List.filter Alive (map_to_list (Players s)).*2.
Definition evaluateEnd (limit : Z) (s : MatchState) : MatchState :=
  match aliveIDs s with
  | [] => set_status s (Tick s) ENDED (WinnerID s)
  | [lastAlive] => set_status s (Tick s) ENDED lastAlive
  | _ => if (limit <=? Tick s)%Z then set_status s (Tick s) ENDED (WinnerID s) else s
  end.

(** [AdvanceTick] *)
Definition AdvanceTick (limit : Z) (inputs : list (string * Input)) (order : nat -> list string) (s : MatchState) : option MatchState :=
  if bool_decide (Status s <> RUNNING) then Some s
  else
    s ← advanceBombs (applyInputs s inputs);
    let s := collectPowerups (advanceExplosions s) order in
    Some (evaluateEnd limit (set_status s (Tick s + 1) (Status s) (WinnerID s))).

End Random.

(** [Snapshot]: the message with its numbers cut to 32 bits; [order] is the iteration over the players *)
Record PlayerState : Type := mkPlayerState
  { PlayerId : string; sX : Z; sY : Z; sAlive : bool; sBombCapacity : Z; sBombPower : Z; sSpeed : Z; sActiveBombs : Z }.
Record BombState : Type := mkBombState { bsX : Z; bsY : Z; OwnerId : string; bsPower : Z; bsTicks : Z }.
Record MatchSnapshot : Type := mkSnapshot {
  MatchId : string; snStatus : MatchStatus; snTick : Z; snWidth : Z; snHeight : Z; snTiles : list Z;
  snPlayers : list PlayerState; snBombs : list BombState; snExplosions : list (Z * Z * Z); snPowerups : list (Z * Z * Z); WinnerId : string
}.
Definition tileCode (t : Tile) : Z := match t with TileEmpty => 0 | TileWall => 1 | TileBlock => 2 end.
Definition powerupCode (k : PowerupKind) : Z := match k with PowerupBomb => 0 | PowerupPower => 1 | PowerupSpeed => 2 end.
Definition Snapshot (matchID : string) (order : list string) (s : MatchState) : MatchSnapshot :=
  mkSnapshot matchID (Status s) (int32 (Tick s)) (int32 (Width s)) (int32 (Height s)) (tileCode <$> Tiles s)
    (omap (fun id => p ← Players s !! id;
             Some (mkPlayerState (pID p) (int32 (pX p)) (int32 (pY p)) (Alive p) (int32 (BombCapacity p)) (int32 (BombPower p))
                     (int32 (Speed p)) (int32 (ActiveBombs p)))) order)
    ((fun b => mkBombState (int32 (bX b)) (int32 (bY b)) (OwnerID b) (int32 (Power b)) (int32 (bTicks b))) <$> Bombs s)
    ((fun e => (int32 (eX e), int32 (eY e), int32 (eTicks e))) <$> Explosions s)
    ((fun u => (int32 (uX u), int32 (uY u), powerupCode (Kind u) + 1)%Z) <$> Powerups s) (WinnerID s).

End Match.
Import Match.

(** ** The invariant of a match *)

Section Invariant.
Context (drop : nat -> bool) (kind3 : nat -> Z).
Implicit Types (s : MatchState) (bs : list Bomb) (b : Bomb) (p : MatchPlayer).

(** How many bombs of a list a player owns *)
Definition owned (id : string) bs : Z := Z.of_nat (length (filter (fun b => OwnerID b = id) bs)).

Definition pos b : Z * Z := (bX b, bY b).

(** What every part of a tick keeps, [bs] being the bombs that have not exploded *)
Record core (s : MatchState) (bs : list Bomb) : Prop := mkCore {
  c_dims : Width s = GridWidth /\ Height s = GridHeight /\ length (Tiles s) = Z.to_nat (GridWidth * GridHeight);
  c_walls : forall x y, tileAt s x y = TileWall <-> tileAt NewMatchState x y = TileWall;
  c_players : forall id p, Players s !! id = Some p ->
    pID p = id /\ tileAt s (pX p) (pY p) = TileEmpty /\ ActiveBombs p = owned id bs /\ (ActiveBombs p <= BombCapacity p)%Z;
  c_bombs : forall b, b ∈ bs -> tileAt s (bX b) (bY b) = TileEmpty /\ is_Some (Players s !! OwnerID b);
  c_distinct : NoDup (pos <$> bs);
  c_powerups : forall u, u ∈ Powerups s -> tileAt s (uX u) (uY u) = TileEmpty;
  c_explosions : Forall (fun e => 1 <= eTicks e <= ExplosionTicks)%Z (Explosions s)
}.

(** What the bombs of a tick leave alone *)
Definition same_match (s s' : MatchState) : Prop :=
  Tick s' = Tick s /\ Status s' = Status s /\ WinnerID s' = WinnerID s /\ pendingInputs s' = pendingInputs s /\ dom (Players s') = dom (Players s) /\ Bombs s' = Bombs s.
#[local] Instance same_match_preorder : PreOrder same_match.
Proof. split; [by intros s|]. unfold same_match. intros s1 s2 s3 (-> & -> & -> & -> & -> & ->) H; naive_solver. Qed.

Lemma owned_perm id bs bs' : bs ≡ₚ bs' -> owned id bs = owned id bs'.
Proof. intros Hp. unfold owned. by rewrite Hp. Qed.

Lemma core_perm s bs bs' : bs ≡ₚ bs' -> core s bs -> core s bs'.
Proof.
  intros Hp [Hd Hw Hpl Hb Hn Hu He]. split; try done.
  - intros id p Hid. rewrite <-(owned_perm id _ _ Hp). by apply Hpl.
  - intros b Hb'. apply Hb. by rewrite Hp.
  - by rewrite <-Hp.
Qed.

(** A tile that is not a wall is on the grid *)
Lemma tileAt_inside s bs x y : core s bs -> tileAt s x y <> TileWall -> outside s x y = false /\ (Z.to_nat (idx s x y) < length (Tiles s))%nat.
Proof.
  intros [(Hw & Hh & Hl) _ _ _ _ _ _]. unfold tileAt. destruct (outside s x y) eqn:E; [done|]. intros _. split; [done|].
  rewrite Hl. unfold outside, idx in *. rewrite Hw, Hh in *. unfold GridWidth, GridHeight in *. lia.
Qed.

Lemma tileAt_set s bs x y t x' y' : core s bs -> tileAt s x y <> TileWall ->
  tileAt (setTile s x y t) x' y' = if decide (x = x' /\ y = y') then t else tileAt s x' y'.
Proof.
  intros Hc Hx. destruct (tileAt_inside s bs x y Hc Hx) as [Ho Hl]. unfold setTile. rewrite Ho. unfold tileAt, idx. cbn.
  destruct (outside (set_tiles s _) x' y') eqn:E'; unfold outside in *; cbn in E'.
  - rewrite E'. case_decide as Hd; [destruct Hd; subst; congruence|done].
  - rewrite E'. destruct Hc as [(Hw & Hh & _) _ _ _ _ _ _]. unfold idx in Hl. case_decide as Hd.
    + destruct Hd as [-> ->]. by rewrite list_lookup_insert_eq.
    + rewrite list_lookup_insert_ne; [done|]. intros E. apply Hd. rewrite Hw, Hh in *. unfold GridWidth, GridHeight in *. lia.
Qed.

(** Removing a block, after which the cell is empty *)
Lemma core_clear s bs x y : core s bs -> tileAt s x y = TileBlock ->
  core (setTile s x y TileEmpty) bs /\ tileAt (setTile s x y TileEmpty) x y = TileEmpty /\ same_match s (setTile s x y TileEmpty).
Proof.
  intros Hc Hx. assert (tileAt s x y <> TileWall) as Hnw by congruence.
  assert (forall x' y', tileAt (setTile s x y TileEmpty) x' y' = if decide (x = x' /\ y = y') then TileEmpty else tileAt s x' y') as Ht
    by (intros; by eapply tileAt_set).
  assert (forall x' y', tileAt s x' y' = TileEmpty -> tileAt (setTile s x y TileEmpty) x' y' = TileEmpty) as Hkeep
    by (intros x' y' E; rewrite Ht; by case_decide).
  destruct (tileAt_inside s bs x y Hc Hnw) as [Ho _].
  split_and!; [|rewrite Ht; by rewrite decide_True|unfold setTile; by rewrite Ho].
  destruct Hc as [(Hw & Hh & Hl) Hwall Hp Hb Hn Hu He].
  assert (forall A (f : MatchState -> A), (forall t, f (set_tiles s t) = f s) -> f (setTile s x y TileEmpty) = f s) as Hf
    by (intros A f Hf; unfold setTile; rewrite Ho; apply Hf).
  split.
  - rewrite (Hf _ Width), (Hf _ Height) by done. split_and!; try done. unfold setTile. rewrite Ho. cbn. by rewrite length_insert.
  - intros x' y'. rewrite Ht, <-Hwall. case_decide as Hd; [|done]. destruct Hd as [-> ->]. rewrite Hx. done.
  - rewrite (Hf _ Players) by done. intros id p Hid. destruct (Hp id p Hid) as (? & ? & ? & ?). split_and!; auto.
  - rewrite (Hf _ Players) by done. intros b Hb'. destruct (Hb b Hb'). auto.
  - done.
  - rewrite (Hf _ Powerups) by done. auto.
  - by rewrite (Hf _ Explosions).
Qed.

Lemma core_spawn s bs x y : core s bs -> core (spawnExplosion s x y) bs /\ same_match s (spawnExplosion s x y) /\
  (forall x' y', tileAt (spawnExplosion s x y) x' y' = tileAt s x' y').
Proof.
  intros [Hd Hw Hp Hb Hn Hu He]. split_and!; [|done|done]. split; try done.
  - intros u Hu'. cbn in Hu'. apply list_elem_of_In, filter_In in Hu' as [Hin _]. apply Hu. by apply list_elem_of_In.
  - cbn. apply Forall_app. split; [done|]. constructor; [|constructor]. unfold ExplosionTicks. cbn. lia.
Qed.

Lemma core_destroyBlock s bs x y : core s bs -> tileAt s x y = TileBlock ->
  core (destroyBlock drop kind3 s x y) bs /\ same_match s (destroyBlock drop kind3 s x y).
Proof.
  intros Hc Hx. destruct (core_clear s bs x y Hc Hx) as (Hc' & Ht & Hs). unfold destroyBlock.
  destruct (drop _); (split; [|done]); destruct Hc' as [Hd Hw Hp Hb Hn Hu He]; split; try done.
  cbn. intros u [Hu'|Hu']%elem_of_app; [by apply Hu|]. apply list_elem_of_singleton in Hu' as ->. exact Ht.
Qed.

Lemma core_blast bs n : forall s bx by_ dx dy r, core s bs ->
  core (blast drop kind3 s bx by_ dx dy r n) bs /\ same_match s (blast drop kind3 s bx by_ dx dy r n).
Proof.
  induction n as [|n IH]; intros s bx by_ dx dy r Hc; cbn; [by split|].
  destruct (tileAt s _ _) eqn:Ht; [|by split|].
  - destruct (core_spawn s bs (bx + dx * r) (by_ + dy * r) Hc) as (Hc1 & Hs1 & _).
    destruct (IH _ bx by_ dx dy (r + 1)%Z Hc1) as [Hc2 Hs2]. split; [done|]. by etransitivity.
  - destruct (core_spawn s bs (bx + dx * r) (by_ + dy * r) Hc) as (Hc1 & Hs1 & Ht1).
    destruct (core_destroyBlock _ bs (bx + dx * r) (by_ + dy * r) Hc1) as [Hc2 Hs2]; [by rewrite Ht1|]. split; [done|]. by etransitivity.
Qed.

Lemma core_blasts bs b n ds : forall s, core s bs ->
  let s' := fold_left (fun s d => let '(dx, dy) := dirDelta d in blast drop kind3 s (bX b) (bY b) dx dy 1 n) ds s in core s' bs /\ same_match s s'.
Proof.
  induction ds as [|d ds IH]; intros s Hc; cbn; [by split|]. destruct (dirDelta d) as [dx dy].
  destruct (core_blast bs n s (bX b) (bY b) dx dy 1%Z Hc) as [Hc1 Hs1]. destruct (IH _ Hc1) as [Hc2 Hs2]. split; [done|]. by etransitivity.
Qed.

(** Killing changes nothing but who is alive *)
Definition only_alive (f : gmap string MatchPlayer) (g : gmap string MatchPlayer) : Prop :=
  forall id p', g !! id = Some p' -> exists p, f !! id = Some p /\ p' = set_alive p (Alive p').

#[local] Instance only_alive_preorder : PreOrder only_alive.
Proof.
  split.
  - intros f id p Hp. exists p. split; [done|]. by destruct p.
  - intros f g h Hfg Hgh id p Hp. destruct (Hgh id p Hp) as (q & Hq & ->). destruct (Hfg id q Hq) as (r & Hr & ->). by exists r.
Qed.

Lemma kills_only_alive es : forall m : gmap string MatchPlayer,
  let m' := fold_left (fun ps e => if negb (eTicks e =? ExplosionTicks)%Z then ps else killAt e <$> ps) es m in
  only_alive m m' /\ dom m' = dom m.
Proof.
  induction es as [|e es IH]; intros m; cbn; [done|]. destruct (negb _); [apply IH|].
  destruct (IH (killAt e <$> m)) as [Ho Hd]. split; [|by rewrite Hd, dom_fmap_L]. etransitivity; [|exact Ho].
  intros id p'. rewrite lookup_fmap. destruct (m !! id) as [q|]; cbn; [|done]. intros [= <-]. exists q. split; [done|].
  unfold killAt. case_match; [done|]. by destruct q.
Qed.

Lemma core_kill s bs : core s bs -> core (killPlayersOnExplosions s) bs /\ same_match s (killPlayersOnExplosions s).
Proof.
  intros [Hd Hw Hp Hb Hn Hu He]. unfold killPlayersOnExplosions. destruct (kills_only_alive (Explosions s) (Players s)) as [Ho Hdom].
  split; [|done]. split; try done; cbn.
  - intros id p' Hp'. destruct (Ho id p' Hp') as (p & Hpp & ->). exact (Hp id p Hpp).
  - intros b Hb'. destruct (Hb b Hb') as [? Hi]. split; [done|]. apply elem_of_dom. rewrite Hdom. by apply elem_of_dom.
Qed.

(** Exploding takes the bomb from its owner *)
Lemma owned_cons id b bs : owned id (b :: bs) = ((if decide (OwnerID b = id) then 1 else 0) + owned id bs)%Z.
Proof. unfold owned. rewrite filter_cons. case_decide; cbn; lia. Qed.
Lemma owned_nonneg id bs : (0 <= owned id bs)%Z.
Proof. unfold owned. lia. Qed.

Lemma core_detonate s b bs : core s (b :: bs) -> core (detonate drop kind3 s b) bs /\ same_match s (detonate drop kind3 s b).
Proof.
  intros [Hd Hw Hp Hb Hn Hu He]. destruct (Hb b) as [_ [owner Ho]]; [left|]. unfold detonate. rewrite Ho.
  destruct (Hp _ _ Ho) as (Hid & Ht & Ha & Hcap). rewrite owned_cons, decide_True in Ha by done.
  pose proof (owned_nonneg (OwnerID b) bs). destruct (Z.ltb_spec 0 (ActiveBombs owner)) as [_|]; [|lia].
  set (s1 := set_players s _).
  assert (dom (Players s1) = dom (Players s)) as Hdom by (cbn; rewrite dom_insert_L; apply subseteq_union_1_L, singleton_subseteq_l; by apply elem_of_dom).
  assert (core s1 bs) as Hc1.
  { split; try done; cbn.
    - intros id p. rewrite lookup_insert_Some. intros [[<- <-]|[Hne Hl]].
      + cbn. split_and!; [done|done|lia|lia].
      + destruct (Hp id p Hl) as (? & ? & Hact & ?). rewrite owned_cons, decide_False in Hact by done. split_and!; auto.
    - intros b' Hb'. destruct (Hb b') as [? Hs]; [by right|]. split; [done|]. apply elem_of_dom. change (OwnerID b' ∈ dom (Players s1)). rewrite Hdom. by apply elem_of_dom.
    - cbn in Hn. by apply NoDup_cons in Hn as [_ ?]. }
  assert (same_match s s1) as Hs1 by done.
  destruct (core_spawn s1 bs (bX b) (bY b) Hc1) as (Hc2 & Hs2 & _).
  destruct (core_blasts bs b (Z.to_nat (Power b)) [DIR_UP; DIR_DOWN; DIR_LEFT; DIR_RIGHT] _ Hc2) as [Hc3 Hs3].
  destruct (core_kill _ bs Hc3) as [Hc4 Hs4]. split; [exact Hc4|]. etransitivity; [exact Hs1|]. etransitivity; [exact Hs2|]. by etransitivity.
Qed.

(** A pass over the bombs *)
Lemma core_pass bs : forall acc s s' rem ex, core s (acc ++ bs) -> pass drop kind3 bs s = (s', rem, ex) ->
  core s' (acc ++ rem) /\ same_match s s' /\ sublist rem bs /\ Forall (fun b => 0 < bTicks b)%Z rem /\
  (ex = false -> rem = bs) /\ (ex = true -> (length rem < length bs)%nat).
Proof.
  induction bs as [|b bs IH]; intros acc s s' rem ex Hc Hp; cbn in Hp; [by simplify_eq|].
  destruct (Z.leb_spec (bTicks b) 0).
  - destruct (pass drop kind3 bs (detonate drop kind3 s b)) as [[s1 rem1] ex1] eqn:E. simplify_eq.
    destruct (core_detonate s b (acc ++ bs)) as [Hc1 Hs1]; [eapply core_perm; [|exact Hc]; by rewrite Permutation_middle|].
    destruct (IH acc _ _ _ _ Hc1 E) as (Hc2 & Hs2 & Hsub & HF & _ & Hlt). split_and!; [done|by etransitivity|by constructor|done|done|].
    intros _. cbn. apply sublist_length in Hsub. lia.
  - destruct (pass drop kind3 bs s) as [[s1 rem1] ex1] eqn:E. simplify_eq.
    destruct (IH (acc ++ [b]) s s' rem1 ex) as (Hc2 & Hs2 & Hsub & HF & He & Hlt); [by rewrite <-app_assoc|done|].
    rewrite <-app_assoc in Hc2. split_and!; [done|done|by constructor|by constructor|intros; f_equal; auto|intros; cbn; specialize (Hlt ltac:(done)); lia].
Qed.

(** Setting fuses, and the list of bombs itself, do not matter to [core] *)
Lemma owned_fmap id (f : Bomb -> Bomb) bs : (forall b, OwnerID (f b) = OwnerID b) -> owned id (f <$> bs) = owned id bs.
Proof.
  intros Hf. induction bs as [|b bs IH]; [done|]. rewrite fmap_cons, !owned_cons, IH, Hf. done.
Qed.
Lemma core_fmap s bs bs' (f : Bomb -> Bomb) : (forall b, pos (f b) = pos b /\ OwnerID (f b) = OwnerID b) -> core s bs -> core (set_bombs s bs') (f <$> bs).
Proof.
  intros Hf [Hd Hw Hp Hb Hn Hu He]. split; try done.
  - intros id p Hid. rewrite owned_fmap by apply Hf. exact (Hp id p Hid).
  - intros b (b0 & -> & Hb0)%list_elem_of_fmap. destruct (Hb b0 Hb0) as [Ht Ho]. destruct (Hf b0) as [Hpos ->].
    unfold pos in Hpos. injection Hpos as -> ->. done.
  - rewrite <-list_fmap_compose. by rewrite (list_fmap_ext (pos ∘ f) pos bs) by (intros; apply Hf).
Qed.
Lemma core_set_bombs s bs bs' : core s bs -> core (set_bombs s bs') bs.
Proof. intros Hc. rewrite <-(list_fmap_id bs). by apply core_fmap. Qed.
Lemma core_chain s bs : core s bs -> core (set_bombs s (chain s <$> bs)) (chain s <$> bs).
Proof. intros Hc. apply core_fmap; [|done]. intros b. unfold chain. by case_match. Qed.

(** A match but for its bombs *)
Definition same_match' s s' : Prop :=
  Tick s' = Tick s /\ Status s' = Status s /\ WinnerID s' = WinnerID s /\ pendingInputs s' = pendingInputs s /\ dom (Players s') = dom (Players s).

(** The detonations of a tick come to an end within as many passes as there are bombs, and leave no bomb with
    an expired fuse *)
Lemma resolve_total fuel : forall s, core s (Bombs s) -> Forall (fun b => bTicks b <= BombFuseTicks)%Z (Bombs s) -> (length (Bombs s) < fuel)%nat ->
  exists s', resolve drop kind3 fuel s = Some s' /\ core s' (Bombs s') /\ same_match' s s' /\
    Forall (fun b => 1 <= bTicks b <= BombFuseTicks)%Z (Bombs s').
Proof.
  induction fuel as [|fuel IH]; intros s Hc HF Hl; [lia|]. cbn [resolve].
  destruct (pass drop kind3 (Bombs s) s) as [[s1 rem] ex] eqn:Ep.
  destruct (core_pass (Bombs s) [] s s1 rem ex Hc Ep) as (Hc1 & Hs1 & Hsub & Hpos & Hno & Hyes).
  assert (Forall (fun b => bTicks b <= BombFuseTicks)%Z rem) as HFr.
  { rewrite Forall_forall in HF |- *. intros b Hb. apply HF. by eapply elem_of_sublist. }
  destruct ex; cbn [negb].
  - specialize (Hyes eq_refl). destruct (IH (set_bombs (set_bombs s1 rem) (chain (set_bombs s1 rem) <$> Bombs (set_bombs s1 rem)))) as (s' & Hr & Hc' & Hs' & HF').
    + cbn. apply (core_chain (set_bombs s1 rem)). by apply core_set_bombs.
    + cbn. apply Forall_fmap. eapply Forall_impl; [exact HFr|]. intros b Hb. cbn. unfold chain. case_match; cbn; unfold BombFuseTicks in *; lia.
    + cbn. rewrite length_fmap. lia.
    + exists s'. split_and!; try done. destruct Hs1 as (E1 & E2 & E3 & E4 & E5 & _). destruct Hs' as (F1 & F2 & F3 & F4 & F5). cbn in *.
      split_and!; congruence.
  - eexists. split; [done|]. split; [by apply core_set_bombs|]. destruct Hs1 as (E1 & E2 & E3 & E4 & E5 & _). split; [by split_and!|].
    cbn. rewrite Forall_forall in Hpos, HFr |- *. intros b Hb. specialize (Hpos b Hb). specialize (HFr b Hb). cbn in *. lia.
Qed.

(** The invariant between operations *)
Record match_inv (limit : Z) (s : MatchState) : Prop := mkMatchInv {
  mi_core : core s (Bombs s);
  mi_fuses : Forall (fun b => 1 <= bTicks b <= BombFuseTicks)%Z (Bombs s);
  mi_glow : Forall (fun e => 1 <= eTicks e < ExplosionTicks)%Z (Explosions s);
  mi_size : (size (Players s) <= MaxPlayers)%nat;
  mi_lobby : Status s = LOBBY -> Tick s = 0%Z /\ Bombs s = [] /\ WinnerID s = "" /\ forall id p, Players s !! id = Some p -> Alive p = true;
  mi_running : Status s = RUNNING -> (2 <= length (aliveIDs s))%nat /\ WinnerID s = "" /\ (Tick s = 0 \/ Tick s < limit)%Z;
  mi_ended : Status s = ENDED -> (length (aliveIDs s) = 1 -> aliveIDs s = [WinnerID s])%nat /\
    (length (aliveIDs s) <> 1 -> WinnerID s = "")%nat /\ ((length (aliveIDs s) <= 1)%nat \/ (limit <= Tick s)%Z)
}.

(** Moving: a walk ends where it began or on an empty tile without a bomb *)
Lemma walk_end s pid dx dy n : forall x y, let '(x', y') := walk s pid dx dy n x y in
  (x' = x /\ y' = y) \/ (tileAt s x' y' = TileEmpty /\ bombAt s x' y' = false).
Proof.
  induction n as [|n IH]; intros x y; cbn; [by left|]. destruct (canEnter s (x + dx) (y + dy) pid) eqn:E; [|by left].
  specialize (IH (x + dx)%Z (y + dy)%Z). destruct (walk s pid dx dy n (x + dx) (y + dy)) as [x' y'].
  destruct IH as [[-> ->]|?]; [|by right]. right. unfold canEnter in E. case_bool_decide as Ht; [done|]. split; [by destruct (tileAt s _ _)|].
  by destruct (bombAt s _ _).
Qed.

Lemma bombAt_false s x y b : bombAt s x y = false -> b ∈ Bombs s -> pos b <> (x, y).
Proof.
  intros Hf Hb E. injection E as E1 E2. assert (bombAt s x y = true) as Ht; [|congruence].
  apply existsb_exists. exists b. split; [by apply list_elem_of_In|]. by rewrite E1, E2, !Z.eqb_refl.
Qed.

Lemma core_applyInput s pi : core s (Bombs s) -> Forall (fun b => 1 <= bTicks b <= BombFuseTicks)%Z (Bombs s) ->
  let s' := applyInput s pi in
  core s' (Bombs s') /\ Forall (fun b => 1 <= bTicks b <= BombFuseTicks)%Z (Bombs s') /\
  Tick s' = Tick s /\ Status s' = Status s /\ WinnerID s' = WinnerID s /\ Explosions s' = Explosions s /\
  dom (Players s') = dom (Players s) /\ (forall id, Alive <$> Players s' !! id = Alive <$> Players s !! id).
Proof.
  intros Hc HF. destruct pi as [pid input]. cbn. destruct (Players s !! pid) as [p|] eqn:Hp; [|done]. destruct (Alive p) eqn:Hal; cbn; [|done].
  set (xy := if bool_decide (Move input <> DIR_NONE) then _ else _).
  assert (tileAt s xy.1 xy.2 = TileEmpty) as Hxy.
  { destruct Hc as [_ _ Hpl _ _ _ _]. destruct (Hpl pid p Hp) as (_ & Ht & _). unfold xy. case_bool_decide; [|done].
    destruct (dirDelta (Move input)) as [dx dy]. pose proof (walk_end s pid dx dy (Z.to_nat (Speed p)) (pX p) (pY p)) as Hw.
    destruct (walk _ _ _ _ _ _ _) as [x' y']. destruct Hw as [[-> ->]|[? _]]; done. }
  destruct xy as [x y]. cbn in Hxy.
  assert (forall q, dom (<[pid := q]> (Players s)) = dom (Players s)) as Hdom.
  { intros q. rewrite dom_insert_L. apply subseteq_union_1_L, singleton_subseteq_l. by apply elem_of_dom. }
  assert (forall q, Alive q = true -> forall id, Alive <$> <[pid := q]> (Players s) !! id = Alive <$> Players s !! id) as Hkeep.
  { intros q Hq id. destruct (decide (pid = id)) as [<-|]; [by rewrite lookup_insert_eq, Hp; cbn; rewrite Hq, Hal|by rewrite lookup_insert_ne]. }
  destruct Hc as [Hd Hw Hpl Hb Hn Hu He]. destruct (Hpl pid p Hp) as (Hid & _ & Hact & Hcap).
  destruct (PlaceBomb input && _ && _) eqn:Hplace; cbn.
  - apply andb_true_iff in Hplace as [[_ Hlt]%andb_true_iff Hnb]. apply negb_true_iff in Hnb. cbn in Hlt. apply Z.ltb_lt in Hlt.
    split_and!; try done; try apply Hdom; try (by apply Hkeep).
    + split; try done; cbn.
      * intros id q. rewrite lookup_insert_Some. intros [[<- <-]|[Hne Hl]].
        -- cbn. rewrite (owned_perm pid (Bombs s ++ _) (mkBomb x y pid (BombPower p) BombFuseTicks :: Bombs s)) by (by rewrite Permutation_app_comm).
           rewrite owned_cons, decide_True by done. split_and!; [done|done|lia|lia].
        -- destruct (Hpl id q Hl) as (? & ? & Ha & ?). rewrite (owned_perm id (Bombs s ++ _) (mkBomb x y pid (BombPower p) BombFuseTicks :: Bombs s)) by (by rewrite Permutation_app_comm).
           rewrite owned_cons, decide_False by done. split_and!; done.
      * intros b [Hb'|Hb']%elem_of_app; [destruct (Hb b Hb')|]; cbn.
        -- split; [done|]. apply elem_of_dom. rewrite Hdom. by apply elem_of_dom.
        -- apply list_elem_of_singleton in Hb' as ->. cbn. split; [done|]. by rewrite lookup_insert_eq.
      * rewrite fmap_app. apply NoDup_app. split_and!; [done| |apply NoDup_singleton]. intros q (b & -> & Hb')%list_elem_of_fmap Hq%list_elem_of_singleton.
        by eapply bombAt_false.
    + apply Forall_app. split; [done|]. constructor; [cbn; unfold BombFuseTicks; lia|constructor].
  - split_and!; try done; try apply Hdom; try (by apply Hkeep). split; try done; cbn.
    + intros id q. rewrite lookup_insert_Some. intros [[<- <-]|[Hne Hl]]; [by cbn|by apply Hpl].
    + intros b Hb'. destruct (Hb b Hb'). split; [done|]. apply elem_of_dom. rewrite Hdom. by apply elem_of_dom.
Qed.

Lemma core_applyInputs order : forall s, core s (Bombs s) -> Forall (fun b => 1 <= bTicks b <= BombFuseTicks)%Z (Bombs s) ->
  let s' := applyInputs s order in
  core s' (Bombs s') /\ Forall (fun b => 1 <= bTicks b <= BombFuseTicks)%Z (Bombs s') /\ Tick s' = Tick s /\ Status s' = Status s /\
  WinnerID s' = WinnerID s /\ dom (Players s') = dom (Players s).
Proof.
  unfold applyInputs. intros s Hc HF.
  assert (core (fold_left applyInput order s) (Bombs (fold_left applyInput order s)) /\
    Forall (fun b => 1 <= bTicks b <= BombFuseTicks)%Z (Bombs (fold_left applyInput order s)) /\ Tick (fold_left applyInput order s) = Tick s /\
    Status (fold_left applyInput order s) = Status s /\ WinnerID (fold_left applyInput order s) = WinnerID s /\
    dom (Players (fold_left applyInput order s)) = dom (Players s)) as (Hc' & Hrest).
  { revert s Hc HF. induction order as [|pi order IH]; intros s Hc HF; cbn; [done|].
    destruct (core_applyInput s pi Hc HF) as (Hc1 & HF1 & E1 & E2 & E3 & _ & E5 & _).
    destruct (IH _ Hc1 HF1) as (? & ? & ? & ? & ? & ?). split_and!; congruence. }
  split; [|done]. by destruct Hc'.
Qed.

(** Taking powerups raises a player's limits and nothing else *)
Lemma collect_spec us : forall order ps pr ps', collect order us ps = (pr, ps') ->
  sublist pr us /\ dom ps' = dom ps /\ forall id p', ps' !! id = Some p' -> exists p, ps !! id = Some p /\
    pID p' = pID p /\ pX p' = pX p /\ pY p' = pY p /\ Alive p' = Alive p /\ ActiveBombs p' = ActiveBombs p /\ (BombCapacity p <= BombCapacity p')%Z.
Proof.
  induction us as [|u us IH]; intros order ps pr ps' Hc; cbn in Hc.
  { simplify_eq. split_and!; [constructor|done|]. intros id p' Hp. exists p'. split_and!; done || lia. }
  destruct (taker ps (order 0) u) as [id0|].
  - destruct (IH _ _ _ _ Hc) as (Hsub & Hdom & Hps). split_and!; [by constructor|by rewrite Hdom, dom_alter_L|].
    intros id p' Hp'. destruct (Hps id p' Hp') as (p & Hp & E1 & E2 & E3 & E4 & E5 & E6). rewrite lookup_alter_Some in Hp.
    destruct Hp as [(<- & q & Hq & ->)|[Hne Hp]]; [|by exists p]. exists q. split; [done|]. rewrite E1, E2, E3, E4, E5.
    unfold upgrade in *. destruct (Kind u); cbn in *; split_and!; done || lia.
  - destruct (collect _ us ps) as [pr1 ps1] eqn:E. simplify_eq. destruct (IH _ _ _ _ E) as (Hsub & Hdom & Hps). split_and!; [by constructor|done|done].
Qed.

Lemma core_collect s order : core s (Bombs s) -> let s' := collectPowerups s order in
  core s' (Bombs s') /\ Bombs s' = Bombs s /\ Explosions s' = Explosions s /\ Tick s' = Tick s /\ Status s' = Status s /\ WinnerID s' = WinnerID s /\
  dom (Players s') = dom (Players s).
Proof.
  intros [Hd Hw Hp Hb Hn Hu He]. unfold collectPowerups. destruct (collect order (Powerups s) (Players s)) as [pr ps] eqn:E. cbn.
  destruct (collect_spec _ _ _ _ _ E) as (Hsub & Hdom & Hps). split_and!; try done. split; try done; cbn.
  - intros id p' Hp'. destruct (Hps id p' Hp') as (p & Hpp & -> & E2 & E3 & _ & -> & Hcap). destruct (Hp id p Hpp) as (? & ? & ? & ?).
    unfold tileAt, outside, idx in *. cbn in *. rewrite E2, E3. split_and!; try done. lia.
  - intros b Hb'. destruct (Hb b Hb'). split; [done|]. apply elem_of_dom. rewrite Hdom. by apply elem_of_dom.
  - intros u Hu'. apply Hu. by eapply elem_of_sublist.
Qed.

Lemma core_explosions s bs : core s bs -> core (advanceExplosions s) bs /\ Forall (fun e => 1 <= eTicks e < ExplosionTicks)%Z (Explosions (advanceExplosions s)).
Proof.
  intros [Hd Hw Hp Hb Hn Hu He].
  assert (Forall (fun e => 1 <= eTicks e < ExplosionTicks)%Z (Explosions (advanceExplosions s))) as HF.
  { cbn. rewrite Forall_forall in He |- *. intros e Hin. apply list_elem_of_In, filter_In in Hin as [Hin Ht]. apply Z.ltb_lt in Ht.
    apply list_elem_of_In, list_elem_of_fmap in Hin as (e0 & -> & He0). specialize (He e0 He0). cbn in *. lia. }
  split; [|done]. split; try done. eapply Forall_impl; [exact HF|]. intros e ?. cbn in *. lia.
Qed.

(** One tick: it never gets stuck and keeps the invariant *)
Lemma AdvanceTick_inv limit inputs order s : match_inv limit s -> exists s', AdvanceTick drop kind3 limit inputs order s = Some s' /\ match_inv limit s' /\
  (Status s = RUNNING -> Tick s' = (Tick s + 1)%Z /\ (Status s' = RUNNING -> (Tick s' < limit)%Z) /\ Status s' <> LOBBY).
Proof.
  intros [Hc HF Hg Hsz Hlob Hrun Hend]. unfold AdvanceTick. case_bool_decide as Hst; [by exists s|].
  assert (Status s = RUNNING) as Hs by (by destruct (decide (Status s = RUNNING))). destruct (Hrun Hs) as (_ & Hwin & _).
  destruct (core_applyInputs inputs s Hc HF) as (Hc1 & HF1 & T1 & S1 & W1 & D1). set (s1 := applyInputs s inputs) in *.
  set (s2 := set_bombs s1 ((fun b => set_fuse b (bTicks b - 1)) <$> Bombs s1)).
  destruct (resolve_total (S (length (Bombs s2))) s2) as (s3 & Hr & Hc3 & (T3 & S3 & W3 & _ & D3) & HF3).
  { apply core_fmap; [done|]. exact Hc1. }
  { apply Forall_fmap. eapply Forall_impl; [exact HF1|]. intros b Hb. cbn in *. lia. }
  { lia. }
  unfold advanceBombs. fold s2. rewrite Hr. cbn [mbind option_bind].
  destruct (core_explosions s3 _ Hc3) as [Hc4 HF4]. destruct (core_collect (advanceExplosions s3) order Hc4) as (Hc5 & B5 & E5 & T5 & S5 & W5 & D5).
  set (s5 := collectPowerups (advanceExplosions s3) order) in *. set (s6 := set_status s5 (Tick s5 + 1) (Status s5) (WinnerID s5)).
  assert (Tick s6 = Tick s + 1 /\ Status s6 = RUNNING /\ WinnerID s6 = "")%Z as (T6 & S6 & W6).
  { change (Tick s5 + 1 = Tick s + 1 /\ Status s5 = RUNNING /\ WinnerID s5 = "")%Z. rewrite T5, S5, W5.
    change (Tick (advanceExplosions s3)) with (Tick s3). change (Status (advanceExplosions s3)) with (Status s3).
    change (WinnerID (advanceExplosions s3)) with (WinnerID s3). rewrite T3, S3, W3.
    change (Tick s2) with (Tick s1). change (Status s2) with (Status s1). change (WinnerID s2) with (WinnerID s1). by rewrite T1, S1, W1, Hs. }
  assert (size (Players s6) <= MaxPlayers)%nat as Hsz6 by (change (Players s6) with (Players s5); rewrite <-(size_dom (D := gset string)) in Hsz |- *; rewrite D5; change (Players (advanceExplosions s3)) with (Players s3); rewrite D3; change (Players s2) with (Players s1); by rewrite D1).
  assert (match aliveIDs s6 with [] => True | [_] => True | _ => (2 <= length (aliveIDs s6))%nat end) as H2 by (destruct (aliveIDs s6) as [|a [|b l]]; cbn; lia || done).
  eexists. split; [reflexivity|].
  assert (forall x w, core (set_status s6 (Tick s6) x w) (Bombs (set_status s6 (Tick s6) x w))) as Hcore by (intros; by destruct Hc5).
  assert (forall x w, Forall (fun b => 1 <= bTicks b <= BombFuseTicks)%Z (Bombs (set_status s6 (Tick s6) x w))) as Hfuse by (intros; cbn; by rewrite B5).
  assert (forall x w, Forall (fun e => 1 <= eTicks e < ExplosionTicks)%Z (Explosions (set_status s6 (Tick s6) x w))) as Hglow by (intros; cbn; by rewrite E5).
  assert (s6 = set_status s6 (Tick s6) (Status s6) (WinnerID s6)) as Eta by (by destruct s6).
  unfold evaluateEnd. destruct (aliveIDs s6) as [|a [|a' l]] eqn:Ea; [| |destruct (Z.leb_spec limit (Tick s6))].
  - split; [|by intros _]. split; try done; cbn [Status set_status]; try done. intros _. change (aliveIDs (set_status _ _ _ _)) with (aliveIDs s6). rewrite Ea. split_and!; [done|done|left; cbn; lia].
  - split; [|by intros _]. split; try done; cbn [Status set_status]; try done. intros _. change (aliveIDs (set_status _ _ _ _)) with (aliveIDs s6). rewrite Ea. split_and!; [done|done|left; cbn; lia].
  - split; [|by intros _]. split; try done; cbn [Status set_status]; try done. intros _. change (aliveIDs (set_status _ _ _ _)) with (aliveIDs s6). rewrite Ea. split_and!; [done|done|right; done].
  - split; [|intros _; split_and!; [done|done|by rewrite S6]]. rewrite Eta. split; try done; cbn [Status set_status]; rewrite ?S6; try done.
    intros _. change (aliveIDs (set_status _ _ _ _)) with (aliveIDs s6). rewrite Ea. split_and!; [cbn; lia|done|right; done].
Qed.

(** ** Runs of a match *)

(** An operation that is not a tick; one that fails changes nothing *)
Inductive act (s : MatchState) : MatchState -> Prop :=
| A_add id cid x y s' : AddPlayer s id cid x y = Ok s' -> act s s'
| A_start s' : Start s = Ok s' -> act s s'
| A_input pid input s' : QueueInput s pid input = Ok s' -> act s s'.

(** A run with its number of ticks: a tick ranges over the queued inputs and the players in some order *)
Inductive run (limit : Z) : nat -> MatchState -> MatchState -> Prop :=
| R_nil s : run limit 0 s s
| R_act n s s1 s2 : act s s1 -> run limit n s1 s2 -> run limit n s s2
| R_tick n s inputs order s1 s2 : inputs ≡ₚ map_to_list (pendingInputs s) -> (forall i, order i ≡ₚ (map_to_list (Players s)).*1) ->
    AdvanceTick drop kind3 limit inputs order s = Some s1 -> run limit n s1 s2 -> run limit (S n) s s2.

Lemma new_match_fields : Width NewMatchState = GridWidth /\ Height NewMatchState = GridHeight /\
  length (Tiles NewMatchState) = Z.to_nat (GridWidth * GridHeight) /\ Players NewMatchState = ∅ /\ Bombs NewMatchState = [] /\
  Explosions NewMatchState = [] /\ Powerups NewMatchState = [] /\ Tick NewMatchState = 0%Z /\ Status NewMatchState = LOBBY /\ WinnerID NewMatchState = "".
Proof. split_and!; vm_compute; reflexivity. Qed.

Lemma new_match_inv limit : match_inv limit NewMatchState.
Proof.
  destruct new_match_fields as (E1 & E2 & E3 & E4 & E5 & E6 & E7 & E8 & E9 & E10).
  split; rewrite ?E4, ?E5, ?E6, ?E8, ?E9, ?E10.
  - split; rewrite ?E1, ?E2, ?E3, ?E4, ?E6, ?E7; [split_and!; reflexivity|reflexivity| | |constructor| |constructor].
    + intros id p. rewrite lookup_empty. discriminate.
    + intros b Hb. destruct (proj1 (elem_of_nil b) Hb).
    + intros u Hu. destruct (proj1 (elem_of_nil u) Hu).
  - constructor.
  - constructor.
  - rewrite map_size_empty. lia.
  - intros _. split_and!; [reflexivity..|]. intros id p. rewrite lookup_empty. discriminate.
  - discriminate.
  - discriminate.
Qed.

Lemma aliveIDs_all s : (forall id p, Players s !! id = Some p -> Alive p = true) -> length (aliveIDs s) = size (Players s).
Proof.
  intros Ha. unfold aliveIDs. rewrite length_fmap, <-length_map_to_list. rewrite <-(length_fmap snd (map_to_list (Players s))).
  f_equal. assert (Forall (fun p => Alive p = true) (map_to_list (Players s)).*2) as HF.
  { apply Forall_forall. intros p ([id q] & -> & Hin)%list_elem_of_fmap. apply elem_of_map_to_list in Hin. cbn. by eapply Ha. }
  induction HF as [|p l Hp HF IH]; cbn; [done|]. by rewrite Hp, IH.
Qed.

Lemma act_inv limit s s' : match_inv limit s -> act s s' -> match_inv limit s' /\ (Status s <> LOBBY -> Status s' = Status s /\ Tick s' = Tick s).
Proof.
  intros [Hc HF Hg Hsz Hlob Hrun Hend] [id cid x y s1 Ha|s1 Hs|pid input s1 Hq].
  - unfold AddPlayer in Ha. case_bool_decide as Hst; [done|]. destruct (Players s !! id) eqn:Hid; [done|]. destruct (Nat.leb_spec MaxPlayers (size (Players s))); [done|].
    case_bool_decide as Ht; [done|]. injection Ha as <-. assert (Status s = LOBBY) as Hl by (by destruct (Status s)).
    destruct (Hlob Hl) as (Ht0 & Hb0 & Hw0 & Hal). destruct Hc as [Hd Hwl Hp Hb Hn Hu He].
    split; [|done]. split; try done; cbn; try (by rewrite Hl).
    + split; try done; cbn.
      * intros i q. rewrite lookup_insert_Some. intros [[<- <-]|[_ Hq]]; [|by apply Hp]. cbn. rewrite Hb0. split_and!; try done.
      * intros b. rewrite Hb0. by intros ?%elem_of_nil.
    + rewrite map_size_insert_None by done. unfold MaxPlayers in *. lia.
    + intros _. split_and!; try done. intros i q. rewrite lookup_insert_Some. intros [[_ <-]|[_ Hq]]; [done|by eapply Hal].
  - unfold Start in Hs. case_bool_decide as Hst; [done|]. destruct (Nat.ltb_spec (size (Players s)) MinPlayersToStart); [done|]. injection Hs as <-.
    assert (Status s = LOBBY) as Hl by (by destruct (Status s)). destruct (Hlob Hl) as (Ht0 & Hb0 & Hw0 & Hal).
    split; [|done]. split; try done; [by destruct Hc|]. intros _. split_and!; [|done|by left].
    change (aliveIDs (set_status _ _ _ _)) with (aliveIDs s). rewrite aliveIDs_all by done. unfold MinPlayersToStart in *. lia.
  - unfold QueueInput in Hq. destruct (Players s !! pid) as [q|]; [|done]. destruct (Alive q); injection Hq as <-; [|by split].
    split; [|done]. split; try done. by destruct Hc.
Qed.

Lemma run_inv limit n s s' : match_inv limit s -> run limit n s s' -> match_inv limit s' /\
  (Status s = ENDED -> Status s' = ENDED) /\
  (Status s = RUNNING -> (Status s' = ENDED \/ (Status s' = RUNNING /\ Tick s' = Tick s + Z.of_nat n)%Z /\ (n = O \/ Tick s' < limit)%Z)).
Proof.
  intros Hi Hr. induction Hr as [s|n s s1 s2 Ha Hr IH|n s ins order s1 s2 _ _ Ht Hr IH].
  - split_and!; auto. intros ?. right. split; [split; [done|lia]|by left].
  - destruct (act_inv _ _ _ Hi Ha) as [Hi1 Hs1]. destruct (IH Hi1) as (Hi2 & He & Hru). split; [done|]. split; intros Hst;
      (destruct Hs1 as [E1 E2]; [congruence|]); [apply He; congruence|]. rewrite <-E2. apply Hru. congruence.
  - destruct (AdvanceTick_inv limit ins order s Hi) as (s1' & Ht' & Hi1 & Hru1). rewrite Ht in Ht'. injection Ht' as <-.
    destruct (IH Hi1) as (Hi2 & He & Hru). split; [done|]. split.
    + intros Hst. apply He. unfold AdvanceTick in Ht. rewrite bool_decide_eq_true_2 in Ht by congruence. congruence.
    + intros Hst. destruct (Hru1 Hst) as (Ht1 & Hlt & Hnl). destruct (Status s1) eqn:Hst1; [done| |left; by apply He].
      destruct (Hru eq_refl) as [?|[[? E] Hn]]; [by left|]. right. split; [split; [done|lia]|]. right.
      destruct Hn as [->|?]; [|done]. specialize (Hlt eq_refl). lia.
Qed.
End Invariant.

(** C37: a Bomberman match stays consistent.  Whatever players join, send and pick up, whatever the random
    source draws and in whichever order maps are iterated over: walls are never destroyed and never appear, every
    player, bomb and powerup is on an empty tile, no two bombs share a cell, a player's count of active bombs is the number of
    bombs on the grid that are theirs and stays within their capacity, fuses and explosions are within their
    times, and the match has at most eight players; a running match has two players alive, and a finished one
    names a winner exactly when one player is alive: that player.  A tick always completes: the chain
    reaction of bombs ends within as many passes as there are bombs. *)
Theorem match_consistent (drop : nat -> bool) (kind3 : nat -> Z) (limit : Z) (n : nat) (s : MatchState) :
  run drop kind3 limit n NewMatchState s ->
  match_inv limit s /\ forall inputs order, is_Some (AdvanceTick drop kind3 limit inputs order s).
Proof.
  intros Hr. destruct (run_inv drop kind3 limit n _ s (new_match_inv limit) Hr) as [Hi _]. split; [done|].
  intros ins order. destruct (AdvanceTick_inv drop kind3 limit ins order s Hi) as (s' & -> & _). eauto.
Qed.

(** A match ends in time.  From any running state of a match, after as many ticks as are left to its time
    limit (one at least), whatever happens in between, the match has ended; and an ended match stays ended. *)
Theorem match_ends_in_time (drop : nat -> bool) (kind3 : nat -> Z) (limit : Z) (m n : nat) (s s' : MatchState) :
  run drop kind3 limit m NewMatchState s -> Status s <> LOBBY -> run drop kind3 limit n s s' ->
  (0 < n)%nat -> (limit - Tick s <= Z.of_nat n)%Z -> Status s' = ENDED.
Proof.
  intros Hm Hst Hr Hn Hl. destruct (run_inv drop kind3 limit m _ s (new_match_inv limit) Hm) as [Hi _].
  destruct (run_inv drop kind3 limit n s s' Hi Hr) as (_ & He & Hru). destruct (Status s); [done| |by apply He].
  destruct (Hru eq_refl) as [?|[[_ E] [?|?]]]; [done|lia|lia].
Qed.

Lemma empty_small s x y : Width s = GridWidth /\ Height s = GridHeight /\ length (Tiles s) = Z.to_nat (GridWidth * GridHeight) ->
  tileAt s x y = TileEmpty -> int32 x = x /\ int32 y = y.
Proof.
  intros (Hw & Hh & _). unfold tileAt, outside. rewrite Hw, Hh. destruct (_ || _)%Z eqn:E; [done|]. intros _. breflect.
  unfold GridWidth, GridHeight in *. split; apply wraps_id; lia.
Qed.

(** The positions, fuses and tiles of a snapshot are exactly those of the match. *)
Theorem snapshot_exact (drop : nat -> bool) (kind3 : nat -> Z) (limit : Z) (n : nat) (s : MatchState) (matchID : string) (order : list string) :
  run drop kind3 limit n NewMatchState s -> order ≡ₚ (map_to_list (Players s)).*1 ->
  let sn := Snapshot matchID order s in
  snTiles sn = tileCode <$> Tiles s /\
  ((fun b => (bsX b, bsY b, OwnerId b, bsTicks b)) <$> snBombs sn) = ((fun b => (bX b, bY b, OwnerID b, bTicks b)) <$> Bombs s) /\
  forall id p, Players s !! id = Some p -> exists ps, ps ∈ snPlayers sn /\ PlayerId ps = id /\ sX ps = pX p /\ sY ps = pY p /\ sAlive ps = Alive p.
Proof.
  intros Hr Hord. destruct (run_inv drop kind3 limit n _ s (new_match_inv limit) Hr) as [Hi _].
  destruct Hi as [[Hd _ Hp Hb _ _ _] Hfuse _ _ _ _ _]. cbn. split; [done|]. split.
  - rewrite <-list_fmap_compose. apply list_fmap_ext. intros i b Hib. apply list_elem_of_lookup_2 in Hib. cbn.
    destruct (empty_small s (bX b) (bY b) Hd (proj1 (Hb b Hib))) as [-> ->]. rewrite Forall_forall in Hfuse.
    specialize (Hfuse b Hib). unfold int32. rewrite wraps_id; [done|lia|]. unfold BombFuseTicks in Hfuse. lia.
  - intros id p Hid. destruct (Hp id p Hid) as (Hpid & Ht & _). destruct (empty_small s (pX p) (pY p) Hd Ht) as [Ex Ey].
    eexists. split; [apply list_elem_of_omap; exists id; rewrite Hid; split; [|reflexivity]|by cbn].
    rewrite Hord. apply list_elem_of_fmap. exists (id, p). split; [done|]. by apply elem_of_map_to_list.
Qed.

(** ** Witnesses *)

Module MatchRuns.
Definition never (_ : nat) : bool := false.
Definition zero (_ : nat) : Z := 0%Z.
Definition or_new (r : result string MatchState) : MatchState := match r with Ok s => s | Err _ => NewMatchState end.
Definition one : MatchState := or_new (AddPlayer NewMatchState "a" "c1" 1 1).
Definition two : MatchState := or_new (AddPlayer one "b" "c2" 11 9).
Definition started : MatchState := or_new (Start two).
Definition ticked (s : MatchState) : MatchState := default s (AdvanceTick never zero 1 [] (fun _ => ["a"; "b"]) s).

Lemma run_started : run never zero 1 0 NewMatchState started.
Proof.
  eapply R_act; [apply (A_add _ "a" "c1" 1 1 one); vm_compute; reflexivity|]. eapply R_act; [apply (A_add _ "b" "c2" 11 9 two); vm_compute; reflexivity|].
  eapply R_act; [apply (A_start _ started); vm_compute; reflexivity|]. apply R_nil.
Qed.
Lemma run_ticked : run never zero 1 1 started (ticked started).
Proof.
  eapply (R_tick _ _ _ _ _ [] (fun _ => ["a"; "b"])); [vm_compute; reflexivity| |vm_compute; reflexivity|].
  - intros _. assert ((map_to_list (Players started)).*1 = ["a"; "b"] \/ (map_to_list (Players started)).*1 = ["b"; "a"]) as [->| ->] by (vm_compute; auto); [done|constructor].
  - apply R_nil.
Qed.
End MatchRuns.

Lemma match_consistent_witness : match_inv 1 MatchRuns.started /\ is_Some (AdvanceTick MatchRuns.never MatchRuns.zero 1 [] (fun _ => ["a"; "b"]) MatchRuns.started).
Proof.
  destruct (match_consistent MatchRuns.never MatchRuns.zero 1 0 MatchRuns.started MatchRuns.run_started) as [Hi Ht].
  split; [exact Hi|]. apply Ht.
Defined.

Lemma match_ends_in_time_witness : Status MatchRuns.started = RUNNING /\ Status (MatchRuns.ticked MatchRuns.started) = ENDED.
Proof.
  split; [vm_compute; reflexivity|].
  apply (match_ends_in_time MatchRuns.never MatchRuns.zero 1 0 1 MatchRuns.started _ MatchRuns.run_started); [vm_compute; discriminate|exact MatchRuns.run_ticked|lia|].
  assert (Tick MatchRuns.started = 0%Z) as E by (vm_compute; reflexivity). rewrite E. lia.
Defined.

(** ** What goes wrong *)

(** The last four of the eight spawn positions are destructible blocks, which [AddPlayer] refuses: no match can
    have the eight players that the positions are meant for. *)
Theorem mid_edge_spawns_refused :
  Forall (fun c => AddPlayer NewMatchState "a" "c" c.1 c.2 = Err "spawn cell is not empty") (list.drop 4 (SpawnPositions NewMatchState)).
Proof. vm_compute. repeat constructor. Qed.

(** [AddPlayer] does not look at the other players: two can start on the same cell. *)
Theorem players_share_a_spawn :
  match AddPlayer MatchRuns.one "b" "c2" 1 1 with Ok s => size (Players s) = 2%nat | Err _ => False end.
Proof. vm_compute. reflexivity. Qed.
