(* ===== verification/Matchmaking.v ===== *)
(** * The Bomberman sample: match objects, matchmaking and statistics (samples/bomberman/server)

    [Module Matches] (match.go): the object around a match state, its tick and the recording of results.
    [Module Queue] (matchmaking_queue.go): the queue with the two critical sections of [spawnIfReady].
    [Module PlayerStats] (player.go).  What a call of another object answers is an argument; the call ids of
    reliable calls are visible in the results. *)

From S2P Require Import Prelude GoStrings Bomberman.
Import Match.

Module Matches.

Record Match : Type := mkMatch { Id : string; state : MatchState; resultsRecorded : bool }.
Record playerResult : Type := mkResult { PlayerID : string; Won : bool }.

(** [collectMatchResults]; [order] is the order of the map iteration *)
Definition collectMatchResults (s : MatchState) (order : list string) : list playerResult :=
  omap (fun id => p ← Players s !! id; Some (mkResult (pID p) (bool_decide (pID p = WinnerID s)))) order.

Section Random.
Context (drop : nat -> bool) (kind3 : nat -> Z) (limit : Z).

(** [tickAndBroadcastOnce]: the match, the clients the snapshot is pushed to, the results that are recorded, and
    whether the ticking goes on.  [order] are the iterations over the players of the tick, [clients] and [ranged] those
    for the snapshot and the results. *)
Definition tickAndBroadcastOnce (m : Match) (inputs : list (string * Input)) (order : nat -> list string) (clients ranged : list string)
    : option (Match * list string * list playerResult * bool) :=
  match Status (state m) with
  | ENDED => Some (m, [], [], false)
  | _ =>
      s ← (if bool_decide (Status (state m) = RUNNING) then AdvanceTick drop kind3 limit inputs order (state m) else Some (state m));
      let ended := bool_decide (Status s = ENDED) in
      let results := if ended && negb (resultsRecorded m) then collectMatchResults s ranged else [] in
      Some (mkMatch (Id m) s (resultsRecorded m || ended), ClientIDs s clients, results, negb ended)
  end.
End Random.

(** [AddPlayer], [StartMatch], [HandleInput] of the object: [Ok] and the reason of the response *)
Definition AddPlayer (m : Match) (id clientID caller : string) (x y : Z) : Match * result string () :=
  let clientID := if bool_decide (clientID = "") then caller else clientID in
  match Match.AddPlayer (state m) id clientID x y with
  | Ok s => (mkMatch (Id m) s (resultsRecorded m), Ok tt)
  | Err e => (m, Err e)
  end.
Definition StartMatch (m : Match) : Match * result string () :=
  match Start (state m) with Ok s => (mkMatch (Id m) s (resultsRecorded m), Ok tt) | Err e => (m, Err e) end.
Definition HandleInput (m : Match) (id : string) (input : Input) : Match * result string () :=
  match QueueInput (state m) id input with Ok s => (mkMatch (Id m) s (resultsRecorded m), Ok tt) | Err e => (m, Err e) end.

(** The retry delays in milliseconds *)
Definition recordResultsRetryDelays : list Z := [0; 200; 500; 1000; 2000; 5000]%Z.

(** [recordOnePlayerResultWithRetry]: [answer i] is what attempt [i] returns, [expired i] whether the context is done
    before the delay of attempt [i] has passed; the number of attempts, and the error *)
Fixpoint recordWithRetry (answer : nat -> result string ()) (expired : nat -> bool) (i : nat) (delays : list Z) (lastErr : result string ())
    : nat * result string () :=
  match delays with
  | [] => (0, lastErr)
  | delay :: delays =>
      if (0 <? delay)%Z && expired i then (0, Err "context deadline exceeded")
      else match answer i with
      | Ok _ => (1, Ok tt)
      | Err e => let '(k, r) := recordWithRetry answer expired (S i) delays (Err e) in (S k, r)
      end
  end.

(** The call of an attempt: call id, object id, whether the player won *)
Record call : Type := mkCall { callID : string; objectID : string; won : bool }.
Definition resultCall (matchID : string) (r : playerResult) : call :=
  mkCall ("match-" +:+ matchID +:+ "-record-" +:+ PlayerID r) ("Player-" +:+ PlayerID r) (Won r).

(** [recordResults]: the calls it makes, in order; [answers] and [expired] by player *)
Definition recordResults (matchID : string) (results : list playerResult) (answers : string -> nat -> result string ())
    (expired : string -> nat -> bool) : list call :=
  r ← results;
  replicate (recordWithRetry (answers (PlayerID r)) (expired (PlayerID r)) 0 recordResultsRetryDelays (Ok tt)).1 (resultCall matchID r).

End Matches.

Module Queue.

Definition MatchPlayersPerSpawn : nat := 4.
Record queuedPlayer : Type := mkQueued { playerID : string; clientID : string }.

Record MatchmakingQueue : Type := mkQueue { queued : list queuedPlayer; matchesSpawned : Z }.

(** A fresh queue object: [matchesSpawned] is not persistent *)
Definition OnCreated : MatchmakingQueue := mkQueue [] 0.

(** The loop of [JoinQueue] that looks for the player *)
Fixpoint position (i : nat) (l : list queuedPlayer) (id : string) : option nat :=
  match l with
  | [] => None
  | qp :: l => if bool_decide (playerID qp = id) then Some (S i) else position (S i) l id
  end.

(** [JoinQueue]: the position in the queue, from 1 *)
Definition JoinQueue (q : MatchmakingQueue) (id client caller : string) : MatchmakingQueue * result string nat :=
  if bool_decide (id = "") then (q, Err "player_id is required")
  else
    let client := if bool_decide (client = "") then caller else client in
    match position 0 (queued q) id with
    | Some i => (q, Ok i)
    | None => let l := queued q ++ [mkQueued id client] in (mkQueue l (matchesSpawned q), Ok (length l))
    end.

(** [LeaveQueue] removes the first entry of the player *)
Fixpoint removeFirst (l : list queuedPlayer) (id : string) : list queuedPlayer :=
  match l with
  | [] => []
  | qp :: l => if bool_decide (playerID qp = id) then l else qp :: removeFirst l id
  end.
Definition LeaveQueue (q : MatchmakingQueue) (id : string) : MatchmakingQueue := mkQueue (removeFirst (queued q) id) (matchesSpawned q).

(** [QueueStatus] *)
Definition QueueStatus (q : MatchmakingQueue) : nat * Z := (length (queued q), matchesSpawned q).

(** [spawnIfReady] under the lock: the batch and the number of its match *)
Definition takeBatch (q : MatchmakingQueue) : option (MatchmakingQueue * list queuedPlayer * Z) :=
  if (length (queued q) <? MinPlayersToStart)%nat then None
  else
    let n := if (MatchPlayersPerSpawn <? length (queued q))%nat then MatchPlayersPerSpawn else length (queued q) in
    let seq := int64 (matchesSpawned q + 1) in
    Some (mkQueue (drop n (queued q)) seq, take n (queued q), seq).

Definition matchID (queueID : string) (seq : Z) : string := "Match-" +:+ queueID +:+ "-" +:+ Itoa seq.

(** [requeueFront] *)
Definition requeueFront (q : MatchmakingQueue) (batch : list queuedPlayer) : MatchmakingQueue :=
  match batch with [] => q | _ => mkQueue (batch ++ queued q) (matchesSpawned q) end.

(** [defaultSpawnPositions] *)
Definition defaultSpawnPositions : list (Z * Z) := SpawnPositions NewMatchState.

(** A request of [spawnMatch] *)
Inductive request : Type :=
| Create
| Add (playerId clientId : string) (x y : Z)
| StartReq.

Fixpoint addRequests (i : nat) (batch : list queuedPlayer) : list request :=
  match batch with
  | [] => []
  | qp :: batch =>
      let spawn := default (0, 0)%Z (defaultSpawnPositions !! (i mod length defaultSpawnPositions)) in
      Add (playerID qp) (clientID qp) spawn.1 spawn.2 :: addRequests (S i) batch
  end.

(** [spawnMatch]: [send] is whether a call comes back without an error.  The response itself is not looked at. *)
Definition spawnMatch (send : request -> result string ()) (batch : list queuedPlayer) : list request * result string () :=
  match send Create with
  | Err e => ([Create], Err ("CreateObject: " +:+ e))
  | Ok _ =>
      (Create :: addRequests 0 batch ++ [StartReq],
       match send StartReq with Err e => Err ("StartMatch: " +:+ e) | Ok _ => Ok tt end)
  end.

(** [spawnIfReady] when nothing happens between its critical sections *)
Definition spawnIfReady (send : request -> result string ()) (q : MatchmakingQueue) : MatchmakingQueue * list request :=
  match takeBatch q with
  | None => (q, [])
  | Some (q, batch, seq) =>
      let '(rqs, r) := spawnMatch send batch in
      (match r with Ok _ => q | Err _ => requeueFront q batch end, rqs)
  end.

(** What a match does with a request that reaches it; [StartMatch] and [AddPlayer] answer a refusal in their response *)
Definition deliver (s : MatchState) (r : request) : MatchState :=
  match r with
  | Create => NewMatchState
  | Add id cid x y => match AddPlayer s id cid x y with Ok s => s | Err _ => s end
  | StartReq => match Start s with Ok s => s | Err _ => s end
  end.

End Queue.

Module PlayerStats.

Record Stats : Type := mkStats { PlayerId : string; TotalMatches : Z; Wins : Z; Losses : Z; LastMatchId : string }.
Record Player : Type := mkPlayer { Id : string; stats : option Stats }.

(** [OnCreated] *)
Definition OnCreated (p : Player) : Player :=
  let st := default (mkStats "" 0 0 0 "") (stats p) in
  mkPlayer (Id p) (Some (if bool_decide (PlayerId st = "") then mkStats (Id p) (TotalMatches st) (Wins st) (Losses st) (LastMatchId st) else st)).

(** [ToData], [FromData]: the message of type [PlayerData] has an optional [Stats]; [None] is a nil message, [Some None]
    one of another type *)
Definition ToData (p : Player) : option Stats := stats p.
Definition FromData (p : Player) (data : option (option (option Stats))) : result string Player :=
  match data with
  | None => Ok p
  | Some None => Err "expected *PlayerData"
  | Some (Some None) => Ok p
  | Some (Some (Some st)) => Ok (mkPlayer (Id p) (Some st))
  end.

(** [GetStats], [RecordMatchResult] *)
Definition GetStats (p : Player) : Stats := default (mkStats (Id p) 0 0 0 "") (stats p).
Definition RecordMatchResult (p : Player) (matchId : string) (w : bool) : Player * result string Stats :=
  if bool_decide (matchId = "") then (p, Err "match_id is required")
  else
    let st := default (mkStats (Id p) 0 0 0 "") (stats p) in
    let st := mkStats (PlayerId st) (int64 (TotalMatches st + 1)) (if w then int64 (Wins st + 1) else Wins st)
                (if w then Losses st else int64 (Losses st + 1)) matchId in
    (mkPlayer (Id p) (Some st), Ok st).

End PlayerStats.

(** ** Results are recorded once *)

Section Results.
Import Matches.
Context (drop : nat -> bool) (kind3 : nat -> Z) (limit : Z).

(** A life of a match object, with the results its ticks hand to [recordResults] *)
Inductive life : list playerResult -> Match -> Prop :=
| L_new id : life [] (mkMatch id NewMatchState false)
| L_add log m id cid caller x y : life log m -> life log (AddPlayer m id cid caller x y).1
| L_start log m : life log m -> life log (StartMatch m).1
| L_input log m id input : life log m -> life log (HandleInput m id input).1
| L_tick log m inputs order clients ranged m' pushed results more : life log m ->
    tickAndBroadcastOnce drop kind3 limit m inputs order clients ranged = Some (m', pushed, results, more) ->
    ranged ≡ₚ (map_to_list (Players (state m'))).*1 -> life (log ++ results) m'.

Lemma act_players s s' : Status s <> LOBBY -> act s s' -> Players s' = Players s /\ WinnerID s' = WinnerID s /\ Status s' = Status s.
Proof.
  intros Hs [id cid x y s1 Ha|s1 Ha|pid input s1 Ha].
  - unfold Match.AddPlayer in Ha. by rewrite bool_decide_eq_true_2 in Ha.
  - unfold Start in Ha. by rewrite bool_decide_eq_true_2 in Ha.
  - unfold QueueInput in Ha. repeat case_match; by simplify_eq.
Qed.

(** What a life establishes *)
Definition recorded (log : list playerResult) (m : Match) : Prop :=
  if bool_decide (Status (state m) = ENDED)
  then resultsRecorded m = true /\ exists ranged, ranged ≡ₚ (map_to_list (Players (state m))).*1 /\ log = collectMatchResults (state m) ranged
  else resultsRecorded m = false /\ log = [].

Lemma recorded_act log m s' : act (state m) s' -> recorded log m -> recorded log (mkMatch (Id m) s' (resultsRecorded m)).
Proof.
  intros Ha. unfold recorded. cbn. destruct (decide (Status (state m) = LOBBY)) as [Hl|Hl].
  - rewrite Hl, bool_decide_eq_false_2 by done. assert (Status s' <> ENDED) as Hn; [|by rewrite bool_decide_eq_false_2].
    destruct Ha as [id cid x y s1 Ha|s1 Ha|pid input s1 Ha].
    + unfold Match.AddPlayer in Ha. repeat case_match; simplify_eq. cbn. congruence.
    + unfold Start in Ha. repeat case_match; by simplify_eq.
    + unfold QueueInput in Ha. repeat case_match; simplify_eq; cbn; congruence.
  - destruct (act_players _ _ Hl Ha) as (E1 & E2 & E3). unfold collectMatchResults. by rewrite E1, E2, E3.
Qed.

Lemma life_inv log m : life log m -> match_inv limit (state m) /\ recorded log m.
Proof.
  induction 1 as [id|log m id cid caller x y _ [Hi Hr]|log m _ [Hi Hr]|log m id input _ [Hi Hr]|log m ins order cl ranged m' pushed res more _ [Hi Hr] Ht Hranged].
  - split; [apply new_match_inv|]. unfold recorded. cbn [state]. rewrite bool_decide_eq_false_2; [by split|].
    destruct new_match_fields as (_ & _ & _ & _ & _ & _ & _ & _ & E & _). rewrite E. discriminate.
  - unfold AddPlayer. destruct (Match.AddPlayer _ _ _ _ _) as [s'|] eqn:E; [|done]. apply A_add in E. split; [by eapply act_inv|by apply recorded_act].
  - unfold StartMatch. destruct (Start _) as [s'|] eqn:E; [|done]. apply A_start in E. split; [by eapply act_inv|by apply recorded_act].
  - unfold HandleInput. destruct (QueueInput _ _ _) as [s'|] eqn:E; [|done]. apply A_input in E. split; [by eapply act_inv|by apply recorded_act].
  - unfold tickAndBroadcastOnce in Ht. destruct (Status (state m)) eqn:Hst.
    + rewrite bool_decide_eq_false_2 in Ht by done. cbn in Ht. rewrite (bool_decide_eq_false_2 (Status (state m) = ENDED)) in Ht by congruence. cbn in Ht. simplify_eq. split; [done|].
      unfold recorded in *. cbn. rewrite (bool_decide_eq_false_2 (Status (state m) = ENDED)) in Hr |- * by congruence. rewrite app_nil_r, orb_false_r. done.
    + rewrite bool_decide_eq_true_2 in Ht by done. destruct (AdvanceTick_inv drop kind3 limit ins order (state m) Hi) as (s' & Hs' & Hi' & _).
      rewrite Hs' in Ht. cbn in Ht. simplify_eq. split; [done|]. unfold recorded in *. cbn. rewrite (bool_decide_eq_false_2 (Status (state m) = ENDED)) in Hr by congruence.
      destruct Hr as [Hf ->]. rewrite Hf. case_bool_decide; cbn; [|done]. split; [done|]. by exists ranged.
    + simplify_eq. split; [done|]. by rewrite app_nil_r.
Qed.

(** The results name every player once *)
Lemma results_players s ranged : match_inv limit s -> ranged ≡ₚ (map_to_list (Players s)).*1 ->
  PlayerID <$> collectMatchResults s ranged = ranged.
Proof.
  intros [[_ _ Hp _ _ _ _] _ _ _ _ _ _] Hr. assert (Forall (fun id => is_Some (Players s !! id)) ranged) as HF.
  { rewrite Hr. apply Forall_forall. intros id ([id' p] & -> & Hin)%list_elem_of_fmap. apply elem_of_map_to_list in Hin. eauto. }
  clear Hr. induction HF as [|id l [p Hid] HF IH]; [done|]. unfold collectMatchResults in *. cbn. rewrite Hid. cbn. rewrite IH.
  by destruct (Hp id p Hid) as [-> _].
Qed.

Lemma retry_attempts answer expired ds : forall i e, let '(k, r) := recordWithRetry answer expired i ds e in
  (k <= length ds)%nat /\ (r = Ok tt -> e = Ok tt \/ (0 < k)%nat).
Proof.
  induction ds as [|d ds IH]; intros i e; cbn; [split; [lia|by left]|]. destruct (_ && _); [split; [lia|done]|].
  destruct (answer i); [split; [lia|right; lia]|]. specialize (IH (S i) (Err e0)). destruct (recordWithRetry _ _ _ _ _) as [k r].
  destruct IH. split; [lia|]. right. lia.
Qed.
End Results.

(** A match records the result of every player once.  In every life of a match object, its ticks hand out
    results exactly when the match has ended: once, one for each player, and the player named the winner is
    the only one who has won; before that, and on every later tick, nothing.  All attempts for a player carry
    the same call id, at most six of them are made, and different players have different call ids, so that the
    reliable calls count every result at most once. *)
Theorem results_recorded_once (drop : nat -> bool) (kind3 : nat -> Z) (limit : Z) (log : list Matches.playerResult) (m : Matches.Match) :
  life drop kind3 limit log m ->
  if bool_decide (Status (Matches.state m) = ENDED)
  then (Matches.PlayerID <$> log) ≡ₚ (map_to_list (Players (Matches.state m))).*1 /\ NoDup (Matches.PlayerID <$> log) /\
       (forall r, r ∈ log -> Matches.Won r = bool_decide (Matches.PlayerID r = WinnerID (Matches.state m))) /\
       NoDup (Matches.callID ∘ Matches.resultCall (Matches.Id m) <$> log) /\
       (forall answers expired c, c ∈ Matches.recordResults (Matches.Id m) log answers expired -> exists r, r ∈ log /\ c = Matches.resultCall (Matches.Id m) r) /\
       (forall answers expired, (length (Matches.recordResults (Matches.Id m) log answers expired) <= 6 * length log)%nat)
  else log = [].
Proof.
  intros Hl. destruct (life_inv _ _ _ _ _ Hl) as [Hi Hr]. unfold recorded in Hr. case_bool_decide as He; [|by destruct Hr].
  destruct Hr as (_ & ranged & Hrg & ->). pose proof (results_players limit _ _ Hi Hrg) as E.
  assert (NoDup ranged) as HN by (rewrite Hrg; apply NoDup_fst_map_to_list).
  split_and!; [by rewrite E|by rewrite E| | | |].
  - intros r (id & _ & Hr)%list_elem_of_omap. apply bind_Some in Hr as (p & _ & [= <-]). done.
  - rewrite (list_fmap_ext _ (String.append ("match-" +:+ Matches.Id m +:+ "-record-") ∘ Matches.PlayerID)).
    + rewrite list_fmap_compose, E. by apply NoDup_fmap_2; [apply _|].
    + intros _ r _. cbn. by rewrite app_assoc_string.
  - intros answers expired c (r & Hc & Hr)%list_elem_of_bind. apply elem_of_replicate in Hc as [-> _]. by exists r.
  - intros answers expired. generalize (Matches.collectMatchResults (Matches.state m) ranged). intros l. unfold Matches.recordResults.
    induction l as [|r l IH]; cbn [mbind list_bind length]; [lia|]. rewrite length_app, length_replicate.
    pose proof (retry_attempts (answers (Matches.PlayerID r)) (expired (Matches.PlayerID r)) Matches.recordResultsRetryDelays 0 (Ok tt)) as Hk.
    destruct (Matches.recordWithRetry _ _ _ _ _) as [k x]. destruct Hk as [Hk _].
    change (length Matches.recordResultsRetryDelays) with 6%nat in Hk. etransitivity; [apply Nat.add_le_mono; [exact Hk|exact IH]|lia].
Qed.

(** ** The queue *)

Section Queues.
Import Queue.

Lemma position_spec l id : forall i, match position i l id with
  | Some k => exists qp, (i < k <= i + length l)%nat /\ l !! (k - i - 1)%nat = Some qp /\ playerID qp = id
  | None => id ∉ playerID <$> l
  end.
Proof.
  induction l as [|qp l IH]; intros i; cbn; [apply not_elem_of_nil|]. case_bool_decide as E.
  - exists qp. split_and!; [lia|lia| |done]. by replace (S i - i - 1)%nat with 0%nat by lia.
  - specialize (IH (S i)). destruct (position (S i) l id) as [k|].
    + destruct IH as (qp' & Hk & Hl & ?). exists qp'. split_and!; [lia|lia| |done]. replace (k - i - 1)%nat with (S (k - S i - 1)) by lia. done.
    + rewrite not_elem_of_cons. auto.
Qed.

(** Entering a list of players, from the [i]-th spawn position on *)
Lemma deliver_adds batch : forall i s, (i + length batch <= 4)%nat -> Status s = LOBBY -> size (Players s) = i ->
  (forall x y, tileAt s x y = tileAt NewMatchState x y) -> NoDup (playerID <$> batch) ->
  (forall qp, qp ∈ batch -> Players s !! playerID qp = None) ->
  let s' := fold_left deliver (addRequests i batch) s in
  Status s' = LOBBY /\ size (Players s') = (i + length batch)%nat /\ Tick s' = Tick s /\
  (forall id, id ∉ playerID <$> batch -> Players s' !! id = Players s !! id) /\
  (forall k qp, batch !! k = Some qp -> exists p, Players s' !! playerID qp = Some p /\ pID p = playerID qp /\ ClientID p = clientID qp /\
     Alive p = true /\ defaultSpawnPositions !! (i + k)%nat = Some (pX p, pY p)).
Proof.
  assert (forall i, (i < 4)%nat -> exists c, defaultSpawnPositions !! (i mod length defaultSpawnPositions)%nat = Some c /\
    defaultSpawnPositions !! i = Some c /\ tileAt NewMatchState c.1 c.2 = TileEmpty) as Hspawn.
  { intros i Hi. destruct i as [|[|[|[|]]]]; [..|lia]; (eexists; split_and!; [vm_compute; reflexivity|vm_compute; reflexivity|vm_compute; reflexivity]). }
  induction batch as [|qp batch IH]; intros i s Hi Hst Hsz Ht HN Hnew.
  { cbn [addRequests fold_left]. split_and!; [done|cbn; lia|done|done|]. intros k qp. by rewrite lookup_nil. }
  cbn [length] in Hi. destruct (Hspawn i ltac:(lia)) as (c & Hc & Hc' & Hce). cbn [fmap list_fmap] in HN.
  apply NoDup_cons in HN as [Hnotin HN].
  set (p := mkPlayer (playerID qp) (clientID qp) c.1 c.2 true DefaultBombCap DefaultBombPower DefaultSpeed 0).
  assert (deliver s (Add (playerID qp) (clientID qp) c.1 c.2) = set_players s (<[playerID qp := p]> (Players s))) as Hd.
  { cbn. unfold AddPlayer. rewrite bool_decide_eq_false_2 by (rewrite Hst; auto). rewrite (Hnew qp) by left.
    unfold MaxPlayers. destruct (Nat.leb_spec 8 (size (Players s))); [lia|]. rewrite bool_decide_eq_false_2; [done|]. rewrite Ht. by intros []. }
  assert (fold_left deliver (addRequests i (qp :: batch)) s = fold_left deliver (addRequests (S i) batch) (set_players s (<[playerID qp := p]> (Players s)))) as Hfold
    by (cbn [addRequests fold_left]; by rewrite Hc, <-Hd).
  rewrite Hfold. destruct (IH (S i) (set_players s (<[playerID qp := p]> (Players s)))) as (E1 & E2 & E3 & E4 & E5); try done.
  - lia.
  - cbn. rewrite map_size_insert_None; [lia|]. apply Hnew. left.
  - intros qp' Hqp'. cbn. rewrite lookup_insert_ne; [apply Hnew; by right|]. intros E. apply Hnotin. rewrite E. by apply list_elem_of_fmap_2.
  - split_and!; [done|cbn [length]; lia|done| |].
    + intros id Hid. cbn [fmap list_fmap] in Hid. apply not_elem_of_cons in Hid as [Hne Hid]. rewrite E4 by done. cbn. by rewrite lookup_insert_ne.
    + intros [|k] qp' Hk; cbn in Hk.
      * simplify_eq. exists p. rewrite E4 by done. cbn. rewrite lookup_insert_eq, Nat.add_0_r. split_and!; try done. rewrite Hc'. by destruct c.
      * destruct (E5 k qp' Hk) as (p' & ?). exists p'. by replace (i + S k)%nat with (S i + k)%nat by lia.
Qed.
End Queues.

(** Matchmaking starts a match with the players who waited longest.  When a queue without duplicate players
    has two players or more, the spawn takes the first of them, at most four, in order, and leaves the others in order;
    and when every call arrives, the new match is running with exactly these players, each alive with the
    client id they joined with, in the corner of their place in the batch.  When creating or starting the match
    fails, the queue is what it was, with a new match number. *)
Theorem spawned_match_starts (send : Queue.request -> result string ()) (q : Queue.MatchmakingQueue) :
  NoDup (Queue.playerID <$> Queue.queued q) -> (MinPlayersToStart <= length (Queue.queued q))%nat ->
  let '(q', rqs) := Queue.spawnIfReady send q in
  Queue.matchesSpawned q' = int64 (Queue.matchesSpawned q + 1) /\
  (is_ok (send Queue.Create) && is_ok (send Queue.StartReq) = false -> Queue.queued q' = Queue.queued q) /\
  (is_ok (send Queue.Create) && is_ok (send Queue.StartReq) = true ->
   exists batch, Queue.queued q = batch ++ Queue.queued q' /\ length batch = Nat.min 4 (length (Queue.queued q)) /\
     let s := fold_left Queue.deliver rqs NewMatchState in
     Status s = RUNNING /\ size (Players s) = length batch /\
     forall k qp, batch !! k = Some qp -> exists p, Players s !! Queue.playerID qp = Some p /\ pID p = Queue.playerID qp /\
       ClientID p = Queue.clientID qp /\ Alive p = true /\ Queue.defaultSpawnPositions !! k = Some (pX p, pY p)).
Proof.
  intros HN Hlen. unfold Queue.spawnIfReady, Queue.takeBatch. destruct (Nat.ltb_spec (length (Queue.queued q)) MinPlayersToStart); [lia|].
  set (n := if (_ <? _)%nat then _ else _).
  assert (n = Nat.min 4 (length (Queue.queued q))) as Hn by (unfold n, Queue.MatchPlayersPerSpawn; destruct (Nat.ltb_spec 4 (length (Queue.queued q))); lia).
  set (batch := take n (Queue.queued q)). assert (length batch = n) as Hb by (unfold batch; rewrite length_take; lia).
  unfold MinPlayersToStart in *.
  assert (Queue.queued (Queue.requeueFront (Queue.mkQueue (drop n (Queue.queued q)) (int64 (Queue.matchesSpawned q + 1))) batch) = Queue.queued q /\
    Queue.matchesSpawned (Queue.requeueFront (Queue.mkQueue (drop n (Queue.queued q)) (int64 (Queue.matchesSpawned q + 1))) batch) = int64 (Queue.matchesSpawned q + 1)) as [Hrq Hrm].
  { assert (batch ++ drop n (Queue.queued q) = Queue.queued q) as Htd by apply take_drop. clearbody batch.
    destruct batch; [cbn in Hb; lia|]. split; [exact Htd|done]. }
  unfold Queue.spawnMatch. destruct (send Queue.Create) as [[]|e]; cbn [is_ok andb]; [|by split_and!].
  destruct (send Queue.StartReq) as [[]|e]; cbn [is_ok]; [|by split_and!]. split_and!; [done|done|]. intros _. exists batch. cbn [Queue.queued].
  split; [symmetry; apply take_drop|]. split; [lia|]. cbn [fold_left]. change (Queue.deliver NewMatchState Queue.Create) with NewMatchState.
  rewrite fold_left_app. cbn [fold_left].
  assert (NoDup (Queue.playerID <$> batch)) as HNb.
  { rewrite <-(take_drop n (Queue.queued q)), fmap_app in HN. by apply NoDup_app in HN as [? _]. }
  destruct new_match_fields as (_ & _ & _ & E4 & _ & _ & _ & _ & E9 & _).
  destruct (deliver_adds batch 0 NewMatchState) as (D1 & D2 & _ & _ & D5).
  { lia. } { exact E9. } { rewrite E4. apply map_size_empty. } { reflexivity. } { exact HNb. } { intros qp _. rewrite E4. apply lookup_empty. }
  set (s := fold_left Queue.deliver (Queue.addRequests 0 batch) NewMatchState) in *.
  assert (Queue.deliver s Queue.StartReq = set_status s (Tick s) RUNNING (WinnerID s)) as ->.
  { cbn. unfold Start. rewrite bool_decide_eq_false_2 by (rewrite D1; auto). unfold MinPlayersToStart. rewrite D2. destruct (Nat.ltb_spec (0 + length batch) 2); [lia|done]. }
  split_and!; [done|exact D2|exact D5].
Qed.

(** ** Statistics *)

Section Statistics.
Import PlayerStats.

Definition balanced (p : Player) : Prop :=
  let st := GetStats p in (TotalMatches st = Wins st + Losses st /\ 0 <= Wins st /\ 0 <= Losses st)%Z.

Lemma record_step p mid w : balanced p -> (TotalMatches (GetStats p) + 1 < 2 ^ 63)%Z ->
  balanced (RecordMatchResult p mid w).1 /\
  TotalMatches (GetStats (RecordMatchResult p mid w).1) = (TotalMatches (GetStats p) + (if bool_decide (mid = "") then 0 else 1))%Z.
Proof.
  intros (Ht & Hw & Hl) Hlt. assert (forall z, (0 <= z < 2 ^ 63)%Z -> int64 z = z) as Hid by (intros z Hz; unfold int64, wraps; rewrite Z.mod_small; lia).
  unfold RecordMatchResult. destruct (bool_decide (mid = "")); cbn [fst]; [split; [done|lia]|]. unfold balanced, GetStats in *. cbn. destruct w; rewrite !Hid; lia.
Qed.
End Statistics.

(** The totals of a player's statistics add up and count every recorded match, as long as they do not overflow *)
Theorem stats_balanced (p : PlayerStats.Player) (results : list (string * bool)) :
  balanced p -> Forall (fun r => r.1 <> "") results ->
  (PlayerStats.TotalMatches (PlayerStats.GetStats p) + Z.of_nat (length results) < 2 ^ 63)%Z ->
  let p' := fold_left (fun p r => fst (PlayerStats.RecordMatchResult p r.1 r.2)) results p in
  balanced p' /\
  PlayerStats.TotalMatches (PlayerStats.GetStats p') = (PlayerStats.TotalMatches (PlayerStats.GetStats p) + Z.of_nat (length results))%Z.
Proof.
  cbv zeta. intros Hb HF. revert p Hb. induction HF as [|[mid w] results Hm HF IH]; intros p Hb Hlt; cbn [fold_left fst snd length] in *; [split; [done|lia]|].
  destruct (record_step p mid w Hb ltac:(lia)) as [Hb1 E1]. rewrite bool_decide_eq_false_2 in E1 by done.
  destruct (IH _ Hb1) as [H1 H2]; [lia|]. split; [done|]. lia.
Qed.

(** ** Witnesses *)

Module MatchmakingRuns.
Import Matches.
Definition m0 : Match := mkMatch "M" NewMatchState false.
Definition m1 : Match := (AddPlayer m0 "a" "c1" "" 1 1).1.
Definition m2 : Match := (AddPlayer m1 "b" "c2" "" 11 9).1.
Definition m3 : Match := (StartMatch m2).1.
Definition t3 : option (Match * list string * list playerResult * bool) :=
  tickAndBroadcastOnce MatchRuns.never MatchRuns.zero 1 m3 [] (fun _ => ["a"; "b"]) ["a"; "b"] ["a"; "b"].
Definition m4 : Match := match t3 with Some (m, _, _, _) => m | None => m3 end.
Definition q3 : Queue.MatchmakingQueue := Queue.mkQueue [Queue.mkQueued "a" "c1"; Queue.mkQueued "b" "c2"] 0.
Definition up (_ : Queue.request) : result string () := Ok tt.
(** The calls of [AddPlayer] do not arrive *)
Definition noAdds (r : Queue.request) : result string () := match r with Queue.Add _ _ _ _ => Err "unavailable" | _ => Ok tt end.
End MatchmakingRuns.

Lemma results_recorded_once_witness :
  (Matches.PlayerID <$> [Matches.mkResult "a" false; Matches.mkResult "b" false]) ≡ₚ (map_to_list (Players (Matches.state MatchmakingRuns.m4))).*1.
Proof.
  assert (life MatchRuns.never MatchRuns.zero 1 ([] ++ [Matches.mkResult "a" false; Matches.mkResult "b" false]) MatchmakingRuns.m4) as Hl.
  { eapply (L_tick _ _ _ _ MatchmakingRuns.m3 [] (fun _ => ["a"; "b"]) ["a"; "b"] ["a"; "b"] MatchmakingRuns.m4 ["c1"; "c2"] _ false).
    - apply L_start, L_add, L_add, L_new.
    - vm_compute. reflexivity.
    - assert ((map_to_list (Players (Matches.state MatchmakingRuns.m4))).*1 = ["a"; "b"] \/ (map_to_list (Players (Matches.state MatchmakingRuns.m4))).*1 = ["b"; "a"])
        as [->| ->] by (vm_compute; auto); [reflexivity|apply perm_swap]. }
  pose proof (results_recorded_once MatchRuns.never MatchRuns.zero 1 _ _ Hl) as Hr.
  assert (bool_decide (Status (Matches.state MatchmakingRuns.m4) = ENDED) = true) as E by (vm_compute; reflexivity). rewrite E in Hr. exact (proj1 Hr).
Defined.

Lemma spawned_match_starts_witness :
  Queue.queued (Queue.spawnIfReady MatchmakingRuns.up MatchmakingRuns.q3).1 = [] /\
  Status (fold_left Queue.deliver (Queue.spawnIfReady MatchmakingRuns.up MatchmakingRuns.q3).2 NewMatchState) = RUNNING.
Proof.
  pose proof (spawned_match_starts MatchmakingRuns.up MatchmakingRuns.q3) as Hs.
  destruct (Queue.spawnIfReady MatchmakingRuns.up MatchmakingRuns.q3) as [q' rqs] eqn:E. cbn [fst snd]. destruct Hs as (_ & _ & Hs).
  - repeat constructor; cbn; set_solver.
  - cbn. unfold MinPlayersToStart. lia.
  - destruct (Hs eq_refl) as (batch & Eq & Hlen & Hst & _). split; [|exact Hst]. cbn in Eq, Hlen.
    destruct batch as [|x [|y [|z batch]]]; cbn in Hlen; try lia. cbn in Eq. by injection Eq as _ _ <-.
Defined.

(** ** What goes wrong *)

(** [spawnMatch] looks at the error of a call and not at its response.  When the calls of [AddPlayer] fail,
    [StartMatch] answers that there are too few players, which is not an error: the match stays in its
    lobby, the spawn counts as a success, and the players are no longer in the queue. *)
Theorem refused_start_drops_players :
  let '(q', rqs) := Queue.spawnIfReady MatchmakingRuns.noAdds MatchmakingRuns.q3 in
  Queue.queued q' = [] /\
  Status (fold_left Queue.deliver (filter (fun r => is_ok (MatchmakingRuns.noAdds r)) rqs) NewMatchState) = LOBBY.
Proof. vm_compute. by split. Qed.

(** A player who joins again while their batch is being spawned is queued twice when the spawn fails. *)
Theorem rejoin_during_spawn_duplicates :
  match Queue.takeBatch MatchmakingRuns.q3 with
  | Some (q, batch, _) => Queue.playerID <$> Queue.queued (Queue.requeueFront (Queue.JoinQueue q "a" "c1" "").1 batch) = ["a"; "b"; "a"]
  | None => False
  end.
Proof. vm_compute. reflexivity. Qed.

(** The number of a match is not persistent.  A queue object that is activated again numbers its matches from
    one, so that the first match of each activation has the same id, and the results of its players have
    the call ids of results that were recorded before: the reliable calls take them for retries. *)
Theorem restarted_queue_repeats_call_ids (client client' : string) (r : Matches.playerResult) :
  let first (c : string) := let q := (Queue.JoinQueue (Queue.JoinQueue Queue.OnCreated "a" c "").1 "b" c "").1 in
    match Queue.takeBatch q with Some (_, _, seq) => Queue.matchID "MatchmakingQueue" seq | None => "" end in
  first client = first client' /\ Matches.callID (Matches.resultCall (first client) r) = Matches.callID (Matches.resultCall (first client') r) /\
  first client = "Match-MatchmakingQueue-1".
Proof. split_and!; reflexivity. Qed.
