(* ===== verification/TicTacToe.v ===== *)
(** * The tic-tac-toe sample (samples/tictactoe/server/tictactoe.go)

    [Module Game]: one game and the machine player.  [Module Service]: the object that keeps the games of all clients,
    with its requests, its cleanup and its persistence through a [structpb.Struct].  The random number of
    [rand.Intn(100)] and the clock are arguments. *)

From S2P Require Import Prelude GoFloat.
Import Float64.

Module Game.

Definition dumbAIMoveProbability : Z := 10.
Definition maxGameAge : Z := 600000000000.

Record TicTacToeGame : Type := mkGame
  { gameID : string; board : list string; status : string; moves : Z; lastAIMove : Z; createdAt : Z }.

Definition emptyBoard : list string := replicate 9 "".
Definition at_ (b : list string) (i : nat) : string := nth i b "".

(** [newGame], [reset] *)
Definition newGame (id : string) (now : Z) : TicTacToeGame := mkGame id emptyBoard "playing" 0 (-1) now.
Definition reset (now : Z) (g : TicTacToeGame) : TicTacToeGame := mkGame (gameID g) emptyBoard "playing" 0 (-1) now.

Record GameState : Type := mkState { GameId : string; Board : list string; Status : string; Winner : string; LastAiMove : Z }.

(** [getGameState] *)
Definition getGameState (g : TicTacToeGame) : GameState :=
  mkState (gameID g) (board g) (status g)
    (if bool_decide (status g = "x_wins") then "X" else if bool_decide (status g = "o_wins") then "O" else "") (lastAIMove g).

Definition winPatterns : list (nat * nat * nat) :=
  [(0, 1, 2); (3, 4, 5); (6, 7, 8); (0, 3, 6); (1, 4, 7); (2, 5, 8); (0, 4, 8); (2, 4, 6)].

Definition setStatus (st : string) (g : TicTacToeGame) : TicTacToeGame :=
  mkGame (gameID g) (board g) st (moves g) (lastAIMove g) (createdAt g).

(** [updateStatus] *)
Definition updateStatus (g : TicTacToeGame) : TicTacToeGame :=
  match list_find (fun '(a, b, c) => at_ (board g) a <> "" /\ at_ (board g) a = at_ (board g) b /\ at_ (board g) b = at_ (board g) c) winPatterns with
  | Some (_, (a, _, _)) => setStatus (if bool_decide (at_ (board g) a = "X") then "x_wins" else "o_wins") g
  | None => if (9 <=? moves g)%Z then setStatus "draw" g else g
  end.

(** [findRandomMove]; [now] is the clock in nanoseconds *)
Definition emptyPositions (b : list string) : list nat := filter (fun i => at_ b i = "") (seq 0 9).
Definition findRandomMove (now : N) (b : list string) : Z :=
  match emptyPositions b with
  | [] => -1
  | l => Z.of_nat (nth (N.to_nat (now `mod` N.of_nat (length l))) l 0)
  end.

(** [findWinningMove]: per pattern, the count of the player's marks and the last empty position *)
Definition lineCount (player : string) (b : list string) (l : list nat) : nat * Z :=
  fold_left (fun '(n, e) i => if bool_decide (at_ b i = player) then (S n, e)
                              else if bool_decide (at_ b i = "") then (n, Z.of_nat i) else (n, e)) l (0, (-1)%Z).
Definition winningIn (player : string) (b : list string) (p : nat * nat * nat) : option Z :=
  let '(x, y, z) := p in
  let '(n, e) := lineCount player b [x; y; z] in
  if bool_decide (n = 2) && (0 <=? e)%Z then Some e else None.
Definition findWinningMove (player : string) (b : list string) : Z := default (-1)%Z (head (omap (winningIn player b) winPatterns)).

Definition firstEmpty (b : list string) (l : list nat) : option nat := head (filter (fun i => at_ b i = "") l).

(** [findAIMove]; [roll] is [rand.Intn(100)] *)
Definition findAIMove (roll : Z) (now : N) (b : list string) : Z :=
  if (roll <? dumbAIMoveProbability)%Z then findRandomMove now b
  else if (0 <=? findWinningMove "O" b)%Z then findWinningMove "O" b
  else if (0 <=? findWinningMove "X" b)%Z then findWinningMove "X" b
  else if bool_decide (at_ b 4 = "") then 4
  else match firstEmpty b [0; 2; 6; 8] with
  | Some i => Z.of_nat i
  | None => match firstEmpty b [1; 3; 5; 7] with Some i => Z.of_nat i | None => -1 end
  end.

(** The part of [MakeMove] on the game itself *)
Definition playX (position : nat) (g : TicTacToeGame) : TicTacToeGame :=
  updateStatus (mkGame (gameID g) (<[position := "X"]> (board g)) (status g) (moves g + 1) (-1) (createdAt g)).
Definition playO (move : Z) (g : TicTacToeGame) : TicTacToeGame :=
  updateStatus (if (0 <=? move)%Z then mkGame (gameID g) (<[Z.to_nat move := "O"]> (board g)) (status g) (moves g + 1) move (createdAt g) else g).
Definition makeMove (roll : Z) (now : N) (position : Z) (g : TicTacToeGame) : TicTacToeGame :=
  if bool_decide (status g <> "playing") then g
  else if ((position <? 0) || (8 <? position))%Z then g
  else if bool_decide (at_ (board g) (Z.to_nat position) <> "") then g
  else
    let g := playX (Z.to_nat position) g in
    if bool_decide (status g <> "playing") then g else playO (findAIMove roll now (board g)) g.

End Game.

Module Service.
Import Game.

(** [games] and [stopCh] are nil before [OnCreated]; [Some true] is a closed channel *)
Record TicTacToeService : Type := mkService { Id : string; Type_ : string; games : option (gmap string TicTacToeGame); stopCh : option bool }.

(** [OnCreated] with [startCleanupRoutine]: from here on the cleanup runs at each tick of its timer *)
Definition OnCreated (s : TicTacToeService) : TicTacToeService :=
  mkService (Id s) (Type_ s) (Some (default ∅ (games s))) (Some false).

(** [StopCleanup]; [None] is the panic of closing a nil channel *)
Definition StopCleanup (s : TicTacToeService) : option TicTacToeService :=
  match stopCh s with
  | None => None
  | Some _ => Some (mkService (Id s) (Type_ s) (games s) (Some true))
  end.

Definition withGames (s : TicTacToeService) (gs : gmap string TicTacToeGame) : TicTacToeService :=
  mkService (Id s) (Type_ s) (Some gs) (stopCh s).

(** [cleanupGames]; [Time.Sub] saturates at the bounds of a duration *)
Definition timeSub (a b : Z) : Z := Z.max (- 2 ^ 63) (Z.min (2 ^ 63 - 1) (a - b)).
Definition removable (now : Z) (g : TicTacToeGame) : bool :=
  bool_decide (status g <> "playing") || (maxGameAge <? timeSub now (createdAt g))%Z.
Definition cleanupGames (now : Z) (s : TicTacToeService) : TicTacToeService :=
  match games s with
  | None => s
  | Some gs => withGames s (filter (fun kv => removable now kv.2 = false) gs)
  end.

(** [getOrCreateGame]; [None] is the write to a nil map *)
Definition getOrCreateGame (now : Z) (id : string) (s : TicTacToeService) : option (TicTacToeGame * TicTacToeService) :=
  match default ∅ (games s) !! id with
  | Some g => Some (g, s)
  | None => gs ← games s; let g := newGame id now in Some (g, withGames s (<[id := g]> gs))
  end.

Definition orDefaultID (id : string) : string := if bool_decide (id = "") then "default" else id.

(** A request: find or create the game, change it in place, answer its state *)
Definition request (change : TicTacToeGame -> TicTacToeGame) (now : Z) (id : string) (s : TicTacToeService)
    : option (GameState * TicTacToeService) :=
  let id := orDefaultID id in
  '(g, s) ← getOrCreateGame now id s;
  let g := change g in
  Some (getGameState g, withGames s (<[id := g]> (default ∅ (games s)))).
Definition NewGame (now : Z) : string -> TicTacToeService -> option (GameState * TicTacToeService) := request (reset now) now.
Definition MakeMove (now : Z) (roll : Z) (position : Z) : string -> TicTacToeService -> option (GameState * TicTacToeService) :=
  request (makeMove roll (Z.to_N now) position) now.
Definition GetState (now : Z) : string -> TicTacToeService -> option (GameState * TicTacToeService) := request (fun g => g) now.

(** The values of [structpb]; its accessors answer the zero value on another kind *)
Inductive Value : Type :=
| NullValue | NumberValue (f : float64) | StringValue (s : string) | BoolValue (b : bool)
| StructValue (fields : gmap string Value) | ListValue (values : list Value).

Definition GetStringValue (v : Value) : string := match v with StringValue s => s | _ => "" end.
Definition GetNumberValue (v : Value) : float64 := match v with NumberValue f => f | _ => f0 end.
Definition GetStructValue (v : Value) : option (gmap string Value) := match v with StructValue m => Some m | _ => None end.
Definition GetListValue (v : Value) : option (list Value) := match v with ListValue l => Some l | _ => None end.

(** Conversion of a [float64] to [int32]; out of range the amd64 value *)
Definition to_int32 (x : float64) : Z := let z := to_int64 x in if bool_decide (int32 z = z) then z else (- 2 ^ 31)%Z.

Section Strings.
(** The strings [structpb] accepts (those in UTF-8) *)
Context (valid : string -> bool).

(** [ToData]: [structpb.NewStruct] refuses other keys and strings *)
Definition gameData (g : TicTacToeGame) : gmap string Value :=
  list_to_map [("gameID", StringValue (gameID g)); ("board", ListValue (StringValue <$> board g)); ("status", StringValue (status g));
               ("moves", NumberValue (of_int (moves g))); ("lastAIMove", NumberValue (of_int (lastAIMove g)));
               ("createdAt", NumberValue (of_int (int64 (createdAt g))))].
Definition validGame (key : string) (g : TicTacToeGame) : bool :=
  valid key && valid (gameID g) && forallb valid (board g) && valid (status g).
Definition fieldNames : list string := ["id"; "type"; "games"; "gameID"; "board"; "status"; "moves"; "lastAIMove"; "createdAt"].
Definition ToData (s : TicTacToeService) : option (gmap string Value) :=
  let gs := default ∅ (games s) in
  if valid (Id s) && valid (Type_ s) && forallb valid fieldNames && forallb (fun kv => validGame kv.1 kv.2) (map_to_list gs)
  then Some (list_to_map [("id", StringValue (Id s)); ("type", StringValue (Type_ s));
                          ("games", StructValue ((fun g => StructValue (gameData g)) <$> gs))])
  else None.
End Strings.

(** The loop over the stored cells: those beyond the ninth are skipped *)
Definition restoreBoard (cells : list Value) : list string :=
  let l := take 9 (GetStringValue <$> cells) in l ++ replicate (9 - length l) "".
Definition field {A} (fields : gmap string Value) (name : string) (d : A) (f : Value -> A) : A :=
  match fields !! name with Some v => f v | None => d end.
Definition restoreGame (now : Z) (key : string) (fields : gmap string Value) : TicTacToeGame :=
  mkGame (field fields "gameID" key GetStringValue)
    (field fields "board" emptyBoard (fun v => match GetListValue v with Some l => restoreBoard l | None => emptyBoard end))
    (field fields "status" "playing" GetStringValue)
    (field fields "moves" 0%Z (fun v => to_int64 (GetNumberValue v)))
    (field fields "lastAIMove" (-1)%Z (fun v => to_int32 (GetNumberValue v)))
    (field fields "createdAt" now (fun v => to_int64 (GetNumberValue v))).

(** [FromData]: [None] is a nil message, [Some None] a message that is not a struct; it never fails *)
Definition FromData (now : Z) (data : option (option (gmap string Value))) (s : TicTacToeService) : TicTacToeService :=
  match data with
  | None | Some None => s
  | Some (Some fields) =>
      let gs := default ∅ (games s) in
      match fields !! "games" ≫= GetStructValue with
      | None => withGames s gs
      | Some stored => withGames s (map_imap (fun key v => restoreGame now key <$> GetStructValue v) stored ∪ gs)
      end
  end.

End Service.

(** ** The rules of the game *)

Import Game Service.

Definition marks (p : string) (b : list string) : nat := length (filter (fun c => c = p) b).
Definition threeOf (p : string) (b : list string) (l : nat * nat * nat) : Prop :=
  let '(x, y, z) := l in at_ b x = p /\ at_ b y = p /\ at_ b z = p.
Definition line (p : string) (b : list string) : Prop := exists l, l ∈ winPatterns /\ threeOf p b l.
Definition wf_board (b : list string) : Prop := length b = 9 /\ Forall (fun c => c = "" \/ c = "X" \/ c = "O") b.

(** What the rules say of a board when it is not O's turn *)
Inductive outcome (b : list string) : string -> Prop :=
| x_wins : line "X" b -> ~ line "O" b -> marks "X" b = S (marks "O" b) -> outcome b "x_wins"
| o_wins : line "O" b -> ~ line "X" b -> marks "X" b = marks "O" b -> outcome b "o_wins"
| draw : ~ line "X" b -> ~ line "O" b -> marks "X" b = 5 -> marks "O" b = 4 -> outcome b "draw"
| playing : ~ line "X" b -> ~ line "O" b -> marks "X" b = marks "O" b -> marks "X" b <= 4 -> outcome b "playing".

Definition fair (g : TicTacToeGame) : Prop :=
  wf_board (board g) /\ outcome (board g) (status g) /\
  moves g = Z.of_nat (marks "X" (board g) + marks "O" (board g)) /\
  (lastAIMove g = (-1)%Z \/ (0 <= lastAIMove g < 9)%Z /\ at_ (board g) (Z.to_nat (lastAIMove g)) = "O").

Lemma at_insert b i j c : i < length b -> at_ (<[i := c]> b) j = if decide (i = j) then c else at_ b j.
Proof.
  intros Hi. unfold at_. rewrite !nth_lookup. case_decide as E; [subst; by rewrite list_lookup_insert_eq|by rewrite list_lookup_insert_ne].
Qed.

(** A mark of the other player makes no line *)
Lemma line_insert_other b i p q : at_ b i = "" -> i < length b -> p <> q -> line p (<[i := q]> b) -> line p b.
Proof.
  intros Hi Hl Hpq ([[x y] z] & Hin & Hx & Hy & Hz). exists (x, y, z). split; [done|].
  rewrite at_insert in Hx, Hy, Hz by done. repeat case_decide; by simplify_eq.
Qed.

Lemma marks_insert b i p q : at_ b i = "" -> i < length b -> p <> "" -> marks p (<[i := q]> b) = marks p b + (if decide (p = q) then 1 else 0).
Proof.
  unfold marks, at_. revert i. induction b as [|c b IH]; intros [|i] Hi Hl Hp; simpl in *; try lia.
  - subst c. rewrite !filter_cons. repeat case_decide; subst; try done; simpl; lia.
  - rewrite !filter_cons. specialize (IH i Hi ltac:(lia) Hp). destruct (decide (c = p)); simpl; rewrite IH; lia.
Qed.

Lemma marks_total b : Forall (fun c => c = "" \/ c = "X" \/ c = "O") b -> marks "" b + marks "X" b + marks "O" b = length b.
Proof.
  unfold marks. induction 1 as [|c b Hc _ IH]; [done|]. rewrite !filter_cons.
  destruct Hc as [->|[->| ->]]; simpl; lia.
Qed.

Lemma wf_insert b i q : wf_board b -> q = "X" \/ q = "O" -> wf_board (<[i := q]> b).
Proof. intros [Hl Hf] Hq. split; [by rewrite length_insert|]. apply Forall_insert; naive_solver. Qed.

(** [updateStatus] follows the rules *)
Lemma updateStatus_spec g : exists st, updateStatus g = setStatus st g /\
  ((exists p, p <> "" /\ line p (board g) /\ st = if decide (p = "X") then "x_wins" else "o_wins") \/
   (forall p, p <> "" -> ~ line p (board g)) /\ st = if (9 <=? moves g)%Z then "draw" else status g).
Proof.
  unfold updateStatus. destruct (list_find _ _) as [[k [[x y] z]]|] eqn:E.
  - apply list_find_Some in E as (Hk & (Hne & Hxy & Hyz) & _). eexists. split; [done|]. left. exists (at_ (board g) x).
    split; [done|]. split; [exists (x, y, z); split; [by eapply list_elem_of_lookup_2|simpl; split; [done|split; congruence]]|].
    case_bool_decide; by case_decide.
  - apply list_find_None in E. assert (Hno : forall p, p <> "" -> ~ line p (board g)).
    { intros p Hp ([[x y] z] & Hin & Hx & Hy & Hz). rewrite Forall_forall in E. apply (E _ Hin). repeat split; congruence. }
    destruct (9 <=? moves g)%Z eqn:Hm.
    + exists "draw". split; [done|]. right. split; [done|done].
    + exists (status g). split; [by destruct g|]. by right.
Qed.

(** ** The machine player *)

Lemma emptyPositions_spec b i : i ∈ emptyPositions b <-> i < 9 /\ at_ b i = "".
Proof. unfold emptyPositions. rewrite list_elem_of_filter, elem_of_seq. intuition lia. Qed.

Lemma firstEmpty_Some b l i : firstEmpty b l = Some i -> i ∈ l /\ at_ b i = "".
Proof.
  unfold firstEmpty. intros Hh. apply head_Some_elem_of, list_elem_of_filter in Hh. tauto.
Qed.
Lemma firstEmpty_None b l : firstEmpty b l = None -> forall i, i ∈ l -> at_ b i <> "".
Proof.
  unfold firstEmpty. intros Hh%head_None i Hi He.
  assert (i ∈ filter (fun i => at_ b i = "") l) as Hin by (by apply list_elem_of_filter). rewrite Hh in Hin. by apply elem_of_nil in Hin.
Qed.

Lemma pattern_cells x y z : (x, y, z) ∈ winPatterns -> x < 9 /\ y < 9 /\ z < 9 /\ x <> y /\ y <> z /\ x <> z.
Proof. unfold winPatterns. intros Hl. repeat (apply elem_of_cons in Hl as [[= -> -> ->]|Hl]; [lia|]). by apply elem_of_nil in Hl. Qed.

(** A winning move fills the third cell of a pattern *)
Lemma winningIn_Some p b l e : p <> "" -> l ∈ winPatterns -> winningIn p b l = Some e ->
  exists i, e = Z.of_nat i /\ i < 9 /\ at_ b i = "" /\ (length b = 9 -> threeOf p (<[i := p]> b) l).
Proof.
  intros Hp Hl. destruct l as [[x y] z]. destruct (pattern_cells _ _ _ Hl) as (Hx & Hy & Hz & Hxy & Hyz & Hxz). unfold winningIn, lineCount. simpl.
  repeat (case_bool_decide; simplify_eq/=); try (rewrite ?andb_false_r; done).
  all: destruct (0 <=? _)%Z eqn:E; [|done]; intros [= <-]; eexists; split; [done|]; repeat split; try done.
  all: rewrite at_insert by lia; case_decide; done.
Qed.

Lemma findWinningMove_sound p b : p <> "" -> length b = 9 -> (0 <= findWinningMove p b)%Z ->
  exists i, findWinningMove p b = Z.of_nat i /\ i < 9 /\ at_ b i = "" /\ line p (<[i := p]> b).
Proof.
  intros Hp Hb. unfold findWinningMove. destruct (head _) as [e|] eqn:E; [|simpl; lia]. intros _.
  apply head_Some_elem_of, list_elem_of_omap in E as (l & Hl & Hw).
  destruct (winningIn_Some _ _ _ _ Hp Hl Hw) as (i & -> & ? & ? & Ht). exists i. repeat split; try done. exists l. auto.
Qed.

Lemma winningIn_complete p b i x y z : p <> "" -> length b = 9 -> i < 9 -> at_ b i = "" ->
  (x, y, z) ∈ winPatterns -> threeOf p (<[i := p]> b) (x, y, z) -> ~ threeOf p b (x, y, z) -> is_Some (winningIn p b (x, y, z)).
Proof.
  intros Hp Hb Hi He Hl (Hx & Hy & Hz) Hnot. destruct (pattern_cells _ _ _ Hl) as (? & ? & ? & ? & ? & ?).
  rewrite at_insert in Hx, Hy, Hz by lia.
  destruct (decide (i = x)); [subst|destruct (decide (i = y)); [subst|destruct (decide (i = z)); [subst|by destruct Hnot]]].
  all: unfold winningIn, lineCount; simpl; rewrite ?decide_False in * by congruence.
  all: repeat (case_bool_decide; simplify_eq/=; try congruence).
  all: rewrite (proj2 (Z.leb_le _ _)) by lia; eauto.
Qed.

Lemma findWinningMove_complete p b i : p <> "" -> length b = 9 -> i < 9 -> at_ b i = "" ->
  line p (<[i := p]> b) -> ~ line p b -> (0 <= findWinningMove p b)%Z.
Proof.
  intros Hp Hb Hi He ([[x y] z] & Hl & Ht) Hno.
  destruct (winningIn_complete p b i x y z) as [e Hw]; try done. { intros Ht'. apply Hno. exists (x, y, z). done. }
  unfold findWinningMove. destruct (head _) as [e'|] eqn:E; simpl.
  - apply head_Some_elem_of, list_elem_of_omap in E as (l & Hl' & Hw').
    destruct (winningIn_Some _ _ _ _ Hp Hl' Hw') as (j & -> & _). lia.
  - apply head_None in E. assert (Hin : e ∈ omap (winningIn p b) winPatterns) by (apply list_elem_of_omap; eauto).
    rewrite E in Hin. by apply elem_of_nil in Hin.
Qed.

Lemma findRandomMove_spec now b : (exists j, j < 9 /\ at_ b j = "") ->
  exists i, findRandomMove now b = Z.of_nat i /\ i < 9 /\ at_ b i = "".
Proof.
  intros (j & Hj & He). unfold findRandomMove. destruct (emptyPositions b) as [|k l] eqn:E.
  { assert (Hin : j ∈ emptyPositions b) by (by apply emptyPositions_spec). rewrite E in Hin. by apply elem_of_nil in Hin. }
  eexists. split; [done|]. apply emptyPositions_spec. rewrite E.
  set (n := N.to_nat _). assert (Hn : n < length (k :: l)).
  { subst n. pose proof (N.mod_lt now (N.of_nat (length (k :: l)))). simpl in *. lia. }
  apply list_elem_of_In, nth_In. done.
Qed.

(** Cell [i] takes a win O has, and otherwise blocks a win of X *)
Definition wins (p : string) (b : list string) (i : nat) : Prop := i < 9 /\ at_ b i = "" /\ line p (<[i := p]> b).
Definition strategic (b : list string) (i : nat) : Prop :=
  ((exists j, wins "O" b j) -> wins "O" b i) /\ ((exists j, wins "X" b j) -> wins "O" b i \/ wins "X" b i).

Lemma findAIMove_spec roll now b : length b = 9 -> (exists j, j < 9 /\ at_ b j = "") -> ~ line "O" b -> ~ line "X" b ->
  exists i, findAIMove roll now b = Z.of_nat i /\ i < 9 /\ at_ b i = "" /\ ((dumbAIMoveProbability <= roll)%Z -> strategic b i).
Proof.
  intros Hb Hex HnO HnX. unfold findAIMove. destruct (roll <? _)%Z eqn:Hr.
  { destruct (findRandomMove_spec now b Hex) as (i & ? & ? & ?). exists i. split; [done|]. split; [done|]. split; [done|]. breflect. lia. }
  destruct (0 <=? findWinningMove "O" b)%Z eqn:HO.
  { breflect. destruct (findWinningMove_sound "O" b) as (i & ? & ? & ? & ?); [done..|]. exists i. unfold strategic, wins. eauto 10. }
  assert (Hlose : ~ exists j, wins "O" b j).
  { intros (j & ? & ? & ?). breflect. assert (0 <= findWinningMove "O" b)%Z by (by apply (findWinningMove_complete "O" b j)). lia. }
  destruct (0 <=? findWinningMove "X" b)%Z eqn:HX.
  { breflect. destruct (findWinningMove_sound "X" b) as (i & ? & ? & ? & ?); [done..|]. exists i. unfold strategic, wins in *. naive_solver. }
  assert (Hsafe : ~ exists j, wins "X" b j).
  { intros (j & ? & ? & ?). breflect. assert (0 <= findWinningMove "X" b)%Z by (by apply (findWinningMove_complete "X" b j)). lia. }
  assert (Hrest : forall i, i < 9 -> at_ b i = "" -> exists i', Z.of_nat i = Z.of_nat i' /\ i' < 9 /\ at_ b i' = "" /\
    ((dumbAIMoveProbability <= roll)%Z -> strategic b i')) by (unfold strategic; intros i; exists i; naive_solver).
  case_bool_decide as H4; [by apply (Hrest 4); [lia|]|].
  destruct (firstEmpty b [0; 2; 6; 8]) as [i|] eqn:E1.
  { apply firstEmpty_Some in E1 as [Hi He]. apply Hrest; [|done]. set_unfold in Hi. lia. }
  destruct (firstEmpty b [1; 3; 5; 7]) as [i|] eqn:E2.
  { apply firstEmpty_Some in E2 as [Hi He]. apply Hrest; [|done]. set_unfold in Hi. lia. }
  exfalso. destruct Hex as (j & Hj & He).
  pose proof (firstEmpty_None _ _ E1 j) as H1. pose proof (firstEmpty_None _ _ E2 j) as H2. set_unfold in H1. set_unfold in H2.
  do 9 (destruct j as [|j]; [naive_solver|]). lia.
Qed.

(** ** Moves *)

(** A game after the move of X that goes on *)
Definition oTurn (g : TicTacToeGame) : Prop :=
  wf_board (board g) /\ status g = "playing" /\ ~ line "X" (board g) /\ ~ line "O" (board g) /\
  marks "X" (board g) = S (marks "O" (board g)) /\ marks "X" (board g) <= 4 /\
  moves g = Z.of_nat (marks "X" (board g) + marks "O" (board g)).

Lemma marks_bound b : wf_board b -> marks "X" b + marks "O" b <= 9.
Proof. intros [Hl Hf]. pose proof (marks_total b Hf). lia. Qed.

Lemma outcome_playing b : outcome b "playing" -> ~ line "X" b /\ ~ line "O" b /\ marks "X" b = marks "O" b /\ marks "X" b <= 4.
Proof. by inversion 1. Qed.

Lemma line_mark b p : wf_board b -> p <> "" -> line p b -> p = "X" \/ p = "O".
Proof.
  intros [_ Hf] Hp ([[x y] z] & _ & Hx & _). unfold at_ in Hx. destruct (nth_in_or_default x b "") as [Hc|Hc]; [|congruence].
  rewrite Forall_forall in Hf. apply list_elem_of_In, Hf in Hc. rewrite Hx in Hc. naive_solver.
Qed.

Lemma empty_exists b : wf_board b -> marks "X" b + marks "O" b < 9 -> exists j, j < 9 /\ at_ b j = "".
Proof.
  intros [Hl Hf] Hm. pose proof (marks_total b Hf) as Ht.
  assert (Hin : exists c, c ∈ filter (fun c => c = "") b).
  { unfold marks in Ht at 1. destruct (filter (fun c => c = "") b) as [|c l]; [simpl in Ht; lia|]. exists c. by left. }
  destruct Hin as [c [-> Hc]%list_elem_of_filter]. apply list_elem_of_lookup in Hc as [j Hj]. exists j.
  split; [apply lookup_lt_Some in Hj; lia|]. unfold at_. by rewrite nth_lookup, Hj.
Qed.

Lemma playX_spec i g : fair g -> status g = "playing" -> i < 9 -> at_ (board g) i = "" ->
  board (playX i g) = <[i := "X"]> (board g) /\ gameID (playX i g) = gameID g /\ createdAt (playX i g) = createdAt g /\
  (status (playX i g) <> "playing" /\ fair (playX i g) \/ oTurn (playX i g)).
Proof.
  intros (Hwf & Hout & Hm & _) Hst Hi He. rewrite Hst in Hout. destruct (outcome_playing _ Hout) as (HnX & HnO & Heq & Hle).
  unfold playX. set (g1 := mkGame _ _ _ _ _ _). destruct (updateStatus_spec g1) as (st & -> & Hcase).
  assert (Hl : i < length (board g)) by (destruct Hwf; lia).
  assert (Hwf1 : wf_board (<[i := "X"]> (board g))) by (apply wf_insert; auto).
  assert (HX : marks "X" (<[i := "X"]> (board g)) = S (marks "X" (board g))) by (rewrite marks_insert by done; simpl; lia).
  assert (HO : marks "O" (<[i := "X"]> (board g)) = marks "O" (board g)) by (rewrite marks_insert by done; simpl; lia).
  assert (HnO1 : ~ line "O" (<[i := "X"]> (board g))) by (intros HlO; by apply HnO, (line_insert_other _ i _ "X")).
  pose proof (marks_bound _ Hwf1). simpl. split_and!; try done. destruct Hcase as [(p & Hp & Hline & ->)|[Hno ->]].
  - left. simpl in Hline. destruct (line_mark _ p Hwf1 Hp Hline) as [->| ->]; [|done].
    rewrite decide_True by done. split; [done|]. split; [done|]. split; [simpl; apply x_wins; try done; lia|]. split; [simpl; lia|by left].
  - simpl. destruct (9 <=? moves g + 1)%Z eqn:E; breflect.
    + left. split; [done|]. split; [done|]. split; [|split; [simpl; lia|by left]].
      simpl. apply draw; [apply (Hno "X"); done|done|lia|lia].
    + right. split; [done|]. split; [done|]. split; [apply (Hno "X"); done|]. split; [done|]. simpl. lia.
Qed.

Lemma playO_spec j g : oTurn g -> j < 9 -> at_ (board g) j = "" ->
  let g' := playO (Z.of_nat j) g in
  board g' = <[j := "O"]> (board g) /\ gameID g' = gameID g /\ createdAt g' = createdAt g /\ lastAIMove g' = Z.of_nat j /\ fair g'.
Proof.
  intros (Hwf & Hst & HnX & HnO & Heq & Hle & Hm) Hj He. unfold playO. rewrite (proj2 (Z.leb_le _ _)), Nat2Z.id by lia.
  set (g1 := mkGame _ _ _ _ _ _). destruct (updateStatus_spec g1) as (st & -> & Hcase). simpl.
  assert (Hl : j < length (board g)) by (destruct Hwf; lia).
  assert (Hwf1 : wf_board (<[j := "O"]> (board g))) by (apply wf_insert; auto).
  assert (HX : marks "X" (<[j := "O"]> (board g)) = marks "X" (board g)) by (rewrite marks_insert by done; simpl; lia).
  assert (HO : marks "O" (<[j := "O"]> (board g)) = S (marks "O" (board g))) by (rewrite marks_insert by done; simpl; lia).
  assert (HnX1 : ~ line "X" (<[j := "O"]> (board g))) by (intros HlX; by apply HnX, (line_insert_other _ j _ "O")).
  assert (Hlast : at_ (<[j := "O"]> (board g)) j = "O") by (rewrite at_insert by done; by rewrite decide_True).
  assert (Hfair : outcome (<[j := "O"]> (board g)) st -> fair (setStatus st g1)).
  { intros Hout. split; [done|]. split; [done|]. split; [simpl; lia|]. right. simpl. rewrite Nat2Z.id. split; [lia|done]. }
  split_and!; try done. apply Hfair. destruct Hcase as [(p & Hp & Hline & ->)|[Hno ->]].
  - destruct (line_mark _ p Hwf1 Hp Hline) as [->| ->]; [done|]. rewrite decide_False by done. apply o_wins; try done; lia.
  - simpl. rewrite (proj2 (Z.leb_gt _ _)) by lia. rewrite Hst. apply playing; [done|apply (Hno "O"); done|lia|lia].
Qed.

(** What a move request does to a game *)
Inductive moved (roll : Z) (g : TicTacToeGame) (position : Z) : TicTacToeGame -> Prop :=
| refused : status g <> "playing" \/ ~ (0 <= position < 9)%Z \/ at_ (board g) (Z.to_nat position) <> "" -> moved roll g position g
| ended g' : status g = "playing" -> (0 <= position < 9)%Z -> at_ (board g) (Z.to_nat position) = "" ->
    board g' = <[Z.to_nat position := "X"]> (board g) -> status g' = "x_wins" \/ status g' = "draw" -> moved roll g position g'
| answered g' mid a : status g = "playing" -> (0 <= position < 9)%Z -> at_ (board g) (Z.to_nat position) = "" ->
    mid = <[Z.to_nat position := "X"]> (board g) -> a < 9 -> at_ mid a = "" -> board g' = <[a := "O"]> mid -> lastAIMove g' = Z.of_nat a ->
    ((dumbAIMoveProbability <= roll)%Z -> strategic mid a) -> moved roll g position g'.

Lemma makeMove_spec roll now position g : fair g ->
  let g' := makeMove roll now position g in
  fair g' /\ moved roll g position g' /\ gameID g' = gameID g /\ createdAt g' = createdAt g.
Proof.
  intros Hf. unfold makeMove. case_bool_decide as Hst. { split_and!; try done. apply refused. auto. }
  destruct (_ || _)%Z eqn:Hp. { split_and!; try done. apply refused. right. left. apply orb_prop in Hp. destruct Hp; breflect; lia. }
  breflect. case_bool_decide as He. { split_and!; try done. apply refused. auto. }
  destruct (playX_spec (Z.to_nat position) g) as (Hb & Hid & Hca & Hcase); [done..|lia|done|].
  simpl. destruct Hcase as [[Hne Hf']|Ho].
  - rewrite bool_decide_true by done. split_and!; try done. apply ended; try done; [lia|].
    destruct Hf' as (_ & Hout & _). inversion Hout as [| ? Hx Hm | |]; auto; [|congruence].
    exfalso. assert (Hfair := Hf). destruct Hf as (Hwf & Hout0 & _). rewrite Hst in Hout0. apply outcome_playing in Hout0 as (_ & HnO & _).
    apply HnO, (line_insert_other _ (Z.to_nat position) _ "X"); try done; [destruct Hwf; lia|]. by rewrite <-Hb.
  - assert (Hos := Ho). destruct Ho as (Hwf & Hpl & HnX & HnO & Heq & Hle & _). rewrite bool_decide_false by (intros Hn; congruence).
    destruct (findAIMove_spec roll now (board (playX (Z.to_nat position) g))) as (a & -> & Ha & Hea & Hstr);
      [by destruct Hwf|apply empty_exists; [done|lia]|done|done|].
    destruct (playO_spec a _ Hos Ha Hea) as (Hb' & Hid' & Hca' & Hlast & Hf'). split_and!; [done| |congruence|congruence].
    eapply answered; try done; lia.
Qed.

(** ** The service *)

(** What a stored game becomes: the creation time passes through a [float64] *)
Definition reloaded (g : TicTacToeGame) : TicTacToeGame :=
  mkGame (gameID g) (board g) (status g) (moves g) (lastAIMove g) (to_int64 (of_int (int64 (createdAt g)))).

Definition fresh (id ty : string) : TicTacToeService := mkService id ty None None.

(** The lives of a service object: its requests, the ticks of its cleanup, and a new life from the stored data *)
Inductive served (valid : string -> bool) : TicTacToeService -> Prop :=
| S_new id ty : served valid (OnCreated (fresh id ty))
| S_load id ty s data now : served valid s -> ToData valid s = Some data ->
    served valid (OnCreated (FromData now (Some (Some data)) (fresh id ty)))
| S_newGame now id s st s' : served valid s -> NewGame now id s = Some (st, s') -> served valid s'
| S_move now roll position id s st s' : served valid s -> MakeMove now roll position id s = Some (st, s') -> served valid s'
| S_state now id s st s' : served valid s -> GetState now id s = Some (st, s') -> served valid s'
| S_tick now s : served valid s -> stopCh s = Some false -> served valid (cleanupGames now s)
| S_stop s s' : served valid s -> StopCleanup s = Some s' -> served valid s'.

Definition games_ok (s : TicTacToeService) : Prop :=
  exists gs, games s = Some gs /\ map_Forall (fun key g => gameID g = key /\ fair g) gs.

Lemma newGame_fair id now : fair (newGame id now).
Proof.
  split; [split; [done|repeat constructor; auto]|]. split; [|split; [done|by left]].
  apply playing; [| |done|vm_compute; lia]; intros ([[x y] z] & Hin & Hx & _).
  all: destruct (pattern_cells _ _ _ Hin) as (Hx9 & _); simpl in Hx; do 9 (destruct x as [|x]; [done|]); lia.
Qed.

(** A request acts on the named game, a new one when there is none, and on no other *)
Lemma request_spec change now id s : games_ok s -> exists gs,
  games s = Some gs /\
  let g := default (newGame (orDefaultID id) now) (gs !! orDefaultID id) in
  request change now id s = Some (getGameState (change g), withGames s (<[orDefaultID id := change g]> gs)) /\
  gameID g = orDefaultID id /\ fair g.
Proof.
  intros (gs & Hs & Hok). exists gs. split; [done|]. unfold request, getOrCreateGame. rewrite Hs. simpl.
  destruct (gs !! orDefaultID id) as [g|] eqn:E; simpl.
  - rewrite Hs. split; [done|]. apply (Hok _ _ E).
  - rewrite insert_insert_eq. split; [done|]. split; [done|apply newGame_fair].
Qed.

Lemma request_ok change now id s st s' :
  (forall g, fair g -> gameID (change g) = gameID g /\ fair (change g)) ->
  games_ok s -> request change now id s = Some (st, s') -> games_ok s'.
Proof.
  intros Hc Hok Hr. destruct (request_spec change now id s Hok) as (gs & Hs & Hreq & Hid & Hf).
  rewrite Hr in Hreq. simplify_eq. destruct Hok as (gs' & Hs' & Hall). rewrite Hs in Hs'. simplify_eq.
  eexists. split; [done|]. apply map_Forall_insert_2; [|done]. destruct (Hc _ Hf) as [-> ?]. done.
Qed.

Lemma small_roundtrip z : (-1 <= z <= 9)%Z -> to_int64 (of_int z) = z /\ to_int32 (of_int z) = z.
Proof. intros. assert (z = -1 \/ z = 0 \/ z = 1 \/ z = 2 \/ z = 3 \/ z = 4 \/ z = 5 \/ z = 6 \/ z = 7 \/ z = 8 \/ z = 9)%Z as Hz by lia.
  repeat (destruct Hz as [->|Hz]; [done|]). by subst. Qed.

Lemma restoreBoard_id b : length b = 9 -> restoreBoard (StringValue <$> b) = b.
Proof.
  intros Hl. unfold restoreBoard. rewrite <-list_fmap_compose. rewrite (list_fmap_ext _ id) by done. rewrite list_fmap_id.
  rewrite take_ge by lia. rewrite Hl, Nat.sub_diag. apply app_nil_r.
Qed.

Lemma restoreGame_gameData now key g : fair g -> restoreGame now key (gameData g) = reloaded g.
Proof.
  intros (Hwf & _ & Hm & Hla). pose proof (marks_bound _ Hwf). destruct Hwf as [Hl _].
  assert (Hr : restoreGame now key (gameData g) =
    mkGame (gameID g) (restoreBoard (StringValue <$> board g)) (status g) (to_int64 (of_int (moves g))) (to_int32 (of_int (lastAIMove g)))
      (to_int64 (of_int (int64 (createdAt g))))) by reflexivity.
  rewrite Hr, restoreBoard_id by done. rewrite (proj1 (small_roundtrip (moves g) ltac:(lia))).
  rewrite (proj2 (small_roundtrip (lastAIMove g) ltac:(lia))). done.
Qed.

Lemma FromData_ToData valid s data now id ty : games_ok s -> ToData valid s = Some data ->
  FromData now (Some (Some data)) (fresh id ty) = mkService id ty (Some (reloaded <$> default ∅ (games s))) None.
Proof.
  intros (gs & Hs & Hok) Hd. unfold ToData in Hd. rewrite Hs in *. simpl in Hd. destruct (_ && _) in Hd; [|done]. simplify_eq.
  unfold FromData. rewrite lookup_insert_ne, lookup_insert_ne, lookup_insert_eq by done. simpl. unfold withGames. do 2 f_equal.
  apply map_eq. intros key. rewrite (right_id_L ∅ (∪)), map_lookup_imap, !lookup_fmap.
  destruct (gs !! key) as [g|] eqn:E; simpl; [|done]. f_equal. apply restoreGame_gameData, (Hok _ _ E).
Qed.

Lemma served_ok valid s : served valid s -> games_ok s.
Proof.
  induction 1 as [id ty|id ty s data now _ IH Hd|now id s st s' _ IH Hr|now roll position id s st s' _ IH Hr|now id s st s' _ IH Hr
                 |now s _ IH _|s s' _ IH Hst].
  - exists ∅. split; [done|apply map_Forall_empty].
  - rewrite (FromData_ToData _ _ _ _ _ _ IH Hd). destruct IH as (gs & Hs & Hok). rewrite Hs. eexists. split; [done|].
    intros key g. simpl. rewrite lookup_fmap, fmap_Some. intros (g0 & Hg & ->). destruct (Hok _ _ Hg). done.
  - eapply request_ok; [|done|done]. intros g _. split; [done|apply newGame_fair].
  - eapply request_ok; [|done|done]. intros g Hg. destruct (makeMove_spec roll (Z.to_N now) position g Hg) as (? & ? & ? & ?). done.
  - eapply request_ok; [|done|done]. done.
  - destruct IH as (gs & Hs & Hok). unfold cleanupGames. rewrite Hs. eexists. split; [done|].
    intros key g. simpl. intros Hg%map_lookup_filter_Some. apply Hok, Hg.
  - destruct IH as (gs & Hs & Hok). unfold StopCleanup in Hst. destruct (stopCh s); simplify_eq. exists gs. done.
Qed.

(** In every life of the tic-tac-toe service, through its requests, cleanups and restarts from stored data, each
    game it keeps is fair: a board of nine cells whose marks alternate between X and O, counted by [moves], with
    the status the rules give to the board.  A move request is always answered, with the state of the game it
    names, and changes no other game; it is refused without effect on a finished game, an occupied cell or a
    position off the board, and otherwise puts X on the cell and, unless that ends the game, O on an empty one,
    which off the random moves wins when a win is there and blocks a win of X otherwise. *)
Theorem games_follow_rules valid s now roll position id :
  served valid s ->
  exists gs, games s = Some gs /\ map_Forall (fun key g => gameID g = key /\ fair g) gs /\
  exists g', MakeMove now roll position id s = Some (getGameState g', withGames s (<[orDefaultID id := g']> gs)) /\
    moved roll (default (newGame (orDefaultID id) now) (gs !! orDefaultID id)) position g' /\ fair g'.
Proof.
  intros Hs%served_ok. destruct (request_spec (makeMove roll (Z.to_N now) position) now id s Hs) as (gs & Hgs & Hreq & Hid & Hf).
  exists gs. split; [done|]. split; [destruct Hs as (gs' & Hgs' & ?); rewrite Hgs in Hgs'; by simplify_eq|]. eexists. split; [exact Hreq|].
  destruct (makeMove_spec roll (Z.to_N now) position _ Hf) as (? & ? & _). done.
Qed.

Lemma games_follow_rules_witness :
  let s1 := withGames (OnCreated (fresh "t" "T")) {["g" := newGame "g" 5]} in
  exists gs, games s1 = Some gs /\ map_Forall (fun key g => gameID g = key /\ fair g) gs /\
  exists g', MakeMove 7 50 4 "g" s1 = Some (getGameState g', withGames s1 (<["g" := g']> gs)) /\
    moved 50 (default (newGame "g" 7) (gs !! "g")) 4 g' /\ fair g'.
Proof.
  apply (games_follow_rules (fun _ => true) _ 7 50 4 "g").
  apply (S_state _ 5 "g" (OnCreated (fresh "t" "T")) (getGameState (newGame "g" 5))); [apply S_new|reflexivity].
Defined.

(** The constant strings of the stored form *)
Definition storedStrings : list string := fieldNames ++ [""; "X"; "O"; "x_wins"; "o_wins"; "draw"; "playing"].

(** Storing a tic-tac-toe service and loading the data into a new object brings back every game with its board,
    status, move count and last machine move, and its creation time rounded to a 64-bit float; it fails on no state
    of the service, provided the identifiers are strings the message format takes. *)
Theorem games_survive_restart valid s now id ty :
  served valid s ->
  valid (Id s) = true -> valid (Type_ s) = true -> (forall x, x ∈ storedStrings -> valid x = true) ->
  (forall key, key ∈ dom (default ∅ (games s)) -> valid key = true) ->
  exists data, ToData valid s = Some data /\
    OnCreated (FromData now (Some (Some data)) (fresh id ty)) = mkService id ty (Some (reloaded <$> default ∅ (games s))) (Some false).
Proof.
  intros Hs%served_ok Hid Hty Hc Hkeys. destruct (ToData valid s) as [data|] eqn:E.
  - exists data. split; [done|]. rewrite (FromData_ToData _ _ _ _ _ _ Hs E). destruct Hs as (gs & -> & _). done.
  - exfalso. revert E. destruct Hs as (gs & Hgs & Hok). unfold ToData. rewrite Hgs in *. simpl in *. rewrite Hid, Hty. simpl.
    assert (Hn : forall x, x ∈ fieldNames -> valid x = true) by (intros; apply Hc; unfold storedStrings; set_solver).
    rewrite !Hn by (apply list_elem_of_In; simpl; tauto). simpl. destruct (forallb _ _) eqn:Hb; [done|]. intros _. apply not_true_iff_false in Hb. apply Hb.
    apply forallb_forall. intros [key g] Hin%list_elem_of_In%elem_of_map_to_list. simpl. destruct (Hok _ _ Hin) as [Hk ([_ Hcells] & Hout & _)].
    unfold validGame. rewrite Hk, (Hkeys key) by (by apply elem_of_dom_2 in Hin). simpl.
    assert (Hst : valid (status g) = true) by (destruct Hout; apply Hc, list_elem_of_In; simpl; tauto).
    rewrite Hst, andb_true_r. apply forallb_forall. intros c Hcin%list_elem_of_In. rewrite Forall_forall in Hcells.
    apply Hc, list_elem_of_In. destruct (Hcells _ Hcin) as [->|[->| ->]]; simpl; tauto.
Qed.

Lemma games_survive_restart_witness :
  exists data, ToData (fun _ => true) (OnCreated (fresh "t" "T")) = Some data /\
    OnCreated (FromData 9 (Some (Some data)) (fresh "t" "T")) = mkService "t" "T" (Some (reloaded <$> default ∅ (games (OnCreated (fresh "t" "T"))))) (Some false).
Proof. apply (games_survive_restart (fun _ => true) _ 9 "t" "T"); [apply S_new|done..]. Defined.

(** The cleanup drops the finished games and those older than ten minutes, and no others. *)
Theorem cleanup_exact s gs now key : games s = Some gs ->
  (default ∅ (games (cleanupGames now s)) !! key = None <->
   forall g, gs !! key = Some g -> status g <> "playing" \/ (maxGameAge < timeSub now (createdAt g))%Z).
Proof.
  intros Hs. unfold cleanupGames. rewrite Hs. simpl. rewrite map_lookup_filter_None. unfold removable. split.
  - intros [Hn|Hr] g Hg; [congruence|]. specialize (Hr g Hg). simpl in Hr. apply not_false_is_true, orb_prop in Hr as [Hr|Hr]; breflect; auto.
  - intros Hr. destruct (gs !! key) as [g|] eqn:E; [|by left]. right. intros g' [= <-]. simpl. intros Hf. breflect.
    destruct (Hr g eq_refl); [done|lia].
Qed.

(** Ten of the hundred values of the random number lead to a random move. *)
Example random_move_share : length (filter (fun roll => (Z.of_nat roll < dumbAIMoveProbability)%Z) (seq 0 100)) = 10.
Proof. reflexivity. Qed.

(** The machine player loses to a fork of opposite corners. *)
Example fork_beats_ai :
  status (fold_left (fun g p => makeMove 50 0 p g) [0; 8; 6; 7; 3]%Z (newGame "g" 0)) = "x_wins".
Proof. reflexivity. Qed.

(** A creation time in nanoseconds does not survive the [float64] of the stored form. *)
Example createdAt_rounded : createdAt (reloaded (newGame "g" 1700000000123456789)) = 1700000000123456768%Z.
Proof. reflexivity. Qed.
