(* ===== verification/Samples.v ===== *)
(** * The small samples: wallet, counter and chat room

    [Module Wallets] (samples/wallet/server/wallet.go) is a class of the object model of Object.v, so that the theorems
    on reliable calls apply to it; [Module Counters] (samples/counter/server/counter.go); [Module Chat]
    (samples/chat/server/ChatRoom.go, ChatRoomMgr.go), whose methods the framework runs one at a time. *)

From S2P Require Import Prelude GoStrings Persistence Object ReliableCalls CallContext.
Import Proto Objects Context.

Module Wallets.

(** The messages of the service *)
Inductive WalletMsg : Type :=
| DepositRequest (Amount : Z)
| WithdrawRequest (Amount : Z)
| GetBalanceRequest
| WalletResponse (WalletId : string) (Balance : Z) (Ok_ : bool) (Reason : string).

Definition typeOf (m : WalletMsg) : string :=
  match m with
  | DepositRequest _ => "wallet.DepositRequest" | WithdrawRequest _ => "wallet.WithdrawRequest"
  | GetBalanceRequest => "wallet.GetBalanceRequest" | WalletResponse _ _ _ _ => "wallet.WalletResponse"
  end.

(** The methods on the balance of wallet [id] *)
Definition Deposit (id : string) (balance amount : Z) : Z * WalletMsg :=
  if (amount <=? 0)%Z then (balance, WalletResponse id balance false "amount must be positive")
  else let balance := int64 (balance + amount) in (balance, WalletResponse id balance true "").
Definition Withdraw (id : string) (balance amount : Z) : Z * WalletMsg :=
  if (amount <=? 0)%Z then (balance, WalletResponse id balance false "amount must be positive")
  else if (balance <? amount)%Z then (balance, WalletResponse id balance false "insufficient funds")
  else let balance := int64 (balance - amount) in (balance, WalletResponse id balance true "").
Definition GetBalance (id : string) (balance : Z) : Z * WalletMsg := (balance, WalletResponse id balance true "").

(** A method of the right signature; [InvokeMethod] has checked the type of the request *)
Definition method (reqType : string) (f : Z -> WalletMsg -> Z * WalletMsg) : Method Z WalletMsg :=
  mkMethod _ _ 2 true true 2 true true reqType (fun b m => let '(b, r) := f b m in (b, Ok r)).

(** The class [Wallet]: it is not persistent; [OnCreated] sets the balance to 0 *)
Definition Wallet (id : string) : Class Z WalletMsg () :=
  mkClass _ _ _ "Wallet"
    (fun m => if bool_decide (m = "Deposit") then Some (method "wallet.DepositRequest" (fun b m => match m with DepositRequest a => Deposit id b a | _ => (b, m) end))
              else if bool_decide (m = "Withdraw") then Some (method "wallet.WithdrawRequest" (fun b m => match m with WithdrawRequest a => Withdraw id b a | _ => (b, m) end))
              else if bool_decide (m = "GetBalance") then Some (method "wallet.GetBalanceRequest" (fun b _ => GetBalance id b))
              else None)
    0%Z BaseToData BaseFromData (fun _ => Ok "{}") (fun _ => Ok tt).

End Wallets.

Module Counters.

Record Counter : Type := mkCounter { Id : string; value : Z }.
Record CounterResponse : Type := mkResponse { Name : string; Value : Z }.
Definition respond (c : Counter) : Counter * CounterResponse := (c, mkResponse (Id c) (value c)).

(** [OnCreated], [Increment], [Decrement], [Get], [Reset] *)
Definition OnCreated (c : Counter) : Counter := mkCounter (Id c) 0.
Definition Increment (c : Counter) (amount : Z) : Counter * CounterResponse := respond (mkCounter (Id c) (int32 (value c + amount))).
Definition Decrement (c : Counter) (amount : Z) : Counter * CounterResponse := respond (mkCounter (Id c) (int32 (value c - amount))).
Definition Get (c : Counter) : Counter * CounterResponse := respond c.
Definition Reset (c : Counter) : Counter * CounterResponse := respond (mkCounter (Id c) 0).

End Counters.

Module Chat.

Record ChatMessage : Type := mkMessage { UserName : string; Message : string; Timestamp : Z }.
Record ChatRoom : Type := mkRoom { Id : string; users : gmap string bool; clientIDs : gmap string string; messages : list ChatMessage }.
Inductive chat_error : Type := Unauthenticated.

(** [OnCreated] *)
Definition OnCreated (room : ChatRoom) : ChatRoom := mkRoom (Id room) ∅ ∅ (messages room).

(** [Name]: [Id()[9:]]; [None] is the panic on a shorter id *)
Definition Name (room : ChatRoom) : option string :=
  if (9 <=? String.length (Id room))%nat then Some (String.substring 9 (String.length (Id room) - 9) (Id room)) else None.

(** [Join]: the room's name and two messages of the system; [None] is the panic of [Name], after the user is recorded *)
Definition Join (ctx : Ctx) (now : Z) (room : ChatRoom) : ChatRoom * option (result chat_error (string * list ChatMessage)) :=
  let userName := CallerUserID ctx in
  if bool_decide (userName = "") then (room, Some (Err Unauthenticated))
  else
    (mkRoom (Id room) (<[userName := true]> (users room)) (<[userName := ClientID ctx]> (clientIDs room)) (messages room),
     name ← Name room;
     Some (Ok (name, [mkMessage "SYSTEM" "Welcome to the chatroom!" now; mkMessage "SYSTEM" "Feel free to start chatting." now]))).

(** [SendMessage]: the response, and the push to the clients when there are any; [order] is the order of the iteration over
    the clients.  An error of the push is logged. *)
Definition SendMessage (ctx : Ctx) (now : Z) (text : string) (order : list string) (room : ChatRoom)
    : ChatRoom * result chat_error () * option (list string * ChatMessage) :=
  let userName := CallerUserID ctx in
  if bool_decide (userName = "") then (room, Err Unauthenticated, None)
  else
    let chatMsg := mkMessage userName text now in
    let ids := omap (fun u => clientIDs room !! u) order in
    (mkRoom (Id room) (users room) (clientIDs room) (messages room ++ [chatMsg]), Ok tt,
     if bool_decide (ids = []) then None else Some (ids, chatMsg)).

(** [ChatRoomMgr]: the rooms it creates, and what it lists *)
Definition chatRooms : list string := ["General"; "Technology"; "Crypto"; "Sports"; "Movies"].
Definition createdRooms : list (string * string) := (fun name => ("ChatRoom", "ChatRoom-" +:+ name)) <$> chatRooms.
Definition ListChatRooms : list string := chatRooms.

End Chat.

(** ** A wallet under reliable calls *)

Import Wallets.

Section Ledger.
Context {Any : Type} (rt : Runtime Any WalletMsg) (oid : string).
(** What the protobuf runtime says of a message *)
Context (types : forall m, msgType rt m = typeOf m).

(** What a client books for a call: the amount, when the response says that it was applied *)
Definition booked (req : WalletMsg) (r : result invoke_error WalletMsg) : Z :=
  match req, r with
  | DepositRequest a, Ok (WalletResponse _ _ true _) => a
  | WithdrawRequest a, Ok (WalletResponse _ _ true _) => (- a)%Z
  | _, _ => 0
  end.

(** The bookings for a sequence of calls on a balance *)
Fixpoint bookings (b : Z) (ks : list (Z * string * string)) : list Z :=
  match ks with
  | [] => []
  | k :: ks =>
      match BytesToMsg rt (Some k.2) with
      | Ok (Some req) => let '(b', r) := InvokeMethod rt (Wallet oid) b k.1.2 (Some req) in booked req r :: bookings b' ks
      | _ => 0%Z :: bookings b ks
      end
  end.
Fixpoint sum (l : list Z) : Z := match l with [] => 0 | x :: l => x + sum l end%Z.
Fixpoint deposits (l : list Z) : Z := match l with [] => 0 | x :: l => Z.max 0 x + deposits l end%Z.
Lemma deposits_nonneg l : (0 <= deposits l)%Z.
Proof. induction l as [|x l IH]; cbn [deposits]; lia. Qed.

(** One call: the balance changes by what is booked, and never below zero *)
Lemma invoke_booked b m req : (0 <= b)%Z -> let '(b', r) := InvokeMethod rt (Wallet oid) b m (Some req) in
  (b + Z.max 0 (booked req r) < 2 ^ 63)%Z -> b' = (b + booked req r)%Z /\ (0 <= b')%Z.
Proof.
  intros Hb. unfold InvokeMethod, Wallet. cbn. rewrite ?types.
  case_bool_decide; [|case_bool_decide; [|case_bool_decide]]; cbn; rewrite ?types; try (case_bool_decide; cbn); try (destruct req; cbn; intros; lia).
  all: destruct req; try done; cbn; try (intros; lia).
  - unfold Deposit. destruct (_ <=? _)%Z eqn:E; cbn; intros; [lia|]. breflect. rewrite int64_id; [lia|]. unfold in_int64. lia.
  - unfold Withdraw. destruct (_ <=? _)%Z eqn:E; cbn; [intros; lia|]. destruct (_ <? _)%Z eqn:E2; cbn; intros; [lia|]. breflect. rewrite int64_id; [lia|]. unfold in_int64. lia.
Qed.

Lemma invoke_none b m : fst (InvokeMethod rt (Wallet oid) b m None) = b.
Proof. unfold InvokeMethod. by repeat case_match. Qed.

Lemma bookings_balance ks : forall b, (0 <= b)%Z -> (b + deposits (bookings b ks) < 2 ^ 63)%Z ->
  run rt (Wallet oid) b ks = (b + sum (bookings b ks))%Z /\ (0 <= run rt (Wallet oid) b ks)%Z.
Proof.
  unfold run. induction ks as [|k ks IH]; intros b Hb Hd; [cbn; lia|]. cbn [fold_left bookings] in *. unfold effect at 2 4.
  destruct (BytesToMsg rt (Some k.2)) as [[req|]|e]; cbn [deposits sum] in Hd |- *; [|rewrite invoke_none; apply IH; lia|apply IH; lia].
  pose proof (invoke_booked b k.1.2 req Hb) as Hi. destruct (InvokeMethod rt (Wallet oid) b k.1.2 (Some req)) as [b' r].
  cbn [fst deposits sum] in Hd |- *. pose proof (deposits_nonneg (bookings b' ks)). destruct Hi as [Hb' Hnn]; [lia|].
  destruct (IH b' Hnn) as [-> ?]; [lia|]. lia.
Qed.
End Ledger.

(** C38: A wallet driven by reliable calls keeps its books.  In every calm run of a wallet's processing loops, with
    repeated calls, database failures, crashes and reactivations, the calls that have taken effect since the wallet
    was activated are calls of the table, each of them once and in the order of their sequence numbers, and as long as the
    deposits stay within 64 bits the balance is the sum of what the responses of these calls say was applied:
    deposits less withdrawals; it is never negative. *)
Theorem wallet_conserves {Any P : Type} `{PersistenceLaws P} (rt : Runtime Any WalletMsg) (oid : string)
    (w : world (St := Z) (P := P)) (o : BaseObject Z) :
  (forall m, msgType rt m = typeOf m) -> reachable rt (Wallet oid) oid true w -> wobj w = Some o ->
  exists ks, once (wp w) (nextRcseq o) ks /\
    ((deposits (bookings rt oid 0 ks) < 2 ^ 63)%Z -> st o = sum (bookings rt oid 0 ks) /\ (0 <= st o)%Z).
Proof.
  intros Ht Hw Ho.
  apply (reachable_cinv rt (Wallet oid) oid 0%Z) in Hw; [|done|intros s d j Hd; discriminate Hd].
  destruct (cinv_live _ _ _ _ w Hw o Ho) as (_ & _ & ks & Hon & Hst). exists ks. split; [done|]. intros Hd.
  destruct (bookings_balance rt oid Ht ks 0%Z) as [Hrun Hnn]; [lia|lia|]. rewrite Hst. split; [|done]. rewrite Hrun. lia.
Qed.

(** ** A run of a wallet *)

Module WalletRuns.

(** A message on the wire: a letter and the amount *)
Definition enc (m : WalletMsg) : string :=
  match m with DepositRequest a => "d" +:+ Itoa a | WithdrawRequest a => "w" +:+ Itoa a | GetBalanceRequest => "g" | WalletResponse _ b _ _ => "r" +:+ Itoa b end.
Definition dec (s : string) : result string WalletMsg :=
  match s with
  | String c r =>
      match Atoi r with
      | Some a => if bool_decide (c = "d"%char) then Ok (DepositRequest a) else if bool_decide (c = "w"%char) then Ok (WithdrawRequest a) else Err "bad wire type"
      | None => if bool_decide (s = "g") then Ok GetBalanceRequest else Err "bad wire type"
      end
  | EmptyString => Err "empty"
  end.
Definition rt : Runtime WalletMsg WalletMsg := mkRuntime _ _ Ok Ok (fun m => Ok (enc m)) dec typeOf.

Abbreviation wworld := (world (St := Z) (P := Postgres.DB)).
Definition w0 : wworld := mkW (Counter.db0 []) None [] [].

Lemma init_w0 : init "w" w0.
Proof. split_and!; try done; simpl; [split_and!; try done; [constructor|constructor|set_solver]|]. intros rc Hrc. simpl in Hrc. set_solver. Qed.

Definition cmds : list cmd :=
  [CActivate; CInsert "r1" "w" "Wallet" "Deposit" (Some "d70"); CInsert "r2" "w" "Wallet" "Withdraw" (Some "w100"); CInsert "r3" "w" "Wallet" "Withdraw" (Some "w30");
   CInsert "r1" "w" "Wallet" "Deposit" (Some "d70"); CCall 3 0; CLoop 0; CLoop 0; CLoop 0; CLoop 0; CLoop 0; CLoop 0; CLoop 0; CLoop 0].
Definition w1 : wworld := default w0 (do_cmds rt (Wallet "w") "w" true w0 cmds).
Lemma wallet_run_reachable : reachable rt (Wallet "w") "w" true w1.
Proof. apply (do_cmds_reachable rt (Wallet "w") "w" true w0 cmds); [apply init_w0|by vm_compute]. Qed.

End WalletRuns.

(** A deposit of 70, a refused withdrawal, a withdrawal of 30 and a repeated deposit leave 40. *)
Lemma wallet_conserves_witness :
  (st <$> wobj WalletRuns.w1) = Some 40%Z /\
  exists ks, once (wp WalletRuns.w1) 4 ks /\
    ((deposits (bookings WalletRuns.rt "w" 0 ks) < 2 ^ 63)%Z -> 40%Z = sum (bookings WalletRuns.rt "w" 0 ks) /\ (0 <= 40)%Z).
Proof.
  split; [by vm_compute|].
  apply (wallet_conserves WalletRuns.rt "w" WalletRuns.w1 (mkObj "w" "Wallet" 40%Z 4 true [] false)); [reflexivity|apply WalletRuns.wallet_run_reachable|by vm_compute].
Defined.

(** A crash takes the balance of a wallet with it: the deposit stays recorded as successful. *)
Theorem wallet_lost_in_crash :
  exists w, reachable WalletRuns.rt (Wallet "w") "w" true (w : WalletRuns.wworld) /\ (st <$> wobj w) = Some 0%Z /\
    Status <$> calls (wp w) = ["success"; "success"; "success"].
Proof.
  destruct (do_cmds WalletRuns.rt (Wallet "w") "w" true WalletRuns.w0 (WalletRuns.cmds ++ [CCrash; CActivate])) as [w|] eqn:E; [|by vm_compute in E].
  exists w. split; [eapply do_cmds_reachable; [apply WalletRuns.init_w0|exact E]|]. vm_compute in E. injection E as <-. by vm_compute.
Qed.

(** Two deposits of the largest amount make a balance negative. *)
Example wallet_overflows : (Deposit "w" (Deposit "w" 0 (2 ^ 63 - 1)).1 (2 ^ 63 - 1)).1 = (-2)%Z.
Proof. reflexivity. Qed.

(** ** The counter *)

Section CounterSum.
Import Counters.

(** Increments and decrements by amount; [None] resets *)
Definition change (c : Counter) (d : option (bool * Z)) : Counter :=
  match d with
  | Some (true, a) => (Increment c a).1
  | Some (false, a) => (Decrement c a).1
  | None => (Reset c).1
  end.
Fixpoint total (t : Z) (ds : list (option (bool * Z))) : Z :=
  match ds with
  | [] => t
  | Some (true, a) :: ds => total (t + a) ds
  | Some (false, a) :: ds => total (t - a) ds
  | None :: ds => total 0 ds
  end.

(** A counter is the sum of the changes since its last reset, modulo 2^32. *)
Theorem counter_sums ds : forall c t, value c = int32 t -> value (fold_left change ds c) = int32 (total t ds).
Proof.
  assert (Hadd : forall t a, int32 (int32 t + a) = int32 (t + a)).
  { intros t a. unfold int32, wraps. replace ((t + 2 ^ (32 - 1)) mod 2 ^ 32 - 2 ^ (32 - 1) + a + 2 ^ (32 - 1))%Z with ((t + 2 ^ (32 - 1)) mod 2 ^ 32 + a)%Z by lia.
    rewrite Zplus_mod_idemp_l. do 2 f_equal. lia. }
  induction ds as [|[[[] a]|] ds IH]; intros c t Hc; cbn [fold_left total]; [done|apply IH|apply IH|apply IH]; cbn.
  - by rewrite Hc, Hadd.
  - rewrite Hc. apply (Hadd t (- a)%Z).
  - done.
Qed.
End CounterSum.

(** ** The chat room *)

Section ChatRun.
Import Chat.

(** A client's call of a room *)
Inductive chat_op : Type := OpJoin (ctx : Ctx) (now : Z) | OpSend (ctx : Ctx) (now : Z) (text : string) (order : list string).
Definition chat_step (room : ChatRoom) (o : chat_op) : ChatRoom :=
  match o with OpJoin ctx now => (Join ctx now room).1 | OpSend ctx now text order => (SendMessage ctx now text order room).1.1 end.

(** The last client from which each user has joined, and the messages of named users *)
Definition joined (l : gmap string string) (o : chat_op) : gmap string string :=
  match o with OpJoin ctx _ => if bool_decide (CallerUserID ctx = "") then l else <[CallerUserID ctx := ClientID ctx]> l | _ => l end.
Definition said (o : chat_op) : option ChatMessage :=
  match o with OpSend ctx now text _ => if bool_decide (CallerUserID ctx = "") then None else Some (mkMessage (CallerUserID ctx) text now) | _ => None end.

Lemma chat_run ops : forall room, let room' := fold_left chat_step ops room in
  clientIDs room' = fold_left joined ops (clientIDs room) /\ messages room' = messages room ++ omap said ops.
Proof.
  induction ops as [|o ops IH]; intros room; cbn [fold_left omap list_omap]; [by rewrite app_nil_r|].
  destruct (IH (chat_step room o)) as [-> ->]. destruct o; cbn; unfold Join, SendMessage; case_bool_decide; cbn; split; try done.
  by rewrite <-app_assoc.
Qed.

(** A room keeps the messages of all users with an identity, in order, and sends each new one to the clients from which
    its users have joined last, one per user. *)
Theorem chat_delivers ops id ctx now text order :
  CallerUserID ctx <> "" ->
  let room := fold_left chat_step ops (OnCreated (mkRoom id ∅ ∅ [])) in
  order ≡ₚ (map_to_list (clientIDs room)).*1 ->
  let '(room', r, push) := SendMessage ctx now text order room in
  r = Ok tt /\ messages room' = omap said ops ++ [mkMessage (CallerUserID ctx) text now] /\
  default [] (fst <$> push) ≡ₚ (map_to_list (fold_left joined ops ∅)).*2.
Proof.
  intros Hu room Hord. destruct (chat_run ops (OnCreated (mkRoom id ∅ ∅ []))) as [Hc Hm]. fold room in Hc, Hm. cbn in Hc, Hm.
  unfold SendMessage. rewrite bool_decide_false by done. cbn. split; [done|]. split; [by rewrite Hm|]. rewrite <-Hc.
  assert (Hids : omap (fun u => clientIDs room !! u) order ≡ₚ (map_to_list (clientIDs room)).*2).
  { rewrite Hord. assert (Hall : forall l, (forall k v, (k, v) ∈ l -> clientIDs room !! k = Some v) -> omap (fun u => clientIDs room !! u) l.*1 = l.*2).
    { induction l as [|[k v] l IH]; intros Hl; [done|]. cbn. rewrite (Hl k v) by left. f_equal. apply IH. intros k' v' Hk. apply Hl. by right. }
    rewrite Hall; [done|]. intros k v Hk. by apply elem_of_map_to_list in Hk. }
  case_bool_decide as E; cbn; [by rewrite <-Hids, E|done].
Qed.
End ChatRun.

(** Nothing checks that the sender has joined the room. *)
Example stranger_speaks :
  let ctx := mkCtx (Some "c") (Some (mkCaller "eve" [])) ∅ None None in
  (Chat.SendMessage ctx 0 "hi" [] (Chat.OnCreated (Chat.mkRoom "ChatRoom-General" ∅ ∅ []))).1.2 = Ok tt.
Proof. reflexivity. Qed.
